(* ===== verification/_CoqProject ===== *)
-Q . S2P
Prelude.v
Errors.v
Bytes.v
Memcpy.v
Cpu.v
Io.v
Circular.v
Bitops.v
Byteorder.v
Hash.v
Bitmap.v
Dump.v
Fifo.v
Lifo.v
Atomic.v
Locks.v
Shm.v
Mem.v
MathVal.v
Ring.v
Htable.v
HtRep.v
Index.v
KMap.v
Addr.v
AddrPrint.v
Elf.v
KString.v
KSet.v
KList.v
Plugin.v
Loader.v
Ddb.v
Rb.v
RbBalance.v
RbHeader.v
Timer.v
Thread.v
Log.v
LogPrint.v
Event.v
EventSet.v
EventPoll.v
EventBack.v
Socket.v
SocketReg.v
SocketConn.v
Usock.v
