(* ===== verification/Prelude.v ===== *)
(** * kylin: a verification library of the base library's core

    kylin is a C library: containers over generic values, bit and byte-order
    primitives, locks and atomics, and services (events, sockets, timers, logs,
    threads, shared memory, modules) built on them.  This development models
    the data structures and primitives as executable definitions and proves
    what makes them correct, or where they are not.

    ** How the code is modelled

    - An integer of width [w] is a [Z] in [0, 2^w); [uw w] is the wrap of an
      unsigned operation, [sw w] the signed reading.  Every operation whose
      overflow the code can meet has it written out.
    - A C function returns an [outcome]: [Ok], [Ub] (a NULL or dangling
      dereference, an access outside an object, a double free) or [OutOfFuel].
      Functions with state are in the monad [M S]: state in, result and state
      out.  Loops that walk pointers have fuel, as much as there are live
      objects plus one ([fuel_of]), so they run out only on a cycle; the
      theorems state results, so they include that the fuel suffices.  Counting
      loops are [for_each] over their indices, or have a fuel computed from
      their bound.
    - The heap ([Mem]) maps the base address of an object to its bytes; nodes of
      linked structures are objects of 64-bit words.  Addresses are never
      reused, allocation may fail by a list of coming failures.  The class
      [HasMem] is what a field access needs of a component's state.
    - Allocators, destructors and comparison functions of the options
      structures are arguments, as is the search of the MAC parser of [Addr]: it
      calls [kylin_strchr] with three arguments, the only function of that name
      has two of other types.

    ** The files

    - [Prelude]: outcomes, machine integers, array and loop lemmas.
    - [Errors]: the codes of [include/utils/kylin_error.h].
    - [Bytes]: little-endian readings, [memcpy] on arrays.  [Circular]: reading
      and writing around the end of an array, shared by [Fifo] and [Ring].
    - [Bitops], [Byteorder]: [include/arch] bit operations and conversions;
      [Hash]: [include/utils/kylin_hash.h].
    - [Bitmap], [Fifo], [Lifo], [KString], [KSet], [KList], [Rb]: the files
      [kylin_bitmap.c], [kylin_fifo.c], [kylin_lifo.c], [kylin_string.c],
      [kylin_set.c], [kylin_list.c], [kylin_rb.c] of [lib/core/math].
    - [Atomic], [Locks]: [include/arch/kylin_atomic.h], the spin lock and the
      read/write lock; [Ring]: the lock-free ring [kylin_ring.c].  Their
      functions are step functions, one step per atomic access, so that
      threads interleave.
    - [Memcpy]: [include/arch/x86/kylin_memcpy.h], on a map from addresses to
      bytes.  [Io]: [include/arch/kylin_io.h], as accesses and barriers.
      [Cpu]: [lib/core/arch/x86/kylin_cpuflag.c].  [Dump]:
      [lib/core/utils/kylin_hexdump.c], the numbers of
      [include/utils/kylin_version.h], and [kylin_autoid.c] on [Bitmap].
    - [Mem], [MathVal]: the heap and the value union of [kylin_math.h], on which
      [KSet], [KList] and [Rb] build.
    - [Htable]: the chained hash table with incremental rehash that
      [kylin_index.c] and [kylin_map.c] both contain, over a class of node
      layouts ([HashNode]); [HtRep]: what it represents, and every operation
      against that; [Index], [KMap]: the two files as instances.
    - [RbBalance]: the two rebalancing loops of [Rb] against red-black trees;
      [RbHeader]: what the operations of [Rb] leave of a tree's header, with the
      hints ([header]) its clients use.
    - [Plugin]: steps of the heap with what they leave alone, lists of pointers
      and tables of plug-ins with reference counts, for the registries.
    - [Addr], [AddrPrint]: [include/utils/kylin_addr.h]; [Elf]: the symbol tables of
      [lib/core/kylin_core_module_elf.c].  [Loader]: the modules of
      [kylin_core_module.c], over [KList] and [Elf].
    - [Shm]: [lib/core/ipc/shm], over a history of system calls.  [Timer]:
      [lib/core/timer], over [Rb] and [Locks].  [Log]: [lib/core/log], over
      [Rb] and [Ring]; [LogPrint]: its printers, in [log/plugin].  [Thread]: [lib/core/thread], over [Rb].  [Ddb]:
      [lib/core/ddb], over [KList], [Shm] and a map of files.
    - [Socket]: [lib/core/socket] with its three back ends, over [KList] and a
      history of system calls; [SocketImpl] states what the registry asks of a
      back end, with one instance each.  [SocketReg]: the registry;
      [SocketConn]: connections.
    - [Event]: [lib/core/event] with its three back ends for Linux, over [KSet],
      [KList] and a history of system calls.  [EventSet]: the events of a loop;
      [EventPoll]: waiting with [poll]; [EventBack]: [select] and [epoll].
    - [Usock]: [lib/core/ipc/usock], requests over Unix sockets: the sockets of
      [Socket], the loops of [Event], a tree of [Rb] and the lists of [KList] in
      one heap.

    Operations keep the names of the C functions; a structure is a record, its
    guard or header included, whose fields are in the order of the source.

    ** What is proved

    - Refinement: [KMap] is a finite map and [Index] a set of values along every
      sequence of calls, with all expansions and migrations in between
      ([run_all], [spec_all] and [simulation] below); [Fifo] is a bounded queue along
      the sequences that neither fill it exactly nor exceed it, [Lifo] a bounded
      stack, [Ring] a queue when uncontended.
      [Shm] is a finite map of names, and the registry of [Socket] a finite map
      of registered types with a set of live sockets; the events of a loop of
      [Event] are a list of descriptors with flags.
    - Concurrency: mutual exclusion of the spin lock, the reader/writer
      invariant, the positions of the ring with one producer and one consumer,
      the release count of the atomics, by induction on the reachable states.
    - Linked structures, against the list or tree the heap holds: insertion at
      any place, removal, joining and positions of [KList]; search, neighbours,
      rotations and what insertion leaves for [Rb]; both rebalancing loops
      restore the red-black properties ([RbBalance]).
    - Functional specifications bit by bit or byte by byte: [Bitmap], [KString],
      [KSet], [MathVal], [Hash], [Bitops], [Addr]; round trips of [Byteorder],
      of the network masks and of ELF symbol tables.
      The vector copy is [memcpy] whatever the size and the alignment ([Memcpy]),
      every processor feature is read from its own bit ([Cpu]), the dumps print
      every byte and stay within their line ([Dump]), a configuration file is
      read line by line ([Loader]), the logs rotate ([Ddb]), every message is a
      line of the file ([LogPrint]), accesses to registers stay in order ([Io]),
      different addresses are printed differently ([AddrPrint]).
    - Defects, stated as theorems about the code as it is: the byte queue lost
      by an exact fill, the stack's underflow guard, the bitmap's wrapping
      bounds check and the range of bits that ends at the wrong place, the ring slot read before it is written, [strcat] that
      appends nothing visible, [strcmp] on prefixes, the list that cannot be
      cleared, the position never found, the key a map accepts twice, the tree
      that forgets its nodes, the search that returns the previous node, the
      rounding to a power of two, the timers that never run, the events that
      overrun an array, the Unix client that is never registered nor opened, the
      connections closed because they were linked and the requests that are
      dropped, the thread that is freed because it was linked, the module whose
      name goes where a pointer never set happens to point, the record of former runs that is wiped when it is read.
      Lemmas without a number show further ones on concrete inputs.

    ** What is not modelled

    - The system, the network, the dynamic linker, the shell and the thread
      library: their calls are recorded, their answers are arguments.  What a
      user of the library passes as a function is an argument too.
    - [kylin_kqueue.c], the event back end of FreeBSD: it calls functions that
      do not exist and does not compile.
    - [kylin_list_hpi.h] and [kylin_rb_hpi.h]: the BSD macros, copied from there.
    - [kylin_vect.h], [kylin_cycles.h]: names of vector types and single
      machine instructions.
    - [include/sys] and [lib/core/sys], [lib/dcf], [lib/http], [lib/amqp],
      [tools], [wrap]: prototypes, stubs and empty files. *)

From Stdlib Require Export ZArith Lia Bool.
From Stdlib Require List.
From stdpp Require Export base tactics numbers list gmap.

#[global] Open Scope Z_scope.
#[global] Set Default Proof Using "Type".

(** ** Outcomes

    A C function that the model runs either returns ([Ok]), executes
    something the C standard leaves undefined ([Ub]: a NULL or dangling
    dereference, a read outside an object, a double free, a wild write), or
    exhausts the fuel given to one of its loops ([OutOfFuel]).  [OutOfFuel]
    is a value of its own so that totality can be stated. *)
Inductive outcome (A : Type) : Type :=
| Ok (a : A)
| Ub
| OutOfFuel.
Arguments Ok {A} a.
Arguments Ub {A}.
Arguments OutOfFuel {A}.

#[export] Instance outcome_ret : MRet outcome := fun A a => Ok a.
#[export] Instance outcome_bind : MBind outcome := fun A B f m =>
  match m with Ok a => f a | Ub => Ub | OutOfFuel => OutOfFuel end.
#[export] Instance outcome_eq_dec {A} `{EqDecision A} : EqDecision (outcome A).
Proof. solve_decision. Defined.

(** State passing over outcomes: the C functions that read and write memory. *)
Definition M (S A : Type) : Type := S -> outcome (A * S).
#[export] Instance M_ret {S} : MRet (M S) := fun A a s => Ok (a, s).
#[export] Instance M_bind {S} : MBind (M S) := fun A B f m s =>
  match m s with
  | Ok (a, s') => f a s'
  | Ub => Ub
  | OutOfFuel => OutOfFuel
  end.
Definition get_st {S} : M S S := fun s => Ok (s, s).
Definition put_st {S} (s : S) : M S unit := fun _ => Ok (tt, s).
Definition modify_st {S} (f : S -> S) : M S unit := fun s => Ok (tt, f s).
Definition ub {S A} : M S A := fun _ => Ub.
Definition out_of_fuel {S A} : M S A := fun _ => OutOfFuel.
(** Reading an optional value that the C code dereferences without a check. *)
Definition deref {S A} (o : option A) : M S A := fun s =>
  match o with Some a => Ok (a, s) | None => Ub end.

Lemma bind_Ok {S A B} (m : M S A) (f : A -> M S B) s a s' :
  m s = Ok (a, s') -> (m ≫= f) s = f a s'.
Proof. unfold mbind, M_bind. by intros ->. Qed.

Lemma bind_Ub {S A B} (f : M S A) (g : A -> M S B) s : f s = Ub -> (x ← f; g x) s = Ub.
Proof. intros E. unfold mbind, M_bind. by rewrite E. Qed.

Lemma bind_Ok_inv {S A B} (m : M S A) (f : A -> M S B) s r :
  (m ≫= f) s = Ok r -> exists a s', m s = Ok (a, s') /\ f a s' = Ok r.
Proof. unfold mbind, M_bind. destruct (m s) as [[a s']| |]; naive_solver. Qed.

(** [run E]: the next call of a sequence returns what [E] says. *)
Ltac run E := rewrite (bind_Ok _ _ _ _ _ E); cbv beta.

(** ** Machine integers

    A [w]-bit unsigned integer is a [Z] in [0, 2^w); [uw w] is the reduction
    C applies when a value is converted or an operation wraps, [sw w] the
    two's-complement reading of the same bits. *)
Definition uw (w z : Z) : Z := z mod 2 ^ w.
Definition sw (w z : Z) : Z :=
  let r := z mod 2 ^ w in if r <? 2 ^ (w - 1) then r else r - 2 ^ w.
Abbreviation u8 := (uw 8).
Abbreviation u16 := (uw 16).
Abbreviation u32 := (uw 32).
Abbreviation u64 := (uw 64).
Abbreviation s32 := (sw 32).
Abbreviation s64 := (sw 64).
Definition is_u (w z : Z) : Prop := 0 <= z < 2 ^ w.

Definition NULL : Z := 0.

(** C truth values. *)
Definition kbool (b : bool) : Z := if b then 1 else 0.

Lemma pow2_pos w : 0 <= w -> 0 < 2 ^ w.
Proof. intros. apply Z.pow_pos_nonneg; lia. Qed.

Lemma uw_range w z : 0 <= w -> is_u w (uw w z).
Proof. intros. apply Z.mod_pos_bound, pow2_pos; done. Qed.

Lemma uw_nonneg w z : 0 <= w -> 0 <= uw w z.
Proof. intros Hw. apply (uw_range w z Hw). Qed.

Lemma uw_id w z : is_u w z -> uw w z = z.
Proof. intros. by apply Z.mod_small. Qed.

Lemma s32_id z : 0 <= z < 2 ^ 31 -> s32 z = z.
Proof.
  intros. unfold sw. rewrite Z.mod_small by lia. by rewrite (proj2 (Z.ltb_lt _ _)) by lia.
Qed.

Lemma uw_uw w z : 0 <= w -> uw w (uw w z) = uw w z.
Proof. intros. apply Zmod_mod. Qed.

Lemma uw_land w z : 0 <= w -> uw w z = Z.land z (Z.ones w).
Proof. intros. by rewrite Z.land_ones. Qed.

Lemma testbit_uw w z i :
  0 <= w -> Z.testbit (uw w z) i = (i <? w) && Z.testbit z i.
Proof.
  intros Hw. unfold uw. destruct (Z.ltb_spec i w).
  - destruct (Z.leb_spec 0 i).
    + by rewrite Z.mod_pow2_bits_low.
    + by rewrite !Z.testbit_neg_r.
  - by rewrite Z.mod_pow2_bits_high by lia.
Qed.

Lemma testbit_is_u w z i : is_u w z -> w <= i -> 0 <= w -> Z.testbit z i = false.
Proof.
  intros Hz Hi Hw. rewrite <- (uw_id w z Hz), testbit_uw by lia.
  by destruct (Z.ltb_spec i w); [lia|].
Qed.

(** Equality of [w]-bit integers is equality of their [w] bits. *)
Lemma u_bits_inj w x y :
  0 <= w -> is_u w x -> is_u w y ->
  (forall i, 0 <= i < w -> Z.testbit x i = Z.testbit y i) -> x = y.
Proof.
  intros Hw Hx Hy H. apply Z.bits_inj'. intros i Hi.
  destruct (Z.lt_ge_cases i w); [apply H; lia|].
  by rewrite !(testbit_is_u w) by (done || lia).
Qed.

Lemma is_u_bits w z :
  0 <= w -> 0 <= z -> (forall i, w <= i -> Z.testbit z i = false) -> is_u w z.
Proof.
  intros Hw Hz H. enough (uw w z = z) as <- by (by apply uw_range).
  apply Z.bits_inj'. intros i Hi. rewrite testbit_uw by done.
  destruct (Z.ltb_spec i w); simpl; [done|]. symmetry. apply H. lia.
Qed.

Lemma is_u_land w x y : 0 <= w -> is_u w x -> 0 <= y -> is_u w (Z.land x y).
Proof.
  intros Hw Hx Hy. apply is_u_bits; [done|apply Z.land_nonneg; unfold is_u in *; lia|].
  intros i Hi. by rewrite Z.land_spec, (testbit_is_u w x) by (done || lia).
Qed.

Lemma is_u_lor w x y : 0 <= w -> is_u w x -> is_u w y -> is_u w (Z.lor x y).
Proof.
  intros Hw Hx Hy. apply is_u_bits; [done|apply Z.lor_nonneg; unfold is_u in *; lia|].
  intros i Hi. by rewrite Z.lor_spec, !(testbit_is_u w) by (done || lia).
Qed.

Lemma is_u_lxor w x y : 0 <= w -> is_u w x -> is_u w y -> is_u w (Z.lxor x y).
Proof.
  intros Hw Hx Hy. apply is_u_bits; [done| |].
  - apply Z.lxor_nonneg. unfold is_u in *. lia.
  - intros i Hi. by rewrite Z.lxor_spec, !(testbit_is_u w) by (done || lia).
Qed.

Lemma is_u_shiftr w x n : 0 <= w -> is_u w x -> 0 <= n -> is_u w (Z.shiftr x n).
Proof.
  intros Hw Hx Hn. apply is_u_bits; [done|apply Z.shiftr_nonneg; unfold is_u in *; lia|].
  intros i Hi. by rewrite Z.shiftr_spec, (testbit_is_u w x) by (done || lia).
Qed.

Create HintDb kylin.
Create Rewrite HintDb bits.
#[export] Hint Resolve pow2_pos uw_range is_u_land is_u_lor is_u_lxor is_u_shiftr : kylin.
#[export] Hint Rewrite Z.land_spec Z.lor_spec Z.lxor_spec Z.ldiff_spec testbit_uw
  using (first [done | lia]) : bits.
#[export] Hint Rewrite Z.shiftr_spec Z.shiftl_spec Z.lnot_spec
  using (first [done | lia]) : bits.

(** ** List helpers the components share *)

(** [take]/[drop] splicing: what a [memcpy] of [src] to offset [off] does to
    the destination array. *)
Definition splice {A} (dst : list A) (off : nat) (src : list A) : list A :=
  take off dst ++ src ++ drop (off + length src) dst.

Lemma length_splice {A} (dst src : list A) off :
  (off + length src <= length dst)%nat -> length (splice dst off src) = length dst.
Proof. intros. unfold splice. rewrite !length_app, length_take, length_drop. lia. Qed.

Lemma lookup_splice_in {A} (dst src : list A) off i :
  (off <= length dst)%nat -> (off <= i < off + length src)%nat ->
  splice dst off src !! i = src !! (i - off)%nat.
Proof.
  intros. unfold splice.
  rewrite lookup_app_r by (rewrite length_take; lia).
  rewrite length_take, Nat.min_l by lia. by rewrite lookup_app_l by lia.
Qed.

Lemma lookup_splice_out {A} (dst src : list A) off i :
  (off + length src <= length dst)%nat -> (i < off \/ off + length src <= i)%nat ->
  splice dst off src !! i = dst !! i.
Proof.
  intros Hl Hi. unfold splice. destruct Hi as [Hi|Hi].
  - rewrite lookup_app_l by (rewrite length_take; lia). by rewrite lookup_take_lt by lia.
  - rewrite lookup_app_r by (rewrite length_take; lia).
    rewrite lookup_app_r by (rewrite length_take; lia).
    rewrite length_take, Nat.min_l, lookup_drop by lia. f_equal. lia.
Qed.

(** A list of lists at one of its positions. *)
Lemma split_at_index {A} (l : list A) i x : l !! i = Some x ->
  exists l1 l2, l = l1 ++ x :: l2 /\ i = length l1 /\ forall y, <[i := y]> l = l1 ++ y :: l2.
Proof.
  intros Hi. exists (take i l), (drop (S i) l).
  pose proof (lookup_lt_Some _ _ _ Hi). split_and!.
  - by rewrite take_drop_middle.
  - rewrite length_take. lia.
  - intros y. by apply insert_take_drop.
Qed.

Lemma elem_of_concat {A} (ls : list (list A)) x : x ∈ concat ls <-> exists l, x ∈ l /\ l ∈ ls.
Proof.
  rewrite list_elem_of_In, List.in_concat.
  setoid_rewrite list_elem_of_In. split; intros (l & H1 & H2); eauto.
Qed.

(** What one of the lists is replaced by. *)
Lemma concat_insert {A} (ls : list (list A)) i l : ls !! i = Some l ->
  exists rest, concat ls ≡ₚ l ++ rest /\ forall l', concat (<[i := l']> ls) ≡ₚ l' ++ rest.
Proof.
  intros Hi. destruct (split_at_index ls i l Hi) as (l1 & l2 & E1 & _ & E2).
  exists (concat l1 ++ concat l2). split.
  - rewrite E1, concat_app. simpl. apply Permutation_app_swap_app.
  - intros l'. rewrite E2, concat_app. simpl. apply Permutation_app_swap_app.
Qed.

(** Array accesses: an index outside the array is undefined. *)
Definition rd {A} (l : list A) (i : nat) : outcome A :=
  match l !! i with Some x => Ok x | None => Ub end.
Definition wr {A} (l : list A) (i : nat) (x : A) : outcome (list A) :=
  if (i <? length l)%nat then Ok (<[i := x]> l) else Ub.

Lemma rd_lt {A} (l : list A) i : (i < length l)%nat -> exists x, rd l i = Ok x /\ l !! i = Some x.
Proof. intros Hi. destruct (lookup_lt_is_Some_2 l i Hi) as [x Hx]. exists x. unfold rd. by rewrite Hx. Qed.

Lemma wr_lt {A} (l : list A) i x : (i < length l)%nat -> wr l i x = Ok (<[i := x]> l).
Proof. intros Hi. unfold wr. by destruct (Nat.ltb_spec i (length l)); [|lia]. Qed.

(** A [for] loop over a list of indices, the body a function of the state:
    [seq 0 n] counts up, [rev (seq 0 n)] counts down. *)
Fixpoint for_each {A S : Type} (f : S -> A -> outcome S) (s : S) (l : list A) : outcome S :=
  match l with
  | [] => Ok s
  | i :: l => s' ← f s i; for_each f s' l
  end.

Lemma for_each_app {A S : Type} (f : S -> A -> outcome S) s l1 l2 :
  for_each f s (l1 ++ l2) = (for_each f s l1 ≫= fun s' => for_each f s' l2).
Proof.
  revert s. induction l1 as [|i l1 IH]; intros s; [done|]. simpl.
  destruct (f s i); simpl; auto.
Qed.

(** Loop invariants: [P i] before iteration [i] of the upward loop, after
    which it holds at [n]; for the downward loop, at 0. *)
Lemma for_up_inv {S : Type} (P : nat -> S -> Prop) (f : S -> nat -> outcome S) n s :
  P 0%nat s ->
  (forall i s, (i < n)%nat -> P i s -> exists s', f s i = Ok s' /\ P (i + 1)%nat s') ->
  exists s', for_each f s (seq 0 n) = Ok s' /\ P n s'.
Proof.
  intros H0 Hstep. induction n as [|n IH]; [by exists s|].
  destruct IH as (s' & E & Hs'); [intros; apply Hstep; auto; lia|].
  destruct (Hstep n s') as (s'' & E' & Hs''); [lia|done|].
  exists s''. replace (n + 1)%nat with (Datatypes.S n) in Hs'' by lia. split; [|done].
  rewrite seq_S, for_each_app, E. simpl. by rewrite E'.
Qed.

Lemma for_down_inv {S : Type} (P : nat -> S -> Prop) (f : S -> nat -> outcome S) n s :
  P n s ->
  (forall i s, (i < n)%nat -> P (i + 1)%nat s -> exists s', f s i = Ok s' /\ P i s') ->
  exists s', for_each f s (rev (seq 0 n)) = Ok s' /\ P 0%nat s'.
Proof.
  revert s. induction n as [|n IH]; intros s Hn Hstep; [by exists s|].
  rewrite seq_S, rev_app_distr. simpl.
  destruct (Hstep n s) as (s' & -> & Hs'); [lia|by replace (n + 1)%nat with (Datatypes.S n) by lia|].
  simpl. apply IH; [done|]. intros; apply Hstep; auto; lia.
Qed.

(** The loop [for i < n: dst[i] = g i]. *)
Lemma for_write_spec {A} (g : nat -> outcome A) (h : nat -> A) n (dst : list A) :
  (n <= length dst)%nat -> (forall i, (i < n)%nat -> g i = Ok (h i)) ->
  exists dst', for_each (fun d i => x ← g i; wr d i x) dst (seq 0 n) = Ok dst' /\
    length dst' = length dst /\
    forall i, dst' !! i = if decide (i < n)%nat then Some (h i) else dst !! i.
Proof.
  intros Hn Hg.
  destruct (for_up_inv (fun k d => length d = length dst /\
    forall i, d !! i = if decide (i < k)%nat then Some (h i) else dst !! i)
    (fun d i => x ← g i; wr d i x) n dst) as (d & E & Hd); [done| |by exists d].
  intros k d Hk [Hl Hd]. rewrite Hg by done. simpl.
  exists (<[k := h k]> d). rewrite wr_lt by lia. split; [done|].
  rewrite length_insert. split; [done|]. intros i.
  destruct (decide (i = k)) as [->|Hne].
  - rewrite list_lookup_insert_eq by lia. by rewrite decide_True by lia.
  - rewrite list_lookup_insert_ne, Hd by done.
    destruct (decide (i < k)%nat), (decide (i < k + 1)%nat); done || lia.
Qed.

(** The scan [for i < n: if p i return r] where every [p i] is defined. *)
Fixpoint scan {A} (p : A -> outcome bool) (l : list A) : outcome bool :=
  match l with
  | [] => Ok false
  | i :: l => p i ≫= fun b : bool => if b then Ok true else scan p l
  end.

Lemma scan_spec {A} (p : A -> outcome bool) (q : A -> bool) l :
  (forall i, i ∈ l -> p i = Ok (q i)) -> scan p l = Ok (existsb q l).
Proof.
  induction l as [|i l IH]; intros H; [done|]. simpl.
  rewrite H by set_solver. simpl. destruct (q i); [done|]. apply IH. set_solver.
Qed.

(** The search [for i: if p i return i]. *)
Fixpoint find_idx (p : nat -> outcome bool) (l : list nat) : outcome (option nat) :=
  match l with
  | [] => Ok None
  | i :: l => p i ≫= fun b : bool => if b then Ok (Some i) else find_idx p l
  end.

Lemma find_idx_spec (p : nat -> outcome bool) (q : nat -> bool) l :
  (forall i, i ∈ l -> p i = Ok (q i)) -> find_idx p l = Ok (List.find q l).
Proof.
  induction l as [|i l IH]; intros H; [done|]. simpl.
  rewrite H by set_solver. simpl. destruct (q i); [done|]. apply IH. set_solver.
Qed.

Lemma find_seq_Some (q : nat -> bool) k n i :
  List.find q (seq k n) = Some i <->
  (k <= i < k + n)%nat /\ q i = true /\ forall j, (k <= j < i)%nat -> q j = false.
Proof.
  revert k. induction n as [|n IH]; intros k; [split; [done|lia]|]. simpl.
  destruct (q k) eqn:Ek.
  - split; [intros [= <-]; split_and!; done || lia|].
    intros (Hi & Hq & Hlow). destruct (decide (i = k)) as [->|]; [done|].
    rewrite Hlow in Ek by lia. done.
  - rewrite IH. split; intros (Hi & Hq & Hlow); (split; [|split; [done|]]).
    + lia.
    + intros j Hj. destruct (decide (j = k)) as [->|]; [done|]. apply Hlow. lia.
    + destruct (decide (i = k)) as [->|]; [congruence|lia].
    + intros j Hj. apply Hlow. lia.
Qed.

Lemma find_seq_None (q : nat -> bool) n :
  List.find q (seq 0 n) = None <-> forall i, (i < n)%nat -> q i = false.
Proof.
  split.
  - intros E i Hi. apply (List.find_none _ _ E), List.in_seq. lia.
  - intros H. destruct (List.find q (seq 0 n)) as [k|] eqn:E; [|done].
    apply List.find_some in E as [Hk Hq]. apply List.in_seq in Hk. rewrite H in Hq by lia. done.
Qed.

(** ** Sequences of calls

    A component and its specification along a list of calls: [run] the code,
    [spec] the abstract operation, undefined where the specification says
    nothing. *)
Section Calls.
Context {S Call Res A : Type}.
Context (run : Call -> M S Res) (spec : A -> Call -> option (Res * A)).

Fixpoint run_all (calls : list Call) : M S (list Res) :=
  match calls with
  | [] => mret []
  | c :: calls => r ← run c; rs ← run_all calls; mret (r :: rs)
  end.

Fixpoint spec_all (a : A) (calls : list Call) : option (list Res) :=
  match calls with
  | [] => Some []
  | c :: calls => '(r, a) ← spec a c; rs ← spec_all a calls; Some (r :: rs)
  end.

(** A simulation of one call is one of all; [n] is how many are left. *)
Lemma simulation (inv : nat -> S -> A -> Prop) (ok : Call -> Prop) :
  (forall n s a c r a', inv (Datatypes.S n) s a -> ok c -> spec a c = Some (r, a') ->
    exists s', run c s = Ok (r, s') /\ inv n s' a') ->
  forall calls s a rs, inv (length calls) s a -> Forall ok calls -> spec_all a calls = Some rs ->
    exists s', run_all calls s = Ok (rs, s').
Proof.
  intros Hstep calls. induction calls as [|c calls IH]; intros s a rs Hi Hok Hs.
  - simplify_eq/=. by exists s.
  - apply Forall_cons in Hok as [Hc Hok]. simpl in Hs, Hi.
    destruct (spec a c) as [[r a']|] eqn:E; [|done]. simpl in Hs.
    destruct (spec_all a' calls) as [rs'|] eqn:E'; [|done]. simplify_eq/=.
    destruct (Hstep _ _ _ _ _ _ Hi Hc E) as (s1 & E1 & H1).
    destruct (IH s1 a' rs' H1 Hok E') as (s' & E2). exists s'.
    by rewrite (bind_Ok _ _ _ _ _ E1), (bind_Ok _ _ _ _ _ E2).
Qed.
End Calls.

(** Case analysis on the first [if] or [match] of the goal, keeping equations. *)
Ltac case_goal :=
  match goal with
  | |- context [if ?b then _ else _] => destruct b eqn:?
  | |- context [match ?o with _ => _ end] => destruct o eqn:?
  end.
(** Boolean comparisons on [Z] in hypotheses and goal, as propositions. *)
Ltac z_bool :=
  repeat match goal with
  | H : andb _ _ = true |- _ => apply andb_true_iff in H as [? ?]
  | H : orb _ _ = false |- _ => apply orb_false_iff in H as [? ?]
  | H : negb _ = true |- _ => apply negb_true_iff in H
  | H : negb _ = false |- _ => apply negb_false_iff in H
  | H : (_ =? _) = true |- _ => apply Z.eqb_eq in H
  | H : (_ =? _) = false |- _ => apply Z.eqb_neq in H
  | H : (_ <? _) = true |- _ => apply Z.ltb_lt in H
  | H : (_ <? _) = false |- _ => apply Z.ltb_ge in H
  | H : (_ <=? _) = true |- _ => apply Z.leb_le in H
  | H : (_ <=? _) = false |- _ => apply Z.leb_gt in H
  end.
