(* ===== verification/Errors.v ===== *)
(** * Error codes ([include/utils/kylin_error.h])

    [kerr_t] is a [uint32_t] in C; the functions of the library only ever
    return the macros of this header (or an [errno] value), so the model
    returns the macro's name and [kerr_code] gives the number.  The two
    aliases expand to the Linux [errno] constants EAGAIN (11) and EDEADLK
    (35). *)

From S2P Require Import Prelude.

Inductive kerr_t : Set :=
| KYLIN_ERROR_OK
| KYLIN_ERROR_PERM
| KYLIN_ERROR_NOENT
| KYLIN_ERROR_SRCH
| KYLIN_ERROR_INTR
| KYLIN_ERROR_IO
| KYLIN_ERROR_NXIO
| KYLIN_ERROR_2BIG
| KYLIN_ERROR_NOEXEC
| KYLIN_ERROR_BADF
| KYLIN_ERROR_CHILD
| KYLIN_ERROR_AGAIN
| KYLIN_ERROR_NOMEM
| KYLIN_ERROR_ACCES
| KYLIN_ERROR_FAULT
| KYLIN_ERROR_NOTBLK
| KYLIN_ERROR_BUSY
| KYLIN_ERROR_EXIST
| KYLIN_ERROR_XDEV
| KYLIN_ERROR_NODEV
| KYLIN_ERROR_NOTDIR
| KYLIN_ERROR_ISDIR
| KYLIN_ERROR_INVAL
| KYLIN_ERROR_NFILE
| KYLIN_ERROR_MFILE
| KYLIN_ERROR_NOTTY
| KYLIN_ERROR_TXTBSY
| KYLIN_ERROR_FBIG
| KYLIN_ERROR_NOSPC
| KYLIN_ERROR_SPIPE
| KYLIN_ERROR_ROFS
| KYLIN_ERROR_MLINK
| KYLIN_ERROR_PIPE
| KYLIN_ERROR_DOM
| KYLIN_ERROR_RANGE
| KYLIN_ERROR_DEADLK
| KYLIN_ERROR_NAME2LONG
| KYLIN_ERROR_NOLCK
| KYLIN_ERROR_NOSYS
| KYLIN_ERROR_NOTEMPTY
| KYLIN_ERROR_LOOP
| KYLIN_ERROR_WOULDBLOCK
| KYLIN_ERROR_NOMSG
| KYLIN_ERROR_IDRM
| KYLIN_ERROR_CHRNG
| KYLIN_ERROR_L2NSYNC
| KYLIN_ERROR_L3HLT
| KYLIN_ERROR_L3RST
| KYLIN_ERROR_LNRNG
| KYLIN_ERROR_UNATCH
| KYLIN_ERROR_NOCSI
| KYLIN_ERROR_L2HLT
| KYLIN_ERROR_BADE
| KYLIN_ERROR_BADR
| KYLIN_ERROR_XFULL
| KYLIN_ERROR_NOANO
| KYLIN_ERROR_BADRQC
| KYLIN_ERROR_BADSLT
| KYLIN_ERROR_DEADLOCK
| KYLIN_ERROR_BFONT
| KYLIN_ERROR_NOSTR
| KYLIN_ERROR_NODATA
| KYLIN_ERROR_TIME
| KYLIN_ERROR_NOSR
| KYLIN_ERROR_NONET
| KYLIN_ERROR_NOPKG
| KYLIN_ERROR_REMOTE
| KYLIN_ERROR_NOLINK
| KYLIN_ERROR_ADV
| KYLIN_ERROR_SRMNT
| KYLIN_ERROR_COMM
| KYLIN_ERROR_PROTO
| KYLIN_ERROR_MULTIHOP
| KYLIN_ERROR_DOTDOT
| KYLIN_ERROR_BADMSG
| KYLIN_ERROR_OVERFLOW
| KYLIN_ERROR_NOTUNIQ
| KYLIN_ERROR_BADFD
| KYLIN_ERROR_REMCHG
| KYLIN_ERROR_LIBACC
| KYLIN_ERROR_LIBBAD
| KYLIN_ERROR_LIBSCN
| KYLIN_ERROR_LIBMAX
| KYLIN_ERROR_LIBEXEC
| KYLIN_ERROR_ILSEQ
| KYLIN_ERROR_RESTART
| KYLIN_ERROR_STRPIPE
| KYLIN_ERROR_USERS
| KYLIN_ERROR_NOTSOCK
| KYLIN_ERROR_DESTADDRREQ
| KYLIN_ERROR_MSGSIZE
| KYLIN_ERROR_PROTOTYPE
| KYLIN_ERROR_NOPROTOOPT
| KYLIN_ERROR_PROTONOSUPPORT
| KYLIN_ERROR_SOCKTNOSUPPORT
| KYLIN_ERROR_OPNOTSUPP
| KYLIN_ERROR_PFNOSUPPORT
| KYLIN_ERROR_AFNOSUPPORT
| KYLIN_ERROR_ADDRINUSE
| KYLIN_ERROR_ADDRNOTAVAIL
| KYLIN_ERROR_NETDOWN
| KYLIN_ERROR_NETUNREACH
| KYLIN_ERROR_NETRESET
| KYLIN_ERROR_CONNABORTED
| KYLIN_ERROR_CONNRESET
| KYLIN_ERROR_NOBUFS
| KYLIN_ERROR_ISCONN
| KYLIN_ERROR_NOTCONN
| KYLIN_ERROR_SHUTDOWN
| KYLIN_ERROR_TOOMANYREFS
| KYLIN_ERROR_TIMEDOUT
| KYLIN_ERROR_CONNREFUSED
| KYLIN_ERROR_HOSTDOWN
| KYLIN_ERROR_HOSTUNREACH
| KYLIN_ERROR_ALREADY
| KYLIN_ERROR_INPROGRESS
| KYLIN_ERROR_STALE
| KYLIN_ERROR_UCLEAN
| KYLIN_ERROR_NOTNAM
| KYLIN_ERROR_NAVAIL
| KYLIN_ERROR_ISNAM
| KYLIN_ERROR_REMOTEIO
| KYLIN_ERROR_DQUOT
| KYLIN_ERROR_NOMEDIUM
| KYLIN_ERROR_MEDIUMTYPE
| KYLIN_ERROR_CANCELED
| KYLIN_ERROR_NOKEY
| KYLIN_ERROR_KEYEXPIRED
| KYLIN_ERROR_KEYREVOKED
| KYLIN_ERROR_KEYREJECTED
| KYLIN_ERROR_OWNERDEAD
| KYLIN_ERROR_NOTRECOVERABLE
| KYLIN_ERROR_RFKILL
| KYLIN_ERROR_HWPOISON.

#[export] Instance kerr_t_eq_dec : EqDecision kerr_t.
Proof. solve_decision. Defined.

Definition kerr_code (e : kerr_t) : Z :=
  match e with
  | KYLIN_ERROR_OK => 0
  | KYLIN_ERROR_PERM => 1
  | KYLIN_ERROR_NOENT => 2
  | KYLIN_ERROR_SRCH => 3
  | KYLIN_ERROR_INTR => 4
  | KYLIN_ERROR_IO => 5
  | KYLIN_ERROR_NXIO => 6
  | KYLIN_ERROR_2BIG => 7
  | KYLIN_ERROR_NOEXEC => 8
  | KYLIN_ERROR_BADF => 9
  | KYLIN_ERROR_CHILD => 10
  | KYLIN_ERROR_AGAIN => 11
  | KYLIN_ERROR_NOMEM => 12
  | KYLIN_ERROR_ACCES => 13
  | KYLIN_ERROR_FAULT => 14
  | KYLIN_ERROR_NOTBLK => 15
  | KYLIN_ERROR_BUSY => 16
  | KYLIN_ERROR_EXIST => 17
  | KYLIN_ERROR_XDEV => 18
  | KYLIN_ERROR_NODEV => 19
  | KYLIN_ERROR_NOTDIR => 20
  | KYLIN_ERROR_ISDIR => 21
  | KYLIN_ERROR_INVAL => 22
  | KYLIN_ERROR_NFILE => 23
  | KYLIN_ERROR_MFILE => 24
  | KYLIN_ERROR_NOTTY => 25
  | KYLIN_ERROR_TXTBSY => 26
  | KYLIN_ERROR_FBIG => 27
  | KYLIN_ERROR_NOSPC => 28
  | KYLIN_ERROR_SPIPE => 29
  | KYLIN_ERROR_ROFS => 30
  | KYLIN_ERROR_MLINK => 31
  | KYLIN_ERROR_PIPE => 32
  | KYLIN_ERROR_DOM => 33
  | KYLIN_ERROR_RANGE => 34
  | KYLIN_ERROR_DEADLK => 35
  | KYLIN_ERROR_NAME2LONG => 36
  | KYLIN_ERROR_NOLCK => 37
  | KYLIN_ERROR_NOSYS => 38
  | KYLIN_ERROR_NOTEMPTY => 39
  | KYLIN_ERROR_LOOP => 40
  | KYLIN_ERROR_WOULDBLOCK => 11
  | KYLIN_ERROR_NOMSG => 42
  | KYLIN_ERROR_IDRM => 43
  | KYLIN_ERROR_CHRNG => 44
  | KYLIN_ERROR_L2NSYNC => 45
  | KYLIN_ERROR_L3HLT => 46
  | KYLIN_ERROR_L3RST => 47
  | KYLIN_ERROR_LNRNG => 48
  | KYLIN_ERROR_UNATCH => 49
  | KYLIN_ERROR_NOCSI => 50
  | KYLIN_ERROR_L2HLT => 51
  | KYLIN_ERROR_BADE => 52
  | KYLIN_ERROR_BADR => 53
  | KYLIN_ERROR_XFULL => 54
  | KYLIN_ERROR_NOANO => 55
  | KYLIN_ERROR_BADRQC => 56
  | KYLIN_ERROR_BADSLT => 57
  | KYLIN_ERROR_DEADLOCK => 35
  | KYLIN_ERROR_BFONT => 59
  | KYLIN_ERROR_NOSTR => 60
  | KYLIN_ERROR_NODATA => 61
  | KYLIN_ERROR_TIME => 62
  | KYLIN_ERROR_NOSR => 63
  | KYLIN_ERROR_NONET => 64
  | KYLIN_ERROR_NOPKG => 65
  | KYLIN_ERROR_REMOTE => 66
  | KYLIN_ERROR_NOLINK => 67
  | KYLIN_ERROR_ADV => 68
  | KYLIN_ERROR_SRMNT => 69
  | KYLIN_ERROR_COMM => 70
  | KYLIN_ERROR_PROTO => 71
  | KYLIN_ERROR_MULTIHOP => 72
  | KYLIN_ERROR_DOTDOT => 73
  | KYLIN_ERROR_BADMSG => 74
  | KYLIN_ERROR_OVERFLOW => 75
  | KYLIN_ERROR_NOTUNIQ => 76
  | KYLIN_ERROR_BADFD => 77
  | KYLIN_ERROR_REMCHG => 78
  | KYLIN_ERROR_LIBACC => 79
  | KYLIN_ERROR_LIBBAD => 80
  | KYLIN_ERROR_LIBSCN => 81
  | KYLIN_ERROR_LIBMAX => 82
  | KYLIN_ERROR_LIBEXEC => 83
  | KYLIN_ERROR_ILSEQ => 84
  | KYLIN_ERROR_RESTART => 85
  | KYLIN_ERROR_STRPIPE => 86
  | KYLIN_ERROR_USERS => 87
  | KYLIN_ERROR_NOTSOCK => 88
  | KYLIN_ERROR_DESTADDRREQ => 89
  | KYLIN_ERROR_MSGSIZE => 90
  | KYLIN_ERROR_PROTOTYPE => 91
  | KYLIN_ERROR_NOPROTOOPT => 92
  | KYLIN_ERROR_PROTONOSUPPORT => 93
  | KYLIN_ERROR_SOCKTNOSUPPORT => 94
  | KYLIN_ERROR_OPNOTSUPP => 95
  | KYLIN_ERROR_PFNOSUPPORT => 96
  | KYLIN_ERROR_AFNOSUPPORT => 97
  | KYLIN_ERROR_ADDRINUSE => 98
  | KYLIN_ERROR_ADDRNOTAVAIL => 99
  | KYLIN_ERROR_NETDOWN => 100
  | KYLIN_ERROR_NETUNREACH => 101
  | KYLIN_ERROR_NETRESET => 102
  | KYLIN_ERROR_CONNABORTED => 103
  | KYLIN_ERROR_CONNRESET => 104
  | KYLIN_ERROR_NOBUFS => 105
  | KYLIN_ERROR_ISCONN => 106
  | KYLIN_ERROR_NOTCONN => 107
  | KYLIN_ERROR_SHUTDOWN => 108
  | KYLIN_ERROR_TOOMANYREFS => 109
  | KYLIN_ERROR_TIMEDOUT => 110
  | KYLIN_ERROR_CONNREFUSED => 111
  | KYLIN_ERROR_HOSTDOWN => 112
  | KYLIN_ERROR_HOSTUNREACH => 113
  | KYLIN_ERROR_ALREADY => 114
  | KYLIN_ERROR_INPROGRESS => 115
  | KYLIN_ERROR_STALE => 116
  | KYLIN_ERROR_UCLEAN => 117
  | KYLIN_ERROR_NOTNAM => 118
  | KYLIN_ERROR_NAVAIL => 119
  | KYLIN_ERROR_ISNAM => 120
  | KYLIN_ERROR_REMOTEIO => 121
  | KYLIN_ERROR_DQUOT => 122
  | KYLIN_ERROR_NOMEDIUM => 123
  | KYLIN_ERROR_MEDIUMTYPE => 124
  | KYLIN_ERROR_CANCELED => 125
  | KYLIN_ERROR_NOKEY => 126
  | KYLIN_ERROR_KEYEXPIRED => 127
  | KYLIN_ERROR_KEYREVOKED => 128
  | KYLIN_ERROR_KEYREJECTED => 129
  | KYLIN_ERROR_OWNERDEAD => 130
  | KYLIN_ERROR_NOTRECOVERABLE => 131
  | KYLIN_ERROR_RFKILL => 132
  | KYLIN_ERROR_HWPOISON => 133
  end.

Definition kerr_all : list kerr_t :=
  [ KYLIN_ERROR_OK;
    KYLIN_ERROR_PERM;
    KYLIN_ERROR_NOENT;
    KYLIN_ERROR_SRCH;
    KYLIN_ERROR_INTR;
    KYLIN_ERROR_IO;
    KYLIN_ERROR_NXIO;
    KYLIN_ERROR_2BIG;
    KYLIN_ERROR_NOEXEC;
    KYLIN_ERROR_BADF;
    KYLIN_ERROR_CHILD;
    KYLIN_ERROR_AGAIN;
    KYLIN_ERROR_NOMEM;
    KYLIN_ERROR_ACCES;
    KYLIN_ERROR_FAULT;
    KYLIN_ERROR_NOTBLK;
    KYLIN_ERROR_BUSY;
    KYLIN_ERROR_EXIST;
    KYLIN_ERROR_XDEV;
    KYLIN_ERROR_NODEV;
    KYLIN_ERROR_NOTDIR;
    KYLIN_ERROR_ISDIR;
    KYLIN_ERROR_INVAL;
    KYLIN_ERROR_NFILE;
    KYLIN_ERROR_MFILE;
    KYLIN_ERROR_NOTTY;
    KYLIN_ERROR_TXTBSY;
    KYLIN_ERROR_FBIG;
    KYLIN_ERROR_NOSPC;
    KYLIN_ERROR_SPIPE;
    KYLIN_ERROR_ROFS;
    KYLIN_ERROR_MLINK;
    KYLIN_ERROR_PIPE;
    KYLIN_ERROR_DOM;
    KYLIN_ERROR_RANGE;
    KYLIN_ERROR_DEADLK;
    KYLIN_ERROR_NAME2LONG;
    KYLIN_ERROR_NOLCK;
    KYLIN_ERROR_NOSYS;
    KYLIN_ERROR_NOTEMPTY;
    KYLIN_ERROR_LOOP;
    KYLIN_ERROR_WOULDBLOCK;
    KYLIN_ERROR_NOMSG;
    KYLIN_ERROR_IDRM;
    KYLIN_ERROR_CHRNG;
    KYLIN_ERROR_L2NSYNC;
    KYLIN_ERROR_L3HLT;
    KYLIN_ERROR_L3RST;
    KYLIN_ERROR_LNRNG;
    KYLIN_ERROR_UNATCH;
    KYLIN_ERROR_NOCSI;
    KYLIN_ERROR_L2HLT;
    KYLIN_ERROR_BADE;
    KYLIN_ERROR_BADR;
    KYLIN_ERROR_XFULL;
    KYLIN_ERROR_NOANO;
    KYLIN_ERROR_BADRQC;
    KYLIN_ERROR_BADSLT;
    KYLIN_ERROR_DEADLOCK;
    KYLIN_ERROR_BFONT;
    KYLIN_ERROR_NOSTR;
    KYLIN_ERROR_NODATA;
    KYLIN_ERROR_TIME;
    KYLIN_ERROR_NOSR;
    KYLIN_ERROR_NONET;
    KYLIN_ERROR_NOPKG;
    KYLIN_ERROR_REMOTE;
    KYLIN_ERROR_NOLINK;
    KYLIN_ERROR_ADV;
    KYLIN_ERROR_SRMNT;
    KYLIN_ERROR_COMM;
    KYLIN_ERROR_PROTO;
    KYLIN_ERROR_MULTIHOP;
    KYLIN_ERROR_DOTDOT;
    KYLIN_ERROR_BADMSG;
    KYLIN_ERROR_OVERFLOW;
    KYLIN_ERROR_NOTUNIQ;
    KYLIN_ERROR_BADFD;
    KYLIN_ERROR_REMCHG;
    KYLIN_ERROR_LIBACC;
    KYLIN_ERROR_LIBBAD;
    KYLIN_ERROR_LIBSCN;
    KYLIN_ERROR_LIBMAX;
    KYLIN_ERROR_LIBEXEC;
    KYLIN_ERROR_ILSEQ;
    KYLIN_ERROR_RESTART;
    KYLIN_ERROR_STRPIPE;
    KYLIN_ERROR_USERS;
    KYLIN_ERROR_NOTSOCK;
    KYLIN_ERROR_DESTADDRREQ;
    KYLIN_ERROR_MSGSIZE;
    KYLIN_ERROR_PROTOTYPE;
    KYLIN_ERROR_NOPROTOOPT;
    KYLIN_ERROR_PROTONOSUPPORT;
    KYLIN_ERROR_SOCKTNOSUPPORT;
    KYLIN_ERROR_OPNOTSUPP;
    KYLIN_ERROR_PFNOSUPPORT;
    KYLIN_ERROR_AFNOSUPPORT;
    KYLIN_ERROR_ADDRINUSE;
    KYLIN_ERROR_ADDRNOTAVAIL;
    KYLIN_ERROR_NETDOWN;
    KYLIN_ERROR_NETUNREACH;
    KYLIN_ERROR_NETRESET;
    KYLIN_ERROR_CONNABORTED;
    KYLIN_ERROR_CONNRESET;
    KYLIN_ERROR_NOBUFS;
    KYLIN_ERROR_ISCONN;
    KYLIN_ERROR_NOTCONN;
    KYLIN_ERROR_SHUTDOWN;
    KYLIN_ERROR_TOOMANYREFS;
    KYLIN_ERROR_TIMEDOUT;
    KYLIN_ERROR_CONNREFUSED;
    KYLIN_ERROR_HOSTDOWN;
    KYLIN_ERROR_HOSTUNREACH;
    KYLIN_ERROR_ALREADY;
    KYLIN_ERROR_INPROGRESS;
    KYLIN_ERROR_STALE;
    KYLIN_ERROR_UCLEAN;
    KYLIN_ERROR_NOTNAM;
    KYLIN_ERROR_NAVAIL;
    KYLIN_ERROR_ISNAM;
    KYLIN_ERROR_REMOTEIO;
    KYLIN_ERROR_DQUOT;
    KYLIN_ERROR_NOMEDIUM;
    KYLIN_ERROR_MEDIUMTYPE;
    KYLIN_ERROR_CANCELED;
    KYLIN_ERROR_NOKEY;
    KYLIN_ERROR_KEYEXPIRED;
    KYLIN_ERROR_KEYREVOKED;
    KYLIN_ERROR_KEYREJECTED;
    KYLIN_ERROR_OWNERDEAD;
    KYLIN_ERROR_NOTRECOVERABLE;
    KYLIN_ERROR_RFKILL;
    KYLIN_ERROR_HWPOISON ].

Lemma kerr_all_complete e : e ∈ kerr_all.
Proof. apply list_elem_of_In. destruct e; vm_compute; tauto. Qed.

(** The alias pairs of the header. *)
Definition kerr_alias (a b : kerr_t) : bool :=
  match a, b with
  | KYLIN_ERROR_AGAIN, KYLIN_ERROR_WOULDBLOCK
  | KYLIN_ERROR_WOULDBLOCK, KYLIN_ERROR_AGAIN
  | KYLIN_ERROR_DEADLK, KYLIN_ERROR_DEADLOCK
  | KYLIN_ERROR_DEADLOCK, KYLIN_ERROR_DEADLK => true
  | _, _ => false
  end.

Lemma kerr_code_table :
  forallb (fun a => forallb (fun b =>
    implb (kerr_code a =? kerr_code b) (bool_decide (a = b) || kerr_alias a b))
    kerr_all) kerr_all = true.
Proof. vm_compute. reflexivity. Qed.

(** Two different macros have different codes, the two aliases apart. *)
Lemma kerr_code_inj a b :
  kerr_code a = kerr_code b -> a = b \/ kerr_alias a b = true.
Proof.
  intros E. pose proof kerr_code_table as T.
  rewrite forallb_forall in T.
  specialize (T a (proj1 (list_elem_of_In _ _) (kerr_all_complete a))).
  rewrite forallb_forall in T.
  specialize (T b (proj1 (list_elem_of_In _ _) (kerr_all_complete b))).
  rewrite E, Z.eqb_refl in T. simpl in T. apply orb_true_iff in T as [T|T].
  - left. by apply bool_decide_eq_true in T.
  - by right.
Qed.

(** Success is the only macro with code 0. *)
Lemma kerr_code_ok e : kerr_code e = 0 <-> e = KYLIN_ERROR_OK.
Proof. split; [by destruct e|by intros ->]. Qed.
