(* ===== verification/Bytes.v ===== *)
(** * Little-endian byte strings

    The library runs on x86-64, and several parts read a wider integer out of
    a byte array by casting the pointer.  A byte is a [Z] in [0, 2^8).  This file
    has the two conversions and the facts about them that the components
    share; it models no function of the source by itself. *)

From Stdlib Require List.
From S2P Require Import Prelude.

Fixpoint le_value (bs : list Z) : Z :=
  match bs with
  | [] => 0
  | b :: bs => b + 2 ^ 8 * le_value bs
  end.

Fixpoint le_bytes (n : nat) (z : Z) : list Z :=
  match n with
  | O => []
  | S n => u8 z :: le_bytes n (Z.shiftr z 8)
  end.

Abbreviation bytes_ok := (Forall (is_u 8)).

Lemma length_le_bytes n z : length (le_bytes n z) = n.
Proof. revert z. induction n; intros; simpl; auto. Qed.

Lemma le_bytes_ok n z : bytes_ok (le_bytes n z).
Proof. revert z. induction n; intros; simpl; constructor; auto with kylin lia. Qed.

Lemma le_value_range bs : bytes_ok bs -> is_u (8 * Z.of_nat (length bs)) (le_value bs).
Proof.
  induction 1 as [|b bs Hb _ IH]; [done|].
  cbn [le_value length]. unfold is_u in *.
  replace (8 * Z.of_nat (S (length bs))) with (8 + 8 * Z.of_nat (length bs)) by lia.
  rewrite Z.pow_add_r by lia. change (2 ^ 8) with 256 in *. nia.
Qed.

Lemma le_value_le_bytes n z : le_value (le_bytes n z) = z mod 2 ^ (8 * Z.of_nat n).
Proof.
  revert z. induction n as [|n IH]; intros z; [by rewrite Z.mod_1_r|].
  cbn [le_bytes le_value]. rewrite IH, Z.shiftr_div_pow2 by lia. unfold uw.
  replace (8 * Z.of_nat (S n)) with (8 + 8 * Z.of_nat n) by lia.
  rewrite Z.pow_add_r by lia.
  rewrite Z.rem_mul_r; [done|lia|]. apply pow2_pos. lia.
Qed.

Lemma le_bytes_le_value bs : bytes_ok bs -> le_bytes (length bs) (le_value bs) = bs.
Proof.
  induction 1 as [|b bs Hb _ IH]; [done|].
  cbn [length le_bytes le_value].
  rewrite Z.shiftr_div_pow2 by lia. f_equal.
  - unfold uw. rewrite (Z.mul_comm (2 ^ 8)), Z.mod_add by lia. by apply Z.mod_small.
  - rewrite (Z.mul_comm (2 ^ 8)), Z.div_add by lia.
    rewrite (Z.div_small b) by done. by rewrite Z.add_0_l.
Qed.

Lemma le_bytes_uw n w z :
  8 * Z.of_nat n <= w -> le_bytes n (uw w z) = le_bytes n z.
Proof.
  intros Hw. assert (Hl : le_value (le_bytes n (uw w z)) = le_value (le_bytes n z)).
  { rewrite !le_value_le_bytes. unfold uw. apply Z.mod_mod_divide.
    exists (2 ^ (w - 8 * Z.of_nat n)). rewrite <- Z.pow_add_r by lia. f_equal. lia. }
  rewrite <- (le_bytes_le_value (le_bytes n (uw w z))) by apply le_bytes_ok.
  rewrite <- (le_bytes_le_value (le_bytes n z)) by apply le_bytes_ok.
  by rewrite !length_le_bytes, Hl.
Qed.

Lemma le_value_app bs cs :
  le_value (bs ++ cs) = le_value bs + 2 ^ (8 * Z.of_nat (length bs)) * le_value cs.
Proof.
  induction bs as [|b bs IH]; [simpl; lia|].
  cbn [app le_value length]. rewrite IH.
  replace (8 * Z.of_nat (S (length bs))) with (8 + 8 * Z.of_nat (length bs)) by lia.
  rewrite Z.pow_add_r by lia. lia.
Qed.

Lemma testbit_byte_cons b v i :
  is_u 8 b -> 0 <= i ->
  Z.testbit (b + 2 ^ 8 * v) i =
    if i <? 8 then Z.testbit b i else Z.testbit v (i - 8).
Proof.
  intros Hb Hi.
  assert (E : b + 2 ^ 8 * v = Z.lor b (Z.shiftl v 8)).
  { rewrite Z.mul_comm, <- Z.shiftl_mul_pow2 by lia. apply Z.bits_inj'. intros j Hj.
    rewrite Z.add_nocarry_lxor; [rewrite Z.lxor_spec, Z.lor_spec|].
    - rewrite Z.shiftl_spec by done. destruct (Z.ltb_spec j 8).
      + rewrite (Z.testbit_neg_r _ (j - 8)) by lia. by destruct (Z.testbit b j).
      + rewrite (testbit_is_u 8 b) by (done || lia). by destruct (Z.testbit _ (j - 8)).
    - apply Z.bits_inj'. intros k Hk. rewrite Z.land_spec, Z.shiftl_spec, Z.bits_0 by done.
      destruct (Z.ltb_spec k 8).
      + rewrite (Z.testbit_neg_r _ (k - 8)) by lia. apply andb_false_r.
      + by rewrite (testbit_is_u 8 b) by (done || lia). }
  rewrite E, Z.lor_spec, Z.shiftl_spec by done. destruct (Z.ltb_spec i 8).
  - rewrite (Z.testbit_neg_r _ (i - 8)) by lia. apply orb_false_r.
  - by rewrite (testbit_is_u 8 b) by (done || lia).
Qed.

(** The bytes read in network order. *)
Definition be_value (bs : list Z) : Z := le_value (rev bs).

(** Reversing the bytes of a value of [n] bytes. *)
Definition byte_reverse (n : nat) (z : Z) : Z := le_value (rev (le_bytes n z)).

Lemma bytes_ok_rev bs : bytes_ok bs -> bytes_ok (rev bs).
Proof. apply List.Forall_rev. Qed.

Lemma byte_reverse_range n z : is_u (8 * Z.of_nat n) (byte_reverse n z).
Proof.
  unfold byte_reverse.
  replace n with (length (rev (le_bytes n z))) at 1
    by (by rewrite length_rev, length_le_bytes).
  apply le_value_range, bytes_ok_rev, le_bytes_ok.
Qed.

Lemma byte_reverse_involutive n z :
  is_u (8 * Z.of_nat n) z -> byte_reverse n (byte_reverse n z) = z.
Proof.
  intros Hz. unfold byte_reverse at 1.
  assert (E : le_bytes n (byte_reverse n z) = rev (le_bytes n z)).
  { unfold byte_reverse. rewrite <- (length_le_bytes n z) at 1.
    rewrite <- (length_rev (le_bytes n z)).
    apply le_bytes_le_value, bytes_ok_rev, le_bytes_ok. }
  rewrite E, rev_involutive, le_value_le_bytes. by apply Z.mod_small.
Qed.

(** ** [memcpy] between byte arrays

    [read_bytes src off n] are the [n] bytes at [src + off], [write_bytes dst
    off bs] stores [bs] at [dst + off]; outside the array both are undefined. *)
Definition read_bytes (src : list Z) (off n : Z) : outcome (list Z) :=
  if (0 <=? off) && (0 <=? n) && (off + n <=? Z.of_nat (length src))
  then Ok (take (Z.to_nat n) (drop (Z.to_nat off) src)) else Ub.

Definition write_bytes (dst : list Z) (off : Z) (bs : list Z) : outcome (list Z) :=
  if (0 <=? off) && (off + Z.of_nat (length bs) <=? Z.of_nat (length dst))
  then Ok (splice dst (Z.to_nat off) bs) else Ub.

(** [memcpy(dst + doff, src + soff, n)] *)
Definition memcpy (dst : list Z) (doff : Z) (src : list Z) (soff n : Z) : outcome (list Z) :=
  bs ← read_bytes src soff n; write_bytes dst doff bs.

Lemma read_bytes_ok src off n :
  0 <= off -> 0 <= n -> off + n <= Z.of_nat (length src) ->
  read_bytes src off n = Ok (take (Z.to_nat n) (drop (Z.to_nat off) src)).
Proof.
  intros. unfold read_bytes. by rewrite !(proj2 (Z.leb_le _ _)) by lia.
Qed.

Lemma write_bytes_ok dst off bs :
  0 <= off -> off + Z.of_nat (length bs) <= Z.of_nat (length dst) ->
  write_bytes dst off bs = Ok (splice dst (Z.to_nat off) bs).
Proof.
  intros. unfold write_bytes. by rewrite !(proj2 (Z.leb_le _ _)) by lia.
Qed.

Lemma memcpy_ok dst doff src soff n :
  0 <= doff -> 0 <= soff -> 0 <= n -> soff + n <= Z.of_nat (length src) ->
  doff + n <= Z.of_nat (length dst) ->
  memcpy dst doff src soff n =
    Ok (splice dst (Z.to_nat doff) (take (Z.to_nat n) (drop (Z.to_nat soff) src))).
Proof.
  intros. unfold memcpy. rewrite read_bytes_ok by done. cbn [mbind outcome_bind].
  apply write_bytes_ok; [done|]. rewrite length_take, length_drop. lia.
Qed.

Lemma splice_splice_app (buf a b : list Z) :
  (length a + length b <= length buf)%nat ->
  splice (splice buf 0 a) (length a) b = splice buf 0 (a ++ b).
Proof.
  intros H. apply list_eq. intros i.
  assert (L : length (splice buf 0 a) = length buf) by (apply length_splice; lia).
  destruct (decide (i < length a)%nat).
  - rewrite lookup_splice_out by lia. rewrite !lookup_splice_in by (rewrite ?length_app; lia).
    by rewrite lookup_app_l by lia.
  - destruct (decide (i < length a + length b)%nat).
    + rewrite !lookup_splice_in by (rewrite ?length_app; lia).
      rewrite lookup_app_r by lia. f_equal. lia.
    + by rewrite !lookup_splice_out by (rewrite ?length_app; lia).
Qed.
