(* ===== verification/Memcpy.v ===== *)
(** * The vector copy ([include/arch/x86/kylin_memcpy.h])

    Memory is a finite map from addresses to bytes; an access to an address
    that is not in it is undefined.  A vector register is a list of bytes, a
    load or a store of one touches its bytes in order.  Addresses and sizes do
    not wrap: the memory that is copied ends below 2^64. *)

From S2P Require Import Prelude.

Abbreviation bytes := (gmap Z Z).

Fixpoint load (w : nat) (a : Z) : M bytes (list Z) := fun m =>
  match w with
  | O => Ok ([], m)
  | S w =>
      match m !! a with
      | Some b => match load w (a + 1) m with Ok (bs, m) => Ok (b :: bs, m) | Ub => Ub | OutOfFuel => OutOfFuel end
      | None => Ub
      end
  end.
Fixpoint store (a : Z) (bs : list Z) : M bytes unit := fun m =>
  match bs with
  | [] => Ok (tt, m)
  | b :: bs => match m !! a with Some _ => store (a + 1) bs (<[a := b]> m) | None => Ub end
  end.

(** The assignments through pointers to 1, 2, 4 and 8 bytes. *)
Definition assign (w : nat) (dst src : Z) : M bytes unit := bs ← load w src; store dst bs.

Definition kylin_mov16 (dst src : Z) : M bytes unit := xmm0 ← load 16 src; store dst xmm0.
Definition kylin_mov32 (dst src : Z) : M bytes unit := ymm0 ← load 32 src; store dst ymm0.
Definition kylin_mov64 (dst src : Z) : M bytes unit := zmm0 ← load 64 src; store dst zmm0.
Definition kylin_mov128 (dst src : Z) : M bytes unit :=
  _ ← kylin_mov64 (dst + 0 * 64) (src + 0 * 64); kylin_mov64 (dst + 1 * 64) (src + 1 * 64).
Definition kylin_mov256 (dst src : Z) : M bytes unit :=
  _ ← kylin_mov64 (dst + 0 * 64) (src + 0 * 64);
  _ ← kylin_mov64 (dst + 1 * 64) (src + 1 * 64);
  _ ← kylin_mov64 (dst + 2 * 64) (src + 2 * 64);
  kylin_mov64 (dst + 3 * 64) (src + 3 * 64).

(** The bodies of the two loops: all loads come before the stores. *)
Definition block128 (dst src : Z) : M bytes unit :=
  zmm0 ← load 64 (src + 0 * 64);
  zmm1 ← load 64 (src + 1 * 64);
  _ ← store (dst + 0 * 64) zmm0;
  store (dst + 1 * 64) zmm1.
Definition block512 (dst src : Z) : M bytes unit :=
  zmm0 ← load 64 (src + 0 * 64);
  zmm1 ← load 64 (src + 1 * 64);
  zmm2 ← load 64 (src + 2 * 64);
  zmm3 ← load 64 (src + 3 * 64);
  zmm4 ← load 64 (src + 4 * 64);
  zmm5 ← load 64 (src + 5 * 64);
  zmm6 ← load 64 (src + 6 * 64);
  zmm7 ← load 64 (src + 7 * 64);
  _ ← store (dst + 0 * 64) zmm0;
  _ ← store (dst + 1 * 64) zmm1;
  _ ← store (dst + 2 * 64) zmm2;
  _ ← store (dst + 3 * 64) zmm3;
  _ ← store (dst + 4 * 64) zmm4;
  _ ← store (dst + 5 * 64) zmm5;
  _ ← store (dst + 6 * 64) zmm6;
  store (dst + 7 * 64) zmm7.

(** [while(n >= step)]; the fuel is [n] turns. *)
Fixpoint blocks (step : Z) (body : Z -> Z -> M bytes unit) (fuel : nat) (dst src n : Z) : M bytes unit :=
  match fuel with
  | O => out_of_fuel
  | S fuel =>
      if step <=? n then _ ← body dst src; blocks step body fuel (dst + step) (src + step) (n - step)
      else mret tt
  end.
Definition kylin_mov128blocks (dst src n : Z) : M bytes unit := blocks 128 block128 (S (Z.to_nat n)) dst src n.
Definition kylin_mov512blocks (dst src n : Z) : M bytes unit := blocks 512 block512 (S (Z.to_nat n)) dst src n.

(** Less than 16 bytes. *)
Definition copy_few (dst src n : Z) : M bytes unit :=
  _ ← (if negb (Z.land n 0x01 =? 0) then assign 1 dst src else mret tt);
  let '(src, dst) := if negb (Z.land n 0x01 =? 0) then (src + 1, dst + 1) else (src, dst) in
  _ ← (if negb (Z.land n 0x02 =? 0) then assign 2 dst src else mret tt);
  let '(src, dst) := if negb (Z.land n 0x02 =? 0) then (src + 2, dst + 2) else (src, dst) in
  _ ← (if negb (Z.land n 0x04 =? 0) then assign 4 dst src else mret tt);
  let '(src, dst) := if negb (Z.land n 0x04 =? 0) then (src + 4, dst + 4) else (src, dst) in
  if negb (Z.land n 0x08 =? 0) then assign 8 dst src else mret tt.

(** [COPY_BLOCK_128_BACK63] *)
Definition copy_back (dst src n : Z) : M bytes unit :=
  if 64 <? n then _ ← kylin_mov64 dst src; kylin_mov64 (dst - 64 + n) (src - 64 + n)
  else if 0 <? n then kylin_mov64 (dst - 64 + n) (src - 64 + n)
  else mret tt.

(** A step that moves the three variables on where [c] holds. *)
Definition step_if (c : bool) (k : Z) (move : Z -> Z -> M bytes unit) (dst src n : Z) (rest : Z -> Z -> Z -> M bytes unit) : M bytes unit :=
  if c then _ ← move dst src; rest (dst + k) (src + k) (n - k) else rest dst src n.

(** The blocks of 512 and of 128 bytes and what is left. *)
Definition copy_large (dst src n : Z) : M bytes unit :=
  _ ← kylin_mov512blocks dst src n;
  let bits := n - Z.land n 511 in
  let n := Z.land n 511 in
  let src := src + bits in
  let dst := dst + bits in
  if 128 <=? n then
    _ ← kylin_mov128blocks dst src n;
    let bits := n - Z.land n 127 in
    copy_back (dst + bits) (src + bits) (Z.land n 127)
  else copy_back dst src n.

Definition kylin_memcpy_generic (dst src n : Z) : M bytes Z :=
  let ret := dst in
  if n <? 16 then _ ← copy_few dst src n; mret ret else
  if n <=? 32 then
    _ ← kylin_mov16 dst src; _ ← kylin_mov16 (dst - 16 + n) (src - 16 + n); mret ret
  else if n <=? 64 then
    _ ← kylin_mov32 dst src; _ ← kylin_mov32 (dst - 32 + n) (src - 32 + n); mret ret
  else if n <=? 512 then
    _ ← step_if (256 <=? n) 256 kylin_mov256 dst src n (fun dst src n =>
          step_if (128 <=? n) 128 kylin_mov128 dst src n copy_back);
    mret ret
  else
    let dstofss := Z.land dst 0x3F in
    _ ← step_if (0 <? dstofss) (64 - dstofss) kylin_mov64 dst src n copy_large;
    mret ret.

(** [for(; n >= 64; n -= 64)] with the copy of what is left. *)
Fixpoint aligned_loop (fuel : nat) (dst src n : Z) : M bytes unit :=
  match fuel with
  | O => out_of_fuel
  | S fuel =>
      if 64 <=? n then _ ← kylin_mov64 dst src; aligned_loop fuel (dst + 64) (src + 64) (n - 64)
      else kylin_mov64 (dst - 64 + n) (src - 64 + n)
  end.

Definition kylin_memcpy_aligned (dst src n : Z) : M bytes Z :=
  let ret := dst in
  if n <? 16 then _ ← copy_few dst src n; mret ret else
  if n <=? 32 then
    _ ← kylin_mov16 dst src; _ ← kylin_mov16 (dst - 16 + n) (src - 16 + n); mret ret
  else if n <=? 64 then
    _ ← kylin_mov32 dst src; _ ← kylin_mov32 (dst - 32 + n) (src - 32 + n); mret ret
  else _ ← aligned_loop (S (Z.to_nat n)) dst src n; mret ret.

Definition ALIGNMENT_MASK : Z := 0x3F.
Definition kylin_memcpy (dst src n : Z) : M bytes Z :=
  if Z.land (Z.lor dst src) ALIGNMENT_MASK =? 0 then kylin_memcpy_aligned dst src n
  else kylin_memcpy_generic dst src n.

(** ** What a copy is *)
Section Copy.
Context (m0 : bytes) (dst0 src0 n0 : Z).

(** The memory after the first [lo] bytes were copied. *)
Definition copied (lo : Z) (m : bytes) : Prop :=
  forall a, m !! a = if bool_decide (dst0 <= a < dst0 + lo) then m0 !! (a - dst0 + src0) else m0 !! a.

(** Both blocks are there and they do not overlap. *)
Context (Hmap : forall i, 0 <= i < n0 -> is_Some (m0 !! (dst0 + i)) /\ is_Some (m0 !! (src0 + i))).
Context (Hdis : dst0 + n0 <= src0 \/ src0 + n0 <= dst0).

Fixpoint src_bytes (w : nat) (o : Z) : list Z :=
  match w with O => [] | S w => default 0 (m0 !! (src0 + o)) :: src_bytes w (o + 1) end.

Lemma copied_src lo m o : copied lo m -> 0 <= o < n0 -> lo <= n0 -> m !! (src0 + o) = m0 !! (src0 + o).
Proof using Hdis. intros Hc Ho Hl. rewrite Hc, bool_decide_eq_false_2 by lia. done. Qed.

Lemma load_src lo m : copied lo m -> lo <= n0 -> forall w o, 0 <= o -> o + Z.of_nat w <= n0 ->
  load w (src0 + o) m = Ok (src_bytes w o, m).
Proof using Hdis Hmap.
  intros Hc Hl w. induction w as [|w IH]; intros o Ho Hw; [done|]. cbn [load src_bytes].
  rewrite (copied_src lo) by (done || lia). destruct (Hmap o) as [_ [b Hb]]; [lia|]. rewrite Hb.
  replace (src0 + o + 1) with (src0 + (o + 1)) by lia. by rewrite IH by lia.
Qed.

Lemma copied_byte lo m o : copied lo m -> 0 <= o <= lo -> o < n0 ->
  copied (Z.max lo (o + 1)) (<[dst0 + o := default 0 (m0 !! (src0 + o))]> m).
Proof using Hmap.
  intros Hc Ho Hn a. destruct (decide (a = dst0 + o)) as [->|Ha].
  - rewrite lookup_insert_eq, bool_decide_eq_true_2 by lia. replace (dst0 + o - dst0 + src0) with (src0 + o) by lia.
    destruct (Hmap o) as [_ [b Hb]]; [lia|]. by rewrite Hb.
  - rewrite lookup_insert_ne by done. rewrite Hc.
    destruct (bool_decide_reflect (dst0 <= a < dst0 + lo)).
    + by rewrite bool_decide_eq_true_2 by lia.
    + by rewrite bool_decide_eq_false_2 by lia.
Qed.

Lemma store_dst w : forall lo m o, copied lo m -> 0 <= o <= lo -> lo <= n0 -> o + Z.of_nat w <= n0 ->
  exists m', store (dst0 + o) (src_bytes w o) m = Ok (tt, m') /\ copied (Z.max lo (o + Z.of_nat w)) m'.
Proof using Hmap.
  induction w as [|w IH]; intros lo m o Hc Ho Hl Hw.
  - exists m. split; [done|]. by rewrite Z.max_l by lia.
  - cbn [store src_bytes]. assert (Hs : is_Some (m !! (dst0 + o))).
    { rewrite Hc. case_bool_decide; [replace (dst0 + o - dst0 + src0) with (src0 + o) by lia|]; apply Hmap; lia. }
    destruct Hs as [b Hb]. rewrite Hb.
    destruct (IH (Z.max lo (o + 1)) (<[dst0 + o := default 0 (m0 !! (src0 + o))]> m) (o + 1)) as (m' & E & Hc');
      [apply copied_byte; [done|lia|lia]|lia|lia|lia|].
    replace (dst0 + o + 1) with (dst0 + (o + 1)) by lia. exists m'. split; [exact E|].
    replace (Z.max lo (o + Z.of_nat (S w))) with (Z.max (Z.max lo (o + 1)) (o + 1 + Z.of_nat w)) by lia. exact Hc'.
Qed.

(** [f] copies the [w] bytes at [o], where all before were copied. *)
Definition moves (f : M bytes unit) (o w : Z) : Prop :=
  forall lo m, copied lo m -> 0 <= o <= lo -> lo <= n0 -> o + w <= n0 ->
    exists m', f m = Ok (tt, m') /\ copied (Z.max lo (o + w)) m'.

Lemma moves_assign w o : moves (bs ← load w (src0 + o); store (dst0 + o) bs) o (Z.of_nat w).
Proof using Hdis Hmap.
  intros lo m Hc Ho Hl Hw. run (load_src lo m Hc Hl w o ltac:(lia) Hw). by apply store_dst.
Qed.

Lemma moves_then f g o w o' w' : moves f o w -> moves g o' w' -> o <= o' <= o + w -> o + w <= o' + w' ->
  moves (_ ← f; g) o (o' + w' - o).
Proof.
  intros Hf Hg Ho' Hw' lo m Hc Ho Hl Hw. destruct (Hf lo m Hc Ho Hl) as (m1 & E1 & C1); [lia|]. run E1.
  destruct (Hg _ m1 C1) as (m2 & E2 & C2); [lia..|]. exists m2. split; [exact E2|].
  replace (Z.max lo (o + (o' + w' - o))) with (Z.max (Z.max lo (o + w)) (o' + w')) by lia. exact C2.
Qed.
Lemma moves_seq f g o w w' : 0 <= w -> 0 <= w' -> moves f o w -> moves g (o + w) w' -> moves (_ ← f; g) o (w + w').
Proof. intros Hw Hw' Hf Hg. replace (w + w') with (o + w + w' - o) by lia. apply (moves_then f g o w); done || lia. Qed.

Lemma moves_ret o : moves (mret tt) o 0.
Proof. intros lo m Hc Ho Hl Hw. exists m. split; [done|]. by rewrite Z.max_l by lia. Qed.
Lemma moves_at f o w o' w' : moves f o w -> o = o' -> w = w' -> moves f o' w'.
Proof. by intros Hm -> ->. Qed.

(** Places [o] bytes into the two blocks. *)
Definition at_off (d s o : Z) : Prop := d = dst0 + o /\ s = src0 + o.

Lemma moves_mov16 d s o : at_off d s o -> moves (kylin_mov16 d s) o 16.
Proof using Hdis Hmap. intros [-> ->]. apply (moves_assign 16). Qed.
Lemma moves_mov32 d s o : at_off d s o -> moves (kylin_mov32 d s) o 32.
Proof using Hdis Hmap. intros [-> ->]. apply (moves_assign 32). Qed.
Lemma moves_mov64 d s o : at_off d s o -> moves (kylin_mov64 d s) o 64.
Proof using Hdis Hmap. intros [-> ->]. apply (moves_assign 64). Qed.
Lemma moves_mov128 d s o : at_off d s o -> moves (kylin_mov128 d s) o 128.
Proof using Hdis Hmap.
  intros [-> ->]. apply (moves_seq _ _ o 64 64); [lia..| |]; apply moves_mov64; split; lia.
Qed.
Lemma moves_mov256 d s o : at_off d s o -> moves (kylin_mov256 d s) o 256.
Proof using Hdis Hmap.
  intros [-> ->]. apply (moves_seq _ _ o 64 192); [lia..| |]; [apply moves_mov64; split; lia|].
  apply (moves_seq _ _ _ 64 128); [lia..| |]; [apply moves_mov64; split; lia|].
  apply (moves_seq _ _ _ 64 64); [lia..| |]; apply moves_mov64; split; lia.
Qed.

(** A register loaded early holds the bytes of the source. *)
Lemma moves_load w s o k t (f : list Z -> M bytes unit) : s = src0 + o + k -> 0 <= k -> k + Z.of_nat w <= t ->
  moves (f (src_bytes w (o + k))) o t -> moves (bs ← load w s; f bs) o t.
Proof using Hdis Hmap.
  intros -> Hk Ht Hf lo m Hc Ho Hl Hw. replace (src0 + o + k) with (src0 + (o + k)) by lia.
  run (load_src lo m Hc Hl w (o + k) ltac:(lia) ltac:(lia)). by apply Hf.
Qed.
Lemma moves_store w d o o' : o' = o -> d = dst0 + o -> moves (store d (src_bytes w o')) o (Z.of_nat w).
Proof using Hmap. intros -> -> lo m Hc Ho Hl Hw. by apply store_dst. Qed.
Lemma moves_stores w d o o' g t : o' = o -> d = dst0 + o -> 0 <= t -> moves g (o + Z.of_nat w) t ->
  moves (_ ← store d (src_bytes w o'); g) o (Z.of_nat w + t).
Proof using Hmap. intros -> Hd Ht Hg. apply moves_seq; [lia|lia|by apply moves_store|exact Hg]. Qed.

Lemma moves_block128 d s o : at_off d s o -> moves (block128 d s) o 128.
Proof using Hdis Hmap.
  intros [-> ->]. unfold block128.
  do 2 (eapply moves_load; [reflexivity|lia|simpl; lia|]).
  apply (moves_stores 64 _ _ _ _ 64); [lia..|]. apply (moves_store 64); lia.
Qed.
Lemma moves_block512 d s o : at_off d s o -> moves (block512 d s) o 512.
Proof using Hdis Hmap.
  intros [-> ->]. unfold block512.
  do 8 (eapply moves_load; [reflexivity|lia|simpl; lia|]).
  apply (moves_stores 64 _ _ _ _ 448); [lia..|]. apply (moves_stores 64 _ _ _ _ 384); [lia..|].
  apply (moves_stores 64 _ _ _ _ 320); [lia..|]. apply (moves_stores 64 _ _ _ _ 256); [lia..|].
  apply (moves_stores 64 _ _ _ _ 192); [lia..|]. apply (moves_stores 64 _ _ _ _ 128); [lia..|].
  apply (moves_stores 64 _ _ _ _ 64); [lia..|]. apply (moves_store 64); lia.
Qed.

Lemma moves_blocks step body : 0 < step -> (forall d s o, at_off d s o -> moves (body d s) o step) ->
  forall fuel n d s o, (Z.to_nat n < fuel)%nat -> 0 <= n -> at_off d s o ->
  moves (blocks step body fuel d s n) o (n - n mod step).
Proof using Type.
  intros Hs Hb fuel. induction fuel as [|fuel IH]; intros n d s o Hf Hn Hd; [lia|]. cbn [blocks].
  destruct (Z.leb_spec step n) as [Hle|Hlt].
  - replace (n - n mod step) with (step + ((n - step) - (n - step) mod step)).
    + apply moves_seq; [lia|pose proof (Z.mod_le (n - step) step); lia|by apply Hb|].
      apply IH; [lia|lia|]. destruct Hd. split; lia.
    + replace ((n - step) mod step) with (n mod step); [lia|].
      rewrite <- (Z.mod_add (n - step) 1 step) by lia. f_equal. lia.
  - rewrite Z.mod_small by lia. apply (moves_at (mret tt) o 0); [apply moves_ret|done|lia].
Qed.

Lemma moves_when (c : bool) w (g : Z -> Z -> M bytes unit) d s o t : at_off d s o -> 0 <= t ->
  (forall d s, at_off d s (o + if c then Z.of_nat w else 0) -> moves (g d s) (o + if c then Z.of_nat w else 0) t) ->
  moves (_ ← (if c then assign w d s else mret tt);
         let '(s, d) := if c then (s + Z.of_nat w, d + Z.of_nat w) else (s, d) in g d s) o
    ((if c then Z.of_nat w else 0) + t).
Proof using Hdis Hmap.
  intros [-> ->] Ht Hg. apply moves_seq; [destruct c; lia|done| |].
  - destruct c; [apply (moves_assign w)|apply moves_ret].
  - destruct c; apply Hg; split; lia.
Qed.

Lemma moves_few d s o n : 0 <= n < 16 -> at_off d s o -> moves (copy_few d s n) o n.
Proof using Hdis Hmap.
  intros Hn Hd. unfold copy_few.
  set (b0 := negb (Z.land n 1 =? 0)). set (b1 := negb (Z.land n 2 =? 0)).
  set (b2 := negb (Z.land n 4 =? 0)). set (b3 := negb (Z.land n 8 =? 0)).
  assert (E : n = (if b0 then 1 else 0) + ((if b1 then 2 else 0) + ((if b2 then 4 else 0) + (if b3 then 8 else 0)))).
  { assert (Hc : forallb (fun k => let n := Z.of_nat k in n =? (if negb (Z.land n 1 =? 0) then 1 else 0) +
      ((if negb (Z.land n 2 =? 0) then 2 else 0) + ((if negb (Z.land n 4 =? 0) then 4 else 0) +
      (if negb (Z.land n 8 =? 0) then 8 else 0)))) (seq 0 16) = true) by (vm_compute; reflexivity).
    rewrite forallb_forall in Hc. specialize (Hc (Z.to_nat n)). rewrite Z2Nat.id in Hc by lia.
    apply Z.eqb_eq, Hc, in_seq. lia. }
  rewrite E. clearbody b0 b1 b2 b3. clear E.
  apply (moves_when b0 1 (fun d s => _) d s o); [done|destruct b1, b2, b3; lia|]. clear Hd. intros d1 s1 H1.
  apply (moves_when b1 2 (fun d s => _) d1 s1); [done|destruct b2, b3; lia|]. intros d2 s2 H2.
  apply (moves_when b2 4 (fun d s => _) d2 s2); [done|destruct b3; lia|]. intros d3 s3 [-> ->].
  destruct b3; [apply (moves_assign 8)|apply moves_ret].
Qed.

Lemma moves_tail (mov : Z -> Z -> M bytes unit) d s o n k :
  (forall d s o, at_off d s o -> moves (mov d s) o k) -> 0 < k -> k <= n <= 2 * k -> at_off d s o ->
  moves (_ ← mov d s; mov (d - k + n) (s - k + n)) o n.
Proof using Type.
  intros Hm Hk Hn [-> ->]. apply (moves_at _ o (o + (n - k) + k - o)); [|lia..].
  apply (moves_then _ _ o k); [apply Hm; split; lia|apply Hm; split; lia|lia|lia].
Qed.
Lemma moves_wider f o' w o n : moves f o' w -> 0 <= o' <= o -> o' + w = o + n -> moves f o n.
Proof using Type.
  intros Hm Ho Hw lo m Hc Hlo Hl Hn. destruct (Hm lo m Hc) as (m' & E & C); [lia..|]. rewrite Hw in C. by exists m'.
Qed.

Lemma moves_back d s o n : at_off d s o -> 0 <= n <= 128 -> 0 <= o -> 64 <= o + n -> moves (copy_back d s n) o n.
Proof using Hdis Hmap.
  intros Hd Hn Ho H64. unfold copy_back. destruct (Z.ltb_spec 64 n).
  { apply moves_tail; [apply moves_mov64|lia|lia|exact Hd]. }
  destruct Hd as [-> ->]. destruct (Z.ltb_spec 0 n).
  - apply (moves_wider _ (o - 64 + n) 64); [apply moves_mov64; split; lia|lia|lia].
  - replace n with 0 by lia. apply moves_ret.
Qed.

Lemma moves_step_if c k w move rest d s o n : 0 <= k <= w ->
  (c = true -> w <= n /\ moves (move d s) o w /\ moves (rest (d + k) (s + k) (n - k)) (o + k) (n - k)) ->
  (c = false -> moves (rest d s n) o n) -> moves (step_if c k move d s n rest) o n.
Proof using Type.
  intros Hk Ht Hf. destruct c; [|by apply Hf]. destruct (Ht eq_refl) as (Hw & H1 & H2). cbn [step_if].
  apply (moves_at _ o (o + k + (n - k) - o)); [|lia..]. apply (moves_then _ _ o w); [exact H1|exact H2|lia|lia].
Qed.

Lemma at_off_add d s o k : at_off d s o -> at_off (d + k) (s + k) (o + k).
Proof using Type. intros [-> ->]. split; lia. Qed.
Local Hint Resolve at_off_add moves_mov64 moves_mov128 moves_mov256 : core.

Lemma moves_middle d s n : 64 < n <= 512 -> at_off d s 0 ->
  moves (step_if (256 <=? n) 256 kylin_mov256 d s n (fun d s n => step_if (128 <=? n) 128 kylin_mov128 d s n copy_back)) 0 n.
Proof using Hdis Hmap.
  intros Hn Hd. apply (moves_step_if _ 256 256); [lia|intros H%Z.leb_le|intros H%Z.leb_gt].
  - split; [lia|]. split; [auto|]. apply (moves_step_if _ 128 128); [lia|intros H'%Z.leb_le|intros H'%Z.leb_gt].
    + split; [lia|]. split; [auto|]. apply moves_back; auto; lia.
    + apply moves_back; auto; lia.
  - apply (moves_step_if _ 128 128); [lia|intros H'%Z.leb_le|intros H'%Z.leb_gt].
    + split; [lia|]. split; [auto|]. apply moves_back; auto; lia.
    + apply moves_back; auto; lia.
Qed.

Lemma moves_large d s o n : 0 <= n -> 0 <= o -> 64 <= o + n -> at_off d s o -> moves (copy_large d s n) o n.
Proof using Hdis Hmap.
  intros Hn Ho H64 Hd. unfold copy_large.
  assert (E : forall x, 0 <= x -> Z.land x 511 = x mod 512 /\ Z.land x 127 = x mod 128).
  { intros x Hx. split; [exact (Z.land_ones x 9 ltac:(lia))|exact (Z.land_ones x 7 ltac:(lia))]. }
  rewrite (proj1 (E n Hn)). cbv zeta. pose proof (Z.mod_pos_bound n 512 ltac:(lia)). pose proof (Z.mod_le n 512 Hn ltac:(lia)).
  apply (moves_at _ o (n - n mod 512 + n mod 512)); [|done|lia].
  apply moves_seq; [lia|lia|apply moves_blocks; auto using moves_block512; lia|].
  set (bits := n - n mod 512) in *. set (r := n mod 512) in *. destruct (Z.leb_spec 128 r).
  - rewrite (proj2 (E r ltac:(lia))). pose proof (Z.mod_pos_bound r 128 ltac:(lia)). pose proof (Z.mod_le r 128 ltac:(lia) ltac:(lia)).
    apply (moves_at _ (o + bits) (r - r mod 128 + r mod 128)); [|done|lia].
    apply moves_seq; [lia|lia|apply moves_blocks; auto using moves_block128; lia|]. apply moves_back; auto; lia.
  - apply moves_back; auto; lia.
Qed.

Lemma moves_aligned fuel : forall d s o n, (Z.to_nat n < fuel)%nat -> 0 <= n -> 64 <= o -> at_off d s o ->
  moves (aligned_loop fuel d s n) o n.
Proof using Hdis Hmap.
  induction fuel as [|fuel IH]; intros d s o n Hf Hn Ho Hd; [lia|]. cbn [aligned_loop].
  destruct (Z.leb_spec 64 n).
  - apply (moves_at _ o (64 + (n - 64))); [|done|lia]. apply moves_seq; [lia|lia|auto|]. apply IH; auto; lia.
  - destruct Hd as [-> ->]. apply (moves_wider _ (o - 64 + n) 64); [apply moves_mov64; split; lia|lia|lia].
Qed.

(** The whole block. *)
Definition moves_all (f : M bytes unit) (r : M bytes Z) : Prop := moves f 0 n0 /\ forall m, r m = (_ ← f; mret dst0) m.

Lemma at_start : at_off dst0 src0 0.
Proof using Type. split; lia. Qed.
Local Hint Resolve at_start : core.

Lemma moves_small (mov : Z -> Z -> M bytes unit) k :
  (forall d s o, at_off d s o -> moves (mov d s) o k) -> 0 < k -> k <= n0 <= 2 * k ->
  moves_all (_ ← mov dst0 src0; mov (dst0 - k + n0) (src0 - k + n0))
    (_ ← mov dst0 src0; _ ← mov (dst0 - k + n0) (src0 - k + n0); mret dst0).
Proof using Type.
  intros Hm Hk Hn. split; [by apply moves_tail|]. intros m. unfold mbind, M_bind.
  by destruct (mov dst0 src0 m) as [[? ?]| |].
Qed.

Lemma generic_moves : 0 <= n0 -> exists f, moves_all f (kylin_memcpy_generic dst0 src0 n0).
Proof using Hdis Hmap.
  intros Hn. unfold kylin_memcpy_generic. cbv zeta.
  destruct (Z.ltb_spec n0 16); [eexists; split; [apply moves_few; [lia|apply at_start]|done]|].
  destruct (Z.leb_spec n0 32); [eexists; apply (moves_small kylin_mov16); [apply moves_mov16|lia..]|].
  destruct (Z.leb_spec n0 64); [eexists; apply (moves_small kylin_mov32); [apply moves_mov32|lia..]|].
  destruct (Z.leb_spec n0 512); [eexists; split; [apply moves_middle; auto; lia|done]|].
  exists (step_if (0 <? Z.land dst0 63) (64 - Z.land dst0 63) kylin_mov64 dst0 src0 n0 copy_large). split; [|done].
  assert (Hl : 0 <= Z.land dst0 63 < 64) by (change 63 with (Z.ones 6); rewrite Z.land_ones by lia; apply Z.mod_pos_bound; lia).
  destruct (Z.ltb_spec 0 (Z.land dst0 63)).
  - apply (moves_step_if _ _ 64); [lia|intros _|done]. split; [lia|]. split; [auto|]. apply moves_large; auto; lia.
  - cbn [step_if]. apply moves_large; auto; lia.
Qed.

Lemma aligned_moves : 0 <= n0 -> exists f, moves_all f (kylin_memcpy_aligned dst0 src0 n0).
Proof using Hdis Hmap.
  intros Hn. unfold kylin_memcpy_aligned. cbv zeta.
  destruct (Z.ltb_spec n0 16); [eexists; split; [apply moves_few; [lia|apply at_start]|done]|].
  destruct (Z.leb_spec n0 32); [eexists; apply (moves_small kylin_mov16); [apply moves_mov16|lia..]|].
  destruct (Z.leb_spec n0 64); [eexists; apply (moves_small kylin_mov32); [apply moves_mov32|lia..]|].
  exists (aligned_loop (S (Z.to_nat n0)) dst0 src0 n0). split; [|done].
  cbn [aligned_loop]. rewrite (proj2 (Z.leb_le 64 n0)) by lia.
  apply (moves_at _ 0 (64 + (n0 - 64))); [|done|lia]. apply moves_seq; [lia|lia|auto|]. apply moves_aligned; auto; lia.
Qed.

Lemma moves_all_copies f r : 0 <= n0 -> moves_all f r -> exists m', r m0 = Ok (dst0, m') /\ copied n0 m'.
Proof using Type.
  intros Hn [Hm Hr]. destruct (Hm 0 m0) as (m' & E & C); [|lia..|].
  - intros a. by rewrite bool_decide_eq_false_2 by lia.
  - exists m'. split; [|by rewrite Z.max_r in C by lia]. rewrite Hr. by run E.
Qed.
End Copy.

(** The reference: byte after byte. *)
Definition memcpy (dst src n : Z) : M bytes Z := _ ← assign (Z.to_nat n) dst src; mret dst.

(** C3. The vector copy does what [memcpy] does, whatever the size and the
    alignment: where the two blocks are in memory and do not overlap it ends,
    touches no byte outside them, and [dst] then holds the bytes of [src] and the
    rest of memory what it held. *)
Theorem kylin_memcpy_is_memcpy m dst src n : 0 <= n ->
  (forall i, 0 <= i < n -> is_Some (m !! (dst + i)) /\ is_Some (m !! (src + i))) ->
  dst + n <= src \/ src + n <= dst ->
  exists m', kylin_memcpy dst src n m = Ok (dst, m') /\ memcpy dst src n m = Ok (dst, m') /\
    forall a, m' !! a = if bool_decide (dst <= a < dst + n) then m !! (a - dst + src) else m !! a.
Proof.
  intros Hn Hm Hd.
  destruct (moves_all_copies m dst src n (assign (Z.to_nat n) dst src) (memcpy dst src n)) as (m1 & E1 & C1); [done| |].
  { split; [|done]. pose proof (moves_assign m dst src n Hm Hd (Z.to_nat n) 0) as H.
    rewrite Z2Nat.id, !Z.add_0_r in H by lia. exact H. }
  assert (H2 : exists f, moves_all m dst src n f (kylin_memcpy dst src n)).
  { unfold kylin_memcpy. destruct (_ =? 0); [by apply aligned_moves|by apply generic_moves]. }
  destruct H2 as (f & H2). destruct (moves_all_copies _ _ _ _ _ _ Hn H2) as (m2 & E2 & C2).
  assert (m2 = m1) as -> by (apply map_eq; intros a; by rewrite C1, C2). by exists m1.
Qed.

(** A block of 700 bytes at an address that is not aligned. *)
Definition sample_bytes : bytes :=
  list_to_map ((fun i => (Z.of_nat i + 64, Z.of_nat i mod 251)) <$> seq 0 1500).

Lemma kylin_memcpy_is_memcpy_witness :
  exists m', kylin_memcpy 67 800 700 sample_bytes = Ok (67, m') /\ memcpy 67 800 700 sample_bytes = Ok (67, m') /\
    forall a, m' !! a = if bool_decide (67 <= a < 67 + 700) then sample_bytes !! (a - 67 + 800) else sample_bytes !! a.
Proof.
  apply (kylin_memcpy_is_memcpy sample_bytes 67 800 700); [lia| |left; lia].
  assert (H : forallb (fun k => bool_decide (is_Some (sample_bytes !! (67 + Z.of_nat k))) &&
    bool_decide (is_Some (sample_bytes !! (800 + Z.of_nat k)))) (seq 0 700) = true) by (vm_compute; reflexivity).
  rewrite forallb_forall in H. intros i Hi. specialize (H (Z.to_nat i) ltac:(apply in_seq; lia)). cbv beta in H.
  rewrite Z2Nat.id in H by lia. apply andb_true_iff in H as [H1%bool_decide_eq_true H2%bool_decide_eq_true].
  exact (conj H1 H2).
Defined.
