(* ===== verification/Cpu.v ===== *)
(** * Processor features ([lib/core/arch/x86/kylin_cpuflag.c])

    The table of the features and the question whether the processor has one.
    The instruction [cpuid] is an argument: from a leaf and a subleaf to the
    four registers. *)

From S2P Require Import Prelude.
From Stdlib Require Import String.

Inductive cpu_register_t := KYLIN_REG_EAX | KYLIN_REG_EBX | KYLIN_REG_ECX | KYLIN_REG_EDX.
#[export] Instance cpu_register_eq_dec : EqDecision cpu_register_t.
Proof. solve_decision. Defined.

(** The features, by the suffix of [KYLIN_CPUFLAG_]. *)
Inductive kylin_cpu_flag :=
  | CPUFLAG_SSE3 | CPUFLAG_PCLMULQDQ | CPUFLAG_DTES64 | CPUFLAG_MONITOR | CPUFLAG_DS_CPL | CPUFLAG_VMX | CPUFLAG_SMX
  | CPUFLAG_EIST | CPUFLAG_TM2 | CPUFLAG_SSSE3 | CPUFLAG_CNXT_ID | CPUFLAG_FMA | CPUFLAG_CMPXCHG16B | CPUFLAG_XTPR
  | CPUFLAG_PDCM | CPUFLAG_PCID | CPUFLAG_DCA | CPUFLAG_SSE4_1 | CPUFLAG_SSE4_2 | CPUFLAG_X2APIC | CPUFLAG_MOVBE
  | CPUFLAG_POPCNT | CPUFLAG_TSC_DEADLINE | CPUFLAG_AES | CPUFLAG_XSAVE | CPUFLAG_OSXSAVE | CPUFLAG_AVX
  | CPUFLAG_F16C | CPUFLAG_RDRAND | CPUFLAG_FPU | CPUFLAG_VME | CPUFLAG_DE | CPUFLAG_PSE | CPUFLAG_TSC | CPUFLAG_MSR
  | CPUFLAG_PAE | CPUFLAG_MCE | CPUFLAG_CX8 | CPUFLAG_APIC | CPUFLAG_SEP | CPUFLAG_MTRR | CPUFLAG_PGE | CPUFLAG_MCA
  | CPUFLAG_CMOV | CPUFLAG_PAT | CPUFLAG_PSE36 | CPUFLAG_PSN | CPUFLAG_CLFSH | CPUFLAG_DS | CPUFLAG_ACPI
  | CPUFLAG_MMX | CPUFLAG_FXSR | CPUFLAG_SSE | CPUFLAG_SSE2 | CPUFLAG_SS | CPUFLAG_HTT | CPUFLAG_TM | CPUFLAG_PBE
  | CPUFLAG_DIGTEMP | CPUFLAG_TRBOBST | CPUFLAG_ARAT | CPUFLAG_PLN | CPUFLAG_ECMD | CPUFLAG_PTM
  | CPUFLAG_MPERF_APERF_MSR | CPUFLAG_ACNT2 | CPUFLAG_ENERGY_EFF | CPUFLAG_FSGSBASE | CPUFLAG_BMI1 | CPUFLAG_HLE
  | CPUFLAG_AVX2 | CPUFLAG_SMEP | CPUFLAG_BMI2 | CPUFLAG_ERMS | CPUFLAG_INVPCID | CPUFLAG_RTM | CPUFLAG_AVX512F
  | CPUFLAG_LAHF_SAHF | CPUFLAG_LZCNT | CPUFLAG_SYSCALL | CPUFLAG_XD | CPUFLAG_1GB_PG | CPUFLAG_RDTSCP
  | CPUFLAG_EM64T | CPUFLAG_INVTSC.

(** The enumerators in order: [feature] is an index into this list. *)
Definition all_flags : list kylin_cpu_flag := [
  CPUFLAG_SSE3; CPUFLAG_PCLMULQDQ; CPUFLAG_DTES64; CPUFLAG_MONITOR; CPUFLAG_DS_CPL; CPUFLAG_VMX; CPUFLAG_SMX;
  CPUFLAG_EIST; CPUFLAG_TM2; CPUFLAG_SSSE3; CPUFLAG_CNXT_ID; CPUFLAG_FMA; CPUFLAG_CMPXCHG16B; CPUFLAG_XTPR;
  CPUFLAG_PDCM; CPUFLAG_PCID; CPUFLAG_DCA; CPUFLAG_SSE4_1; CPUFLAG_SSE4_2; CPUFLAG_X2APIC; CPUFLAG_MOVBE;
  CPUFLAG_POPCNT; CPUFLAG_TSC_DEADLINE; CPUFLAG_AES; CPUFLAG_XSAVE; CPUFLAG_OSXSAVE; CPUFLAG_AVX; CPUFLAG_F16C;
  CPUFLAG_RDRAND; CPUFLAG_FPU; CPUFLAG_VME; CPUFLAG_DE; CPUFLAG_PSE; CPUFLAG_TSC; CPUFLAG_MSR; CPUFLAG_PAE;
  CPUFLAG_MCE; CPUFLAG_CX8; CPUFLAG_APIC; CPUFLAG_SEP; CPUFLAG_MTRR; CPUFLAG_PGE; CPUFLAG_MCA; CPUFLAG_CMOV;
  CPUFLAG_PAT; CPUFLAG_PSE36; CPUFLAG_PSN; CPUFLAG_CLFSH; CPUFLAG_DS; CPUFLAG_ACPI; CPUFLAG_MMX; CPUFLAG_FXSR;
  CPUFLAG_SSE; CPUFLAG_SSE2; CPUFLAG_SS; CPUFLAG_HTT; CPUFLAG_TM; CPUFLAG_PBE; CPUFLAG_DIGTEMP; CPUFLAG_TRBOBST;
  CPUFLAG_ARAT; CPUFLAG_PLN; CPUFLAG_ECMD; CPUFLAG_PTM; CPUFLAG_MPERF_APERF_MSR; CPUFLAG_ACNT2; CPUFLAG_ENERGY_EFF;
  CPUFLAG_FSGSBASE; CPUFLAG_BMI1; CPUFLAG_HLE; CPUFLAG_AVX2; CPUFLAG_SMEP; CPUFLAG_BMI2; CPUFLAG_ERMS;
  CPUFLAG_INVPCID; CPUFLAG_RTM; CPUFLAG_AVX512F; CPUFLAG_LAHF_SAHF; CPUFLAG_LZCNT; CPUFLAG_SYSCALL; CPUFLAG_XD;
  CPUFLAG_1GB_PG; CPUFLAG_RDTSCP; CPUFLAG_EM64T; CPUFLAG_INVTSC].
Definition KYLIN_CPUFLAG_NUMFLAGS : Z := Z.of_nat (Datatypes.length all_flags).

Record feature_entry := mk_feature { leaf : Z; subleaf : Z; reg : cpu_register_t; bit : Z; name : string }.

Definition FEAT_DEF (flag : kylin_cpu_flag) (name : string) (leaf subleaf : Z) (reg : cpu_register_t) (bit : Z) :
  kylin_cpu_flag * feature_entry := (flag, mk_feature leaf subleaf reg bit name).

Definition feat_defs : list (kylin_cpu_flag * feature_entry) := [
  FEAT_DEF CPUFLAG_SSE3 "SSE3" 0x00000001 0 KYLIN_REG_ECX 0;
  FEAT_DEF CPUFLAG_PCLMULQDQ "PCLMULQDQ" 0x00000001 0 KYLIN_REG_ECX 1;
  FEAT_DEF CPUFLAG_DTES64 "DTES64" 0x00000001 0 KYLIN_REG_ECX 2;
  FEAT_DEF CPUFLAG_MONITOR "MONITOR" 0x00000001 0 KYLIN_REG_ECX 3;
  FEAT_DEF CPUFLAG_DS_CPL "DS_CPL" 0x00000001 0 KYLIN_REG_ECX 4;
  FEAT_DEF CPUFLAG_VMX "VMX" 0x00000001 0 KYLIN_REG_ECX 5;
  FEAT_DEF CPUFLAG_SMX "SMX" 0x00000001 0 KYLIN_REG_ECX 6;
  FEAT_DEF CPUFLAG_EIST "EIST" 0x00000001 0 KYLIN_REG_ECX 7;
  FEAT_DEF CPUFLAG_TM2 "TM2" 0x00000001 0 KYLIN_REG_ECX 8;
  FEAT_DEF CPUFLAG_SSSE3 "SSSE3" 0x00000001 0 KYLIN_REG_ECX 9;
  FEAT_DEF CPUFLAG_CNXT_ID "CNXT_ID" 0x00000001 0 KYLIN_REG_ECX 10;
  FEAT_DEF CPUFLAG_FMA "FMA" 0x00000001 0 KYLIN_REG_ECX 12;
  FEAT_DEF CPUFLAG_CMPXCHG16B "CMPXCHG16B" 0x00000001 0 KYLIN_REG_ECX 13;
  FEAT_DEF CPUFLAG_XTPR "XTPR" 0x00000001 0 KYLIN_REG_ECX 14;
  FEAT_DEF CPUFLAG_PDCM "PDCM" 0x00000001 0 KYLIN_REG_ECX 15;
  FEAT_DEF CPUFLAG_PCID "PCID" 0x00000001 0 KYLIN_REG_ECX 17;
  FEAT_DEF CPUFLAG_DCA "DCA" 0x00000001 0 KYLIN_REG_ECX 18;
  FEAT_DEF CPUFLAG_SSE4_1 "SSE4_1" 0x00000001 0 KYLIN_REG_ECX 19;
  FEAT_DEF CPUFLAG_SSE4_2 "SSE4_2" 0x00000001 0 KYLIN_REG_ECX 20;
  FEAT_DEF CPUFLAG_X2APIC "X2APIC" 0x00000001 0 KYLIN_REG_ECX 21;
  FEAT_DEF CPUFLAG_MOVBE "MOVBE" 0x00000001 0 KYLIN_REG_ECX 22;
  FEAT_DEF CPUFLAG_POPCNT "POPCNT" 0x00000001 0 KYLIN_REG_ECX 23;
  FEAT_DEF CPUFLAG_TSC_DEADLINE "TSC_DEADLINE" 0x00000001 0 KYLIN_REG_ECX 24;
  FEAT_DEF CPUFLAG_AES "AES" 0x00000001 0 KYLIN_REG_ECX 25;
  FEAT_DEF CPUFLAG_XSAVE "XSAVE" 0x00000001 0 KYLIN_REG_ECX 26;
  FEAT_DEF CPUFLAG_OSXSAVE "OSXSAVE" 0x00000001 0 KYLIN_REG_ECX 27;
  FEAT_DEF CPUFLAG_AVX "AVX" 0x00000001 0 KYLIN_REG_ECX 28;
  FEAT_DEF CPUFLAG_F16C "F16C" 0x00000001 0 KYLIN_REG_ECX 29;
  FEAT_DEF CPUFLAG_RDRAND "RDRAND" 0x00000001 0 KYLIN_REG_ECX 30;
  FEAT_DEF CPUFLAG_FPU "FPU" 0x00000001 0 KYLIN_REG_EDX 0;
  FEAT_DEF CPUFLAG_VME "VME" 0x00000001 0 KYLIN_REG_EDX 1;
  FEAT_DEF CPUFLAG_DE "DE" 0x00000001 0 KYLIN_REG_EDX 2;
  FEAT_DEF CPUFLAG_PSE "PSE" 0x00000001 0 KYLIN_REG_EDX 3;
  FEAT_DEF CPUFLAG_TSC "TSC" 0x00000001 0 KYLIN_REG_EDX 4;
  FEAT_DEF CPUFLAG_MSR "MSR" 0x00000001 0 KYLIN_REG_EDX 5;
  FEAT_DEF CPUFLAG_PAE "PAE" 0x00000001 0 KYLIN_REG_EDX 6;
  FEAT_DEF CPUFLAG_MCE "MCE" 0x00000001 0 KYLIN_REG_EDX 7;
  FEAT_DEF CPUFLAG_CX8 "CX8" 0x00000001 0 KYLIN_REG_EDX 8;
  FEAT_DEF CPUFLAG_APIC "APIC" 0x00000001 0 KYLIN_REG_EDX 9;
  FEAT_DEF CPUFLAG_SEP "SEP" 0x00000001 0 KYLIN_REG_EDX 11;
  FEAT_DEF CPUFLAG_MTRR "MTRR" 0x00000001 0 KYLIN_REG_EDX 12;
  FEAT_DEF CPUFLAG_PGE "PGE" 0x00000001 0 KYLIN_REG_EDX 13;
  FEAT_DEF CPUFLAG_MCA "MCA" 0x00000001 0 KYLIN_REG_EDX 14;
  FEAT_DEF CPUFLAG_CMOV "CMOV" 0x00000001 0 KYLIN_REG_EDX 15;
  FEAT_DEF CPUFLAG_PAT "PAT" 0x00000001 0 KYLIN_REG_EDX 16;
  FEAT_DEF CPUFLAG_PSE36 "PSE36" 0x00000001 0 KYLIN_REG_EDX 17;
  FEAT_DEF CPUFLAG_PSN "PSN" 0x00000001 0 KYLIN_REG_EDX 18;
  FEAT_DEF CPUFLAG_CLFSH "CLFSH" 0x00000001 0 KYLIN_REG_EDX 19;
  FEAT_DEF CPUFLAG_DS "DS" 0x00000001 0 KYLIN_REG_EDX 21;
  FEAT_DEF CPUFLAG_ACPI "ACPI" 0x00000001 0 KYLIN_REG_EDX 22;
  FEAT_DEF CPUFLAG_MMX "MMX" 0x00000001 0 KYLIN_REG_EDX 23;
  FEAT_DEF CPUFLAG_FXSR "FXSR" 0x00000001 0 KYLIN_REG_EDX 24;
  FEAT_DEF CPUFLAG_SSE "SSE" 0x00000001 0 KYLIN_REG_EDX 25;
  FEAT_DEF CPUFLAG_SSE2 "SSE2" 0x00000001 0 KYLIN_REG_EDX 26;
  FEAT_DEF CPUFLAG_SS "SS" 0x00000001 0 KYLIN_REG_EDX 27;
  FEAT_DEF CPUFLAG_HTT "HTT" 0x00000001 0 KYLIN_REG_EDX 28;
  FEAT_DEF CPUFLAG_TM "TM" 0x00000001 0 KYLIN_REG_EDX 29;
  FEAT_DEF CPUFLAG_PBE "PBE" 0x00000001 0 KYLIN_REG_EDX 31;
  FEAT_DEF CPUFLAG_DIGTEMP "DIGTEMP" 0x00000006 0 KYLIN_REG_EAX 0;
  FEAT_DEF CPUFLAG_TRBOBST "TRBOBST" 0x00000006 0 KYLIN_REG_EAX 1;
  FEAT_DEF CPUFLAG_ARAT "ARAT" 0x00000006 0 KYLIN_REG_EAX 2;
  FEAT_DEF CPUFLAG_PLN "PLN" 0x00000006 0 KYLIN_REG_EAX 4;
  FEAT_DEF CPUFLAG_ECMD "ECMD" 0x00000006 0 KYLIN_REG_EAX 5;
  FEAT_DEF CPUFLAG_PTM "PTM" 0x00000006 0 KYLIN_REG_EAX 6;
  FEAT_DEF CPUFLAG_MPERF_APERF_MSR "MPERF_APERF_MSR" 0x00000006 0 KYLIN_REG_ECX 0;
  FEAT_DEF CPUFLAG_ACNT2 "ACNT2" 0x00000006 0 KYLIN_REG_ECX 1;
  FEAT_DEF CPUFLAG_ENERGY_EFF "ENERGY_EFF" 0x00000006 0 KYLIN_REG_ECX 3;
  FEAT_DEF CPUFLAG_FSGSBASE "FSGSBASE" 0x00000007 0 KYLIN_REG_EBX 0;
  FEAT_DEF CPUFLAG_BMI1 "BMI1" 0x00000007 0 KYLIN_REG_EBX 2;
  FEAT_DEF CPUFLAG_HLE "HLE" 0x00000007 0 KYLIN_REG_EBX 4;
  FEAT_DEF CPUFLAG_AVX2 "AVX2" 0x00000007 0 KYLIN_REG_EBX 5;
  FEAT_DEF CPUFLAG_SMEP "SMEP" 0x00000007 0 KYLIN_REG_EBX 6;
  FEAT_DEF CPUFLAG_BMI2 "BMI2" 0x00000007 0 KYLIN_REG_EBX 7;
  FEAT_DEF CPUFLAG_ERMS "ERMS" 0x00000007 0 KYLIN_REG_EBX 8;
  FEAT_DEF CPUFLAG_INVPCID "INVPCID" 0x00000007 0 KYLIN_REG_EBX 10;
  FEAT_DEF CPUFLAG_RTM "RTM" 0x00000007 0 KYLIN_REG_EBX 11;
  FEAT_DEF CPUFLAG_AVX512F "AVX512F" 0x00000007 0 KYLIN_REG_EBX 16;
  FEAT_DEF CPUFLAG_LAHF_SAHF "LAHF_SAHF" 0x80000001 0 KYLIN_REG_ECX 0;
  FEAT_DEF CPUFLAG_LZCNT "LZCNT" 0x80000001 0 KYLIN_REG_ECX 4;
  FEAT_DEF CPUFLAG_SYSCALL "SYSCALL" 0x80000001 0 KYLIN_REG_EDX 11;
  FEAT_DEF CPUFLAG_XD "XD" 0x80000001 0 KYLIN_REG_EDX 20;
  FEAT_DEF CPUFLAG_1GB_PG "1GB_PG" 0x80000001 0 KYLIN_REG_EDX 26;
  FEAT_DEF CPUFLAG_RDTSCP "RDTSCP" 0x80000001 0 KYLIN_REG_EDX 27;
  FEAT_DEF CPUFLAG_EM64T "EM64T" 0x80000001 0 KYLIN_REG_EDX 29;
  FEAT_DEF CPUFLAG_INVTSC "INVTSC" 0x80000007 0 KYLIN_REG_EDX 8].

#[export] Instance kylin_cpu_flag_eq_dec : EqDecision kylin_cpu_flag.
Proof. solve_decision. Defined.

(** The array made by the designated initialisers; an index that has none is
    all zero. *)
Definition no_feature : feature_entry := mk_feature 0 0 KYLIN_REG_EAX 0 EmptyString.
Definition kylin_cpu_feature_table : list feature_entry :=
  map (fun f => match List.find (fun d => bool_decide (d.1 = f)) feat_defs with Some d => d.2 | None => no_feature end) all_flags.

Definition ENOENT : Z := 2.
Definition EFAULT : Z := 14.

Section Cpu.
Context (cpuid : Z -> Z -> cpu_register_t -> Z).

Definition kylin_cpu_get_features (leaf subleaf : Z) : cpu_register_t -> Z := cpuid leaf subleaf.

(** [feature] is unsigned. *)
Definition kylin_cpu_get_flag_enabled (feature : Z) : outcome Z :=
  if KYLIN_CPUFLAG_NUMFLAGS <=? feature then Ok (- ENOENT) else
  match kylin_cpu_feature_table !! Z.to_nat feature with
  | None => Ub
  | Some feat =>
      if leaf feat =? 0 then Ok (- EFAULT) else
      let regs := kylin_cpu_get_features (Z.land (leaf feat) 0xffff0000) 0 in
      if negb (Z.land (Z.lxor (regs KYLIN_REG_EAX) (leaf feat)) 0xffff0000 =? 0) || (regs KYLIN_REG_EAX <? leaf feat)
      then Ok 0 else
      let regs := kylin_cpu_get_features (leaf feat) (subleaf feat) in
      Ok (Z.land (Z.shiftr (regs (reg feat)) (bit feat)) 1)
  end.

Definition kylin_cpu_get_flag_name (feature : Z) : outcome (option string) :=
  if KYLIN_CPUFLAG_NUMFLAGS <=? feature then Ok None else
  match kylin_cpu_feature_table !! Z.to_nat feature with Some feat => Ok (Some (name feat)) | None => Ub end.
End Cpu.

(** ** The table *)
Definition place (e : feature_entry) : Z * cpu_register_t * Z := (leaf e, reg e, bit e).
Definition entry_ok (e : feature_entry) : bool :=
  negb (leaf e =? 0) && (0 <=? leaf e) && (leaf e <? 2 ^ 32) && (subleaf e =? 0) && (0 <=? bit e) && (bit e <? 32).

Lemma table_ok : forallb entry_ok kylin_cpu_feature_table = true.
Proof. vm_compute. reflexivity. Qed.
Lemma table_places : NoDup (map place kylin_cpu_feature_table).
Proof. apply (bool_decide_unpack _). vm_compute. exact I. Qed.

Lemma flag_entry feature : 0 <= feature < KYLIN_CPUFLAG_NUMFLAGS ->
  exists e, kylin_cpu_feature_table !! Z.to_nat feature = Some e /\ entry_ok e = true.
Proof.
  intros Hf. destruct (lookup_lt_is_Some_2 kylin_cpu_feature_table (Z.to_nat feature)) as [e He].
  { unfold kylin_cpu_feature_table. rewrite length_map. unfold KYLIN_CPUFLAG_NUMFLAGS in Hf. lia. }
  exists e. split; [exact He|]. pose proof table_ok as H. rewrite forallb_forall in H. apply H.
  apply list_elem_of_In. by eapply list_elem_of_lookup_2.
Qed.

(** The upper halves of two words are compared by [(x ^ y) & 0xffff0000]. *)
Lemma upper_halves x y : is_u 32 x -> is_u 32 y ->
  (Z.land (Z.lxor x y) 0xffff0000 =? 0) = (x / 2 ^ 16 =? y / 2 ^ 16).
Proof.
  intros Hx Hy. change 0xffff0000 with (Z.shiftl (Z.ones 16) 16).
  assert (E : Z.land (Z.lxor x y) (Z.shiftl (Z.ones 16) 16) = Z.shiftl (Z.lxor (x / 2 ^ 16) (y / 2 ^ 16)) 16).
  { rewrite <- !Z.shiftr_div_pow2, <- Z.shiftr_lxor by lia. apply Z.bits_inj'. intros n Hn.
    rewrite Z.land_spec. destruct (Z.lt_ge_cases n 16); [by rewrite !Z.shiftl_spec_low, andb_false_r by done|].
    rewrite !Z.shiftl_spec, Z.shiftr_spec by lia. replace (n - 16 + 16) with n by lia.
    destruct (Z.lt_ge_cases n 32); [by rewrite Z.ones_spec_low, andb_true_r by lia|].
    rewrite Z.ones_spec_high, andb_false_r by lia. rewrite Z.lxor_spec.
    by rewrite !(testbit_is_u 32) by (done || lia). }
  rewrite E. destruct (Z.eqb_spec (x / 2 ^ 16) (y / 2 ^ 16)) as [->|Hne].
  - by rewrite Z.lxor_nilpotent.
  - apply Z.eqb_neq. rewrite Z.shiftl_mul_pow2 by lia. intros H. apply Hne, Z.lxor_eq. lia.
Qed.

Lemma leaf_range l : 0 <= l < 2 ^ 32 -> Z.land l 0xffff0000 = l / 2 ^ 16 * 2 ^ 16.
Proof.
  intros Hl. rewrite <- Z.shiftl_mul_pow2, <- Z.shiftr_div_pow2 by lia. change 0xffff0000 with (Z.shiftl (Z.ones 16) 16).
  apply Z.bits_inj'. intros n Hn. rewrite Z.land_spec.
  destruct (Z.lt_ge_cases n 16); [by rewrite !Z.shiftl_spec_low, andb_false_r by done|].
  rewrite !Z.shiftl_spec, Z.shiftr_spec by lia. replace (n - 16 + 16) with n by lia.
  destruct (Z.lt_ge_cases n 32); [by rewrite Z.ones_spec_low, andb_true_r by lia|].
  by rewrite (testbit_is_u 32 l n Hl) by lia.
Qed.

Lemma low_bit x : Z.land x 1 = Z.b2z (Z.testbit x 0).
Proof. rewrite Z.bit0_mod. exact (Z.land_ones x 1 ltac:(lia)). Qed.

(** What the processor says of a feature: the highest leaf of the leaf's range
    reaches it, and its bit is set. *)
Definition has_feature (cpuid : Z -> Z -> cpu_register_t -> Z) (e : feature_entry) : bool :=
  let highest := cpuid (leaf e / 2 ^ 16 * 2 ^ 16) 0 KYLIN_REG_EAX in
  (highest / 2 ^ 16 =? leaf e / 2 ^ 16) && (leaf e <=? highest) && Z.testbit (cpuid (leaf e) 0 (reg e)) (bit e).

(** C39. Every feature has an entry of its own in the table, whose bit no other
    feature looks at, and the question is answered by that bit of [cpuid]: no
    feature is ever reported as unknown or as missing from the table. *)
Theorem cpu_flag_reads_its_bit cpuid feature : (forall l s r, is_u 32 (cpuid l s r)) ->
  0 <= feature < KYLIN_CPUFLAG_NUMFLAGS ->
  exists e, kylin_cpu_feature_table !! Z.to_nat feature = Some e /\
    (forall j e', kylin_cpu_feature_table !! j = Some e' -> place e' = place e -> j = Z.to_nat feature) /\
    kylin_cpu_get_flag_enabled cpuid feature = Ok (Z.b2z (has_feature cpuid e)).
Proof.
  intros Hc Hf. destruct (flag_entry feature Hf) as (e & He & Hok). exists e. split; [exact He|]. split.
  - intros j e' Hj Hp. apply (NoDup_lookup (map place kylin_cpu_feature_table) _ _ (place e) table_places).
    + etransitivity; [apply list_lookup_fmap|]. rewrite Hj. simpl. by rewrite Hp.
    + etransitivity; [apply list_lookup_fmap|]. by rewrite He.
  - unfold entry_ok in Hok. rewrite !andb_true_iff, negb_true_iff, !Z.leb_le, !Z.ltb_lt, Z.eqb_eq in Hok.
    destruct Hok as (((((Hl0 & Hl1) & Hl2) & Hs) & Hb1) & Hb2).
    unfold kylin_cpu_get_flag_enabled. rewrite (proj2 (Z.leb_gt _ _)) by lia. rewrite He, Hl0. cbv zeta.
    unfold kylin_cpu_get_features, has_feature. rewrite (leaf_range (leaf e)), upper_halves, Hs by first [apply Hc|unfold is_u; lia].
    destruct (_ / _ =? _); [|done]. cbn [negb orb andb]. rewrite Z.leb_antisym. destruct (_ <? leaf e); [done|].
    cbn [negb andb]. f_equal. by rewrite low_bit, Z.shiftr_spec by lia.
Qed.

Lemma cpu_flag_reads_its_bit_witness :
  exists e, kylin_cpu_feature_table !! 25%nat = Some e /\
    (forall j e', kylin_cpu_feature_table !! j = Some e' -> place e' = place e -> j = 25%nat) /\
    kylin_cpu_get_flag_enabled (fun l _ _ => if l =? 0 then 13 else 2 ^ 26) 25 =
      Ok (Z.b2z (has_feature (fun l _ _ => if l =? 0 then 13 else 2 ^ 26) e)).
Proof.
  apply (cpu_flag_reads_its_bit (fun l _ _ => if l =? 0 then 13 else 2 ^ 26) 25).
  - intros l s r. destruct (l =? 0); split; vm_compute; congruence.
  - vm_compute. split; congruence.
Defined.
