(* ===== verification/Io.v ===== *)
(** * Memory-mapped registers ([include/arch/kylin_io.h])

    The accesses to a device as they stand in the program, with the barriers of
    the x86 headers between them: [kylin_io_rmb] and [kylin_io_wmb] are compiler
    barriers.  What a register holds when it is read is an argument, by the
    accesses before. *)

From S2P Require Import Prelude.

(** Widths in bytes; a value that is stored has its width. *)
Inductive bus_event :=
| Load (width addr : Z)
| Store (width addr value : Z)
| Barrier.

Section Io.
Context (device : list bus_event -> Z -> Z -> Z).

Definition emit (e : bus_event) : M (list bus_event) unit := fun t => Ok (tt, t ++ [e]).
Definition load (width addr : Z) : M (list bus_event) Z :=
  t ← get_st; _ ← emit (Load width addr); mret (uw (8 * width) (device t width addr)).
Definition store (width value addr : Z) : M (list bus_event) unit := emit (Store width addr (uw (8 * width) value)).

Definition kylin_compiler_barrier : M (list bus_event) unit := emit Barrier.
Definition kylin_io_rmb : M (list bus_event) unit := kylin_compiler_barrier.
Definition kylin_io_wmb : M (list bus_event) unit := kylin_compiler_barrier.

Definition kylin_read8_relaxed (addr : Z) : M (list bus_event) Z := load 1 addr.
Definition kylin_read16_relaxed (addr : Z) : M (list bus_event) Z := load 2 addr.
Definition kylin_read32_relaxed (addr : Z) : M (list bus_event) Z := load 4 addr.
Definition kylin_read64_relaxed (addr : Z) : M (list bus_event) Z := load 8 addr.
Definition kylin_write8_relaxed (value addr : Z) : M (list bus_event) unit := store 1 value addr.
Definition kylin_write16_relaxed (value addr : Z) : M (list bus_event) unit := store 2 value addr.
Definition kylin_write32_relaxed (value addr : Z) : M (list bus_event) unit := store 4 value addr.
Definition kylin_write64_relaxed (value addr : Z) : M (list bus_event) unit := store 8 value addr.

Definition kylin_read8 (addr : Z) : M (list bus_event) Z := val ← kylin_read8_relaxed addr; _ ← kylin_io_rmb; mret val.
Definition kylin_read16 (addr : Z) : M (list bus_event) Z := val ← kylin_read16_relaxed addr; _ ← kylin_io_rmb; mret val.
Definition kylin_read32 (addr : Z) : M (list bus_event) Z := val ← kylin_read32_relaxed addr; _ ← kylin_io_rmb; mret val.
Definition kylin_read64 (addr : Z) : M (list bus_event) Z := val ← kylin_read64_relaxed addr; _ ← kylin_io_rmb; mret val.
Definition kylin_write8 (value addr : Z) : M (list bus_event) unit := _ ← kylin_io_wmb; kylin_write8_relaxed value addr.
Definition kylin_write16 (value addr : Z) : M (list bus_event) unit := _ ← kylin_io_wmb; kylin_write16_relaxed value addr.
Definition kylin_write32 (value addr : Z) : M (list bus_event) unit := _ ← kylin_io_wmb; kylin_write32_relaxed value addr.
Definition kylin_write64 (value addr : Z) : M (list bus_event) unit := _ ← kylin_io_wmb; kylin_write64_relaxed value addr.

(** The functions with barriers. *)
Inductive io_call :=
| Read8 (addr : Z) | Read16 (addr : Z) | Read32 (addr : Z) | Read64 (addr : Z)
| Write8 (value addr : Z) | Write16 (value addr : Z) | Write32 (value addr : Z) | Write64 (value addr : Z).
Definition run_io (c : io_call) : M (list bus_event) Z :=
  match c with
  | Read8 a => kylin_read8 a | Read16 a => kylin_read16 a | Read32 a => kylin_read32 a | Read64 a => kylin_read64 a
  | Write8 v a => _ ← kylin_write8 v a; mret 0 | Write16 v a => _ ← kylin_write16 v a; mret 0
  | Write32 v a => _ ← kylin_write32 v a; mret 0 | Write64 v a => _ ← kylin_write64 v a; mret 0
  end.

(** What a call adds to the accesses. *)
Definition events (c : io_call) : list bus_event :=
  match c with
  | Read8 a => [Load 1 a; Barrier] | Read16 a => [Load 2 a; Barrier]
  | Read32 a => [Load 4 a; Barrier] | Read64 a => [Load 8 a; Barrier]
  | Write8 v a => [Barrier; Store 1 a (uw 8 v)] | Write16 v a => [Barrier; Store 2 a (uw 16 v)]
  | Write32 v a => [Barrier; Store 4 a (uw 32 v)] | Write64 v a => [Barrier; Store 8 a (uw 64 v)]
  end.

(** Two accesses the functions keep in order: the first is a load, or the second
    is a store. *)
Definition kept (e e' : bus_event) : Prop :=
  match e, e' with Load _ _, (Load _ _ | Store _ _ _) => True | Store _ _ _, Store _ _ _ => True | _, _ => False end.
Definition ordered (t : list bus_event) : Prop := forall i j e e', (i < j)%nat -> t !! i = Some e -> t !! j = Some e' ->
  kept e e' -> exists k, (i < k < j)%nat /\ t !! k = Some Barrier.
Definition loads_closed (t : list bus_event) : Prop := forall i w a, t !! i = Some (Load w a) ->
  exists k, (i < k)%nat /\ t !! k = Some Barrier.

Lemma two_events (t : list bus_event) e e' : t ++ [e; e'] = (t ++ [e]) ++ [e'].
Proof. by rewrite <- app_assoc. Qed.

Lemma run_io_ok c t : exists r, run_io c t = Ok (r, t ++ events c).
Proof. destruct c; cbn [events]; rewrite two_events; eexists; reflexivity. Qed.

Lemma barrier_app t u k : t !! k = Some Barrier -> (t ++ u) !! k = Some Barrier.
Proof. apply lookup_app_l_Some. Qed.

(** A load is followed by a barrier, a store follows one. *)
Lemma ordered_read t w a : ordered t -> loads_closed t ->
  ordered (t ++ [Load w a; Barrier]) /\ loads_closed (t ++ [Load w a; Barrier]).
Proof.
  intros Ho Hc. split.
  - intros i j e e' Hij Hi Hj Hk.
    assert (j < length t \/ j = length t)%nat as [H| ->].
    { pose proof (lookup_lt_Some _ _ _ Hj) as Hl. rewrite length_app in Hl. simpl in Hl.
      destruct (decide (j = S (length t))) as [->|]; [|lia].
      rewrite lookup_app_r, Nat.sub_succ_l, Nat.sub_diag in Hj by lia. injection Hj as <-. by destruct e. }
    + rewrite lookup_app_l in Hi, Hj by lia. destruct (Ho i j e e' Hij Hi Hj Hk) as (k & ? & ?).
      exists k. split; [done|by apply barrier_app].
    + rewrite lookup_app_l in Hi by lia. rewrite lookup_app_r, Nat.sub_diag in Hj by lia. injection Hj as <-.
      destruct e as [w' a'| |]; [|done..]. destruct (Hc i w' a' Hi) as (k & Hk1 & Hk2).
      exists k. pose proof (lookup_lt_Some _ _ _ Hk2). split; [lia|by apply barrier_app].
  - intros i w' a' Hi. exists (S (length t)). split; [|by rewrite lookup_app_r, Nat.sub_succ_l, Nat.sub_diag by lia].
    pose proof (lookup_lt_Some _ _ _ Hi) as Hl. rewrite length_app in Hl. simpl in Hl.
    destruct (decide (i = S (length t))) as [->|]; [|lia].
    by rewrite lookup_app_r, Nat.sub_succ_l, Nat.sub_diag in Hi by lia.
Qed.

Lemma ordered_write t w a v : ordered t -> loads_closed t ->
  ordered (t ++ [Barrier; Store w a v]) /\ loads_closed (t ++ [Barrier; Store w a v]).
Proof.
  intros Ho Hc.
  assert (Hb : (t ++ [Barrier; Store w a v]) !! length t = Some Barrier) by (by rewrite lookup_app_r, Nat.sub_diag by lia).
  split.
  - intros i j e e' Hij Hi Hj Hk. pose proof (lookup_lt_Some _ _ _ Hj) as Hl. rewrite length_app in Hl. simpl in Hl.
    destruct (decide (j < length t)%nat).
    { rewrite lookup_app_l in Hi, Hj by lia. destruct (Ho i j e e' Hij Hi Hj Hk) as (k & ? & ?).
      exists k. split; [done|by apply barrier_app]. }
    destruct (decide (j = length t)) as [->|].
    { rewrite Hb in Hj. injection Hj as <-. by destruct e. }
    destruct (decide (i = length t)) as [->|]; [rewrite Hb in Hi; injection Hi as <-; done|].
    exists (length t). split; [lia|done].
  - intros i w' a' Hi. pose proof (lookup_lt_Some _ _ _ Hi) as Hl. rewrite length_app in Hl. simpl in Hl.
    destruct (decide (i < length t)%nat); [by exists (length t)|].
    destruct (decide (i = length t)) as [->|]; [by rewrite Hb in Hi|].
    assert (i = S (length t)) as -> by lia. by rewrite lookup_app_r, Nat.sub_succ_l, Nat.sub_diag in Hi by lia.
Qed.

Lemma ordered_events t c : ordered t -> loads_closed t -> ordered (t ++ events c) /\ loads_closed (t ++ events c).
Proof. destruct c; [apply ordered_read..|apply ordered_write|apply ordered_write|apply ordered_write|apply ordered_write]. Qed.
End Io.

(** C14. The accesses of any sequence of reads and writes are separated by
    barriers: the compiler moves nothing before a read that comes first, and no
    write before an access that comes first.  Every call goes through and makes exactly one
    access, of its own width. *)
Theorem io_accesses_ordered device cs : exists rs t,
  run_all (run_io device) cs [] = Ok (rs, t) /\ t = concat (map events cs) /\ ordered t.
Proof.
  enough (H : forall t, ordered t -> loads_closed t -> exists rs,
    run_all (run_io device) cs t = Ok (rs, t ++ concat (map events cs)) /\ ordered (t ++ concat (map events cs))).
  { destruct (H []) as (rs & E & Ho); [by intros ?|by intros ?|]. by exists rs, (concat (map events cs)). }
  induction cs as [|c cs IH]; intros t Ho Hc; cbn [run_all map concat].
  - exists []. by rewrite app_nil_r.
  - destruct (run_io_ok device c t) as (r & E). run E. destruct (ordered_events t c Ho Hc) as [Ho' Hc'].
    destruct (IH _ Ho' Hc') as (rs & E' & Ho''). rewrite <- app_assoc in E', Ho''. exists (r :: rs). by run E'.
Qed.

(** A read may pass a write that comes before it: there is no barrier between
    the two. *)
Lemma io_read_passes_write :
  concat (map events [Write8 1 16; Read8 16]) = [Barrier; Store 1 16 1; Load 1 16; Barrier].
Proof. done. Qed.

(** The relaxed functions keep nothing in order. *)
Lemma io_relaxed_unordered : ~ ordered [Load 1 16; Store 1 16 1].
Proof. intros H. destruct (H 0%nat 1%nat (Load 1 16) (Store 1 16 1)) as (k & ? & _); [lia|done..|lia]. Qed.
