(* ===== verification/Circular.v ===== *)
(** * Circular arrays

    Reading and writing a run of elements that starts at some position of an
    array and goes round its end: what the byte queue and the ring buffer
    share.  No function of the source by itself. *)

From S2P Require Import Prelude.

(** ** Reading: [n] elements from position [start] on, wrapping. *)
Definition ring_read {A} (val : list A) (start n : nat) : list A :=
  take n (drop start val ++ take start val).

Lemma length_ring_read {A} (val : list A) start n :
  (start <= length val)%nat -> (n <= length val)%nat -> length (ring_read val start n) = n.
Proof.
  intros. unfold ring_read. rewrite length_take, length_app, length_drop, length_take. lia.
Qed.

Lemma lookup_ring_read {A} (val : list A) start n i :
  (start < length val)%nat -> (n <= length val)%nat -> (i < n)%nat ->
  ring_read val start n !! i =
    val !! (if decide (start + i < length val) then start + i else start + i - length val)%nat.
Proof.
  intros. unfold ring_read. rewrite lookup_take_lt by lia. case_decide.
  - rewrite lookup_app_l by (rewrite length_drop; lia). by rewrite lookup_drop.
  - rewrite lookup_app_r by (rewrite length_drop; lia). rewrite length_drop.
    rewrite lookup_take_lt by lia. f_equal. lia.
Qed.

(** ** Writing *)

(** Distance of position [p] from position [a], going round. *)
Definition ring_dist (cap a p : nat) : nat := if decide (a <= p)%nat then (p - a)%nat else (p + cap - a)%nat.

(** [v'] is [v] with [bs] written from position [a] on, going round. *)
Definition ring_written {A} (v : list A) (a : nat) (bs v' : list A) : Prop :=
  length v' = length v /\
  forall p, (p < length v)%nat ->
    v' !! p = if decide (ring_dist (length v) a p < length bs)%nat
              then bs !! ring_dist (length v) a p else v !! p.

Lemma ring_written_once {A} (v : list A) a bs :
  (a + length bs <= length v)%nat -> ring_written v a bs (splice v a bs).
Proof.
  intros H. split; [by apply length_splice|]. intros p Hp. unfold ring_dist.
  destruct (decide (a <= p < a + length bs)%nat) as [Hin|Hout].
  - rewrite lookup_splice_in by lia. rewrite (decide_True (P := (a <= p)%nat)) by lia.
    by rewrite decide_True by lia.
  - rewrite lookup_splice_out by lia. rewrite decide_False; [done|].
    destruct (decide (a <= p)%nat); lia.
Qed.

Lemma ring_written_twice {A} (v : list A) a bs r :
  (a + r = length v)%nat -> (r <= length bs)%nat -> (length bs <= length v)%nat ->
  ring_written v a bs (splice (splice v a (take r bs)) 0 (drop r bs)).
Proof.
  intros Hr Hb Hbv.
  assert (L1 : length (splice v a (take r bs)) = length v)
    by (apply length_splice; rewrite length_take; lia).
  split.
  - rewrite length_splice; rewrite ?length_drop; lia.
  - intros p Hp. unfold ring_dist. destruct (decide (a <= p)%nat).
    + rewrite lookup_splice_out by (rewrite ?L1, ?length_drop; lia).
      rewrite lookup_splice_in by (rewrite ?length_take; lia).
      rewrite decide_True by lia. by rewrite lookup_take_lt by lia.
    + destruct (decide (p < length bs - r)%nat).
      * rewrite lookup_splice_in by (rewrite ?length_drop; lia).
        rewrite decide_True by lia. rewrite lookup_drop. f_equal. lia.
      * rewrite lookup_splice_out by (rewrite ?L1, ?length_drop; lia).
        rewrite lookup_splice_out by (rewrite ?length_take; lia).
        by rewrite decide_False by lia.
Qed.

Definition ring_pos (cap o i : nat) : nat :=
  if decide (o + i < cap)%nat then (o + i)%nat else (o + i - cap)%nat.

Lemma ring_dist_pos cap o u i :
  (o < cap)%nat -> (u <= cap)%nat -> (i < cap)%nat ->
  ring_dist cap (ring_pos cap o u) (ring_pos cap o i) =
    if decide (u <= i)%nat then (i - u)%nat else (i + cap - u)%nat.
Proof.
  intros. unfold ring_dist, ring_pos.
  destruct (decide (o + u < cap)%nat), (decide (o + i < cap)%nat), (decide (u <= i)%nat);
    case_decide; lia.
Qed.

Lemma ring_pos_lt cap o i : (o < cap)%nat -> (i <= cap)%nat -> (ring_pos cap o i < cap)%nat.
Proof. intros. unfold ring_pos. case_decide; lia. Qed.

(** Bytes written behind the used part extend what is read from [out]. *)
Lemma ring_read_written {A} (v : list A) o used bs v' :
  (o < length v)%nat -> (used + length bs <= length v)%nat ->
  ring_written v (ring_pos (length v) o used) bs v' ->
  ring_read v' o (used + length bs) = ring_read v o used ++ bs.
Proof.
  intros Ho Hu [Hl Hw]. apply list_eq. intros i.
  assert (L : length (ring_read v o used) = used) by (apply length_ring_read; lia).
  destruct (decide (i < used + length bs)%nat) as [Hi|Hi].
  - rewrite lookup_ring_read by lia. rewrite Hl. change (if decide _ then _ else _) with (ring_pos (length v) o i).
    rewrite Hw, ring_dist_pos by (try apply ring_pos_lt; lia).
    destruct (decide (used <= i)%nat).
    + rewrite lookup_app_r by lia. by rewrite L, decide_True by lia.
    + rewrite lookup_app_l by lia. rewrite lookup_ring_read by lia. by rewrite decide_False by lia.
  - rewrite !lookup_ge_None_2; [done| |].
    + rewrite length_app. lia.
    + rewrite length_ring_read; lia.
Qed.

(** The bytes after the first [n] of a circular read. *)
Lemma drop_ring_read {A} (v : list A) o n k :
  (o < length v)%nat -> (n <= k)%nat -> (k <= length v)%nat ->
  drop n (ring_read v o k) = ring_read v (ring_pos (length v) o n) (k - n).
Proof.
  intros Ho Hn Hk. apply list_eq. intros i. rewrite lookup_drop.
  destruct (decide (n + i < k)%nat).
  - rewrite !lookup_ring_read by (try apply ring_pos_lt; lia). f_equal.
    unfold ring_pos. repeat case_decide; lia.
  - rewrite !lookup_ge_None_2; [done| |]; rewrite length_ring_read; try lia;
      pose proof (ring_pos_lt (length v) o n); lia.
Qed.
