(* ===== verification/Bitops.v ===== *)
(** * Bit operations and powers of two

    [include/arch/x86/kylin_bitops.h] (the x86-64 implementation, inline
    assembly), [include/arch/kylin_bitops.h] (the two rounding functions built
    on it) and [kylin_is_pow_of_two] of [include/kylin.h].

    An array of words is a [list Z] of 64-bit values; a word outside the array
    is [Ub].  [bsf]/[bsr] leave their destination unspecified when the source
    is zero: the model makes that [Ub].  [IS_CONSTANT(nr)] asks the compiler
    whether the argument is a compile-time constant, so the functions that
    branch on it take the answer as a [bool]. *)

From S2P Require Import Prelude.

Definition kylin_is_pow_of_two (n : Z) : bool :=
  negb (n =? 0) && (Z.land n (u64 (n - 1)) =? 0).

(** ** Single-bit updates *)

(** The memory operand of [bts]/[btr]/[btc] with a register bit offset: bit
    [nr] of the array that starts at [addr]. *)
Definition on_bit (f : Z -> Z -> Z) (nr : Z) (addr : list Z) : outcome (list Z) :=
  match addr !! Z.to_nat (nr / 64) with
  | Some w => Ok (<[Z.to_nat (nr / 64) := f w (nr mod 64)]> addr)
  | None => Ub
  end.

(** The constant branch: a byte operation at [addr + (nr >> 3)], where [addr]
    is a [kword_t *], so the offset counts words. *)
Definition on_const_byte (f : Z -> Z -> Z) (nr : Z) (addr : list Z) : outcome (list Z) :=
  match addr !! Z.to_nat (Z.shiftr nr 3) with
  | Some w => Ok (<[Z.to_nat (Z.shiftr nr 3) := f w (Z.land nr 7)]> addr)
  | None => Ub
  end.

Definition clearbit64 (w i : Z) : Z := Z.ldiff w (Z.shiftl 1 i).
Definition setbit64 (w i : Z) : Z := Z.lor w (Z.shiftl 1 i).
Definition changebit64 (w i : Z) : Z := Z.lxor w (Z.shiftl 1 i).

Definition kylin_set_bit (is_constant : bool) (nr : Z) (addr : list Z) : outcome (list Z) :=
  if is_constant then on_const_byte setbit64 nr addr else on_bit setbit64 nr addr.

Definition kylin_clear_bit (is_constant : bool) (nr : Z) (addr : list Z) : outcome (list Z) :=
  if is_constant then on_const_byte clearbit64 nr addr else on_bit clearbit64 nr addr.

Definition kylin_change_bit (is_constant : bool) (nr : Z) (addr : list Z) : outcome (list Z) :=
  if is_constant then on_const_byte changebit64 nr addr else on_bit changebit64 nr addr.

(** [sbb %0,%0] turns the carry flag (the old bit) into 0 or -1. *)
Definition oldbit (nr : Z) (addr : list Z) : outcome Z :=
  match addr !! Z.to_nat (nr / 64) with
  | Some w => Ok (if Z.testbit w (nr mod 64) then -1 else 0)
  | None => Ub
  end.

Definition kylin_test_and_set_bit (nr : Z) (addr : list Z) : outcome (Z * list Z) :=
  old ← oldbit nr addr; addr' ← on_bit setbit64 nr addr; mret (old, addr').

Definition kylin_test_and_clear_bit (nr : Z) (addr : list Z) : outcome (Z * list Z) :=
  old ← oldbit nr addr; addr' ← on_bit clearbit64 nr addr; mret (old, addr').

Definition kylin_test_and_change_bit (nr : Z) (addr : list Z) : outcome (Z * list Z) :=
  old ← oldbit nr addr; addr' ← on_bit changebit64 nr addr; mret (old, addr').

(** ** Bit scans *)

(** Index of the lowest set bit of a positive number. *)
Fixpoint ctz_pos (p : positive) : Z :=
  match p with
  | xO p => 1 + ctz_pos p
  | _ => 0
  end.

Definition bsf (w : Z) : outcome Z :=
  match w with Zpos p => Ok (ctz_pos p) | _ => Ub end.
Definition bsr (w : Z) : outcome Z :=
  match w with Zpos _ => Ok (Z.log2 w) | _ => Ub end.

Definition kylin_ffs (word : Z) : outcome Z :=
  if word =? 0 then Ok (2 ^ 64 - 1) else bsf word.

Definition kylin_ffz (word : Z) : outcome Z :=
  if negb (Z.lxor word (2 ^ 64 - 1) =? 0) then bsf (u64 (Z.lnot word))
  else Ok (2 ^ 64 - 1).

Definition kylin_fls (word : Z) : outcome Z := bsr word.

(** ** Rounding to a power of two.  A shift by 64 or more is undefined. *)
Definition shl64 (x n : Z) : outcome Z :=
  if n <? 64 then Ok (u64 (Z.shiftl x n)) else Ub.

Definition kylin_roundup_pow_of_two (word : Z) : outcome Z :=
  n ← kylin_fls (u64 (word - 1)); shl64 1 n.

Definition kylin_rounddown_pow_of_two (word : Z) : outcome Z :=
  n ← kylin_fls word; shl64 1 (u64 (n - 1)).

(** ** Lemmas *)

Lemma ctz_pos_spec p :
  0 <= ctz_pos p /\ Z.testbit (Zpos p) (ctz_pos p) = true /\
  (forall i, 0 <= i < ctz_pos p -> Z.testbit (Zpos p) i = false).
Proof.
  induction p as [p IH|p IH|]; cbn [ctz_pos].
  - repeat split; [lia|]. intros; lia.
  - destruct IH as (H0 & H1 & H2).
    assert (Hd : forall i, 0 <= i -> Z.testbit (Zpos p~0) (1 + i) = Z.testbit (Zpos p) i).
    { intros i Hi. change (Zpos p~0) with (2 * Zpos p).
      replace (1 + i) with (Z.succ i) by lia. apply Z.double_bits_succ. }
    repeat split; [lia|by rewrite Hd|].
    intros i Hi. destruct (Z.eq_dec i 0) as [->|Hne]; [done|].
    replace i with (1 + (i - 1)) by lia. rewrite Hd by lia. apply H2. lia.
  - repeat split; [lia|]. intros; lia.
Qed.

Lemma testbit_log2_above z i : 0 <= z -> Z.log2 z < i -> Z.testbit z i = false.
Proof. intros. by apply Z.bits_above_log2. Qed.

Lemma pow2_land_pred k : 0 <= k -> Z.land (2 ^ k) (2 ^ k - 1) = 0.
Proof.
  intros Hk. replace (2 ^ k - 1) with (Z.ones k) by (rewrite Z.ones_equiv; lia).
  rewrite Z.land_ones by done. by apply Z.mod_same, Z.pow_nonzero.
Qed.

Lemma not_pow2_land_pred n :
  0 < n -> n <> 2 ^ Z.log2 n -> Z.land n (n - 1) <> 0.
Proof.
  intros Hn Hne E.
  pose proof (Z.log2_spec n Hn) as [Hlo Hhi].
  assert (Hk : 0 <= Z.log2 n) by apply Z.log2_nonneg.
  assert (Z.testbit (Z.land n (n - 1)) (Z.log2 n) = true) as Hb.
  { rewrite Z.land_spec, Z.bit_log2 by done. simpl.
    assert (Z.log2 (n - 1) = Z.log2 n) as <-.
    { apply Z.log2_unique; [done|lia]. }
    apply Z.bit_log2. lia. }
  rewrite E in Hb. by rewrite Z.bits_0 in Hb.
Qed.

Lemma kylin_is_pow_of_two_spec n :
  is_u 64 n ->
  kylin_is_pow_of_two n = true <-> exists k, 0 <= k < 64 /\ n = 2 ^ k.
Proof.
  intros Hn. unfold kylin_is_pow_of_two. split.
  - intros H. z_bool. destruct (Z.eq_dec n 0) as [|Hnz]; [lia|].
    rewrite uw_id in * by (unfold is_u in *; lia).
    exists (Z.log2 n). unfold is_u in Hn. split.
    + pose proof (Z.log2_nonneg n). split; [done|]. apply Z.log2_lt_pow2; lia.
    + destruct (Z.eq_dec n (2 ^ Z.log2 n)); [done|].
      exfalso. apply (not_pow2_land_pred n); [lia|done|done].
  - intros (k & Hk & ->). pose proof (pow2_pos k).
    rewrite uw_id by (unfold is_u in *; lia). rewrite pow2_land_pred by lia.
    destruct (Z.eqb_spec (2 ^ k) 0); [lia|done].
Qed.

Lemma bsr_pos w : 0 < w -> bsr w = Ok (Z.log2 w).
Proof. by destruct w. Qed.

Lemma shl64_pow2 n : 0 <= n < 64 -> shl64 1 n = Ok (2 ^ n).
Proof.
  intros. unfold shl64. destruct (Z.ltb_spec n 64); [|lia].
  rewrite Z.shiftl_1_l. f_equal. apply uw_id. split; [apply Z.pow_nonneg; lia|].
  apply Z.pow_lt_mono_r; lia.
Qed.

Lemma roundup_value word :
  2 <= word < 2 ^ 64 ->
  kylin_roundup_pow_of_two word = Ok (2 ^ Z.log2 (word - 1)).
Proof.
  intros. unfold kylin_roundup_pow_of_two, kylin_fls.
  rewrite uw_id by (unfold is_u; lia). rewrite bsr_pos by lia. simpl.
  apply shl64_pow2. split; [apply Z.log2_nonneg|]. apply Z.log2_lt_pow2; lia.
Qed.

(** ** Properties *)

(** The test "power of two" of [kylin.h] accepts exactly the 64-bit values
    2^0 .. 2^63. *)
Theorem is_pow_of_two_iff n :
  0 <= n < 2 ^ 64 ->
  kylin_is_pow_of_two n = true <-> exists k, 0 <= k < 64 /\ n = 2 ^ k.
Proof. apply kylin_is_pow_of_two_spec. Qed.

Lemma is_pow_of_two_iff_witness :
  (0 <= 48 < 2 ^ 64) /\ kylin_is_pow_of_two 48 = false /\
  (kylin_is_pow_of_two 64 = true <-> exists k, 0 <= k < 64 /\ 64 = 2 ^ k).
Proof. split; [lia|]. split; [reflexivity|]. apply (is_pow_of_two_iff 64). lia. Defined.

(** [kylin_roundup_pow_of_two] computes the largest power of two strictly
    below its argument: [kylin_fls] is a zero-based bit index, so the result
    is half of the power of two the name promises when the argument is one. *)
Theorem roundup_pow_of_two_is_below word :
  2 <= word < 2 ^ 64 ->
  exists k, 0 <= k < 64 /\ kylin_roundup_pow_of_two word = Ok (2 ^ k) /\
    2 ^ k < word <= 2 ^ (k + 1).
Proof.
  intros Hw. exists (Z.log2 (word - 1)).
  pose proof (Z.log2_spec (word - 1) ltac:(lia)) as [Hlo Hhi].
  pose proof (Z.log2_nonneg (word - 1)).
  repeat split; [lia| | |lia|].
  - apply Z.log2_lt_pow2; lia.
  - by apply roundup_value.
  - replace (Z.log2 (word - 1) + 1) with (Z.succ (Z.log2 (word - 1))) by lia. lia.
Qed.

Lemma roundup_pow_of_two_is_below_witness :
  kylin_roundup_pow_of_two 5 = Ok 4 /\
  exists k, 0 <= k < 64 /\ kylin_roundup_pow_of_two 5 = Ok (2 ^ k) /\ 2 ^ k < 5 <= 2 ^ (k + 1).
Proof. split; [reflexivity|]. apply (roundup_pow_of_two_is_below 5). lia. Defined.

Lemma rounddown_value word :
  2 <= word < 2 ^ 64 ->
  kylin_rounddown_pow_of_two word = Ok (2 ^ (Z.log2 word - 1)).
Proof.
  intros. unfold kylin_rounddown_pow_of_two, kylin_fls. rewrite bsr_pos by lia. simpl.
  assert (1 <= Z.log2 word < 64).
  { split; [apply Z.log2_le_pow2; lia|apply Z.log2_lt_pow2; lia]. }
  rewrite uw_id by (unfold is_u; lia). apply shl64_pow2. lia.
Qed.

(** The bit scans find the lowest set bit and the lowest clear bit. *)
Lemma kylin_ffs_spec w :
  0 < w < 2 ^ 64 ->
  exists i, kylin_ffs w = Ok i /\ 0 <= i < 64 /\ Z.testbit w i = true /\
    forall j, 0 <= j < i -> Z.testbit w j = false.
Proof.
  intros Hw. destruct w as [|p|]; [lia| |lia].
  unfold kylin_ffs. simpl. exists (ctz_pos p).
  destruct (ctz_pos_spec p) as (H0 & H1 & H2).
  repeat split; auto. destruct (Z.lt_ge_cases (ctz_pos p) 64); [done|].
  by rewrite (testbit_is_u 64) in H1 by (unfold is_u; lia).
Qed.

Lemma kylin_ffz_spec w :
  0 <= w < 2 ^ 64 - 1 ->
  exists i, kylin_ffz w = Ok i /\ 0 <= i < 64 /\ Z.testbit w i = false /\
    forall j, 0 <= j < i -> Z.testbit w j = true.
Proof.
  intros Hw. unfold kylin_ffz.
  destruct (Z.eqb_spec (Z.lxor w (2 ^ 64 - 1)) 0) as [E|_].
  { apply Z.lxor_eq in E. lia. }
  assert (Hn : u64 (Z.lnot w) = 2 ^ 64 - 1 - w).
  { unfold uw, Z.lnot. symmetry. apply (Z.mod_unique _ _ (-1)); lia. }
  rewrite Hn. destruct (kylin_ffs_spec (2 ^ 64 - 1 - w)) as (i & Hi & Hr & Hb & Hlow); [lia|].
  assert (Hbits : forall j, 0 <= j < 64 -> Z.testbit (2 ^ 64 - 1 - w) j = negb (Z.testbit w j)).
  { intros j Hj. rewrite <- Hn, testbit_uw, Z.lnot_spec by lia.
    by destruct (Z.ltb_spec j 64); [|lia]. }
  exists i. unfold kylin_ffs in Hi.
  destruct (Z.eqb_spec (2 ^ 64 - 1 - w) 0); [lia|]. simpl. rewrite Hi.
  repeat split; [lia|lia| |].
  - rewrite Hbits in Hb by lia. by apply negb_true_iff.
  - intros j Hj. specialize (Hlow j Hj). rewrite Hbits in Hlow by lia.
    by apply negb_false_iff.
Qed.

(** Bit [i] of an array of words. *)
Definition array_bit (a : list Z) (i : Z) : bool :=
  match a !! Z.to_nat (i / 64) with Some w => Z.testbit w (i mod 64) | None => false end.

Lemma testbit_setbit64 w i j :
  0 <= i -> 0 <= j -> Z.testbit (setbit64 w i) j = (i =? j) || Z.testbit w j.
Proof.
  intros. unfold setbit64. rewrite Z.lor_spec, Z.shiftl_1_l, Z.pow2_bits_eqb by done.
  apply orb_comm.
Qed.

Lemma testbit_clearbit64 w i j :
  0 <= i -> 0 <= j -> Z.testbit (clearbit64 w i) j = negb (i =? j) && Z.testbit w j.
Proof.
  intros. unfold clearbit64. rewrite Z.ldiff_spec, Z.shiftl_1_l, Z.pow2_bits_eqb by done.
  apply andb_comm.
Qed.

Lemma testbit_changebit64 w i j :
  0 <= i -> 0 <= j -> Z.testbit (changebit64 w i) j = xorb (i =? j) (Z.testbit w j).
Proof.
  intros. unfold changebit64. rewrite Z.lxor_spec, Z.shiftl_1_l, Z.pow2_bits_eqb by done.
  apply xorb_comm.
Qed.

Lemma word_index_eq i j :
  0 <= i -> 0 <= j -> Z.to_nat (i / 64) = Z.to_nat (j / 64) <-> i / 64 = j / 64.
Proof. intros. pose proof (Z.div_pos i 64). pose proof (Z.div_pos j 64). lia. Qed.

Lemma on_bit_spec f (g : bool -> bool -> bool) nr a :
  (forall w i j, 0 <= i -> 0 <= j ->
     Z.testbit (f w i) j = if i =? j then g true (Z.testbit w j) else Z.testbit w j) ->
  0 <= nr < 64 * Z.of_nat (length a) ->
  exists a', on_bit f nr a = Ok a' /\ length a' = length a /\
    forall j, 0 <= j -> array_bit a' j = if nr =? j then g true (array_bit a j) else array_bit a j.
Proof.
  intros Hf Hnr. unfold on_bit.
  assert (Hlt : (Z.to_nat (nr / 64) < length a)%nat).
  { pose proof (Z.div_lt_upper_bound nr 64 (Z.of_nat (length a))). lia. }
  destruct (lookup_lt_is_Some_2 _ _ Hlt) as [w Hw]. rewrite Hw.
  eexists. split; [done|]. split; [apply length_insert|].
  intros j Hj. unfold array_bit.
  pose proof (Z.mod_pos_bound j 64). pose proof (Z.mod_pos_bound nr 64).
  pose proof (Z.div_mod nr 64). pose proof (Z.div_mod j 64).
  destruct (Z.eq_dec (nr / 64) (j / 64)) as [E|E].
  - rewrite <- E, list_lookup_insert_eq, Hw by done. rewrite Hf by lia.
    destruct (Z.eqb_spec (nr mod 64) (j mod 64)), (Z.eqb_spec nr j); try done; lia.
  - rewrite list_lookup_insert_ne by (rewrite word_index_eq by lia; lia).
    by destruct (Z.eqb_spec nr j); [subst|].
Qed.

(** On a run-time bit number the update touches exactly the named bit. *)
Lemma kylin_set_bit_spec nr a :
  0 <= nr < 64 * Z.of_nat (length a) ->
  exists a', kylin_set_bit false nr a = Ok a' /\ length a' = length a /\
    forall j, 0 <= j -> array_bit a' j = (nr =? j) || array_bit a j.
Proof.
  intros Hnr. destruct (on_bit_spec setbit64 orb nr a) as (a' & H1 & H2 & H3); [|done|].
  { intros. rewrite testbit_setbit64 by done. by destruct (i =? j). }
  exists a'. repeat split; [done|done|]. intros j Hj. rewrite H3 by done.
  by destruct (nr =? j).
Qed.

(** With a compile-time constant the byte offset is scaled by the word size:
    constants 8 and above hit another bit than the run-time branch does. *)
Lemma kylin_set_bit_constant_differs :
  kylin_set_bit true 9 [0; 0] = Ok [0; 2] /\ kylin_set_bit false 9 [0; 0] = Ok [512; 0].
Proof. split; vm_compute; reflexivity. Qed.

Lemma kylin_set_bit_constant_same nr a :
  0 <= nr < 8 -> kylin_set_bit true nr a = kylin_set_bit false nr a.
Proof.
  intros. unfold kylin_set_bit, on_const_byte, on_bit.
  rewrite Z.shiftr_div_pow2 by lia. change (2 ^ 3) with 8.
  rewrite !Z.div_small by lia. change 7 with (Z.ones 3).
  rewrite Z.land_ones by lia. change (2 ^ 3) with 8. by rewrite !Z.mod_small by lia.
Qed.
