(* ===== verification/Byteorder.v ===== *)
(** * Byte order

    [include/arch/kylin_byteorder.h] (the constant byte swaps) and
    [include/arch/x86/kylin_byteorder.h] (the run-time ones and the conversion
    macros of a little-endian CPU).  The instructions [bswap] and
    [xchgb %bl,%bh] reverse the bytes of their register; the question
    [__builtin_constant_p] puts to the compiler is a [bool] argument. *)

From S2P Require Import Prelude Bytes.

(** ** The constant swaps *)
Definition KYLIN_STATIC_BSWAP16 (v : Z) : Z :=
  Z.lor (Z.shiftl (Z.land (u16 v) 0x00ff) 8) (Z.shiftr (Z.land (u16 v) 0xff00) 8).

Definition KYLIN_STATIC_BSWAP32 (v : Z) : Z :=
  Z.lor (Z.lor (Z.lor
    (u32 (Z.shiftl (Z.land (u32 v) 0x000000ff) 24))
    (u32 (Z.shiftl (Z.land (u32 v) 0x0000ff00) 8)))
    (Z.shiftr (Z.land (u32 v) 0x00ff0000) 8))
    (Z.shiftr (Z.land (u32 v) 0xff000000) 24).

Definition KYLIN_STATIC_BSWAP64 (v : Z) : Z :=
  Z.lor (Z.lor (Z.lor (Z.lor (Z.lor (Z.lor (Z.lor
    (u64 (Z.shiftl (Z.land (u64 v) 0x00000000000000ff) 56))
    (u64 (Z.shiftl (Z.land (u64 v) 0x000000000000ff00) 40)))
    (u64 (Z.shiftl (Z.land (u64 v) 0x0000000000ff0000) 24)))
    (u64 (Z.shiftl (Z.land (u64 v) 0x00000000ff000000) 8)))
    (Z.shiftr (Z.land (u64 v) 0x000000ff00000000) 8))
    (Z.shiftr (Z.land (u64 v) 0x0000ff0000000000) 24))
    (Z.shiftr (Z.land (u64 v) 0x00ff000000000000) 40))
    (Z.shiftr (Z.land (u64 v) 0xff00000000000000) 56).

Definition kylin_constant_bswap16 (x : Z) : Z := u16 (KYLIN_STATIC_BSWAP16 x).
Definition kylin_constant_bswap32 (x : Z) : Z := KYLIN_STATIC_BSWAP32 x.
Definition kylin_constant_bswap64 (x : Z) : Z := KYLIN_STATIC_BSWAP64 x.

(** The conversions for static initialisers, on a little-endian CPU. *)
Definition KYLIN_BE16 (v : Z) : Z := u16 (KYLIN_STATIC_BSWAP16 v).
Definition KYLIN_BE32 (v : Z) : Z := u32 (KYLIN_STATIC_BSWAP32 v).
Definition KYLIN_BE64 (v : Z) : Z := u64 (KYLIN_STATIC_BSWAP64 v).
Definition KYLIN_LE16 (v : Z) : Z := u16 v.
Definition KYLIN_LE32 (v : Z) : Z := u32 v.
Definition KYLIN_LE64 (v : Z) : Z := u64 v.

(** ** The instructions *)
Definition kylin_arch_bswap16 (x : Z) : Z := byte_reverse 2 x.
Definition kylin_arch_bswap32 (x : Z) : Z := byte_reverse 4 x.
Definition kylin_arch_bswap64 (x : Z) : Z := byte_reverse 8 x.

Definition kylin_bswap16 (is_constant : bool) (x : Z) : Z :=
  u16 (if is_constant then kylin_constant_bswap16 x else kylin_arch_bswap16 x).
Definition kylin_bswap32 (is_constant : bool) (x : Z) : Z :=
  u32 (if is_constant then kylin_constant_bswap32 x else kylin_arch_bswap32 x).
Definition kylin_bswap64 (is_constant : bool) (x : Z) : Z :=
  u64 (if is_constant then kylin_constant_bswap64 x else kylin_arch_bswap64 x).

(** ** The conversions of the little-endian CPU *)
Definition kylin_cpu_to_le_16 (x : Z) : Z := x.
Definition kylin_cpu_to_le_32 (x : Z) : Z := x.
Definition kylin_cpu_to_le_64 (x : Z) : Z := x.
Definition kylin_cpu_to_be_16 (c : bool) (x : Z) : Z := kylin_bswap16 c x.
Definition kylin_cpu_to_be_32 (c : bool) (x : Z) : Z := kylin_bswap32 c x.
Definition kylin_cpu_to_be_64 (c : bool) (x : Z) : Z := kylin_bswap64 c x.
Definition kylin_le_to_cpu_16 (x : Z) : Z := x.
Definition kylin_le_to_cpu_32 (x : Z) : Z := x.
Definition kylin_le_to_cpu_64 (x : Z) : Z := x.
Definition kylin_be_to_cpu_16 (c : bool) (x : Z) : Z := kylin_bswap16 c x.
Definition kylin_be_to_cpu_32 (c : bool) (x : Z) : Z := kylin_bswap32 c x.
Definition kylin_be_to_cpu_64 (c : bool) (x : Z) : Z := kylin_bswap64 c x.

(** ** The masks and shifts reverse the bytes *)

(** Enumerates the bit positions of a fixed-width value. *)
Ltac each_bit i n :=
  lazymatch n with
  | 0%Z => exfalso; lia
  | _ => let m := eval compute in (n - 1)%Z in
         destruct (Z.eq_dec i m); [subst i|each_bit i m]
  end.
Ltac const_bits :=
  rewrite ?testbit_byte_cons by (first [lia | apply uw_range; lia]);
  cbn [Z.ltb Z.compare Pos.compare Pos.compare_cont];
  repeat (rewrite ?Z.lor_spec, ?Z.land_spec, ?testbit_uw, ?Z.shiftl_spec, ?Z.shiftr_spec by lia);
  cbn; rewrite ?andb_true_r, ?andb_false_r, ?orb_false_r, ?Z.bits_0; done.

Lemma bswap16_reverse x : kylin_constant_bswap16 x = byte_reverse 2 x.
Proof.
  unfold kylin_constant_bswap16. apply (u_bits_inj 16); [lia|auto with kylin lia|apply byte_reverse_range|].
  intros i Hi. unfold KYLIN_STATIC_BSWAP16, byte_reverse. cbn [le_bytes rev app le_value].
  each_bit i 16%Z; const_bits.
Qed.

Lemma bswap32_reverse x : kylin_constant_bswap32 x = byte_reverse 4 x.
Proof.
  unfold kylin_constant_bswap32. apply (u_bits_inj 32); [lia| |apply byte_reverse_range|].
  { unfold KYLIN_STATIC_BSWAP32. auto 9 with kylin lia. }
  intros i Hi. unfold KYLIN_STATIC_BSWAP32, byte_reverse. cbn [le_bytes rev app le_value].
  each_bit i 32%Z; const_bits.
Qed.

Lemma bswap64_reverse x : kylin_constant_bswap64 x = byte_reverse 8 x.
Proof.
  unfold kylin_constant_bswap64. apply (u_bits_inj 64); [lia| |apply byte_reverse_range|].
  { unfold KYLIN_STATIC_BSWAP64. auto 13 with kylin lia. }
  intros i Hi. unfold KYLIN_STATIC_BSWAP64, byte_reverse. cbn [le_bytes rev app le_value].
  each_bit i 64%Z; const_bits.
Qed.

Lemma kylin_bswap16_reverse c x : kylin_bswap16 c x = byte_reverse 2 x.
Proof.
  unfold kylin_bswap16, kylin_arch_bswap16. rewrite bswap16_reverse.
  destruct c; apply uw_id, byte_reverse_range.
Qed.

Lemma kylin_bswap32_reverse c x : kylin_bswap32 c x = byte_reverse 4 x.
Proof.
  unfold kylin_bswap32, kylin_arch_bswap32. rewrite bswap32_reverse.
  destruct c; apply uw_id, byte_reverse_range.
Qed.

Lemma kylin_bswap64_reverse c x : kylin_bswap64 c x = byte_reverse 8 x.
Proof.
  unfold kylin_bswap64, kylin_arch_bswap64. rewrite bswap64_reverse.
  destruct c; apply uw_id, byte_reverse_range.
Qed.

Lemma le_bytes_byte_reverse n x : le_bytes n (byte_reverse n x) = rev (le_bytes n x).
Proof.
  unfold byte_reverse. rewrite <- (length_le_bytes n x) at 1.
  rewrite <- (length_rev (le_bytes n x)).
  apply le_bytes_le_value, bytes_ok_rev, le_bytes_ok.
Qed.

(** ** Properties *)

(** The value [kylin_cpu_to_be_*] returns has, as the CPU stores it, the bytes
    of the argument most significant first; the constant macro and the
    instruction give the same value. *)
Theorem cpu_to_be_stores_big_endian c x :
  le_bytes 2 (kylin_cpu_to_be_16 c x) = rev (le_bytes 2 x) /\
  le_bytes 4 (kylin_cpu_to_be_32 c x) = rev (le_bytes 4 x) /\
  le_bytes 8 (kylin_cpu_to_be_64 c x) = rev (le_bytes 8 x).
Proof.
  unfold kylin_cpu_to_be_16, kylin_cpu_to_be_32, kylin_cpu_to_be_64.
  rewrite kylin_bswap16_reverse, kylin_bswap32_reverse, kylin_bswap64_reverse.
  by rewrite !le_bytes_byte_reverse.
Qed.

(** The static conversions agree with the others, whichever branch those take. *)
Lemma static_conversions c x :
  KYLIN_BE16 x = kylin_cpu_to_be_16 c x /\ KYLIN_BE32 x = kylin_cpu_to_be_32 c x /\ KYLIN_BE64 x = kylin_cpu_to_be_64 c x.
Proof.
  unfold kylin_cpu_to_be_16, kylin_cpu_to_be_32, kylin_cpu_to_be_64.
  rewrite kylin_bswap16_reverse, kylin_bswap32_reverse, kylin_bswap64_reverse.
  rewrite <- (kylin_bswap16_reverse true), <- (kylin_bswap32_reverse true), <- (kylin_bswap64_reverse true).
  unfold kylin_bswap16, kylin_bswap32, kylin_bswap64, kylin_constant_bswap16. cbv iota.
  split; [|done]. symmetry. by apply uw_uw.
Qed.

(** A big-endian conversion is undone by the conversion back, whichever of the
    two the compiler evaluated at compile time. *)
Theorem be_cpu_round_trip c c' x :
  (is_u 16 x -> kylin_be_to_cpu_16 c (kylin_cpu_to_be_16 c' x) = x) /\
  (is_u 32 x -> kylin_be_to_cpu_32 c (kylin_cpu_to_be_32 c' x) = x) /\
  (is_u 64 x -> kylin_be_to_cpu_64 c (kylin_cpu_to_be_64 c' x) = x).
Proof.
  unfold kylin_be_to_cpu_16, kylin_be_to_cpu_32, kylin_be_to_cpu_64,
    kylin_cpu_to_be_16, kylin_cpu_to_be_32, kylin_cpu_to_be_64.
  rewrite !kylin_bswap16_reverse, !kylin_bswap32_reverse, !kylin_bswap64_reverse.
  repeat split; intros; by apply byte_reverse_involutive.
Qed.

Lemma be_cpu_round_trip_witness :
  kylin_cpu_to_be_32 true 0x01020304 = 0x04030201 /\
  kylin_be_to_cpu_32 true (kylin_cpu_to_be_32 false 0x01020304) = 0x01020304.
Proof.
  split; [vm_compute; reflexivity|].
  apply (be_cpu_round_trip true false 0x01020304). unfold is_u. lia.
Defined.
