(* ===== verification/Hash.v ===== *)
(** * The hash function

    [include/utils/kylin_hash.h]: Bob Jenkins' lookup3 over bytes, over 32-bit
    words and over one to three words.  A key is the list of the values its
    memory holds; reading past it is [Ub].  The two [while] loops run with
    fuel; the number of blocks the length allows is enough. *)

From S2P Require Import Prelude Bytes.

Definition kylin_hash_size (n : Z) : Z := u32 (Z.shiftl 1 n).
Definition kylin_hash_mask (n : Z) : Z := u32 (kylin_hash_size n - 1).

Definition rol32 (word shift : Z) : Z :=
  Z.lor (u32 (Z.shiftl word shift)) (Z.shiftr word (32 - shift)).

(** [uint32_t] addition and subtraction. *)
Definition add32 (x y : Z) : Z := u32 (x + y).
Definition sub32 (x y : Z) : Z := u32 (x - y).

(** The mixing macros assign to their arguments: they are functions from the
    triple before to the triple after.  A line of [__kylin_hash_mix] is a step
    with its own rotation and its own role for the three variables. *)
Definition __kylin_hash_mix '((a, b, c) : Z * Z * Z) : Z * Z * Z :=
  let a := sub32 a c in let a := Z.lxor a (rol32 c 4) in let c := add32 c b in
  let b := sub32 b a in let b := Z.lxor b (rol32 a 6) in let a := add32 a c in
  let c := sub32 c b in let c := Z.lxor c (rol32 b 8) in let b := add32 b a in
  let a := sub32 a c in let a := Z.lxor a (rol32 c 16) in let c := add32 c b in
  let b := sub32 b a in let b := Z.lxor b (rol32 a 19) in let a := add32 a c in
  let c := sub32 c b in let c := Z.lxor c (rol32 b 4) in let b := add32 b a in
  (a, b, c).

Definition __kylin_hash_final '((a, b, c) : Z * Z * Z) : Z * Z * Z :=
  let c := Z.lxor c b in let c := sub32 c (rol32 b 14) in
  let a := Z.lxor a c in let a := sub32 a (rol32 c 11) in
  let b := Z.lxor b a in let b := sub32 b (rol32 a 25) in
  let c := Z.lxor c b in let c := sub32 c (rol32 b 16) in
  let a := Z.lxor a c in let a := sub32 a (rol32 c 4) in
  let b := Z.lxor b a in let b := sub32 b (rol32 a 14) in
  let c := Z.lxor c b in let c := sub32 c (rol32 b 24) in
  (a, b, c).

Definition JHASH_INITVAL : Z := 0xdeadbeef.

(** Little-endian 32-bit load at a byte offset of the key. *)
Definition load32 (k : list Z) (off : nat) : outcome Z :=
  if (off + 4 <=? length k)%nat then Ok (le_value (take 4 (drop off k))) else Ub.
Definition load8 (k : list Z) (off : nat) : outcome Z :=
  match k !! off with Some b => Ok b | None => Ub end.

(** The fall-through [switch]: case [i] adds byte [i-1], shifted by its place
    in the word, to [c] (i > 8), [b] (i > 4) or [a], then falls into case
    [i-1]; case 1 falls into the final mix; case 0 leaves everything alone;
    any other length matches no case. *)
Fixpoint hash_tail (k : list Z) (i : nat) (abc : Z * Z * Z) : outcome (Z * Z * Z) :=
  match i with
  | O => Ok abc
  | S j =>
      v ← load8 k j;
      let '(a, b, c) := abc in
      let x := u32 (Z.shiftl v (8 * (Z.of_nat j mod 4))) in
      let abc := if (8 <=? j)%nat then (a, b, add32 c x)
                 else if (4 <=? j)%nat then (a, add32 b x, c)
                 else (add32 a x, b, c) in
      match j with
      | O => Ok (__kylin_hash_final abc)
      | S _ => hash_tail k j abc
      end
  end.

Fixpoint kylin_hash_loop (fuel : nat) (k : list Z) (length : Z) (abc : Z * Z * Z) : outcome Z :=
  match fuel with
  | O => OutOfFuel
  | S fuel =>
      if 12 <? length then
        x ← load32 k 0; y ← load32 k 4; z ← load32 k 8;
        let '(a, b, c) := abc in
        kylin_hash_loop fuel (drop 12 k) (length - 12)
          (__kylin_hash_mix (add32 a x, add32 b y, add32 c z))
      else
        abc ← hash_tail k (Z.to_nat length) abc;
        let '(_, _, c) := abc in Ok c
  end.

Definition kylin_hash (key : list Z) (length initval : Z) : outcome Z :=
  let i := u32 (JHASH_INITVAL + length + initval) in
  kylin_hash_loop (Z.to_nat (length / 12) + 1) key length (i, i, i).

Definition word_at (k : list Z) (i : nat) : outcome Z :=
  match k !! i with Some w => Ok w | None => Ub end.

Definition hash2_tail (k : list Z) (length : Z) (abc : Z * Z * Z) : outcome (Z * Z * Z) :=
  if length =? 0 then Ok abc else
  abc ← (if 3 <=? length then
           z ← word_at k 2; let '(a, b, c) := abc in Ok (a, b, add32 c z) else Ok abc);
  abc ← (if 2 <=? length then
           y ← word_at k 1; let '(a, b, c) := abc in Ok (a, add32 b y, c) else Ok abc);
  x ← word_at k 0;
  let '(a, b, c) := abc in
  Ok (__kylin_hash_final (add32 a x, b, c)).

Fixpoint kylin_hash2_loop (fuel : nat) (k : list Z) (length : Z) (abc : Z * Z * Z) : outcome Z :=
  match fuel with
  | O => OutOfFuel
  | S fuel =>
      if 3 <? length then
        x ← word_at k 0; y ← word_at k 1; z ← word_at k 2;
        let '(a, b, c) := abc in
        kylin_hash2_loop fuel (drop 3 k) (length - 3)
          (__kylin_hash_mix (add32 a x, add32 b y, add32 c z))
      else
        abc ← hash2_tail k length abc;
        let '(_, _, c) := abc in Ok c
  end.

Definition kylin_hash2 (k : list Z) (length initval : Z) : outcome Z :=
  let i := u32 (JHASH_INITVAL + u32 (Z.shiftl length 2) + initval) in
  kylin_hash2_loop (Z.to_nat (length / 3) + 1) k length (i, i, i).

Definition kylin_hash_3words (a b c initval : Z) : Z :=
  let '(_, _, c) := __kylin_hash_final
    (add32 a JHASH_INITVAL, add32 b JHASH_INITVAL, add32 c initval) in c.
Definition kylin_hash_2words (a b initval : Z) : Z := kylin_hash_3words a b 0 initval.
Definition kylin_hash_1word (a initval : Z) : Z := kylin_hash_3words a 0 0 initval.

(** ** The mixing step is a bijection *)

Definition triple32 '((a, b, c) : Z * Z * Z) : Prop := is_u 32 a /\ is_u 32 b /\ is_u 32 c.

(** One line of the macro with the three variables as (target, addend, source). *)
Definition mix_line (r : Z) '((x, y, z) : Z * Z * Z) : Z * Z * Z :=
  (Z.lxor (sub32 x z) (rol32 z r), y, add32 z y).
Definition unmix_line (r : Z) '((x, y, z) : Z * Z * Z) : Z * Z * Z :=
  let z := sub32 z y in (add32 (Z.lxor x (rol32 z r)) z, y, z).
(** The variables change roles from line to line. *)
Definition roll '((x, y, z) : Z * Z * Z) : Z * Z * Z := (y, z, x).
Definition unroll '((x, y, z) : Z * Z * Z) : Z * Z * Z := (z, x, y).

Lemma add32_range x y : is_u 32 (add32 x y).
Proof. apply uw_range. lia. Qed.
Lemma sub32_range x y : is_u 32 (sub32 x y).
Proof. apply uw_range. lia. Qed.
Lemma rol32_range x n : is_u 32 x -> 0 <= n <= 32 -> is_u 32 (rol32 x n).
Proof. intros. unfold rol32. apply is_u_lor; auto with kylin lia. Qed.
#[local] Hint Resolve add32_range sub32_range rol32_range : kylin.

Lemma add32_sub32 x y : is_u 32 x -> add32 (sub32 x y) y = x.
Proof.
  intros. unfold add32, sub32, uw. rewrite Zplus_mod_idemp_l, Z.sub_add. by apply uw_id.
Qed.
Lemma sub32_add32 x y : is_u 32 x -> sub32 (add32 x y) y = x.
Proof.
  intros. unfold add32, sub32, uw. rewrite Zminus_mod_idemp_l, Z.add_simpl_r. by apply uw_id.
Qed.

Lemma unmix_mix_line r t : triple32 t -> unmix_line r (mix_line r t) = t.
Proof.
  destruct t as [[x y] z]. intros (Hx & Hy & Hz). unfold mix_line, unmix_line; cbn zeta.
  rewrite sub32_add32 by done.
  by rewrite Z.lxor_assoc, Z.lxor_nilpotent, Z.lxor_0_r, add32_sub32.
Qed.

Lemma mix_unmix_line r t :
  0 <= r <= 32 -> triple32 t -> mix_line r (unmix_line r t) = t.
Proof.
  destruct t as [[x y] z]. intros Hr (Hx & Hy & Hz). unfold mix_line, unmix_line; cbn zeta.
  rewrite sub32_add32 by auto with kylin lia.
  by rewrite Z.lxor_assoc, Z.lxor_nilpotent, Z.lxor_0_r, add32_sub32.
Qed.

Lemma mix_line_range r t : 0 <= r <= 32 -> triple32 t -> triple32 (mix_line r t).
Proof.
  destruct t as [[x y] z]. intros Hr (Hx & Hy & Hz).
  split; [|split]; unfold mix_line; auto 6 with kylin lia.
Qed.
Lemma unmix_line_range r t : 0 <= r <= 32 -> triple32 t -> triple32 (unmix_line r t).
Proof. destruct t as [[x y] z]. intros Hr (Hx & Hy & Hz).
  split; [|split]; unfold unmix_line; auto with kylin lia.
Qed.
Lemma roll_range t : triple32 t -> triple32 (roll t).
Proof. destruct t as [[x y] z]. unfold triple32, roll. tauto. Qed.
Lemma unroll_range t : triple32 t -> triple32 (unroll t).
Proof. destruct t as [[x y] z]. unfold triple32, unroll. tauto. Qed.
Lemma roll_unroll t : roll (unroll t) = t.
Proof. by destruct t as [[x y] z]. Qed.
Lemma unroll_roll t : unroll (roll t) = t.
Proof. by destruct t as [[x y] z]. Qed.

(** The macro is six lines, the roles rolled after each. *)
Definition mix_lines (rs : list Z) (t : Z * Z * Z) : Z * Z * Z :=
  foldl (fun t r => roll (mix_line r t)) t rs.
Definition unmix_lines (rs : list Z) (t : Z * Z * Z) : Z * Z * Z :=
  foldr (fun r t => unmix_line r (unroll t)) t rs.

Lemma mix_lines_eq t : __kylin_hash_mix t = mix_lines [4; 6; 8; 16; 19; 4] t.
Proof. by destruct t as [[x y] z]. Qed.

Lemma mix_lines_range rs t :
  Forall (fun r => 0 <= r <= 32) rs -> triple32 t -> triple32 (mix_lines rs t).
Proof.
  intros Hrs. revert t. induction Hrs as [|r rs Hr _ IH]; intros t Ht; [done|].
  apply IH, roll_range, mix_line_range; done.
Qed.

Lemma unmix_mix_lines rs t :
  Forall (fun r => 0 <= r <= 32) rs -> triple32 t ->
  unmix_lines rs (mix_lines rs t) = t.
Proof.
  intros Hrs. revert t. induction Hrs as [|r rs Hr _ IH]; intros t Ht; [done|].
  cbn. fold (mix_lines rs (roll (mix_line r t))). fold (unmix_lines rs).
  change (foldr _ ?a rs) with (unmix_lines rs a). rewrite IH.
  - rewrite unroll_roll. by apply unmix_mix_line.
  - apply roll_range, mix_line_range; done.
Qed.

Lemma unmix_lines_range rs t :
  Forall (fun r => 0 <= r <= 32) rs -> triple32 t -> triple32 (unmix_lines rs t).
Proof.
  intros Hrs Ht. induction Hrs as [|r rs Hr _ IH]; [done|].
  apply unmix_line_range, unroll_range; done.
Qed.

Lemma mix_unmix_lines rs t :
  Forall (fun r => 0 <= r <= 32) rs -> triple32 t ->
  mix_lines rs (unmix_lines rs t) = t.
Proof.
  intros Hrs Ht. induction Hrs as [|r rs Hr Hrs IH]; [done|].
  cbn. change (foldr _ ?a rs) with (unmix_lines rs a).
  change (foldl _ ?a rs) with (mix_lines rs a).
  rewrite mix_unmix_line; [by rewrite roll_unroll|done|].
  by apply unroll_range, unmix_lines_range.
Qed.

Lemma mix_rotations_ok : Forall (fun r => 0 <= r <= 32) [4; 6; 8; 16; 19; 4].
Proof. repeat constructor; lia. Qed.

Lemma mix_range t : triple32 t -> triple32 (__kylin_hash_mix t).
Proof. intros. rewrite mix_lines_eq. by apply mix_lines_range; [apply mix_rotations_ok|]. Qed.

Lemma final_range t : triple32 t -> triple32 (__kylin_hash_final t).
Proof. destruct t as [[x y] z]. intros _. split; [|split]; apply sub32_range. Qed.

Arguments __kylin_hash_mix : simpl never.
Arguments __kylin_hash_final : simpl never.

(** ** Every key is hashed *)

Lemma load32_in k off : (off + 4 <= length k)%nat -> exists v, load32 k off = Ok v.
Proof. intros. unfold load32. destruct (Nat.leb_spec (off + 4) (length k)); [eauto|lia]. Qed.

Lemma hash_tail_total k i abc :
  (i <= length k)%nat -> triple32 abc ->
  exists abc', hash_tail k i abc = Ok abc' /\ triple32 abc'.
Proof.
  revert abc. induction i as [|j IH]; intros [[a b] c] Hi Ht; cbn [hash_tail]; [eauto|].
  unfold load8. destruct (lookup_lt_is_Some_2 k j) as [v ->]; [lia|]. cbn [mbind outcome_bind].
  match goal with |- context [hash_tail k j ?t] => assert (triple32 t) as H' end.
  { destruct Ht as (Ha & Hb & Hc).
    destruct (8 <=? j)%nat, (4 <=? j)%nat; (split; [|split]); auto using add32_range. }
  destruct j as [|j]; [|apply IH; [lia|done]].
  eexists. split; [done|]. by apply final_range.
Qed.

Lemma kylin_hash_loop_total fuel k len abc :
  0 <= len -> (Z.to_nat len <= length k)%nat -> (Z.to_nat (len / 12) < fuel)%nat -> triple32 abc ->
  exists h, kylin_hash_loop fuel k len abc = Ok h /\ is_u 32 h.
Proof.
  revert k len abc. induction fuel as [|fuel IH]; intros k len abc Hn Hlen Hf Ht; [lia|].
  cbn [kylin_hash_loop]. destruct (Z.ltb_spec 12 len).
  - destruct (load32_in k 0) as [x ->]; [lia|]. destruct (load32_in k 4) as [y ->]; [lia|].
    destruct (load32_in k 8) as [z ->]; [lia|]. simpl. destruct abc as [[a b] c].
    apply IH.
    + lia.
    + rewrite length_drop. lia.
    + replace len with (len - 12 + 1 * 12) in Hf by lia.
      rewrite Z.div_add in Hf by lia. pose proof (Z.div_pos (len - 12) 12). lia.
    + apply mix_range. split; [|split]; apply add32_range.
  - destruct (hash_tail_total k (Z.to_nat len) abc) as ([[a b] c] & -> & Ht'); [done|done|].
    simpl. exists c. split; [done|]. apply Ht'.
Qed.

(** ** Words and bytes *)

Definition key_bytes (ws : list Z) : list Z := concat (map (le_bytes 4) ws).

Lemma key_bytes_cons w ws : key_bytes (w :: ws) = le_bytes 4 w ++ key_bytes ws.
Proof. done. Qed.

Lemma length_key_bytes ws : length (key_bytes ws) = (4 * length ws)%nat.
Proof.
  induction ws as [|w ws IH]; [done|]. rewrite key_bytes_cons, length_app, length_le_bytes, IH.
  simpl. lia.
Qed.

Lemma load32_word pre w rest :
  is_u 32 w -> load32 (pre ++ le_bytes 4 w ++ rest) (length pre) = Ok w.
Proof.
  intros Hw. unfold load32. rewrite !length_app, length_le_bytes.
  destruct (Nat.leb_spec (length pre + 4) (length pre + (4 + length rest))); [|lia].
  rewrite drop_app_length.
  rewrite (take_app_length' _ _ 4) by (by rewrite length_le_bytes).
  rewrite le_value_le_bytes. f_equal. by apply Z.mod_small.
Qed.

Lemma add32_assoc x y z : add32 (add32 x y) z = add32 x (y + z).
Proof. unfold add32, uw. rewrite Zplus_mod_idemp_l. f_equal. lia. Qed.

Lemma word_of_bytes w :
  is_u 32 w ->
  u32 (Z.shiftl (u8 (Z.shiftr (Z.shiftr (Z.shiftr w 8) 8) 8)) 24) +
  (u32 (Z.shiftl (u8 (Z.shiftr (Z.shiftr w 8) 8)) 16) +
   (u32 (Z.shiftl (u8 (Z.shiftr w 8)) 8) + u32 (Z.shiftl (u8 w) 0))) = w.
Proof.
  intros Hw. pose proof (le_value_le_bytes 4 w) as E.
  rewrite (Z.mod_small w) in E by done. cbn [le_bytes le_value] in E.
  pose proof (fun z => Z.mod_pos_bound z (2 ^ 8) ltac:(lia)) as Hb.
  unfold uw in *. rewrite !Z.shiftl_mul_pow2 by lia.
  pose proof (Hb w). pose proof (Hb (Z.shiftr w 8)).
  pose proof (Hb (Z.shiftr (Z.shiftr w 8) 8)).
  pose proof (Hb (Z.shiftr (Z.shiftr (Z.shiftr w 8) 8) 8)).
  rewrite !(Z.mod_small (_ * _)) by lia. lia.
Qed.

(** The four byte cases of one word of the [switch] add the word. *)
Lemma add32_bytes x w :
  is_u 32 w ->
  add32 (add32 (add32 (add32 x
    (u32 (Z.shiftl (u8 (Z.shiftr (Z.shiftr (Z.shiftr w 8) 8) 8)) 24)))
    (u32 (Z.shiftl (u8 (Z.shiftr (Z.shiftr w 8) 8)) 16)))
    (u32 (Z.shiftl (u8 (Z.shiftr w 8)) 8))) (u32 (Z.shiftl (u8 w) 0)) = add32 x w.
Proof.
  intros Hw. rewrite !add32_assoc. f_equal. rewrite <- (word_of_bytes w Hw) at 5. lia.
Qed.

Lemma hash_tail_words ws abc :
  (length ws <= 3)%nat -> Forall (is_u 32) ws ->
  hash_tail (key_bytes ws) (4 * length ws) abc = hash2_tail ws (Z.of_nat (length ws)) abc.
Proof.
  intros Hl Hws. destruct abc as [[a b] c].
  destruct ws as [|w0 [|w1 [|w2 [|]]]]; [done| | | |simpl in Hl; lia];
    repeat match goal with H : Forall _ (_ :: _) |- _ => inversion H; clear H; subst end;
    unfold key_bytes, load8; cbn -[Z.shiftl Z.shiftr add32 uw Z.mul];
    by rewrite !add32_bytes.
Qed.

Lemma hash_loop_words fuel ws abc :
  Forall (is_u 32) ws ->
  kylin_hash_loop fuel (key_bytes ws) (4 * Z.of_nat (length ws)) abc =
  kylin_hash2_loop fuel ws (Z.of_nat (length ws)) abc.
Proof.
  revert ws abc. induction fuel as [|fuel IH]; intros ws abc Hws; [done|].
  cbn [kylin_hash_loop kylin_hash2_loop].
  destruct (Z.ltb_spec 3 (Z.of_nat (length ws))) as [Hl|Hl].
  - destruct (Z.ltb_spec 12 (4 * Z.of_nat (length ws))); [|lia].
    destruct ws as [|w0 [|w1 [|w2 ws]]]; simpl in Hl; try lia.
    repeat match goal with H : Forall _ (_ :: _) |- _ => inversion H; clear H; subst end.
    rewrite !key_bytes_cons.
    pose proof (load32_word [] w0 (le_bytes 4 w1 ++ le_bytes 4 w2 ++ key_bytes ws)) as E0.
    pose proof (load32_word (le_bytes 4 w0) w1 (le_bytes 4 w2 ++ key_bytes ws)) as E4.
    pose proof (load32_word (le_bytes 4 w0 ++ le_bytes 4 w1) w2 (key_bytes ws)) as E8.
    rewrite <- app_assoc, length_app, !length_le_bytes in E8. rewrite length_le_bytes in E4.
    cbn [app length Nat.add] in E0, E8. rewrite E0, E4, E8 by done.
    cbn [mbind outcome_bind word_at lookup list_lookup].
    destruct abc as [[a b] c].
    change (drop 12 _) with (key_bytes ws). change (drop 3 _) with ws.
    replace (4 * Z.of_nat (length (w0 :: w1 :: w2 :: ws)) - 12)
      with (4 * Z.of_nat (length ws)) by (simpl length; lia).
    replace (Z.of_nat (length (w0 :: w1 :: w2 :: ws)) - 3)
      with (Z.of_nat (length ws)) by (simpl length; lia).
    by apply IH.
  - destruct (Z.ltb_spec 12 (4 * Z.of_nat (length ws))); [lia|].
    replace (Z.to_nat (4 * Z.of_nat (length ws))) with (4 * length ws)%nat by lia.
    by rewrite hash_tail_words by (done || lia).
Qed.

(** ** Properties *)

(** "mix 3 32-bit values reversibly": every triple of 32-bit values is the mix
    of exactly one triple, so no entropy of the state is lost. *)
Theorem hash_mix_reversible t :
  triple32 t -> exists! s, triple32 s /\ __kylin_hash_mix s = t.
Proof.
  intros Ht. exists (unmix_lines [4; 6; 8; 16; 19; 4] t). split; [split|].
  - by apply unmix_lines_range; [apply mix_rotations_ok|].
  - rewrite mix_lines_eq. by apply mix_unmix_lines; [apply mix_rotations_ok|].
  - intros s [Hs <-]. rewrite mix_lines_eq. by apply unmix_mix_lines; [apply mix_rotations_ok|].
Qed.

Lemma hash_mix_reversible_witness :
  triple32 (1, 2, 3) /\ exists! s, triple32 s /\ __kylin_hash_mix s = (1, 2, 3).
Proof.
  assert (H : triple32 (1, 2, 3)) by (unfold triple32, is_u; lia).
  split; [exact H|]. apply (hash_mix_reversible (1, 2, 3) H).
Defined.

(** [kylin_hash] of any key whose memory has at least [length] bytes reads no
    byte past it, terminates and returns a 32-bit value. *)
Theorem kylin_hash_total key length initval :
  0 <= length <= Z.of_nat (List.length key) -> is_u 32 length ->
  exists h, kylin_hash key length initval = Ok h /\ is_u 32 h.
Proof.
  intros Hl _. unfold kylin_hash. apply kylin_hash_loop_total; [lia|lia|lia|].
  split; [|split]; apply uw_range; lia.
Qed.

Lemma kylin_hash_total_witness :
  kylin_hash [107; 121; 108; 105; 110] 5 0 = Ok 272679748 /\
  exists h, kylin_hash [107; 121; 108; 105; 110] 5 0 = Ok h /\ is_u 32 h.
Proof.
  split; [vm_compute; reflexivity|].
  apply (kylin_hash_total [107; 121; 108; 105; 110] 5 0); [simpl; lia|unfold is_u; lia].
Defined.

(** C40. The word hash is the byte hash of the words' memory: on this
    little-endian CPU, [kylin_hash2] and [kylin_hash] agree on every array of
    32-bit words whose byte length fits the length argument. *)
Theorem kylin_hash2_is_kylin_hash ws initval :
  Forall (is_u 32) ws -> 4 * Z.of_nat (length ws) < 2 ^ 32 ->
  kylin_hash2 ws (Z.of_nat (length ws)) initval =
  kylin_hash (key_bytes ws) (4 * Z.of_nat (length ws)) initval.
Proof.
  intros Hws Hl. unfold kylin_hash2, kylin_hash.
  replace (u32 (Z.shiftl (Z.of_nat (length ws)) 2)) with (4 * Z.of_nat (length ws)).
  - change 12 with (4 * 3) at 1. rewrite Z.div_mul_cancel_l by lia.
    symmetry. by apply hash_loop_words.
  - rewrite Z.shiftl_mul_pow2, uw_id by (unfold is_u; lia). lia.
Qed.

Lemma kylin_hash2_is_kylin_hash_witness :
  kylin_hash2 [1; 2; 3; 0xdeadbeef] 4 7 = kylin_hash (key_bytes [1; 2; 3; 0xdeadbeef]) 16 7 /\
  exists h, kylin_hash2 [1; 2; 3; 0xdeadbeef] 4 7 = Ok h.
Proof.
  split; [|eexists; vm_compute; reflexivity].
  apply (kylin_hash2_is_kylin_hash [1; 2; 3; 0xdeadbeef] 7); [|simpl; lia].
  repeat constructor; unfold is_u; lia.
Defined.
