(* ===== verification/Bitmap.v ===== *)
(** * Bitmaps ([lib/core/math/kylin_bitmap.c])

    A [kbitmap_t] is the options it was created with, the number of words and
    the flexible array of words.  [bit bm j] is bit [j mod 64] of word
    [j / 64]; the theorems describe every operation by the bits of its result.
    [start] is a 32-bit unsigned and [len] a 32-bit signed integer: the sums in
    the bounds checks wrap at 32 bits.  Word counts are below 2^31, so the
    [int] loop counters do not overflow.  [malloc_ok] says whether the C
    library's [malloc] returns memory, which [kylin_malloc] then zeroes; a
    guard constructor is a function from the number of words asked for behind the
    structure to their initial contents. *)

From S2P Require Import Prelude Errors Bitops.

Definition __SIZEOF_WORD__ : Z := 8.
Definition BITS_PER_WORD : Z := 64.
Definition BITS_TO_WORDS32 (bits : Z) : Z := u32 (u32 (bits + BITS_PER_WORD) - 1) / BITS_PER_WORD.
Definition BITS_TO_WORDS64 (bits : Z) : Z := u64 (u64 (bits + BITS_PER_WORD) - 1) / BITS_PER_WORD.
Definition BITMAP_WORD_INDEX (nr : Z) : Z := nr / BITS_PER_WORD.
Definition BITMAP_FIRST_WORD_MASK (start : Z) : Z :=
  u64 (Z.shiftl (2 ^ 64 - 1) (Z.land start (BITS_PER_WORD - 1))).
Definition BITMAP_LAST_WORD_MASK (nbits : Z) : Z :=
  Z.shiftr (2 ^ 64 - 1) (Z.land (u32 (- nbits)) (BITS_PER_WORD - 1)).

Record kbitmap_opts_t := mk_kbitmap_opts {
  opts_cap : Z;
  guard_ctor : option (nat -> option (list Z));
}.

Record kbitmap_t := mk_kbitmap {
  bm_opts : kbitmap_opts_t;
  bm_size : nat;
  bm_val : list Z;
}.

Definition with_val (bm : kbitmap_t) (v : list Z) : kbitmap_t :=
  mk_kbitmap (bm_opts bm) (bm_size bm) v.

(** [kylin_malloc] of a number of words. *)
Definition malloc_words (malloc_ok : bool) (n : nat) : option (list Z) :=
  if malloc_ok then Some (replicate n 0) else None.

Definition BITMAP_GUARD_MALLOC (malloc_ok : bool) (opts : kbitmap_opts_t) (n : nat) :
    option (list Z) :=
  match guard_ctor opts with Some f => f n | None => malloc_words malloc_ok n end.

(** [inl e] is a NULL result with [kerrno] set to [e]. *)
Definition kylin_bitmap_create (malloc_ok : bool) (opts : kbitmap_opts_t) : kerr_t + kbitmap_t :=
  let len := Z.to_nat (BITS_TO_WORDS64 (opts_cap opts)) in
  match BITMAP_GUARD_MALLOC malloc_ok opts len with
  | None => inl KYLIN_ERROR_NOMEM
  | Some v => inr (mk_kbitmap opts len v)
  end.

(** The destructor of the options, or [kylin_free]. *)
Definition BITMAP_GUARD_FREE {S} (guard_dtor : option (kbitmap_t -> M S unit)) (kylin_free : kbitmap_t -> M S unit) : kbitmap_t -> M S unit :=
  match guard_dtor with Some f => f | None => kylin_free end.
Definition kylin_bitmap_destroy {S} (guard_dtor : option (kbitmap_t -> M S unit)) (kylin_free : kbitmap_t -> M S unit) (g : kbitmap_t) : M S unit :=
  BITMAP_GUARD_FREE guard_dtor kylin_free g.

(** Not written yet: both return NULL. *)
Definition kylin_bitmap_loads (opts : kbitmap_opts_t) (buf : list Z) : option kbitmap_t := None.
Definition kylin_bitmap_loadf (opts : kbitmap_opts_t) (buf : list Z) : option kbitmap_t := None.

Definition kylin_bitmap_val (bm : kbitmap_t) : list Z := bm_val bm.
Definition kylin_bitmap_len (bm : kbitmap_t) : nat := bm_size bm.

(** [memcpy] of [n] words between two word arrays. *)
Definition copy_words (dst src : list Z) (n : nat) : outcome (list Z) :=
  if ((n <=? length src) && (n <=? length dst))%nat then Ok (splice dst 0 (take n src)) else Ub.

Definition kylin_bitmap_copy (dst src : kbitmap_t) (size : nat) : outcome (kerr_t * kbitmap_t) :=
  if ((bm_size src <? size) || (bm_size dst <? size))%nat then Ok (KYLIN_ERROR_INVAL, dst)
  else v ← copy_words (bm_val dst) (bm_val src) size; Ok (KYLIN_ERROR_OK, with_val dst v).

Definition kylin_bitmap_dup (malloc_ok : bool) (bm : kbitmap_t) : outcome (kerr_t + kbitmap_t) :=
  match kylin_bitmap_create malloc_ok (bm_opts bm) with
  | inl e => Ok (inl e)
  | inr dup =>
      r ← kylin_bitmap_copy dup bm (bm_size bm);
      let '(e, dup) := r in
      match e with KYLIN_ERROR_OK => Ok (inr dup) | _ => Ok (inl e) end
  end.

(** The [while] loop that [set] and [clear] share, [upd] being the assignment
    to the word; it ends with the last, partial word.  [len] is what is left of
    the range, and it is this that [start] is added to for the last mask. *)
Fixpoint range_words (fuel : nat) (upd : Z -> Z -> Z) (start : Z)
    (val : list Z) (idx : nat) (mask bits len : Z) : outcome (list Z) :=
  match fuel with
  | O => OutOfFuel
  | S fuel =>
      if len - bits <? - 2 ^ 31 then Ub else
      if 0 <=? len - bits then
        w ← rd val idx;
        val ← wr val idx (upd w mask);
        range_words fuel upd start val (idx + 1) (2 ^ 64 - 1) BITS_PER_WORD (len - bits)
      else if negb (len =? 0) then
        w ← rd val idx;
        wr val idx (upd w (Z.land mask (BITMAP_LAST_WORD_MASK (u32 (start + len)))))
      else Ok val
  end.

Definition bitmap_range (upd : Z -> Z -> Z) (bm : kbitmap_t) (start len : Z) :
    outcome (kerr_t * kbitmap_t) :=
  if (Z.of_nat (bm_size bm) <? BITS_TO_WORDS32 start) ||
     (Z.of_nat (bm_size bm) <? BITS_TO_WORDS32 (u32 (start + len)))
  then Ok (KYLIN_ERROR_INVAL, bm)
  else
    v ← range_words (Z.to_nat (len / BITS_PER_WORD) + 3) upd start (bm_val bm)
      (Z.to_nat (BITMAP_WORD_INDEX start)) (BITMAP_FIRST_WORD_MASK start)
      (BITS_PER_WORD - start mod BITS_PER_WORD) len;
    Ok (KYLIN_ERROR_OK, with_val bm v).

Definition kylin_bitmap_set (bm : kbitmap_t) (start len : Z) : outcome (kerr_t * kbitmap_t) :=
  bitmap_range (fun w mask => Z.lor w mask) bm start len.

Definition kylin_bitmap_clear (bm : kbitmap_t) (start len : Z) : outcome (kerr_t * kbitmap_t) :=
  bitmap_range (fun w mask => Z.land w (u64 (Z.lnot mask))) bm start len.

(** ** Shifts.  The words of the result are written to a fresh array [dst],
    copied back at the end. *)
Definition shift_invalid (size offset remainder : Z) : bool :=
  (size <? offset) || ((offset =? size) && negb (remainder =? 0)).

Definition shift_right_word (val : list Z) (size offset : nat) (remainder : Z) (i : nat) :
    outcome Z :=
  upper ← (if (remainder =? 0) || (size <=? offset + i + 1)%nat then Ok 0
           else w ← rd val (offset + i + 1); Ok (u64 (Z.shiftl w (BITS_PER_WORD - remainder))));
  w ← rd val (offset + i);
  Ok (Z.lor (Z.shiftr w remainder) upper).

Definition kylin_bitmap_shift_right (malloc_ok : bool) (bm : kbitmap_t) (shift : Z) :
    outcome (kerr_t * kbitmap_t) :=
  let size := bm_size bm in
  let remainder := shift mod BITS_PER_WORD in
  if shift_invalid (Z.of_nat size) (shift / BITS_PER_WORD) remainder
  then Ok (KYLIN_ERROR_INVAL, bm) else
  let offset := Z.to_nat (shift / BITS_PER_WORD) in
  match malloc_words malloc_ok size with
  | None => Ok (KYLIN_ERROR_NOMEM, bm)
  | Some dst =>
      dst ← for_each (fun d i =>
          w ← shift_right_word (bm_val bm) size offset remainder i; wr d i w)
        dst (seq 0 (size - offset));
      let dst := if (0 <? offset)%nat then splice dst (size - offset) (replicate offset 0)
                 else dst in
      v ← copy_words (bm_val bm) dst size;
      Ok (KYLIN_ERROR_OK, with_val bm v)
  end.

Definition shift_left_word (val : list Z) (remainder : Z) (i : nat) : outcome Z :=
  lower ← (if negb (remainder =? 0) && (0 <? i)%nat then
             w ← rd val (i - 1); Ok (Z.shiftr w (BITS_PER_WORD - remainder))
           else Ok 0);
  w ← rd val i;
  Ok (Z.lor lower (u64 (Z.shiftl w remainder))).

Definition kylin_bitmap_shift_left (malloc_ok : bool) (bm : kbitmap_t) (shift : Z) :
    outcome (kerr_t * kbitmap_t) :=
  let size := bm_size bm in
  let remainder := shift mod BITS_PER_WORD in
  if shift_invalid (Z.of_nat size) (shift / BITS_PER_WORD) remainder
  then Ok (KYLIN_ERROR_INVAL, bm) else
  let offset := Z.to_nat (shift / BITS_PER_WORD) in
  match malloc_words malloc_ok size with
  | None => Ok (KYLIN_ERROR_NOMEM, bm)
  | Some dst =>
      dst ← for_each (fun d i =>
          w ← shift_left_word (bm_val bm) remainder i; wr d (i + offset) w)
        dst (rev (seq 0 (size - offset)));
      let dst := if (0 <? offset)%nat then splice dst 0 (replicate offset 0) else dst in
      v ← copy_words (bm_val bm) dst size;
      Ok (KYLIN_ERROR_OK, with_val bm v)
  end.

(** ** Word-wise operations *)
Definition any_empty (bms : list kbitmap_t) : bool :=
  existsb (fun b => bm_size b <? 1)%nat bms.

Definition binary_words (f : Z -> Z -> Z) (src1 src2 : kbitmap_t) (i : nat) : outcome Z :=
  x ← rd (bm_val src1) i; y ← rd (bm_val src2) i; Ok (f x y).

Definition bitmap_binary (f : Z -> Z -> Z) (dst src1 src2 : kbitmap_t) :
    outcome (kerr_t * kbitmap_t) :=
  if any_empty [dst; src1; src2] then Ok (KYLIN_ERROR_INVAL, dst) else
  let size := Nat.min (bm_size dst) (Nat.min (bm_size src1) (bm_size src2)) in
  v ← for_each (fun d i => x ← binary_words f src1 src2 i; wr d i x) (bm_val dst) (seq 0 size);
  Ok (KYLIN_ERROR_OK, with_val dst v).

Definition kylin_bitmap_and := bitmap_binary Z.land.
Definition kylin_bitmap_xor := bitmap_binary Z.lxor.
Definition kylin_bitmap_andnot := bitmap_binary (fun x y => Z.land x (u64 (Z.lnot y))).

Definition or_word (src1 src2 : kbitmap_t) (i : nat) : outcome Z :=
  if (i <? bm_size src1)%nat && (i <? bm_size src2)%nat
  then binary_words Z.lor src1 src2 i
  else if (i <? bm_size src1)%nat then rd (bm_val src1) i
  else rd (bm_val src2) i.

Definition kylin_bitmap_or (dst src1 src2 : kbitmap_t) : outcome (kerr_t * kbitmap_t) :=
  if any_empty [dst; src1; src2] then Ok (KYLIN_ERROR_INVAL, dst) else
  let size := Nat.max (bm_size dst) (Nat.max (bm_size src1) (bm_size src2)) in
  if negb (bm_size dst =? size)%nat then Ok (KYLIN_ERROR_NOENT, dst) else
  v ← for_each (fun d i => x ← or_word src1 src2 i; wr d i x) (bm_val dst) (seq 0 size);
  Ok (KYLIN_ERROR_OK, with_val dst v).

Definition kylin_bitmap_complement (dst src : kbitmap_t) : outcome (kerr_t * kbitmap_t) :=
  if any_empty [dst; src] then Ok (KYLIN_ERROR_INVAL, dst) else
  let size := Nat.min (bm_size dst) (bm_size src) in
  v ← for_each (fun d i => x ← (w ← rd (bm_val src) i; Ok (u64 (Z.lnot w))); wr d i x)
        (bm_val dst) (seq 0 size);
  Ok (KYLIN_ERROR_OK, with_val dst v).

(** ** Tests *)
Definition kylin_bitmap_is_equal (src1 src2 : kbitmap_t) : outcome bool :=
  if any_empty [src1; src2] || negb (bm_size src1 =? bm_size src2)%nat then Ok false else
  b ← scan (fun i => x ← rd (bm_val src1) i; y ← rd (bm_val src2) i; Ok (negb (x =? y)))
        (seq 0 (bm_size src1));
  Ok (negb b).

Definition kylin_bitmap_is_intersects (src1 src2 : kbitmap_t) : outcome bool :=
  scan (fun i => x ← binary_words Z.land src1 src2 i; Ok (negb (x =? 0)))
    (seq 0 (Nat.min (bm_size src1) (bm_size src2))).

Definition kylin_bitmap_is_subset (parent child : kbitmap_t) : outcome bool :=
  let size := Nat.min (bm_size parent) (bm_size child) in
  if (bm_size parent <? size)%nat then Ok false else
  b ← scan (fun i => x ← binary_words (fun c p => Z.land c (u64 (Z.lnot p))) child parent i;
                     Ok (negb (x =? 0)))
        (seq 0 size);
  Ok (negb b).

Definition kylin_bitmap_is_empty (src : kbitmap_t) : outcome bool :=
  b ← scan (fun i => x ← rd (bm_val src) i; Ok (negb (x =? 0))) (seq 0 (bm_size src));
  Ok (negb b).

Definition kylin_bitmap_is_full (src : kbitmap_t) : outcome bool :=
  b ← scan (fun i => x ← rd (bm_val src) i; Ok (negb (u64 (Z.lnot x) =? 0)))
        (seq 0 (bm_size src));
  Ok (negb b).

(** ** Bits and well-formedness *)

Definition bit (bm : kbitmap_t) (j : Z) : bool := array_bit (bm_val bm) j.

(** Every word is a 64-bit value and the array has the recorded size: what
    [kylin_bitmap_create] establishes and every operation keeps. *)
Definition bitmap_ok (bm : kbitmap_t) : Prop :=
  length (bm_val bm) = bm_size bm /\ Forall (is_u 64) (bm_val bm).

Lemma is_u_ones64 : is_u 64 (2 ^ 64 - 1).
Proof. unfold is_u. lia. Qed.

Lemma testbit_ones64 k : 0 <= k < 64 -> Z.testbit (2 ^ 64 - 1) k = true.
Proof. intros. change (2 ^ 64 - 1) with (Z.ones 64). by rewrite Z.testbit_ones_nonneg, (proj2 (Z.ltb_lt k 64)) by lia. Qed.

Lemma testbit_first_mask start k :
  0 <= start -> 0 <= k < 64 ->
  Z.testbit (BITMAP_FIRST_WORD_MASK start) k = (start mod 64 <=? k).
Proof.
  intros Hs Hk. unfold BITMAP_FIRST_WORD_MASK, BITS_PER_WORD.
  change (64 - 1) with (Z.ones 6). rewrite Z.land_ones by lia. change (2 ^ 6) with 64.
  pose proof (Z.mod_pos_bound start 64 ltac:(lia)).
  rewrite testbit_uw, Z.shiftl_spec by lia.
  rewrite (proj2 (Z.ltb_lt k 64)) by lia. simpl andb.
  destruct (Z.leb_spec (start mod 64) k).
  - apply testbit_ones64. lia.
  - apply Z.testbit_neg_r. lia.
Qed.

Lemma testbit_last_mask n k :
  n mod 64 <> 0 -> 0 <= k < 64 ->
  Z.testbit (BITMAP_LAST_WORD_MASK n) k = (k <? n mod 64).
Proof.
  intros Hn Hk. unfold BITMAP_LAST_WORD_MASK, BITS_PER_WORD.
  change (64 - 1) with (Z.ones 6). rewrite Z.land_ones by lia. change (2 ^ 6) with 64.
  unfold uw. rewrite (Z.mod_mod_divide _ (2 ^ 32) 64) by (by exists (2 ^ 26)).
  rewrite Z.mod_opp_l_nz by lia.
  pose proof (Z.mod_pos_bound n 64 ltac:(lia)).
  rewrite Z.shiftr_spec by lia. change (2 ^ 64 - 1) with (Z.ones 64).
  rewrite Z.testbit_ones_nonneg by lia.
  destruct (Z.ltb_spec k (n mod 64)), (Z.ltb_spec (k + (64 - n mod 64)) 64); done || lia.
Qed.

Lemma array_bit_at a q r :
  0 <= q -> 0 <= r < 64 ->
  array_bit a (64 * q + r) =
    match a !! Z.to_nat q with Some w => Z.testbit w r | None => false end.
Proof.
  intros. unfold array_bit. replace (64 * q + r) with (r + q * 64) by lia.
  by rewrite Z.div_add, Z.mod_add, Z.div_small, Z.mod_small by lia.
Qed.

Lemma array_bit_insert a i w j :
  (i < length a)%nat -> 0 <= j ->
  array_bit (<[i := w]> a) j =
    if j / 64 =? Z.of_nat i then Z.testbit w (j mod 64) else array_bit a j.
Proof.
  intros Hi Hj. unfold array_bit. pose proof (Z.div_pos j 64 ltac:(lia)).
  destruct (Z.eqb_spec (j / 64) (Z.of_nat i)) as [->|Hne].
  - by rewrite Nat2Z.id, list_lookup_insert_eq by lia.
  - by rewrite list_lookup_insert_ne by lia.
Qed.

(** ** Range updates *)

(** Where a range really ends.  The last mask is made from [start] and from what
    is left of [len] when the loop is done, not from the end of the range: of
    the last word of a range that crosses a word boundary the first
    [last_bits] bits are met. *)
Definition last_bits (start rest : Z) : Z :=
  if (start + rest) mod 64 =? 0 then 64 else (start + rest) mod 64.
(** The number of bits that are met from the second word on, with [len] left. *)
Definition tail_end (start len : Z) : Z :=
  64 * (len / 64) + (if len mod 64 =? 0 then 0 else last_bits start (len mod 64)).
Definition range_end (start len : Z) : Z :=
  let lo := start mod 64 in
  if lo + len <? 64 then start + len else start - lo + 64 + tail_end start (lo + len - 64).

Lemma last_bits_range start rest : 0 < last_bits start rest <= 64.
Proof.
  unfold last_bits. pose proof (Z.mod_pos_bound (start + rest) 64 ltac:(lia)).
  destruct (Z.eqb_spec ((start + rest) mod 64) 0); lia.
Qed.

Lemma tail_end_nonneg start len : 0 <= start -> 0 <= len -> 0 <= tail_end start len.
Proof.
  intros. unfold tail_end. pose proof (Z.div_pos len 64 ltac:(lia) ltac:(lia)).
  pose proof (last_bits_range start (len mod 64)). case_match; lia.
Qed.

Lemma tail_end_step start len : 0 <= len -> tail_end start (len + 64) = 64 + tail_end start len.
Proof.
  intros. unfold tail_end. replace (len + 64) with (len + 1 * 64) by lia.
  rewrite Z.div_add, Z.mod_add by lia. lia.
Qed.

(** A range ends where it should exactly if it lies in one word, begins at a word
    or ends at one. *)
Lemma range_end_exact start len : 0 <= start -> 0 <= len ->
  range_end start len = start + len <-> start mod 64 + len < 64 \/ start mod 64 = 0 \/ (start + len) mod 64 = 0.
Proof.
  intros Hs Hl. unfold range_end. pose proof (Z.mod_pos_bound start 64 ltac:(lia)).
  destruct (Z.ltb_spec (start mod 64 + len) 64) as [|Hge]; [by split; [left|]|].
  set (lo := start mod 64) in *. set (r := lo + len - 64).
  pose proof (Z.div_mod start 64 ltac:(lia)). pose proof (Z.div_mod r 64 ltac:(lia)). pose proof (Z.mod_pos_bound r 64 ltac:(lia)).
  assert (Hm : (start + len) mod 64 = r mod 64).
  { unfold r. replace (start + len) with (lo + len - 64 + (start / 64 + 1) * 64) by lia. by rewrite Z.mod_add by lia. }
  assert (Hq : (start + r mod 64) mod 64 = (lo + r mod 64) mod 64).
  { replace (start + r mod 64) with (lo + r mod 64 + start / 64 * 64) by lia. by rewrite Z.mod_add by lia. }
  rewrite Hm. unfold tail_end, last_bits. rewrite Hq. set (q := r mod 64) in *.
  destruct (Z.eqb_spec q 0) as [E|E]; [lia|].
  pose proof (Z.div_mod (lo + q) 64 ltac:(lia)). pose proof (Z.mod_pos_bound (lo + q) 64 ltac:(lia)).
  destruct (Z.eqb_spec ((lo + q) mod 64) 0); lia.
Qed.

Section Range.
(** An update that sets the masked bits to [v] and keeps the others. *)
Context (upd : Z -> Z -> Z) (v : bool).
Hypothesis upd_u : forall w m, is_u 64 w -> is_u 64 m -> is_u 64 (upd w m).
Hypothesis upd_bit : forall w m k, is_u 64 w -> is_u 64 m -> 0 <= k < 64 ->
  Z.testbit (upd w m) k = if Z.testbit m k then v else Z.testbit w k.

Lemma upd_word a idx w m lo hi :
  Forall (is_u 64) a -> a !! idx = Some w -> is_u 64 m ->
  0 <= lo -> hi <= 64 ->
  (forall k, 0 <= k < 64 -> Z.testbit m k = (lo <=? k) && (k <? hi)) ->
  let s := 64 * Z.of_nat idx in
  Forall (is_u 64) (<[idx := upd w m]> a) /\
  forall j, 0 <= j -> array_bit (<[idx := upd w m]> a) j =
    if (s + lo <=? j) && (j <? s + hi) then v else array_bit a j.
Proof using upd_u upd_bit.
  intros Ha Hw Hm Hlo Hhi Hk s.
  assert (Hwu : is_u 64 w) by (eapply Forall_lookup_1; eauto).
  pose proof (lookup_lt_Some _ _ _ Hw). split.
  - apply Forall_insert; auto.
  - intros j Hj. rewrite array_bit_insert by done.
    pose proof (Z.div_mod j 64 ltac:(lia)). pose proof (Z.mod_pos_bound j 64 ltac:(lia)).
    destruct (Z.eqb_spec (j / 64) (Z.of_nat idx)) as [E|E].
    + rewrite upd_bit, Hk by done.
      replace (array_bit a j) with (Z.testbit w (j mod 64))
        by (unfold array_bit; by rewrite E, Nat2Z.id, Hw).
      repeat match goal with |- context [?x <=? ?y] => destruct (Z.leb_spec x y)
                        | |- context [?x <? ?y] => destruct (Z.ltb_spec x y) end;
        simpl; done || lia.
    + destruct (Z.leb_spec (s + lo) j), (Z.ltb_spec j (s + hi)); simpl; done || lia.
Qed.

(** The bits of the last word of a range that has been entered from below:
    [len] bits are left and [start] is where the range began. *)
Lemma tail_mask start len k : 0 <= start -> 0 < len < 64 -> start + len < 2 ^ 32 -> 0 <= k < 64 ->
  Z.testbit (BITMAP_LAST_WORD_MASK (u32 (start + len))) k = (k <? last_bits start len).
Proof using Type.
  intros Hs Hl Hw Hk. rewrite uw_id by (unfold is_u; lia). unfold last_bits.
  destruct (Z.eqb_spec ((start + len) mod 64) 0) as [E|E].
  - rewrite (proj2 (Z.ltb_lt _ _)) by lia. unfold BITMAP_LAST_WORD_MASK, BITS_PER_WORD.
    change (64 - 1) with (Z.ones 6). rewrite Z.land_ones by lia. change (2 ^ 6) with 64.
    unfold uw. rewrite (Z.mod_mod_divide _ (2 ^ 32) 64) by (by exists (2 ^ 26)).
    rewrite Z.mod_opp_l_z by lia. by apply testbit_ones64.
  - by apply testbit_last_mask.
Qed.

(** The loop from the second word on. *)
Lemma range_words_tail fuel start a idx len :
  Forall (is_u 64) a -> 0 <= start -> 0 <= len -> start + len < 2 ^ 32 ->
  64 * Z.of_nat idx + len <= 64 * Z.of_nat (length a) -> len < 64 * (Z.of_nat fuel - 1) ->
  exists a', range_words fuel upd start a idx (2 ^ 64 - 1) 64 len = Ok a' /\
    length a' = length a /\ Forall (is_u 64) a' /\
    forall j, 0 <= j -> array_bit a' j =
      if (64 * Z.of_nat idx <=? j) && (j <? 64 * Z.of_nat idx + tail_end start len) then v else array_bit a j.
Proof using upd_u upd_bit.
  revert a idx len. induction fuel as [|fuel IH]; intros a idx len Ha Hs Hlen Hw Hb Hf; [lia|].
  cbn [range_words]. rewrite (proj2 (Z.ltb_ge (len - 64) (- 2 ^ 31))) by lia.
  destruct (Z.leb_spec 0 (len - 64)).
  - destruct (rd_lt a idx) as (w & -> & Hwd); [lia|]. cbn [mbind outcome_bind].
    rewrite wr_lt by lia. cbn [mbind outcome_bind].
    destruct (upd_word a idx w (2 ^ 64 - 1) 0 64) as [Ha1 Hb1]; try done; try lia; try apply is_u_ones64.
    { intros k Hk. rewrite testbit_ones64 by done. by rewrite (proj2 (Z.leb_le 0 k)), (proj2 (Z.ltb_lt k 64)) by lia. }
    destruct (IH (<[idx := upd w (2 ^ 64 - 1)]> a) (idx + 1)%nat (len - 64)) as (a' & E & Hl' & Ha' & Hb');
      [done|lia|lia|lia|rewrite length_insert; lia|lia|].
    exists a'. change BITS_PER_WORD with 64. rewrite E, Hl', length_insert.
    split; [done|]. split; [done|]. split; [done|]. intros j Hj. rewrite Hb', Hb1 by done.
    pose proof (tail_end_nonneg start (len - 64) ltac:(lia) ltac:(lia)).
    pose proof (tail_end_step start (len - 64) ltac:(lia)). replace (len - 64 + 64) with len in * by lia.
    repeat match goal with |- context [?x <=? ?y] => destruct (Z.leb_spec x y)
                      | |- context [?x <? ?y] => destruct (Z.ltb_spec x y) end; simpl; done || lia.
  - unfold tail_end. rewrite Z.div_small, Z.mod_small by lia.
    destruct (Z.eqb_spec len 0) as [->|Hnz]; cbn [negb].
    + exists a. repeat split; try done. intros j Hj.
      destruct (Z.leb_spec (64 * Z.of_nat idx) j), (Z.ltb_spec j (64 * Z.of_nat idx + (64 * 0 + 0))); simpl; done || lia.
    + destruct (rd_lt a idx) as (w & -> & Hwd); [lia|]. cbn [mbind outcome_bind].
      rewrite wr_lt by lia. pose proof (last_bits_range start len).
      destruct (upd_word a idx w (Z.land (2 ^ 64 - 1) (BITMAP_LAST_WORD_MASK (u32 (start + len)))) 0 (last_bits start len))
        as [Ha1 Hb1]; try done; try lia.
      { apply is_u_land; [lia|apply is_u_ones64|]. unfold BITMAP_LAST_WORD_MASK. apply Z.shiftr_nonneg. lia. }
      { intros k Hk. rewrite Z.land_spec, testbit_ones64, tail_mask by lia.
        by rewrite (proj2 (Z.leb_le 0 k)) by lia. }
      eexists. split; [done|]. rewrite length_insert. split; [done|]. split; [done|].
      intros j Hj. rewrite Hb1 by done. by rewrite Z.add_0_r.
Qed.

(** The whole loop: a range in one word is met exactly, any other ends at
    [range_end]. *)
Lemma range_words_spec fuel start a m len :
  Forall (is_u 64) a -> is_u 64 m -> 0 <= start -> 0 <= len -> start + len < 2 ^ 32 ->
  (forall k, 0 <= k < 64 -> Z.testbit m k = (start mod 64 <=? k)) ->
  start + len <= 64 * Z.of_nat (length a) -> len < 64 * (Z.of_nat fuel - 2) ->
  exists a', range_words fuel upd start a (Z.to_nat (start / 64)) m (64 - start mod 64) len = Ok a' /\
    length a' = length a /\ Forall (is_u 64) a' /\
    forall j, 0 <= j -> array_bit a' j =
      if (start <=? j) && (j <? range_end start len) then v else array_bit a j.
Proof using upd_u upd_bit.
  intros Ha Hm Hs Hlen Hw Hmk Hb Hf. set (idx := Z.to_nat (start / 64)). set (lo := start mod 64) in *.
  pose proof (Z.mod_pos_bound start 64 ltac:(lia)). pose proof (Z.div_mod start 64 ltac:(lia)).
  pose proof (Z.div_pos start 64 Hs ltac:(lia)).
  assert (Hst : start = 64 * Z.of_nat idx + lo) by lia.
  destruct fuel as [|fuel]; [lia|]. cbn [range_words].
  rewrite (proj2 (Z.ltb_ge (len - (64 - lo)) (- 2 ^ 31))) by lia. unfold range_end. fold lo.
  destruct (Z.leb_spec 0 (len - (64 - lo))).
  - rewrite (proj2 (Z.ltb_ge (lo + len) 64)) by lia.
    destruct (rd_lt a idx) as (w & -> & Hwd); [lia|]. cbn [mbind outcome_bind].
    rewrite wr_lt by lia. cbn [mbind outcome_bind].
    destruct (upd_word a idx w m lo 64) as [Ha1 Hb1]; try done; try lia.
    { intros k Hk. rewrite Hmk by done. by rewrite (proj2 (Z.ltb_lt k 64)), andb_true_r by lia. }
    destruct (range_words_tail fuel start (<[idx := upd w m]> a) (idx + 1) (len - (64 - lo)))
      as (a' & E & Hl' & Ha' & Hb'); [done|lia|lia|lia|rewrite length_insert; lia|lia|].
    exists a'. change BITS_PER_WORD with 64. rewrite E, Hl', length_insert.
    split; [done|]. split; [done|]. split; [done|]. intros j Hj. rewrite Hb', Hb1 by done.
    pose proof (tail_end_nonneg start (len - (64 - lo)) ltac:(lia) ltac:(lia)).
    replace (start - lo + 64) with (64 * Z.of_nat (idx + 1)) by lia. replace (lo + len - 64) with (len - (64 - lo)) by lia.
    repeat match goal with |- context [?x <=? ?y] => destruct (Z.leb_spec x y)
                      | |- context [?x <? ?y] => destruct (Z.ltb_spec x y) end; simpl; done || lia.
  - rewrite (proj2 (Z.ltb_lt (lo + len) 64)) by lia.
    destruct (Z.eqb_spec len 0) as [->|Hnz]; cbn [negb].
    + exists a. repeat split; try done. intros j Hj.
      destruct (Z.leb_spec start j), (Z.ltb_spec j (start + 0)); simpl; done || lia.
    + destruct (rd_lt a idx) as (w & -> & Hwd); [lia|]. cbn [mbind outcome_bind].
      rewrite wr_lt by lia.
      assert (Hmod : (start + len) mod 64 = lo + len) by (symmetry; apply (Z.mod_unique _ _ (Z.of_nat idx)); lia).
      destruct (upd_word a idx w (Z.land m (BITMAP_LAST_WORD_MASK (u32 (start + len)))) lo (lo + len))
        as [Ha1 Hb1]; try done; try lia.
      { apply is_u_land; [lia|done|]. unfold BITMAP_LAST_WORD_MASK. apply Z.shiftr_nonneg. lia. }
      { intros k Hk. rewrite Z.land_spec, Hmk, uw_id by (unfold is_u; lia). by rewrite testbit_last_mask, Hmod by lia. }
      eexists. split; [done|]. rewrite length_insert. split; [done|]. split; [done|].
      intros j Hj. rewrite Hb1 by done. replace (64 * Z.of_nat idx + (lo + len)) with (start + len) by lia. by rewrite <- Hst.
Qed.

Lemma bitmap_range_spec bm start len :
  bitmap_ok bm -> 0 <= start -> 0 <= len < 2 ^ 31 ->
  start + len <= 64 * Z.of_nat (bm_size bm) -> start + len + 63 < 2 ^ 32 ->
  exists bm', bitmap_range upd bm start len = Ok (KYLIN_ERROR_OK, bm') /\
    bitmap_ok bm' /\ bm_size bm' = bm_size bm /\
    forall j, 0 <= j -> bit bm' j =
      if (start <=? j) && (j <? range_end start len) then v else bit bm j.
Proof using upd_u upd_bit.
  intros [Hl Hu] Hs Hlen Hfit Hwrap. unfold bitmap_range.
  assert (Hw : forall b, 0 <= b <= start + len -> BITS_TO_WORDS32 b <= Z.of_nat (bm_size bm)).
  { intros b Hb. unfold BITS_TO_WORDS32, BITS_PER_WORD. unfold uw.
    rewrite Zminus_mod_idemp_l, Z.mod_small by lia. apply Z.lt_succ_r, Z.div_lt_upper_bound; lia. }
  rewrite (uw_id 32 (start + len)) by (unfold is_u; lia).
  rewrite !(proj2 (Z.ltb_ge _ _)) by (apply Hw; lia). cbn [orb].
  destruct (range_words_spec (Z.to_nat (len / BITS_PER_WORD) + 3) start (bm_val bm) (BITMAP_FIRST_WORD_MASK start) len)
    as (a' & E & Hl' & Hu' & Hb'); unfold BITMAP_WORD_INDEX, BITS_PER_WORD in *; try done; try lia.
  - apply uw_range. lia.
  - intros k Hk. by apply testbit_first_mask.
  - pose proof (Z.div_pos len 64 ltac:(lia) ltac:(lia)).
    pose proof (Z.div_mod len 64 ltac:(lia)). pose proof (Z.mod_pos_bound len 64 ltac:(lia)). lia.
  - rewrite E. exists (with_val bm a'). split; [done|].
    split; [split; simpl; [congruence|done]|]. split; [done|].
    intros j Hj. unfold bit. simpl. by rewrite Hb' by done.
Qed.
End Range.

(** ** Shifts *)

Lemma array_bit_some a i w k :
  a !! i = Some w -> 0 <= k < 64 -> array_bit a (64 * Z.of_nat i + k) = Z.testbit w k.
Proof. intros H Hk. by rewrite array_bit_at, Nat2Z.id, H by lia. Qed.

Lemma array_bit_none a j : 64 * Z.of_nat (length a) <= j -> array_bit a j = false.
Proof.
  intros H. unfold array_bit. pose proof (Z.div_le_lower_bound j 64 (Z.of_nat (length a))).
  by rewrite lookup_ge_None_2 by lia.
Qed.

Lemma array_bit_split j : 0 <= j -> exists (i : nat) k, j = 64 * Z.of_nat i + k /\ 0 <= k < 64.
Proof.
  intros Hj. exists (Z.to_nat (j / 64)), (j mod 64).
  pose proof (Z.div_pos j 64 Hj ltac:(lia)). pose proof (Z.div_mod j 64 ltac:(lia)).
  pose proof (Z.mod_pos_bound j 64 ltac:(lia)). lia.
Qed.

Lemma shift_right_word_spec val size off rem i :
  length val = size -> Forall (is_u 64) val -> 0 <= rem < 64 -> (off + i < size)%nat ->
  exists w, shift_right_word val size off rem i = Ok w /\ is_u 64 w /\
    forall k, 0 <= k < 64 ->
      Z.testbit w k = array_bit val (64 * Z.of_nat (off + i) + (k + rem)).
Proof.
  intros Hl Hu Hrem Hi. unfold shift_right_word, BITS_PER_WORD.
  destruct (rd_lt val (off + i)) as (w & Ew & Hw); [lia|].
  assert (Huw : is_u 64 w) by (eapply Forall_lookup_1; eauto).
  match goal with |- context [mbind _ ?u] => set (up := u) end.
  assert (Hup : exists u, up = Ok u /\ is_u 64 u /\ forall k, 0 <= k < 64 ->
    Z.testbit u k = if k + rem <? 64 then false
      else array_bit val (64 * Z.of_nat (off + i) + (k + rem))).
  { subst up. destruct (Z.eqb_spec rem 0) as [->|Hnz].
    { exists 0. split; [done|]. split; [unfold is_u; lia|]. intros k Hk.
      rewrite (proj2 (Z.ltb_lt _ _)) by lia. apply Z.bits_0. }
    destruct (Nat.leb_spec size (off + i + 1)).
    { exists 0. split; [done|]. split; [unfold is_u; lia|]. intros k Hk.
      rewrite Z.bits_0. destruct (Z.ltb_spec (k + rem) 64); [done|].
      symmetry. apply array_bit_none. lia. }
    destruct (rd_lt val (off + i + 1)) as (x & Ex & Hx); [lia|]. rewrite Ex.
    cbn [orb mbind outcome_bind]. eexists. split; [done|]. split; [apply uw_range; lia|].
    intros k Hk. rewrite testbit_uw, Z.shiftl_spec by lia. rewrite (proj2 (Z.ltb_lt k 64)) by lia.
    destruct (Z.ltb_spec (k + rem) 64); [apply Z.testbit_neg_r; lia|].
    rewrite <- (array_bit_some _ _ _ _ Hx) by lia. cbn [andb]. f_equal. lia. }
  destruct Hup as (u & -> & Hu' & Hub). rewrite Ew. cbn [mbind outcome_bind].
  exists (Z.lor (Z.shiftr w rem) u). split; [done|].
  split; [apply is_u_lor; [lia|apply is_u_shiftr; done || lia|done]|].
  intros k Hk. rewrite Z.lor_spec, Z.shiftr_spec, Hub by lia.
  destruct (Z.ltb_spec (k + rem) 64).
  - rewrite orb_false_r. symmetry. apply array_bit_some; [done|lia].
  - by rewrite (testbit_is_u 64 w) by (done || lia).
Qed.

Lemma shift_left_word_spec val rem i :
  Forall (is_u 64) val -> 0 <= rem < 64 -> (i < length val)%nat ->
  exists w, shift_left_word val rem i = Ok w /\ is_u 64 w /\
    forall k, 0 <= k < 64 ->
      Z.testbit w k = (rem <=? 64 * Z.of_nat i + k) && array_bit val (64 * Z.of_nat i + k - rem).
Proof.
  intros Hu Hrem Hi. unfold shift_left_word, BITS_PER_WORD.
  destruct (rd_lt val i) as (w & Ew & Hw); [lia|].
  assert (Huw : is_u 64 w) by (eapply Forall_lookup_1; eauto).
  match goal with |- context [mbind _ ?u] => set (low := u) end.
  assert (Hlow : exists u, low = Ok u /\ is_u 64 u /\ forall k, 0 <= k < 64 ->
    Z.testbit u k = if rem <=? k then false
      else (rem <=? 64 * Z.of_nat i + k) && array_bit val (64 * Z.of_nat i + k - rem)).
  { subst low. destruct (Z.eqb_spec rem 0) as [->|Hnz]; cbn [negb andb].
    { exists 0. split; [done|]. split; [unfold is_u; lia|]. intros k Hk.
      rewrite (proj2 (Z.leb_le _ _)) by lia. apply Z.bits_0. }
    destruct (Nat.ltb_spec 0 i).
    2:{ exists 0. split; [done|]. split; [unfold is_u; lia|]. intros k Hk.
      rewrite Z.bits_0. destruct (Z.leb_spec rem k); [done|].
      by rewrite (proj2 (Z.leb_gt _ _)) by lia. }
    destruct (rd_lt val (i - 1)) as (x & Ex & Hx); [lia|]. rewrite Ex.
    cbn [mbind outcome_bind]. eexists. split; [done|].
    assert (Hux : is_u 64 x) by (eapply Forall_lookup_1; eauto).
    split; [apply is_u_shiftr; done || lia|].
    intros k Hk. rewrite Z.shiftr_spec by lia. destruct (Z.leb_spec rem k).
    { apply (testbit_is_u 64); done || lia. }
    rewrite (proj2 (Z.leb_le _ _)) by lia. cbn [andb].
    rewrite <- (array_bit_some _ _ _ _ Hx) by lia. f_equal. lia. }
  destruct Hlow as (u & -> & Hu' & Hub). rewrite Ew. cbn [mbind outcome_bind].
  eexists. split; [done|]. split; [apply is_u_lor; [lia|done|apply uw_range; lia]|].
  intros k Hk. rewrite Z.lor_spec, Hub, testbit_uw, Z.shiftl_spec by lia.
  rewrite (proj2 (Z.ltb_lt k 64)) by lia. destruct (Z.leb_spec rem k).
  - rewrite (proj2 (Z.leb_le rem (64 * _ + k))) by lia. cbn [orb andb].
    rewrite <- (array_bit_some _ _ _ _ Hw) by lia. f_equal. lia.
  - rewrite (Z.testbit_neg_r w) by lia. cbn [andb]. apply orb_false_r.
Qed.

(** The total function the fresh array of a shift is filled with. *)
Definition the (o : outcome Z) : Z := match o with Ok w => w | _ => 0 end.

Lemma the_spec o (P : Z -> Prop) : (exists w, o = Ok w /\ P w) -> o = Ok (the o) /\ P (the o).
Proof. by intros (w & -> & H). Qed.

Lemma copy_words_all (dst src : list Z) :
  length src = length dst -> copy_words dst src (length dst) = Ok src.
Proof.
  intros H. unfold copy_words.
  rewrite (proj2 (Nat.leb_le _ _)) by lia. rewrite Nat.leb_refl. cbn [andb].
  unfold splice. rewrite take_0, firstn_all2, H by lia. simpl.
  by rewrite drop_all, app_nil_r.
Qed.

(** Words given by their bits: the array's bits, one by one. *)
Lemma array_bits_of_words a (f : Z -> bool) :
  (forall i, (i < length a)%nat -> exists w, a !! i = Some w /\
     forall k, 0 <= k < 64 -> Z.testbit w k = f (64 * Z.of_nat i + k)) ->
  forall j, 0 <= j -> array_bit a j = (j <? 64 * Z.of_nat (length a)) && f j.
Proof.
  intros H j Hj. destruct (array_bit_split j Hj) as (i & k & -> & Hk).
  destruct (Z.ltb_spec (64 * Z.of_nat i + k) (64 * Z.of_nat (length a))).
  - destruct (H i) as (w & Hw & Hb); [lia|]. rewrite (array_bit_some _ _ _ _ Hw) by done. by apply Hb.
  - by apply array_bit_none.
Qed.

Lemma lookup_splice_zeros (d : list Z) (at_ n i : nat) :
  (at_ + n <= length d)%nat -> (i < length d)%nat ->
  splice d at_ (replicate n 0) !! i = if decide (at_ <= i < at_ + n)%nat then Some 0 else d !! i.
Proof.
  intros Hn Hi. case_decide.
  - rewrite lookup_splice_in by (rewrite ?length_replicate; lia).
    apply lookup_replicate_2. lia.
  - apply lookup_splice_out; rewrite length_replicate; lia.
Qed.

Lemma shift_valid size shift :
  0 <= shift <= 64 * size -> shift_invalid size (shift / 64) (shift mod 64) = false.
Proof.
  intros H. unfold shift_invalid.
  pose proof (Z.div_mod shift 64 ltac:(lia)). pose proof (Z.mod_pos_bound shift 64 ltac:(lia)).
  destruct (Z.ltb_spec size (shift / 64)), (Z.eqb_spec (shift / 64) size),
    (Z.eqb_spec (shift mod 64) 0); simpl; done || lia.
Qed.

Lemma maybe_splice_zeros (d : list Z) (at_ n i : nat) :
  (at_ + n <= length d)%nat -> (i < length d)%nat ->
  (if (0 <? n)%nat then splice d at_ (replicate n 0) else d) !! i =
    if decide (at_ <= i < at_ + n)%nat then Some 0 else d !! i.
Proof.
  intros. destruct (Nat.ltb_spec 0 n); [by apply lookup_splice_zeros|].
  rewrite decide_False by lia. done.
Qed.

Lemma length_maybe_splice (d : list Z) (at_ n : nat) :
  (at_ + n <= length d)%nat ->
  length (if (0 <? n)%nat then splice d at_ (replicate n 0) else d) = length d.
Proof.
  intros. destruct (0 <? n)%nat; [|done]. apply length_splice. rewrite length_replicate. lia.
Qed.

(** An operation that succeeds with result bits [f], on an object of the same size. *)
Definition yields (r : outcome (kerr_t * kbitmap_t)) (size : nat) (f : Z -> bool) : Prop :=
  exists bm', r = Ok (KYLIN_ERROR_OK, bm') /\ bitmap_ok bm' /\ bm_size bm' = size /\
    forall j, 0 <= j -> bit bm' j = f j.

(** What a word array written word by word yields. *)
Lemma yields_words bm v (f : Z -> bool) :
  length v = bm_size bm ->
  (forall i, (i < bm_size bm)%nat -> exists w, v !! i = Some w /\ is_u 64 w /\
     forall k, 0 <= k < 64 -> Z.testbit w k = f (64 * Z.of_nat i + k)) ->
  (forall j, 64 * Z.of_nat (bm_size bm) <= j -> f j = false) ->
  yields (Ok (KYLIN_ERROR_OK, with_val bm v)) (bm_size bm) f.
Proof.
  intros Hl H Hout. exists (with_val bm v). split; [done|]. split; [split; [done|]|].
  - apply Forall_lookup_2. intros i w Hw. simpl in Hw.
    destruct (H i) as (w' & Hw' & Hu & _); [rewrite <- Hl; by eapply lookup_lt_Some|]. congruence.
  - split; [done|]. intros j Hj. unfold bit. simpl. rewrite (array_bits_of_words v f).
    + destruct (Z.ltb_spec j (64 * Z.of_nat (length v))); [done|]. symmetry. apply Hout. lia.
    + intros i Hi. destruct (H i) as (w & Hw & _ & Hb); [lia|]. eauto.
    + done.
Qed.

Lemma shift_right_yields bm shift :
  bitmap_ok bm -> 0 <= shift <= 64 * Z.of_nat (bm_size bm) ->
  yields (kylin_bitmap_shift_right true bm shift) (bm_size bm) (fun j => bit bm (j + shift)).
Proof.
  intros [Hl Hu] Hs. unfold kylin_bitmap_shift_right, BITS_PER_WORD.
  rewrite shift_valid by done. cbn [malloc_words].
  pose proof (Z.div_mod shift 64 ltac:(lia)) as Hd.
  pose proof (Z.mod_pos_bound shift 64 ltac:(lia)) as Hr.
  pose proof (Z.div_pos shift 64 ltac:(lia) ltac:(lia)).
  set (rem := shift mod 64) in *. set (off := Z.to_nat (shift / 64)) in *.
  assert (Hoff : shift = 64 * Z.of_nat off + rem) by lia. assert ((off <= bm_size bm)%nat) by lia.
  assert (Hw : forall i, (i < bm_size bm - off)%nat ->
    exists w, shift_right_word (bm_val bm) (bm_size bm) off rem i = Ok w /\
    (is_u 64 w /\ forall k, 0 <= k < 64 -> Z.testbit w k = bit bm (64 * Z.of_nat i + k + shift))).
  { intros i Hi. destruct (shift_right_word_spec (bm_val bm) (bm_size bm) off rem i)
      as (w & Ew & Hwu & Hwb); [done|done|done|lia|]. exists w. split; [done|]. split; [done|].
    intros k Hk. rewrite Hwb by done. unfold bit. f_equal. lia. }
  destruct (for_write_spec (shift_right_word (bm_val bm) (bm_size bm) off rem)
    (fun i => the (shift_right_word (bm_val bm) (bm_size bm) off rem i))
    (bm_size bm - off) (replicate (bm_size bm) 0)) as (d & -> & Hdl & Hdi).
  { rewrite length_replicate. lia. }
  { intros i Hi. by apply (the_spec _ _ (Hw i Hi)). }
  cbn [mbind outcome_bind]. rewrite length_replicate in Hdl.
  match goal with |- context [copy_words _ ?d' _] => set (d2 := d') end.
  assert (Hl2 : length d2 = bm_size bm) by (subst d2; rewrite length_maybe_splice; lia).
  rewrite <- Hl at 1. rewrite copy_words_all by lia. cbn [mbind outcome_bind].
  apply yields_words; [done| |].
  - intros i Hi. subst d2. rewrite maybe_splice_zeros, Hdi by lia. case_decide.
    + exists 0. split; [done|]. split; [unfold is_u; lia|]. intros k Hk. rewrite Z.bits_0.
      symmetry. apply array_bit_none. lia.
    + rewrite decide_True by lia.
      destruct (the_spec _ _ (Hw i ltac:(lia))) as (_ & Hwu & Hwb). eauto.
  - intros j Hj. apply array_bit_none. lia.
Qed.

Lemma for_down_write_spec {A} (g : nat -> outcome A) (h : nat -> A) off n (dst : list A) :
  (n + off <= length dst)%nat -> (forall i, (i < n)%nat -> g i = Ok (h i)) ->
  exists dst', for_each (fun d i => x ← g i; wr d (i + off) x) dst (rev (seq 0 n)) = Ok dst' /\
    length dst' = length dst /\
    forall i, (i < n)%nat -> dst' !! (i + off)%nat = Some (h i).
Proof.
  intros Hn Hg.
  destruct (for_down_inv (fun k d => length d = length dst /\
    forall i, (k <= i < n)%nat -> d !! (i + off)%nat = Some (h i))
    (fun d i => x ← g i; wr d (i + off) x) n dst) as (d & E & Hl & Hd).
  - split; [done|]. intros; lia.
  - intros k d Hk [Hl Hd]. rewrite Hg by done. cbn [mbind outcome_bind].
    rewrite wr_lt by lia. eexists. split; [done|]. rewrite length_insert. split; [done|].
    intros i Hi. destruct (decide (i = k)) as [->|Hne].
    + apply list_lookup_insert_eq. lia.
    + rewrite list_lookup_insert_ne by lia. apply Hd. lia.
  - exists d. split; [done|]. split; [done|]. intros i Hi. apply Hd. lia.
Qed.

Lemma shift_left_yields bm shift :
  bitmap_ok bm -> 0 <= shift <= 64 * Z.of_nat (bm_size bm) ->
  yields (kylin_bitmap_shift_left true bm shift) (bm_size bm)
    (fun j => (j <? 64 * Z.of_nat (bm_size bm)) && ((shift <=? j) && bit bm (j - shift))).
Proof.
  intros [Hl Hu] Hs. unfold kylin_bitmap_shift_left, BITS_PER_WORD.
  rewrite shift_valid by done. cbn [malloc_words].
  pose proof (Z.div_mod shift 64 ltac:(lia)) as Hd.
  pose proof (Z.mod_pos_bound shift 64 ltac:(lia)) as Hr.
  pose proof (Z.div_pos shift 64 ltac:(lia) ltac:(lia)).
  set (rem := shift mod 64) in *. set (off := Z.to_nat (shift / 64)) in *.
  assert (Hoff : shift = 64 * Z.of_nat off + rem) by lia. assert ((off <= bm_size bm)%nat) by lia.
  pose proof (fun i Hi => shift_left_word_spec (bm_val bm) rem i Hu Hr Hi) as Hw.
  destruct (for_down_write_spec (shift_left_word (bm_val bm) rem)
    (fun i => the (shift_left_word (bm_val bm) rem i)) off
    (bm_size bm - off) (replicate (bm_size bm) 0)) as (d & -> & Hdl & Hdi).
  { rewrite length_replicate. lia. }
  { intros i Hi. apply (the_spec _ _ (Hw i ltac:(lia))). }
  cbn [mbind outcome_bind]. rewrite length_replicate in Hdl.
  match goal with |- context [copy_words _ ?d' _] => set (d2 := d') end.
  assert (Hl2 : length d2 = bm_size bm) by (subst d2; rewrite length_maybe_splice; lia).
  rewrite <- Hl at 1. rewrite copy_words_all by lia. cbn [mbind outcome_bind].
  apply yields_words; [done| |].
  - intros i Hi. subst d2. rewrite maybe_splice_zeros by lia. case_decide.
    + exists 0. split; [done|]. split; [unfold is_u; lia|]. intros k Hk. rewrite Z.bits_0.
      destruct (Z.leb_spec shift (64 * Z.of_nat i + k)); [lia|]. by rewrite andb_false_r.
    + destruct (the_spec _ _ (Hw (i - off)%nat ltac:(lia))) as (_ & Hwu & Hwb).
      exists (the (shift_left_word (bm_val bm) rem (i - off))).
      rewrite <- (Hdi (i - off)%nat) by lia. split; [f_equal; lia|]. split; [done|].
      intros k Hk. rewrite Hwb by done. unfold bit.
      rewrite (proj2 (Z.ltb_lt _ _)) by lia. cbn [andb]. f_equal; [|f_equal; lia].
      destruct (Z.leb_spec rem (64 * Z.of_nat (i - off) + k)),
        (Z.leb_spec shift (64 * Z.of_nat i + k)); done || lia.
  - intros j Hj. by rewrite (proj2 (Z.ltb_ge _ _)) by lia.
Qed.

(** ** Word-wise operations *)

Lemma bitmap_word bm i :
  bitmap_ok bm -> (i < bm_size bm)%nat ->
  exists w, rd (bm_val bm) i = Ok w /\ bm_val bm !! i = Some w /\ is_u 64 w /\
    forall k, 0 <= k < 64 -> bit bm (64 * Z.of_nat i + k) = Z.testbit w k.
Proof.
  intros [Hl Hu] Hi. destruct (rd_lt (bm_val bm) i) as (w & E & Hw); [lia|].
  exists w. repeat split; try done; try (eapply Forall_lookup_1 in Hu; eauto; apply Hu).
  intros k Hk. by apply array_bit_some.
Qed.

(** A word function that works bit by bit. *)
Definition bitwise2 (f : Z -> Z -> Z) (g : bool -> bool -> bool) : Prop :=
  forall x y, is_u 64 x -> is_u 64 y -> is_u 64 (f x y) /\
    forall k, 0 <= k < 64 -> Z.testbit (f x y) k = g (Z.testbit x k) (Z.testbit y k).

Lemma bitwise_land : bitwise2 Z.land andb.
Proof. intros x y Hx Hy. split; [apply is_u_land; unfold is_u in *; lia|]. intros; apply Z.land_spec. Qed.
Lemma bitwise_lor : bitwise2 Z.lor orb.
Proof. intros x y Hx Hy. split; [by apply is_u_lor|]. intros; apply Z.lor_spec. Qed.
Lemma bitwise_lxor : bitwise2 Z.lxor xorb.
Proof. intros x y Hx Hy. split; [by apply is_u_lxor|]. intros; apply Z.lxor_spec. Qed.

Lemma testbit_u64_lnot y k : 0 <= k < 64 -> Z.testbit (u64 (Z.lnot y)) k = negb (Z.testbit y k).
Proof.
  intros Hk. rewrite testbit_uw, Z.lnot_spec by lia. by rewrite (proj2 (Z.ltb_lt k 64)) by lia.
Qed.

Lemma bitwise_landnot : bitwise2 (fun x y => Z.land x (u64 (Z.lnot y))) (fun a b => a && negb b).
Proof.
  intros x y Hx Hy. split.
  - apply is_u_land; [lia|done|]. apply uw_range. lia.
  - intros k Hk. by rewrite Z.land_spec, testbit_u64_lnot.
Qed.

Lemma binary_words_spec f g s1 s2 i :
  bitwise2 f g -> bitmap_ok s1 -> bitmap_ok s2 ->
  (i < bm_size s1)%nat -> (i < bm_size s2)%nat ->
  exists w, binary_words f s1 s2 i = Ok w /\ is_u 64 w /\ forall k, 0 <= k < 64 ->
    Z.testbit w k = g (bit s1 (64 * Z.of_nat i + k)) (bit s2 (64 * Z.of_nat i + k)).
Proof.
  intros Hf H1 H2 Hi1 Hi2. destruct (bitmap_word s1 i) as (x & Ex & _ & Hx & Hbx); [done..|].
  destruct (bitmap_word s2 i) as (y & Ey & _ & Hy & Hby); [done..|].
  unfold binary_words. rewrite Ex, Ey. cbn [mbind outcome_bind].
  destruct (Hf x y Hx Hy) as [Hu Hb]. exists (f x y). split; [done|]. split; [done|].
  intros k Hk. by rewrite Hb, Hbx, Hby.
Qed.

(** The common shape of the word-wise loops: word [i] of the destination is
    [g i] for [i < n], the other words are kept. *)
Lemma words_loop dst n (g : nat -> outcome Z) (f : Z -> bool) :
  bitmap_ok dst -> (n <= bm_size dst)%nat ->
  (forall i, (i < n)%nat -> exists w, g i = Ok w /\ (is_u 64 w /\
     forall k, 0 <= k < 64 -> Z.testbit w k = f (64 * Z.of_nat i + k))) ->
  yields (v ← for_each (fun d i => x ← g i; wr d i x) (bm_val dst) (seq 0 n);
          Ok (KYLIN_ERROR_OK, with_val dst v)) (bm_size dst)
    (fun j => if j <? 64 * Z.of_nat n then f j else bit dst j).
Proof.
  intros [Hl Hu] Hn Hg.
  destruct (for_write_spec g (fun i => the (g i)) n (bm_val dst)) as (d & -> & Hdl & Hdi); [lia| |].
  { intros i Hi. by apply (the_spec _ _ (Hg i Hi)). }
  cbn [mbind outcome_bind]. apply yields_words; [congruence| |].
  - intros i Hi. rewrite Hdi. case_decide.
    + destruct (the_spec _ _ (Hg i ltac:(lia))) as (_ & Hwu & Hwb). eexists. split; [done|].
      split; [done|]. intros k Hk. rewrite Hwb by done.
      by rewrite (proj2 (Z.ltb_lt _ _)) by lia.
    + destruct (bitmap_word dst i) as (w & _ & Hw & Hwu & Hwb); [done|lia|].
      exists w. repeat split; try done; try apply Hwu. intros k Hk.
      rewrite (proj2 (Z.ltb_ge _ _)) by lia. by rewrite Hwb.
  - intros j Hj. rewrite (proj2 (Z.ltb_ge _ _)) by lia. apply array_bit_none. lia.
Qed.

Lemma any_empty_false bms :
  Forall (fun b => 0 < bm_size b)%nat bms -> any_empty bms = false.
Proof.
  induction 1 as [|b bms Hb _ IH]; [done|]. simpl.
  destruct (Nat.ltb_spec (bm_size b) 1); [lia|done].
Qed.

Lemma bitmap_binary_yields f g dst s1 s2 :
  bitwise2 f g -> bitmap_ok dst -> bitmap_ok s1 -> bitmap_ok s2 ->
  (0 < bm_size dst)%nat -> (0 < bm_size s1)%nat -> (0 < bm_size s2)%nat ->
  yields (bitmap_binary f dst s1 s2) (bm_size dst)
    (fun j => if j <? 64 * Z.of_nat (Nat.min (bm_size dst) (Nat.min (bm_size s1) (bm_size s2)))
              then g (bit s1 j) (bit s2 j) else bit dst j).
Proof.
  intros Hf Hd H1 H2 Pd P1 P2. unfold bitmap_binary. rewrite any_empty_false by auto.
  apply (words_loop dst _ _ (fun j => g (bit s1 j) (bit s2 j))); [done|lia|].
  intros i Hi. destruct (binary_words_spec f g s1 s2 i) as (w & E & H); [done..|lia|lia|]. eauto.
Qed.

(** ** Tests *)

Lemma nonzero_bit w :
  w <> 0 -> is_u 64 w -> exists k, 0 <= k < 64 /\ Z.testbit w k = true.
Proof.
  intros Hz Hw. unfold is_u in Hw. exists (Z.log2 w).
  split; [split; [apply Z.log2_nonneg|apply Z.log2_lt_pow2; lia]|]. apply Z.bit_log2. lia.
Qed.

(** A scan for a non-zero word of a bit-defined array decides whether a bit is set. *)
Lemma scan_words_spec n (g : nat -> outcome Z) (f : Z -> bool) :
  (forall i, (i < n)%nat -> exists w, g i = Ok w /\ (is_u 64 w /\
     forall k, 0 <= k < 64 -> Z.testbit w k = f (64 * Z.of_nat i + k))) ->
  exists b, scan (fun i => x ← g i; Ok (negb (x =? 0))) (seq 0 n) = Ok b /\
    (b = true <-> exists j, 0 <= j < 64 * Z.of_nat n /\ f j = true).
Proof.
  intros Hg. exists (existsb (fun i => negb (the (g i) =? 0)) (seq 0 n)). split.
  - apply scan_spec. intros i Hi. apply elem_of_seq in Hi.
    destruct (the_spec _ _ (Hg i ltac:(lia))) as (-> & _). done.
  - rewrite existsb_exists. split.
    + intros (i & Hi & Hz). apply in_seq in Hi. apply negb_true_iff, Z.eqb_neq in Hz.
      destruct (the_spec _ _ (Hg i ltac:(lia))) as (_ & Hu & Hb).
      destruct (nonzero_bit (the (g i))) as (k & Hk & Hkb); [done..|].
      exists (64 * Z.of_nat i + k). rewrite <- Hb by done. split; [lia|done].
    + intros (j & Hj & Hf). destruct (array_bit_split j) as (i & k & -> & Hk); [lia|].
      exists i. split; [apply in_seq; lia|].
      destruct (the_spec _ _ (Hg i ltac:(lia))) as (_ & Hu & Hb).
      rewrite <- Hb in Hf by done. apply negb_true_iff, Z.eqb_neq. intros E.
      rewrite E, Z.bits_0 in Hf. done.
Qed.

Lemma words_all_zero n (f : Z -> bool) r :
  (forall i, (i < n)%nat -> exists w, r i = Ok w /\ (is_u 64 w /\
     forall k, 0 <= k < 64 -> Z.testbit w k = f (64 * Z.of_nat i + k))) ->
  exists b, (b ← scan (fun i => x ← r i; Ok (negb (x =? 0))) (seq 0 n); Ok (negb b)) = Ok b /\
    (b = true <-> forall j, 0 <= j < 64 * Z.of_nat n -> f j = false).
Proof.
  intros H. destruct (scan_words_spec n r f H) as (b & -> & Hb). exists (negb b).
  split; [done|]. rewrite negb_true_iff, <- not_true_iff_false, Hb. split.
  - intros Hn j Hj. apply not_true_is_false. intros E. apply Hn. eauto.
  - intros Ha (j & Hj & E). rewrite Ha in E by done. done.
Qed.

Lemma xor_word_eq x y : negb (x =? y) = negb (Z.lxor x y =? 0).
Proof.
  destruct (Z.eqb_spec x y) as [->|Hne]; [by rewrite Z.lxor_nilpotent|].
  destruct (Z.eqb_spec (Z.lxor x y) 0) as [E|]; [|done]. by apply Z.lxor_eq in E.
Qed.

Lemma scan_ext {A} (p q : A -> outcome bool) l :
  (forall i, p i = q i) -> scan p l = scan q l.
Proof. intros H. induction l as [|i l IH]; [done|]. simpl. by rewrite H, IH. Qed.

(** The tests of equal-sized bitmaps, by bits. *)
Lemma is_empty_bits bm :
  bitmap_ok bm -> exists b, kylin_bitmap_is_empty bm = Ok b /\
    (b = true <-> forall j, 0 <= j < 64 * Z.of_nat (bm_size bm) -> bit bm j = false).
Proof.
  intros H. apply words_all_zero. intros i Hi.
  destruct (bitmap_word bm i) as (w & E & _ & Hu & Hb); [done..|].
  exists w. split; [done|]. split; [done|]. intros k Hk. by rewrite Hb.
Qed.

Lemma is_full_bits bm :
  bitmap_ok bm -> exists b, kylin_bitmap_is_full bm = Ok b /\
    (b = true <-> forall j, 0 <= j < 64 * Z.of_nat (bm_size bm) -> bit bm j = true).
Proof.
  intros H. unfold kylin_bitmap_is_full.
  destruct (words_all_zero (bm_size bm) (fun j => negb (bit bm j))
    (fun i => w ← rd (bm_val bm) i; Ok (u64 (Z.lnot w)))) as (b & E & Hb).
  { intros i Hi. destruct (bitmap_word bm i) as (w & -> & _ & Hu & Hb); [done..|].
    eexists. split; [done|]. split; [apply uw_range; lia|].
    intros k Hk. by rewrite testbit_u64_lnot, Hb. }
  exists b. split.
  - rewrite <- E. f_equal. apply scan_ext. intros i. by destruct (rd _ i).
  - rewrite Hb. split; intros Hj j Hjr; [by apply negb_false_iff, Hj|by rewrite Hj].
Qed.

Lemma is_subset_bits p c :
  bitmap_ok p -> bitmap_ok c -> exists b, kylin_bitmap_is_subset p c = Ok b /\
    (b = true <-> forall j, 0 <= j < 64 * Z.of_nat (Nat.min (bm_size p) (bm_size c)) ->
       bit c j = true -> bit p j = true).
Proof.
  intros Hp Hc. unfold kylin_bitmap_is_subset.
  rewrite (proj2 (Nat.ltb_ge _ _)) by lia.
  destruct (words_all_zero (Nat.min (bm_size p) (bm_size c)) (fun j => bit c j && negb (bit p j))
    (binary_words (fun c p => Z.land c (u64 (Z.lnot p))) c p)) as (b & E & Hb).
  { intros i Hi. destruct (binary_words_spec _ _ c p i bitwise_landnot) as (w & Ew & H); eauto; lia. }
  exists b. split; [done|]. rewrite Hb. split; intros H j Hj.
  - intros Ec. specialize (H j Hj). rewrite Ec in H. by apply negb_false_iff in H.
  - specialize (H j Hj). destruct (bit c j); [by rewrite H|done].
Qed.

Lemma is_intersects_bits s1 s2 :
  bitmap_ok s1 -> bitmap_ok s2 -> exists b, kylin_bitmap_is_intersects s1 s2 = Ok b /\
    (b = true <-> exists j, 0 <= j < 64 * Z.of_nat (Nat.min (bm_size s1) (bm_size s2)) /\
       bit s1 j = true /\ bit s2 j = true).
Proof.
  intros H1 H2. destruct (scan_words_spec (Nat.min (bm_size s1) (bm_size s2))
    (binary_words Z.land s1 s2) (fun j => bit s1 j && bit s2 j)) as (b & E & Hb).
  { intros i Hi. destruct (binary_words_spec _ _ s1 s2 i bitwise_land) as (w & Ew & H); eauto; lia. }
  exists b. split; [done|]. rewrite Hb. by setoid_rewrite andb_true_iff.
Qed.

Lemma is_equal_bits s1 s2 :
  bitmap_ok s1 -> bitmap_ok s2 -> (0 < bm_size s1)%nat -> bm_size s1 = bm_size s2 ->
  exists b, kylin_bitmap_is_equal s1 s2 = Ok b /\ (b = true <-> bm_val s1 = bm_val s2).
Proof.
  intros H1 H2 Hp Hs. unfold kylin_bitmap_is_equal.
  rewrite any_empty_false by (repeat constructor; lia). rewrite Hs, Nat.eqb_refl, <- Hs.
  cbn [orb negb].
  destruct (words_all_zero (bm_size s1) (fun j => xorb (bit s1 j) (bit s2 j))
    (binary_words Z.lxor s1 s2)) as (b & E & Hb).
  { intros i Hi. destruct (binary_words_spec _ _ s1 s2 i bitwise_lxor) as (w & Ew & H); eauto; lia. }
  exists b. split.
  - rewrite <- E. f_equal. apply scan_ext. intros i. unfold binary_words.
    destruct (rd (bm_val s1) i), (rd (bm_val s2) i); cbn [mbind outcome_bind]; try done.
    by rewrite xor_word_eq.
  - rewrite Hb. split.
    + intros Hx. apply list_eq. intros i. destruct (decide (i < bm_size s1)%nat).
      * destruct (bitmap_word s1 i) as (x & _ & -> & Hx1 & Hbx); [done..|].
        destruct (bitmap_word s2 i) as (y & _ & -> & Hy & Hby); [done|lia|]. f_equal.
        apply (u_bits_inj 64); [lia|done..|]. intros k Hk. rewrite <- Hbx, <- Hby by done.
        apply xorb_eq, Hx. lia.
      * destruct H1 as [H1 _], H2 as [H2 _]. by rewrite !lookup_ge_None_2 by lia.
    + intros Hv j _. unfold bit. rewrite Hv. apply xorb_nilpotent.
Qed.

Lemma or_yields dst s1 s2 :
  bitmap_ok dst -> bitmap_ok s1 -> bitmap_ok s2 -> (0 < bm_size dst)%nat ->
  bm_size s1 = bm_size dst -> bm_size s2 = bm_size dst ->
  yields (kylin_bitmap_or dst s1 s2) (bm_size dst) (fun j => bit s1 j || bit s2 j).
Proof.
  intros Hd H1 H2 Pd S1 S2. unfold kylin_bitmap_or.
  rewrite any_empty_false by (repeat constructor; lia).
  rewrite S1, S2, !Nat.max_id, Nat.eqb_refl. cbn [negb].
  destruct (words_loop dst (bm_size dst) (or_word s1 s2) (fun j => bit s1 j || bit s2 j))
    as (bm' & E & Hok & Hsz & Hb); [done|lia| |].
  { intros i Hi. unfold or_word. rewrite !(proj2 (Nat.ltb_lt _ _)) by lia.
    destruct (binary_words_spec _ _ s1 s2 i bitwise_lor) as (w & Ew & H); eauto; lia. }
  exists bm'. repeat split; try done; try apply Hok. intros j Hj. rewrite Hb by done.
  destruct (Z.ltb_spec j (64 * Z.of_nat (bm_size dst))); [done|].
  destruct Hd as [Ld _], H1 as [L1 _], H2 as [L2 _]. unfold bit.
  by rewrite !array_bit_none by lia.
Qed.

Lemma complement_yields dst src :
  bitmap_ok dst -> bitmap_ok src -> (0 < bm_size dst)%nat -> bm_size src = bm_size dst ->
  yields (kylin_bitmap_complement dst src) (bm_size dst)
    (fun j => if j <? 64 * Z.of_nat (bm_size dst) then negb (bit src j) else bit dst j).
Proof.
  intros Hd H1 Pd S1. unfold kylin_bitmap_complement.
  rewrite any_empty_false by (repeat constructor; lia). rewrite S1, Nat.min_id.
  apply (words_loop dst (bm_size dst) _ (fun j => negb (bit src j))); [done|lia|].
  intros i Hi. destruct (bitmap_word src i) as (w & -> & _ & Hu & Hb); [done|lia|].
  eexists. split; [done|]. split; [apply uw_range; lia|].
  intros k Hk. by rewrite testbit_u64_lnot, Hb.
Qed.

(** ** Properties *)

(** C35. [kylin_bitmap_set] sets and [kylin_bitmap_clear] clears exactly the bits
    from [start] up to [range_end start len], and every other bit, the size and
    the well-formedness are kept.  That is the range that was asked for,
    [start .. start+len-1], exactly if it lies in one word, begins at a word or
    ends at one; otherwise [last_bits] bits of the last word are met, too many
    or too few, because the last mask is made of what is left of [len]. *)
Theorem bitmap_set_clear_range bm start len :
  bitmap_ok bm -> 0 <= start -> 0 <= len < 2 ^ 31 ->
  start + len <= 64 * Z.of_nat (bm_size bm) -> start + len + 63 < 2 ^ 32 ->
  yields (kylin_bitmap_set bm start len) (bm_size bm)
    (fun j => ((start <=? j) && (j <? range_end start len)) || bit bm j) /\
  yields (kylin_bitmap_clear bm start len) (bm_size bm)
    (fun j => negb ((start <=? j) && (j <? range_end start len)) && bit bm j) /\
  (range_end start len = start + len <-> start mod 64 + len < 64 \/ start mod 64 = 0 \/ (start + len) mod 64 = 0).
Proof.
  intros Hok Hs Hl Hfit Hwrap. split_and!; [| |apply range_end_exact; lia].
  - destruct (bitmap_range_spec (fun w m => Z.lor w m) true) with bm start len
      as (bm' & E & H1 & H2 & H3); try done.
    { intros. by apply is_u_lor. }
    { intros w m k _ _ _. rewrite Z.lor_spec. destruct (Z.testbit m k), (Z.testbit w k); done. }
    exists bm'. split; [done|]. split; [done|]. split; [done|].
    intros j Hj. rewrite H3 by done. by destruct ((start <=? j) && (j <? range_end start len)).
  - destruct (bitmap_range_spec (fun w m => Z.land w (u64 (Z.lnot m))) false) with bm start len
      as (bm' & E & H1 & H2 & H3); try done.
    { intros. apply bitwise_landnot; done. }
    { intros w m k _ _ Hk. rewrite Z.land_spec, testbit_u64_lnot by done.
      destruct (Z.testbit m k), (Z.testbit w k); done. }
    exists bm'. split; [done|]. split; [done|]. split; [done|].
    intros j Hj. rewrite H3 by done. by destruct ((start <=? j) && (j <? range_end start len)).
Qed.

Definition bitmap_of (ws : list Z) : kbitmap_t :=
  mk_kbitmap (mk_kbitmap_opts (64 * Z.of_nat (length ws)) None) (length ws) ws.

Lemma bitmap_set_clear_range_witness :
  kylin_bitmap_set (bitmap_of [0; 0]) 60 8 = Ok (KYLIN_ERROR_OK, bitmap_of [15 * 2 ^ 60; 2 ^ 64 - 1]) /\
  range_end 60 8 = 128 /\ range_end 64 8 = 72 /\
  yields (kylin_bitmap_set (bitmap_of [0; 0]) 60 8) 2
    (fun j => ((60 <=? j) && (j <? range_end 60 8)) || bit (bitmap_of [0; 0]) j).
Proof.
  split; [vm_compute; reflexivity|]. split; [reflexivity|]. split; [reflexivity|].
  assert (H : bitmap_ok (bitmap_of [0; 0])).
  { split; [reflexivity|]. repeat constructor; unfold is_u; lia. }
  apply (bitmap_set_clear_range (bitmap_of [0; 0]) 60 8 H); simpl; lia.
Defined.

(** 65 bits from 1 on: bit 66 is set as well.  5 bits from 62 on: bits 65 and 66
    are left out. *)
Lemma bitmap_set_wrong_bits :
  kylin_bitmap_set (bitmap_of [0; 0]) 1 65 = Ok (KYLIN_ERROR_OK, bitmap_of [2 ^ 64 - 2; 7]) /\
  kylin_bitmap_set (bitmap_of [0; 0]) 62 5 = Ok (KYLIN_ERROR_OK, bitmap_of [3 * 2 ^ 62; 1]).
Proof. split; vm_compute; reflexivity. Qed.

(** The bounds check is computed in 32 bits and wraps: a [start] in the last
    63 values passes it on any bitmap, and the loop writes far outside the
    array (undefined behaviour instead of [KYLIN_ERROR_INVAL]). *)
Theorem bitmap_set_bounds_check_wraps bm :
  bitmap_ok bm -> Z.of_nat (bm_size bm) <= 2 ^ 25 ->
  kylin_bitmap_set bm (2 ^ 32 - 1) 1 = Ub /\ kylin_bitmap_clear bm (2 ^ 32 - 1) 1 = Ub.
Proof.
  intros [Hl _] Hs.
  assert (Hg : forall upd, bitmap_range upd bm (2 ^ 32 - 1) 1 = Ub); [|split; apply Hg].
  intros upd. unfold bitmap_range.
  change (BITS_TO_WORDS32 (2 ^ 32 - 1)) with 0.
  change (BITS_TO_WORDS32 (u32 (2 ^ 32 - 1 + 1))) with 0.
  rewrite !(proj2 (Z.ltb_ge _ 0)) by lia. cbn [orb].
  change (BITS_PER_WORD - (2 ^ 32 - 1) mod BITS_PER_WORD) with 1.
  change (Z.to_nat (1 / BITS_PER_WORD) + 3)%nat with 3%nat.
  set (idx := Z.to_nat (BITMAP_WORD_INDEX (2 ^ 32 - 1))).
  assert (Hidx : (length (bm_val bm) <= idx)%nat).
  { change (BITMAP_WORD_INDEX (2 ^ 32 - 1)) with 67108863 in idx. lia. }
  cbn [range_words]. change (1 - 1 <? - 2 ^ 31) with false. change (0 <=? 1 - 1) with true.
  unfold rd. by rewrite lookup_ge_None_2.
Qed.

Lemma bitmap_set_bounds_check_wraps_witness :
  Z.of_nat (bm_size (bitmap_of [0])) <= 2 ^ 25 /\
  kylin_bitmap_set (bitmap_of [0]) (2 ^ 32 - 1) 1 = Ub.
Proof.
  split; [simpl; lia|].
  apply (bitmap_set_bounds_check_wraps (bitmap_of [0])); [|simpl; lia].
  split; [reflexivity|]. repeat constructor; unfold is_u; lia.
Defined.

(** The shifts move every bit by [shift] positions, bits that leave the array
    are lost and zeroes come in; a shift past the whole array is refused. *)
Theorem bitmap_shift_bits bm shift :
  bitmap_ok bm -> 0 <= shift ->
  let n := 64 * Z.of_nat (bm_size bm) in
  (shift <= n ->
     yields (kylin_bitmap_shift_right true bm shift) (bm_size bm) (fun j => bit bm (j + shift)) /\
     yields (kylin_bitmap_shift_left true bm shift) (bm_size bm)
       (fun j => (j <? n) && ((shift <=? j) && bit bm (j - shift)))) /\
  (n < shift ->
     kylin_bitmap_shift_right true bm shift = Ok (KYLIN_ERROR_INVAL, bm) /\
     kylin_bitmap_shift_left true bm shift = Ok (KYLIN_ERROR_INVAL, bm)).
Proof.
  intros Hok Hs n. split; intros Hn.
  - split; [apply shift_right_yields|apply shift_left_yields]; done || lia.
  - unfold kylin_bitmap_shift_right, kylin_bitmap_shift_left, BITS_PER_WORD.
    replace (shift_invalid _ _ _) with true; [done|]. symmetry. unfold shift_invalid.
    pose proof (Z.div_mod shift 64 ltac:(lia)). pose proof (Z.mod_pos_bound shift 64 ltac:(lia)).
    destruct (Z.ltb_spec (Z.of_nat (bm_size bm)) (shift / 64)),
      (Z.eqb_spec (shift / 64) (Z.of_nat (bm_size bm))), (Z.eqb_spec (shift mod 64) 0);
      simpl; done || lia.
Qed.

Lemma bitmap_shift_bits_witness :
  kylin_bitmap_shift_left true (bitmap_of [2 ^ 63; 0]) 1 =
    Ok (KYLIN_ERROR_OK, bitmap_of [0; 1]) /\
  yields (kylin_bitmap_shift_right true (bitmap_of [0; 6]) 65) 2
    (fun j => bit (bitmap_of [0; 6]) (j + 65)).
Proof.
  split; [vm_compute; reflexivity|].
  assert (H : bitmap_ok (bitmap_of [0; 6])).
  { split; [reflexivity|]. repeat constructor; unfold is_u; lia. }
  apply (bitmap_shift_bits (bitmap_of [0; 6]) 65 H); simpl; lia.
Defined.

(** On non-empty bitmaps of one size the Boolean operations act bit by bit. *)
Theorem bitmap_boolean_ops dst s1 s2 :
  bitmap_ok dst -> bitmap_ok s1 -> bitmap_ok s2 -> (0 < bm_size dst)%nat ->
  bm_size s1 = bm_size dst -> bm_size s2 = bm_size dst ->
  let n := bm_size dst in
  let inside f := fun j => if j <? 64 * Z.of_nat n then f j else bit dst j in
  yields (kylin_bitmap_and dst s1 s2) n (inside (fun j => bit s1 j && bit s2 j)) /\
  yields (kylin_bitmap_or dst s1 s2) n (fun j => bit s1 j || bit s2 j) /\
  yields (kylin_bitmap_xor dst s1 s2) n (inside (fun j => xorb (bit s1 j) (bit s2 j))) /\
  yields (kylin_bitmap_andnot dst s1 s2) n (inside (fun j => bit s1 j && negb (bit s2 j))) /\
  yields (kylin_bitmap_complement dst s1) n (inside (fun j => negb (bit s1 j))).
Proof.
  intros Hd H1 H2 Pd S1 S2 n inside.
  assert (Hm : Nat.min (bm_size dst) (Nat.min (bm_size s1) (bm_size s2)) = n) by (subst n; lia).
  pose proof (fun f g Hf => bitmap_binary_yields f g dst s1 s2 Hf Hd H1 H2 Pd
    ltac:(lia) ltac:(lia)) as B. rewrite Hm in B.
  split; [apply (B _ _ bitwise_land)|]. split; [by apply or_yields|].
  split; [apply (B _ _ bitwise_lxor)|]. split; [apply (B _ _ bitwise_landnot)|].
  by apply complement_yields.
Qed.

Lemma bitmap_boolean_ops_witness :
  kylin_bitmap_andnot (bitmap_of [0]) (bitmap_of [12]) (bitmap_of [10]) =
    Ok (KYLIN_ERROR_OK, bitmap_of [4]) /\
  yields (kylin_bitmap_or (bitmap_of [0]) (bitmap_of [12]) (bitmap_of [10])) 1
    (fun j => bit (bitmap_of [12]) j || bit (bitmap_of [10]) j).
Proof.
  split; [vm_compute; reflexivity|].
  assert (H : forall w, is_u 64 w -> bitmap_ok (bitmap_of [w])).
  { intros w Hw. split; [reflexivity|]. repeat constructor; apply Hw. }
  apply (bitmap_boolean_ops (bitmap_of [0]) (bitmap_of [12]) (bitmap_of [10]));
    try (apply H; unfold is_u; lia); simpl; lia.
Defined.

(** The tests decide the bit-level relations of equal-sized bitmaps; emptiness
    and fullness look at every bit of the words, also the padding above the
    capacity. *)
Theorem bitmap_tests_decide p c :
  bitmap_ok p -> bitmap_ok c -> (0 < bm_size p)%nat -> bm_size p = bm_size c ->
  let n := 64 * Z.of_nat (bm_size p) in
  (exists b, kylin_bitmap_is_equal p c = Ok b /\ (b = true <-> bm_val p = bm_val c)) /\
  (exists b, kylin_bitmap_is_intersects p c = Ok b /\
     (b = true <-> exists j, 0 <= j < n /\ bit p j = true /\ bit c j = true)) /\
  (exists b, kylin_bitmap_is_subset p c = Ok b /\
     (b = true <-> forall j, 0 <= j < n -> bit c j = true -> bit p j = true)) /\
  (exists b, kylin_bitmap_is_empty p = Ok b /\
     (b = true <-> forall j, 0 <= j < n -> bit p j = false)) /\
  (exists b, kylin_bitmap_is_full p = Ok b /\
     (b = true <-> forall j, 0 <= j < n -> bit p j = true)).
Proof.
  intros Hp Hc Pp S n. split; [by apply is_equal_bits|].
  pose proof (is_intersects_bits p c Hp Hc) as I. pose proof (is_subset_bits p c Hp Hc) as U.
  rewrite <- S, Nat.min_id in I, U. split; [exact I|]. split; [exact U|].
  split; [by apply is_empty_bits|by apply is_full_bits].
Qed.

Lemma bitmap_tests_decide_witness :
  kylin_bitmap_is_subset (bitmap_of [14]) (bitmap_of [10]) = Ok true /\
  exists b, kylin_bitmap_is_full (bitmap_of [14]) = Ok b /\
    (b = true <-> forall j, 0 <= j < 64 * 1 -> bit (bitmap_of [14]) j = true).
Proof.
  split; [vm_compute; reflexivity|].
  assert (H : forall w, is_u 64 w -> bitmap_ok (bitmap_of [w])).
  { intros w Hw. split; [reflexivity|]. repeat constructor; apply Hw. }
  apply (bitmap_tests_decide (bitmap_of [14]) (bitmap_of [10]));
    try (apply H; unfold is_u; lia); simpl; lia.
Defined.
