(* ===== verification/Dump.v ===== *)
(** * Hex dumps, version numbers and identifiers ([lib/core/utils/kylin_hexdump.c],
    [include/utils/kylin_version.h], [lib/core/math/kylin_autoid.c])

    A text is a list of characters.  The buffer for a line is an array of 128
    bytes that [snprintf] writes into; what goes to the file is kept in
    order. *)

From S2P Require Import Prelude Errors Bytes Bitops Bitmap.

Definition LINE_LEN : Z := 128.

(** ** Numbers in text *)
Definition hex_digit (upper : bool) (d : Z) : Z := if d <? 10 then 48 + d else if upper then 55 + d else 87 + d.
(** "%0nX" and "%0nx" of a number of [n] digits. *)
Fixpoint hex_fixed (upper : bool) (n : nat) (z : Z) : list Z :=
  match n with O => [] | S n => hex_fixed upper n (z / 16) ++ [hex_digit upper (z mod 16)] end.
(** "%u" *)
Fixpoint dec_digits (fuel : nat) (z : Z) : list Z :=
  match fuel with O => [] | S fuel => (if z <? 10 then [] else dec_digits fuel (z / 10)) ++ [48 + z mod 10] end.
Definition dec_text (z : Z) : list Z := dec_digits 10 z.

(** What "%s" prints of an array: up to its first zero. *)
Fixpoint string_at (bs : list Z) : outcome (list Z) :=
  match bs with [] => Ub | c :: bs => if c =? 0 then Ok [] else s ← string_at bs; Ok (c :: s) end.

Record hst := mk_hst { file : list Z; line : list Z; out : Z }.

Definition lift {A} (o : outcome A) : M hst A := fun s =>
  match o with Ok a => Ok (a, s) | Ub => Ub | OutOfFuel => OutOfFuel end.
Definition fprintf (t : list Z) : M hst unit := fun s => Ok (tt, mk_hst (file s ++ t) (line s) (out s)).
Definition set_out (n : Z) : M hst unit := fun s => Ok (tt, mk_hst (file s) (line s) (u32 n)).

(** [snprintf(line + out, LINE_LEN - out, ...)]: the length of the whole text,
    of which what fits is stored. *)
Definition snprintf (t : list Z) : M hst Z := fun s =>
  let size := u32 (LINE_LEN - out s) in
  if size =? 0 then Ok (Z.of_nat (length t), s) else
  l ← write_bytes (line s) (out s) (take (Z.to_nat (size - 1)) t ++ [0]);
  Ok (Z.of_nat (length t), mk_hst (file s) l (out s)).
(** [out += snprintf(...)] *)
Definition add_text (t : list Z) : M hst unit := n ← snprintf t; s ← get_st; set_out (out s + n).
(** [fprintf(f, "%s", line)] *)
Definition put_line : M hst unit := s ← get_st; t ← lift (string_at (line s)); fprintf t.

Section Dump.
Context (data : list Z) (len : Z).

Definition byte_at (i : Z) : M hst Z := deref (data !! Z.to_nat i).

(** ** [kylin_hexdump] *)
Fixpoint hex_loop (fuel : nat) (ofs i : Z) : M hst Z :=
  match fuel with
  | O => out_of_fuel
  | S fuel =>
      if (u32 (ofs + i) <? len) && (i <? 16) then
        c ← byte_at (u32 (ofs + i));
        _ ← add_text (32 :: hex_fixed true 2 (Z.land c 0xff));
        hex_loop fuel ofs (u32 (i + 1))
      else mret i
  end.

Fixpoint pad_loop (fuel : nat) (i : Z) : M hst unit :=
  match fuel with
  | O => out_of_fuel
  | S fuel => if i <=? 16 then _ ← add_text [32; 124; 32]; pad_loop fuel (u32 (i + 1)) else mret tt
  end.

Definition printable (c : Z) : Z := if (c <? 32) || (126 <? c) then 46 else c.

Fixpoint text_loop (fuel : nat) (ofs i : Z) : M hst Z :=
  match fuel with
  | O => out_of_fuel
  | S fuel =>
      if (ofs <? len) && (i <? 16) then
        c ← byte_at ofs;
        _ ← add_text [printable c];
        text_loop fuel (u32 (ofs + 1)) (u32 (i + 1))
      else mret ofs
  end.

Definition one_line (ofs : Z) : M hst Z :=
  _ ← set_out 0;
  _ ← add_text (hex_fixed true 8 ofs ++ [58]);
  i ← hex_loop 17 ofs 0;
  _ ← pad_loop 18 i;
  ofs ← text_loop 17 ofs 0;
  _ ← put_line;
  _ ← fprintf [10];
  mret ofs.

(** [while(ofs < len)]; the fuel is the number of lines. *)
Fixpoint line_loop (fuel : nat) (ofs : Z) : M hst unit :=
  match fuel with
  | O => out_of_fuel
  | S fuel => if ofs <? len then ofs ← one_line ofs; line_loop fuel ofs else mret tt
  end.

(** "  Dump data" *)
Definition default_title : list Z := [32; 32; 68; 117; 109; 112; 32; 100; 97; 116; 97].
(** "%s at [%p], len=%u\n"; [addr] is what "%p" prints. *)
Definition dump_header (title : option (list Z)) (addr : list Z) : list Z :=
  default default_title title ++ [32; 97; 116; 32; 91] ++ addr ++ [93; 44; 32; 108; 101; 110; 61] ++ dec_text len ++ [10].

Definition kylin_hexdump (title : option (list Z)) (addr : list Z) : M hst unit :=
  _ ← fprintf (dump_header title addr);
  line_loop (S (Z.to_nat len)) 0.

(** ** [rte_memdump] *)
Definition clear_line : M hst unit := fun s =>
  l ← wr (line s) 0 0; Ok (tt, mk_hst (file s) l 0).

Fixpoint mem_loop (fuel : nat) (i : Z) : M hst unit :=
  match fuel with
  | O => out_of_fuel
  | S fuel =>
      if i <? len then
        s ← get_st;
        _ ← (if LINE_LEN - 4 <=? out s then _ ← put_line; clear_line else mret tt);
        c ← byte_at i;
        _ ← add_text (hex_fixed false 2 (Z.land c 0xff) ++ (if u32 (i + 1) <? len then [58] else []));
        mem_loop fuel (u32 (i + 1))
      else mret tt
  end.

Definition rte_memdump (title : option (list Z)) : M hst unit :=
  _ ← match title with Some t => fprintf (t ++ [58; 32]) | None => mret tt end;
  _ ← clear_line;
  _ ← mem_loop (S (Z.to_nat len)) 0;
  s ← get_st;
  _ ← (if 0 <? out s then put_line else mret tt);
  fprintf [10].
End Dump.

(** ** Versions *)
(** The bytes of an [int]. *)
Definition KYLIN_VERSION_MAJOR (version : Z) : Z := u8 (Z.shiftr version 16).
Definition KYLIN_VERSION_MINOR (version : Z) : Z := u8 (Z.shiftr version 8).
Definition KYLIN_VERSION_BUILD (version : Z) : Z := u8 version.
Definition KYLIN_VERSION_VALUE (major minor build : Z) : Z :=
  u32 (u32 (u32 (Z.shiftl (u32 major) 16) + Z.shiftl (u16 minor) 8) + u16 build).

(** "RELEASE", "BETA", "ALPHA" and "UNKNOWN" *)
Definition KYLIN_VERSION_TYPE_ALPHA : Z := 1.
Definition KYLIN_VERSION_TYPE_BETA : Z := 2.
Definition KYLIN_VERSION_TYPE_RELEASE : Z := 3.
Definition kylin_version_type (type : Z) : list Z :=
  if type =? KYLIN_VERSION_TYPE_RELEASE then [82; 69; 76; 69; 65; 83; 69]
  else if type =? KYLIN_VERSION_TYPE_BETA then [66; 69; 84; 65]
  else if type =? KYLIN_VERSION_TYPE_ALPHA then [65; 76; 80; 72; 65]
  else [85; 78; 75; 78; 79; 87; 78].

(** ** Identifiers *)
Record kautoid_t := mk_kautoid { max_id : Z; index : kbitmap_t }.

(** [kylin_malloc] zeroes the structure; [malloc_ok] and [bitmap_ok] say
    whether the two allocations succeed. *)
Definition kylin_autoid_create (malloc_ok bitmap_ok : bool) (max : Z) : outcome (option kautoid_t) :=
  if negb malloc_ok then Ok None else
  max_id ← (if negb (kylin_is_pow_of_two (u16 max)) then r ← kylin_roundup_pow_of_two (u16 max); Ok (u32 r) else Ok 0);
  match kylin_bitmap_create bitmap_ok (mk_kbitmap_opts max_id None) with
  | inl _ => Ok None
  | inr bm => Ok (Some (mk_kautoid max_id bm))
  end.

(** The bitmap is there unless its creation failed; [free_bitmap] and [free] are
    [kylin_free] of the two objects. *)
Definition kylin_autoid_destroy {S} (free_bitmap : kbitmap_t -> M S unit) (free : kautoid_t -> M S unit) (has_index : bool)
    (guard : kautoid_t) : M S unit :=
  _ ← (if has_index then kylin_bitmap_destroy None free_bitmap (index guard) else mret tt); free guard.
Definition kylin_autoid_clear (guard : kautoid_t) : kautoid_t := guard.
(** Five functions with empty bodies: to use what they return is undefined. *)
Definition no_value : outcome Z := Ub.
Definition kylin_autoid_total_count (guard : kautoid_t) : outcome Z := no_value.
Definition kylin_autoid_unset_count (guard : kautoid_t) : outcome Z := no_value.
Definition kylin_autoid_get (guard : kautoid_t) : outcome Z := no_value.
Definition kylin_autoid_put (guard : kautoid_t) (id : Z) : outcome Z := no_value.
Definition kylin_autoid_set (guard : kautoid_t) (id : Z) : outcome Z := no_value.

(** ** The line buffer *)

(** The buffer holds the text [t], and [out] is its length. *)
Definition holds (t : list Z) (s : hst) : Prop :=
  exists rest, line s = t ++ 0 :: rest /\ length (line s) = 128%nat /\ out s = Z.of_nat (length t).

(** The step [f] appends [t] to the text and returns [x]. *)
Definition appends {A} (f : M hst A) (x : A) (t : list Z) (s : hst) : Prop :=
  exists s', f s = Ok (x, s') /\ file s' = file s /\ forall t0, holds t0 s -> holds (t0 ++ t) s'.

Lemma add_text_ok t t0 s : holds t0 s -> (length t0 + length t < 128)%nat ->
  exists s', add_text t s = Ok (tt, s') /\ file s' = file s /\ holds (t0 ++ t) s'.
Proof.
  intros (rest & Hl & Hn & Ho) Hf. unfold add_text.
  assert (E : snprintf t s = Ok (Z.of_nat (length t), mk_hst (file s) ((t0 ++ t) ++ 0 :: drop (length t) rest) (out s))).
  { unfold snprintf. rewrite uw_id by (unfold is_u, LINE_LEN; lia). cbv zeta.
    rewrite (proj2 (Z.eqb_neq _ _)) by (unfold LINE_LEN; lia).
    rewrite take_ge by (unfold LINE_LEN; lia).
    rewrite write_bytes_ok by (rewrite ?length_app; simpl; lia). cbn [mbind outcome_bind]. do 3 f_equal.
    rewrite Ho, Nat2Z.id, Hl. unfold splice. rewrite take_app_length.
    rewrite <- !app_assoc. f_equal. f_equal. simpl. f_equal.
    rewrite length_app. simpl. rewrite drop_app_ge by lia.
    replace (length t0 + (length t + 1) - length t0)%nat with (S (length t)) by lia. done. }
  run E. eexists. split; [reflexivity|]. split; [done|]. exists (drop (length t) rest). simpl. split; [done|].
  assert (length rest = 127 - length t0)%nat by (rewrite Hl, length_app in Hn; simpl in Hn; lia).
  split; [rewrite !length_app; simpl; rewrite length_drop; lia|].
  rewrite Ho, length_app. rewrite uw_id by (unfold is_u; lia). lia.
Qed.

Lemma dump_text_ok t rest : Forall (fun c => c <> 0) t -> string_at (t ++ 0 :: rest) = Ok t.
Proof.
  induction 1 as [|c t Hc _ IH]; [done|]. cbn [app string_at]. rewrite (proj2 (Z.eqb_neq _ _)) by done. by rewrite IH.
Qed.

Lemma put_line_ok t s : holds t s -> Forall (fun c => c <> 0) t ->
  put_line s = Ok (tt, mk_hst (file s ++ t) (line s) (out s)).
Proof.
  intros (rest & Hl & _ & _) Ht. unfold put_line.
  run (eq_refl : get_st s = Ok (s, s)).
  assert (E : lift (string_at (line s)) s = Ok (t, s)) by (unfold lift; by rewrite Hl, dump_text_ok).
  by run E.
Qed.

Lemma length_hex u n : forall z, length (hex_fixed u n z) = n.
Proof. induction n as [|n IH]; intros z; [done|]. cbn [hex_fixed]. rewrite length_app, IH. simpl. lia. Qed.
Lemma hex_digit_pos u d : 0 <= d -> hex_digit u d <> 0.
Proof. unfold hex_digit. intros H. destruct (d <? 10), u; lia. Qed.
Lemma hex_no_zero u n : forall z, Forall (fun c => c <> 0) (hex_fixed u n z).
Proof.
  induction n as [|n IH]; intros z; [constructor|]. cbn [hex_fixed]. apply Forall_app. split; [apply IH|].
  repeat constructor. apply hex_digit_pos. apply Z.mod_pos_bound. lia.
Qed.

(** ** The lines *)
Definition hex_of (c : Z) : list Z := 32 :: hex_fixed true 2 (Z.land c 0xff).
Definition dump_line (ofs : nat) (chunk : list Z) : list Z :=
  hex_fixed true 8 (Z.of_nat ofs) ++ [58] ++ concat (map hex_of chunk) ++
  concat (replicate (17 - length chunk) [32; 124; 32]) ++ map printable chunk.

Lemma length_concat_hex l : length (concat (map hex_of l)) = (3 * length l)%nat.
Proof.
  induction l as [|c l IH]; [done|]. cbn [map concat]. rewrite length_app, IH. unfold hex_of. cbn [length].
  rewrite length_hex. lia.
Qed.

Lemma pad_loop_ok n : forall fuel i t s, (i + n = 17)%nat -> (n < fuel)%nat -> holds t s -> (length t + 3 * n < 128)%nat ->
  exists s', pad_loop fuel (Z.of_nat i) s = Ok (tt, s') /\ file s' = file s /\
    holds (t ++ concat (replicate n [32; 124; 32])) s'.
Proof.
  induction n as [|n IH]; intros fuel i t s Hi Hf Ht Hb; (destruct fuel as [|fuel]; [lia|]); cbn [pad_loop].
  - rewrite (proj2 (Z.leb_gt _ _)) by lia. exists s. simpl. by rewrite app_nil_r.
  - rewrite (proj2 (Z.leb_le _ _)) by lia.
    destruct (add_text_ok [32; 124; 32] t s Ht) as (s1 & E1 & F1 & H1); [simpl; lia|]. run E1.
    rewrite uw_id by (unfold is_u; lia). replace (Z.of_nat i + 1) with (Z.of_nat (S i)) by lia.
    destruct (IH fuel (S i) (t ++ [32; 124; 32]) s1) as (s2 & E2 & F2 & H2); [lia|lia|exact H1|rewrite length_app; simpl; lia|].
    exists s2. split; [exact E2|]. split; [congruence|]. by rewrite <- app_assoc in H2.
Qed.

(** A state whose buffer is an array of 128 bytes. *)
Definition buffered (s : hst) : Prop := length (line s) = 128%nat.
Lemma holds_buffered t s : holds t s -> buffered s.
Proof. by intros (? & _ & H & _). Qed.

Lemma add_first t s : buffered s -> (length t < 128)%nat ->
  exists s', (_ ← set_out 0; add_text t) s = Ok (tt, s') /\ file s' = file s /\ holds t s'.
Proof.
  intros Hb Ht. set (s0 := mk_hst (file s) (line s) 0). run (eq_refl : set_out 0 s = Ok (tt, s0)).
  assert (E : snprintf t s0 = Ok (Z.of_nat (length t), mk_hst (file s) (t ++ 0 :: drop (S (length t)) (line s)) 0)).
  { unfold snprintf. cbn [out line file s0]. rewrite uw_id by (unfold is_u, LINE_LEN; lia). cbv zeta.
    change (LINE_LEN - 0 =? 0) with false. cbv iota. change (Z.to_nat (LINE_LEN - 0 - 1)) with 127%nat.
    rewrite take_ge by lia. rewrite write_bytes_ok by (rewrite ?length_app; simpl; unfold buffered in Hb; lia).
    cbn [mbind outcome_bind]. do 3 f_equal. unfold splice. simpl. rewrite <- app_assoc, length_app. simpl.
    by rewrite Nat.add_1_r. }
  unfold add_text. run E. eexists. split; [reflexivity|]. split; [done|].
  exists (drop (S (length t)) (line s)). simpl. split; [done|]. split.
  - rewrite length_app. simpl. rewrite length_drop. unfold buffered in Hb. lia.
  - rewrite uw_id by (unfold is_u; lia). lia.
Qed.
Lemma printable_pos c : printable c <> 0.
Proof. unfold printable. destruct (Z.ltb_spec c 32); [done|]. simpl. destruct (Z.ltb_spec 126 c); lia. Qed.

Lemma dump_line_no_zero ofs l : Forall (fun c => c <> 0) (dump_line ofs l).
Proof.
  unfold dump_line. rewrite !Forall_app. split_and!.
  - apply hex_no_zero.
  - by repeat constructor.
  - apply Forall_concat, Forall_map, Forall_true. intros c. constructor; [done|apply hex_no_zero].
  - apply Forall_concat, Forall_replicate. by repeat constructor.
  - apply Forall_map, Forall_true. apply printable_pos.
Qed.

Section Lines.
Context (data : list Z).
Abbreviation len := (Z.of_nat (length data)).
Context (Hlen : len < 2 ^ 32).

Lemma dump_byte_ok i c s : data !! i = Some c -> byte_at data (Z.of_nat i) s = Ok (c, s).
Proof using Type. intros H. unfold byte_at. by rewrite Nat2Z.id, H. Qed.

Lemma drop_next i c rest : drop i data = c :: rest -> data !! i = Some c /\ drop (S i) data = rest /\ (i < length data)%nat.
Proof using Type.
  intros H. assert (Hc : data !! i = Some c) by (by rewrite <- (Nat.add_0_r i), <- lookup_drop, H).
  split; [exact Hc|]. split; [|by apply lookup_lt_Some in Hc]. by rewrite <- Nat.add_1_r, <- drop_drop, H.
Qed.

Lemma hex_loop_ok n : forall fuel i ofs t s, (i + n = 16)%nat -> (n < fuel)%nat -> (ofs + i <= length data)%nat ->
  holds t s -> (length t + 3 * n < 128)%nat ->
  exists s', hex_loop data len fuel (Z.of_nat ofs) (Z.of_nat i) s = Ok (Z.of_nat (i + length (take n (drop (ofs + i) data))), s') /\
    file s' = file s /\ holds (t ++ concat (map hex_of (take n (drop (ofs + i) data)))) s'.
Proof using Hlen.
  induction n as [|n IH]; intros fuel i ofs t s Hi Hf Ho Ht Hb; (destruct fuel as [|fuel]; [lia|]); cbn [hex_loop].
  - rewrite (proj2 (Z.ltb_ge (Z.of_nat i) 16)), andb_false_r by lia. exists s. simpl. rewrite Nat.add_0_r, app_nil_r. done.
  - rewrite (proj2 (Z.ltb_lt (Z.of_nat i) 16)), andb_true_r by lia.
    destruct (drop (ofs + i) data) as [|c rest] eqn:Hd.
    + assert (length data = ofs + i)%nat by (apply (f_equal length) in Hd; rewrite length_drop in Hd; simpl in Hd; lia).
      rewrite (proj2 (Z.ltb_ge _ _)); [|].
      * exists s. simpl. by rewrite Nat.add_0_r, app_nil_r.
      * rewrite uw_id by (unfold is_u; lia). lia.
    + apply drop_next in Hd as (Hc & Hr & Hlt). rewrite <- Nat2Z.inj_add.
      rewrite uw_id by (unfold is_u; lia). rewrite (proj2 (Z.ltb_lt _ _)) by lia.
      run (dump_byte_ok _ _ s Hc). fold (hex_of c).
      destruct (add_text_ok (hex_of c) t s Ht) as (s1 & E1 & F1 & H1); [unfold hex_of; cbn [length]; rewrite length_hex; lia|].
      run E1. rewrite uw_id by (unfold is_u; lia). replace (Z.of_nat i + 1) with (Z.of_nat (S i)) by lia.
      destruct (IH fuel (S i) ofs (t ++ hex_of c) s1) as (s2 & E2 & F2 & H2); [lia|lia|lia|exact H1| |].
      { rewrite length_app. unfold hex_of. cbn [length]. rewrite length_hex. lia. }
      rewrite Nat.add_succ_r, Hr in E2, H2. exists s2. cbn [take map concat length]. split; [|split; [congruence|]].
      * rewrite E2. do 2 f_equal. lia.
      * by rewrite app_assoc.
Qed.
Lemma text_loop_ok n : forall fuel i ofs t s, (i + n = 16)%nat -> (n < fuel)%nat -> (ofs <= length data)%nat ->
  holds t s -> (length t + n < 128)%nat ->
  exists s', text_loop data len fuel (Z.of_nat ofs) (Z.of_nat i) s = Ok (Z.of_nat (ofs + length (take n (drop ofs data))), s') /\
    file s' = file s /\ holds (t ++ map printable (take n (drop ofs data))) s'.
Proof using Hlen.
  induction n as [|n IH]; intros fuel i ofs t s Hi Hf Ho Ht Hb; (destruct fuel as [|fuel]; [lia|]); cbn [text_loop].
  - rewrite (proj2 (Z.ltb_ge (Z.of_nat i) 16)), andb_false_r by lia. exists s. simpl. by rewrite Nat.add_0_r, app_nil_r.
  - rewrite (proj2 (Z.ltb_lt (Z.of_nat i) 16)), andb_true_r by lia.
    destruct (drop ofs data) as [|c rest] eqn:Hd.
    + assert (length data <= ofs)%nat by (apply (f_equal length) in Hd; rewrite length_drop in Hd; simpl in Hd; lia).
      rewrite (proj2 (Z.ltb_ge _ _)) by lia. exists s. simpl. by rewrite Nat.add_0_r, app_nil_r.
    + apply drop_next in Hd as (Hc & Hr & Hlt). rewrite (proj2 (Z.ltb_lt _ _)) by lia.
      run (dump_byte_ok _ _ s Hc).
      destruct (add_text_ok [printable c] t s Ht) as (s1 & E1 & F1 & H1); [simpl; lia|]. run E1.
      rewrite !uw_id by (unfold is_u; lia). replace (Z.of_nat i + 1) with (Z.of_nat (S i)) by lia.
      replace (Z.of_nat ofs + 1) with (Z.of_nat (S ofs)) by lia.
      destruct (IH fuel (S i) (S ofs) (t ++ [printable c]) s1) as (s2 & E2 & F2 & H2);
        [lia|lia|lia|exact H1|rewrite length_app; simpl; lia|].
      rewrite Hr in E2, H2. exists s2. cbn [take map length]. split; [|split; [congruence|]].
      * rewrite E2. do 2 f_equal. lia.
      * by rewrite <- app_assoc in H2.
Qed.

Definition chunk (ofs : nat) : list Z := take 16 (drop ofs data).
Lemma length_chunk ofs : length (chunk ofs) = (16 `min` (length data - ofs))%nat.
Proof using Type. unfold chunk. by rewrite length_take, length_drop. Qed.

Lemma one_line_ok ofs s : (ofs < length data)%nat -> buffered s ->
  exists s', one_line data len (Z.of_nat ofs) s = Ok (Z.of_nat (ofs + length (chunk ofs)), s') /\
    file s' = file s ++ dump_line ofs (chunk ofs) ++ [10] /\ buffered s'.
Proof using Hlen.
  intros Ho Hb. unfold one_line. pose proof (length_chunk ofs) as Hc. set (k := length (chunk ofs)) in *.
  set (h := hex_fixed true 8 (Z.of_nat ofs) ++ [58]).
  assert (Lh : length h = 9%nat) by (unfold h; by rewrite length_app, length_hex).
  destruct (add_first h s Hb) as (s1 & E1 & F1 & H1); [lia|].
  assert (E1' : set_out 0 s = Ok (tt, mk_hst (file s) (line s) 0)) by done. run E1'.
  rewrite (bind_Ok _ _ _ _ _ E1') in E1. cbv beta in E1. run E1.
  destruct (hex_loop_ok 16 17 0 ofs h s1) as (s2 & E2 & F2 & H2); [lia|lia|lia|exact H1|lia|].
  rewrite Nat.add_0_r in E2, H2. fold (chunk ofs) in E2, H2. fold k in E2. run E2.
  assert (L2 : length (h ++ concat (map hex_of (chunk ofs))) = (9 + 3 * k)%nat) by (by rewrite length_app, length_concat_hex, Lh).
  destruct (pad_loop_ok (17 - k) 18 k (h ++ concat (map hex_of (chunk ofs))) s2) as (s3 & E3 & F3 & H3); [lia|lia|exact H2|lia|]. run E3.
  set (t3 := (h ++ concat (map hex_of (chunk ofs))) ++ concat (replicate (17 - k) [32; 124; 32])) in *.
  destruct (text_loop_ok 16 17 0 ofs t3 s3) as (s4 & E4 & F4 & H4); [lia|lia|lia|exact H3| |].
  { unfold t3. rewrite length_app, L2. assert (Lp : forall n, length (concat (replicate n [32; 124; 32])) = (3 * n)%nat).
    { intros n. induction n as [|n IH]; [done|]. cbn [replicate concat]. rewrite length_app, IH. simpl. lia. }
    rewrite Lp. lia. }
  fold (chunk ofs) in E4, H4. fold k in E4. run E4.
  assert (Ht : t3 ++ map printable (chunk ofs) = dump_line ofs (chunk ofs)) by (unfold t3, dump_line, h; by rewrite <- !app_assoc).
  rewrite Ht in H4. rewrite (bind_Ok _ _ _ _ _ (put_line_ok _ _ H4 ltac:(apply dump_line_no_zero))). cbv beta.
  eexists. split; [reflexivity|]. simpl. split; [|exact (holds_buffered _ _ H4)].
  rewrite F4, F3, F2, F1. by rewrite <- app_assoc.
Qed.

Definition line_count : nat := ((length data + 15) / 16)%nat.
Definition line_text (k : nat) : list Z := dump_line (16 * k) (chunk (16 * k)) ++ [10].

Lemma line_loop_ok m : forall fuel k s, (k + m = line_count)%nat -> (m < fuel)%nat -> buffered s ->
  exists s', line_loop data len fuel (Z.of_nat ((16 * k) `min` length data)) s = Ok (tt, s') /\
    file s' = file s ++ concat (map line_text (seq k m)).
Proof using Hlen.
  unfold line_count. pose proof (Nat.div_mod_eq (length data + 15) 16). pose proof (Nat.mod_upper_bound (length data + 15) 16 ltac:(lia)).
  generalize dependent ((length data + 15) / 16)%nat. intros q Hq. induction m as [|m IH]; intros fuel k s Hk Hf Hb; (destruct fuel as [|fuel]; [lia|]); cbn [line_loop].
  - rewrite (proj2 (Z.ltb_ge _ _)) by lia. exists s. simpl. by rewrite app_nil_r.
  - assert (16 * k < length data)%nat by lia. rewrite Nat.min_l by lia. rewrite (proj2 (Z.ltb_lt _ _)) by lia.
    destruct (one_line_ok (16 * k) s) as (s1 & E1 & F1 & B1); [lia|exact Hb|]. run E1.
    replace (16 * k + length (chunk (16 * k)))%nat with ((16 * S k) `min` length data)%nat by (rewrite length_chunk; lia).
    destruct (IH fuel (S k) s1) as (s2 & E2 & F2); [lia|lia|exact B1|]. exists s2. split; [exact E2|].
    cbn [seq map concat]. rewrite F2, F1. unfold line_text. by rewrite <- !app_assoc.
Qed.
End Lines.

(** C36. A hex dump prints its header and, of every sixteen bytes in order, one
    line: the offset in eight digits, the bytes in two digits each, bars in place
    of those that are missing and one more, and the printable characters.  The
    line never outgrows its buffer. *)
Theorem hexdump_lines data title addr s : Z.of_nat (length data) < 2 ^ 32 -> length (line s) = 128%nat ->
  exists s', kylin_hexdump data (Z.of_nat (length data)) title addr s = Ok (tt, s') /\
    file s' = file s ++ dump_header (Z.of_nat (length data)) title addr ++
      concat (map (line_text data) (seq 0 ((length data + 15) / 16))).
Proof.
  intros Hl Hb. unfold kylin_hexdump.
  assert (Hc : (line_count data <= length data)%nat).
  { unfold line_count. pose proof (Nat.div_mod_eq (length data + 15) 16). pose proof (Nat.mod_upper_bound (length data + 15) 16 ltac:(lia)). lia. }
  set (h := dump_header _ title addr).
  run (eq_refl : fprintf h s = Ok (tt, mk_hst (file s ++ h) (line s) (out s))).
  destruct (line_loop_ok data Hl (line_count data) (S (Z.to_nat (Z.of_nat (length data)))) 0
    (mk_hst (file s ++ h) (line s) (out s))) as (s' & E & F); [done|lia|exact Hb|].
  exists s'. split; [exact E|]. rewrite F. simpl. by rewrite <- app_assoc.
Qed.

(** ** The plain dump *)
Lemma clear_line_ok s : buffered s -> exists s', clear_line s = Ok (tt, s') /\ file s' = file s /\ holds [] s'.
Proof.
  intros Hb. unfold clear_line, wr, buffered in *. rewrite (proj2 (Nat.ltb_lt _ _)) by lia. cbn [mbind outcome_bind].
  eexists. split; [reflexivity|]. split; [done|]. destruct (line s) as [|c rest] eqn:E; [done|]. by exists rest.
Qed.

(** Making room for the next item. *)
Definition flush : M hst unit :=
  s ← get_st; if LINE_LEN - 4 <=? out s then _ ← put_line; clear_line else mret tt.

Lemma flush_ok t s : holds t s -> Forall (fun c => c <> 0) t ->
  exists s' done rest, flush s = Ok (tt, s') /\ t = done ++ rest /\ file s' = file s ++ done /\ holds rest s' /\
    (length rest < 124)%nat /\ Forall (fun c => c <> 0) rest.
Proof.
  intros Ht Hz. unfold flush. run (eq_refl : get_st s = Ok (s, s)).
  assert (Ho : out s = Z.of_nat (length t)) by (destruct Ht as (? & _ & _ & ?); done). rewrite Ho.
  change (LINE_LEN - 4) with 124. destruct (Z.leb_spec 124 (Z.of_nat (length t))).
  - run (put_line_ok t s Ht Hz).
    destruct (clear_line_ok (mk_hst (file s ++ t) (line s) (out s)) (holds_buffered _ _ Ht)) as (s' & E & F & H').
    exists s', t, []. rewrite app_nil_r. by repeat split; [exact E|..|simpl; lia|constructor].
  - exists s, [], t. rewrite app_nil_r. repeat split; [done|lia|done].
Qed.

Section MemDump.
Context (data : list Z).
Abbreviation len := (Z.of_nat (length data)).
Context (Hlen : len < 2 ^ 32).

Definition item (i : nat) (c : Z) : list Z :=
  hex_fixed false 2 (Z.land c 0xff) ++ (if Z.of_nat (S i) <? len then [58] else []).
Definition items (i : nat) (l : list Z) : list Z := concat (imap (fun j c => item (i + j) c) l).

Lemma items_cons i c l : items i (c :: l) = item i c ++ items (S i) l.
Proof using Type.
  unfold items. rewrite imap_cons. cbn [concat]. rewrite Nat.add_0_r. f_equal. f_equal. apply imap_ext.
  intros j x _. simpl. by rewrite Nat.add_succ_r.
Qed.
Lemma length_item i c : (length (item i c) <= 3)%nat.
Proof using Type. unfold item. rewrite length_app, length_hex. destruct (_ <? _); simpl; lia. Qed.
Lemma item_no_zero i c : Forall (fun c => c <> 0) (item i c).
Proof using Type.
  unfold item. rewrite Forall_app. split; [apply hex_no_zero|]. destruct (_ <? _); repeat constructor. done.
Qed.

Lemma mem_loop_ok l : forall fuel i t s, drop i data = l -> (length l < fuel)%nat -> holds t s ->
  Forall (fun c => c <> 0) t ->
  exists s' t', mem_loop data len fuel (Z.of_nat i) s = Ok (tt, s') /\ holds t' s' /\ Forall (fun c => c <> 0) t' /\
    file s' ++ t' = file s ++ t ++ items i l.
Proof using Hlen.
  induction l as [|c l IH]; intros fuel i t s Hd Hf Ht Hz; (destruct fuel as [|fuel]; [simpl in Hf; lia|]); cbn [mem_loop].
  - assert (length data <= i)%nat by (apply (f_equal length) in Hd; rewrite length_drop in Hd; simpl in Hd; lia).
    rewrite (proj2 (Z.ltb_ge _ _)) by lia. exists s, t. split; [done|]. split; [done|]. split; [done|].
    by rewrite app_nil_r.
  - apply drop_next in Hd as (Hc & Hr & Hlt). rewrite (proj2 (Z.ltb_lt _ _)) by lia.
    destruct (flush_ok t s Ht Hz) as (s1 & d & t1 & E1 & -> & F1 & H1 & L1 & Z1).
    unfold flush in E1. run (eq_refl : get_st s = Ok (s, s)). rewrite (bind_Ok _ _ _ _ _ (eq_refl : get_st s = Ok (s, s))) in E1.
    cbv beta in E1. run E1. run (dump_byte_ok data i c s1 Hc).
    rewrite !uw_id by (unfold is_u; lia). replace (Z.of_nat i + 1) with (Z.of_nat (S i)) by lia. fold (item i c).
    destruct (add_text_ok (item i c) t1 s1 H1) as (s2 & E2 & F2 & H2); [pose proof (length_item i c); lia|]. run E2.
    destruct (IH fuel (S i) (t1 ++ item i c) s2 Hr) as (s3 & t3 & E3 & H3 & Z3 & F3);
      [simpl in Hf; lia|exact H2|apply Forall_app; split; [done|apply item_no_zero]|].
    exists s3, t3. split; [exact E3|]. split; [exact H3|]. split; [exact Z3|].
    rewrite F3, F2, F1, items_cons. by rewrite <- !app_assoc.
Qed.
End MemDump.

(** C38. A memory dump prints the title, then the bytes in two digits each with
    colons between them, however often the line buffer is emptied on the way:
    its 128 bytes are never outgrown. *)
Theorem memdump_joins data title s : Z.of_nat (length data) < 2 ^ 32 -> length (line s) = 128%nat ->
  exists s', rte_memdump data (Z.of_nat (length data)) title s = Ok (tt, s') /\
    file s' = file s ++ match title with Some t => t ++ [58; 32] | None => [] end ++ items data 0 data ++ [10].
Proof.
  intros Hl Hb. unfold rte_memdump. set (h := match title with Some t => t ++ [58; 32] | None => [] end).
  set (s0 := mk_hst (file s ++ h) (line s) (out s)).
  assert (E0 : match title with Some t => fprintf (t ++ [58; 32]) | None => mret tt end s = Ok (tt, s0)).
  { unfold s0, h. destruct title; [done|]. rewrite app_nil_r. by destruct s. }
  run E0. destruct (clear_line_ok s0 Hb) as (s1 & E1 & F1 & H1). run E1.
  destruct (mem_loop_ok data Hl data (S (Z.to_nat (Z.of_nat (length data)))) 0 [] s1)
    as (s2 & t & E2 & H2 & Z2 & F2); [done|lia|exact H1|constructor|].
  run E2. run (eq_refl : get_st s2 = Ok (s2, s2)).
  assert (E3 : exists s3, (if 0 <? out s2 then put_line else mret tt) s2 = Ok (tt, s3) /\ file s3 = file s2 ++ t).
  { assert (Ho : out s2 = Z.of_nat (length t)) by (destruct H2 as (? & _ & _ & ?); done). rewrite Ho.
    destruct (Z.ltb_spec 0 (Z.of_nat (length t))) as [|Hn].
    - eexists. split; [by apply put_line_ok|done].
    - destruct t; [|simpl in Hn; lia]. exists s2. by rewrite app_nil_r. }
  destruct E3 as (s3 & E3 & F3). run E3. eexists. split; [reflexivity|]. simpl.
  rewrite F3, F2, F1. simpl. by rewrite <- !app_assoc.
Qed.

(** ** Concrete dumps *)
Definition sample_data : list Z := map (fun i => Z.of_nat i * 7 mod 256) (seq 0 50).
Definition sample_hst : hst := mk_hst [] (replicate 128 7) 0.

Lemma hexdump_lines_witness :
  exists s', kylin_hexdump sample_data 50 None [48; 120; 49] sample_hst = Ok (tt, s') /\
    file s' = [] ++ dump_header 50 None [48; 120; 49] ++ concat (map (line_text sample_data) (seq 0 4)).
Proof. apply (hexdump_lines sample_data None [48; 120; 49] sample_hst); reflexivity. Defined.

Lemma memdump_joins_witness :
  exists s', rte_memdump sample_data 50 (Some [97]) sample_hst = Ok (tt, s') /\
    file s' = [] ++ [97; 58; 32] ++ items sample_data 0 sample_data ++ [10].
Proof. apply (memdump_joins sample_data (Some [97]) sample_hst); reflexivity. Defined.

Lemma dump_line_sample :
  dump_line 16 [72; 105; 0] = [48; 48; 48; 48; 48; 48; 49; 48; 58; 32; 52; 56; 32; 54; 57; 32; 48; 48] ++
    concat (replicate 14 [32; 124; 32]) ++ [72; 105; 46].
Proof. vm_compute. reflexivity. Qed.

(** ** Versions *)
Lemma version_value ma mi bu : is_u 8 ma -> is_u 8 mi -> is_u 8 bu ->
  KYLIN_VERSION_VALUE ma mi bu = 65536 * ma + 256 * mi + bu.
Proof.
  unfold is_u, KYLIN_VERSION_VALUE, uw. intros. rewrite !Z.shiftl_mul_pow2 by lia.
  rewrite (Z.mod_small ma), (Z.mod_small mi), (Z.mod_small bu) by lia.
  rewrite (Z.mod_small (ma * _)), (Z.mod_small (_ + mi * _)), Z.mod_small by lia. lia.
Qed.

(** The three numbers of a version are read back, where each fits in a byte. *)
Lemma version_round_trip ma mi bu : is_u 8 ma -> is_u 8 mi -> is_u 8 bu ->
  KYLIN_VERSION_MAJOR (KYLIN_VERSION_VALUE ma mi bu) = ma /\ KYLIN_VERSION_MINOR (KYLIN_VERSION_VALUE ma mi bu) = mi /\
  KYLIN_VERSION_BUILD (KYLIN_VERSION_VALUE ma mi bu) = bu.
Proof.
  intros H1 H2 H3. rewrite version_value by done. unfold is_u in *.
  unfold KYLIN_VERSION_MAJOR, KYLIN_VERSION_MINOR, KYLIN_VERSION_BUILD, uw. rewrite !Z.shiftr_div_pow2 by lia.
  split_and!; Z.to_euclidean_division_equations; lia.
Qed.

(** A build number of 256 is read back as the next minor version. *)
Lemma version_build_carries : KYLIN_VERSION_MINOR (KYLIN_VERSION_VALUE 1 2 256) = 3.
Proof. reflexivity. Qed.

(** ** Identifiers *)

(** A set of identifiers is always too small for the number asked for: where
    that is a power of two it has room for none, and otherwise rounding gives the
    power of two below. *)
Theorem autoid_too_small max g : 1 <= max < 2 ^ 16 -> kylin_autoid_create true true max = Ok (Some g) ->
  max_id g < max /\ (kylin_is_pow_of_two max = true -> max_id g = 0 /\ bm_size (index g) = 0%nat).
Proof.
  intros Hm E. unfold kylin_autoid_create in E. cbn [negb] in E. rewrite (uw_id 16) in E by (unfold is_u; lia).
  destruct (kylin_is_pow_of_two max) eqn:Hp; cbn [negb] in E.
  - cbn [mbind outcome_bind] in E. injection E as <-. split; [simpl; lia|]. intros _. split; reflexivity.
  - assert (H2 : 2 <= max).
    { destruct (decide (max = 1)) as [->|]; [done|lia]. }
    rewrite roundup_value in E by lia. cbn [mbind outcome_bind] in E.
    pose proof (Z.log2_spec (max - 1) ltac:(lia)) as [Hl _].
    rewrite (uw_id 32) in E by (unfold is_u; split; [apply Z.pow_nonneg|]; lia).
    injection E as <-. split; [simpl; lia|done].
Qed.

Lemma autoid_too_small_witness :
  max_id (mk_kautoid 64 (mk_kbitmap (mk_kbitmap_opts 64 None) 1 [0])) < 100 /\
  (kylin_is_pow_of_two 100 = true ->
    max_id (mk_kautoid 64 (mk_kbitmap (mk_kbitmap_opts 64 None) 1 [0])) = 0 /\
    bm_size (index (mk_kautoid 64 (mk_kbitmap (mk_kbitmap_opts 64 None) 1 [0]))) = 0%nat).
Proof. apply (autoid_too_small 100); [lia|vm_compute; reflexivity]. Defined.
