(* ===== verification/Fifo.v ===== *)
(** * The byte queue ([lib/core/math/kylin_fifo.c])

    A circular buffer of [cap] bytes ([cap] a power of two) with the
    positions [in] and [out]; [is_full] tells the full buffer from the empty
    one when the positions meet.  Sizes are 64-bit, the results [int]. *)

From S2P Require Import Prelude Bitops Bytes Circular.

Record kfifo_opts_t := mk_kfifo_opts {
  opts_cap : Z;
  guard_ctor : option (Z -> bool);   (** does the guard constructor return memory? *)
}.

Record kfifo_t := mk_kfifo {
  f_opts : kfifo_opts_t;
  f_mask : Z;
  f_in : Z;
  f_out : Z;
  is_full : bool;
  f_val : list Z;
}.

Definition sizeof_kfifo_t : Z := 64.

Definition FIFO_GUARD_MALLOC (malloc : Z -> bool) (opts : kfifo_opts_t) : Z -> bool :=
  match guard_ctor opts with Some f => f | None => malloc end.

(** [None] is the NULL pointer. *)
Definition kylin_fifo_create (malloc : Z -> bool) (opts : kfifo_opts_t) : option kfifo_t :=
  if negb (kylin_is_pow_of_two (opts_cap opts)) then None else
  if negb (FIFO_GUARD_MALLOC malloc opts (u64 (sizeof_kfifo_t + opts_cap opts))) then None else
  Some (mk_kfifo opts (opts_cap opts - 1) 0 0 false (replicate (Z.to_nat (opts_cap opts)) 0)).

(** The destructor of the options, or [kylin_free]. *)
Definition FIFO_GUARD_FREE {S} (guard_dtor : option (kfifo_t -> M S unit)) (kylin_free : kfifo_t -> M S unit) : kfifo_t -> M S unit :=
  match guard_dtor with Some f => f | None => kylin_free end.
Definition kylin_fifo_destroy {S} (guard_dtor : option (kfifo_t -> M S unit)) (kylin_free : kfifo_t -> M S unit) (g : kfifo_t) : M S unit :=
  FIFO_GUARD_FREE guard_dtor kylin_free g.

Definition put_refused (f : kfifo_t) (len : Z) : bool :=
  (len =? 0) || is_full f ||
  ((f_in f <? f_out f) && (f_out f <? u64 (f_in f + len))) ||
  ((f_out f <=? f_in f) && (f_mask f <? u64 (f_in f + len)) &&
   (f_out f <? Z.land (u64 (f_in f + len)) (f_mask f))).

Definition kylin_fifo_put (f : kfifo_t) (buf : list Z) (len : Z) : outcome (Z * kfifo_t) :=
  if put_refused f len then Ok (-1, f) else
  let cap := opts_cap (f_opts f) in
  if cap <? u64 (f_in f + len) then
    let rest := u64 (cap - f_in f) in
    v ← memcpy (f_val f) (f_in f) buf 0 rest;
    v ← memcpy v 0 buf rest (u64 (len - rest));
    let in' := u64 (len - rest) in
    Ok (s32 len, mk_kfifo (f_opts f) (f_mask f) in' (f_out f)
                   (if in' =? f_out f then true else is_full f) v)
  else
    v ← memcpy (f_val f) (f_in f) buf 0 len;
    Ok (s32 len, mk_kfifo (f_opts f) (f_mask f) (Z.land (u64 (f_in f + len)) (f_mask f))
                   (f_out f) (is_full f) v).

Definition get_refused (f : kfifo_t) (len : Z) : bool :=
  (len =? 0) || (opts_cap (f_opts f) <? len) ||
  (negb (is_full f) &&
   ((if f_out f <=? f_in f then u64 (f_in f - f_out f)
     else u64 (opts_cap (f_opts f) - u64 (f_out f - f_in f))) <? len)).

(** The bytes [get] and [peek] copy to the caller's buffer. *)
Definition copy_out (f : kfifo_t) (buf : list Z) (len : Z) : outcome (list Z) :=
  let cap := opts_cap (f_opts f) in
  if cap <? u64 (f_out f + len) then
    let rest := u64 (cap - f_out f) in
    b ← memcpy buf 0 (f_val f) (f_out f) rest;
    memcpy b rest (f_val f) 0 (u64 (len - rest))
  else memcpy buf 0 (f_val f) (f_out f) len.

Definition kylin_fifo_get (f : kfifo_t) (buf : list Z) (len : Z) :
    outcome (Z * list Z * kfifo_t) :=
  if get_refused f len then Ok (-1, buf, f) else
  let cap := opts_cap (f_opts f) in
  b ← copy_out f buf len;
  let out' := if cap <? u64 (f_out f + len) then u64 (len - u64 (cap - f_out f))
              else Z.land (u64 (f_out f + len)) (f_mask f) in
  Ok (s32 len, b, mk_kfifo (f_opts f) (f_mask f) (f_in f) out' false (f_val f)).

Definition kylin_fifo_peek (f : kfifo_t) (buf : list Z) (len : Z) : outcome (Z * list Z) :=
  if get_refused f len then Ok (-1, buf) else
  b ← copy_out f buf len; Ok (s32 len, b).

(** ** The queue behind the buffer *)

(** What [kylin_fifo_create] establishes and every operation must keep; the
    capacity is a power of two below 2^31, so the [int] results are exact. *)
Record fifo_ok (f : kfifo_t) : Prop := {
  ok_cap : exists k, 0 <= k < 31 /\ opts_cap (f_opts f) = 2 ^ k;
  ok_mask : f_mask f = opts_cap (f_opts f) - 1;
  ok_len : Z.of_nat (length (f_val f)) = opts_cap (f_opts f);
  ok_in : 0 <= f_in f < opts_cap (f_opts f);
  ok_out : 0 <= f_out f < opts_cap (f_opts f);
  ok_full : is_full f = true -> f_in f = f_out f;
}.

Definition fifo_used (f : kfifo_t) : Z :=
  if is_full f then opts_cap (f_opts f)
  else if f_out f <=? f_in f then f_in f - f_out f
  else opts_cap (f_opts f) - (f_out f - f_in f).

(** The queued bytes, oldest first. *)
Definition fifo_contents (f : kfifo_t) : list Z :=
  ring_read (f_val f) (Z.to_nat (f_out f)) (Z.to_nat (fifo_used f)).

Lemma land_mask x k :
  0 <= k < 31 -> 0 <= x < 2 * 2 ^ k -> Z.land x (2 ^ k - 1) = if x <? 2 ^ k then x else x - 2 ^ k.
Proof.
  intros Hk Hx. replace (2 ^ k - 1) with (Z.ones k) by (rewrite Z.ones_equiv; lia).
  rewrite Z.land_ones by lia.
  destruct (Z.ltb_spec x (2 ^ k)).
  - apply Z.mod_small. lia.
  - symmetry. apply (Z.mod_unique _ _ 1); lia.
Qed.

Lemma fifo_used_range f : fifo_ok f -> 0 <= fifo_used f <= opts_cap (f_opts f).
Proof.
  intros []. unfold fifo_used. destruct (is_full f); [lia|].
  destruct (Z.leb_spec (f_out f) (f_in f)); lia.
Qed.

Lemma length_fifo_contents f : fifo_ok f -> Z.of_nat (length (fifo_contents f)) = fifo_used f.
Proof.
  intros H. pose proof (fifo_used_range f H). destruct H.
  unfold fifo_contents. rewrite length_ring_read; lia.
Qed.

(** ** The operations on a well-formed buffer *)

Lemma pow_bound k : 0 <= k < 31 -> 1 <= 2 ^ k <= 2 ^ 30.
Proof. intros. split; [apply (Z.pow_le_mono_r 2 0 k); lia|apply Z.pow_le_mono_r; lia]. Qed.

Section Ops.
Context (f : kfifo_t) (Hok : fifo_ok f).
Let cap := opts_cap (f_opts f).

Lemma cap_bound : 1 <= cap <= 2 ^ 30.
Proof using Hok. destruct Hok as [(k & Hk & E) _ _ _ _ _]. subst cap. rewrite E. by apply pow_bound. Qed.

Lemma land_cap x : 0 <= x < 2 * cap -> Z.land x (f_mask f) = if x <? cap then x else x - cap.
Proof using Hok.
  intros Hx. destruct Hok as [(k & Hk & E) Em _ _ _ _]. subst cap. rewrite Em, E in *.
  by apply land_mask.
Qed.

Lemma in_at_used : is_full f = false ->
  Z.to_nat (f_in f) = ring_pos (length (f_val f)) (Z.to_nat (f_out f)) (Z.to_nat (fifo_used f)).
Proof using Hok.
  intros Ef. destruct Hok as [_ _ El Hi Ho _]. unfold fifo_used, ring_pos. rewrite Ef.
  destruct (Z.leb_spec (f_out f) (f_in f)); case_decide; lia.
Qed.

Lemma put_refused_spec len :
  0 <= len <= cap -> put_refused f len = (len =? 0) || (cap <? fifo_used f + len).
Proof using Hok.
  intros Hl. pose proof cap_bound. pose proof land_cap as Hland.
  destruct Hok as [_ Em _ Hi Ho Hf]. unfold put_refused, fifo_used. fold cap in Hi, Ho |- *.
  rewrite (uw_id 64 (f_in f + len)) by (unfold is_u; lia).
  destruct (Z.eqb_spec len 0); [done|]. simpl orb.
  destruct (is_full f) eqn:Ef; simpl orb.
  - symmetry. apply Z.ltb_lt. lia.
  - rewrite Hland by lia. rewrite Em. fold cap.
    destruct (Z.ltb_spec (f_in f) (f_out f)), (Z.leb_spec (f_out f) (f_in f)),
      (Z.ltb_spec (f_in f + len) cap); lia.
Qed.

(** An accepted [put]: where the bytes go and what becomes of the fields. *)
Lemma put_accepted buf len :
  0 < len -> fifo_used f + len <= cap -> len <= Z.of_nat (length buf) ->
  exists v', kylin_fifo_put f buf len =
    Ok (len, mk_kfifo (f_opts f) (f_mask f)
          (if f_in f + len <? cap then f_in f + len else f_in f + len - cap) (f_out f)
          ((cap <? f_in f + len) && (f_in f + len - cap =? f_out f)) v') /\
    ring_written (f_val f) (Z.to_nat (f_in f)) (take (Z.to_nat len) buf) v'.
Proof using Hok.
  intros Hl Hfit Hb. pose proof cap_bound as Hcap. pose proof (fifo_used_range f Hok) as Hu.
  unfold kylin_fifo_put. rewrite put_refused_spec by (fold cap in Hu; lia).
  rewrite (proj2 (Z.eqb_neq len 0)), (proj2 (Z.ltb_ge _ _)) by lia. simpl orb. cbn iota.
  assert (Ef : is_full f = false).
  { unfold fifo_used in Hfit. destruct (is_full f); [fold cap in Hfit; lia|done]. }
  assert (Es : s32 len = len).
  { unfold sw. rewrite Z.mod_small by lia. by rewrite (proj2 (Z.ltb_lt _ _)) by lia. }
  pose proof land_cap as Hland.
  destruct Hok as [_ _ El Hi Ho _]. fold cap in El, Hi, Ho |- *.
  rewrite !(uw_id 64 (f_in f + len)) by (unfold is_u; lia).
  rewrite (uw_id 64 (cap - f_in f)) by (unfold is_u; lia). rewrite Ef, Es.
  assert (Lt : length (take (Z.to_nat len) buf) = Z.to_nat len) by (rewrite length_take; lia).
  destruct (Z.ltb_spec cap (f_in f + len)) as [Hw|Hw]; simpl andb.
  - rewrite !(uw_id 64 (len - (cap - f_in f))) by (unfold is_u; lia).
    rewrite memcpy_ok by lia. cbn [mbind outcome_bind].
    rewrite memcpy_ok by (rewrite ?length_splice; rewrite ?length_take, ?length_drop; lia).
    cbn [mbind outcome_bind]. rewrite (proj2 (Z.ltb_ge _ _)) by lia.
    replace (len - (cap - f_in f)) with (f_in f + len - cap) by lia.
    eexists. split; [f_equal; f_equal; f_equal; by destruct (_ =? _)|].
    pose proof (ring_written_twice (f_val f) (Z.to_nat (f_in f)) (take (Z.to_nat len) buf)
      (Z.to_nat (cap - f_in f)) ltac:(lia) ltac:(lia) ltac:(lia)) as W.
    rewrite take_take, Nat.min_l in W by lia. rewrite drop_0 in *.
    replace (take (Z.to_nat (f_in f + len - cap)) (drop (Z.to_nat (cap - f_in f)) buf))
      with (drop (Z.to_nat (cap - f_in f)) (take (Z.to_nat len) buf)); [exact W|].
    rewrite skipn_firstn_comm. f_equal. lia.
  - rewrite memcpy_ok by lia. cbn [mbind outcome_bind]. rewrite drop_0.
    rewrite Hland by lia. eexists. split; [done|].
    apply ring_written_once. lia.
Qed.

Lemma get_refused_spec len :
  0 <= len -> get_refused f len = (len =? 0) || (fifo_used f <? len).
Proof using Hok.
  intros Hl. pose proof cap_bound. pose proof (fifo_used_range f Hok) as Hu.
  destruct Hok as [_ _ _ Hi Ho _]. unfold get_refused, fifo_used in *. fold cap in Hi, Ho, Hu |- *.
  destruct (is_full f); [lia|]. cbn [negb andb].
  destruct (Z.leb_spec (f_out f) (f_in f)).
  - rewrite uw_id by (unfold is_u; lia). lia.
  - rewrite (uw_id 64 (f_out f - f_in f)), uw_id by (unfold is_u; lia). lia.
Qed.

Lemma copy_out_spec buf len :
  0 < len <= fifo_used f -> len <= Z.of_nat (length buf) ->
  copy_out f buf len = Ok (splice buf 0 (take (Z.to_nat len) (fifo_contents f))).
Proof using Hok.
  intros Hl Hb. pose proof cap_bound. pose proof (fifo_used_range f Hok) as Hu.
  destruct Hok as [_ _ El Hi Ho _]. unfold copy_out. fold cap in El, Hi, Ho, Hu |- *.
  rewrite (uw_id 64 (f_out f + len)), (uw_id 64 (cap - f_out f)) by (unfold is_u; lia).
  unfold fifo_contents, ring_read. rewrite take_take, Nat.min_l by lia.
  destruct (Z.ltb_spec cap (f_out f + len)).
  - rewrite (uw_id 64 (len - _)) by (unfold is_u; lia).
    rewrite memcpy_ok by lia. cbn [mbind outcome_bind].
    rewrite memcpy_ok by (rewrite ?length_splice; rewrite ?length_take, ?length_drop; lia).
    rewrite drop_0. f_equal.
    rewrite take_app. rewrite (firstn_all2 (n := Z.to_nat len)) by (rewrite length_drop; lia).
    rewrite (firstn_all2 (n := Z.to_nat (cap - f_out f))) by (rewrite length_drop; lia).
    rewrite length_drop, take_take, Nat.min_l by lia.
    rewrite <- splice_splice_app by (rewrite length_drop, length_take; lia).
    rewrite length_drop. f_equal; [lia|f_equal; lia].
  - rewrite memcpy_ok by lia. rewrite take_app.
    replace (Z.to_nat len - length (drop (Z.to_nat (f_out f)) (f_val f)))%nat with 0%nat
      by (rewrite length_drop; lia).
    by rewrite take_0, app_nil_r.
Qed.

(** An accepted [get]. *)
Lemma get_accepted buf len :
  0 < len <= fifo_used f -> len <= Z.of_nat (length buf) ->
  kylin_fifo_get f buf len =
    Ok (len, splice buf 0 (take (Z.to_nat len) (fifo_contents f)),
        mk_kfifo (f_opts f) (f_mask f) (f_in f)
          (if f_out f + len <? cap then f_out f + len else f_out f + len - cap) false (f_val f)).
Proof using Hok.
  intros Hl Hb. pose proof cap_bound. pose proof (fifo_used_range f Hok) as Hu.
  unfold kylin_fifo_get. rewrite get_refused_spec, copy_out_spec by lia.
  rewrite (proj2 (Z.eqb_neq len 0)), (proj2 (Z.ltb_ge _ _)) by lia. cbn [orb mbind outcome_bind].
  pose proof land_cap as Hland.
  destruct Hok as [_ _ El Hi Ho _]. fold cap in El, Hi, Ho, Hu |- *.
  rewrite !(uw_id 64 (f_out f + len)), (uw_id 64 (cap - f_out f)) by (unfold is_u; lia).
  rewrite Hland by lia.
  assert (Es : s32 len = len).
  { unfold sw. rewrite Z.mod_small by lia. by rewrite (proj2 (Z.ltb_lt _ _)) by lia. }
  rewrite Es. do 3 f_equal.
  destruct (Z.ltb_spec cap (f_out f + len)), (Z.ltb_spec (f_out f + len) cap); try lia.
  rewrite uw_id by (unfold is_u; lia). lia.
Qed.
End Ops.

(** ** Refinement to a bounded queue *)

Inductive fifo_op : Type := Put (bs : list Z) | Get (n : Z).

(** The abstract queue of capacity [cap]: result, bytes handed out, new queue. *)
Definition queue_step (cap : Z) (q : list Z) (op : fifo_op) : Z * list Z * list Z :=
  match op with
  | Put bs =>
      let n := Z.of_nat (length bs) in
      if (n =? 0) || (cap <? Z.of_nat (length q) + n) then (-1, [], q) else (n, [], q ++ bs)
  | Get n =>
      if (n =? 0) || (Z.of_nat (length q) <? n) then (-1, [], q)
      else (n, take (Z.to_nat n) q, drop (Z.to_nat n) q)
  end.

(** The same call on the buffer; [get] is given a buffer of [n] bytes. *)
Definition fifo_step (f : kfifo_t) (op : fifo_op) : outcome (Z * list Z * kfifo_t) :=
  match op with
  | Put bs =>
      r ← kylin_fifo_put f bs (Z.of_nat (length bs));
      let '(n, f) := r in Ok (n, [], f)
  | Get n =>
      r ← kylin_fifo_get f (replicate (Z.to_nat n) 0) n;
      let '(m, b, f) := r in Ok (m, if m =? -1 then [] else b, f)
  end.

(** No [put] is longer than the buffer ([fifo_put_oversize]), and none makes it
    exactly full ([fifo_exact_fill]). *)
Definition gentle (cap : Z) (q : list Z) (op : fifo_op) : Prop :=
  match op with
  | Put bs => Z.of_nat (length bs) <= cap /\ Z.of_nat (length q) + Z.of_nat (length bs) <> cap
  | Get n => 0 <= n
  end.

Lemma put_contents f bs f' v' :
  fifo_ok f -> (0 < length bs)%nat -> is_full f = false ->
  fifo_used f + Z.of_nat (length bs) <= opts_cap (f_opts f) ->
  ring_written (f_val f) (Z.to_nat (f_in f)) bs v' ->
  f_val f' = v' -> f_out f' = f_out f ->
  fifo_used f' = fifo_used f + Z.of_nat (length bs) ->
  fifo_contents f' = fifo_contents f ++ bs.
Proof.
  intros Hok Hb Ef Hfit Hw Ev Eo Eu. pose proof (fifo_used_range f Hok) as Hu.
  pose proof (in_at_used f Hok Ef) as Ein. rewrite Ein in Hw. destruct Hok as [_ _ El Hi Ho _].
  unfold fifo_contents. rewrite Ev, Eo, Eu.
  pose proof (fun A B => ring_read_written _ _ _ _ _ A B Hw) as R.
  rewrite <- R by lia. f_equal. lia.
Qed.

Lemma not_full_of_fit f len :
  fifo_ok f -> 0 < len -> fifo_used f + len <= opts_cap (f_opts f) -> is_full f = false.
Proof. intros _ Hl Hfit. unfold fifo_used in Hfit. destruct (is_full f); [lia|done]. Qed.

(** One accepted [put], the exactly filling ones included. *)
Lemma put_step f bs :
  fifo_ok f -> (0 < length bs)%nat ->
  fifo_used f + Z.of_nat (length bs) <= opts_cap (f_opts f) ->
  exists f', kylin_fifo_put f bs (Z.of_nat (length bs)) = Ok (Z.of_nat (length bs), f') /\
    fifo_ok f' /\ f_opts f' = f_opts f /\
    fifo_contents f' =
      if (fifo_used f + Z.of_nat (length bs) =? opts_cap (f_opts f)) &&
         (f_in f + Z.of_nat (length bs) <=? opts_cap (f_opts f))
      then [] else fifo_contents f ++ bs.
Proof.
  intros Hok Hb Hfit. assert (Ef : is_full f = false) by (eapply not_full_of_fit; [done| |exact Hfit]; lia).
  destruct (put_accepted f Hok bs (Z.of_nat (length bs))) as (v' & E & Hw); [lia|done|done|].
  rewrite firstn_all2 in Hw by lia.
  eexists. split; [exact E|].
  set (f' := mk_kfifo _ _ _ _ _ _).
  assert (Hu' : fifo_used f' =
    if (fifo_used f + Z.of_nat (length bs) =? opts_cap (f_opts f)) &&
       (f_in f + Z.of_nat (length bs) <=? opts_cap (f_opts f))
    then 0 else fifo_used f + Z.of_nat (length bs)).
  { pose proof (fifo_used_range f Hok). destruct Hok as [_ _ _ Hi Ho _].
    unfold fifo_used in *. rewrite Ef in *. subst f'. simpl.
    destruct (Z.leb_spec (f_out f) (f_in f)),
      (Z.ltb_spec (f_in f + Z.of_nat (length bs)) (opts_cap (f_opts f))),
      (Z.ltb_spec (opts_cap (f_opts f)) (f_in f + Z.of_nat (length bs))); simpl andb;
      repeat case_goal; z_bool; lia. }
  split; [|split; [done|]].
  - pose proof (fifo_used_range f Hok) as Hu. destruct Hok as [Hc Hm El Hi Ho Hf].
    destruct Hw as [Hw _]. subst f'. split; simpl; try done; try lia.
    + destruct (Z.ltb_spec (f_in f + Z.of_nat (length bs)) (opts_cap (f_opts f))); lia.
    + intros Hx. z_bool. rewrite (proj2 (Z.ltb_ge _ _)) by lia. lia.
  - destruct ((fifo_used f + _ =? _) && _).
    + unfold fifo_contents. by rewrite Hu'.
    + by apply (put_contents f bs f' v').
Qed.

(** One accepted [get]. *)
Lemma get_step f buf n :
  fifo_ok f -> 0 < n <= fifo_used f -> n <= Z.of_nat (length buf) ->
  exists f', kylin_fifo_get f buf n =
      Ok (n, splice buf 0 (take (Z.to_nat n) (fifo_contents f)), f') /\
    fifo_ok f' /\ f_opts f' = f_opts f /\ fifo_contents f' = drop (Z.to_nat n) (fifo_contents f).
Proof.
  intros Hok Hn Hb. rewrite (get_accepted f Hok buf n Hn Hb). eexists. split; [done|].
  set (f' := mk_kfifo _ _ _ _ _ _).
  pose proof (fifo_used_range f Hok) as Hu.
  assert (Hu' : fifo_used f' = fifo_used f - n /\
    Z.to_nat (f_out f') = ring_pos (length (f_val f)) (Z.to_nat (f_out f)) (Z.to_nat n)).
  { destruct Hok as [_ _ El Hi Ho Hf]. unfold fifo_used, ring_pos in *. subst f'. simpl.
    split.
    - destruct (is_full f); [specialize (Hf eq_refl)|]; simpl;
        destruct (Z.ltb_spec (f_out f + n) (opts_cap (f_opts f))); repeat case_goal; z_bool; lia.
    - destruct (Z.ltb_spec (f_out f + n) (opts_cap (f_opts f))); case_decide; lia. }
  destruct Hu' as [Hu' Ho']. split; [|split; [done|]].
  - destruct Hok as [Hc Hm El Hi Ho Hf]. subst f'. split; simpl; try done.
    destruct (Z.ltb_spec (f_out f + n) (opts_cap (f_opts f))); lia.
  - unfold fifo_contents at 1. rewrite Hu', Ho'. destruct Hok as [Hc Hm El Hi Ho Hf].
    unfold fifo_contents. rewrite drop_ring_read by lia. subst f'. simpl. f_equal. lia.
Qed.

Lemma fifo_step_sim f op :
  fifo_ok f -> gentle (opts_cap (f_opts f)) (fifo_contents f) op ->
  exists r o f', fifo_step f op = Ok (r, o, f') /\ fifo_ok f' /\ f_opts f' = f_opts f /\
    queue_step (opts_cap (f_opts f)) (fifo_contents f) op = (r, o, fifo_contents f').
Proof.
  intros Hok Hg. pose proof (fifo_used_range f Hok) as Hu.
  pose proof (length_fifo_contents f Hok) as Hlen.
  destruct op as [bs|n]; simpl in *; rewrite Hlen in *.
  - destruct (Z.eqb_spec (Z.of_nat (length bs)) 0) as [E|E];
      [|destruct (Z.ltb_spec (opts_cap (f_opts f)) (fifo_used f + Z.of_nat (length bs))) as [L|L]];
      simpl orb; cbn iota.
    1,2: unfold kylin_fifo_put; rewrite put_refused_spec by (done || lia);
      replace (_ || _) with true by lia; simpl; eauto 10.
    destruct (put_step f bs Hok) as (f' & -> & Hok' & Eo & Ec); [lia|lia|].
    rewrite (proj2 (Z.eqb_neq (fifo_used f + _) _)) in Ec by lia. simpl andb in Ec.
    exists (Z.of_nat (length bs)), [], f'. by rewrite Ec.
  - destruct (Z.eqb_spec n 0) as [E|E];
      [|destruct (Z.ltb_spec (fifo_used f) n) as [L|L]]; simpl orb; cbn iota.
    1,2: unfold kylin_fifo_get; rewrite get_refused_spec by (done || lia);
      replace (_ || _) with true by lia; simpl; eauto 10.
    destruct (get_step f (replicate (Z.to_nat n) 0) n Hok) as (f' & -> & Hok' & Eo & Ec);
      [lia|rewrite length_replicate; lia|].
    cbn [mbind outcome_bind]. rewrite (proj2 (Z.eqb_neq n (-1))) by lia.
    eexists _, _, f'. rewrite Ec. split; [done|]. split; [done|]. split; [done|].
    do 2 f_equal. unfold splice. rewrite take_0, drop_ge; [by rewrite app_nil_r|].
    rewrite length_replicate, length_take. lia.
Qed.

Fixpoint queue_run (cap : Z) (q : list Z) (ops : list fifo_op) : list (Z * list Z) :=
  match ops with
  | [] => []
  | op :: ops => let '(r, o, q) := queue_step cap q op in (r, o) :: queue_run cap q ops
  end.

Fixpoint gentle_run (cap : Z) (q : list Z) (ops : list fifo_op) : Prop :=
  match ops with
  | [] => True
  | op :: ops => gentle cap q op /\ gentle_run cap (queue_step cap q op).2 ops
  end.

Fixpoint fifo_run (f : kfifo_t) (ops : list fifo_op) : outcome (list (Z * list Z)) :=
  match ops with
  | [] => Ok []
  | op :: ops =>
      x ← fifo_step f op;
      let '(r, o, f) := x in
      rs ← fifo_run f ops; Ok ((r, o) :: rs)
  end.

Lemma fifo_run_sim ops f :
  fifo_ok f -> gentle_run (opts_cap (f_opts f)) (fifo_contents f) ops ->
  fifo_run f ops = Ok (queue_run (opts_cap (f_opts f)) (fifo_contents f) ops).
Proof.
  revert f. induction ops as [|op ops IH]; intros f Hok Hg; [done|].
  destruct Hg as [Hg Hrest]. simpl.
  destruct (fifo_step_sim f op Hok Hg) as (r & o & f' & -> & Hok' & Eo & Eq).
  rewrite Eq in *. cbn [mbind outcome_bind]. simpl in Hrest. rewrite <- Eo in *.
  by rewrite IH.
Qed.

Lemma create_ok malloc opts k :
  0 <= k < 31 -> opts_cap opts = 2 ^ k ->
  (forall n, FIFO_GUARD_MALLOC malloc opts n = true) ->
  exists f, kylin_fifo_create malloc opts = Some f /\ f_opts f = opts /\ fifo_ok f /\
    fifo_contents f = [].
Proof.
  intros Hk Hc Hm. unfold kylin_fifo_create. rewrite Hm.
  pose proof (pow_bound k Hk).
  assert (Hp : kylin_is_pow_of_two (opts_cap opts) = true).
  { rewrite kylin_is_pow_of_two_spec by (unfold is_u; lia). exists k. split; [lia|done]. }
  rewrite Hp. cbn [negb]. eexists. split; [done|]. split; [done|]. split; [|done].
  split; simpl; try done; try lia; [by exists k|]. rewrite length_replicate. lia.
Qed.

(** ** Properties *)

(** C4. A buffer fresh from [kylin_fifo_create] behaves as a bounded queue of
    bytes: along any sequence of [put] and [get] calls in which no [put] is
    longer than the capacity and none would make the buffer exactly full, every
    call returns what the queue of that capacity returns (a [put] that does not
    fit is refused), and [get] hands out the queue's oldest bytes.  The two kinds
    of calls left out do not behave so: [fifo_put_oversize] writes outside the
    buffer, [fifo_exact_fill] may lose everything. *)
Theorem fifo_refines_queue malloc opts k ops :
  0 <= k < 31 -> opts_cap opts = 2 ^ k ->
  (forall n, FIFO_GUARD_MALLOC malloc opts n = true) ->
  gentle_run (opts_cap opts) [] ops ->
  exists f, kylin_fifo_create malloc opts = Some f /\
    fifo_run f ops = Ok (queue_run (opts_cap opts) [] ops).
Proof.
  intros Hk Hc Hm Hg. destruct (create_ok malloc opts k Hk Hc Hm) as (f & E & Eo & Hok & Ec).
  exists f. split; [done|]. rewrite <- Eo, <- Ec in *. by apply fifo_run_sim.
Qed.

Lemma fifo_refines_queue_witness :
  exists f, kylin_fifo_create (fun _ => true) (mk_kfifo_opts 4 None) = Some f /\
    fifo_run f [Put [1; 2; 3]; Get 2; Put [4; 5]; Put [6; 7]; Get 3] =
      Ok [(3, []); (2, [1; 2]); (2, []); (-1, []); (3, [3; 4; 5])].
Proof.
  apply (fifo_refines_queue (fun _ => true) (mk_kfifo_opts 4 None) 2); simpl; try done; try lia.
Defined.

(** A [put] that fills the buffer exactly returns success, but [is_full] is
    only set when the bytes wrap round: otherwise the positions meet with the
    flag clear and the whole content, old and new, is lost. *)
Theorem fifo_exact_fill f bs :
  fifo_ok f -> (0 < length bs)%nat ->
  Z.of_nat (length (fifo_contents f)) + Z.of_nat (length bs) = opts_cap (f_opts f) ->
  exists f', kylin_fifo_put f bs (Z.of_nat (length bs)) = Ok (Z.of_nat (length bs), f') /\
    fifo_contents f' =
      if f_in f + Z.of_nat (length bs) <=? opts_cap (f_opts f) then []
      else fifo_contents f ++ bs.
Proof.
  intros Hok Hb Hfit. rewrite (length_fifo_contents f Hok) in Hfit.
  destruct (put_step f bs Hok Hb) as (f' & E & _ & _ & Ec); [lia|].
  exists f'. split; [done|]. rewrite Ec, Hfit, Z.eqb_refl. by simpl andb.
Qed.

Lemma fifo_exact_fill_witness :
  let f := mk_kfifo (mk_kfifo_opts 4 None) 3 1 1 false [0; 0; 0; 0] in
  let g := mk_kfifo (mk_kfifo_opts 4 None) 3 0 0 false [0; 0; 0; 0] in
  (exists f', kylin_fifo_put f [1; 2; 3; 4] 4 = Ok (4, f') /\ fifo_contents f' = [1; 2; 3; 4]) /\
  (exists g', kylin_fifo_put g [1; 2; 3; 4] 4 = Ok (4, g') /\ fifo_contents g' = []).
Proof.
  split.
  - apply (fifo_exact_fill (mk_kfifo (mk_kfifo_opts 4 None) 3 1 1 false [0; 0; 0; 0]) [1; 2; 3; 4]);
      [|simpl; lia|reflexivity].
    split; simpl; try done; try lia. exists 2. lia.
  - apply (fifo_exact_fill (mk_kfifo (mk_kfifo_opts 4 None) 3 0 0 false [0; 0; 0; 0]) [1; 2; 3; 4]);
      [|simpl; lia|reflexivity].
    split; simpl; try done; try lia. exists 2. lia.
Defined.

(** The guard of [put] does not refuse a length above the capacity: an empty
    buffer whose positions are 2 accepts eight bytes into four and writes
    past the array. *)
Lemma fifo_put_oversize :
  kylin_fifo_put (mk_kfifo (mk_kfifo_opts 4 None) 3 2 2 false [0; 0; 0; 0])
    [1; 2; 3; 4; 5; 6; 7; 8] 8 = Ub.
Proof. vm_compute. reflexivity. Qed.
