(* ===== verification/Lifo.v ===== *)
(** * The byte stack ([lib/core/math/kylin_lifo.c])

    [top] counts the bytes pushed so far; [push] appends, [pop] and [top]
    copy the last [len] bytes out.  Sizes are 64-bit and wrap. *)

From S2P Require Import Prelude Errors Bytes.

Record klifo_opts_t := mk_klifo_opts {
  opts_cap : Z;
  guard_ctor : option (Z -> bool);
}.

Record klifo_t := mk_klifo {
  l_opts : klifo_opts_t;
  l_top : Z;
  l_buf : list Z;
}.

Definition sizeof_klifo_t : Z := 40.

Definition LIFO_GUARD_MALLOC (malloc : Z -> bool) (opts : klifo_opts_t) : Z -> bool :=
  match guard_ctor opts with Some f => f | None => malloc end.

Definition kylin_lifo_create (malloc : Z -> bool) (opts : klifo_opts_t) : kerr_t + klifo_t :=
  if negb (LIFO_GUARD_MALLOC malloc opts (u64 (sizeof_klifo_t + opts_cap opts)))
  then inl KYLIN_ERROR_NOMEM
  else inr (mk_klifo opts 0 (replicate (Z.to_nat (opts_cap opts)) 0)).

(** The destructor of the options, or [kylin_free]. *)
Definition LIFO_GUARD_FREE {S} (guard_dtor : option (klifo_t -> M S unit)) (kylin_free : klifo_t -> M S unit) : klifo_t -> M S unit :=
  match guard_dtor with Some f => f | None => kylin_free end.
Definition kylin_lifo_destroy {S} (guard_dtor : option (klifo_t -> M S unit)) (kylin_free : klifo_t -> M S unit) (g : klifo_t) : M S unit :=
  LIFO_GUARD_FREE guard_dtor kylin_free g.

Definition kylin_lifo_push (l : klifo_t) (buf : list Z) (len : Z) : outcome (Z * klifo_t) :=
  if u64 (opts_cap (l_opts l) - 1) <? u64 (l_top l + len) then Ok (-1, l) else
  b ← memcpy (l_buf l) (l_top l) buf 0 len;
  Ok (s32 len, mk_klifo (l_opts l) (u64 (l_top l + len)) b).

(** [lifo->top - len < 0]: the difference of two [size_t] values. *)
Definition pop_refused (l : klifo_t) (len : Z) : bool := u64 (l_top l - len) <? 0.

Definition kylin_lifo_pop (l : klifo_t) (buf : list Z) (len : Z) :
    outcome (Z * list Z * klifo_t) :=
  if pop_refused l len then Ok (-1, buf, l) else
  b ← memcpy buf 0 (l_buf l) (l_top l - len) len;
  Ok (s32 len, b, mk_klifo (l_opts l) (u64 (l_top l - len)) (l_buf l)).

Definition kylin_lifo_top (l : klifo_t) (buf : list Z) (len : Z) : outcome (Z * list Z) :=
  if pop_refused l len then Ok (-1, buf) else
  b ← memcpy buf 0 (l_buf l) (l_top l - len) len; Ok (s32 len, b).

(** ** The stack behind the buffer *)

Record lifo_ok (l : klifo_t) : Prop := {
  ok_cap : 1 <= opts_cap (l_opts l) < 2 ^ 31;
  ok_len : Z.of_nat (length (l_buf l)) = opts_cap (l_opts l);
  ok_top : 0 <= l_top l < opts_cap (l_opts l);
}.

Definition lifo_contents (l : klifo_t) : list Z := take (Z.to_nat (l_top l)) (l_buf l).

Lemma length_lifo_contents l : lifo_ok l -> Z.of_nat (length (lifo_contents l)) = l_top l.
Proof. intros []. unfold lifo_contents. rewrite length_take. lia. Qed.

Lemma push_spec l bs :
  lifo_ok l ->
  let len := Z.of_nat (length bs) in len < 2 ^ 31 ->
  if opts_cap (l_opts l) <=? l_top l + len then kylin_lifo_push l bs len = Ok (-1, l)
  else exists l', kylin_lifo_push l bs len = Ok (len, l') /\ lifo_ok l' /\
    l_opts l' = l_opts l /\ lifo_contents l' = lifo_contents l ++ bs.
Proof.
  intros [Hc El Ht] len Hl. unfold kylin_lifo_push.
  rewrite (uw_id 64 (opts_cap (l_opts l) - 1)) by (unfold is_u; lia).
  rewrite (uw_id 64 (l_top l + len)) by (unfold is_u; lia).
  destruct (Z.leb_spec (opts_cap (l_opts l)) (l_top l + len)).
  { by rewrite (proj2 (Z.ltb_lt _ _)) by lia. }
  rewrite (proj2 (Z.ltb_ge _ _)) by lia.
  rewrite memcpy_ok by lia. cbn [mbind outcome_bind]. rewrite drop_0, firstn_all2 by lia.
  rewrite s32_id by lia. eexists. split; [done|]. split; [|split; [done|]].
  - split; simpl; try lia. rewrite length_splice; lia.
  - unfold lifo_contents. simpl. unfold splice.
    rewrite app_assoc, take_app_le by (rewrite length_app, length_take; lia).
    apply firstn_all2. rewrite length_app, length_take. lia.
Qed.

Lemma pop_spec l buf n :
  lifo_ok l -> 0 <= n -> n <= Z.of_nat (length buf) ->
  if l_top l <? n then kylin_lifo_pop l buf n = Ub /\ kylin_lifo_top l buf n = Ub
  else exists l', lifo_ok l' /\ l_opts l' = l_opts l /\
    let m := Z.to_nat (l_top l - n) in
    lifo_contents l' = take m (lifo_contents l) /\
    kylin_lifo_pop l buf n = Ok (n, splice buf 0 (drop m (lifo_contents l)), l') /\
    kylin_lifo_top l buf n = Ok (n, splice buf 0 (drop m (lifo_contents l))).
Proof.
  intros [Hc El Ht] Hn Hb. unfold kylin_lifo_pop, kylin_lifo_top, pop_refused.
  rewrite (proj2 (Z.ltb_ge _ 0)) by (by apply uw_nonneg).
  destruct (Z.ltb_spec (l_top l) n).
  { unfold memcpy, read_bytes. by rewrite (proj2 (Z.leb_gt _ _)) by lia. }
  rewrite memcpy_ok by lia. cbn [mbind outcome_bind]. rewrite s32_id by lia.
  rewrite uw_id by (unfold is_u; lia).
  exists (mk_klifo (l_opts l) (l_top l - n) (l_buf l)).
  split; [split; simpl; lia|]. split; [done|]. unfold lifo_contents. simpl.
  split; [by rewrite take_take, Nat.min_l by lia|].
  replace (take (Z.to_nat n) (drop (Z.to_nat (l_top l - n)) (l_buf l)))
    with (drop (Z.to_nat (l_top l - n)) (take (Z.to_nat (l_top l)) (l_buf l))); [done|].
  rewrite skipn_firstn_comm. f_equal. lia.
Qed.

(** ** Refinement to a stack of bytes *)

Inductive lifo_op : Type := Push (bs : list Z) | Pop (n : Z).

Definition stack_step (cap : Z) (q : list Z) (op : lifo_op) : Z * list Z * list Z :=
  match op with
  | Push bs =>
      let n := Z.of_nat (length bs) in
      if cap - 1 <? Z.of_nat (length q) + n then (-1, [], q) else (n, [], q ++ bs)
  | Pop n =>
      let m := (length q - Z.to_nat n)%nat in (n, drop m q, take m q)
  end.

Definition lifo_step (l : klifo_t) (op : lifo_op) : outcome (Z * list Z * klifo_t) :=
  match op with
  | Push bs =>
      r ← kylin_lifo_push l bs (Z.of_nat (length bs));
      let '(n, l) := r in Ok (n, [], l)
  | Pop n => kylin_lifo_pop l (replicate (Z.to_nat n) 0) n
  end.

Fixpoint stack_run (cap : Z) (q : list Z) (ops : list lifo_op) : list (Z * list Z) :=
  match ops with
  | [] => []
  | op :: ops => let '(r, o, q) := stack_step cap q op in (r, o) :: stack_run cap q ops
  end.

(** No [pop] asks for more than the stack holds. *)
Definition within (q : list Z) (op : lifo_op) : Prop :=
  match op with
  | Push bs => Z.of_nat (length bs) < 2 ^ 31
  | Pop n => 0 <= n <= Z.of_nat (length q)
  end.

Fixpoint within_run (cap : Z) (q : list Z) (ops : list lifo_op) : Prop :=
  match ops with
  | [] => True
  | op :: ops => within q op /\ within_run cap (stack_step cap q op).2 ops
  end.

Fixpoint lifo_run (l : klifo_t) (ops : list lifo_op) : outcome (list (Z * list Z)) :=
  match ops with
  | [] => Ok []
  | op :: ops =>
      x ← lifo_step l op;
      let '(r, o, l) := x in
      rs ← lifo_run l ops; Ok ((r, o) :: rs)
  end.

Lemma splice_whole (buf bs : list Z) : length bs = length buf -> splice buf 0 bs = bs.
Proof. intros H. unfold splice. rewrite take_0, drop_ge by lia. by rewrite app_nil_r. Qed.

Lemma lifo_step_sim l op :
  lifo_ok l -> within (lifo_contents l) op ->
  exists r o l', lifo_step l op = Ok (r, o, l') /\ lifo_ok l' /\ l_opts l' = l_opts l /\
    stack_step (opts_cap (l_opts l)) (lifo_contents l) op = (r, o, lifo_contents l').
Proof.
  intros Hok Hw. pose proof (length_lifo_contents l Hok) as Hlen.
  destruct op as [bs|n]; simpl in *.
  - pose proof (push_spec l bs Hok Hw) as P. rewrite Hlen.
    destruct (Z.leb_spec (opts_cap (l_opts l)) (l_top l + Z.of_nat (length bs))).
    + rewrite P. rewrite (proj2 (Z.ltb_lt _ _)) by lia. simpl. eauto 10.
    + destruct P as (l' & -> & Hok' & Eo & Ec). rewrite (proj2 (Z.ltb_ge _ _)) by lia.
      simpl. rewrite <- Ec. eauto 10.
  - pose proof (pop_spec l (replicate (Z.to_nat n) 0) n Hok ltac:(lia)
      ltac:(rewrite length_replicate; lia)) as P. rewrite Hlen in Hw.
    rewrite (proj2 (Z.ltb_ge _ _)) in P by lia. destruct P as (l' & Hok' & Eo & Ec & -> & _).
    assert (Em : Z.to_nat (l_top l - n) = (length (lifo_contents l) - Z.to_nat n)%nat) by lia.
    rewrite splice_whole by (rewrite length_drop, length_replicate; lia).
    rewrite <- Em, <- Ec. eauto 10.
Qed.

Lemma lifo_run_sim ops l :
  lifo_ok l -> within_run (opts_cap (l_opts l)) (lifo_contents l) ops ->
  lifo_run l ops = Ok (stack_run (opts_cap (l_opts l)) (lifo_contents l) ops).
Proof.
  revert l. induction ops as [|op ops IH]; intros l Hok Hg; [done|].
  destruct Hg as [Hg Hrest]. simpl.
  destruct (lifo_step_sim l op Hok Hg) as (r & o & l' & -> & Hok' & Eo & Eq).
  rewrite Eq in *. cbn [mbind outcome_bind]. simpl in Hrest. rewrite <- Eo in *.
  by rewrite IH.
Qed.

(** ** Properties *)

(** A fresh [klifo_t] of capacity [cap] is a byte stack that holds at most
    [cap - 1] bytes: every sequence of [push] and [pop] calls whose pops stay
    within the stack returns what the stack returns. *)
Theorem lifo_refines_stack malloc opts ops :
  1 <= opts_cap opts < 2 ^ 31 -> (forall n, LIFO_GUARD_MALLOC malloc opts n = true) ->
  within_run (opts_cap opts) [] ops ->
  exists l, kylin_lifo_create malloc opts = inr l /\
    lifo_run l ops = Ok (stack_run (opts_cap opts) [] ops).
Proof.
  intros Hc Hm Hw. unfold kylin_lifo_create. rewrite Hm. cbn [negb]. eexists. split; [done|].
  match goal with |- lifo_run ?l _ = _ => rewrite (lifo_run_sim ops l) end; try done.
  split; simpl; [done|rewrite length_replicate; lia|lia].
Qed.

Lemma lifo_refines_stack_witness :
  exists l, kylin_lifo_create (fun _ => true) (mk_klifo_opts 4 None) = inr l /\
    lifo_run l [Push [1; 2; 3]; Pop 1; Push [4; 5]; Push [6]; Pop 2] =
      Ok [(3, []); (1, [3]); (-1, []); (1, []); (2, [2; 6])].
Proof.
  apply (lifo_refines_stack (fun _ => true) (mk_klifo_opts 4 None)); simpl; try done; try lia.
Defined.

(** The underflow guard compares an unsigned difference with 0 and never
    fires: asking for more bytes than were pushed reads before the buffer. *)
Theorem lifo_pop_underflow l buf n :
  lifo_ok l -> l_top l < n -> n <= Z.of_nat (length buf) ->
  pop_refused l n = false /\ kylin_lifo_pop l buf n = Ub /\ kylin_lifo_top l buf n = Ub.
Proof.
  intros Hok Hn Hb. split.
  - by apply Z.ltb_ge, uw_nonneg.
  - pose proof (ok_top l Hok). pose proof (pop_spec l buf n Hok ltac:(lia) Hb) as P.
    by rewrite (proj2 (Z.ltb_lt _ _)) in P by lia.
Qed.

Lemma lifo_pop_underflow_witness :
  let l := mk_klifo (mk_klifo_opts 4 None) 1 [7; 0; 0; 0] in
  l_top l < 2 /\ kylin_lifo_pop l [0; 0] 2 = Ub.
Proof.
  split; [simpl; lia|].
  apply (lifo_pop_underflow (mk_klifo (mk_klifo_opts 4 None) 1 [7; 0; 0; 0]) [0; 0] 2);
    [split; simpl; lia|simpl; lia|simpl; lia].
Defined.
