(* ===== verification/Atomic.v ===== *)
(** * Atomic counters ([include/arch/kylin_atomic.h], [include/arch/x86/kylin_atomic.h])

    A counter is the [w]-bit value of its [cnt] field.  Each operation is one
    locked instruction (or a plain aligned access), so as a transition it is
    one step: a function from the counter to the new counter and the result.
    [read] returns the signed reading, as the C prototypes do. *)

From S2P Require Import Prelude.

(** The instructions, at any width. *)
Definition lock_xadd (w cnt inc : Z) : Z := uw w (cnt + inc).
Definition cmpxchg (cnt expected src : Z) : Z * Z :=
  if cnt =? expected then (src, 1) else (cnt, 0).

(** ** 16-bit counters *)
Definition kylin_atomic16_init (cnt : Z) : Z := 0.
Definition kylin_atomic16_read (cnt : Z) : Z := sw 16 cnt.
Definition kylin_atomic16_set (cnt new_value : Z) : Z := uw 16 new_value.
Definition kylin_atomic16_add (cnt inc : Z) : Z := lock_xadd 16 cnt inc.
Definition kylin_atomic16_sub (cnt dec : Z) : Z := lock_xadd 16 cnt (- dec).
Definition kylin_atomic16_inc (cnt : Z) : Z := lock_xadd 16 cnt 1.
Definition kylin_atomic16_dec (cnt : Z) : Z := lock_xadd 16 cnt (-1).
Definition kylin_atomic16_clear (cnt : Z) : Z := 0.
(** Counter and result; the result of [cmpset] is 1 on success. *)
Definition kylin_atomic16_add_return (cnt inc : Z) : Z * Z :=
  (lock_xadd 16 cnt inc, sw 16 (lock_xadd 16 cnt inc)).
Definition kylin_atomic16_sub_return (cnt dec : Z) : Z * Z :=
  (lock_xadd 16 cnt (- dec), sw 16 (lock_xadd 16 cnt (- dec))).
Definition kylin_atomic16_inc_and_test (cnt : Z) : Z * bool :=
  let cnt := kylin_atomic16_inc cnt in (cnt, cnt =? 0).
Definition kylin_atomic16_dec_and_test (cnt : Z) : Z * bool :=
  let cnt := kylin_atomic16_dec cnt in (cnt, cnt =? 0).
Definition kylin_atomic16_cmpset (cnt expected src : Z) : Z * Z := cmpxchg cnt expected src.
Definition kylin_atomic16_test_and_set (cnt : Z) : Z * Z := kylin_atomic16_cmpset cnt 0 1.

(** ** 32-bit counters *)
Definition kylin_atomic32_init (cnt : Z) : Z := 0.
Definition kylin_atomic32_read (cnt : Z) : Z := sw 32 cnt.
Definition kylin_atomic32_set (cnt new_value : Z) : Z := uw 32 new_value.
Definition kylin_atomic32_add (cnt inc : Z) : Z := lock_xadd 32 cnt inc.
Definition kylin_atomic32_sub (cnt dec : Z) : Z := lock_xadd 32 cnt (- dec).
Definition kylin_atomic32_inc (cnt : Z) : Z := lock_xadd 32 cnt 1.
Definition kylin_atomic32_dec (cnt : Z) : Z := lock_xadd 32 cnt (-1).
Definition kylin_atomic32_clear (cnt : Z) : Z := 0.
(** Counter and result; the result of [cmpset] is 1 on success. *)
Definition kylin_atomic32_add_return (cnt inc : Z) : Z * Z :=
  (lock_xadd 32 cnt inc, sw 32 (lock_xadd 32 cnt inc)).
Definition kylin_atomic32_sub_return (cnt dec : Z) : Z * Z :=
  (lock_xadd 32 cnt (- dec), sw 32 (lock_xadd 32 cnt (- dec))).
Definition kylin_atomic32_inc_and_test (cnt : Z) : Z * bool :=
  let cnt := kylin_atomic32_inc cnt in (cnt, cnt =? 0).
Definition kylin_atomic32_dec_and_test (cnt : Z) : Z * bool :=
  let cnt := kylin_atomic32_dec cnt in (cnt, cnt =? 0).
Definition kylin_atomic32_cmpset (cnt expected src : Z) : Z * Z := cmpxchg cnt expected src.
Definition kylin_atomic32_test_and_set (cnt : Z) : Z * Z := kylin_atomic32_cmpset cnt 0 1.

(** ** 64-bit counters *)
Definition kylin_atomic64_init (cnt : Z) : Z := 0.
Definition kylin_atomic64_read (cnt : Z) : Z := sw 64 cnt.
Definition kylin_atomic64_set (cnt new_value : Z) : Z := uw 64 new_value.
Definition kylin_atomic64_add (cnt inc : Z) : Z := lock_xadd 64 cnt inc.
Definition kylin_atomic64_sub (cnt dec : Z) : Z := lock_xadd 64 cnt (- dec).
Definition kylin_atomic64_inc (cnt : Z) : Z := lock_xadd 64 cnt 1.
Definition kylin_atomic64_dec (cnt : Z) : Z := lock_xadd 64 cnt (-1).
Definition kylin_atomic64_clear (cnt : Z) : Z := 0.
(** Counter and result; the result of [cmpset] is 1 on success. *)
Definition kylin_atomic64_add_return (cnt inc : Z) : Z * Z :=
  (lock_xadd 64 cnt inc, sw 64 (uw 64 (cnt + inc))).
Definition kylin_atomic64_sub_return (cnt dec : Z) : Z * Z := kylin_atomic64_add_return cnt (sw 64 (- dec)).
Definition kylin_atomic64_inc_and_test (cnt : Z) : Z * bool :=
  let cnt := kylin_atomic64_inc cnt in (cnt, cnt =? 0).
Definition kylin_atomic64_dec_and_test (cnt : Z) : Z * bool :=
  let cnt := kylin_atomic64_dec cnt in (cnt, cnt =? 0).
Definition kylin_atomic64_cmpset (cnt expected src : Z) : Z * Z := cmpxchg cnt expected src.
Definition kylin_atomic64_test_and_set (cnt : Z) : Z * Z := kylin_atomic64_cmpset cnt 0 1.

(** ** Facts *)

Lemma lock_xadd_range w cnt inc : 0 <= w -> is_u w (lock_xadd w cnt inc).
Proof. intros. by apply uw_range. Qed.

Lemma lock_xadd_add w cnt a b :
  lock_xadd w (lock_xadd w cnt a) b = lock_xadd w cnt (a + b).
Proof. unfold lock_xadd, uw. rewrite Zplus_mod_idemp_l. f_equal. lia. Qed.

(** Additions commute: the final value of a counter does not depend on the
    order in which threads performed their atomic updates. *)
Lemma foldl_xadd w incs cnt :
  is_u w cnt -> foldl (lock_xadd w) cnt incs = uw w (cnt + foldr Z.add 0 incs).
Proof.
  revert cnt. induction incs as [|i incs IH]; intros cnt Hc; simpl.
  - rewrite Z.add_0_r. symmetry. by apply uw_id.
  - assert (0 <= w) by (destruct (Z.le_gt_cases 0 w); [done|];
      unfold is_u in Hc; rewrite Z.pow_neg_r in Hc by lia; lia).
    rewrite IH by (by apply lock_xadd_range). unfold lock_xadd, uw.
    rewrite Zplus_mod_idemp_l. f_equal. lia.
Qed.

(** A reference count: [dec_and_test] reports the last release. *)
Lemma dec_and_test_last cnt :
  0 < cnt < 2 ^ 32 ->
  kylin_atomic32_dec_and_test cnt = (cnt - 1, cnt =? 1).
Proof.
  intros H. unfold kylin_atomic32_dec_and_test, kylin_atomic32_dec, lock_xadd.
  rewrite uw_id by (unfold is_u; lia). f_equal; lia.
Qed.

(** [n] releases in a row, and what each of them reports. *)
Fixpoint releases (n : nat) (cnt : Z) : Z * list bool :=
  match n with
  | O => (cnt, [])
  | S n => let '(cnt, last) := kylin_atomic32_dec_and_test cnt in
           let '(cnt, rs) := releases n cnt in (cnt, last :: rs)
  end.

Lemma foldr_add_perm l l' : Permutation l l' -> foldr Z.add 0 l = foldr Z.add 0 l'.
Proof. induction 1; simpl; lia. Qed.

(** ** Properties *)

(** However the atomic additions of several threads interleave, the counter
    ends with the same value: the wrapped sum. *)
Theorem atomic_adds_commute cnt incs incs' :
  is_u 32 cnt -> Permutation incs incs' ->
  foldl kylin_atomic32_add cnt incs = foldl kylin_atomic32_add cnt incs' /\
  foldl kylin_atomic32_add cnt incs = u32 (cnt + foldr Z.add 0 incs).
Proof.
  intros Hc Hp. unfold kylin_atomic32_add. rewrite !foldl_xadd by done.
  by rewrite (foldr_add_perm _ _ Hp).
Qed.

Lemma atomic_adds_commute_witness :
  foldl kylin_atomic32_add 5 [1; 0xffffffff; 7] = foldl kylin_atomic32_add 5 [7; 1; 0xffffffff] /\
  foldl kylin_atomic32_add 5 [1; 0xffffffff; 7] = 12.
Proof.
  apply (atomic_adds_commute 5 [1; 0xffffffff; 7] [7; 1; 0xffffffff]); [unfold is_u; lia|].
  apply (Permutation_cons_append [1; 0xffffffff] 7) || 
  (symmetry; apply (Permutation_cons_append [1; 0xffffffff] 7)).
Defined.

(** A reference count of [n] reports the last of its [n] releases, and no
    other, and is then zero. *)
Theorem dec_and_test_reports_last n :
  (0 < n)%nat -> Z.of_nat n < 2 ^ 32 ->
  releases n (Z.of_nat n) = (0, replicate (n - 1) false ++ [true]).
Proof.
  induction n as [|n IH]; intros Hn Hw; [lia|].
  destruct n as [|n]; [done|].
  change (releases (S (S n)) (Z.of_nat (S (S n)))) with
    (let '(cnt, last) := kylin_atomic32_dec_and_test (Z.of_nat (S (S n))) in
     let '(cnt, rs) := releases (S n) cnt in (cnt, last :: rs)).
  rewrite dec_and_test_last by lia.
  replace (Z.of_nat (S (S n)) - 1) with (Z.of_nat (S n)) by lia. rewrite IH by lia.
  rewrite (proj2 (Z.eqb_neq _ 1)) by lia. by rewrite !Nat.sub_succ, !Nat.sub_0_r.
Qed.

Lemma dec_and_test_reports_last_witness : releases 3 3 = (0, [false; false; true]).
Proof. apply (dec_and_test_reports_last 3); lia. Defined.
