(* ===== verification/Locks.v ===== *)
(** * Spin locks and read/write locks

    [include/arch/kylin_spinlock.h], [include/arch/x86/kylin_spinlock.h] and
    [include/arch/kylin_rwlock.h].  A lock operation is a loop of atomic
    accesses; here each access is one transition of the calling thread, and
    the threads of a system interleave freely.  A thread's program counter
    says which access it performs next. *)

From S2P Require Import Prelude Atomic.

(** ** Counting threads *)
Definition count {A} (p : A -> bool) (l : list A) : nat := length (List.filter p l).

Lemma count_insert {A} (p : A -> bool) l i (x y : A) :
  l !! i = Some x ->
  (count p (<[i := y]> l) + Nat.b2n (p x) = count p l + Nat.b2n (p y))%nat.
Proof.
  unfold count. revert i. induction l as [|z l IH]; intros [|i] H; simplify_eq/=.
  - destruct (p x), (p y); simpl; lia.
  - specialize (IH i H). destruct (p z); simpl; lia.
Qed.

Lemma count_replicate {A} (p : A -> bool) n (x : A) : p x = false -> count p (replicate n x) = 0%nat.
Proof. intros H. unfold count. induction n; simpl; [done|]. by rewrite H. Qed.

Lemma count_le {A} (p : A -> bool) l : (count p l <= length l)%nat.
Proof. unfold count. induction l as [|x l IH]; simpl; [lia|]. destruct (p x); simpl; lia. Qed.

Lemma count_pos {A} (p : A -> bool) l i (x : A) : l !! i = Some x -> p x = true -> (0 < count p l)%nat.
Proof. intros H E. pose proof (count_insert p l i x x H). unfold count in *.
  revert i H H0. induction l as [|z l IH]; intros [|i] H H0; simplify_eq/=.
  - rewrite E. simpl. lia.
  - destruct (p z); simpl; [lia|]. eapply IH; [done|]. lia.
Qed.

(** ** Spin lock *)

Definition kspinlock_t : Type := Z.   (** [locked] *)
Definition kylin_spinlock_init (sl : kspinlock_t) : kspinlock_t := 0.
Definition kylin_spinlock_is_locked (sl : kspinlock_t) : Z := sl.

(** [xchg]: the new memory and the old value. *)
Definition xchg (mem v : Z) : Z * Z := (v, mem).

(** [SXchg]: about to exchange at label 1; [SWait]: at the [cmpl] of label 2. *)
Inductive spin_pc : Type := SIdle | SXchg | SWait | SHeld.
#[export] Instance spin_pc_eq_dec : EqDecision spin_pc.
Proof. solve_decision. Defined.

(** One access of [kylin_spinlock_lock]. *)
Definition kylin_spinlock_lock (pc : spin_pc) (sl : kspinlock_t) : spin_pc * kspinlock_t :=
  match pc with
  | SXchg => let '(sl, lv) := xchg sl 1 in (if lv =? 0 then SHeld else SWait, sl)
  | SWait => (if sl =? 0 then SXchg else SWait, sl)
  | _ => (pc, sl)
  end.

Definition kylin_spinlock_unlock (sl : kspinlock_t) : kspinlock_t := (xchg sl 0).1.

(** The old value: 0 when the lock was taken. *)
Definition kylin_spinlock_trylock (sl : kspinlock_t) : kspinlock_t * Z := xchg sl 1.

Inductive spin_thread : spin_pc -> kspinlock_t -> spin_pc -> kspinlock_t -> Prop :=
| spin_begin sl : spin_thread SIdle sl SXchg sl
| spin_lock_step pc sl pc' sl' :
    pc = SXchg \/ pc = SWait -> kylin_spinlock_lock pc sl = (pc', sl') -> spin_thread pc sl pc' sl'
| spin_try sl sl' old :
    kylin_spinlock_trylock sl = (sl', old) ->
    spin_thread SIdle sl (if old =? 0 then SHeld else SIdle) sl'
| spin_unlock sl : spin_thread SHeld sl SIdle (kylin_spinlock_unlock sl).

(** ** Read/write lock *)

Definition krwlock_t : Type := Z.   (** [cnt] *)
Definition WRITER : Z := 0xFFFFFFFF.
Definition kylin_rwlock_init (rwl : krwlock_t) : krwlock_t := 0.

(** [RLoad], [WLoad]: about to load [cnt]; [RCas x], [WCas]: about to
    compare-and-set with the value loaded. *)
Inductive rw_pc : Type := RwIdle | RLoad | RCas (x : Z) | RHeld | WLoad | WCas | WHeld.
#[export] Instance rw_pc_eq_dec : EqDecision rw_pc.
Proof. solve_decision. Defined.

Definition kylin_rwlock_read_lock (pc : rw_pc) (cnt : krwlock_t) : rw_pc * krwlock_t :=
  match pc with
  | RLoad => (if cnt =? WRITER then RLoad else RCas cnt, cnt)
  | RCas x =>
      let '(cnt, success) := kylin_atomic32_cmpset cnt x (u32 (x + 1)) in
      (if success =? 0 then RLoad else RHeld, cnt)
  | _ => (pc, cnt)
  end.

Definition kylin_rwlock_read_unlock (cnt : krwlock_t) : krwlock_t := kylin_atomic32_dec cnt.

Definition kylin_rwlock_write_lock (pc : rw_pc) (cnt : krwlock_t) : rw_pc * krwlock_t :=
  match pc with
  | WLoad => (if negb (cnt =? 0) then WLoad else WCas, cnt)
  | WCas =>
      let '(cnt, success) := kylin_atomic32_cmpset cnt 0 WRITER in
      (if success =? 0 then WLoad else WHeld, cnt)
  | _ => (pc, cnt)
  end.

Definition kylin_rwlock_write_unlock (cnt : krwlock_t) : krwlock_t := kylin_atomic32_inc cnt.

Inductive rw_thread : rw_pc -> krwlock_t -> rw_pc -> krwlock_t -> Prop :=
| rw_begin_read c : rw_thread RwIdle c RLoad c
| rw_begin_write c : rw_thread RwIdle c WLoad c
| rw_read_step pc c pc' c' :
    pc = RLoad \/ (exists x, pc = RCas x) ->
    kylin_rwlock_read_lock pc c = (pc', c') -> rw_thread pc c pc' c'
| rw_write_step pc c pc' c' :
    pc = WLoad \/ pc = WCas ->
    kylin_rwlock_write_lock pc c = (pc', c') -> rw_thread pc c pc' c'
| rw_read_unlock c : rw_thread RHeld c RwIdle (kylin_rwlock_read_unlock c)
| rw_write_unlock c : rw_thread WHeld c RwIdle (kylin_rwlock_write_unlock c).

(** ** Systems of threads *)

(** A step of a system: some thread performs its next access. *)
Inductive system_step {PC : Type} (thread : PC -> Z -> PC -> Z -> Prop) :
    list PC * Z -> list PC * Z -> Prop :=
| system_thread pcs mem i pc pc' mem' :
    pcs !! i = Some pc -> thread pc mem pc' mem' ->
    system_step thread (pcs, mem) (<[i := pc']> pcs, mem').

Definition reachable {PC} (thread : PC -> Z -> PC -> Z -> Prop) (idle : PC) (n : nat) (init : Z)
    (s : list PC * Z) : Prop :=
  rtc (system_step thread) (replicate n idle, init) s.

(** Rule induction over the runs of a system. *)
Lemma reachable_ind {PC} (thread : PC -> Z -> PC -> Z -> Prop) idle n init
    (I : list PC -> Z -> Prop) s :
  I (replicate n idle) init ->
  (forall pcs mem i pc pc' mem', length pcs = n -> I pcs mem -> pcs !! i = Some pc ->
     thread pc mem pc' mem' -> I (<[i := pc']> pcs) mem') ->
  reachable thread idle n init s -> I s.1 s.2.
Proof.
  intros H0 Hstep Hr.
  enough (length s.1 = n /\ I s.1 s.2) by tauto.
  unfold reachable in Hr.
  refine (rtc_ind_r (R := system_step thread) (fun s => length s.1 = n /\ I s.1 s.2)
    (replicate n idle, init) _ _ s Hr).
  - split; [apply length_replicate|done].
  - intros y z _ Hz [Hl HI]. destruct Hz as [pcs mem i pc pc' mem' Hi Ht]. simpl in *.
    rewrite length_insert. split; [done|]. by eapply Hstep.
Qed.

(** ** Spin lock: mutual exclusion *)
Definition is_held (pc : spin_pc) : bool := match pc with SHeld => true | _ => false end.

Definition spin_inv (pcs : list spin_pc) (sl : Z) : Prop :=
  sl = Z.of_nat (count is_held pcs) /\ (sl = 0 \/ sl = 1).

Lemma spin_inv_step pcs sl i pc pc' sl' :
  spin_inv pcs sl -> pcs !! i = Some pc -> spin_thread pc sl pc' sl' ->
  spin_inv (<[i := pc']> pcs) sl'.
Proof.
  intros [E B] Hi Ht. unfold spin_inv. pose proof (count_insert is_held pcs i pc pc' Hi) as C.
  destruct Ht as [sl|pc sl pc' sl' Hpc Hl|sl sl' old Hl|sl]; simpl in C.
  - lia.
  - destruct Hpc as [-> | ->]; simpl in Hl, C;
      destruct (Z.eqb_spec sl 0); simplify_eq; simpl in C; lia.
  - unfold kylin_spinlock_trylock, xchg in Hl. injection Hl as <- <-.
    destruct (Z.eqb_spec sl 0); simpl in C; lia.
  - pose proof (count_pos is_held pcs i SHeld Hi eq_refl).
    unfold kylin_spinlock_unlock, xchg. simpl. lia.
Qed.

Lemma spin_inv_reachable n s :
  reachable spin_thread SIdle n (kylin_spinlock_init 0) s -> spin_inv s.1 s.2.
Proof.
  apply reachable_ind.
  - split; [by rewrite count_replicate|by left].
  - intros. by eapply spin_inv_step.
Qed.

(** ** Read/write lock: a writer excludes everybody else *)
Definition reads (pc : rw_pc) : bool := match pc with RHeld => true | _ => false end.
Definition writes (pc : rw_pc) : bool := match pc with WHeld => true | _ => false end.

Definition rw_inv (n : nat) (pcs : list rw_pc) (cnt : Z) : Prop :=
  length pcs = n /\
  (forall i x, pcs !! i = Some (RCas x) -> x <> WRITER) /\
  ((cnt = WRITER /\ count writes pcs = 1%nat /\ count reads pcs = 0%nat) \/
   (cnt = Z.of_nat (count reads pcs) /\ count writes pcs = 0%nat)).

Lemma rw_inv_cas (pcs : list rw_pc) i pc' :
  (forall j x, pcs !! j = Some (RCas x) -> x <> WRITER) ->
  (forall x, pc' = RCas x -> x <> WRITER) ->
  forall j x, <[i := pc']> pcs !! j = Some (RCas x) -> x <> WRITER.
Proof.
  intros H Hpc j x Hj. apply list_lookup_insert_Some in Hj as [(_ & E & _)|[_ Hj]]; eauto.
Qed.

Lemma rw_inv_step n pcs cnt i pc pc' cnt' :
  Z.of_nat n < WRITER -> rw_inv n pcs cnt -> pcs !! i = Some pc -> rw_thread pc cnt pc' cnt' ->
  rw_inv n (<[i := pc']> pcs) cnt'.
Proof.
  intros Hn (Hl & Hx & HI) Hi Ht. unfold rw_inv. change WRITER with 4294967295 in *.
  pose proof (count_insert reads pcs i pc pc' Hi) as CR.
  pose proof (count_insert writes pcs i pc pc' Hi) as CW.
  pose proof (count_le reads (<[i := pc']> pcs)) as LR. rewrite length_insert, Hl in LR.
  split; [by rewrite length_insert|].
  destruct Ht as [c|c|pc c pc' c' Hpc E|pc c pc' c' Hpc E|c|c]; simpl in CR, CW.
  - split; [by apply rw_inv_cas|lia].
  - split; [by apply rw_inv_cas|lia].
  - destruct Hpc as [->|[x ->]]; simpl in E, CR, CW.
    + change WRITER with 4294967295 in E. destruct (Z.eqb_spec c 4294967295); simplify_eq; simpl in CR, CW;
        (split; [apply rw_inv_cas; [done|]; intros; simplify_eq; done|lia]).
    + pose proof (Hx i x Hi) as Hxi. unfold kylin_atomic32_cmpset, cmpxchg in E.
      destruct (Z.eqb_spec c x); simplify_eq; simpl in CR, CW;
        (split; [by apply rw_inv_cas|]).
      all: try lia.
      rewrite uw_id by (unfold is_u; lia). lia.
  - destruct Hpc as [-> | ->]; simpl in E, CR, CW.
    + destruct (Z.eqb_spec c 0); cbn in E; simplify_eq; simpl in CR, CW; (split; [by apply rw_inv_cas|lia]).
    + unfold kylin_atomic32_cmpset, cmpxchg in E.
      destruct (Z.eqb_spec c 0); simplify_eq; simpl in CR, CW;
        (split; [by apply rw_inv_cas|change WRITER with 4294967295; lia]).
  - split; [by apply rw_inv_cas|]. pose proof (count_pos reads pcs i RHeld Hi eq_refl).
    unfold kylin_rwlock_read_unlock, kylin_atomic32_dec, lock_xadd.
    rewrite uw_id by (unfold is_u; lia). lia.
  - split; [by apply rw_inv_cas|]. pose proof (count_pos writes pcs i WHeld Hi eq_refl).
    unfold kylin_rwlock_write_unlock, kylin_atomic32_inc, lock_xadd.
    destruct HI as [(-> & HW & HR)|]; [|lia]. change (uw 32 (4294967295 + 1)) with 0. lia.
Qed.

Lemma rw_inv_reachable n s :
  Z.of_nat n < WRITER -> reachable rw_thread RwIdle n (kylin_rwlock_init 0) s ->
  rw_inv n s.1 s.2.
Proof.
  intros Hn. apply (reachable_ind rw_thread RwIdle n _ (rw_inv n)).
  - split; [apply length_replicate|]. split.
    + intros i x Hi. apply lookup_replicate in Hi as [Hi _]. done.
    + right. by rewrite !count_replicate.
  - intros. by eapply rw_inv_step.
Qed.

(** ** Progress

    A thread that runs while the others stand still. *)
Definition alone {PC} (thread : PC -> Z -> PC -> Z -> Prop) (a b : PC * Z) : Prop :=
  thread a.1 a.2 b.1 b.2.

Lemma run_alone {PC} (thread : PC -> Z -> PC -> Z -> Prop) (pcs : list PC) i a b :
  pcs !! i = Some a.1 -> rtc (alone thread) a b ->
  rtc (system_step thread) (pcs, a.2) (<[i := b.1]> pcs, b.2).
Proof.
  intros Hi H. revert pcs Hi. induction H as [a|a b c Hs _ IH]; intros pcs Hi.
  - rewrite list_insert_id by done. apply rtc_refl.
  - eapply rtc_l; [by eapply system_thread; [exact Hi|exact Hs]|].
    rewrite <- (list_insert_insert_eq pcs i c.1 b.1). apply IH.
    apply list_lookup_insert_eq. by eapply lookup_lt_Some.
Qed.

Lemma count_find {A} (p : A -> bool) l : (0 < count p l)%nat -> exists i x, l !! i = Some x /\ p x = true.
Proof.
  unfold count. induction l as [|x l IH]; simpl; [lia|]. destruct (p x) eqn:E; intros H.
  - by exists 0%nat, x.
  - destruct (IH H) as (i & y & Hi & Hy). by exists (S i), y.
Qed.

(** The holders give the lock back, one after the other, and nobody else moves. *)
Lemma rw_drain n i pc pcs cnt : Z.of_nat n < WRITER -> reads pc = false -> writes pc = false ->
  rw_inv n pcs cnt -> pcs !! i = Some pc ->
  exists pcs', rtc (system_step rw_thread) (pcs, cnt) (pcs', 0) /\ pcs' !! i = Some pc.
Proof.
  intros Hn Hr Hw. remember (count reads pcs + count writes pcs)%nat as k eqn:Ek.
  revert pcs cnt Ek. induction k as [|k IH]; intros pcs cnt Ek HI Hi.
  - exists pcs. split; [|done]. destruct HI as (_ & _ & [?|[-> _]]); [lia|].
    replace (count reads pcs) with 0%nat by lia. apply rtc_refl.
  - assert (Hj : exists j x cnt', pcs !! j = Some x /\ reads x || writes x = true /\ rw_thread x cnt RwIdle cnt').
    { destruct (decide (0 < count reads pcs)%nat) as [H|H].
      - destruct (count_find _ _ H) as (j & x & Hj & Hx). exists j, x. eexists. split; [done|].
        rewrite Hx. split; [done|]. destruct x; try done. apply rw_read_unlock.
      - destruct (count_find writes pcs ltac:(lia)) as (j & x & Hj & Hx). exists j, x. eexists. split; [done|].
        rewrite Hx. split; [apply orb_true_r|]. destruct x; try done. apply rw_write_unlock. }
    destruct Hj as (j & x & cnt' & Hj & Hx & Ht).
    assert (Hne : j <> i) by (intros ->; rewrite Hi in Hj; simplify_eq; by rewrite Hr, Hw in Hx).
    pose proof (count_insert reads pcs j x RwIdle Hj) as CR. pose proof (count_insert writes pcs j x RwIdle Hj) as CW.
    destruct (IH (<[j := RwIdle]> pcs) cnt') as (pcs' & Hs & Hi').
    + destruct (reads x) eqn:E1, (writes x) eqn:E2; simpl in Hx, CR, CW; try done; try lia. by destruct x.
    + by eapply rw_inv_step.
    + by rewrite list_lookup_insert_ne.
    + exists pcs'. split; [|done]. eapply rtc_l; [by eapply system_thread|exact Hs].
Qed.

(** What a waiting thread does once the counter is 0. *)
Definition rw_wants (pc : rw_pc) : option rw_pc :=
  match pc with
  | RLoad | RCas _ => Some RHeld
  | WLoad | WCas => Some WHeld
  | _ => None
  end.

Lemma rw_acquire_free pc h : rw_wants pc = Some h -> exists cnt, rtc (alone rw_thread) (pc, 0) (h, cnt).
Proof.
  assert (R0 : alone rw_thread (RCas 0, 0) (RHeld, 1)) by (apply rw_read_step; [right; by exists 0|done]).
  assert (R1 : alone rw_thread (RLoad, 0) (RCas 0, 0)) by (apply rw_read_step; [by left|done]).
  assert (W0 : alone rw_thread (WCas, 0) (WHeld, WRITER)) by (apply rw_write_step; [by right|done]).
  assert (W1 : alone rw_thread (WLoad, 0) (WCas, 0)) by (apply rw_write_step; [by left|done]).
  assert (RL : rtc (alone rw_thread) (RLoad, 0) (RHeld, 1)).
  { eapply rtc_l; [exact R1|]. eapply rtc_l; [exact R0|apply rtc_refl]. }
  destruct pc as [| |x| | | |]; simpl; intros [= <-].
  - by exists 1.
  - exists 1. destruct (decide (x = 0)) as [->|Hx]; [eapply rtc_l; [exact R0|apply rtc_refl]|].
    eapply rtc_l; [|exact RL]. apply rw_read_step; [right; by exists x|]. simpl.
    unfold kylin_atomic32_cmpset, cmpxchg. by rewrite (proj2 (Z.eqb_neq 0 x)) by done.
  - exists WRITER. eapply rtc_l; [exact W1|]. eapply rtc_l; [exact W0|apply rtc_refl].
  - exists WRITER. eapply rtc_l; [exact W0|apply rtc_refl].
Qed.

(** ** Properties *)

(** C7. The spin lock gives mutual exclusion: in every state any number of threads
    can reach through [lock], [trylock] and [unlock], at most one holds the
    lock, and the word is 1 exactly when one does. *)
Theorem spinlock_mutual_exclusion n s :
  reachable spin_thread SIdle n (kylin_spinlock_init 0) s ->
  (count is_held s.1 <= 1)%nat /\
  kylin_spinlock_is_locked s.2 = Z.of_nat (count is_held s.1).
Proof.
  intros H. apply spin_inv_reachable in H as [E B]. unfold kylin_spinlock_is_locked. lia.
Qed.

Lemma spinlock_mutual_exclusion_witness :
  reachable spin_thread SIdle 2 (kylin_spinlock_init 0) ([SHeld; SXchg], 1) /\
  (count is_held [SHeld; SXchg] <= 1)%nat.
Proof.
  assert (H : reachable spin_thread SIdle 2 (kylin_spinlock_init 0) ([SHeld; SXchg], 1)).
  { eapply rtc_l; [apply (system_thread _ _ _ 0 SIdle SXchg 0); [done|apply spin_begin]|].
    eapply rtc_l; [apply (system_thread _ _ _ 1 SIdle SXchg 0); [done|apply spin_begin]|].
    eapply rtc_l; [apply (system_thread _ _ _ 0 SXchg SHeld 1); [done|]|apply rtc_refl].
    apply spin_lock_step; [by left|reflexivity]. }
  split; [exact H|]. apply (spinlock_mutual_exclusion 2 _ H).
Defined.

(** C8. The read/write lock with fewer than 2^32-1 threads: whenever a thread holds
    it for writing it is the only holder; otherwise the counter is the number
    of readers. *)
Theorem rwlock_writer_excludes n s :
  Z.of_nat n < WRITER -> reachable rw_thread RwIdle n (kylin_rwlock_init 0) s ->
  (s.2 = WRITER /\ count writes s.1 = 1%nat /\ count reads s.1 = 0%nat) \/
  (s.2 = Z.of_nat (count reads s.1) /\ count writes s.1 = 0%nat).
Proof. intros Hn H. by apply rw_inv_reachable in H as (_ & _ & H). Qed.

Lemma rwlock_writer_excludes_witness :
  reachable rw_thread RwIdle 2 (kylin_rwlock_init 0) ([WHeld; RwIdle], WRITER) /\
  count reads [WHeld; RwIdle] = 0%nat.
Proof.
  assert (H : reachable rw_thread RwIdle 2 (kylin_rwlock_init 0) ([WHeld; RwIdle], WRITER)).
  { eapply rtc_l; [apply (system_thread _ _ _ 0 RwIdle WLoad 0); [done|apply rw_begin_write]|].
    eapply rtc_l; [apply (system_thread _ _ _ 0 WLoad WCas 0); [done|]|].
    { apply rw_write_step; [by left|reflexivity]. }
    eapply rtc_l; [apply (system_thread _ _ _ 0 WCas WHeld WRITER); [done|]|apply rtc_refl].
    apply rw_write_step; [by right|reflexivity]. }
  split; [exact H|].
  destruct (rwlock_writer_excludes 2 ([WHeld; RwIdle], WRITER)) as [(_ & _ & R)|(E & _)];
    [vm_compute; reflexivity|exact H|exact R|discriminate E].
Defined.

(** C13. No deadlock.  From every state that fewer than 2^32-1 threads can
    reach, a thread waiting for the read/write lock, as a reader or as a
    writer, can come to hold it: there is a continuation in which the holders
    unlock and the thread then succeeds. *)
Theorem rwlock_no_deadlock n s i pc h :
  Z.of_nat n < WRITER -> reachable rw_thread RwIdle n (kylin_rwlock_init 0) s ->
  s.1 !! i = Some pc -> rw_wants pc = Some h ->
  exists s', rtc (system_step rw_thread) s s' /\ s'.1 !! i = Some h.
Proof.
  intros Hn Hr Hi Hw. pose proof (rw_inv_reachable n s Hn Hr) as HI. destruct s as [pcs cnt]. simpl in *.
  destruct (rw_drain n i pc pcs cnt Hn) as (pcs' & Hs & Hi'); [by destruct pc|by destruct pc|done|done|].
  destruct (rw_acquire_free pc h Hw) as (c & Ha).
  exists (<[i := h]> pcs', c). split.
  - etrans; [exact Hs|]. by apply (run_alone rw_thread pcs' i (pc, 0) (h, c)).
  - apply list_lookup_insert_eq. by eapply lookup_lt_Some.
Qed.

Lemma rwlock_no_deadlock_witness :
  exists s', rtc (system_step rw_thread) ([WHeld; RLoad], WRITER) s' /\ s'.1 !! 1%nat = Some RHeld.
Proof.
  apply (rwlock_no_deadlock 2 ([WHeld; RLoad], WRITER) 1 RLoad RHeld); [vm_compute; reflexivity| |reflexivity|reflexivity].
  eapply rtc_l; [apply (system_thread _ _ _ 0 RwIdle WLoad 0); [done|apply rw_begin_write]|].
  eapply rtc_l; [apply (system_thread _ _ _ 0 WLoad WCas 0); [done|]|].
  { apply rw_write_step; [by left|reflexivity]. }
  eapply rtc_l; [apply (system_thread _ _ _ 0 WCas WHeld WRITER); [done|]|].
  { apply rw_write_step; [by right|reflexivity]. }
  eapply rtc_l; [apply (system_thread _ _ _ 1 RwIdle RLoad WRITER); [done|apply rw_begin_read]|apply rtc_refl].
Defined.

(** The spin lock as one thread sees it while the others stand still: taken at
    once when it is free, and never while somebody else holds it. *)
Fixpoint spin_alone (fuel : nat) (pc : spin_pc) (sl : kspinlock_t) : outcome kspinlock_t :=
  match fuel with
  | O => OutOfFuel
  | S fuel =>
      let '(pc, sl) := kylin_spinlock_lock pc sl in
      if decide (pc = SHeld) then Ok sl else spin_alone fuel pc sl
  end.

Lemma spin_alone_free fuel : spin_alone (S fuel) SXchg 0 = Ok 1.
Proof. done. Qed.

Lemma spin_alone_waits fuel sl : sl <> 0 -> spin_alone fuel SXchg sl = OutOfFuel.
Proof.
  intros H. destruct fuel as [|fuel]; [done|]. simpl. rewrite (proj2 (Z.eqb_neq sl 0) H). simpl.
  induction fuel as [|fuel IH]; [done|]. exact IH.
Qed.
