(* ===== verification/Shm.v ===== *)
(** * Shared memory ([lib/core/ipc/shm])

    A table of up to 512 named segments with reference counts, itself in a
    mapping that all processes share ([kylin_shm_obj.c]), and the handles on
    the segments ([kylin_shm.c], [kylin_shm_open.c]).

    The state is the table, the live handles and the history of system calls.
    A system call, and the [malloc] of [kylin_malloc], is answered by a function
    of what was called so far.  The functions are run by one process while the others
    stand still: a lock that somebody else holds is never obtained. *)

From S2P Require Import Prelude Errors Bytes Locks.

Definition KYLIN_NAME_LENGTH : nat := 64.
Definition KYLIN_SHM_OBJ_MAX : nat := 512.

Record kshm_obj_t := mk_obj { o_name : list Z; o_cap : Z; o_refcnt : Z }.
#[export] Instance kshm_obj_eq_dec : EqDecision kshm_obj_t.
Proof. solve_decision. Defined.

Record kshm_overview_t := mk_ov { ov_lock : kspinlock_t; ov_count : Z; ov_obj : list kshm_obj_t }.

(** [shm_ov]: NULL, an address where nothing is mapped, or the mapping. *)
Inductive ov_ptr := OvNull | OvBad (addr : Z) | OvMapped (addr : Z) (ov : kshm_overview_t).

Record kshm_t := mk_shm { s_name : list Z; s_fd : Z; s_lock : kspinlock_t; s_cap : Z; s_addr : Z }.

Inductive syscall :=
| SysMalloc (size : Z)
| SysOpen (path : list Z) (creat : bool)
| SysTruncate (fd len : Z)
| SysMap (len fd : Z)
| SysZero (addr len : Z)
| SysUnlink (path : list Z)
| SysUnmap (addr len : Z).

(** The system: the answer to the last call of a history, the code of a
    failure, and the table an earlier process left. *)
Record system := mk_system {
  answer : list syscall -> Z;
  errno_of : list syscall -> kerr_t;
  existing : kshm_overview_t;
}.

Record st := mk_st { shm_ov : ov_ptr; shms : gmap Z kshm_t; hist : list syscall }.

Definition MAP_FAILED : Z := -1.
(** [/var/ipc/shm/], [overview] *)
Definition KYLIN_SHM_LOCAL : list Z := [47; 118; 97; 114; 47; 105; 112; 99; 47; 115; 104; 109; 47].
Definition KYLIN_SHM_OBJ_OVERVIEW_FILE : list Z := [111; 118; 101; 114; 118; 105; 101; 119; 0].
Definition sizeof_obj : Z := 80.
Definition sizeof_overview : Z := 40968.
Definition sizeof_shm : Z := 88.

(** [strlen] of the characters at a pointer: reading past them is undefined. *)
Fixpoint strlen (s : list Z) : outcome nat :=
  match s with
  | [] => Ub
  | c :: s => if c =? 0 then mret 0%nat else n ← strlen s; mret (S n)
  end.

(** [memcmp(a, b, KYLIN_NAME_LENGTH) == 0]: both have to be that long. *)
Definition name_equal (a b : list Z) : outcome bool :=
  if (length a <? KYLIN_NAME_LENGTH)%nat || (length b <? KYLIN_NAME_LENGTH)%nat then Ub
  else mret (bool_decide (take KYLIN_NAME_LENGTH a = take KYLIN_NAME_LENGTH b)).

Section Shm.
Context (sys : system).

Definition lift {A} (o : outcome A) : M st A := fun s =>
  match o with Ok a => Ok (a, s) | Ub => Ub | OutOfFuel => OutOfFuel end.

Definition call (c : syscall) : M st Z := fun s =>
  let h := c :: hist s in Ok (answer sys h, mk_st (shm_ov s) (shms s) h).
Definition kylin_errno : M st kerr_t := fun s => Ok (errno_of sys (hist s), s).

(** ** The file behind a name *)
Definition path_of (name : list Z) : outcome (list Z) := n ← strlen name; mret (KYLIN_SHM_LOCAL ++ take n name).
Definition kshm_open (name : list Z) (creat : bool) : M st Z := p ← lift (path_of name); call (SysOpen p creat).
Definition kshm_unlink (name : list Z) : M st Z := p ← lift (path_of name); call (SysUnlink p).

(** ** The table *)
Definition get_ov : M st kshm_overview_t := fun s =>
  match shm_ov s with OvMapped _ ov => Ok (ov, s) | _ => Ub end.
Definition set_ov (f : kshm_overview_t -> kshm_overview_t) : M st unit := fun s =>
  match shm_ov s with OvMapped a ov => Ok (tt, mk_st (OvMapped a (f ov)) (shms s) (hist s)) | _ => Ub end.
Definition with_lock (sl : kspinlock_t) (ov : kshm_overview_t) : kshm_overview_t := mk_ov sl (ov_count ov) (ov_obj ov).
Definition with_count (n : Z) (ov : kshm_overview_t) : kshm_overview_t := mk_ov (ov_lock ov) (u16 n) (ov_obj ov).
Definition with_obj (l : list kshm_obj_t) (ov : kshm_overview_t) : kshm_overview_t := mk_ov (ov_lock ov) (ov_count ov) l.

Definition ov_lock_acquire : M st unit :=
  ov ← get_ov; sl ← lift (spin_alone 2 SXchg (ov_lock ov)); set_ov (with_lock sl).
Definition ov_lock_release : M st unit := set_ov (fun ov => with_lock (kylin_spinlock_unlock (ov_lock ov)) ov).

Definition object_insert (obj : kshm_obj_t) : M st kerr_t :=
  _ ← ov_lock_acquire;
  ov ← get_ov;
  if Z.of_nat KYLIN_SHM_OBJ_MAX - 1 <? ov_count ov then _ ← ov_lock_release; mret KYLIN_ERROR_NOSPC
  else
    l ← lift (wr (ov_obj ov) (Z.to_nat (ov_count ov)) obj);
    _ ← set_ov (fun ov => with_count (ov_count ov + 1) (with_obj l ov));
    _ ← ov_lock_release;
    mret KYLIN_ERROR_OK.

(** The search of [object_delete] and [object_find]. *)
Definition find_name (objs : list kshm_obj_t) (name : list Z) (n : nat) : outcome (option nat) :=
  find_idx (fun i => o ← rd objs i; name_equal (o_name o) name) (seq 0 n).

(** [memmove(&obj[i], &obj[i + 1], n * sizeof(kshm_obj_t))] *)
Definition move_down (objs : list kshm_obj_t) (i : nat) (n : Z) : outcome (list kshm_obj_t) :=
  if (Z.of_nat i + 1 + n <=? Z.of_nat (length objs)) && (0 <=? n) then
    let k := Z.to_nat n in
    mret (take i objs ++ take k (drop (i + 1) objs) ++ drop (i + k) objs)
  else Ub.

Definition object_delete (name : list Z) : M st kerr_t :=
  _ ← ov_lock_acquire;
  ov ← get_ov;
  r ← lift (find_name (ov_obj ov) name (Z.to_nat (ov_count ov)));
  match r with
  | Some i =>
      l ← lift (move_down (ov_obj ov) i (ov_count ov - Z.of_nat i - 1));
      _ ← set_ov (fun ov => with_count (ov_count ov - 1) (with_obj l ov));
      _ ← ov_lock_release;
      mret KYLIN_ERROR_OK
  | None => _ ← ov_lock_release; mret KYLIN_ERROR_NOENT
  end.

(** [index] is unsigned, so is the difference. *)
Definition object_delete_by_index (index : Z) : M st kerr_t :=
  _ ← ov_lock_acquire;
  ov ← get_ov;
  l ← lift (move_down (ov_obj ov) (Z.to_nat index) (u32 (ov_count ov - index - 1)));
  _ ← set_ov (fun ov => with_count (ov_count ov - 1) (with_obj l ov));
  _ ← ov_lock_release;
  mret KYLIN_ERROR_OK.

(** The index in the table of the object found. *)
Definition object_find (name : list Z) : M st (option nat) :=
  _ ← ov_lock_acquire;
  ov ← get_ov;
  r ← lift (find_name (ov_obj ov) name (Z.to_nat (ov_count ov)));
  _ ← ov_lock_release;
  mret r.

(** A pointer to an object of the table. *)
Definition get_obj (i : nat) : M st kshm_obj_t := ov ← get_ov; lift (rd (ov_obj ov) i).
Definition set_refcnt (i : nat) (n : Z) : M st unit :=
  ov ← get_ov; o ← lift (rd (ov_obj ov) i); l ← lift (wr (ov_obj ov) i (mk_obj (o_name o) (o_cap o) (u32 n)));
  set_ov (with_obj l).

(** [shm_ov->obj + index] *)
Definition object_find_by_index (index : Z) : M st nat := _ ← get_ov; mret (Z.to_nat index).

Definition set_ptr (p : ov_ptr) : M st unit := fun s => Ok (tt, mk_st p (shms s) (hist s)).

Definition zero_obj : kshm_obj_t := mk_obj (replicate KYLIN_NAME_LENGTH 0) 0 0.
Definition zero_ov : kshm_overview_t := mk_ov (kylin_spinlock_init 0) 0 (replicate KYLIN_SHM_OBJ_MAX zero_obj).

Definition object_init : M st kerr_t :=
  fd0 ← kshm_open KYLIN_SHM_OBJ_OVERVIEW_FILE false;
  let is_create := fd0 =? -1 in
  fd ← (if is_create then kshm_open KYLIN_SHM_OBJ_OVERVIEW_FILE true else mret fd0);
  if is_create && (fd =? -1) then kylin_errno
  else
    t ← (if is_create then call (SysTruncate fd sizeof_overview) else mret 0);
    if is_create && (t =? -1) then _ ← kshm_unlink KYLIN_SHM_OBJ_OVERVIEW_FILE; kylin_errno
    else
      a ← call (SysMap sizeof_overview fd);
      if a =? MAP_FAILED then
        _ ← set_ptr (OvBad a); _ ← kshm_unlink KYLIN_SHM_OBJ_OVERVIEW_FILE; kylin_errno
      else
        _ ← set_ptr (OvMapped a (existing sys));
        _ ← (if is_create then set_ov (fun _ => zero_ov) else mret tt);
        mret KYLIN_ERROR_OK.

(** [munmap] of the table: the pointer stays. *)
Definition object_fini : M st unit :=
  p ← (fun s => Ok (shm_ov s, s));
  match p with
  | OvNull => mret tt
  | OvBad a | OvMapped a _ =>
      _ ← kshm_unlink KYLIN_SHM_OBJ_OVERVIEW_FILE;
      _ ← call (SysUnmap a sizeof_overview);
      set_ptr (OvBad a)
  end.

(** ** Segments *)

(** [memset(&obj, 0, ...); memcpy(obj.name, name, strlen(name))] *)
Definition padded (name : list Z) (n : nat) : list Z := take n name ++ replicate (KYLIN_NAME_LENGTH - n) 0.

Definition kylin_shm_create (name : list Z) (cap : Z) : M st kerr_t :=
  n ← lift (strlen name);
  if (KYLIN_NAME_LENGTH <? n)%nat then mret KYLIN_ERROR_INVAL
  else
    r ← object_find name;
    match r with
    | Some _ => mret KYLIN_ERROR_EXIST
    | None => object_insert (mk_obj (padded name n) cap 0)
    end.

Definition kylin_shm_destroy (name : list Z) : M st unit :=
  r ← object_find name;
  match r with
  | Some i =>
      o ← get_obj i;
      _ ← set_refcnt i (o_refcnt o - 1);
      o ← get_obj i;
      if o_refcnt o =? 0 then _ ← object_delete (o_name o); mret tt else mret tt
  | None => mret tt
  end.

Definition set_shm (a : Z) (x : option kshm_t) : M st unit := fun s =>
  Ok (tt, mk_st (shm_ov s) (match x with Some x => <[a := x]> (shms s) | None => delete a (shms s) end) (hist s)).
Definition get_shm (a : Z) : M st kshm_t := fun s =>
  match shms s !! a with Some x => Ok (x, s) | None => Ub end.

(** [kylin_malloc] gives zeroed memory. *)
Definition zero_shm : kshm_t := mk_shm (replicate KYLIN_NAME_LENGTH 0) 0 0 0 0.

Definition kylin_shm_open (name : list Z) : M st Z :=
  n ← lift (strlen name);
  if (KYLIN_NAME_LENGTH <? n)%nat then mret NULL
  else
    r ← object_find name;
    match r with
    | None => mret NULL
    | Some i =>
        a ← call (SysMalloc sizeof_shm);
        if a =? NULL then mret NULL
        else
          _ ← set_shm a (Some zero_shm);
          fd ← kshm_open name true;
          o ← get_obj i;
          t ← (if fd =? -1 then mret 0 else call (SysTruncate fd (o_cap o)));
          if (fd =? -1) || (t =? -1) then _ ← kshm_unlink name; _ ← set_shm a None; mret NULL
          else
            addr ← call (SysMap (o_cap o) fd);
            if addr =? MAP_FAILED then _ ← kshm_unlink name; _ ← set_shm a None; mret NULL
            else
              _ ← call (SysZero addr (o_cap o));
              _ ← set_shm a (Some (mk_shm (take n name ++ drop n (s_name zero_shm)) fd (kylin_spinlock_init 0) (o_cap o) addr));
              _ ← set_refcnt i (o_refcnt o + 1);
              mret a
    end.

Definition kylin_shm_close (shm : Z) : M st unit :=
  x ← get_shm shm;
  r ← object_find (s_name x);
  match r with
  | None => mret tt
  | Some i =>
      o ← get_obj i;
      _ ← set_refcnt i (o_refcnt o - 1);
      _ ← (if negb (s_fd x =? 0) then _ ← kshm_unlink (s_name x); mret tt else mret tt);
      _ ← (if negb (s_addr x =? MAP_FAILED) then _ ← call (SysUnmap (s_addr x) (s_cap x)); mret tt else mret tt);
      set_shm shm None
  end.

Definition with_s_lock (sl : kspinlock_t) (x : kshm_t) : kshm_t := mk_shm (s_name x) (s_fd x) sl (s_cap x) (s_addr x).

Definition kylin_shm_lock (shm : Z) : M st unit :=
  x ← get_shm shm; sl ← lift (spin_alone 2 SXchg (s_lock x)); set_shm shm (Some (with_s_lock sl x)).
Definition kylin_shm_unlock (shm : Z) : M st unit :=
  x ← get_shm shm; set_shm shm (Some (with_s_lock (kylin_spinlock_unlock (s_lock x)) x)).
Definition kylin_shm_trylock (shm : Z) : M st Z :=
  x ← get_shm shm; let '(sl, old) := kylin_spinlock_trylock (s_lock x) in
  _ ← set_shm shm (Some (with_s_lock sl x)); mret old.
Definition kylin_shm_addr (shm : Z) : M st Z := x ← get_shm shm; mret (s_addr x).
Definition kylin_shm_size (shm : Z) : M st Z := x ← get_shm shm; mret (s_cap x).
Definition kylin_shm_init : M st kerr_t := object_init.
Definition kylin_shm_fini : M st unit := object_fini.
End Shm.

(** ** The table as a finite map *)
Definition entry (o : kshm_obj_t) : list Z * (Z * Z) := (o_name o, (o_cap o, o_refcnt o)).
Definition tab (l : list kshm_obj_t) : gmap (list Z) (Z * Z) := list_to_map (map entry l).
Definition entries (ov : kshm_overview_t) : list kshm_obj_t := take (Z.to_nat (ov_count ov)) (ov_obj ov).

Definition entry_ok (o : kshm_obj_t) : Prop := length (o_name o) = KYLIN_NAME_LENGTH.
Definition ov_ok (ov : kshm_overview_t) : Prop :=
  ov_lock ov = 0 /\ length (ov_obj ov) = KYLIN_SHM_OBJ_MAX /\ 0 <= ov_count ov <= 512 /\
  Forall entry_ok (entries ov) /\ NoDup (map o_name (entries ov)).

Lemma map_entry_fst l : (map entry l).*1 = map o_name l.
Proof. induction l as [|o l IH]; [done|]. simpl. f_equal. exact IH. Qed.

Lemma tab_lookup l o : NoDup (map o_name l) -> o ∈ l -> tab l !! o_name o = Some (o_cap o, o_refcnt o).
Proof.
  intros Hn Ho. unfold tab. apply elem_of_list_to_map_1; [by rewrite map_entry_fst|].
  apply list_elem_of_fmap. by exists o.
Qed.

Lemma tab_None l k : tab l !! k = None <-> k ∉ map o_name l.
Proof.
  unfold tab. rewrite <- map_entry_fst. split; [apply not_elem_of_list_to_map_2|apply not_elem_of_list_to_map_1].
Qed.

Lemma tab_perm l1 l2 : NoDup (map o_name l1) -> l1 ≡ₚ l2 -> tab l1 = tab l2.
Proof.
  intros Hn Hp. apply list_to_map_proper; [by rewrite map_entry_fst|]. by apply Permutation_map.
Qed.

Lemma tab_split l1 o l2 : NoDup (map o_name (l1 ++ o :: l2)) ->
  tab (l1 ++ o :: l2) = <[o_name o := (o_cap o, o_refcnt o)]> (tab (l1 ++ l2)) /\
  tab (l1 ++ l2) !! o_name o = None /\ NoDup (map o_name (l1 ++ l2)).
Proof.
  intros Hn. assert (Hp : l1 ++ o :: l2 ≡ₚ o :: l1 ++ l2) by (by rewrite Permutation_middle).
  split; [by rewrite (tab_perm _ _ Hn Hp)|].
  rewrite (Permutation_map o_name Hp) in Hn. simpl in Hn. apply NoDup_cons in Hn as [H1 H2].
  by rewrite tab_None.
Qed.

Lemma tab_size l : NoDup (map o_name l) -> size (tab l) = length l.
Proof.
  intros Hn. unfold tab. rewrite map_size_list_to_map; [apply length_map|]. by rewrite map_entry_fst.
Qed.

(** A process that has the table mapped and unlocked. *)
Abbreviation mapped a c l hs hi := (mk_st (OvMapped a (mk_ov 0 c l)) hs hi).

Lemma lift_Ok {A} (o : outcome A) x s : o = Ok x -> lift o s = Ok (x, s).
Proof. by intros ->. Qed.

Lemma object_find_eq name a c l hs hi r : find_name l name (Z.to_nat c) = Ok r ->
  object_find name (mapped a c l hs hi) = Ok (r, mapped a c l hs hi).
Proof. intros E. unfold object_find, ov_lock_acquire, mbind, M_bind. simpl. by rewrite (lift_Ok _ _ _ E). Qed.

Lemma object_insert_eq o a c l hs hi : 0 <= c <= 512 -> length l = KYLIN_SHM_OBJ_MAX ->
  object_insert o (mapped a c l hs hi) =
  if 511 <? c then Ok (KYLIN_ERROR_NOSPC, mapped a c l hs hi)
  else Ok (KYLIN_ERROR_OK, mapped a (c + 1) (<[Z.to_nat c := o]> l) hs hi).
Proof.
  intros Hc Hl. unfold object_insert, ov_lock_acquire, mbind, M_bind. simpl.
  change (Z.of_nat KYLIN_SHM_OBJ_MAX - 1) with 511. destruct (Z.ltb_spec 511 c); [done|]. rewrite wr_lt by (rewrite Hl; unfold KYLIN_SHM_OBJ_MAX; lia). simpl.
  unfold with_count, with_obj, with_lock. simpl. by rewrite (uw_id 16) by (unfold is_u; lia).
Qed.

Lemma object_delete_eq name a c l hs hi i : 0 <= c <= 512 -> length l = KYLIN_SHM_OBJ_MAX ->
  find_name l name (Z.to_nat c) = Ok (Some i) -> (i < Z.to_nat c)%nat ->
  let k := Z.to_nat (c - Z.of_nat i - 1) in
  object_delete name (mapped a c l hs hi) =
  Ok (KYLIN_ERROR_OK, mapped a (c - 1) (take i l ++ take k (drop (i + 1) l) ++ drop (i + k) l) hs hi).
Proof.
  intros Hc Hl E Hi k. unfold object_delete, ov_lock_acquire, mbind, M_bind. simpl.
  rewrite (lift_Ok _ _ _ E). unfold move_down. rewrite Hl. unfold KYLIN_SHM_OBJ_MAX.
  rewrite (proj2 (Z.leb_le _ _)), (proj2 (Z.leb_le _ _)) by lia. simpl.
  unfold with_count, with_obj, with_lock. simpl. by rewrite (uw_id 16) by (unfold is_u; lia).
Qed.

(** What the search finds. *)
Lemma find_name_ok ov name : ov_ok ov -> (KYLIN_NAME_LENGTH <= length name)%nat ->
  let key := take KYLIN_NAME_LENGTH name in
  (exists l1 o l2, find_name (ov_obj ov) name (Z.to_nat (ov_count ov)) = Ok (Some (length l1)) /\
     entries ov = l1 ++ o :: l2 /\ o_name o = key) \/
  find_name (ov_obj ov) name (Z.to_nat (ov_count ov)) = Ok None /\ tab (entries ov) !! key = None.
Proof.
  intros (_ & Hl & Hc & He & Hn) Hname key.
  set (q := fun i => match entries ov !! i with Some o => bool_decide (o_name o = key) | None => false end).
  assert (Hlen : length (entries ov) = Z.to_nat (ov_count ov)).
  { unfold entries. rewrite length_take, Hl. unfold KYLIN_SHM_OBJ_MAX. lia. }
  unfold find_name. rewrite (find_idx_spec _ q).
  - destruct (List.find q (seq 0 (Z.to_nat (ov_count ov)))) as [i|] eqn:E.
    + left. apply find_seq_Some in E as (Hi & Hq & _). unfold q in Hq.
      destruct (entries ov !! i) as [o|] eqn:Ei; [|done]. apply bool_decide_eq_true in Hq.
      destruct (split_at_index _ _ _ Ei) as (l1 & l2 & E1 & -> & _). by exists l1, o, l2.
    + right. split; [done|]. apply tab_None. intros (o & Eo & Ho)%list_elem_of_fmap.
      apply list_elem_of_lookup in Ho as [i Hi]. pose proof (proj1 (find_seq_None _ _) E) as E'. clear E.
      pose proof (lookup_lt_Some _ _ _ Hi) as Hlt. rewrite Hlen in Hlt. specialize (E' i Hlt).
      unfold q in E'. rewrite Hi in E'. by apply bool_decide_eq_false in E'.
  - intros i Hi. apply elem_of_seq in Hi. unfold q.
    destruct (lookup_lt_is_Some_2 (entries ov) i) as [o Ho]; [lia|]. rewrite Ho.
    unfold entries in Ho. apply lookup_take_Some in Ho as [Ho _]. unfold rd. rewrite Ho. simpl.
    assert (Heo : length (o_name o) = KYLIN_NAME_LENGTH).
    { rewrite Forall_lookup in He. apply (He i). unfold entries. by rewrite lookup_take_lt by lia. }
    unfold name_equal. rewrite Heo, (proj2 (Nat.ltb_ge _ _)), (proj2 (Nat.ltb_ge _ _)) by lia. simpl.
    by rewrite (take_ge (o_name o)) by lia.
Qed.
(** The three changes of the table. *)
Lemma ov_split ov l1 o l2 : ov_ok ov -> entries ov = l1 ++ o :: l2 ->
  exists rest, ov_obj ov = l1 ++ o :: l2 ++ rest /\ Z.to_nat (ov_count ov) = (length l1 + 1 + length l2)%nat.
Proof.
  intros (_ & Hl & Hc & _ & _) E. exists (drop (Z.to_nat (ov_count ov)) (ov_obj ov)).
  pose proof (f_equal length E) as El. unfold entries in *. rewrite length_take, Hl, length_app in El.
  simpl in El. unfold KYLIN_SHM_OBJ_MAX in El. split; [|lia].
  rewrite <- (take_drop (Z.to_nat (ov_count ov)) (ov_obj ov)) at 1. by rewrite E, <- app_assoc.
Qed.

Lemma ov_update ov l1 o l2 o' : ov_ok ov -> entries ov = l1 ++ o :: l2 -> o_name o' = o_name o ->
  let ov' := mk_ov 0 (ov_count ov) (<[length l1 := o']> (ov_obj ov)) in
  ov_ok ov' /\ entries ov' = l1 ++ o' :: l2 /\
  tab (entries ov') = <[o_name o := (o_cap o', o_refcnt o')]> (tab (entries ov)).
Proof.
  intros Hok E En ov'. destruct (ov_split _ _ _ _ Hok E) as (rest & Eo & Ec).
  assert (E' : entries ov' = l1 ++ o' :: l2).
  { unfold entries, ov'. simpl. rewrite Eo, Ec, insert_app_r_alt, Nat.sub_diag by lia. simpl.
    replace (length l1 + 1 + length l2)%nat with (length (l1 ++ o' :: l2)) by (rewrite length_app; simpl; lia).
    replace (l1 ++ o' :: l2 ++ rest) with ((l1 ++ o' :: l2) ++ rest) by (by rewrite <- app_assoc).
    apply take_app_length. }
  destruct Hok as (H1 & H2 & H3 & H4 & H5). rewrite E in H4, H5.
  assert (Hn : map o_name (l1 ++ o' :: l2) = map o_name (l1 ++ o :: l2)) by (rewrite !map_app; simpl; by rewrite En).
  split; [|split; [done|]].
  - split; [done|]. split; [simpl; by rewrite length_insert|]. split; [done|]. rewrite E'. split; [|by rewrite Hn].
    apply Forall_app in H4 as [H4 H4']. apply Forall_cons in H4' as [H4' H4'']. apply Forall_app. split; [done|].
    apply Forall_cons. split; [|done]. unfold entry_ok in *. by rewrite En.
  - rewrite E', E. destruct (tab_split l1 o l2 H5) as (T & _ & _). rewrite T. clear T.
    rewrite <- Hn in H5. destruct (tab_split l1 o' l2 H5) as (T & _ & _). by rewrite T, insert_insert_eq, En.
Qed.

Lemma ov_append ov o : ov_ok ov -> ov_count ov < 512 -> entry_ok o -> tab (entries ov) !! o_name o = None ->
  let ov' := mk_ov 0 (ov_count ov + 1) (<[Z.to_nat (ov_count ov) := o]> (ov_obj ov)) in
  ov_ok ov' /\ tab (entries ov') = <[o_name o := (o_cap o, o_refcnt o)]> (tab (entries ov)).
Proof.
  intros (H1 & H2 & H3 & H4 & H5) Hc Ho Hn ov'. unfold KYLIN_SHM_OBJ_MAX in H2.
  assert (E' : entries ov' = entries ov ++ [o]).
  { unfold entries, ov'. simpl. replace (Z.to_nat (ov_count ov + 1)) with (S (Z.to_nat (ov_count ov))) by lia.
    rewrite (take_S_r _ _ o) by (apply list_lookup_insert_eq; lia). by rewrite take_insert_ge by lia. }
  apply tab_None in Hn.
  assert (Hd : NoDup (map o_name (entries ov ++ [o]))).
  { rewrite map_app. simpl. apply NoDup_app. split; [done|]. split; [set_solver|apply NoDup_singleton]. }
  split.
  - split; [done|]. split; [simpl; by rewrite length_insert|]. split; [simpl; lia|]. rewrite E'. split; [|done].
    apply Forall_app. split; [done|]. by constructor.
  - rewrite E'. destruct (tab_split _ _ [] Hd) as (T & _ & _). by rewrite T, app_nil_r.
Qed.

Lemma ov_remove ov l1 o l2 : ov_ok ov -> entries ov = l1 ++ o :: l2 ->
  let i := length l1 in
  let k := Z.to_nat (ov_count ov - Z.of_nat i - 1) in
  let ov' := mk_ov 0 (ov_count ov - 1) (take i (ov_obj ov) ++ take k (drop (i + 1) (ov_obj ov)) ++ drop (i + k) (ov_obj ov)) in
  ov_ok ov' /\ tab (entries ov') = delete (o_name o) (tab (entries ov)).
Proof.
  intros Hok E i k ov'. destruct (ov_split _ _ _ _ Hok E) as (rest & Eo & Ec).
  destruct Hok as (H1 & H2 & H3 & H4 & H5). rewrite E in H4, H5.
  destruct (tab_split l1 o l2 H5) as (T & Tn & Hd).
  assert (Ek : k = length l2) by (unfold k, i; lia).
  assert (E' : exists u, ov_obj ov' = (l1 ++ l2) ++ u /\ length u = S (length rest)).
  { exists (drop (i + k) (ov_obj ov)). split.
    - assert (D : drop (length l1 + 1) (l1 ++ o :: l2 ++ rest) = l2 ++ rest) by (by rewrite drop_app_add).
      unfold ov', i. cbn [ov_obj]. rewrite Ek, Eo, take_app_length, D, take_app_length. by rewrite <- app_assoc.
    - rewrite length_drop, Eo, !length_app. simpl. rewrite length_app. unfold i. lia. }
  destruct E' as (u & Eu & Hu).
  assert (E' : entries ov' = l1 ++ l2).
  { unfold entries. rewrite Eu. replace (Z.to_nat (ov_count ov')) with (length (l1 ++ l2)); [apply take_app_length|].
    rewrite length_app. simpl. lia. }
  split; [|by rewrite E', E, T, delete_insert_id].
  split; [done|]. split.
  { rewrite Eu, <- H2, Eo, !length_app, Hu. simpl. rewrite length_app. lia. }
  split; [simpl; lia|]. rewrite E'. split; [|done].
  apply Forall_app in H4 as [H4 H4']. apply Forall_cons in H4' as [_ H4']. apply Forall_app. by split.
Qed.

(** ** The registry the processes see *)
Record reg := mk_reg { segs : gmap (list Z) (Z * Z); handles : gmap Z (list Z) }.

Inductive shm_call := Create (name : list Z) (cap : Z) | Destroy (name : list Z) | Open (name : list Z) | Close (shm : Z).
Inductive shm_res := RErr (e : kerr_t) | RShm (shm : Z) | RUnit.

(** A name as the functions need it: a string of at most 63 characters in a
    buffer of at least 64, zero up to there; it stands for its 64 bytes. *)
Definition name_ok (name : list Z) : Prop :=
  exists n, strlen name = Ok n /\ (n < KYLIN_NAME_LENGTH)%nat /\ (KYLIN_NAME_LENGTH <= length name)%nat /\
    padded name n = take KYLIN_NAME_LENGTH name.
Definition key (name : list Z) : list Z := take KYLIN_NAME_LENGTH name.

(** What a call does to the registry.  The system may refuse an [open]. *)
Inductive reg_step (R : reg) : shm_call -> shm_res -> reg -> Prop :=
| step_create_exist name cap v : segs R !! key name = Some v ->
    reg_step R (Create name cap) (RErr KYLIN_ERROR_EXIST) R
| step_create_full name cap : segs R !! key name = None -> size (segs R) = KYLIN_SHM_OBJ_MAX ->
    reg_step R (Create name cap) (RErr KYLIN_ERROR_NOSPC) R
| step_create name cap : segs R !! key name = None -> (size (segs R) < KYLIN_SHM_OBJ_MAX)%nat ->
    reg_step R (Create name cap) (RErr KYLIN_ERROR_OK) (mk_reg (<[key name := (cap, 0)]> (segs R)) (handles R))
| step_destroy_absent name : segs R !! key name = None -> reg_step R (Destroy name) RUnit R
| step_destroy_last name cap r : segs R !! key name = Some (cap, r) -> u32 (r - 1) = 0 ->
    reg_step R (Destroy name) RUnit (mk_reg (delete (key name) (segs R)) (handles R))
| step_destroy name cap r : segs R !! key name = Some (cap, r) -> u32 (r - 1) <> 0 ->
    reg_step R (Destroy name) RUnit (mk_reg (<[key name := (cap, u32 (r - 1))]> (segs R)) (handles R))
| step_open_absent name : segs R !! key name = None -> reg_step R (Open name) (RShm NULL) R
| step_open_refused name cap r : segs R !! key name = Some (cap, r) -> reg_step R (Open name) (RShm NULL) R
| step_open name cap r a : segs R !! key name = Some (cap, r) -> a <> NULL -> handles R !! a = None ->
    reg_step R (Open name) (RShm a)
      (mk_reg (<[key name := (cap, u32 (r + 1))]> (segs R)) (<[a := key name]> (handles R)))
| step_close_absent a name : handles R !! a = Some name -> segs R !! name = None -> reg_step R (Close a) RUnit R
| step_close a name cap r : handles R !! a = Some name -> segs R !! name = Some (cap, r) ->
    reg_step R (Close a) RUnit (mk_reg (<[name := (cap, u32 (r - 1))]> (segs R)) (delete a (handles R))).

Section Refine.
Context (sys : system).

Definition run_call (c : shm_call) : M st shm_res :=
  match c with
  | Create name cap => e ← kylin_shm_create name cap; mret (RErr e)
  | Destroy name => _ ← kylin_shm_destroy name; mret RUnit
  | Open name => a ← kylin_shm_open sys name; mret (RShm a)
  | Close a => _ ← kylin_shm_close sys a; mret RUnit
  end.

Definition represents (s : st) (R : reg) : Prop :=
  exists a ov, shm_ov s = OvMapped a ov /\ ov_ok ov /\ segs R = tab (entries ov) /\
    handles R = s_name <$> shms s /\
    map_Forall (fun _ x => name_ok (s_name x) /\ length (s_name x) = KYLIN_NAME_LENGTH) (shms s).

(** The caller passes names as above and live handles; memory that is allocated
    was not in use. *)
Definition call_ok (s : st) (c : shm_call) : Prop :=
  match c with
  | Create name _ | Destroy name => name_ok name
  | Open name =>
      let h := SysMalloc sizeof_shm :: hist s in
      name_ok name /\ shms s !! answer sys h = None
  | Close a => is_Some (shms s !! a)
  end.

Definition simulates (s : st) (R : reg) (c : shm_call) : Prop :=
  exists r s' R', run_call c s = Ok (r, s') /\ reg_step R c r R' /\ represents s' R'.

Lemma set_refcnt_eq i n a c l hs hi o : l !! i = Some o ->
  set_refcnt i n (mapped a c l hs hi) =
  Ok (tt, mapped a c (<[i := mk_obj (o_name o) (o_cap o) (u32 n)]> l) hs hi).
Proof.
  intros Hi. unfold set_refcnt, mbind, M_bind, lift, rd. simpl. rewrite Hi.
  by rewrite wr_lt by (by eapply lookup_lt_Some).
Qed.

Lemma get_obj_eq i a c l hs hi o : l !! i = Some o -> get_obj i (mapped a c l hs hi) = Ok (o, mapped a c l hs hi).
Proof. intros Hi. unfold get_obj, mbind, M_bind, lift, rd. simpl. by rewrite Hi. Qed.

Lemma entries_obj ov l1 o l2 : entries ov = l1 ++ o :: l2 -> ov_obj ov !! length l1 = Some o.
Proof.
  intros E. assert (H : entries ov !! length l1 = Some o) by (rewrite E; by apply list_lookup_middle).
  unfold entries in H. by apply lookup_take_Some in H as [H _].
Qed.

(** Every state of [represents] is one of these. *)
Lemma represents_inv s R : represents s R ->
  exists a c l, s = mapped a c l (shms s) (hist s) /\ ov_ok (mk_ov 0 c l).
Proof.
  intros (a & [sl c l] & Es & Hok & _). exists a, c, l. pose proof Hok as (E & _). simpl in E. subst sl.
  split; [|done]. destruct s. simpl in *. by rewrite Es.
Qed.

Lemma represents_with a c l hs hi R ov' : represents (mapped a c l hs hi) R ->
  ov_ok ov' -> represents (mapped a (ov_count ov') (ov_obj ov') hs hi) (mk_reg (tab (entries ov')) (handles R)).
Proof.
  intros (a' & ov & _ & _ & _ & Hh & Hx) Hok. exists a, ov'. pose proof Hok as (E & _).
  split; [|split; [done|split; [done|split; [exact Hh|exact Hx]]]]. destruct ov'. simpl in *. by rewrite E.
Qed.

Lemma search R a c l hs hi name : represents (mapped a c l hs hi) R -> (KYLIN_NAME_LENGTH <= length name)%nat ->
  (exists l1 o l2, object_find name (mapped a c l hs hi) = Ok (Some (length l1), mapped a c l hs hi) /\
     entries (mk_ov 0 c l) = l1 ++ o :: l2 /\ o_name o = key name /\ l !! length l1 = Some o /\
     find_name l name (Z.to_nat c) = Ok (Some (length l1)) /\
     segs R !! key name = Some (o_cap o, o_refcnt o)) \/
  object_find name (mapped a c l hs hi) = Ok (None, mapped a c l hs hi) /\ segs R !! key name = None.
Proof.
  intros (a' & ov & Es & Hok & Hseg & _) Hlen. simpl in Es. simplify_eq.
  destruct (find_name_ok _ _ Hok Hlen) as [(l1 & o & l2 & E & El & En)|[E Hn]]; simpl in E.
  - left. exists l1, o, l2. split_and!; try done.
    + by apply object_find_eq.
    + by apply (entries_obj _ _ _ _ El).
    + rewrite Hseg. fold (key name) in En. rewrite <- En. apply tab_lookup; [apply Hok|]. rewrite El.
      apply elem_of_app. right. left.
  - right. split; [by apply object_find_eq|]. by rewrite Hseg.
Qed.
Lemma name_length name : name_ok name -> (KYLIN_NAME_LENGTH <= length name)%nat.
Proof. by intros (n & _ & _ & H & _). Qed.

(** A call is simulated when its function is. *)
Lemma simulates_intro {A} s R c (f : M st A) (g : A -> shm_res) :
  run_call c s = (r ← f; mret (g r)) s ->
  (exists r s' R', f s = Ok (r, s') /\ reg_step R c (g r) R' /\ represents s' R') -> simulates s R c.
Proof.
  intros E (r & s' & R' & Ef & Hs & Hr). exists (g r), s', R'. split; [|done]. rewrite E. by run Ef.
Qed.

Lemma simulate_create s R name cap : represents s R -> name_ok name -> simulates s R (Create name cap).
Proof.
  intros HR (n & Es & Hn & Hlen & Hp). destruct (represents_inv s R HR) as (a & c & l & E & Hok).
  rewrite E in HR |- *. clear E. remember (shms s) as hs. remember (hist s) as hi. clear s Heqhs Heqhi.
  assert (Hb : (KYLIN_NAME_LENGTH <? n)%nat = false) by (apply Nat.ltb_ge; lia).
  apply (simulates_intro _ _ (Create name cap) (kylin_shm_create name cap) RErr); [done|].
  unfold kylin_shm_create. run (lift_Ok _ _ (mapped a c l hs hi) Es). rewrite Hb.
  destruct (search R a c l hs hi name HR Hlen) as [(l1 & o & l2 & Ef & _ & _ & _ & _ & Hs)|[Ef Hs]]; run Ef.
  - exists KYLIN_ERROR_EXIST, (mapped a c l hs hi), R. split; [done|]. split; [by econstructor|done].
  - pose proof HR as (a' & ov & Eov & _ & Hseg & _). simpl in Eov. simplify_eq.
    pose proof Hok as (_ & Hl & Hc & _ & Hd). simpl in Hl, Hc.
    assert (Hsz : size (segs R) = Z.to_nat c).
    { rewrite Hseg, tab_size by done. unfold entries. simpl. rewrite length_take, Hl. unfold KYLIN_SHM_OBJ_MAX. lia. }
    rewrite object_insert_eq by done. destruct (Z.ltb_spec 511 c) as [Hc'|Hc'].
    + exists KYLIN_ERROR_NOSPC, (mapped a' c l hs hi), R. split; [done|]. split; [|done].
      apply step_create_full; [done|]. rewrite Hsz. unfold KYLIN_SHM_OBJ_MAX. lia.
    + destruct (ov_append (mk_ov 0 c l) (mk_obj (padded name n) cap 0) Hok) as [Hok' Ht]; [simpl; lia| | |].
      { unfold entry_ok. simpl. rewrite Hp, length_take. lia. }
      { simpl. rewrite Hp. by rewrite <- Hseg. }
      simpl in Hok', Ht. eexists _, _, _. split; [done|]. split.
      * apply step_create; [done|]. rewrite Hsz. unfold KYLIN_SHM_OBJ_MAX. lia.
      * pose proof (represents_with _ _ _ _ _ _ _ HR Hok') as H. simpl in H. rewrite Ht, <- Hseg in H. simpl in H.
        unfold key. rewrite <- Hp. exact H.
Qed.

Lemma simulate_destroy s R name : represents s R -> name_ok name -> simulates s R (Destroy name).
Proof.
  intros HR Hname. pose proof (name_length _ Hname) as Hlen.
  destruct (represents_inv s R HR) as (a & c & l & E & Hok).
  rewrite E in HR |- *. clear E. remember (shms s) as hs. remember (hist s) as hi. clear s Heqhs Heqhi.
  apply (simulates_intro _ _ (Destroy name) (kylin_shm_destroy name) (fun _ => RUnit)); [done|]. unfold kylin_shm_destroy.
  destruct (search R a c l hs hi name HR Hlen) as [(l1 & o & l2 & Ef & El & En & Ei & _ & Hs)|[Ef Hs]]; run Ef.
  2: { exists tt, (mapped a c l hs hi), R. split; [done|]. split; [by constructor|done]. }
  pose proof HR as (a' & ov & Eov & _ & Hseg & _). simpl in Eov. simplify_eq.
  set (o' := mk_obj (o_name o) (o_cap o) (u32 (o_refcnt o - 1))).
  destruct (ov_update (mk_ov 0 c l) l1 o l2 o' Hok El eq_refl) as (Hok1 & El1 & Ht1). simpl in Hok1, El1, Ht1. subst o'.
  run (get_obj_eq (length l1) a' c l hs hi o Ei). run (set_refcnt_eq (length l1) (o_refcnt o - 1) a' c l hs hi o Ei).
  run (get_obj_eq (length l1) a' c _ hs hi _ (entries_obj _ _ _ _ El1)). cbn [o_refcnt o_name].
  pose proof (represents_with _ _ _ _ _ _ _ HR Hok1) as HR1. simpl in HR1. rewrite Ht1, <- Hseg in HR1.
  destruct (Z.eqb_spec (u32 (o_refcnt o - 1)) 0) as [E0|E0].
  - assert (Ek : key (o_name o) = o_name o)
      by (unfold key; apply take_ge; rewrite En; unfold key; rewrite length_take; lia).
    assert (Eln : (KYLIN_NAME_LENGTH <= length (o_name o))%nat) by (rewrite En; unfold key; rewrite length_take; lia).
    destruct (search _ _ _ _ _ _ (o_name o) HR1 Eln) as [(l3 & o3 & l4 & _ & El3 & En3 & _ & Ef3 & _)|[_ Hs3]].
    2: { rewrite Ek in Hs3. simpl in Hs3. by rewrite lookup_insert_eq in Hs3. }
    rewrite Ek in En3. pose proof Hok1 as (_ & Hl1 & Hc1 & _ & _). simpl in Hl1, Hc1.
    pose proof (ov_split _ _ _ _ Hok1 El3) as (rest & _ & Ec). simpl in Ec.
    rewrite (bind_Ok _ _ _ _ _ (object_delete_eq (o_name o) a' c _ hs hi _ Hc1 Hl1 Ef3 ltac:(lia))).
    destruct (ov_remove _ _ _ _ Hok1 El3) as [Hok2 Ht2]. simpl in Hok2, Ht2.
    eexists tt, _, _. split; [done|]. split; [by eapply step_destroy_last|].
    pose proof (represents_with _ _ _ _ _ _ _ HR1 Hok2) as H. simpl in H.
    rewrite Ht2, Ht1, En3, delete_insert_eq, <- Hseg in H. rewrite <- En. exact H.
  - eexists tt, _, _. split; [done|]. split; [by eapply step_destroy|]. rewrite <- En. exact HR1.
Qed.
Lemma represents_handles a c l hs hi R hs' hi' : represents (mapped a c l hs hi) R ->
  map_Forall (fun _ x => name_ok (s_name x) /\ length (s_name x) = KYLIN_NAME_LENGTH) hs' ->
  represents (mapped a c l hs' hi') (mk_reg (segs R) (s_name <$> hs')).
Proof. intros (a' & ov & E & Hok & Hs & _ & _) Hx. exists a', ov. by split_and!. Qed.

(** Calls that only add to the history. *)
Definition logs {A} (f : M st A) : Prop := forall p hs hi, exists r hi', f (mk_st p hs hi) = Ok (r, mk_st p hs hi').

Lemma logs_call c : logs (call sys c).
Proof. intros p hs hi. by eexists _, _. Qed.

Lemma logs_bind {A B} (f : M st A) (g : A -> M st B) : logs f -> (forall x, logs (g x)) -> logs (f ≫= g).
Proof. intros Hf Hg p hs hi. destruct (Hf p hs hi) as (r & h & E). run E. apply Hg. Qed.

Lemma logs_ret {A} (x : A) : logs (mret x).
Proof. intros p hs hi. by eexists _, _. Qed.

Lemma logs_when {A} (b : bool) (f : M st A) : logs f -> logs (if b then _ ← f; mret tt else mret tt).
Proof. intros Hf. destruct b; [apply logs_bind; [done|]; intros|]; apply logs_ret. Qed.

Lemma path_ok name : name_ok name -> exists p, path_of name = Ok p.
Proof. intros (n & E & _). unfold path_of. rewrite E. by eexists. Qed.

Lemma logs_path {B} name (g : list Z -> M st B) :
  name_ok name -> (forall p, logs (g p)) -> logs (p ← lift (path_of name); g p).
Proof. intros (p & E)%path_ok Hg q hs hi. run (lift_Ok _ _ (mk_st q hs hi) E). apply Hg. Qed.

Lemma logs_unlink name : name_ok name -> logs (kshm_unlink sys name).
Proof. intros H. apply logs_path; [done|]. intros p. apply logs_call. Qed.

Lemma logs_open name creat : name_ok name -> logs (kshm_open sys name creat).
Proof. intros H. apply logs_path; [done|]. intros p. apply logs_call. Qed.

Lemma simulate_close s R a : represents s R -> is_Some (shms s !! a) -> simulates s R (Close a).
Proof.
  intros HR [x Hx]. destruct (represents_inv s R HR) as (p & c & l & E & Hok).
  rewrite E in HR |- *. clear E. remember (shms s) as hs. remember (hist s) as hi. clear s Heqhs Heqhi.
  apply (simulates_intro _ _ (Close a) (kylin_shm_close sys a) (fun _ => RUnit)); [done|]. unfold kylin_shm_close.
  assert (Eg : get_shm a (mapped p c l hs hi) = Ok (x, mapped p c l hs hi)) by (unfold get_shm; simpl; by rewrite Hx).
  run Eg. pose proof HR as (p' & ov & Eov & _ & Hseg & Hh & Hall). simpl in Eov, Hh, Hall. simplify_eq.
  destruct (Hall a x Hx) as [Hname Hlen].
  assert (Ek : key (s_name x) = s_name x) by (unfold key; apply take_ge; lia).
  assert (Eh : handles R !! a = Some (s_name x)) by (by rewrite Hh, lookup_fmap, Hx).
  destruct (search R p' c l hs hi (s_name x) HR ltac:(lia)) as [(l1 & o & l2 & Ef & El & En & Ei & _ & Hs)|[Ef Hs]]; run Ef;
    rewrite Ek in *.
  2: { eexists tt, _, _. split; [done|]. split; [by eapply step_close_absent|done]. }
  set (o' := mk_obj (o_name o) (o_cap o) (u32 (o_refcnt o - 1))).
  destruct (ov_update (mk_ov 0 c l) l1 o l2 o' Hok El eq_refl) as (Hok1 & El1 & Ht1). simpl in Hok1, El1, Ht1. subst o'.
  run (get_obj_eq (length l1) p' c l hs hi o Ei). run (set_refcnt_eq (length l1) (o_refcnt o - 1) p' c l hs hi o Ei).
  pose proof (represents_with _ _ _ _ _ _ _ HR Hok1) as HR1. simpl in HR1. rewrite Ht1, <- Hseg, En in HR1.
  set (p := OvMapped p' _).
  destruct (logs_when (negb (s_fd x =? 0)) _ (logs_unlink _ Hname) p hs hi) as (r1 & hi1 & E1). run E1.
  destruct (logs_when (negb (s_addr x =? MAP_FAILED)) _ (logs_call (SysUnmap (s_addr x) (s_cap x))) p hs hi1)
    as (r2 & hi2 & E2). run E2.
  eexists tt, _, _. split; [done|]. split; [by eapply step_close|].
  subst p. rewrite Hh, <- fmap_delete, En. apply (represents_handles _ _ _ _ _ _ (delete a hs) hi2 HR1).
  by apply map_Forall_delete.
Qed.
Lemma strlen_take s n k : strlen s = Ok n -> (n < k)%nat -> strlen (take k s) = Ok n.
Proof.
  revert n k. induction s as [|c s IH]; intros n k H Hk; [done|]. destruct k as [|k]; [lia|]. cbn [take strlen] in *.
  destruct (c =? 0); [done|]. destruct (strlen s) as [m| |] eqn:E; [|done..]. injection H as <-.
  rewrite (IH m k); [done|done|lia].
Qed.

Lemma name_ok_key name : name_ok name -> name_ok (key name) /\ length (key name) = KYLIN_NAME_LENGTH.
Proof.
  intros (n & Es & Hn & Hlen & Hp). unfold key. rewrite length_take. split; [|lia].
  exists n. split; [by apply strlen_take|]. split; [done|]. rewrite length_take. split; [lia|].
  rewrite (take_ge (take _ name)) by (rewrite length_take; lia). rewrite <- Hp at 2. unfold padded.
  by rewrite take_take, Nat.min_l by lia.
Qed.

Lemma simulate_open s R name : represents s R -> call_ok s (Open name) -> simulates s R (Open name).
Proof.
  intros HR (Hname & Hfresh). destruct (represents_inv s R HR) as (p & c & l & E & Hok).
  rewrite E in HR, Hfresh |- *. clear E. cbn [hist shms] in Hfresh.
  remember (shms s) as hs. remember (hist s) as hi. clear s Heqhs Heqhi.
  pose proof Hname as (n & Es & Hn & Hlen & Hp). 
  assert (Hb : (KYLIN_NAME_LENGTH <? n)%nat = false) by (apply Nat.ltb_ge; lia).
  apply (simulates_intro _ _ (Open name) (kylin_shm_open sys name) RShm); [done|]. unfold kylin_shm_open.
  run (lift_Ok _ _ (mapped p c l hs hi) Es). rewrite Hb.
  destruct (search R p c l hs hi name HR Hlen) as [(l1 & o & l2 & Ef & El & En & Ei & _ & Hs)|[Ef Hs]]; run Ef.
  2: { eexists NULL, _, R. split; [done|]. split; [by constructor|done]. }
  pose proof HR as (p' & ov & Eov & _ & Hseg & Hh & Hall). simpl in Eov, Hh, Hall. simplify_eq.
  set (h := SysMalloc sizeof_shm :: hi) in *.
  assert (Ec : call sys (SysMalloc sizeof_shm) (mapped p' c l hs hi) = Ok (answer sys h, mapped p' c l hs h)) by done.
  run Ec. destruct (Z.eqb_spec (answer sys h) NULL) as [E0|Hnull].
  { eexists NULL, _, R. split; [done|]. split; [by eapply step_open_refused|].
    destruct R. simpl in Hh. subst. by apply (represents_handles _ _ _ _ _ _ hs h HR). }
  set (a := answer sys h) in *. 
  assert (Hrefuse : forall hi', exists s' R', (_ ← kshm_unlink sys name; _ ← set_shm a None; mret NULL)
      (mapped p' c l (<[a := zero_shm]> hs) hi') = Ok (NULL, s') /\
      reg_step R (Open name) (RShm NULL) R' /\ represents s' R').
  { intros hi'. destruct (logs_unlink name Hname (OvMapped p' (mk_ov 0 c l)) (<[a := zero_shm]> hs) hi')
      as (r & h1 & E1). eexists _, R. split; [by run E1|]. split; [by eapply step_open_refused|].
    simpl. rewrite delete_insert_id by done. destruct R. simpl in Hh. subst. by apply (represents_handles _ _ _ _ _ _ hs h1 HR). }
  set (hs1 := <[a := zero_shm]> hs) in *.
  assert (Ea : set_shm a (Some zero_shm) (mapped p' c l hs h) = Ok (tt, mapped p' c l hs1 h)) by done.
  run Ea. destruct (logs_open name true Hname (OvMapped p' (mk_ov 0 c l)) hs1 h) as (fd & h1 & E1). run E1.
  run (get_obj_eq (length l1) p' c l hs1 h1 o Ei).
  assert (L : logs (if fd =? -1 then mret 0 else call sys (SysTruncate fd (o_cap o))))
    by (destruct (fd =? -1); [apply logs_ret|apply logs_call]).
  destruct (L (OvMapped p' (mk_ov 0 c l)) hs1 h1) as (t & h2 & E2). run E2. clear L E1 E2.
  destruct ((fd =? -1) || (t =? -1)).
  { destruct (Hrefuse h2) as (s' & R' & Hr). by exists NULL, s', R'. }
  destruct (logs_call (SysMap (o_cap o) fd) (OvMapped p' (mk_ov 0 c l)) hs1 h2) as (addr & h3 & E3). run E3. clear E3.
  destruct (addr =? MAP_FAILED).
  { destruct (Hrefuse h3) as (s' & R' & Hr). by exists NULL, s', R'. }
  clear Hrefuse.
  destruct (logs_call (SysZero addr (o_cap o)) (OvMapped p' (mk_ov 0 c l)) hs1 h3) as (z & h4 & E4). run E4. clear E4.
  set (x := mk_shm (take n name ++ drop n (s_name zero_shm)) fd (kylin_spinlock_init 0) (o_cap o) addr).
  assert (Ex : set_shm a (Some x) (mapped p' c l hs1 h4) = Ok (tt, mapped p' c l (<[a := x]> hs) h4))
    by (unfold set_shm, hs1; simpl; by rewrite insert_insert_eq).
  run Ex. run (set_refcnt_eq (length l1) (o_refcnt o + 1) p' c l (<[a := x]> hs) h4 o Ei).
  set (o' := mk_obj (o_name o) (o_cap o) (u32 (o_refcnt o + 1))).
  destruct (ov_update (mk_ov 0 c l) l1 o l2 o' Hok El eq_refl) as (Hok1 & El1 & Ht1). simpl in Hok1, El1, Ht1.
  pose proof (represents_with _ _ _ _ _ _ _ HR Hok1) as HR1. simpl in HR1. rewrite Ht1, <- Hseg in HR1.
  assert (Ek : s_name x = key name).
  { unfold x, zero_shm. cbn [s_name]. rewrite drop_replicate. exact Hp. }
  eexists a, _, _. split; [done|]. split; [eapply step_open; [done|done|by rewrite Hh, lookup_fmap, Hfresh]|].
  rewrite Hh, <- Ek, <- fmap_insert, Ek, <- En. apply (represents_handles _ _ _ _ _ _ _ _ HR1).
  apply map_Forall_insert_2; [|done]. rewrite Ek. by apply name_ok_key.
Qed.

(** The table of the first process. *)
Lemma zero_ov_ok : ov_ok zero_ov.
Proof. split; [done|]. split; [apply length_replicate|]. split; [done|]. split; [by apply Forall_nil_2|apply NoDup_nil_2]. Qed.

Lemma init_represents s : answer sys (SysOpen (KYLIN_SHM_LOCAL ++ take 8 KYLIN_SHM_OBJ_OVERVIEW_FILE) false :: hist s) = -1 ->
  (forall h, answer sys h <> -1 \/ exists c h', h = SysOpen c false :: h') -> shms s = ∅ ->
  exists s', kylin_shm_init sys s = Ok (KYLIN_ERROR_OK, s') /\ represents s' (mk_reg ∅ ∅).
Proof.
  intros E0 Hsys Hs.
  assert (Hg : forall c h, (forall p, c <> SysOpen p false) -> (answer sys (c :: h) =? -1) = false).
  { intros c h Hc. apply Z.eqb_neq. destruct (Hsys (c :: h)) as [?|(p & h' & ?)]; [done|]. simplify_eq. by destruct (Hc p). }
  unfold kylin_shm_init, object_init, mbind, M_bind. simpl in E0 |- *. rewrite E0. simpl.
  rewrite (Hg (SysOpen _ true)) by done. simpl. rewrite (Hg (SysTruncate _ _)) by done. simpl.
  change MAP_FAILED with (-1). rewrite (Hg (SysMap _ _)) by done. simpl.
  eexists. split; [done|]. eexists _, zero_ov. split; [done|]. split; [|split; [done|]].
  - apply zero_ov_ok.
  - simpl. rewrite Hs. split; [by rewrite fmap_empty|]. apply map_Forall_empty.
Qed.

(** Sequences of calls, each legal in the state the calls before it leave. *)
Fixpoint calls_ok (s : st) (calls : list shm_call) : Prop :=
  match calls with
  | [] => True
  | c :: calls => call_ok s c /\ forall r s', run_call c s = Ok (r, s') -> calls_ok s' calls
  end.

Inductive reg_steps : reg -> list shm_call -> list shm_res -> reg -> Prop :=
| reg_nil R : reg_steps R [] [] R
| reg_cons R c r R1 calls rs R2 : reg_step R c r R1 -> reg_steps R1 calls rs R2 -> reg_steps R (c :: calls) (r :: rs) R2.

(** C9. The shared memory of one process behaves as a registry of named segments
    with reference counts.  Whatever the calls to create, destroy, open and
    close, with names that are padded to 64 bytes, and whatever the system refuses, every call returns, and the
    results and the table are those of a finite map from names to capacities
    and counts: [create] adds a new name with count 0 unless it exists or 512
    do, [open] and [close] count up and down, [destroy] counts down and removes
    the segment when that gives 0. *)
Theorem shm_refines_registry s R calls : represents s R -> calls_ok s calls ->
  exists rs s' R', run_all run_call calls s = Ok (rs, s') /\ reg_steps R calls rs R' /\ represents s' R'.
Proof.
  revert s R. induction calls as [|c calls IH]; intros s R HR Hok.
  { exists [], s, R. split; [done|]. split; [constructor|done]. }
  destruct Hok as [Hc Hrest].
  assert (Hsim : simulates s R c).
  { destruct c; [by apply simulate_create|by apply simulate_destroy|by apply simulate_open|by apply simulate_close]. }
  destruct Hsim as (r & s1 & R1 & E & Hstep & HR1).
  destruct (IH s1 R1 HR1 (Hrest r s1 E)) as (rs & s2 & R2 & E2 & Hs2 & HR2).
  exists (r :: rs), s2, R2. split; [|split; [by econstructor|done]].
  cbn [run_all]. run E. by run E2.
Qed.
End Refine.

(** A system that grants everything and an allocator of fresh memory. *)
Definition sample_sys : system := mk_system
  (fun h => match h with
            | SysMalloc _ :: h => 100 + Z.of_nat (length h)
            | SysOpen _ false :: _ => -1
            | SysOpen _ true :: _ => 3
            | SysMap _ _ :: _ => 4096
            | _ => 0
            end)
  (fun _ => KYLIN_ERROR_IO) zero_ov.
Definition sample_st : st := mk_st (OvMapped 4096 zero_ov) ∅ [].
Definition sample_name : list Z := [97; 98] ++ replicate 62 0.
Definition sample_calls : list shm_call := [Create sample_name 8192; Open sample_name; Destroy sample_name].

Lemma shm_refines_registry_witness :
  exists rs s' R', run_all (run_call sample_sys) sample_calls sample_st = Ok (rs, s') /\
    reg_steps (mk_reg ∅ ∅) sample_calls rs R' /\ represents s' R'.
Proof.
  apply (shm_refines_registry sample_sys sample_st (mk_reg ∅ ∅) sample_calls).
  - eexists _, zero_ov. split; [done|]. split; [|split; [done|split; [reflexivity|apply map_Forall_empty]]].
    apply zero_ov_ok.
  - assert (Hn : name_ok sample_name) by (exists 2%nat; repeat split; vm_compute; lia).
    split; [done|]. intros r [p hs hi] H. split.
    + apply (f_equal (fun o => match o with Ok (_, s) => Some (shms s, hist s) | _ => None end)) in H.
      vm_compute in H. injection H as Hs Hh. simpl. rewrite <- Hs. by split.
    + intros r2 s2 _. by split.
Defined.

(** ** Defects *)
Definition undefined {A} (f : M st A) (s : st) : bool := match f s with Ub => true | _ => false end.

(** A name in a buffer shorter than 64 bytes, a string literal for instance, is
    compared past its end as soon as there is a segment. *)
Lemma shm_short_name :
  undefined (_ ← kylin_shm_create sample_name 8192; kylin_shm_create [97; 98; 0] 8192) sample_st = true.
Proof. by vm_compute. Qed.

(** A segment that nobody opened cannot be destroyed: its count goes from 0 to
    2^32-1. *)
Lemma shm_destroy_unopened :
  match (_ ← kylin_shm_create sample_name 8192; _ ← kylin_shm_destroy sample_name; get_obj 0) sample_st with
  | Ok (o, _) => o_refcnt o = 2 ^ 32 - 1
  | _ => False
  end.
Proof. by vm_compute. Qed.

(** Opening a segment that is in use zeroes it, and closing a handle removes
    its file although another handle is open. *)
Lemma shm_open_wipes :
  match (_ ← kylin_shm_create sample_name 8192; a ← kylin_shm_open sample_sys sample_name;
         _ ← kylin_shm_open sample_sys sample_name; kylin_shm_close sample_sys a) sample_st with
  | Ok (_, s) =>
      let path := KYLIN_SHM_LOCAL ++ [97; 98] in
      hist s = [SysUnmap 4096 8192; SysUnlink path;
                SysZero 4096 8192; SysMap 8192 3; SysTruncate 3 8192; SysOpen path true; SysMalloc 88;
                SysZero 4096 8192; SysMap 8192 3; SysTruncate 3 8192; SysOpen path true; SysMalloc 88]
  | _ => False
  end.
Proof. by vm_compute. Qed.

(** The lock is in the handle, not in the segment: two handles on one segment
    are locked at the same time. *)
Lemma shm_lock_private :
  match (_ ← kylin_shm_create sample_name 8192; a ← kylin_shm_open sample_sys sample_name;
         b ← kylin_shm_open sample_sys sample_name; _ ← kylin_shm_lock a; kylin_shm_lock b) sample_st with
  | Ok _ => True
  | _ => False
  end.
Proof. by vm_compute. Qed.

(** Deleting by an index that is not in use moves 2^32-1 objects. *)
Lemma shm_delete_by_index_range : undefined (object_delete_by_index 0) sample_st = true.
Proof. by vm_compute. Qed.

(** A name of more than 64 characters is refused. *)
Lemma shm_create_long name n cap s : strlen name = Ok n -> (KYLIN_NAME_LENGTH < n)%nat ->
  kylin_shm_create name cap s = Ok (KYLIN_ERROR_INVAL, s).
Proof.
  intros E Hn. unfold kylin_shm_create. run (lift_Ok _ _ s E). by rewrite (proj2 (Nat.ltb_lt _ _) Hn).
Qed.
