(* ===== verification/Mem.v ===== *)
(** * Object memory

    The heap the containers share with their callers: a finite map from the
    base address of an object to its bytes.  A pointer is a 64-bit address;
    0 is NULL.  An access through a pointer that is not the base of a live
    object, or past the object's end, is [Ub], and so are a double free and
    the free of something that was never allocated.

    [brk] is the next unused address: addresses are never reused, so a
    dangling pointer stays recognisable.  [oom] decides which of the coming
    allocations fail (all succeed when it is exhausted); the address space
    ends at 2^63. *)

From S2P Require Import Prelude Bytes.

Record mem := mk_mem {
  blocks : gmap Z (list Z);
  brk : Z;
  oom : list bool;
}.

(** The next allocation of [n] bytes: [None] for NULL. *)
Definition alloc_addr (n : Z) (m : mem) : option Z * mem :=
  match oom m with
  | true :: o => (None, mk_mem (blocks m) (brk m) o)
  | o =>
      let o' := match o with [] => [] | _ :: o' => o' end in
      if brk m + Z.max 16 n <? 2 ^ 63
      then (Some (brk m), mk_mem (blocks m) (brk m + Z.max 16 n) o')
      else (None, mk_mem (blocks m) (brk m) o')
  end.

(** [kylin_malloc] ([include/kylin.h]): zeroed memory or NULL. *)
Definition kylin_malloc (n : Z) : M mem Z := fun m =>
  match alloc_addr n m with
  | (Some a, m) => Ok (a, mk_mem (<[a := replicate (Z.to_nat n) 0]> (blocks m)) (brk m) (oom m))
  | (None, m) => Ok (NULL, m)
  end.

(** [kylin_free], [free]: of NULL nothing, of a live object its removal. *)
Definition kylin_free (a : Z) : M mem unit := fun m =>
  if a =? NULL then Ok (tt, m) else
  match blocks m !! a with
  | Some _ => Ok (tt, mk_mem (delete a (blocks m)) (brk m) (oom m))
  | None => Ub
  end.

(** The first [n] bytes of the object at [a]. *)
Definition load (a n : Z) : M mem (list Z) := fun m =>
  match blocks m !! a with
  | Some bs => bs' ← read_bytes bs 0 n; Ok (bs', m)
  | None => Ub
  end.

(** Overwrites the first bytes of the object at [a]. *)
Definition store (a : Z) (bs : list Z) : M mem unit := fun m =>
  match blocks m !! a with
  | Some old =>
      new ← write_bytes old 0 bs; Ok (tt, mk_mem (<[a := new]> (blocks m)) (brk m) (oom m))
  | None => Ub
  end.

(** [memcpy(dst, src, n)] between the starts of two objects. *)
Definition copy_object (dst src n : Z) : M mem unit := bs ← load src n; store dst bs.

(** Integers in memory. *)
Definition load_u (w a : Z) : M mem Z := bs ← load a (w / 8); mret (le_value bs).
Definition load_s (w a : Z) : M mem Z := bs ← load a (w / 8); mret (sw w (le_value bs)).

(** ** Well-formed memory *)

(** Every live object lies below [brk], at a non-NULL address. *)
Definition mem_ok (m : mem) : Prop :=
  0 < brk m < 2 ^ 63 /\ forall a bs, blocks m !! a = Some bs -> 0 < a < brk m.

Lemma mem_ok_fresh m : mem_ok m -> blocks m !! brk m = None.
Proof.
  intros [_ H]. destruct (blocks m !! brk m) as [bs|] eqn:E; [|done].
  apply H in E. lia.
Qed.

Lemma malloc_ok m n :
  mem_ok m ->
  exists a m', kylin_malloc n m = Ok (a, m') /\ mem_ok m' /\
    (a = NULL /\ blocks m' = blocks m \/
     a = brk m /\ a < brk m' /\ blocks m' = <[a := replicate (Z.to_nat n) 0]> (blocks m)).
Proof.
  intros [Hb Hm]. unfold kylin_malloc, alloc_addr.
  destruct (oom m) as [|[|] o]; [| eexists _, _; split; [done|]; by split; [|left]|];
    (destruct (Z.ltb_spec (brk m + Z.max 16 n) (2 ^ 63));
      [|eexists _, _; split; [done|]; by split; [|left]]);
    (eexists _, _; split; [done|]; split;
      [split; simpl; [lia|]; intros a bs Ha;
       apply lookup_insert_Some in Ha as [[<- _]|[_ Ha]]; [lia|apply Hm in Ha; lia]
      |right; simpl; split_and!; done || lia]).
Qed.

(** What the allocator answers. *)
Lemma alloc_addr_some n m a m' :
  alloc_addr n m = (Some a, m') -> mem_ok m -> a = brk m /\ blocks m' = blocks m /\ 0 < a < 2 ^ 63.
Proof.
  unfold alloc_addr. intros H [Hb _]. destruct (oom m) as [|[|] o']; try done;
    destruct (Z.ltb_spec (brk m + Z.max 16 n) (2 ^ 63)); simplify_eq/=; split_and!; lia || done.
Qed.

Lemma alloc_addr_none n m m' : alloc_addr n m = (None, m') -> blocks m' = blocks m.
Proof. unfold alloc_addr. intros. repeat case_match; by simplify_eq. Qed.

Lemma alloc_top n m a m' : alloc_addr n m = (a, m') -> blocks m' = blocks m /\
  match a with Some _ => brk m' = brk m + Z.max 16 n /\ brk m' < 2 ^ 63 | None => brk m' = brk m end.
Proof. unfold alloc_addr. repeat case_match; intros; simplify_eq/=; split_and!; done || lia. Qed.

Lemma alloc_addr_room n m m' : brk m' = brk m -> oom m' = oom m -> fst (alloc_addr n m') = fst (alloc_addr n m).
Proof. intros Hb Ho. unfold alloc_addr. rewrite Hb, Ho. repeat case_match; done. Qed.

Lemma load_in m a n bs :
  blocks m !! a = Some bs -> 0 <= n <= Z.of_nat (length bs) ->
  load a n m = Ok (take (Z.to_nat n) bs, m).
Proof. intros H Hn. unfold load. rewrite H, read_bytes_ok by lia. by rewrite drop_0. Qed.

Lemma load_s_bytes m a w z :
  0 < w -> w mod 8 = 0 -> - 2 ^ (w - 1) <= z < 2 ^ (w - 1) ->
  blocks m !! a = Some (le_bytes (Z.to_nat (w / 8)) z) -> load_s w a m = Ok (z, m).
Proof.
  intros Hw H8 Hz Hm. unfold load_s.
  pose proof (Z.div_mod w 8 ltac:(lia)). pose proof (Z.div_pos w 8 ltac:(lia) ltac:(lia)).
  erewrite bind_Ok; [|by apply (load_in _ _ _ _ Hm); rewrite length_le_bytes; lia].
  rewrite firstn_all2 by (rewrite length_le_bytes; lia).
  rewrite le_value_le_bytes. unfold mret, M_ret. do 2 f_equal. unfold sw.
  replace (8 * Z.of_nat (Z.to_nat (w / 8))) with w by lia. rewrite Z.mod_mod by lia.
  assert (E : 2 ^ w = 2 * 2 ^ (w - 1)) by (rewrite <- Z.pow_succ_r by lia; f_equal; lia).
  destruct (Z.leb_spec 0 z).
  - rewrite Z.mod_small by lia. by rewrite (proj2 (Z.ltb_lt _ _)) by lia.
  - replace (z mod 2 ^ w) with (z + 2 ^ w) by (apply (Z.mod_unique _ _ (-1)); lia).
    rewrite (proj2 (Z.ltb_ge _ _)) by lia. lia.
Qed.

Lemma load_u_bytes m a w z :
  0 < w -> w mod 8 = 0 -> is_u w z ->
  blocks m !! a = Some (le_bytes (Z.to_nat (w / 8)) z) -> load_u w a m = Ok (z, m).
Proof.
  intros Hw H8 Hz Hm. unfold load_u.
  pose proof (Z.div_mod w 8 ltac:(lia)). pose proof (Z.div_pos w 8 ltac:(lia) ltac:(lia)).
  erewrite bind_Ok; [|by apply (load_in _ _ _ _ Hm); rewrite length_le_bytes; lia].
  rewrite firstn_all2 by (rewrite length_le_bytes; lia).
  rewrite le_value_le_bytes. unfold mret, M_ret. do 2 f_equal.
  replace (8 * Z.of_nat (Z.to_nat (w / 8))) with w by lia. by apply Z.mod_small.
Qed.

(** ** Objects made of 64-bit words

    The nodes of the linked containers: a pointer, a size or a value union is
    one word, little-endian in memory. *)

Definition enc_words (ws : list Z) : list Z := concat (map (le_bytes 8) ws).

(** The [i]-th word of the object at [a]: a field of a structure. *)
Definition read_word (a : Z) (i : nat) : M mem Z := fun m =>
  match blocks m !! a with
  | Some bs => w ← read_bytes bs (8 * Z.of_nat i) 8; Ok (le_value w, m)
  | None => Ub
  end.

Definition write_word (a : Z) (i : nat) (w : Z) : M mem unit := fun m =>
  match blocks m !! a with
  | Some bs =>
      bs ← write_bytes bs (8 * Z.of_nat i) (le_bytes 8 w);
      Ok (tt, mk_mem (<[a := bs]> (blocks m)) (brk m) (oom m))
  | None => Ub
  end.

(** The object at [a] is exactly the words [ws]. *)
Definition words_at (m : mem) (a : Z) (ws : list Z) : Prop :=
  blocks m !! a = Some (enc_words ws) /\ Forall (is_u 64) ws.

Lemma length_enc_words ws : length (enc_words ws) = (8 * length ws)%nat.
Proof.
  induction ws as [|w ws IH]; [done|].
  change (enc_words (w :: ws)) with (le_bytes 8 w ++ enc_words ws).
  rewrite length_app, length_le_bytes, IH. simpl length. lia.
Qed.

Lemma drop_enc_words ws i : drop (8 * i) (enc_words ws) = enc_words (drop i ws).
Proof.
  revert i. induction ws as [|w ws IH]; intros i; [by rewrite drop_nil; apply drop_nil|].
  destruct i as [|i]; [done|].
  change (enc_words (w :: ws)) with (le_bytes 8 w ++ enc_words ws).
  rewrite drop_app_ge by (rewrite length_le_bytes; lia). rewrite length_le_bytes.
  replace (8 * S i - 8)%nat with (8 * i)%nat by lia. apply IH.
Qed.

Lemma take_enc_words ws i : take (8 * i) (enc_words ws) = enc_words (take i ws).
Proof.
  revert i. induction ws as [|w ws IH]; intros i; [by rewrite take_nil; apply take_nil|].
  destruct i as [|i]; [done|].
  change (enc_words (w :: ws)) with (le_bytes 8 w ++ enc_words ws).
  rewrite take_app_ge by (rewrite length_le_bytes; lia). rewrite length_le_bytes.
  replace (8 * S i - 8)%nat with (8 * i)%nat by lia. by rewrite IH.
Qed.

Lemma read_word_ok m a ws i w :
  words_at m a ws -> ws !! i = Some w -> read_word a i m = Ok (w, m).
Proof.
  intros [Hm Hu] Hi. pose proof (lookup_lt_Some _ _ _ Hi). unfold read_word. rewrite Hm.
  rewrite read_bytes_ok by (rewrite ?length_enc_words; lia). cbn [mbind outcome_bind].
  replace (Z.to_nat (8 * Z.of_nat i)) with (8 * i)%nat by lia.
  rewrite drop_enc_words, (drop_S ws w i Hi).
  change (enc_words (w :: drop (S i) ws)) with (le_bytes 8 w ++ enc_words (drop (S i) ws)).
  change (Z.to_nat 8) with 8%nat.
  rewrite take_app_length' by (by rewrite length_le_bytes).
  rewrite le_value_le_bytes. do 2 f_equal. apply Z.mod_small.
  by eapply Forall_lookup_1 in Hu.
Qed.

Lemma write_word_ok m a ws i w :
  words_at m a ws -> (i < length ws)%nat ->
  write_word a i w m =
    Ok (tt, mk_mem (<[a := enc_words (<[i := w]> ws)]> (blocks m)) (brk m) (oom m)).
Proof.
  intros [Hm Hu] Hi. unfold write_word. rewrite Hm.
  rewrite write_bytes_ok by (rewrite ?length_enc_words, ?length_le_bytes; lia).
  cbn [mbind outcome_bind]. do 4 f_equal. unfold splice. rewrite length_le_bytes.
  replace (Z.to_nat (8 * Z.of_nat i)) with (8 * i)%nat by lia.
  replace (8 * i + 8)%nat with (8 * S i)%nat by lia.
  rewrite drop_enc_words, take_enc_words, insert_take_drop by done.
  unfold enc_words. rewrite map_app, concat_app. done.
Qed.

(** [m'] holds the same object at [a] as [m]. *)
Definition same_at (m m' : mem) (a : Z) : Prop := blocks m' !! a = blocks m !! a.

Lemma words_at_same m m' a ws : same_at m m' a -> words_at m a ws -> words_at m' a ws.
Proof. intros E [H Hu]. split; [by rewrite E|done]. Qed.

Lemma words_at_inj m a ws ws' : words_at m a ws -> words_at m a ws' ->
  enc_words ws = enc_words ws'.
Proof. intros [H _] [H' _]. congruence. Qed.

(** The store after a field assignment, as seen at every address. *)
Definition upd_words (m : mem) (a : Z) (ws : list Z) : mem :=
  mk_mem (<[a := enc_words ws]> (blocks m)) (brk m) (oom m).

Lemma words_at_upd m a ws : Forall (is_u 64) ws -> words_at (upd_words m a ws) a ws.
Proof. intros H. split; [simpl; by simplify_map_eq|done]. Qed.

Lemma same_at_upd m a ws b : b <> a -> same_at m (upd_words m a ws) b.
Proof. intros H. unfold same_at. simpl. by simplify_map_eq. Qed.

(** [m'] differs from [m] at most in the contents of the objects at [X]. *)
Definition keeps (X : list Z) (m m' : mem) : Prop :=
  brk m' = brk m /\ oom m' = oom m /\
  (forall a, is_Some (blocks m' !! a) <-> is_Some (blocks m !! a)) /\
  forall a, a ∉ X -> same_at m m' a.

Lemma keeps_refl X m : keeps X m m.
Proof. by split_and!. Qed.

Lemma keeps_trans X Y m1 m2 m3 : keeps X m1 m2 -> keeps Y m2 m3 -> keeps (X ++ Y) m1 m3.
Proof.
  intros (B1 & O1 & D1 & S1) (B2 & O2 & D2 & S2). split_and!.
  - congruence.
  - congruence.
  - intros a. by rewrite D2, D1.
  - intros a Ha. rewrite not_elem_of_app in Ha. destruct Ha as [H1 H2].
    unfold same_at in *. by rewrite S2, S1.
Qed.

Lemma keeps_weaken X Y m m' : (forall a, a ∈ X -> a ∈ Y) -> keeps X m m' -> keeps Y m m'.
Proof. intros H (B & O & D & S). split_and!; try done. intros a Ha. apply S. auto. Qed.

Lemma keeps_upd m a ws ws' : words_at m a ws -> keeps [a] m (upd_words m a ws').
Proof.
  intros [H _]. split_and!; try done.
  - intros b. simpl. destruct (decide (b = a)) as [->|Hne].
    + rewrite lookup_insert_eq, H. split; eauto.
    + by rewrite lookup_insert_ne.
  - intros b Hb. apply same_at_upd. set_solver.
Qed.

Lemma mem_ok_keeps X m m' : keeps X m m' -> mem_ok m -> mem_ok m'.
Proof.
  intros (B & _ & D & _) [Hb H]. rewrite <- B in *. split; [done|].
  intros a bs Ha. destruct (proj1 (D a)) as [bs' Hbs]; [eauto|]. eauto.
Qed.

Lemma write_word_upd m a ws i w :
  words_at m a ws -> (i < length ws)%nat ->
  write_word a i w m = Ok (tt, upd_words m a (<[i := w]> ws)).
Proof. apply write_word_ok. Qed.

Lemma words_keeps X m m' a ws : keeps X m m' -> a ∉ X -> words_at m a ws -> words_at m' a ws.
Proof. intros (_ & _ & _ & K) H. apply words_at_same. auto. Qed.

(** Two steps that keep all but [X] and all but [Y]. *)
Lemma keeps_trans_in X Y Z0 m1 m2 m3 :
  keeps X m1 m2 -> keeps Y m2 m3 -> (forall a, a ∈ X \/ a ∈ Y -> a ∈ Z0) -> keeps Z0 m1 m3.
Proof.
  intros K1 K2 H. eapply keeps_weaken; [|by eapply keeps_trans]. intros a.
  rewrite elem_of_app. apply H.
Qed.

(** ** Components whose state contains the heap

    A container's state is its own structures plus the heap; the class is what
    the field accesses need of it. *)
Class HasMem (S : Type) := {
  mem_of : S -> mem;
  with_mem : S -> mem -> S;
  mem_of_with : forall s m, mem_of (with_mem s m) = m;
  with_mem_of : forall s, with_mem s (mem_of s) = s;
  with_mem_with : forall s m m', with_mem (with_mem s m) m' = with_mem s m';
}.

Definition on_mem {S} `{HasMem S} {A} (f : M mem A) : M S A := fun s =>
  match f (mem_of s) with
  | Ok (a, m) => Ok (a, with_mem s m)
  | Ub => Ub
  | OutOfFuel => OutOfFuel
  end.

(** A local variable whose address is taken: an object above all others, with
    the bytes [bs], while [f] runs. *)
Definition local {S} `{HasMem S} {A} (a : Z) (bs : list Z) (f : M S A) : M S A := fun s =>
  let m := mem_of s in
  match f (with_mem s (mk_mem (<[a := bs]> (blocks m)) (brk m) (oom m))) with
  | Ok (x, s) => let m := mem_of s in Ok (x, with_mem s (mk_mem (delete a (blocks m)) (brk m) (oom m)))
  | Ub => Ub
  | OutOfFuel => OutOfFuel
  end.

Section FieldAccess.
Context {S : Type} `{HasMem S}.

(** Reads leave the state alone. *)
Lemma on_mem_same {A} (f : M mem A) s (x : A) s' : (forall m x m', f m = Ok (x, m') -> m' = m) ->
  on_mem f s = Ok (x, s') -> s' = s.
Proof using Type.
  intros Hf E. unfold on_mem in E. destruct (f (mem_of s)) as [[y m]| |] eqn:Ef; [|done..].
  injection E as _ <-. rewrite (Hf _ _ _ Ef). apply with_mem_of.
Qed.

Lemma read_word_same a i s r s' : on_mem (read_word a i) s = Ok (r, s') -> s' = s.
Proof using Type.
  apply on_mem_same. intros m x m'. unfold read_word. destruct (blocks m !! a); [|done].
  destruct (read_bytes _ _ _); [|done..]. by intros [= _ <-].
Qed.

(** [f] changes the memory [m] to [m'] and returns [x], whatever else the state
    holds. *)
Definition writes {A} (f : M S A) (m m' : mem) (x : A) : Prop :=
  forall s, mem_of s = m -> f s = Ok (x, with_mem s m').

Lemma on_mem_ok {A} (f : M mem A) s (x : A) m :
  f (mem_of s) = Ok (x, m) -> on_mem f s = Ok (x, with_mem s m).
Proof using Type. intros Hf. unfold on_mem. by rewrite Hf. Qed.

Lemma on_mem_pure {A} (f : M mem A) s (x : A) :
  f (mem_of s) = Ok (x, mem_of s) -> on_mem f s = Ok (x, s).
Proof using Type. intros Hf. erewrite on_mem_ok by exact Hf. by rewrite with_mem_of. Qed.

Lemma read_field s a ws i w :
  words_at (mem_of s) a ws -> ws !! i = Some w -> on_mem (read_word a i) s = Ok (w, s).
Proof using Type. intros Hw Hi. by eapply on_mem_pure, read_word_ok. Qed.

Lemma write_field m a ws i w :
  words_at m a ws -> (i < length ws)%nat ->
  writes (on_mem (write_word a i w)) m (upd_words m a (<[i := w]> ws)) tt.
Proof using Type. intros Hw Hi s <-. by apply on_mem_ok, write_word_upd. Qed.

(** A field assignment, and what it leaves. *)
Lemma set_field m a ws i w :
  words_at m a ws -> (i < length ws)%nat -> is_u 64 w ->
  exists m', writes (on_mem (write_word a i w)) m m' tt /\ words_at m' a (<[i := w]> ws) /\
    keeps [a] m m'.
Proof using Type.
  intros Hw Hi Hu. eexists. split; [by apply write_field|]. split; [|by eapply keeps_upd].
  apply words_at_upd. apply Forall_insert; [apply Hw|done].
Qed.
End FieldAccess.

(** Distinct live addresses are no more than the objects of the heap: the fuel
    of a walk along them. *)
Lemma live_le_size m (l : list Z) :
  (forall a, a ∈ l -> is_Some (blocks m !! a)) -> NoDup l -> (length l <= size (blocks m))%nat.
Proof.
  intros Hl Hnd. rewrite <- (size_list_to_set (C := gset Z) _ Hnd), <- size_dom.
  apply subseteq_size. intros a Ha. apply elem_of_list_to_set in Ha. apply elem_of_dom. auto.
Qed.

Lemma words_at_live m a ws : words_at m a ws -> is_Some (blocks m !! a).
Proof. intros [H _]. by eexists. Qed.

(** Room for more allocations, none of them set to fail. *)
Definition room (m : mem) (n : Z) : Prop := oom m = [] /\ brk m + n < 2 ^ 63.

Lemma malloc_room m n k : room m k -> mem_ok m -> 0 <= n -> Z.max 16 n <= k ->
  kylin_malloc n m = Ok (brk m, mk_mem (<[brk m := replicate (Z.to_nat n) 0]> (blocks m))
    (brk m + Z.max 16 n) []).
Proof.
  intros [Ho Hr] _ Hn Hk. unfold kylin_malloc, alloc_addr. rewrite Ho.
  by rewrite (proj2 (Z.ltb_lt _ _)) by lia.
Qed.

Lemma malloc_mem_ok m n : mem_ok m -> brk m + Z.max 16 n < 2 ^ 63 -> mem_ok
  (mk_mem (<[brk m := replicate (Z.to_nat n) 0]> (blocks m)) (brk m + Z.max 16 n) []).
Proof.
  intros [Hb Hm] Hn. split; simpl; [lia|]. intros a bs Ha.
  apply lookup_insert_Some in Ha as [[<- _]|[_ Ha]]; [lia|]. apply Hm in Ha. lia.
Qed.

(** The heap after [kylin_free]. *)
Lemma mem_ok_delete m a : mem_ok m -> mem_ok (mk_mem (delete a (blocks m)) (brk m) (oom m)).
Proof.
  intros [Hb Hm]. split; [done|]. simpl. intros b bs Hl. apply lookup_delete_Some in Hl as [_ Hl].
  by eapply Hm.
Qed.

Lemma mem_ok_overwrite m a old bs : mem_ok m -> blocks m !! a = Some old ->
  mem_ok (mk_mem (<[a := bs]> (blocks m)) (brk m) (oom m)).
Proof.
  intros [Hb Hm] Ha. split; [done|]. simpl. intros b bs' Hl.
  apply lookup_insert_Some in Hl as [[<- _]|[_ Hl]]; by eapply Hm.
Qed.

Lemma free_live m a : a <> NULL -> is_Some (blocks m !! a) ->
  kylin_free a m = Ok (tt, mk_mem (delete a (blocks m)) (brk m) (oom m)).
Proof. intros Ha [bs Hbs]. unfold kylin_free. by rewrite (proj2 (Z.eqb_neq _ _) Ha), Hbs. Qed.

Lemma same_at_delete m a b : b <> a -> same_at m (mk_mem (delete a (blocks m)) (brk m) (oom m)) b.
Proof. intros Hne. unfold same_at. simpl. by rewrite lookup_delete_ne. Qed.

(** The next statement reads a field of the object [H : words_at _ _ _]. *)
Ltac reads H := erewrite bind_Ok by (eapply read_field; [exact H|reflexivity]); cbv beta.

(** ** Fields of structures with members of several widths: offset and width in
    bytes *)
Definition field : Type := (Z * Z)%type.

Definition load_at (a off n : Z) : M mem (list Z) := fun m =>
  match blocks m !! a with
  | Some bs => bs' ← read_bytes bs off n; Ok (bs', m)
  | None => Ub
  end.
Definition store_at (a off : Z) (bs : list Z) : M mem unit := fun m =>
  match blocks m !! a with
  | Some old => new ← write_bytes old off bs; Ok (tt, mk_mem (<[a := new]> (blocks m)) (brk m) (oom m))
  | None => Ub
  end.
Definition get_field (f : field) (a : Z) : M mem Z := bs ← load_at a f.1 f.2; mret (le_value bs).
Definition put_field (f : field) (a v : Z) : M mem unit := store_at a f.1 (le_bytes (Z.to_nat f.2) v).

(** The C string at an address: reading past the object is undefined. *)
Fixpoint c_chars (bs : list Z) : outcome (list Z) :=
  match bs with [] => Ub | c :: bs => if c =? 0 then Ok [] else s ← c_chars bs; Ok (c :: s) end.
Definition load_string (a off : Z) : M mem (list Z) := fun m =>
  match blocks m !! a with
  | Some bs => s ← c_chars (drop (Z.to_nat off) bs); Ok (s, m)
  | None => Ub
  end.

(** [strncmp(a, b, n) == 0] *)
Fixpoint strncmp_eq (n : nat) (a b : list Z) : outcome bool :=
  match n with
  | O => Ok true
  | S n =>
      match a, b with
      | x :: a, y :: b => if x =? y then if x =? 0 then Ok true else strncmp_eq n a b else Ok false
      | _, _ => Ub
      end
  end.

Lemma load_at_ok m a x bs y n : blocks m !! a = Some (x ++ bs ++ y) -> n = Z.of_nat (length bs) ->
  load_at a (Z.of_nat (length x)) n m = Ok (bs, m).
Proof.
  intros H ->. unfold load_at. rewrite H, read_bytes_ok by (rewrite ?length_app; lia). cbn [mbind outcome_bind].
  by rewrite !Nat2Z.id, drop_app_length, take_app_length.
Qed.

Lemma get_field_ok m a x n z y w off : blocks m !! a = Some (x ++ le_bytes n z ++ y) ->
  w = Z.of_nat n -> off = Z.of_nat (length x) -> is_u (8 * w) z -> get_field (off, w) a m = Ok (z, m).
Proof.
  intros H -> -> Hz. unfold get_field. cbn [fst snd].
  run (load_at_ok m a x (le_bytes n z) y (Z.of_nat n) H ltac:(by rewrite length_le_bytes)).
  rewrite le_value_le_bytes. unfold mret, M_ret. do 2 f_equal. by apply Z.mod_small.
Qed.

Lemma store_at_ok m a x old new y off : blocks m !! a = Some (x ++ old ++ y) -> length old = length new ->
  off = Z.of_nat (length x) ->
  store_at a off new m = Ok (tt, mk_mem (<[a := x ++ new ++ y]> (blocks m)) (brk m) (oom m)).
Proof.
  intros H Hl ->. unfold store_at. rewrite H, write_bytes_ok by (rewrite ?length_app; lia).
  cbn [mbind outcome_bind]. do 4 f_equal. unfold splice.
  rewrite Nat2Z.id, take_app_length, <- Hl. do 2 f_equal.
  rewrite app_assoc. rewrite drop_app_ge by (rewrite length_app; lia). rewrite length_app, Nat.sub_diag. done.
Qed.
