(* ===== verification/MathVal.v ===== *)
(** * Object values ([lib/core/math/kylin_math.h], [include/utils/kylin_object.h])

    A [kmath_val_t] is a union of a pointer, two 64-bit integers and a double:
    here the 64 bits it holds.  The constructor reads an integer of the
    declared width through the pointer it is given, or keeps (or copies) the
    object pointed to; comparisons work on the declared type.  The allocator
    and comparison callbacks of the options are arguments. *)

From Stdlib Require SpecFloat.
From S2P Require Import Prelude Bytes Mem.

Inductive kobj_t : Set :=
| KOBJ_INT8 | KOBJ_INT16 | KOBJ_INT32 | KOBJ_INT64 | KOBJ_SIGNED
| KOBJ_UINT8 | KOBJ_UINT16 | KOBJ_UINT32 | KOBJ_UINT64 | KOBJ_UNSIGNED
| KOBJ_NORMAL
| KOBJ_STRING | KOBJ_KMAP | KOBJ_KSET | KOBJ_KSTR | KOBJ_OTHERS.

#[export] Instance kobj_t_eq_dec : EqDecision kobj_t.
Proof. solve_decision. Defined.

Definition kobj_code (t : kobj_t) : Z :=
  match t with
  | KOBJ_INT8 => 1 | KOBJ_INT16 => 2 | KOBJ_INT32 => 3 | KOBJ_INT64 => 4
  | KOBJ_SIGNED => 8
  | KOBJ_UINT8 => 9 | KOBJ_UINT16 => 10 | KOBJ_UINT32 => 11 | KOBJ_UINT64 => 12
  | KOBJ_UNSIGNED => 16
  | KOBJ_NORMAL => 32
  | KOBJ_STRING => 33 | KOBJ_KMAP => 34 | KOBJ_KSET => 35 | KOBJ_KSTR => 36
  | KOBJ_OTHERS => 64
  end.

(** The 64 bits of the union; the readings of its members. *)
Abbreviation kmath_val_t := Z (only parsing).
Definition val_s64 (v : kmath_val_t) : Z := s64 v.
Definition val_u64 (v : kmath_val_t) : Z := u64 v.

(** The binary64 number of 64 bits. *)
Definition val_d (v : kmath_val_t) : SpecFloat.spec_float :=
  let s := Z.testbit v 63 in
  let e := Z.land (Z.shiftr v 52) 0x7ff in
  let m := Z.land v (2 ^ 52 - 1) in
  if e =? 0 then
    match m with
    | Zpos p => SpecFloat.S754_finite s p (-1074)
    | _ => SpecFloat.S754_zero s
    end
  else if e =? 0x7ff then
    (if m =? 0 then SpecFloat.S754_infinity s else SpecFloat.S754_nan)
  else
    match m + 2 ^ 52 with
    | Zpos p => SpecFloat.S754_finite s p (e - 1075)
    | _ => SpecFloat.S754_nan
    end.

(** Conversion of an [int64_t] to [double]. *)
Definition double_of_int (z : Z) : SpecFloat.spec_float :=
  SpecFloat.binary_normalize 53 1024 z 0 false.

(** [x > y] on doubles. *)
Definition d_gt (x y : SpecFloat.spec_float) : bool := SpecFloat.SFltb y x.

Definition kmath_val_ctor (v : Z) (type : kobj_t) (size : Z) (ctor : option (Z -> M mem Z)) :
    M mem kmath_val_t :=
  match type with
  | KOBJ_INT8 => z ← load_s 8 v; mret (u64 z)
  | KOBJ_INT16 => z ← load_s 16 v; mret (u64 z)
  | KOBJ_INT32 => z ← load_s 32 v; mret (u64 z)
  | KOBJ_INT64 => z ← load_s 64 v; mret (u64 z)
  | KOBJ_UINT8 => load_u 8 v
  | KOBJ_UINT16 => load_u 16 v
  | KOBJ_UINT32 => load_u 32 v
  | KOBJ_UINT64 => load_u 64 v
  | KOBJ_STRING | KOBJ_KMAP | KOBJ_KSET | KOBJ_KSTR | KOBJ_OTHERS =>
      match ctor with
      | Some ctor => p ← ctor size; _ ← copy_object p v size; mret p
      | None => mret v
      end
  | KOBJ_SIGNED | KOBJ_UNSIGNED | KOBJ_NORMAL => mret v
  end.

(** The destructors of the nested container types. *)
Record nested_dtors := mk_nested_dtors {
  kylin_map_destroy : Z -> M mem unit;
  kylin_string_destroy : Z -> M mem unit;
  kylin_set_destroy : Z -> M mem unit;
}.

Definition kmath_val_dtor (nested : nested_dtors) (val : kmath_val_t) (type : kobj_t)
    (dtor : option (Z -> M mem unit)) : M mem unit :=
  match type with
  | KOBJ_INT8 | KOBJ_INT16 | KOBJ_INT32 | KOBJ_INT64
  | KOBJ_UINT8 | KOBJ_UINT16 | KOBJ_UINT32 | KOBJ_UINT64 => mret tt
  | KOBJ_KMAP => kylin_map_destroy nested val
  | KOBJ_KSTR => kylin_string_destroy nested val
  | KOBJ_KSET => kylin_set_destroy nested val
  | _ => match dtor with Some dtor => dtor val | None => mret tt end
  end.

(** A comparison callback looks at the two objects in memory. *)
Definition cmp_fn : Type := mem -> Z -> Z -> Z.

Definition kmath_val_cmp (m : mem) (v1 v2 : kmath_val_t) (type : kobj_t) (cmp : cmp_fn) : Z :=
  if kobj_code type <? kobj_code KOBJ_NORMAL then
    if kobj_code type <? kobj_code KOBJ_SIGNED then
      if val_s64 v2 <? val_s64 v1 then 1 else -1
    else if kobj_code type <? kobj_code KOBJ_UNSIGNED then
      if val_u64 v2 <? val_u64 v1 then 1 else -1
    else if d_gt (val_d v1) (val_d v2) then 1 else -1
  else cmp m v1 v2.

(** [v2] points to the value to compare with: eight bytes are read there,
    whatever the width of the type; the unsigned branch converts the signed
    member to [uint64_t]. *)
Definition kmath_val_cmp_raw (v1 : kmath_val_t) (v2 : Z) (type : kobj_t) (cmp : cmp_fn) :
    M mem Z :=
  if kobj_code type <? kobj_code KOBJ_NORMAL then
    if kobj_code type <? kobj_code KOBJ_SIGNED then
      x ← load_s 64 v2; mret (if x <? val_s64 v1 then 1 else -1)
    else if kobj_code type <? kobj_code KOBJ_UNSIGNED then
      x ← load_u 64 v2; mret (if x <? u64 (val_s64 v1) then 1 else -1)
    else
      x ← load_u 64 v2; mret (if d_gt (double_of_int (val_s64 v1)) (val_d x) then 1 else -1)
  else fun m => Ok (cmp m v1 v2, m).

(** The pointer [kmath_val_get] returns: the address of the slot itself for
    the integer types, the pointer the slot holds otherwise. *)
Inductive vptr (I : Type) : Type :=
| PSlot (i : I)
| PObj (a : Z).
Arguments PSlot {I} i.
Arguments PObj {I} a.

Definition kmath_val_get {I} (slot : I) (val : kmath_val_t) (type : kobj_t) : vptr I :=
  match type with
  | KOBJ_INT8 | KOBJ_INT16 | KOBJ_INT32 | KOBJ_INT64
  | KOBJ_UINT8 | KOBJ_UINT16 | KOBJ_UINT32 | KOBJ_UINT64 => PSlot slot
  | _ => PObj val
  end.

(** ** The integer types *)

(** Width and signedness of an integer type. *)
Definition int_type (t : kobj_t) : option (Z * bool) :=
  match t with
  | KOBJ_INT8 => Some (8, true) | KOBJ_INT16 => Some (16, true)
  | KOBJ_INT32 => Some (32, true) | KOBJ_INT64 => Some (64, true)
  | KOBJ_UINT8 => Some (8, false) | KOBJ_UINT16 => Some (16, false)
  | KOBJ_UINT32 => Some (32, false) | KOBJ_UINT64 => Some (64, false)
  | _ => None
  end.

Definition in_int_type (w : Z) (signed : bool) (z : Z) : Prop :=
  if signed then - 2 ^ (w - 1) <= z < 2 ^ (w - 1) else is_u w z.

(** The value a slot of an integer type stands for. *)
Definition int_value (signed : bool) (v : kmath_val_t) : Z :=
  if signed then val_s64 v else val_u64 v.

Lemma s64_u64 z : - 2 ^ 63 <= z < 2 ^ 63 -> s64 (u64 z) = z.
Proof.
  intros Hz. unfold sw, uw. rewrite Z.mod_mod by lia. change (2 ^ (64 - 1)) with (2 ^ 63).
  destruct (Z.leb_spec 0 z).
  - rewrite Z.mod_small by lia. by rewrite (proj2 (Z.ltb_lt _ _)) by lia.
  - replace (z mod 2 ^ 64) with (z + 2 ^ 64) by (apply (Z.mod_unique _ _ (-1)); lia).
    rewrite (proj2 (Z.ltb_ge _ _)) by lia. lia.
Qed.

Lemma int_type_width t w s : int_type t = Some (w, s) -> 0 < w <= 64 /\ w mod 8 = 0.
Proof. destruct t; intros; simplify_eq/=; done. Qed.

Lemma ctor_int_spec m v t w s z size ctor :
  int_type t = Some (w, s) -> in_int_type w s z ->
  blocks m !! v = Some (le_bytes (Z.to_nat (w / 8)) z) ->
  exists val, kmath_val_ctor v t size ctor m = Ok (val, m) /\ int_value s val = z.
Proof.
  intros Ht Hz Hm. pose proof (int_type_width t w s Ht) as [Hw H8].
  assert (Hs : in_int_type w true z -> forall x, load_s w v m = Ok (x, m) -> x = z).
  { intros Hs x Hx. by rewrite (load_s_bytes m v w z) in Hx by (done || lia); simplify_eq. }
  destruct t; simplify_eq/=; unfold in_int_type in Hz; simpl in Hz;
    first [ erewrite bind_Ok by (apply load_s_bytes; [lia|done|exact Hz|exact Hm]);
            eexists; split; [done|]; apply s64_u64; lia
          | eexists; split; [apply load_u_bytes; [lia|done|exact Hz|exact Hm]|];
            apply uw_id; unfold is_u in *; lia ].
Qed.

Lemma cmp_int_spec m v1 v2 t w s cmp :
  int_type t = Some (w, s) ->
  kmath_val_cmp m v1 v2 t cmp = if int_value s v2 <? int_value s v1 then 1 else -1.
Proof. destruct t; intros; simplify_eq/=; done. Qed.

(** ** Properties *)

(** A slot of an integer type holds the caller's integer: whatever the width
    and the sign, the value read through the pointer is kept exactly, and
    [kmath_val_cmp] orders slots as their integers; two equal integers compare
    as -1, never as 0. *)
Theorem int_values_kept_and_ordered m t w s p1 p2 z1 z2 size ctor cmp :
  int_type t = Some (w, s) -> in_int_type w s z1 -> in_int_type w s z2 ->
  blocks m !! p1 = Some (le_bytes (Z.to_nat (w / 8)) z1) ->
  blocks m !! p2 = Some (le_bytes (Z.to_nat (w / 8)) z2) ->
  exists v1 v2, kmath_val_ctor p1 t size ctor m = Ok (v1, m) /\
    kmath_val_ctor p2 t size ctor m = Ok (v2, m) /\
    int_value s v1 = z1 /\ int_value s v2 = z2 /\
    kmath_val_cmp m v1 v2 t cmp = if z2 <? z1 then 1 else -1.
Proof.
  intros Ht H1 H2 M1 M2.
  destruct (ctor_int_spec m p1 t w s z1 size ctor Ht H1 M1) as (v1 & E1 & V1).
  destruct (ctor_int_spec m p2 t w s z2 size ctor Ht H2 M2) as (v2 & E2 & V2).
  exists v1, v2. rewrite (cmp_int_spec m v1 v2 t w s cmp Ht), V1, V2. done.
Qed.

Lemma int_values_kept_and_ordered_witness :
  let m := mk_mem {[16 := [0xff; 0xff]; 32 := [1; 0]]} 48 [] in
  exists v1 v2, kmath_val_ctor 16 KOBJ_INT16 2 None m = Ok (v1, m) /\
    kmath_val_ctor 32 KOBJ_INT16 2 None m = Ok (v2, m) /\
    int_value true v1 = -1 /\ int_value true v2 = 1 /\
    kmath_val_cmp m v1 v2 KOBJ_INT16 (fun _ _ _ => 0) = -1.
Proof.
  apply (int_values_kept_and_ordered (mk_mem {[16 := [0xff; 0xff]; 32 := [1; 0]]} 48 [])
    KOBJ_INT16 16 true 16 32 (-1) 1 2 None (fun _ _ _ => 0)); simpl; try lia; reflexivity.
Defined.
