(* ===== verification/Ring.v ===== *)
(** * The lock-free ring ([lib/core/math/kylin_ring.c])

    A ring of [cap] value slots between the 32-bit positions [head] and
    [tail]: the next slot to read is the one after [tail], the last written
    one is [head], so at most [cap - 1] values are queued.  [enqueue] and
    [dequeue] are loops of atomic accesses: every access is one step of the
    calling thread here ([ring_pc] is its program counter), a call by itself is
    the loop run to its end, and concurrent calls are interleaved steps. *)

From S2P Require Import Prelude Errors Bytes Circular Atomic Mem MathVal.

Record kring_opts_t := mk_kring_opts {
  opts_cap : Z;
  val_type : kobj_t;
  val_size : Z;
  val_ctor : option (Z -> M mem Z);
  val_dtor : option (Z -> M mem unit);
}.

Record kring_t := mk_kring {
  r_opts : kring_opts_t;
  r_mask : Z;
  r_head : Z;
  r_tail : Z;
  r_val : list kmath_val_t;
}.

(** [guard_ok]: whether the guard allocation succeeds; the slots of a fresh
    ring hold whatever the memory held ([init]). *)
Definition kylin_ring_create (guard_ok : bool) (init : list kmath_val_t) (opts : kring_opts_t) :
    kerr_t + kring_t :=
  if negb guard_ok then inl KYLIN_ERROR_NOMEM
  else inr (mk_kring opts (u64 (opts_cap opts - 1)) (kylin_atomic32_init 0)
              (kylin_atomic32_init 0) init).

Definition RING_VAL_MALLOC (opts : kring_opts_t) := val_ctor opts.
Definition RING_VAL_FREE (opts : kring_opts_t) : Z -> M mem unit :=
  match val_dtor opts with Some f => f | None => kylin_free end.

(** [x == guard->mask ? 0 : x + 1] *)
Definition next_pos (r : kring_t) (x : Z) : Z := if x =? r_mask r then 0 else u32 (x + 1).

Definition set_head (r : kring_t) (h : Z) : kring_t :=
  mk_kring (r_opts r) (r_mask r) h (r_tail r) (r_val r).
Definition set_tail (r : kring_t) (t : Z) : kring_t :=
  mk_kring (r_opts r) (r_mask r) (r_head r) t (r_val r).
Definition set_slots (r : kring_t) (v : list kmath_val_t) : kring_t :=
  mk_kring (r_opts r) (r_mask r) (r_head r) (r_tail r) v.

Inductive ring_pc : Type :=
| EHead (buf : Z)                       (** enqueue: read [head] *)
| ETail (buf head : Z)                  (** read [tail], test for full *)
| ECas (buf head new_head : Z)          (** move [head] *)
| EWrite (buf new_head : Z)             (** construct the value in its slot *)
| EDone (ret : kerr_t)
| DTail                                 (** dequeue: read [tail] *)
| DHead (tail : Z)                      (** read [head], test for empty *)
| DCas (tail new_tail : Z)              (** move [tail] *)
| DRead (new_tail : Z)                  (** fetch from the slot *)
| DDone (buf : vptr Z).

Definition slot (r : kring_t) (i : Z) : outcome kmath_val_t := rd (r_val r) (Z.to_nat i).

(** One access of [kylin_ring_enqueue] or [kylin_ring_dequeue]. *)
Definition ring_step (pc : ring_pc) (r : kring_t) (m : mem) : outcome (ring_pc * kring_t * mem) :=
  match pc with
  | EHead buf => Ok (ETail buf (u32 (kylin_atomic32_read (r_head r))), r, m)
  | ETail buf head =>
      let tail := u32 (kylin_atomic32_read (r_tail r)) in
      let new_head := next_pos r head in
      Ok (if new_head =? tail then EDone KYLIN_ERROR_NOMEM else ECas buf head new_head, r, m)
  | ECas buf head new_head =>
      let '(h, ok) := kylin_atomic32_cmpset (r_head r) head new_head in
      Ok (if ok =? 0 then EHead buf else EWrite buf new_head, set_head r h, m)
  | EWrite buf new_head =>
      x ← kmath_val_ctor buf (val_type (r_opts r)) (val_size (r_opts r))
            (RING_VAL_MALLOC (r_opts r)) m;
      v ← wr (r_val r) (Z.to_nat new_head) x.1;
      Ok (EDone KYLIN_ERROR_OK, set_slots r v, x.2)
  | DTail => Ok (DHead (u32 (kylin_atomic32_read (r_tail r))), r, m)
  | DHead tail =>
      let head := u32 (kylin_atomic32_read (r_head r)) in
      Ok (if tail =? head then DDone (PObj NULL) else DCas tail (next_pos r tail), r, m)
  | DCas tail new_tail =>
      let '(t, ok) := kylin_atomic32_cmpset (r_tail r) tail new_tail in
      Ok (if ok =? 0 then DTail else DRead new_tail, set_tail r t, m)
  | DRead new_tail =>
      v ← slot r new_tail;
      Ok (DDone (kmath_val_get new_tail v (val_type (r_opts r))), r, m)
  | EDone _ | DDone _ => Ok (pc, r, m)
  end.

(** A call that is not interrupted. *)
Fixpoint ring_call (fuel : nat) (pc : ring_pc) (r : kring_t) (m : mem) :
    outcome (ring_pc * kring_t * mem) :=
  match pc with
  | EDone _ | DDone _ => Ok (pc, r, m)
  | _ =>
      match fuel with
      | O => OutOfFuel
      | S fuel => x ← ring_step pc r m; let '(pc, r, m) := x in ring_call fuel pc r m
      end
  end.

Definition kylin_ring_enqueue (r : kring_t) (buf : Z) (m : mem) :
    outcome (ring_pc * kring_t * mem) := ring_call 4 (EHead buf) r m.
Definition kylin_ring_dequeue (r : kring_t) (m : mem) :
    outcome (ring_pc * kring_t * mem) := ring_call 4 DTail r m.

Definition kylin_ring_peek (r : kring_t) : outcome (vptr Z) :=
  let tail := u32 (kylin_atomic32_read (r_tail r)) in
  let head := u32 (kylin_atomic32_read (r_head r)) in
  if tail =? head then Ok (PObj NULL) else
  let new_tail := next_pos r tail in
  v ← slot r new_tail; Ok (kmath_val_get new_tail v (val_type (r_opts r))).

(** [free] of the address of a slot, inside the ring's own block, is undefined. *)
Definition free_ptr (opts : kring_opts_t) (p : vptr Z) : M mem unit :=
  match p with PObj a => RING_VAL_FREE opts a | PSlot _ => ub end.

Fixpoint kylin_ring_destroy (fuel : nat) (r : kring_t) : M mem unit :=
  match fuel with
  | O => out_of_fuel
  | S fuel => fun m =>
      let tail := u32 (kylin_atomic32_read (r_tail r)) in
      let head := u32 (kylin_atomic32_read (r_head r)) in
      if tail =? head then Ok (tt, m) else
      let new_tail := next_pos r tail in
      let '(t, ok) := kylin_atomic32_cmpset (r_tail r) tail new_tail in
      let r := set_tail r t in
      if ok =? 0 then kylin_ring_destroy fuel r m else
      v ← slot r new_tail;
      x ← free_ptr (r_opts r) (kmath_val_get new_tail v (val_type (r_opts r))) m;
      kylin_ring_destroy fuel r x.2
  end.

(** ** The queue behind the ring *)

Record ring_ok (r : kring_t) : Prop := {
  ok_cap : 1 <= opts_cap (r_opts r) < 2 ^ 31;
  ok_mask : r_mask r = opts_cap (r_opts r) - 1;
  ok_slots : Z.of_nat (length (r_val r)) = opts_cap (r_opts r);
  ok_head : 0 <= r_head r < opts_cap (r_opts r);
  ok_tail : 0 <= r_tail r < opts_cap (r_opts r);
}.

Definition ring_count (r : kring_t) : Z :=
  if r_tail r <=? r_head r then r_head r - r_tail r
  else opts_cap (r_opts r) - (r_tail r - r_head r).

(** The queued slot values, oldest first. *)
Definition ring_contents (r : kring_t) : list kmath_val_t :=
  ring_read (r_val r) (Z.to_nat (next_pos r (r_tail r))) (Z.to_nat (ring_count r)).

Lemma read_id x : 0 <= x < 2 ^ 31 -> u32 (kylin_atomic32_read x) = x.
Proof.
  intros H. unfold kylin_atomic32_read, sw. rewrite (Z.mod_small x) by lia.
  rewrite (proj2 (Z.ltb_lt _ _)) by lia. apply uw_id. unfold is_u. lia.
Qed.

Lemma splice_one {A} (l : list A) i x : (i < length l)%nat -> <[i := x]> l = splice l i [x].
Proof. intros H. unfold splice. rewrite insert_take_drop by done. simpl. by rewrite Nat.add_1_r. Qed.

Section Positions.
Context (r : kring_t) (Hok : ring_ok r).
Let cap := opts_cap (r_opts r).

Lemma next_pos_eq x : 0 <= x < cap -> next_pos r x = if x + 1 <? cap then x + 1 else 0.
Proof using Hok.
  intros Hx. destruct Hok as [Hc Em _ _ _]. fold cap in Hc, Em. unfold next_pos. rewrite Em.
  destruct (Z.eqb_spec x (cap - 1)), (Z.ltb_spec (x + 1) cap); try lia.
  apply uw_id. unfold is_u. lia.
Qed.

Lemma next_pos_range x : 0 <= x < cap -> 0 <= next_pos r x < cap.
Proof using Hok. intros Hx. rewrite next_pos_eq by done. destruct (Z.ltb_spec (x + 1) cap); lia. Qed.

Lemma ring_count_range : 0 <= ring_count r < cap.
Proof using Hok.
  destruct Hok as [Hc _ _ Hh Ht]. fold cap in Hc, Hh, Ht. unfold ring_count. fold cap.
  destruct (Z.leb_spec (r_tail r) (r_head r)); lia.
Qed.

Lemma length_ring_contents : Z.of_nat (length (ring_contents r)) = ring_count r.
Proof using Hok.
  pose proof ring_count_range. pose proof (next_pos_range (r_tail r)).
  destruct Hok as [Hc _ Es _ Ht]. fold cap in Hc, Es, Ht. unfold ring_contents.
  rewrite length_ring_read; lia.
Qed.

(** The slot behind the queued ones is the one after [head]. *)
Lemma head_pos :
  Z.to_nat (next_pos r (r_head r)) =
  ring_pos (length (r_val r)) (Z.to_nat (next_pos r (r_tail r))) (Z.to_nat (ring_count r)).
Proof using Hok.
  pose proof ring_count_range as Hn. destruct Hok as [Hc _ Es Hh Ht]. fold cap in Hc, Es, Hh, Ht.
  rewrite !next_pos_eq by done. unfold ring_pos, ring_count in *. fold cap in Hn |- *.
  destruct (Z.leb_spec (r_tail r) (r_head r)), (Z.ltb_spec (r_head r + 1) cap),
    (Z.ltb_spec (r_tail r + 1) cap); case_decide; lia.
Qed.

Lemma full_test : (next_pos r (r_head r) =? r_tail r) = (ring_count r =? cap - 1).
Proof using Hok.
  destruct Hok as [Hc _ _ Hh Ht]. fold cap in Hc, Hh, Ht. rewrite next_pos_eq by done.
  unfold ring_count. fold cap.
  destruct (Z.leb_spec (r_tail r) (r_head r)), (Z.ltb_spec (r_head r + 1) cap); lia.
Qed.

Lemma empty_test : (r_tail r =? r_head r) = (ring_count r =? 0).
Proof using Hok.
  destruct Hok as [Hc _ _ Hh Ht]. fold cap in Hc, Hh, Ht. unfold ring_count. fold cap.
  destruct (Z.leb_spec (r_tail r) (r_head r)); lia.
Qed.
End Positions.

(** ** A call by itself *)

Lemma enqueue_spec r m buf v m' :
  ring_ok r ->
  kmath_val_ctor buf (val_type (r_opts r)) (val_size (r_opts r)) (val_ctor (r_opts r)) m = Ok (v, m') ->
  if ring_count r =? opts_cap (r_opts r) - 1
  then kylin_ring_enqueue r buf m = Ok (EDone KYLIN_ERROR_NOMEM, r, m)
  else exists r', kylin_ring_enqueue r buf m = Ok (EDone KYLIN_ERROR_OK, r', m') /\
    ring_ok r' /\ r_opts r' = r_opts r /\ ring_contents r' = ring_contents r ++ [v].
Proof.
  intros Hok Hv. pose proof (ring_count_range r Hok) as Hn. pose proof (head_pos r Hok) as Hp.
  pose proof (full_test r Hok) as Hf. pose proof (next_pos_range r Hok (r_head r)) as Hnr.
  pose proof (next_pos_range r Hok (r_tail r)) as Htr.
  pose proof (next_pos_eq r Hok (r_head r)) as Hne.
  destruct Hok as [Hc Em Es Hh Ht]. specialize (Hnr Hh). specialize (Htr Ht). specialize (Hne Hh).
  unfold kylin_ring_enqueue.
  cbn [ring_call ring_step mbind outcome_bind]. rewrite !read_id by lia. rewrite Hf.
  destruct (Z.eqb_spec (ring_count r) (opts_cap (r_opts r) - 1)) as [E|E]; [done|].
  cbn [ring_call ring_step mbind outcome_bind].
  unfold kylin_atomic32_cmpset, cmpxchg. rewrite Z.eqb_refl.
  cbn [ring_call ring_step mbind outcome_bind Z.eqb].
  unfold RING_VAL_MALLOC. cbn [set_head r_opts r_val]. rewrite Hv. cbn [mbind outcome_bind fst snd].
  rewrite wr_lt by lia. cbn [mbind outcome_bind ring_call].
  eexists. split; [done|]. split; [|split; [done|]].
  - split; simpl; try done. rewrite length_insert. done.
  - unfold ring_contents at 1. cbn [set_slots set_head r_val r_tail r_opts].
    match goal with |- ring_read _ _ (Z.to_nat (ring_count ?r')) = _ =>
      assert (Ec : ring_count r' = ring_count r + 1) end.
    { unfold ring_count in *. simpl. rewrite Hne in *.
      destruct (Z.leb_spec (r_tail r) (r_head r)), (Z.ltb_spec (r_head r + 1) (opts_cap (r_opts r)));
        repeat case_goal; z_bool; lia. }
    rewrite Ec. replace (Z.to_nat (ring_count r + 1)) with (Z.to_nat (ring_count r) + length [v])%nat
      by (simpl; lia).
    change (next_pos (set_slots _ _) (r_tail r)) with (next_pos r (r_tail r)).
    apply ring_read_written; [lia|simpl; lia|].
    rewrite <- Hp. rewrite splice_one by lia. apply ring_written_once. simpl. lia.
Qed.

Lemma dequeue_spec r m :
  ring_ok r ->
  match ring_contents r with
  | [] => kylin_ring_dequeue r m = Ok (DDone (PObj NULL), r, m) /\
          kylin_ring_peek r = Ok (PObj NULL)
  | v :: q => exists r', let p := next_pos r (r_tail r) in
      kylin_ring_dequeue r m = Ok (DDone (kmath_val_get p v (val_type (r_opts r))), r', m) /\
      kylin_ring_peek r = Ok (kmath_val_get p v (val_type (r_opts r))) /\
      slot r' p = Ok v /\ ring_ok r' /\ r_opts r' = r_opts r /\ ring_contents r' = q
  end.
Proof.
  intros Hok. pose proof (ring_count_range r Hok) as Hn. pose proof (empty_test r Hok) as He.
  pose proof (length_ring_contents r Hok) as Hl.
  pose proof (next_pos_range r Hok (r_tail r) (ok_tail r Hok)) as Htr.
  pose proof (next_pos_eq r Hok (r_tail r) (ok_tail r Hok)) as Hte.
  unfold kylin_ring_dequeue, kylin_ring_peek. pose proof Hok as [Hc Em Es Hh Ht].
  cbn [ring_call ring_step mbind outcome_bind]. rewrite !read_id by lia. rewrite He.
  destruct (Z.eqb_spec (ring_count r) 0) as [E|E].
  { rewrite E in Hl. destruct (ring_contents r); [done|simpl in Hl; lia]. }
  destruct (ring_contents r) as [|v q] eqn:Eq; [simpl in Hl; lia|].
  cbn [ring_call ring_step mbind outcome_bind].
  unfold kylin_atomic32_cmpset, cmpxchg. rewrite Z.eqb_refl.
  cbn [ring_call ring_step mbind outcome_bind Z.eqb].
  assert (Hv : slot r (next_pos r (r_tail r)) = Ok v).
  { unfold slot, rd. assert (Hv : ring_contents r !! 0%nat = Some v) by (by rewrite Eq).
    unfold ring_contents in Hv. rewrite lookup_ring_read in Hv by lia.
    rewrite decide_True, Nat.add_0_r in Hv by lia. by rewrite Hv. }
  change (slot (set_tail r _) _) with (slot r (next_pos r (r_tail r))). rewrite Hv.
  cbn [mbind outcome_bind ring_call set_tail r_opts].
  eexists. split; [done|]. split; [done|]. split; [done|]. split; [split; simpl; done|].
  split; [done|].
  replace q with (drop 1 (ring_contents r)) by (by rewrite Eq).
  unfold ring_contents. rewrite drop_ring_read by lia.
  match goal with |- ring_read _ _ (Z.to_nat (ring_count ?r')) = _ =>
      assert (Ec : ring_count r' = ring_count r - 1) end.
  { unfold ring_count in *. simpl. rewrite Hte in *.
    destruct (Z.leb_spec (r_tail r) (r_head r)), (Z.ltb_spec (r_tail r + 1) (opts_cap (r_opts r)));
      repeat case_goal; z_bool; lia. }
  rewrite Ec. cbn [set_tail r_val r_tail]. f_equal; [|lia].
  change (next_pos (set_tail r _) ?x) with (next_pos r x).
  rewrite (next_pos_eq r Hok (next_pos r (r_tail r))) by done.
  unfold ring_pos. destruct (Z.ltb_spec (next_pos r (r_tail r) + 1) (opts_cap (r_opts r)));
    case_decide; lia.
Qed.

(** ** One producer and one consumer, interleaved

    The producer calls [enqueue] again and again, the consumer [dequeue]; they
    interleave access by access.  [enq] and [deq] count the moves of [head] and
    [tail] (ghost counters, no state of the program). *)
Record spsc := mk_spsc {
  s_ring : kring_t;
  s_mem : mem;
  s_prod : ring_pc;
  s_cons : ring_pc;
  enq : Z;
  deq : Z;
}.

Definition moved (pc pc' : ring_pc) : Z :=
  match pc, pc' with
  | ECas _ _ _, EWrite _ _ | DCas _ _, DRead _ => 1
  | _, _ => 0
  end.

Inductive spsc_step : spsc -> spsc -> Prop :=
| prod_call r m e c n k buf :
    spsc_step (mk_spsc r m (EDone e) c n k) (mk_spsc r m (EHead buf) c n k)
| prod_access r m p c n k p' r' m' :
    ring_step p r m = Ok (p', r', m') ->
    spsc_step (mk_spsc r m p c n k) (mk_spsc r' m' p' c (n + moved p p') k)
| cons_call r m p b n k :
    spsc_step (mk_spsc r m p (DDone b) n k) (mk_spsc r m p DTail n k)
| cons_access r m p c n k c' r' m' :
    ring_step c r m = Ok (c', r', m') ->
    spsc_step (mk_spsc r m p c n k) (mk_spsc r' m' p c' n (k + moved c c')).

Definition spsc_init (r : kring_t) (m : mem) : spsc :=
  mk_spsc r m (EDone KYLIN_ERROR_OK) (DDone (PObj NULL)) 0 0.

(** Where the producer may be, given the ring and the counters. *)
Definition prod_inv (s : spsc) : Prop :=
  let r := s_ring s in
  match s_prod s with
  | EDone _ | EHead _ => True
  | ETail _ h => h = r_head r
  | ECas _ h h' => h = r_head r /\ h' = next_pos r h /\ enq s - deq s < r_mask r
  | EWrite _ h => h = r_head r
  | _ => False
  end.

Definition cons_inv (s : spsc) : Prop :=
  let r := s_ring s in
  match s_cons s with
  | DDone _ | DTail => True
  | DHead t => t = r_tail r
  | DCas t t' => t = r_tail r /\ t' = next_pos r t /\ deq s < enq s
  | DRead t => t = r_tail r
  | _ => False
  end.

Definition spsc_inv (s : spsc) : Prop :=
  let r := s_ring s in
  ring_ok r /\ 0 <= deq s <= enq s /\ enq s - deq s <= r_mask r /\
  r_head r = enq s mod opts_cap (r_opts r) /\ r_tail r = deq s mod opts_cap (r_opts r) /\
  prod_inv s /\ cons_inv s.

Lemma next_pos_mod r n :
  ring_ok r -> 0 <= n ->
  next_pos r (n mod opts_cap (r_opts r)) = (n + 1) mod opts_cap (r_opts r).
Proof.
  intros Hok Hn. pose proof (ok_cap r Hok) as Hc. set (cap := opts_cap (r_opts r)) in *.
  pose proof (Z.mod_pos_bound n cap ltac:(lia)) as Hb.
  rewrite (next_pos_eq r Hok) by done. fold cap.
  pose proof (Z.div_mod n cap ltac:(lia)) as Hd.
  destruct (Z.ltb_spec (n mod cap + 1) cap).
  - apply (Z.mod_unique _ _ (n / cap)); lia.
  - apply (Z.mod_unique _ _ (n / cap + 1)); lia.
Qed.

Lemma next_pos_set_head r h x : next_pos (set_head r h) x = next_pos r x.
Proof. done. Qed.

Lemma ring_ok_set_head r h :
  ring_ok r -> 0 <= h < opts_cap (r_opts r) -> ring_ok (set_head r h).
Proof. intros [] Hh. by split. Qed.
Lemma ring_ok_set_tail r t :
  ring_ok r -> 0 <= t < opts_cap (r_opts r) -> ring_ok (set_tail r t).
Proof. intros [] Hh. by split. Qed.

Lemma spsc_prod_step s p' r' m' :
  spsc_inv s -> ring_step (s_prod s) (s_ring s) (s_mem s) = Ok (p', r', m') ->
  spsc_inv (mk_spsc r' m' p' (s_cons s) (enq s + moved (s_prod s) p') (deq s)).
Proof.
  destruct s as [r m p c n k]. unfold spsc_inv, prod_inv, cons_inv.
  cbn [s_ring s_mem s_prod s_cons enq deq].
  intros (Hok & Hk & Hn & Eh & Et & HP & HC) Hs.
  pose proof (ok_cap r Hok) as Hc. pose proof (ok_mask r Hok) as Em.
  pose proof (ok_head r Hok) as Hh. pose proof (ok_tail r Hok) as Ht.
  destruct p as [buf|buf h|buf h h'|buf h|e| |t|t t'|t|b]; try done; cbn [ring_step] in Hs.
  - rewrite read_id in Hs by lia. injection Hs as <- <- <-. simpl moved. rewrite Z.add_0_r.
    split_and!; try done; lia.
  - subst h. rewrite read_id in Hs by lia.
    destruct (Z.eqb_spec (next_pos r (r_head r)) (r_tail r)) as [E|E];
      injection Hs as <- <- <-; simpl moved; rewrite Z.add_0_r; split_and!; try done; try lia.
    rewrite Eh, Et, next_pos_mod in E by (done || lia).
    destruct (Z.eq_dec (n - k) (r_mask r)) as [En|]; [|lia]. exfalso. apply E.
    replace (n + 1) with (k + 1 * opts_cap (r_opts r)) by lia. apply Z.mod_add. lia.
  - destruct HP as (-> & -> & Hlt). unfold kylin_atomic32_cmpset, cmpxchg in Hs.
    rewrite Z.eqb_refl in Hs. injection Hs as <- <- <-. cbn [moved Z.eqb].
    pose proof (next_pos_range r Hok _ Hh) as Hnr.
    cbn [set_head r_opts r_mask r_head r_tail].
    split_and!; try done; try lia.
    + by apply ring_ok_set_head.
    + rewrite Eh. apply next_pos_mod; done || lia.
    + destruct c; try done. destruct HC as (-> & -> & Hc'). split_and!; try done; lia.
  - destruct (kmath_val_ctor _ _ _ _ m) as [[v m1]| |]; try done. cbn [mbind outcome_bind] in Hs.
    destruct (wr (r_val r) _ _) as [vs| |] eqn:Ew; try done. cbn [mbind outcome_bind fst snd] in Hs.
    injection Hs as <- <- <-. cbn [moved]. rewrite Z.add_0_r.
    cbn [set_slots r_opts r_mask r_head r_tail].
    split_and!; try done; try lia.
    destruct Hok as [K1 K2 K3 K4 K5]. split; simpl; try done.
    unfold wr in Ew. destruct (_ <? _)%nat; [|done]. injection Ew as <-. by rewrite length_insert.
  - injection Hs as <- <- <-. simpl moved. rewrite Z.add_0_r. split_and!; try done; lia.
Qed.

Lemma spsc_cons_step s c' r' m' :
  spsc_inv s -> ring_step (s_cons s) (s_ring s) (s_mem s) = Ok (c', r', m') ->
  spsc_inv (mk_spsc r' m' (s_prod s) c' (enq s) (deq s + moved (s_cons s) c')).
Proof.
  destruct s as [r m p c n k]. unfold spsc_inv, prod_inv, cons_inv.
  cbn [s_ring s_mem s_prod s_cons enq deq].
  intros (Hok & Hk & Hn & Eh & Et & HP & HC) Hs.
  pose proof (ok_cap r Hok) as Hc. pose proof (ok_mask r Hok) as Em.
  pose proof (ok_head r Hok) as Hh. pose proof (ok_tail r Hok) as Ht.
  destruct c as [buf|buf h|buf h h'|buf h|e| |t|t t'|t|b]; try done; cbn [ring_step] in Hs.
  - rewrite read_id in Hs by lia. injection Hs as <- <- <-. simpl moved. rewrite Z.add_0_r.
    split_and!; try done; lia.
  - subst t. rewrite read_id in Hs by lia.
    destruct (Z.eqb_spec (r_tail r) (r_head r)) as [E|E];
      injection Hs as <- <- <-; simpl moved; rewrite Z.add_0_r; split_and!; try done; try lia.
    destruct (Z.eq_dec k n) as [->|]; [by rewrite Eh, Et in E|lia].
  - destruct HC as (-> & -> & Hlt). unfold kylin_atomic32_cmpset, cmpxchg in Hs.
    rewrite Z.eqb_refl in Hs. injection Hs as <- <- <-. cbn [moved Z.eqb].
    pose proof (next_pos_range r Hok _ Ht) as Hnr.
    cbn [set_tail r_opts r_mask r_head r_tail].
    split_and!; try done; try lia.
    + by apply ring_ok_set_tail.
    + rewrite Et. apply next_pos_mod; done || lia.
    + destruct p; try done. destruct HP as (-> & -> & Hp'). split_and!; try done; lia.
  - unfold slot in Hs. destruct (rd (r_val r) _) as [v| |]; try done.
    cbn [mbind outcome_bind] in Hs. injection Hs as <- <- <-. cbn [moved]. rewrite Z.add_0_r.
    split_and!; try done; lia.
  - injection Hs as <- <- <-. simpl moved. rewrite Z.add_0_r. split_and!; try done; lia.
Qed.

Lemma spsc_inv_reachable r m s :
  ring_ok r -> r_head r = 0 -> r_tail r = 0 -> rtc spsc_step (spsc_init r m) s -> spsc_inv s.
Proof.
  intros Hok Hh Ht Hr.
  refine (rtc_ind_r (R := spsc_step) spsc_inv (spsc_init r m) _ _ s Hr).
  - pose proof (ok_cap r Hok). pose proof (ok_mask r Hok). unfold spsc_inv. simpl.
    rewrite Hh, Ht, Z.mod_0_l by lia. split_and!; try done; lia.
  - intros y z _ Hstep IH. destruct Hstep as [r0 m0 e c n k buf|r0 m0 p c n k p' r' m' E|
      r0 m0 p b n k|r0 m0 p c n k c' r' m' E].
    + unfold spsc_inv in *. cbn in *. split_and!; tauto || lia.
    + exact (spsc_prod_step (mk_spsc r0 m0 p c n k) p' r' m' IH E).
    + unfold spsc_inv in *. cbn in *. split_and!; tauto || lia.
    + exact (spsc_cons_step (mk_spsc r0 m0 p c n k) c' r' m' IH E).
Qed.

(** ** Refinement of uncontended calls to a bounded queue *)

Inductive ring_op : Type := Enqueue (buf : Z) | Dequeue.

(** Pointers in a queue of [n]: the result of a call is an error code or a pointer. *)
Definition queue_op (n : Z) (q : list Z) (op : ring_op) : (kerr_t + Z) * list Z :=
  match op with
  | Enqueue p =>
      if Z.of_nat (length q) =? n then (inl KYLIN_ERROR_NOMEM, q)
      else (inl KYLIN_ERROR_OK, q ++ [p])
  | Dequeue => match q with [] => (inr NULL, []) | p :: q => (inr p, q) end
  end.

Fixpoint queue_ops (n : Z) (q : list Z) (ops : list ring_op) : list (kerr_t + Z) :=
  match ops with
  | [] => []
  | op :: ops => let '(x, q) := queue_op n q op in x :: queue_ops n q ops
  end.

Definition ring_result (pc : ring_pc) : option (kerr_t + Z) :=
  match pc with EDone e => Some (inl e) | DDone (PObj p) => Some (inr p) | _ => None end.

Fixpoint ring_ops (r : kring_t) (m : mem) (ops : list ring_op) : outcome (list (kerr_t + Z)) :=
  match ops with
  | [] => Ok []
  | op :: ops =>
      x ← match op with Enqueue p => kylin_ring_enqueue r p m | Dequeue => kylin_ring_dequeue r m end;
      let '(pc, r, m) := x in
      match ring_result pc with
      | Some res => rs ← ring_ops r m ops; Ok (res :: rs)
      | None => Ub
      end
  end.

(** A type whose slots hold the caller's pointers themselves. *)
Definition holds_pointers (opts : kring_opts_t) : Prop :=
  kobj_code KOBJ_NORMAL <= kobj_code (val_type opts) /\ val_ctor opts = None.

Lemma holds_pointers_ctor opts p m :
  holds_pointers opts -> kmath_val_ctor p (val_type opts) (val_size opts) (val_ctor opts) m = Ok (p, m).
Proof. intros [Ht ->]. by destruct (val_type opts). Qed.

Lemma holds_pointers_get opts (i p : Z) :
  holds_pointers opts -> kmath_val_get i p (val_type opts) = PObj p.
Proof. intros [Ht _]. by destruct (val_type opts). Qed.

Lemma ring_ops_sim ops r m :
  ring_ok r -> holds_pointers (r_opts r) ->
  ring_ops r m ops = Ok (queue_ops (opts_cap (r_opts r) - 1) (ring_contents r) ops).
Proof.
  revert r. induction ops as [|op ops IH]; intros r Hok Hp; [done|]. cbn [ring_ops].
  destruct op as [p|].
  - pose proof (enqueue_spec r m p p m Hok (holds_pointers_ctor _ _ _ Hp)) as H.
    cbn [queue_ops queue_op]. rewrite (length_ring_contents r Hok).
    destruct (ring_count r =? opts_cap (r_opts r) - 1).
    + rewrite H. cbn [mbind outcome_bind ring_result]. by rewrite IH.
    + destruct H as (r' & -> & Hok' & Eo & Ec). cbn [mbind outcome_bind ring_result].
      rewrite IH by (rewrite ?Eo; done). by rewrite Eo, Ec.
  - pose proof (dequeue_spec r m Hok) as H. cbn [queue_ops queue_op].
    destruct (ring_contents r) as [|v q] eqn:Eq.
    + destruct H as [-> _]. cbn [mbind outcome_bind ring_result]. by rewrite IH, Eq.
    + destruct H as (r' & -> & _ & _ & Hok' & Eo & Ec).
      rewrite holds_pointers_get by done. cbn [mbind outcome_bind ring_result].
      rewrite IH by (rewrite ?Eo; done). by rewrite Eo, Ec.
Qed.

Lemma create_ring_ok init opts :
  1 <= opts_cap opts < 2 ^ 31 -> Z.of_nat (length init) = opts_cap opts ->
  exists r, kylin_ring_create true init opts = inr r /\ ring_ok r /\ r_opts r = opts /\
    r_head r = 0 /\ r_tail r = 0 /\ ring_contents r = [].
Proof.
  intros Hc Hi. eexists. split; [done|]. split; [|split; [done|done]].
  split; unfold kylin_atomic32_init; simpl; try done; try lia. apply uw_id. unfold is_u. lia.
Qed.

(** ** Properties *)

(** C5. Uncontended, a ring of capacity [cap] (not only powers of two) is a queue
    of [cap - 1] pointers: every sequence of [enqueue] and [dequeue] calls
    terminates and returns what the queue returns. *)
Theorem ring_refines_queue init opts m ops :
  1 <= opts_cap opts < 2 ^ 31 -> Z.of_nat (length init) = opts_cap opts ->
  holds_pointers opts ->
  exists r, kylin_ring_create true init opts = inr r /\
    ring_ops r m ops = Ok (queue_ops (opts_cap opts - 1) [] ops).
Proof.
  intros Hc Hi Hp. destruct (create_ring_ok init opts Hc Hi) as (r & E & Hok & Eo & _ & _ & Ec).
  exists r. split; [done|]. rewrite <- Eo, <- Ec in *. by apply ring_ops_sim.
Qed.

Lemma ring_refines_queue_witness :
  exists r, kylin_ring_create true [9; 9; 9] (mk_kring_opts 3 KOBJ_OTHERS 8 None None) = inr r /\
    ring_ops r (mk_mem ∅ 16 []) [Enqueue 100; Enqueue 200; Enqueue 300; Dequeue; Dequeue; Dequeue] =
      Ok [inl KYLIN_ERROR_OK; inl KYLIN_ERROR_OK; inl KYLIN_ERROR_NOMEM; inr 100; inr 200; inr NULL].
Proof.
  apply (ring_refines_queue [9; 9; 9] (mk_kring_opts 3 KOBJ_OTHERS 8 None None));
    [simpl; lia|reflexivity|]. split; [simpl; lia|reflexivity].
Defined.

(** C6. One producer and one consumer, however their accesses interleave: the
    positions stay inside the ring, the number of queued slots stays between 0
    and [cap - 1], and [head] and [tail] have gone round the ring exactly as
    often as values were enqueued and dequeued. *)
Theorem ring_spsc_positions r m s :
  ring_ok r -> r_head r = 0 -> r_tail r = 0 -> rtc spsc_step (spsc_init r m) s ->
  let cap := opts_cap (r_opts (s_ring s)) in
  ring_ok (s_ring s) /\ 0 <= enq s - deq s <= cap - 1 /\
  r_head (s_ring s) = enq s mod cap /\ r_tail (s_ring s) = deq s mod cap.
Proof.
  intros Hok Hh Ht Hr. destruct (spsc_inv_reachable r m s Hok Hh Ht Hr)
    as (Hok' & Hk & Hn & Eh & Et & _ & _). cbv zeta.
  rewrite (ok_mask _ Hok') in Hn. split; [done|]. split; [lia|done].
Qed.

Lemma ring_spsc_positions_witness :
  let r := mk_kring (mk_kring_opts 2 KOBJ_OTHERS 8 None None) 1 0 0 [0; 0] in
  let m := mk_mem ∅ 16 [] in
  exists s, rtc spsc_step (spsc_init r m) s /\ enq s = 1 /\
    r_head (s_ring s) = enq s mod opts_cap (r_opts (s_ring s)).
Proof.
  set (r := mk_kring (mk_kring_opts 2 KOBJ_OTHERS 8 None None) 1 0 0 [0; 0]).
  set (m := mk_mem ∅ 16 []).
  assert (Hok : ring_ok r) by (split; simpl; lia).
  assert (Hr : rtc spsc_step (spsc_init r m)
    (mk_spsc (set_head r 1) m (EWrite 77 1) (DDone (PObj NULL)) 1 0)).
  { eapply rtc_l; [apply prod_call|]. eapply rtc_l; [apply prod_access; reflexivity|].
    eapply rtc_l; [apply prod_access; reflexivity|].
    eapply rtc_l; [apply prod_access; reflexivity|]. apply rtc_refl. }
  eexists. split; [exact Hr|]. split; [reflexivity|].
  apply (ring_spsc_positions r m _ Hok eq_refl eq_refl Hr).
Defined.

(** [enqueue] publishes the new [head] before it constructs the value: a
    [dequeue] that runs between the two accesses takes the slot and returns
    what was in it before, for every ring that has room. *)
Theorem ring_dequeue_before_write r m buf :
  ring_ok r -> ring_count r = 0 -> 2 <= opts_cap (r_opts r) ->
  let i := next_pos r (r_head r) in
  exists r1 r2 old,
    (** the producer's first three accesses *)
    ring_step (EHead buf) r m = Ok (ETail buf (r_head r), r, m) /\
    ring_step (ETail buf (r_head r)) r m = Ok (ECas buf (r_head r) i, r, m) /\
    ring_step (ECas buf (r_head r) i) r m = Ok (EWrite buf i, r1, m) /\
    (** the consumer's whole call, with the slot's old value *)
    slot r i = Ok old /\
    kylin_ring_dequeue r1 m = Ok (DDone (kmath_val_get i old (val_type (r_opts r))), r2, m).
Proof.
  intros Hok Hn Hc i. pose proof (full_test r Hok) as Hf. pose proof (empty_test r Hok) as He.
  pose proof (next_pos_range r Hok _ (ok_head r Hok)) as Hi.
  pose proof (ring_ok_set_head r i Hok Hi) as Hok1.
  rewrite Hn in Hf, He. rewrite (proj2 (Z.eqb_neq 0 _)) in Hf by lia. rewrite Z.eqb_refl in He. z_bool.
  destruct (rd_lt (r_val r) (Z.to_nat i)) as (old & Eold & _).
  { pose proof (ok_slots r Hok). subst i. lia. }
  destruct Hok as [Hcap Em Es Hh Ht].
  pose proof (dequeue_spec (set_head r i) m Hok1) as D.
  assert (Hne : i <> r_tail r) by (subst i; lia).
  destruct (ring_contents (set_head r i)) as [|v q] eqn:Eq.
  - exfalso. pose proof (length_ring_contents _ Hok1) as L. rewrite Eq in L.
    pose proof (empty_test _ Hok1) as He'. rewrite <- L in He'. simpl in He'. z_bool. congruence.
  - destruct D as (r2 & D & _ & Hs & _ & Eo & _). exists (set_head r i), r2, old.
    cbn [ring_step]. rewrite !read_id by lia. fold i.
    rewrite (proj2 (Z.eqb_neq i _)) by done. unfold kylin_atomic32_cmpset, cmpxchg.
    rewrite Z.eqb_refl. do 4 (split; [done|]). rewrite D.
    assert (Ep : next_pos (set_head r i) (r_tail (set_head r i)) = i)
      by (rewrite next_pos_set_head; subst i; simpl; congruence).
    rewrite Ep. do 5 f_equal.
    assert (Hv : ring_contents (set_head r i) !! 0%nat = Some v) by (by rewrite Eq).
    unfold ring_contents in Hv. rewrite Ep in Hv. 
    pose proof (ring_count_range _ Hok1). pose proof (length_ring_contents _ Hok1) as L.
    rewrite Eq in L. simpl in L, H.
    rewrite lookup_ring_read in Hv by (simpl; lia).
    rewrite decide_True, Nat.add_0_r in Hv by (simpl; lia). simpl in Hv.
    unfold rd in Eold. rewrite Hv in Eold. by injection Eold.
Qed.

Lemma ring_dequeue_before_write_witness :
  let r := mk_kring (mk_kring_opts 4 KOBJ_OTHERS 8 None None) 3 0 0 [11; 22; 33; 44] in
  exists r1 r2 old,
    ring_step (ECas 77 0 1) r (mk_mem ∅ 16 []) = Ok (EWrite 77 1, r1, mk_mem ∅ 16 []) /\
    kylin_ring_dequeue r1 (mk_mem ∅ 16 []) = Ok (DDone (PObj old), r2, mk_mem ∅ 16 []) /\ old = 22.
Proof.
  destruct (ring_dequeue_before_write
    (mk_kring (mk_kring_opts 4 KOBJ_OTHERS 8 None None) 3 0 0 [11; 22; 33; 44])
    (mk_mem ∅ 16 []) 77) as (r1 & r2 & old & _ & _ & E3 & Eold & Ed);
    [split; simpl; lia|reflexivity|simpl; lia|].
  exists r1, r2, old. split; [exact E3|]. split; [exact Ed|]. by injection Eold as <-.
Defined.
