(* ===== verification/Htable.v ===== *)
(** * The hash table shared by the index and the map

    [lib/core/math/kylin_index.c] and [kylin_map.c] contain the same chained
    hash table twice: two tables, the second one filled step by step while the
    first is emptied (rehashing), nodes found by the hash of their key.  What
    differs is the node (where the key and the link are, what destroying it
    means) and the options.  The class [HashNode] is that difference; the
    operations below are the code of both files over it, and [Index] and [KMap]
    give the instances and the functions with their names.

    A table is an object of [cap] words, the heads of the chains.  The hash
    callback looks at the heap through the pointer it is given: the caller's,
    or the one [kmath_val_get] makes of a node's key.  [min] and [max] of the C
    structure are never read or written and are left out. *)

From S2P Require Import Prelude Errors Bytes Bitops Mem MathVal.

Record ht_t := mk_ht { table : Z; cap : Z; mask : Z; used : Z }.
Definition kmath_ht_reset : ht_t := mk_ht NULL 0 0 0.

(** The header with its options, and the state of the operations. *)
Record hguard (Op : Type) := mk_hguard { g_opts : Op; ht0 : ht_t; ht1 : ht_t; rehashidx : Z }.
Arguments mk_hguard {Op}. Arguments g_opts {Op}. Arguments ht0 {Op}. Arguments ht1 {Op}.
Arguments rehashidx {Op}.

Record st (Op : Type) := mk_st { guard : hguard Op; omem : mem; kerrno : option kerr_t }.
Arguments mk_st {Op}. Arguments guard {Op}. Arguments omem {Op}. Arguments kerrno {Op}.

#[export] Instance st_mem {Op} : HasMem (st Op).
Proof.
  refine {| mem_of := omem; with_mem s m := mk_st (guard s) m (kerrno s) |}; by intros [].
Defined.

Class HashNode (Op : Type) := {
  key_word : nat;
  next_word : nat;
  node_words : nat;
  node_layout : (key_word < node_words)%nat /\ (next_word < node_words)%nat /\ key_word <> next_word;
  key_type : Op -> kobj_t;
  hash : Op -> mem -> vptr Z -> Z;
  compare : Op -> cmp_fn;
  (** the destruction of a node: its values, then the node *)
  free_node : nested_dtors -> Op -> Z -> M mem unit;
}.

Definition force_resize_ratio : Z := 5.

Section Table.
Context {Op : Type} `{HashNode Op}.

Definition get_guard : M (st Op) (hguard Op) := fun s => Ok (guard s, s).
Definition put_guard (g : hguard Op) : M (st Op) unit := fun s => Ok (tt, mk_st g (omem s) (kerrno s)).
Definition set_kerrno (e : kerr_t) : M (st Op) unit := fun s =>
  Ok (tt, mk_st (guard s) (omem s) (Some e)).

(** [ht[0]] is [false], [ht[1]] is [true]. *)
Definition ht_of (w : bool) (g : hguard Op) : ht_t := if w then ht1 g else ht0 g.
Definition with_ht (w : bool) (g : hguard Op) (h : ht_t) : hguard Op :=
  if w then mk_hguard (g_opts g) (ht0 g) h (rehashidx g)
  else mk_hguard (g_opts g) h (ht1 g) (rehashidx g).
Definition get_ht (w : bool) : M (st Op) ht_t := g ← get_guard; mret (ht_of w g).
Definition set_used (w : bool) (f : Z -> Z) : M (st Op) unit :=
  g ← get_guard;
  let h := ht_of w g in put_guard (with_ht w g (mk_ht (table h) (cap h) (mask h) (u64 (f (used h))))).
Definition set_rehashidx (x : Z) : M (st Op) unit :=
  g ← get_guard; put_guard (mk_hguard (g_opts g) (ht0 g) (ht1 g) x).

(** [rehashidx++] on an [int32_t]. *)
Definition next_rehashidx : M (st Op) unit :=
  g ← get_guard;
  if rehashidx g =? 2 ^ 31 - 1 then ub else set_rehashidx (rehashidx g + 1).

Definition is_rehashing (g : hguard Op) : bool := negb (rehashidx g =? -1).

Definition KEY (n : Z) : M (st Op) Z := on_mem (read_word n key_word).
Definition NEXT (n : Z) : M (st Op) Z := on_mem (read_word n next_word).
Definition set_NEXT (n x : Z) : M (st Op) unit := on_mem (write_word n next_word x).

(** [ht->table[idx]] *)
Definition bucket (w : bool) (idx : Z) : M (st Op) Z :=
  h ← get_ht w; if idx <? 0 then ub else on_mem (read_word (table h) (Z.to_nat idx)).
Definition set_bucket (w : bool) (idx x : Z) : M (st Op) unit :=
  h ← get_ht w; if idx <? 0 then ub else on_mem (write_word (table h) (Z.to_nat idx) x).

(** [node->next = table[idx]; table[idx] = node;] *)
Definition link_front (w : bool) (idx node : Z) : M (st Op) unit :=
  b ← bucket w idx; _ ← set_NEXT node b; set_bucket w idx node.

Definition key_hash (p : vptr Z) : M (st Op) Z := fun s => Ok (u64 (hash (g_opts (guard s)) (omem s) p), s).
Definition node_hash (n : Z) : M (st Op) Z :=
  g ← get_guard; v ← KEY n; key_hash (kmath_val_get n v (key_type (g_opts g))).

Definition fuel_of (s : st Op) : nat := S (size (blocks (omem s))).

(** [kmath_val_cmp(&node->key, &cmp->key, ...) == 0] *)
Definition same_key (node cmp : Z) : M (st Op) bool :=
  v1 ← KEY node; v2 ← KEY cmp; s ← get_st;
  let o := g_opts (guard s) in
  mret (kmath_val_cmp (omem s) v1 v2 (key_type o) (compare o) =? 0).
(** [kmath_val_cmp_raw(&cmp->key, key, ...) == 0] *)
Definition has_key (key cmp : Z) : M (st Op) bool :=
  g ← get_guard; v ← KEY cmp;
  r ← on_mem (kmath_val_cmp_raw v key (key_type (g_opts g)) (compare (g_opts g)));
  mret (r =? 0).

(** [while(cmp) { if(eq(cmp)) ...; cmp = cmp->next; }]: the first match. *)
Fixpoint chain_find (fuel : nat) (eq : Z -> M (st Op) bool) (cmp : Z) : M (st Op) Z :=
  match fuel with
  | O => out_of_fuel
  | S fuel =>
      if cmp =? NULL then mret NULL else
      b ← eq cmp; if b : bool then mret cmp else n ← NEXT cmp; chain_find fuel eq n
  end.

(** ** Clearing *)
Section Destructors.
Context (nested : nested_dtors).

Definition destroy_node (n : Z) : M (st Op) unit :=
  g ← get_guard; on_mem (free_node nested (g_opts g) n).

Fixpoint clear_chain (fuel : nat) (w : bool) (node : Z) : M (st Op) unit :=
  match fuel with
  | O => out_of_fuel
  | S fuel =>
      if node =? NULL then mret tt else
      next ← NEXT node; _ ← destroy_node node; _ ← set_used w (fun u => u - 1);
      clear_chain fuel w next
  end.

(** [n] buckets from [i] on. *)
Fixpoint clear_buckets (n : nat) (w : bool) (i : Z) : M (st Op) unit :=
  match n with
  | O => mret tt
  | S n =>
      h ← get_ht w;
      if used h =? 0 then mret tt else
      node ← bucket w i; s ← get_st; _ ← clear_chain (fuel_of s) w node;
      clear_buckets n w (i + 1)
  end.

Definition _ht_clear (w : bool) : M (st Op) unit := h ← get_ht w; clear_buckets (Z.to_nat (cap h)) w 0.

Definition ht_clear_both : M (st Op) unit :=
  h ← get_ht false; _ ← (if negb (table h =? NULL) then _ht_clear false else mret tt);
  h ← get_ht true; _ ← (if negb (table h =? NULL) then _ht_clear true else mret tt);
  set_rehashidx (-1).

Definition ht_drop (w : bool) : M (st Op) unit :=
  h ← get_ht w;
  if negb (table h =? NULL) then
    _ ← _ht_clear w; h ← get_ht w; _ ← on_mem (kylin_free (table h));
    g ← get_guard; put_guard (with_ht w g kmath_ht_reset)
  else mret tt.

Definition ht_destroy : M (st Op) unit := _ ← ht_drop false; ht_drop true.

(** ** Rehashing *)
Definition _ht_need_expand (g : hguard Op) : bool :=
  (cap (ht0 g) =? 0) || (force_resize_ratio <? used (ht0 g) / cap (ht0 g)).

(** [while(table[rehashidx] == NULL) rehashidx++]; past the table the read is
    undefined. *)
Fixpoint skip_empty (fuel : nat) : M (st Op) unit :=
  match fuel with
  | O => out_of_fuel
  | S fuel =>
      g ← get_guard; b ← bucket false (rehashidx g);
      if b =? NULL then _ ← next_rehashidx; skip_empty fuel else mret tt
  end.

(** The nodes of one chain move to [ht[1]], those whose key is there already
    are destroyed. *)
Fixpoint move_chain (fuel : nat) (node : Z) : M (st Op) unit :=
  match fuel with
  | O => out_of_fuel
  | S fuel =>
      if node =? NULL then mret tt else
      next_node ← NEXT node;
      hv ← node_hash node; h ← get_ht true;
      let idx := Z.land hv (mask h) in
      cmp ← bucket true idx; s ← get_st;
      dup ← chain_find (fuel_of s) (same_key node) cmp;
      _ ← (if negb (dup =? NULL) then destroy_node node
           else _ ← link_front true idx node;
                _ ← set_used false (fun u => u - 1); set_used true (fun u => u + 1));
      move_chain fuel next_node
  end.

Fixpoint rehash_steps (step : nat) : M (st Op) unit :=
  match step with
  | O => mret tt
  | S step =>
      h ← get_ht false;
      if used h =? 0 then mret tt else
      _ ← skip_empty (S (Z.to_nat (cap h)));
      g ← get_guard; node ← bucket false (rehashidx g);
      s ← get_st; _ ← move_chain (fuel_of s) node;
      g ← get_guard; _ ← set_bucket false (rehashidx g) NULL;
      _ ← next_rehashidx;
      rehash_steps step
  end.

Definition _ht_rehash (step : nat) : M (st Op) unit :=
  g ← get_guard;
  if negb (is_rehashing g) then mret tt else
  _ ← rehash_steps step;
  g ← get_guard;
  if used (ht0 g) =? 0 then
    _ ← on_mem (kylin_free (table (ht0 g)));
    put_guard (mk_hguard (g_opts g) (ht1 g) kmath_ht_reset (-1))
  else mret tt.

(** [if(IS_REHASHING(guard)) rehash(guard, 1)] *)
Definition maybe_rehash : M (st Op) unit :=
  g ← get_guard; if is_rehashing g then _ht_rehash 1 else mret tt.

(** ** Sizes *)
Definition ht_count : M (st Op) Z := g ← get_guard; mret (u64 (used (ht0 g) + used (ht1 g))).

Definition pow2 (count : Z) : M (st Op) Z := fun s =>
  match kylin_roundup_pow_of_two count with
  | Ok n => Ok (n, s) | Ub => Ub | OutOfFuel => OutOfFuel
  end.

Definition ht_resize (count : Z) : M (st Op) kerr_t :=
  g ← get_guard;
  if is_rehashing g then mret KYLIN_ERROR_BUSY else
  real_count ← pow2 count;
  if real_count =? cap (ht0 g) then mret KYLIN_ERROR_EXIST else
  t ← on_mem (kylin_malloc (u64 (real_count * 8)));
  let new_ht := mk_ht t real_count (u64 (real_count - 1)) 0 in
  _ ← (if table (ht0 g) =? NULL then put_guard (with_ht false g new_ht)
       else put_guard (mk_hguard (g_opts g) (ht0 g) new_ht 0));
  mret KYLIN_ERROR_OK.

(** ** Insertion *)
Definition expand : M (st Op) kerr_t :=
  g ← get_guard;
  if _ht_need_expand g
  then if cap (ht0 g) =? 0 then ht_resize 4 else ht_resize (u64 (used (ht0 g) * 2))
  else mret KYLIN_ERROR_OK.

Definition ht_insert_raw (node : Z) : M (st Op) Z :=
  _ ← expand;
  _ ← maybe_rehash;
  g ← get_guard;
  let w := is_rehashing g in
  if table (ht_of w g) =? NULL then _ ← set_kerrno KYLIN_ERROR_NOENT; mret NULL else
  hv ← node_hash node;
  let idx := Z.land hv (mask (ht_of w g)) in
  cmp ← bucket w idx; s ← get_st;
  dup ← chain_find (fuel_of s) (same_key node) cmp;
  if negb (dup =? NULL) then mret dup else
  _ ← link_front w idx node;
  _ ← set_used w (fun u => u + 1);
  mret node.

(** ** Searching and unlinking

    [for(i = 0; i <= 1 && ht[i].table; i++) { ...; if(!IS_REHASHING) break; }]:
    [body] gives the value to return, or [None] to go on; the functions without
    the [break] pass [false]. *)
Definition both_tables (stop : bool) (body : bool -> M (st Op) (option Z)) : M (st Op) Z :=
  h ← get_ht false;
  if table h =? NULL then mret NULL else
  r ← body false;
  match r with
  | Some n => mret n
  | None =>
      g ← get_guard;
      if stop && negb (is_rehashing g) then mret NULL else
      if table (ht1 g) =? NULL then mret NULL else
      r ← body true; mret (default NULL r)
  end.

Definition found (n : Z) : option Z := if n =? NULL then None else Some n.

Definition find_in (eq : Z -> M (st Op) bool) (hv : Z) (w : bool) : M (st Op) (option Z) :=
  h ← get_ht w; cmp ← bucket w (Z.land hv (mask h)); s ← get_st;
  r ← chain_find (fuel_of s) eq cmp; mret (found r).

Definition ht_find (key : Z) : M (st Op) Z :=
  hv ← key_hash (PObj key); both_tables true (find_in (has_key key) hv).

(** The first match is taken out of its chain. *)
Fixpoint unlink_walk (fuel : nat) (eq : Z -> M (st Op) bool) (w : bool) (idx prev_node cmp : Z) :
    M (st Op) (option Z) :=
  match fuel with
  | O => out_of_fuel
  | S fuel =>
      if cmp =? NULL then mret None else
      b ← eq cmp;
      if b : bool then
        n ← NEXT cmp;
        _ ← (if negb (prev_node =? NULL) then set_NEXT prev_node n else set_bucket w idx n);
        _ ← set_used w (fun u => u - 1);
        mret (Some cmp)
      else n ← NEXT cmp; unlink_walk fuel eq w idx cmp n
  end.

Definition unlink_in (eq : Z -> M (st Op) bool) (hv : Z) (w : bool) : M (st Op) (option Z) :=
  h ← get_ht w;
  let idx := Z.land hv (mask h) in
  cmp ← bucket w idx; s ← get_st; unlink_walk (fuel_of s) eq w idx NULL cmp.

Definition ht_unlink (key : Z) : M (st Op) Z :=
  _ ← maybe_rehash; hv ← key_hash (PObj key); both_tables true (unlink_in (has_key key) hv).

Definition ht_unlink_raw (node : Z) : M (st Op) Z :=
  _ ← maybe_rehash; hv ← node_hash node; both_tables true (unlink_in (same_key node) hv).

(** The search of [replace]. *)
Definition ht_find_for_replace (key : Z) : M (st Op) Z :=
  _ ← maybe_rehash; hv ← key_hash (PObj key); both_tables false (find_in (has_key key) hv).
End Destructors.

(** ** Walking the table *)

(** [for(int i = start; i < cap; i++) if(table[i]) return table[i];] *)
Fixpoint scan_up (fuel : nat) (w : bool) (i : Z) : M (st Op) Z :=
  match fuel with
  | O => out_of_fuel
  | S fuel =>
      h ← get_ht w;
      if i <? cap h then
        b ← bucket w i;
        if negb (b =? NULL) then mret b
        else if i =? 2 ^ 31 - 1 then ub else scan_up fuel w (i + 1)
      else mret NULL
  end.

(** [while(node->next) node = node->next;] *)
Fixpoint chain_last (fuel : nat) (node : Z) : M (st Op) Z :=
  match fuel with
  | O => out_of_fuel
  | S fuel => n ← NEXT node; if n =? NULL then mret node else chain_last fuel n
  end.

(** [for(int i = start; i >= 0; i--) if(table[i]) return the last node there;] *)
Fixpoint scan_down (fuel : nat) (w : bool) (i : Z) : M (st Op) Z :=
  match fuel with
  | O => out_of_fuel
  | S fuel =>
      if i <? 0 then mret NULL else
      b ← bucket w i;
      if negb (b =? NULL) then s ← get_st; chain_last (fuel_of s) b
      else scan_down fuel w (i - 1)
  end.

Definition scan_all_up (w : bool) : M (st Op) Z :=
  h ← get_ht w; scan_up (S (Z.to_nat (cap h))) w 0.
Definition scan_all_down (w : bool) : M (st Op) Z :=
  h ← get_ht w; let i := s32 (cap h - 1) in scan_down (S (Z.to_nat (i + 1))) w i.

Definition ht_first : M (st Op) Z :=
  h ← get_ht false;
  if table h =? NULL then _ ← set_kerrno KYLIN_ERROR_NOENT; mret NULL else scan_all_up false.

Definition ht_last : M (st Op) Z :=
  g ← get_guard;
  let w := is_rehashing g in
  if table (ht_of w g) =? NULL then _ ← set_kerrno KYLIN_ERROR_NOENT; mret NULL else scan_all_down w.

(** [while(++idx < cap && table[idx] == NULL)]: the index where it stops. *)
Fixpoint skip_up (fuel : nat) (w : bool) (idx : Z) : M (st Op) Z :=
  match fuel with
  | O => out_of_fuel
  | S fuel =>
      h ← get_ht w;
      let idx := u64 (idx + 1) in
      if idx <? cap h then
        b ← bucket w idx; if b =? NULL then skip_up fuel w idx else mret idx
      else mret idx
  end.

(** [while(--idx >= 0 && table[idx] == NULL)] *)
Fixpoint skip_down (fuel : nat) (w : bool) (idx : Z) : M (st Op) Z :=
  match fuel with
  | O => out_of_fuel
  | S fuel =>
      let idx := idx - 1 in
      if idx <? 0 then mret idx else
      b ← bucket w idx; if b =? NULL then skip_down fuel w idx else mret idx
  end.

(** The search of [next] in one chain: at an equal node the following bucket,
    or the first one of [ht[1]]; when that is empty the search goes on with
    the index past the table. *)
Fixpoint next_walk (fuel : nat) (node : Z) (w : bool) (idx cmp : Z) : M (st Op) (option Z) :=
  match fuel with
  | O => out_of_fuel
  | S fuel =>
      if cmp =? NULL then mret None else
      b ← same_key node cmp;
      if b : bool then
        h ← get_ht w;
        idx ← skip_up (S (Z.to_nat (cap h))) w idx;
        if idx =? cap h then
          if w then mret (Some NULL) else
          h1 ← get_ht true;
          if table h1 =? NULL then mret (Some NULL) else
          r ← scan_all_up true;
          if negb (r =? NULL) then mret (Some r)
          else n ← NEXT cmp; next_walk fuel node w idx n
        else r ← bucket w idx; mret (Some r)
      else n ← NEXT cmp; next_walk fuel node w idx n
  end.

Definition next_in (node hv : Z) (w : bool) : M (st Op) (option Z) :=
  h ← get_ht w;
  let idx := Z.land hv (mask h) in
  cmp ← bucket w idx; s ← get_st; next_walk (fuel_of s) node w idx cmp.

Definition ht_next (node : Z) : M (st Op) Z :=
  n ← NEXT node;
  if negb (n =? NULL) then mret n else
  hv ← node_hash node; both_tables false (next_in node hv).

Fixpoint prev_walk (fuel : nat) (node : Z) (w : bool) (idx prev_node cmp : Z) :
    M (st Op) (option Z) :=
  match fuel with
  | O => out_of_fuel
  | S fuel =>
      if cmp =? NULL then mret None else
      b ← same_key node cmp;
      if b : bool then
        if negb (prev_node =? NULL) then mret (Some prev_node) else
        idx ← skip_down (S (Z.to_nat idx)) w idx;
        if idx =? -1 then
          if negb w then mret (Some NULL) else
          h0 ← get_ht false;
          if table h0 =? NULL then mret (Some NULL) else
          r ← scan_all_down false;
          if negb (r =? NULL) then mret (Some r)
          else n ← NEXT cmp; prev_walk fuel node w idx cmp n
        else b ← bucket w idx; s ← get_st; r ← chain_last (fuel_of s) b; mret (Some r)
      else n ← NEXT cmp; prev_walk fuel node w idx cmp n
  end.

(** [idx] is a [long]. *)
Definition prev_in (node hv : Z) (w : bool) : M (st Op) (option Z) :=
  h ← get_ht w;
  let idx := s64 (Z.land hv (mask h)) in
  cmp ← bucket w idx; s ← get_st; prev_walk (fuel_of s) node w idx NULL cmp.

Definition ht_prev (node : Z) : M (st Op) Z :=
  hv ← node_hash node; both_tables false (prev_in node hv).
End Table.

(** ** Creation *)
Definition ht_create {Op} (sizeof : Z) (o : Op) (init : ht_t * ht_t) (m : mem) :
    option (hguard Op) * mem * option kerr_t :=
  match alloc_addr sizeof m with
  | (Some _, m) => (Some (mk_hguard o init.1 init.2 (-1)), m, None)
  | (None, m) => (None, m, Some KYLIN_ERROR_NOMEM)
  end.
