(* ===== verification/HtRep.v ===== *)
(** * The hash table against the collection of nodes it holds

    The representation of a table in the heap, on the abstract side a list of
    nodes with pairwise different keys, and for every operation of [Htable] the
    lemma that it does on the heap what it means on the list, whichever phase
    the table is in: fresh, settled, or moving to a larger array.  [Index] and
    [KMap] instantiate it.

    A node is its address with its words; the link among them is not looked at. *)

From S2P Require Import Prelude Errors Bytes Bitops Mem MathVal Htable.

Abbreviation node := (Z * list Z)%type.
Abbreviation addrs c := (c.*1).
Definition first (c : list node) : Z := match c with [] => NULL | x :: _ => x.1 end.
Definition addr_or_null (x : option node) : Z := match x with Some x => x.1 | None => NULL end.

(** Memories that agree on the objects of [D]. *)
Definition agree (D : Z -> Prop) (m m' : mem) : Prop := forall a, D a -> same_at m m' a.

(** The next statement computes. *)
Ltac step := erewrite bind_Ok by reflexivity; cbv beta.

Section Nodes.
Context {Op : Type} `{HashNode Op}.

Definition key_of (x : node) : Z := default 0 (x.2 !! key_word).

Definition node_at (m : mem) (x : node) (nx : Z) : Prop :=
  length x.2 = node_words /\ words_at m x.1 (<[next_word := nx]> x.2).
Fixpoint chain_at (m : mem) (c : list node) : Prop :=
  match c with
  | [] => True
  | x :: c => node_at m x (first c) /\ chain_at m c
  end.

(** ** Nodes and chains *)

Lemma node_next m x nx : node_at m x nx -> (<[next_word := nx]> x.2) !! next_word = Some nx.
Proof using Type. intros [Hl _]. apply list_lookup_insert_eq. rewrite Hl. apply node_layout. Qed.

Lemma node_key m x nx : node_at m x nx -> (<[next_word := nx]> x.2) !! key_word = Some (key_of x).
Proof using Type.
  intros [Hl _]. destruct node_layout as (Hk & _ & Hne).
  rewrite list_lookup_insert_ne by done. unfold key_of.
  destruct (lookup_lt_is_Some_2 x.2 key_word) as [v ->]; [by rewrite Hl|done].
Qed.

Lemma NEXT_ok s x nx : node_at (omem s) x nx -> NEXT x.1 s = Ok (nx, s).
Proof using Type. intros Hx. eapply read_field; [apply Hx|by eapply node_next]. Qed.

Lemma KEY_ok s x nx : node_at (omem s) x nx -> KEY x.1 s = Ok (key_of x, s).
Proof using Type. intros Hx. eapply read_field; [apply Hx|by eapply node_key]. Qed.

Lemma node_at_same m m' x nx : same_at m m' x.1 -> node_at m x nx -> node_at m' x nx.
Proof using Type. intros E [Hl Hw]. split; [done|by eapply words_at_same]. Qed.

(** Assigning the link. *)
Lemma set_NEXT_ok m x nx q : node_at m x nx -> is_u 64 q ->
  exists m', writes (set_NEXT (Op := Op) x.1 q) m m' tt /\ node_at m' x q /\ keeps [x.1] m m'.
Proof using Type.
  intros [Hl Hw] Hq. destruct (set_field (S := st Op) m x.1 (<[next_word := nx]> x.2) next_word q)
    as (m' & E & Hw' & K); [done|rewrite length_insert, Hl; apply node_layout|done|].
  exists m'. rewrite list_insert_insert_eq in Hw'. done.
Qed.

Lemma chain_at_same m m' c : (forall a, a ∈ addrs c -> same_at m m' a) -> chain_at m c -> chain_at m' c.
Proof using Type.
  induction c as [|x c IH]; intros E; simpl; [done|]. intros [Hx Hc]. split.
  - eapply node_at_same; [|done]. apply E. set_solver.
  - apply IH; [|done]. intros a Ha. apply E. set_solver.
Qed.

Lemma chain_at_live m c a : chain_at m c -> a ∈ addrs c -> is_Some (blocks m !! a).
Proof using Type.
  induction c as [|x c IH]; simpl; [set_solver|].
  intros [[_ Hx] Hc] [->|Ha]%elem_of_cons; [by eapply words_at_live|by apply IH].
Qed.

(** The part [c] of a chain that goes on at [n]. *)
Fixpoint seg (m : mem) (c : list node) (n : Z) : Prop :=
  match c with
  | [] => True
  | x :: c => node_at m x (match c with [] => n | y :: _ => y.1 end) /\ seg m c n
  end.

Lemma chain_at_app m c1 c2 : chain_at m (c1 ++ c2) <-> seg m c1 (first c2) /\ chain_at m c2.
Proof using Type.
  induction c1 as [|x c1 IH]; simpl; [tauto|]. rewrite IH. destruct c1; simpl; tauto.
Qed.

Lemma seg_snoc m c y n : seg m (c ++ [y]) n <-> seg m c y.1 /\ node_at m y n.
Proof using Type.
  induction c as [|x c IH]; simpl; [tauto|]. rewrite IH. destruct c; simpl; tauto.
Qed.

Lemma seg_same m m' c n : (forall a, a ∈ addrs c -> same_at m m' a) -> seg m c n -> seg m' c n.
Proof using Type.
  induction c as [|x c IH]; intros E; simpl; [done|]. intros [Hx Hc]. split.
  - eapply node_at_same; [|done]. apply E. set_solver.
  - apply IH; [|done]. intros a Ha. apply E. set_solver.
Qed.

Lemma set_used_eq w f (s : st Op) :
  set_used w f s = Ok (tt, mk_st (with_ht w (guard s)
    (mk_ht (table (ht_of w (guard s))) (cap (ht_of w (guard s))) (mask (ht_of w (guard s)))
      (u64 (f (used (ht_of w (guard s))))))) (omem s) (kerrno s)).
Proof using Type. done. Qed.

(** ** Searching a chain *)

Lemma chain_find_ok s (eq : Z -> M (st Op) bool) (p : node -> bool) fuel c :
  chain_at (omem s) c -> Forall (fun x => x.1 <> NULL) c ->
  (forall x, x ∈ c -> eq x.1 s = Ok (p x, s)) -> (length c < fuel)%nat ->
  chain_find fuel eq (first c) s = Ok (addr_or_null (List.find p c), s).
Proof using Type.
  revert fuel. induction c as [|x c IH]; intros [|fuel] Hc Hn Heq Hf; simpl in Hf; try lia; [done|].
  cbn [chain_find first]. destruct Hc as [Hx Hc]. apply Forall_cons in Hn as [Hx0 Hn].
  rewrite (proj2 (Z.eqb_neq _ _) Hx0). run (Heq x ltac:(set_solver)). cbn [List.find].
  destruct (p x); [done|]. run (NEXT_ok s x _ Hx). apply IH; try done; [|lia].
  intros y Hy. apply Heq. set_solver.
Qed.
End Nodes.

Section Model.
Context {Op : Type} `{HashNode Op}.

(** What the callbacks promise: keys are objects, of the set [D]; the hash and
    the comparison look at nothing else; comparing as equal is an equivalence
    that the hash respects. *)
Record key_model (m0 : mem) (o : Op) (D : Z -> Prop) (hashv : Z -> Z) (eqk : Z -> Z -> bool) :
    Prop := {
  km_type : kobj_code KOBJ_NORMAL <= kobj_code (key_type o);
  km_hash m a : agree D m0 m -> D a -> u64 (hash o m (PObj a)) = hashv a;
  km_cmp m a b : agree D m0 m -> D a -> D b -> (compare o m a b =? 0) = eqk a b;
  km_live a : D a -> is_Some (blocks m0 !! a);
  km_refl a : D a -> eqk a a = true;
  km_sym a b : D a -> D b -> eqk a b = true -> eqk b a = true;
  km_trans a b c : D a -> D b -> D c -> eqk a b = true -> eqk b c = true -> eqk a c = true;
  km_respects a b : D a -> D b -> eqk a b = true -> hashv a = hashv b;
}.

Context (m0 : mem) (o : Op) (D : Z -> Prop) (hashv : Z -> Z) (eqk : Z -> Z -> bool).

Definition bucket_of (h : ht_t) (x : node) : Z := Z.land (hashv (key_of x)) (mask h).

(** One table: the chains [cs], each node in the bucket of its hash. *)
Record shape_ok (m : mem) (h : ht_t) (cs : list (list node)) : Prop := {
  ok_words : words_at m (table h) (map first cs);
  ok_chains : Forall (chain_at m) cs;
  ok_size : exists k, 0 <= k <= 30 /\ cap h = 2 ^ k;
  ok_mask : mask h = cap h - 1;
  ok_len : Z.of_nat (length cs) = cap h;
  ok_placed : forall i c x, cs !! i = Some c -> x ∈ c -> bucket_of h x = Z.of_nat i;
}.
Definition ht_ok (m : mem) (h : ht_t) (cs : list (list node)) : Prop :=
  shape_ok m h cs /\ used h = Z.of_nat (length (concat cs)).

(** The phases of the two tables: the tables in use, the chains of both. *)
Inductive phase (m : mem) (g : hguard Op) : list Z -> list (list node) -> list (list node) -> Prop :=
| fresh : ht0 g = kmath_ht_reset -> table (ht1 g) = NULL -> used (ht1 g) = 0 -> rehashidx g = -1 ->
    phase m g [] [] []
| settled cs : ht_ok m (ht0 g) cs -> table (ht1 g) = NULL -> used (ht1 g) = 0 -> rehashidx g = -1 ->
    phase m g [table (ht0 g)] cs []
| moving r cs0 cs1 : ht_ok m (ht0 g) cs0 -> ht_ok m (ht1 g) cs1 ->
    rehashidx g = Z.of_nat r -> (r <= length cs0)%nat ->
    (forall i c, (i < r)%nat -> cs0 !! i = Some c -> c = []) ->
    phase m g [table (ht0 g); table (ht1 g)] cs0 cs1.

(** The addresses in use: no key object, no two equal. *)
Record owned (l : list Z) : Prop := {
  own_nodup : NoDup l;
  own_addr : Forall (fun a => a <> NULL /\ is_u 64 a /\ ~ D a) l;
}.

(** No two nodes with equal keys. *)
Definition distinct (ns : list node) : Prop :=
  forall x y, x ∈ ns -> y ∈ ns -> eqk (key_of x) (key_of y) = true -> x = y.

Record nodes_ok (ns : list node) : Prop := {
  nodes_keys : Forall (fun x => D (key_of x)) ns;
  nodes_distinct : distinct ns;
  nodes_few : Z.of_nat (length ns) < 2 ^ 28;
}.

(** The table holds exactly the nodes [ns]; the objects at [X] are not part of
    it. *)
Record rep (X : list Z) (s : st Op) (ns : list node) : Prop := {
  rep_opts : g_opts (guard s) = o;
  rep_tables : exists ts cs0 cs1, phase (omem s) (guard s) ts cs0 cs1 /\
    concat cs0 ++ concat cs1 ≡ₚ ns /\ owned (ts ++ addrs (concat cs0 ++ concat cs1)) /\
    (forall a, a ∈ X -> a ∉ ts ++ addrs (concat cs0 ++ concat cs1));
  rep_nodes : nodes_ok ns;
  rep_agree : agree D m0 (omem s);
  rep_mem : mem_ok (omem s);
}.

(** The node with a key equal to [key]. *)
Definition lookup_key (ns : list node) (key : Z) : option node :=
  List.find (fun x => eqk (key_of x) key) ns.

#[local] Set Default Proof Using "All".
Context (KM : key_model m0 o D hashv eqk).

(** ** The callbacks on the nodes of a represented table *)

Lemma uw64_range z : is_u 64 (u64 z).
Proof. by apply uw_range. Qed.

Lemma hashv_range a : D a -> is_u 64 (hashv a).
Proof. intros Ha. rewrite <- (km_hash _ _ _ _ _ KM m0 a) by done. apply uw64_range. Qed.

Lemma val_get_obj {I} (i : I) v : kmath_val_get i v (key_type o) = PObj v.
Proof. pose proof (km_type _ _ _ _ _ KM) as E. by destruct (key_type o). Qed.

Lemma cmp_obj m v1 v2 : kmath_val_cmp m v1 v2 (key_type o) (compare o) = compare o m v1 v2.
Proof. pose proof (km_type _ _ _ _ _ KM) as E. by destruct (key_type o). Qed.

Lemma cmp_raw_obj m v1 v2 :
  kmath_val_cmp_raw v1 v2 (key_type o) (compare o) m = Ok (compare o m v1 v2, m).
Proof. pose proof (km_type _ _ _ _ _ KM) as E. by destruct (key_type o). Qed.

Section State.
Context (s : st Op) (Ho : g_opts (guard s) = o) (Ha : agree D m0 (omem s)).

Lemma key_hash_ok a : D a -> key_hash (PObj a) s = Ok (hashv a, s).
Proof. intros Da. unfold key_hash. by rewrite Ho, (km_hash _ _ _ _ _ KM). Qed.

Lemma node_hash_ok x nx : node_at (omem s) x nx -> D (key_of x) ->
  node_hash x.1 s = Ok (hashv (key_of x), s).
Proof.
  intros Hx Dx. unfold node_hash. step.
  run (KEY_ok s x nx Hx). rewrite Ho, val_get_obj. by apply key_hash_ok.
Qed.

Lemma has_key_ok key x nx : node_at (omem s) x nx -> D (key_of x) -> D key ->
  has_key key x.1 s = Ok (eqk (key_of x) key, s).
Proof.
  intros Hx Dx Dk. unfold has_key. step.
  run (KEY_ok s x nx Hx). rewrite Ho.
  erewrite bind_Ok by (apply on_mem_pure, cmp_raw_obj). by rewrite (km_cmp _ _ _ _ _ KM).
Qed.

Lemma same_key_ok x y nx ny : node_at (omem s) x nx -> node_at (omem s) y ny ->
  D (key_of x) -> D (key_of y) -> same_key x.1 y.1 s = Ok (eqk (key_of x) (key_of y), s).
Proof.
  intros Hx Hy Dx Dy. unfold same_key. run (KEY_ok s x nx Hx). run (KEY_ok s y ny Hy).
  step. by rewrite Ho, cmp_obj, (km_cmp _ _ _ _ _ KM).
Qed.
End State.

(** ** Buckets *)

Lemma table_bucket m h cs hv : shape_ok m h cs -> 0 <= hv ->
  exists i c, Z.land hv (mask h) = Z.of_nat i /\ cs !! i = Some c.
Proof.
  intros [_ _ (k & Hk & Hc) Hm Hl _] Hv. rewrite Hm, Hc.
  replace (2 ^ k - 1) with (Z.ones k) by (rewrite Z.ones_equiv; lia). rewrite Z.land_ones by lia.
  pose proof (Z.mod_pos_bound hv (2 ^ k) ltac:(apply pow2_pos; lia)).
  destruct (lookup_lt_is_Some_2 cs (Z.to_nat (hv mod 2 ^ k))) as [c Ec]; [lia|].
  exists (Z.to_nat (hv mod 2 ^ k)), c. split; [lia|done].
Qed.

Lemma bucket_ok (s : st Op) w cs i c :
  shape_ok (omem s) (ht_of w (guard s)) cs -> cs !! i = Some c ->
  bucket w (Z.of_nat i) s = Ok (first c, s).
Proof.
  intros Hh Hi. unfold bucket. step.
  rewrite (proj2 (Z.ltb_ge _ _)) by lia. rewrite Nat2Z.id.
  eapply read_field; [apply Hh|]. by rewrite list_lookup_fmap, Hi.
Qed.

(** ** Changing one chain *)

Lemma chain_addrs (cs : list (list node)) c a : c ∈ cs -> a ∈ addrs c -> a ∈ addrs (concat cs).
Proof.
  intros Hc Ha. apply list_elem_of_fmap in Ha as (x & -> & Hx). apply list_elem_of_fmap.
  exists x. split; [done|]. apply elem_of_concat. eauto.
Qed.

Lemma chain_nodup (cs : list (list node)) i c :
  cs !! i = Some c -> NoDup (addrs (concat cs)) -> NoDup (addrs c).
Proof.
  intros Hi Hnd. destruct (split_at_index cs i c Hi) as (l1 & l2 & -> & _).
  rewrite concat_app, fmap_app in Hnd. simpl in Hnd. rewrite fmap_app in Hnd.
  apply NoDup_app in Hnd as (_ & _ & Hnd). by apply NoDup_app in Hnd as (Hnd & _ & _).
Qed.

Lemma shape_same m m' h cs :
  (forall a, a = table h \/ a ∈ addrs (concat cs) -> same_at m m' a) ->
  shape_ok m h cs -> shape_ok m' h cs.
Proof.
  intros E [Hw Hc Hs Hm Hl Hp]. split; try done.
  - eapply words_at_same; [|done]. auto.
  - apply Forall_forall. intros c Hin. rewrite Forall_forall in Hc.
    apply (chain_at_same m); [|by apply Hc]. intros a Hx. apply E. right. by eapply chain_addrs.
Qed.


(** The rest of the table when bucket [i] changes from [c] to [c']. *)
Lemma shape_update m m' h cs i c c' :
  shape_ok m h cs -> cs !! i = Some c -> NoDup (addrs (concat cs)) ->
  words_at m' (table h) (<[i := first c']> (map first cs)) -> chain_at m' c' ->
  (forall a, a ∈ addrs (concat cs) -> a ∉ addrs c -> same_at m m' a) ->
  (forall x, x ∈ c' -> bucket_of h x = Z.of_nat i) -> shape_ok m' h (<[i := c']> cs).
Proof.
  intros [Hw Hc Hs Hm Hl Hp] Hi Hnd Hw' Hc' Hsame Hb.
  destruct (split_at_index cs i c Hi) as (l1 & l2 & -> & -> & E). rewrite E.
  rewrite Forall_app, Forall_cons in Hc. destruct Hc as (C1 & _ & C2).
  rewrite concat_app, fmap_app in Hnd. simpl in Hnd. rewrite fmap_app in Hnd.
  apply NoDup_app in Hnd as (_ & N1 & N2). apply NoDup_app in N2 as (_ & N2 & _).
  assert (Hother : forall l c0, l = l1 \/ l = l2 -> c0 ∈ l -> forall a, a ∈ addrs c0 ->
    a ∉ addrs c /\ a ∈ addrs (concat (l1 ++ c :: l2))).
  { intros l c0 Hl0 Hc0 a Hin. assert (a ∈ addrs (concat l)) as Hal.
    { by eapply chain_addrs. }
    rewrite concat_app, fmap_app. simpl. rewrite fmap_app.
    destruct Hl0 as [->| ->]; set_solver. }
  assert (Hkeep : forall l, l = l1 \/ l = l2 -> Forall (chain_at m) l -> Forall (chain_at m') l).
  { intros l Hl0 HF. apply Forall_forall. intros c0 Hc0. rewrite Forall_forall in HF.
    apply (chain_at_same m); [|by apply HF]. intros a Hin.
    destruct (Hother l c0 Hl0 Hc0 a Hin). by apply Hsame. }
  split; try done.
  - by rewrite <- E, list_fmap_insert.
  - apply Forall_app. rewrite Forall_cons. auto.
  - rewrite length_app in *. done.
  - intros j c0 x Hj Hx. destruct (decide (j = length l1)) as [->|Hne].
    + rewrite list_lookup_middle in Hj by done. simplify_eq. auto.
    + rewrite <- E, list_lookup_insert_ne in Hj by done. by apply (Hp j c0).
Qed.

Lemma set_bucket_ok (s : st Op) w ws i x :
  words_at (omem s) (table (ht_of w (guard s))) ws -> (i < length ws)%nat -> is_u 64 x ->
  exists m', set_bucket w (Z.of_nat i) x s = Ok (tt, with_mem s m') /\
    words_at m' (table (ht_of w (guard s))) (<[i := x]> ws) /\
    keeps [table (ht_of w (guard s))] (omem s) m'.
Proof.
  intros Hw Hi Hx. destruct (set_field (S := st Op) _ _ _ i x Hw Hi Hx) as (m' & E & Hw' & K).
  exists m'. split; [|done]. unfold set_bucket. step.
  rewrite (proj2 (Z.ltb_ge _ _)), Nat2Z.id by lia. by apply E.
Qed.

Lemma first_u m h cs i c : shape_ok m h cs -> cs !! i = Some c -> is_u 64 (first c).
Proof.
  intros [[_ Hw] _ _ _ _ _] Hi. eapply Forall_lookup_1; [exact Hw|].
  rewrite list_lookup_fmap, Hi. done.
Qed.

(** ** A node enters a chain at the front *)
Lemma link_front_ok (s : st Op) w cs i c x nx :
  let h := ht_of w (guard s) in
  shape_ok (omem s) h cs -> cs !! i = Some c -> node_at (omem s) x nx -> is_u 64 x.1 ->
  bucket_of h x = Z.of_nat i -> NoDup (table h :: x.1 :: addrs (concat cs)) ->
  exists m', link_front w (Z.of_nat i) x.1 s = Ok (tt, with_mem s m') /\
    shape_ok m' h (<[i := x :: c]> cs) /\ keeps [x.1; table h] (omem s) m'.
Proof.
  intros h Hh Hi Hx Hu Hb Hnd. apply NoDup_cons in Hnd as [Ht [Hxc Hnd]%NoDup_cons].
  unfold link_front. run (bucket_ok s w cs i c Hh Hi).
  destruct (set_NEXT_ok (omem s) x nx (first c) Hx) as (m1 & E1 & Hx1 & K1); [by eapply first_u|].
  erewrite bind_Ok by (by apply E1). cbv beta.
  destruct (set_bucket_ok (with_mem s m1) w (map first cs) i x.1) as (m2 & E2 & Hw2 & K2);
    [|rewrite length_fmap; by eapply lookup_lt_Some|done|].
  { eapply words_keeps; [exact K1|set_solver|apply Hh]. }
  exists m2. split; [rewrite E2; by destruct s|].
  assert (K : keeps [x.1; table h] (omem s) m2) by (eapply keeps_trans_in; [exact K1|exact K2|set_solver]).
  split; [|done]. destruct K as (_ & _ & _ & K).
  assert (Hsame : forall a, a ∈ addrs (concat cs) -> same_at (omem s) m2 a) by (intros a Ha; apply K; set_solver).
  eapply shape_update; [exact Hh|exact Hi|done|exact Hw2| |auto|].
  - split.
    + eapply node_at_same; [|exact Hx1]. apply K2. set_solver.
    + apply (chain_at_same (omem s)); [|eapply Forall_lookup_1; [apply Hh|exact Hi]].
      intros a Ha. apply Hsame. eapply chain_addrs; [by eapply list_elem_of_lookup_2|done].
  - intros y [->|Hy]%elem_of_cons; [done|by eapply ok_placed].
Qed.

(** ** A node leaves its chain *)
Definition last_addr (c : list node) : Z := addr_or_null (last c).

Lemma unlink_here_ok (s : st Op) w cs i c1 x c2 :
  let h := ht_of w (guard s) in
  shape_ok (omem s) h cs -> cs !! i = Some (c1 ++ x :: c2) ->
  NoDup (table h :: addrs (concat cs)) -> Forall (fun y => y.1 <> NULL /\ is_u 64 y.1) (concat cs) ->
  exists m', (if negb (last_addr c1 =? NULL) then set_NEXT (last_addr c1) (first c2)
              else set_bucket w (Z.of_nat i) (first c2)) s = Ok (tt, with_mem s m') /\
    shape_ok m' h (<[i := c1 ++ c2]> cs) /\ keeps (table h :: addrs c1) (omem s) m' /\
    node_at m' x (first c2).
Proof.
  intros h Hh Hi Hnd Haddr. pose proof (list_elem_of_lookup_2 _ _ _ Hi) as Hin.
  assert (Hci : chain_at (omem s) (c1 ++ x :: c2)) by (eapply Forall_lookup_1; [apply Hh|exact Hi]).
  apply chain_at_app in Hci as [H1 [Hx H2]].
  assert (Hu : is_u 64 (first c2)).
  { destruct c2 as [|y c2]; [done|]. rewrite Forall_forall in Haddr. apply Haddr, elem_of_concat.
    exists (c1 ++ x :: y :: c2). set_solver. }
  assert (Hsub : forall a, a ∈ addrs (c1 ++ x :: c2) -> a ∈ addrs (concat cs)) by
    (intros a; by apply chain_addrs).
  assert (Hndc : NoDup (addrs (c1 ++ x :: c2))).
  { apply NoDup_cons in Hnd as [_ Hnd]. by eapply chain_nodup. }
  apply NoDup_cons in Hnd as [Ht Hnd].
  assert (Hplaced : forall y, y ∈ c1 ++ c2 -> bucket_of h y = Z.of_nat i) by
    (intros y Hy; eapply ok_placed; [exact Hh|exact Hi|set_solver]).
  rewrite fmap_app in Hndc, Hsub. simpl in Hndc, Hsub.
  apply NoDup_app in Hndc as (N1 & N12 & [Nx N2]%NoDup_cons).
  destruct c1 as [|y c1] using rev_ind.
  - change (last_addr []) with NULL. rewrite Z.eqb_refl. simpl negb. cbv iota.
    destruct (set_bucket_ok s w (map first cs) i (first c2)) as (m' & E & Hw & K);
      [apply Hh|rewrite length_fmap; by eapply lookup_lt_Some|done|].
    exists m'. split; [done|]. destruct K as (KB & KO & KD & K).
    assert (Hs : forall a, a ∈ addrs (concat cs) -> same_at (omem s) m' a) by
      (intros a Ha; apply K; set_solver).
    split_and!; try done.
    + eapply shape_update; [exact Hh|exact Hi|done|exact Hw| |auto|done].
      apply (chain_at_same (omem s)); [|done]. set_solver.
    + eapply node_at_same; [|exact Hx]. apply Hs. set_solver.
  - clear IHc1. 
    assert (last_addr (c1 ++ [y]) = y.1) as -> by (unfold last_addr; by rewrite last_snoc).
    assert (Hy : y.1 <> NULL) by 
      (rewrite Forall_forall in Haddr; apply Haddr, elem_of_concat; eexists; split; [|exact Hin]; set_solver).
    rewrite (proj2 (Z.eqb_neq _ _) Hy). simpl negb. cbv iota.
    apply seg_snoc in H1 as [H1 Hy1].
    destruct (set_NEXT_ok _ y _ (first c2) Hy1 Hu) as (m' & E & Hy' & KB & KO & KD & K).
    exists m'. split; [by apply E|]. rewrite fmap_app in *. simpl in *.
    apply NoDup_app in N1 as (N1 & N1y & _).
    assert (Hs : forall a, a <> y.1 -> same_at (omem s) m' a) by (intros a Ha; apply K; set_solver).
    split_and!; try done.
    + eapply shape_update; [exact Hh|exact Hi|done| | |intros a _ Ha; apply Hs; set_solver|done].
      * rewrite list_insert_id; [eapply words_at_same; [apply Hs; set_solver|apply Hh]|].
        rewrite list_lookup_fmap, Hi. simpl. f_equal. by destruct c1.
      * rewrite <- app_assoc. apply chain_at_app. simpl. split_and!; [|done|].
        -- apply (seg_same (omem s)); [|done]. intros a Ha. apply Hs. intros ->. set_solver.
        -- apply (chain_at_same (omem s)); [|done]. intros a Ha. apply Hs. intros ->. set_solver.
    + eapply keeps_weaken; [|exact (conj KB (conj KO (conj KD K)))]. set_solver.
    + eapply node_at_same; [|exact Hx]. apply Hs. intros E1. set_solver.
Qed.

(** The walk along a chain, [c1] behind it and [c2] ahead: the first match of
    [p] leaves the table. *)
Lemma unlink_walk_ok (s : st Op) w eq p cs i c2 c1 fuel :
  let h := ht_of w (guard s) in
  shape_ok (omem s) h cs -> cs !! i = Some (c1 ++ c2) -> NoDup (table h :: addrs (concat cs)) ->
  Forall (fun y => y.1 <> NULL /\ is_u 64 y.1) (concat cs) ->
  (forall x, x ∈ c2 -> eq x.1 s = Ok (p x, s)) -> (length c2 < fuel)%nat ->
  match List.find p c2 with
  | None => unlink_walk fuel eq w (Z.of_nat i) (last_addr c1) (first c2) s = Ok (None, s)
  | Some x => exists d1 d2 m', c2 = d1 ++ x :: d2 /\
      unlink_walk fuel eq w (Z.of_nat i) (last_addr c1) (first c2) s =
        Ok (Some x.1, mk_st (with_ht w (guard s)
              (mk_ht (table h) (cap h) (mask h) (u64 (used h - 1)))) m' (kerrno s)) /\
      shape_ok m' h (<[i := c1 ++ d1 ++ d2]> cs) /\
      keeps (table h :: addrs (c1 ++ d1)) (omem s) m' /\ node_at m' x (first d2)
  end.
Proof.
  intros h Hh. revert c1 fuel.
  induction c2 as [|x c2 IH]; intros c1 [|fuel] Hi Hnd Haddr Heq Hf; simpl in Hf; try lia; [done|].
  cbn [List.find unlink_walk first]. pose proof (list_elem_of_lookup_2 _ _ _ Hi) as Hin.
  assert (Hx : node_at (omem s) x (first c2)).
  { assert (Hci : chain_at (omem s) (c1 ++ x :: c2)) by (eapply Forall_lookup_1; [apply Hh|exact Hi]).
    by apply chain_at_app in Hci as [_ [Hx _]]. }
  assert (Hx0 : x.1 <> NULL).
  { rewrite Forall_forall in Haddr. apply Haddr, elem_of_concat. eexists. split; [|exact Hin]. set_solver. }
  rewrite (proj2 (Z.eqb_neq _ _) Hx0). run (Heq x ltac:(set_solver)).
  destruct (p x); run (NEXT_ok s x _ Hx).
  - destruct (unlink_here_ok s w cs i c1 x c2 Hh Hi Hnd Haddr) as (m' & E & Hs & K & Hx').
    exists [], c2, m'. rewrite app_nil_r. split_and!; try done. run E.
    run (set_used_eq w (fun u => u - 1) (with_mem s m')). done.
  - specialize (IH (c1 ++ [x]) fuel). rewrite <- app_assoc in IH. simpl in IH.
    assert (last_addr (c1 ++ [x]) = x.1) as El by (unfold last_addr; by rewrite last_snoc).
    rewrite El in IH.
    specialize (IH Hi Hnd Haddr (fun y Hy => Heq y ltac:(set_solver)) ltac:(lia)).
    destruct (List.find p c2) as [y|]; [|done].
    destruct IH as (d1 & d2 & m' & -> & E & Hs & K & Hy). exists (x :: d1), d2, m'.
    rewrite <- !app_assoc in *. done.
Qed.

(** ** Collections of nodes *)

Lemma nodes_ok_perm ns ns' : ns ≡ₚ ns' -> nodes_ok ns -> nodes_ok ns'.
Proof.
  intros P [Hk Hd Hf]. split; [by rewrite <- P| |by rewrite <- P].
  intros x y. rewrite <- P. apply Hd.
Qed.

Lemma owned_perm l l' : l ≡ₚ l' -> owned l -> owned l'.
Proof. intros P [Hn Ha]. split; by rewrite <- P. Qed.

Lemma nodes_ok_app_r c ns : nodes_ok (c ++ ns) -> nodes_ok ns.
Proof.
  intros [Hk Hd Hf]. apply Forall_app in Hk as [_ Hk]. rewrite length_app in Hf. split; [done| |lia].
  intros x y Hx Hy. apply Hd; apply elem_of_app; auto.
Qed.

Lemma owned_app_r l1 l2 : owned (l1 ++ l2) -> owned l2.
Proof. intros [Hn Ha]. apply NoDup_app in Hn as (_ & _ & Hn). by apply Forall_app in Ha as [_ Ha]. Qed.

Lemma owned_nodup_cons a l : owned (a :: l) -> a ∉ l /\ owned l.
Proof. intros [Hn Ha]. apply NoDup_cons in Hn as [? Hn]. by apply Forall_cons in Ha as [_ Ha]. Qed.

Lemma owned_in l a : owned l -> a ∈ l -> a <> NULL /\ is_u 64 a /\ ~ D a.
Proof. intros [_ Ha]. rewrite Forall_forall in Ha. apply Ha. Qed.

Lemma agree_keeps X m m' : keeps X m m' -> (forall a, a ∈ X -> ~ D a) -> agree D m0 m -> agree D m0 m'.
Proof.
  intros (_ & _ & _ & K) HX Ha a Da. unfold same_at. rewrite K; [by apply Ha|]. intros Hin.
  by apply (HX a).
Qed.

Lemma no_match ns x : nodes_ok (x :: ns) -> x.1 ∉ addrs ns ->
  List.find (fun y => eqk (key_of x) (key_of y)) ns = None.
Proof.
  intros [_ Hd _] Hn. destruct (List.find _ ns) as [y|] eqn:E; [|done].
  apply List.find_some in E as [Hy E]. apply list_elem_of_In in Hy.
  rewrite (Hd x y) in Hn by (done || by apply elem_of_cons; auto).
  destruct Hn. apply list_elem_of_fmap. eauto.
Qed.

Lemma find_none_incl {A} (p : A -> bool) l l' :
  (forall x, x ∈ l' -> x ∈ l) -> List.find p l = None -> List.find p l' = None.
Proof.
  intros Hl E. destruct (List.find p l') as [x|] eqn:E'; [|done].
  apply List.find_some in E' as [Hx Hp]. rewrite <- list_elem_of_In in Hx.
  apply Hl, list_elem_of_In in Hx. by rewrite (List.find_none _ _ E x Hx) in Hp.
Qed.

(** The chain of a node in a table. *)
Lemma chain_in m h cs i c : shape_ok m h cs -> cs !! i = Some c -> chain_at m c.
Proof. intros Hh Hi. eapply Forall_lookup_1; [apply Hh|exact Hi]. Qed.

Lemma chain_fits m h cs i c : shape_ok m h cs -> cs !! i = Some c -> NoDup (addrs (concat cs)) ->
  (length c <= size (blocks m))%nat.
Proof.
  intros Hh Hi Hnd.
  enough (length (addrs c) <= size (blocks m))%nat as Hl by (by rewrite length_fmap in Hl).
  apply live_le_size; [|by eapply chain_nodup]. intros a. apply chain_at_live. by eapply chain_in.
Qed.

(** The search of a chain of a table. *)
Lemma search_ok (s : st Op) h cs i c eq p :
  shape_ok (omem s) h cs -> cs !! i = Some c -> owned (addrs (concat cs)) ->
  (forall x, x ∈ c -> (exists nx, node_at (omem s) x nx) -> eq x.1 s = Ok (p x, s)) ->
  chain_find (fuel_of s) eq (first c) s = Ok (addr_or_null (List.find p c), s).
Proof.
  intros Hh Hi Hown Heq. pose proof (chain_in _ _ _ _ _ Hh Hi) as Hc.
  apply chain_find_ok; [done| | |].
  - apply Forall_forall. intros x Hx. apply (owned_in _ x.1 Hown).
    eapply chain_addrs; [by eapply list_elem_of_lookup_2|]. apply list_elem_of_fmap. eauto.
  - intros x Hx. apply Heq; [done|]. destruct (list_elem_of_split c x Hx) as (c1 & c2 & ->).
    apply chain_at_app in Hc as [_ [Hx' _]]. eauto.
  - unfold fuel_of. pose proof (chain_fits _ _ _ _ _ Hh Hi (own_nodup _ Hown)). lia.
Qed.

(** No node with the key of [x] in a table that holds none. *)
Lemma search_new (s : st Op) h cs i c x nx :
  g_opts (guard s) = o -> agree D m0 (omem s) -> node_at (omem s) x nx ->
  shape_ok (omem s) h cs -> cs !! i = Some c -> nodes_ok (x :: concat cs) ->
  owned (x.1 :: addrs (concat cs)) ->
  chain_find (fuel_of s) (same_key x.1) (first c) s = Ok (NULL, s).
Proof.
  intros Ho Ha Hx Hh Hi Hns [Hxn Hown]%owned_nodup_cons.
  pose proof (nodes_keys _ Hns) as [Dx Dk]%Forall_cons. rewrite Forall_forall in Dk.
  assert (Hsub : forall y, y ∈ c -> y ∈ concat cs).
  { intros y Hy. apply elem_of_concat. exists c. split; [done|]. by eapply list_elem_of_lookup_2. }
  erewrite (search_ok s h cs i c _ (fun y => eqk (key_of x) (key_of y))); try done.
  - by rewrite (find_none_incl _ _ _ Hsub (no_match _ _ Hns Hxn)).
  - intros y Hy [ny Hny]. eapply same_key_ok; eauto.
Qed.

Lemma shape_used m h cs u : shape_ok m (mk_ht (table h) (cap h) (mask h) u) cs <-> shape_ok m h cs.
Proof. split; intros [? ? ? ? ? ?]; by split. Qed.

(** ** Rehashing *)
Context (nested : nested_dtors).

Lemma move_chain_ok c : forall fuel cs1 m h0 h1 r e,
  chain_at m c -> shape_ok m h1 cs1 -> nodes_ok (c ++ concat cs1) ->
  owned (table h1 :: addrs (c ++ concat cs1)) -> agree D m0 m ->
  Z.of_nat (length c) <= used h0 < 2 ^ 62 -> used h1 = Z.of_nat (length (concat cs1)) ->
  (length c < fuel)%nat ->
  exists cs1' m', move_chain nested fuel (first c) (mk_st (mk_hguard o h0 h1 r) m e) =
      Ok (tt, mk_st (mk_hguard o
        (mk_ht (table h0) (cap h0) (mask h0) (used h0 - Z.of_nat (length c)))
        (mk_ht (table h1) (cap h1) (mask h1) (used h1 + Z.of_nat (length c))) r) m' e) /\
    shape_ok m' h1 cs1' /\ concat cs1' ≡ₚ c ++ concat cs1 /\ keeps (table h1 :: addrs c) m m'.
Proof.
  induction c as [|x c IH]; intros [|fuel] cs1 m h0 h1 r e Hc Hh Hns Hown Ha Hu0 Hu1 Hf;
    simpl in Hf; try lia.
  { exists cs1, m. split_and!; try done. simpl. destruct h0, h1. simpl. by rewrite Z.sub_0_r, Z.add_0_r. }
  cbn [move_chain first]. destruct Hc as [Hx Hc].
  set (s := mk_st (mk_hguard o h0 h1 r) m e).
  assert (Hown1 : owned (table h1 :: x.1 :: addrs (concat cs1))).
  { eapply (owned_app_r (addrs c)), owned_perm; [|exact Hown]. simpl. rewrite fmap_app.
    solve_Permutation. }
  destruct (owned_in _ x.1 Hown1) as (Hx0 & Hxu & HxD); [set_solver|].
  assert (Dx : D (key_of x)) by (apply nodes_keys in Hns; by apply Forall_cons in Hns as [Dx _]).
  rewrite (proj2 (Z.eqb_neq _ _) Hx0). run (NEXT_ok s x _ Hx).
  run (node_hash_ok s eq_refl Ha x _ Hx Dx). step.
  destruct (table_bucket m h1 cs1 (hashv (key_of x)) Hh) as (i & c0 & Ei & Hi); [by apply hashv_range|].
  change (ht_of true _) with h1. rewrite Ei.
  run (bucket_ok s true cs1 i c0 Hh Hi). step.
  assert (Hns1 : nodes_ok (x :: concat cs1)).
  { eapply (nodes_ok_app_r c), nodes_ok_perm; [|exact Hns]. simpl. solve_Permutation. }
  erewrite bind_Ok by (eapply search_new; [done|done|exact Hx|exact Hh|exact Hi|done|by eapply owned_nodup_cons]).
  simpl negb. cbv beta iota.
  destruct (link_front_ok s true cs1 i c0 x (first c) Hh Hi Hx Hxu Ei (own_nodup _ Hown1))
    as (m1 & E & Hh1 & K1).
  erewrite bind_Ok; [|run E; run (set_used_eq false (fun u => u - 1) (with_mem s m1)); apply set_used_eq].
  cbn. destruct (concat_insert cs1 i c0 Hi) as (rest & P1 & P2). specialize (P2 (x :: c0)).
  assert (P : concat (<[i := x :: c0]> cs1) ≡ₚ x :: concat cs1) by (rewrite P1, P2; done).
  assert (Pc : x :: c ++ concat cs1 ≡ₚ c ++ concat (<[i := x :: c0]> cs1)) by
    (rewrite P; apply Permutation_middle).
  pose proof (own_nodup _ Hown) as Hnd. simpl in Hnd, Hu0.
  assert (Hcs : length (concat (<[i := x :: c0]> cs1)) = S (length (concat cs1))) by (by rewrite P).
  pose proof (nodes_few _ Hns) as Hfew. simpl in Hfew. rewrite length_app in Hfew.
  rewrite !uw_id by (unfold is_u; lia).
  destruct (IH fuel (<[i := x :: c0]> cs1) m1 (mk_ht (table h0) (cap h0) (mask h0) (used h0 - 1))
    (mk_ht (table h1) (cap h1) (mask h1) (used h1 + 1)) r e) as (cs1' & m' & E2 & Hh' & P' & K').
  - apply (chain_at_same m); [|done]. intros a Hin. apply K1. rewrite fmap_app in Hnd.
    apply NoDup_cons in Hnd as [N1 [N2 _]%NoDup_cons]. simpl. clear - Hin N1 N2. set_solver.
  - by apply shape_used.
  - by eapply nodes_ok_perm.
  - eapply owned_perm; [|exact Hown]. simpl. by rewrite (fmap_Permutation fst _ _ Pc).
  - eapply agree_keeps; [exact K1| |done]. intros a Hin. apply (owned_in _ a Hown1). set_solver.
  - simpl. lia.
  - simpl. lia.
  - lia.
  - exists cs1', m'. split_and!.
    + rewrite E2. cbn [table cap mask used].
      replace (used h0 - 1 - Z.of_nat (length c)) with (used h0 - Z.of_nat (length (x :: c))) by (simpl; lia).
      by replace (used h1 + 1 + Z.of_nat (length c)) with (used h1 + Z.of_nat (length (x :: c))) by (simpl; lia).
    + exact (proj1 (shape_used _ _ _ _) Hh').
    + etransitivity; [exact P'|]. symmetry. exact Pc.
    + eapply keeps_trans_in; [exact K1|exact K'|]. simpl. set_solver.
Qed.

(** The first bucket with a node. *)
Lemma first_nonempty (cs : list (list node)) : concat cs <> [] ->
  exists i c, cs !! i = Some c /\ c <> [] /\
    forall j c', (j < i)%nat -> cs !! j = Some c' -> c' = [].
Proof.
  induction cs as [|c cs IH]; [done|]. intros Hne. destruct c as [|x c].
  - destruct (IH Hne) as (i & c & Hi & Hc & Hb). exists (S i), c. split_and!; try done.
    intros [|j] c' Hj; simpl; [by intros [= <-]|]. apply Hb. lia.
  - exists 0%nat, (x :: c). split_and!; try done. lia.
Qed.

Lemma table_len m h cs : shape_ok m h cs -> Z.of_nat (length cs) <= 2 ^ 30.
Proof.
  intros [_ _ (k & Hk & Hc) _ Hl _]. rewrite Hl, Hc. apply Z.pow_le_mono_r; lia.
Qed.

Lemma next_rehashidx_ok r m h0 h1 e : (r < 2 ^ 31 - 1)%Z ->
  next_rehashidx (mk_st (mk_hguard o h0 h1 r) m e) = Ok (tt, mk_st (mk_hguard o h0 h1 (r + 1)) m e).
Proof. intros Hr. unfold next_rehashidx. step. simpl. by destruct (Z.eqb_spec r (2 ^ 31 - 1)); [lia|]. Qed.

Lemma skip_empty_ok d : forall fuel r m h0 h1 e cs0 x c,
  shape_ok m h0 cs0 -> x.1 <> NULL ->
  (forall j, (r <= j < r + d)%nat -> cs0 !! j = Some []) -> cs0 !! (r + d)%nat = Some (x :: c) ->
  (d < fuel)%nat ->
  skip_empty fuel (mk_st (mk_hguard o h0 h1 (Z.of_nat r)) m e) =
    Ok (tt, mk_st (mk_hguard o h0 h1 (Z.of_nat (r + d))) m e).
Proof.
  induction d as [|d IH]; intros [|fuel] r m h0 h1 e cs0 x c Hh Hx Hb Hi Hf; try lia;
    cbn [skip_empty]; set (s := mk_st (mk_hguard o h0 h1 (Z.of_nat r)) m e); step;
    change (rehashidx (guard s)) with (Z.of_nat r).
  - rewrite Nat.add_0_r in *. run (bucket_ok s false cs0 r _ Hh Hi). change (first (x :: c)) with x.1.
    by rewrite (proj2 (Z.eqb_neq _ _) Hx).
  - run (bucket_ok s false cs0 r [] Hh (Hb r ltac:(lia))). change (first []) with NULL. rewrite Z.eqb_refl.
    pose proof (table_len _ _ _ Hh). pose proof (lookup_lt_Some _ _ _ Hi).
    run (next_rehashidx_ok (Z.of_nat r) m h0 h1 e ltac:(lia)).
    replace (Z.of_nat r + 1) with (Z.of_nat (S r)) by lia.
    rewrite Nat.add_succ_r. change (S (r + d)) with (S r + d)%nat.
    eapply IH; [exact Hh|exact Hx| | |lia].
    + intros j Hj. apply Hb. lia.
    + rewrite <- Hi. f_equal. lia.
Qed.

(** What the operations leave alone besides the table. *)
Definition frame (X : list Z) (s s' : st Op) : Prop :=
  brk (omem s') = brk (omem s) /\ oom (omem s') = oom (omem s) /\ kerrno s' = kerrno s /\
  forall a, a ∈ X -> same_at (omem s) (omem s') a.

Record rep_moving (X : list Z) (m : mem) (h0 h1 : ht_t) (r : nat) (cs0 cs1 : list (list node)) (ns : list node) :
    Prop := {
  mv_h0 : ht_ok m h0 cs0;
  mv_h1 : ht_ok m h1 cs1;
  mv_r : (r <= length cs0)%nat;
  mv_empty : forall i c, (i < r)%nat -> cs0 !! i = Some c -> c = [];
  mv_perm : concat cs0 ++ concat cs1 ≡ₚ ns;
  mv_own : owned (table h0 :: table h1 :: addrs (concat cs0 ++ concat cs1));
  mv_nodes : nodes_ok ns;
  mv_agree : agree D m0 m;
  mv_mem : mem_ok m;
  mv_spare : forall a, a ∈ X -> a ∉ table h0 :: table h1 :: addrs (concat cs0 ++ concat cs1);
}.

Lemma rep_is_moving X s ns : rep X s ns -> is_rehashing (guard s) = true ->
  exists m h0 h1 r e cs0 cs1, s = mk_st (mk_hguard o h0 h1 (Z.of_nat r)) m e /\
    rep_moving X m h0 h1 r cs0 cs1 ns.
Proof.
  intros [Ho (ts & cs0 & cs1 & Hp & HP & Hown & HX) Hns Ha Hm] Hr. unfold is_rehashing in Hr.
  destruct Hp as [_ _ _ E|cs _ _ _ E|r cs0 cs1 H0 H1 E Hle He]; [by rewrite E in Hr|by rewrite E in Hr|].
  destruct s as [[o' h0 h1 r'] m e]. simpl in *. subst.
  exists m, h0, h1, r, e, cs0, cs1. done.
Qed.

Lemma moving_rep X m h0 h1 r e cs0 cs1 ns : rep_moving X m h0 h1 r cs0 cs1 ns ->
  rep X (mk_st (mk_hguard o h0 h1 (Z.of_nat r)) m e) ns.
Proof.
  intros []. split; simpl; try done. exists [table h0; table h1], cs0, cs1. split; [|done].
  by apply (moving m (mk_hguard o h0 h1 (Z.of_nat r)) r).
Qed.

(** One table of two changes nothing of the other. *)
Lemma shape_other m m' h cs X : keeps X m m' -> shape_ok m h cs ->
  (forall a, a = table h \/ a ∈ addrs (concat cs) -> a ∉ X) -> shape_ok m' h cs.
Proof. intros (_ & _ & _ & K) Hh HX. eapply shape_same; [|exact Hh]. intros a Ha. by apply K, HX. Qed.

Lemma bind_step {S A B} (f : M S A) (k : A -> M S B) s a s' r :
  f s = Ok (a, s') -> k a s' = r -> (f ≫= k) s = r.
Proof. intros E <-. by apply bind_Ok. Qed.

(** The state after a bucket has been emptied into the second table. *)
Lemma bucket_moved X m m1 m2 h0 h1 r cs0 cs1 cs1' ns i c :
  rep_moving X m h0 h1 r cs0 cs1 ns -> cs0 !! i = Some c ->
  (forall j c', (j < i)%nat -> cs0 !! j = Some c' -> c' = []) ->
  shape_ok m1 h1 cs1' -> concat cs1' ≡ₚ c ++ concat cs1 -> keeps (table h1 :: addrs c) m m1 ->
  words_at m2 (table h0) (<[i := NULL]> (map first cs0)) -> keeps [table h0] m1 m2 ->
  rep_moving X m2 (mk_ht (table h0) (cap h0) (mask h0) (used h0 - Z.of_nat (length c)))
    (mk_ht (table h1) (cap h1) (mask h1) (used h1 + Z.of_nat (length c))) (S i)
    (<[i := []]> cs0) cs1' ns.
Proof.
  intros [[H0 U0] [H1 U1] Hr He HP Hown Hns Ha Hm HX] Hi Hb H1' P1' K1 Hw2 K2.
  pose proof (lookup_lt_Some _ _ _ Hi) as Hlt.
  destruct (concat_insert cs0 i _ Hi) as (rest & P1 & P2). specialize (P2 []). simpl in P2.
  assert (P : concat (<[i := []]> cs0) ++ concat cs1' ≡ₚ concat cs0 ++ concat cs1) by
    (rewrite P1, P2, P1'; solve_Permutation).
  pose proof (own_nodup _ Hown) as Hnd. rewrite fmap_app in Hnd.
  apply NoDup_cons in Hnd as [Nt0 [Nt1 Hnd]%NoDup_cons]. apply NoDup_app in Hnd as (Hnd0 & Hnd01 & Hnd1).
  assert (K : keeps (table h0 :: table h1 :: addrs c) m m2) by
    (eapply keeps_trans_in; [exact K1|exact K2|set_solver]).
  assert (Hc : forall a, a ∈ addrs c -> a ∈ addrs (concat cs0)) by
    (intros a; apply chain_addrs; by eapply list_elem_of_lookup_2).
  split; simpl.
  - split; simpl; [apply shape_used; eapply shape_update; [exact H0|exact Hi|done|exact Hw2|done| |]|].
    + intros a Ha1 Ha2. apply K. clear - Nt0 Nt1 Ha1 Ha2. set_solver.
    + intros y Hy. by apply elem_of_nil in Hy.
    + rewrite U0, P1, P2, length_app. lia.
  - split; simpl; [apply shape_used; eapply shape_other; [exact K2|exact H1'|]|].
    + intros a Ha1 Ha2. rewrite P1', fmap_app in Ha1.
      clear - Nt0 Ha1 Ha2 Hc. set_solver.
    + rewrite U1, P1', length_app. lia.
  - rewrite length_insert. lia.
  - intros j c' Hj. destruct (decide (j = i)) as [->|Hne].
    + rewrite list_lookup_insert_eq by done. by intros [= <-].
    + rewrite list_lookup_insert_ne by done. apply Hb. lia.
  - by rewrite P.
  - eapply owned_perm; [|exact Hown]. do 2 constructor. by apply fmap_Permutation.
  - done.
  - eapply agree_keeps; [exact K| |done]. intros a Hin. apply (owned_in _ a Hown).
    rewrite fmap_app. clear - Hin Hc. set_solver.
  - by eapply mem_ok_keeps.
  - intros a Hin. rewrite (fmap_Permutation fst _ _ P). by apply HX.
Qed.

(** One step of the migration moves the first occupied bucket. *)
Lemma rehash_step_ok X m h0 h1 r e cs0 cs1 ns : rep_moving X m h0 h1 r cs0 cs1 ns -> used h0 <> 0 ->
  exists m' h0' h1' r' cs0' cs1',
    rehash_steps nested 1 (mk_st (mk_hguard o h0 h1 (Z.of_nat r)) m e) =
      Ok (tt, mk_st (mk_hguard o h0' h1' (Z.of_nat r')) m' e) /\
    rep_moving X m' h0' h1' r' cs0' cs1' ns /\ keeps (table h0 :: table h1 :: addrs (concat cs0)) m m'.
Proof.
  intros HR Hu. pose proof HR as [[H0 U0] [H1 U1] Hr He HP Hown Hns Ha Hm HX].
  destruct (first_nonempty cs0) as (i & c & Hi & Hc & Hb).
  { intros E. apply Hu. by rewrite U0, E. }
  assert (Hri : (r <= i)%nat) by
    (destruct (decide (r <= i)%nat); [done|]; destruct Hc; apply (He i); done || lia).
  destruct c as [|x c]; [done|].
  destruct (concat_insert cs0 i _ Hi) as (rest & P1 & P2). specialize (P2 []). simpl in P2.
  assert (Hch : chain_at m (x :: c)) by (exact (chain_in _ _ _ _ _ H0 Hi)).
  assert (Hall : nodes_ok ((x :: c) ++ rest ++ concat cs1)).
  { eapply nodes_ok_perm; [|exact Hns]. rewrite <- HP, P1. simpl. by rewrite <- app_assoc. }
  assert (Hoall : owned (table h0 :: table h1 :: addrs ((x :: c) ++ rest ++ concat cs1))).
  { eapply owned_perm; [|exact Hown]. do 2 constructor. apply fmap_Permutation.
    rewrite P1. simpl. by rewrite <- app_assoc. }
  pose proof (own_nodup _ Hown) as Hnd. apply NoDup_cons in Hnd as [Nt0 [Nt1 Hnd]%NoDup_cons].
  rewrite fmap_app in Nt0, Nt1, Hnd. apply NoDup_app in Hnd as (Hnd0 & Hnd01 & Hnd1).
  set (s0 := mk_st (mk_hguard o h0 h1 (Z.of_nat r)) m e).
  assert (Esk : skip_empty (S (Z.to_nat (cap h0))) s0 =
    Ok (tt, mk_st (mk_hguard o h0 h1 (Z.of_nat i)) m e)).
  { pose proof (skip_empty_ok (i - r) (S (Z.to_nat (cap h0))) r m h0 h1 e cs0 x c H0) as E.
    replace (r + (i - r))%nat with i in E by lia. apply E; [| |done|].
    - apply (owned_in _ x.1 Hoall). set_solver.
    - intros j Hj. destruct (lookup_lt_is_Some_2 cs0 j) as [c' Ec'].
      + pose proof (lookup_lt_Some _ _ _ Hi). lia.
      + rewrite Ec'. f_equal. apply (Hb j); [lia|done].
    - pose proof (lookup_lt_Some _ _ _ Hi). pose proof (ok_len _ _ _ H0). lia. }
  cbn [rehash_steps]. step. change (ht_of false (guard s0)) with h0.
  rewrite (proj2 (Z.eqb_neq _ _) Hu). run Esk. clear Esk s0.
  set (s1 := mk_st (mk_hguard o h0 h1 (Z.of_nat i)) m e). step.
  change (rehashidx (guard s1)) with (Z.of_nat i). run (bucket_ok s1 false cs0 i _ H0 Hi). step.
  destruct (move_chain_ok (x :: c) (fuel_of s1) cs1 m h0 h1 (Z.of_nat i) e) as
    (cs1' & m1 & E1 & H1' & P1' & K1); try done.
  - eapply (nodes_ok_app_r rest), nodes_ok_perm; [|exact Hall]. apply Permutation_app_swap_app.
  - eapply (owned_app_r (table h0 :: addrs rest)), owned_perm; [|exact Hoall].
    simpl. rewrite !fmap_app. solve_Permutation.
  - pose proof (nodes_few _ Hall) as Hf. rewrite !length_app in Hf. rewrite U0, P1, length_app. lia.
  - pose proof (chain_fits _ _ _ _ _ H0 Hi) as Hf. unfold fuel_of. by apply Nat.lt_succ_r, Hf.
  - run E1.
    destruct (set_bucket_ok (mk_st (mk_hguard o
      (mk_ht (table h0) (cap h0) (mask h0) (used h0 - Z.of_nat (length (x :: c))))
      (mk_ht (table h1) (cap h1) (mask h1) (used h1 + Z.of_nat (length (x :: c)))) (Z.of_nat i)) m1 e)
      false (map first cs0) i NULL) as (m2 & E2 & Hw2 & K2); simpl.
    + eapply words_keeps; [exact K1| |apply H0]. clear - Nt0 P1.
      rewrite P1, fmap_app in Nt0. set_solver.
    + rewrite length_fmap. by eapply lookup_lt_Some.
    + done.
    + cbn [table cap mask used ht_of guard with_mem st_mem omem kerrno] in E2, Hw2, K2.
      pose proof (lookup_lt_Some _ _ _ Hi) as Hlt. pose proof (table_len _ _ _ H0) as Hlen.
      eexists m2, _, _, (S i), (<[i := []]> cs0), cs1'. split_and!.
      * step. run E2. erewrite bind_Ok by (apply next_rehashidx_ok; lia).
        replace (Z.of_nat i + 1) with (Z.of_nat (S i)) by lia. reflexivity.
      * by eapply bucket_moved.
      * eapply keeps_trans_in; [exact K1|exact K2|]. intros a.
        pose proof (chain_addrs cs0 _ a (list_elem_of_lookup_2 _ _ _ Hi)) as Hc'. clear - Hc'. set_solver.
Qed.

(** The first table is empty: the second takes its place. *)
Lemma finish_ok X m h0 h1 r e cs0 cs1 ns : rep_moving X m h0 h1 r cs0 cs1 ns -> used h0 = 0 ->
  exists m', kylin_free (table h0) m = Ok (tt, m') /\ brk m' = brk m /\ oom m' = oom m /\
    (forall a, a <> table h0 -> same_at m m' a) /\
    rep X (mk_st (mk_hguard o h1 kmath_ht_reset (-1)) m' e) ns.
Proof.
  intros [[H0 U0] H1 _ _ HP Hown Hns Ha Hm HX] Hu.
  rewrite U0 in Hu. destruct (concat cs0) as [|x l]; [|simpl in Hu; lia]. simpl in HP, Hown.
  destruct (owned_nodup_cons _ _ Hown) as [Nt Hown1].
  destruct (owned_in _ (table h0) Hown) as (Ht & _ & HtD); [set_solver|].
  destruct (words_at_live _ _ _ (ok_words _ _ _ H0)) as [bs Hbs].
  assert (Hsame : forall a, a <> table h0 ->
    same_at m (mk_mem (delete (table h0) (blocks m)) (brk m) (oom m)) a).
  { intros a Hne. unfold same_at. simpl. by rewrite lookup_delete_ne. }
  exists (mk_mem (delete (table h0) (blocks m)) (brk m) (oom m)). split_and!; try done.
  - unfold kylin_free. rewrite (proj2 (Z.eqb_neq _ _) Ht). by rewrite Hbs.
  - split; simpl; try done.
    + exists [table h1], cs1, []. rewrite app_nil_r. split_and!; [|done|done|].
      2: { intros a Hin. specialize (HX a Hin). clear - HX. set_solver. }
      apply settled; try done. destruct H1 as [H1 U1]. split; [|done].
      eapply shape_same; [|exact H1]. intros a Ha1. apply Hsame. intros ->. apply Nt.
      clear - Ha1. set_solver.
    + intros a Da. unfold same_at. rewrite Hsame; [by apply Ha|]. by intros ->.
    + by apply mem_ok_delete.
Qed.

Lemma rehash_ok X s ns : rep X s ns -> is_rehashing (guard s) = true ->
  exists s', _ht_rehash nested 1 s = Ok (tt, s') /\ rep X s' ns /\ frame X s s' /\
    table (ht0 (guard s')) <> NULL.
Proof.
  intros HR Hr. destruct (rep_is_moving X s ns HR Hr) as (m & h0 & h1 & r & e & cs0 & cs1 & -> & HM).
  unfold _ht_rehash. step. rewrite Hr. cbn [negb].
  assert (exists m' h0' h1' r' cs0' cs1',
    rehash_steps nested 1 (mk_st (mk_hguard o h0 h1 (Z.of_nat r)) m e) =
      Ok (tt, mk_st (mk_hguard o h0' h1' (Z.of_nat r')) m' e) /\
    rep_moving X m' h0' h1' r' cs0' cs1' ns /\ brk m' = brk m /\ oom m' = oom m /\
    forall a, a ∈ X -> same_at m m' a)
    as (m' & h0' & h1' & r' & cs0' & cs1' & E & HM' & Kb & Ko & KX).
  { destruct (decide (used h0 = 0)) as [E0|E0].
    - exists m, h0, h1, r, cs0, cs1. split_and!; try done. cbn [rehash_steps]. step.
      change (ht_of false _) with h0. by rewrite E0.
    - destruct (rehash_step_ok X m h0 h1 r e cs0 cs1 ns HM E0)
        as (m' & h0' & h1' & r' & cs0' & cs1' & E & HM' & Kb & Ko & _ & K).
      exists m', h0', h1', r', cs0', cs1'. split_and!; try done. intros a Ha. apply K.
      pose proof (mv_spare _ _ _ _ _ _ _ _ HM a Ha) as HX. rewrite fmap_app in HX.
      clear - HX. set_solver. }
  assert (Ht : table h0' <> NULL /\ table h1' <> NULL).
  { pose proof (mv_own _ _ _ _ _ _ _ _ HM') as Hown. split; eapply (owned_in _ _ Hown); clear; set_solver. }
  run E. step. cbn [ht0 guard]. destruct (Z.eqb_spec (used h0') 0) as [E0|E0].
  - destruct (finish_ok X m' h0' h1' r' e cs0' cs1' ns HM' E0) as (m2 & Ef & Kb2 & Ko2 & Ks & HR2).
    eexists. split; [erewrite bind_Ok by (apply on_mem_ok, Ef); reflexivity|]. split; [done|].
    split; [|apply Ht].
    split_and!; simpl; try congruence. intros a Ha. unfold same_at. rewrite Ks; [by apply KX|].
    intros ->. apply (mv_spare _ _ _ _ _ _ _ _ HM' _ Ha). clear. set_solver.
  - eexists. split; [reflexivity|]. split; [by eapply moving_rep|]. split; [by split_and!|apply Ht].
Qed.

Lemma maybe_rehash_ok X s ns : rep X s ns ->
  exists s', maybe_rehash nested s = Ok (tt, s') /\ rep X s' ns /\ frame X s s' /\
    (table (ht0 (guard s)) <> NULL -> table (ht0 (guard s')) <> NULL).
Proof.
  intros HR. unfold maybe_rehash. step. destruct (is_rehashing (guard s)) eqn:E.
  - destruct (rehash_ok X s ns HR E) as (s' & Er & HR' & F & Ht). by exists s'.
  - exists s. split; [done|]. split; [done|]. split; [by split_and!|done].
Qed.

(** ** Searching *)

Lemma lookup_key_Some ns key x : nodes_ok ns -> D key ->
  lookup_key ns key = Some x <-> x ∈ ns /\ eqk (key_of x) key = true.
Proof.
  intros [Hk Hd _] Dk. rewrite Forall_forall in Hk. split.
  - intros E. apply List.find_some in E as [Hx E]. by apply list_elem_of_In in Hx.
  - intros [Hx E]. unfold lookup_key. destruct (List.find _ ns) as [y|] eqn:Ef.
    + apply List.find_some in Ef as [Hy Ey]. apply list_elem_of_In in Hy. f_equal. apply Hd; [done..|].
      apply (km_trans _ _ _ _ _ KM _ key); auto. apply (km_sym _ _ _ _ _ KM); auto.
    + apply list_elem_of_In in Hx. by rewrite (List.find_none _ _ Ef x Hx) in E.
Qed.

Lemma lookup_key_perm ns ns' key : nodes_ok ns -> D key -> ns ≡ₚ ns' ->
  lookup_key ns key = lookup_key ns' key.
Proof.
  intros Hns Dk P. apply option_eq. intros x. pose proof (nodes_ok_perm _ _ P Hns).
  rewrite (lookup_key_Some ns), (lookup_key_Some ns') by done. by rewrite P.
Qed.

Lemma lookup_key_app ns1 ns2 key : lookup_key (ns1 ++ ns2) key =
  match lookup_key ns1 key with Some x => Some x | None => lookup_key ns2 key end.
Proof. induction ns1 as [|x ns1 IH]; [done|]. unfold lookup_key in *. simpl. by destruct (eqk _ _). Qed.

(** Only the bucket of the hash needs to be looked at. *)
Lemma lookup_bucket m h cs key i c : shape_ok m h cs -> nodes_ok (concat cs) -> D key ->
  Z.land (hashv key) (mask h) = Z.of_nat i -> cs !! i = Some c ->
  lookup_key c key = lookup_key (concat cs) key.
Proof.
  intros Hh Hns Dk Ei Hi. pose proof (nodes_keys _ Hns) as Hk. rewrite Forall_forall in Hk.
  destruct (concat_insert cs i c Hi) as (rest & P & _).
  rewrite (lookup_key_perm _ _ _ Hns Dk P), lookup_key_app.
  destruct (lookup_key c key) eqn:Ec; [done|]. symmetry.
  destruct (lookup_key rest key) as [x|] eqn:Er; [|done]. exfalso.
  apply List.find_some in Er as [Hx Ex]. apply list_elem_of_In in Hx.
  assert (Hxc : x ∈ concat cs) by (rewrite P; set_solver).
  apply elem_of_concat in Hxc as (c' & Hxc' & Hc'). apply list_elem_of_lookup_1 in Hc' as [j Hj].
  pose proof (ok_placed _ _ _ Hh j c' x Hj Hxc') as Hb. unfold bucket_of in Hb.
  assert (Dx : D (key_of x)) by (apply Hk; rewrite P; set_solver).
  rewrite (km_respects _ _ _ _ _ KM _ _ Dx Dk Ex), Ei in Hb.
  replace j with i in Hj by lia. simplify_eq.
  by rewrite (List.find_none _ _ Ec x) in Ex by by apply list_elem_of_In.
Qed.

Definition addr_opt (x : option node) : option Z := fst <$> x.

Lemma find_in_ok (s : st Op) w cs key : let h := ht_of w (guard s) in
  g_opts (guard s) = o -> agree D m0 (omem s) -> shape_ok (omem s) h cs -> nodes_ok (concat cs) ->
  owned (addrs (concat cs)) -> D key ->
  find_in (has_key key) (hashv key) w s = Ok (addr_opt (lookup_key (concat cs) key), s).
Proof.
  intros h Ho Ha Hh Hns Hown Dk. subst h. unfold find_in. step.
  destruct (table_bucket _ _ _ (hashv key) Hh) as (i & c & Ei & Hi); [by apply hashv_range|].
  rewrite Ei. run (bucket_ok s w cs i c Hh Hi). step.
  pose proof (nodes_keys _ Hns) as Hk. rewrite Forall_forall in Hk.
  assert (Hsub : forall y, y ∈ c -> y ∈ concat cs) by
    (intros y Hy; apply elem_of_concat; exists c; split; [done|by eapply list_elem_of_lookup_2]).
  erewrite bind_Ok by (apply (search_ok s (ht_of w (guard s)) cs i c _ (fun x => eqk (key_of x) key)); [done..|];
    intros x Hx [nx Hnx]; eapply has_key_ok; eauto).
  fold (lookup_key c key). rewrite (lookup_bucket _ _ _ _ _ _ Hh Hns Dk Ei Hi).
  destruct (lookup_key (concat cs) key) as [x|] eqn:E; [|done]. simpl.
  apply List.find_some in E as [Hx _]. apply list_elem_of_In in Hx. unfold found.
  destruct (owned_in _ x.1 Hown) as [Hx0 _]; [apply list_elem_of_fmap; eauto|].
  by rewrite (proj2 (Z.eqb_neq _ _) Hx0).
Qed.

(** Parts of a represented collection. *)
Lemma nodes_ok_app_l ns c : nodes_ok (ns ++ c) -> nodes_ok ns.
Proof. intros Hns. eapply nodes_ok_app_r, nodes_ok_perm; [apply Permutation_app_comm|exact Hns]. Qed.

Lemma owned_chains ts (l1 l2 : list node) : owned (ts ++ addrs (l1 ++ l2)) -> owned (addrs l1) /\ owned (addrs l2).
Proof.
  rewrite fmap_app. intros Hown. apply owned_app_r in Hown. split; [|by eapply owned_app_r].
  eapply owned_app_r, owned_perm; [apply Permutation_app_comm|exact Hown].
Qed.

Lemma both_find_ok X stop (body : bool -> M (st Op) (option Z)) s ns key :
  rep X s ns -> D key ->
  (forall w cs, shape_ok (omem s) (ht_of w (guard s)) cs -> nodes_ok (concat cs) ->
    owned (addrs (concat cs)) -> body w s = Ok (addr_opt (lookup_key (concat cs) key), s)) ->
  both_tables stop body s = Ok (addr_or_null (lookup_key ns key), s).
Proof.
  intros [Ho (ts & cs0 & cs1 & Hp & HP & Hown & HX) Hns Ha Hm] Dk Hb. unfold both_tables. step.
  pose proof (nodes_ok_perm _ _ (symmetry HP) Hns) as Hns'. rewrite <- (lookup_key_perm _ _ _ Hns' Dk HP).
  destruct (owned_chains _ _ _ Hown) as [Ho0 Ho1].
  pose proof (nodes_ok_app_l _ _ Hns') as Hn0. pose proof (nodes_ok_app_r _ _ Hns') as Hn1.
  destruct Hp as [E0 E1 _ Er|cs [H0 _] E1 _ Er|r cs0 cs1 [H0 _] [H1 _] Er _ _];
    change (ht_of false (guard s)) with (ht0 (guard s)).
  - by rewrite E0.
  - destruct (owned_in _ (table (ht0 (guard s))) Hown) as [Ht _]; [set_solver|].
    rewrite (proj2 (Z.eqb_neq _ _) Ht). rewrite app_nil_r. run (Hb false cs H0 Hn0 Ho0).
    destruct (lookup_key (concat cs) key) as [x|]; [done|]. simpl. step.
    unfold is_rehashing. rewrite Er, E1. by destruct stop.
  - destruct (owned_in _ (table (ht0 (guard s))) Hown) as [Ht _]; [set_solver|].
    destruct (owned_in _ (table (ht1 (guard s))) Hown) as [Ht1 _]; [set_solver|].
    rewrite (proj2 (Z.eqb_neq _ _) Ht). run (Hb false cs0 H0 Hn0 Ho0). rewrite lookup_key_app.
    destruct (lookup_key (concat cs0) key) as [x|]; [done|]. simpl. step.
    unfold is_rehashing. rewrite (proj2 (Z.eqb_neq _ _) Ht1).
    rewrite (proj2 (Z.eqb_neq (rehashidx (guard s)) (-1))) by lia. rewrite andb_false_r.
    run (Hb true cs1 H1 Hn1 Ho1). by destruct (lookup_key (concat cs1) key).
Qed.

Lemma ht_find_ok X s ns key : rep X s ns -> D key ->
  ht_find key s = Ok (addr_or_null (lookup_key ns key), s).
Proof.
  intros HR Dk. unfold ht_find. run (key_hash_ok s (rep_opts _ _ _ HR) (rep_agree _ _ _ HR) key Dk).
  eapply both_find_ok; [done..|]. intros w cs Hh Hn Ho. by apply find_in_ok; [apply HR| apply HR|..].
Qed.

Lemma ht_find_for_replace_ok X s ns key : rep X s ns -> D key ->
  exists s', ht_find_for_replace nested key s = Ok (addr_or_null (lookup_key ns key), s') /\
    rep X s' ns /\ frame X s s'.
Proof.
  intros HR Dk. unfold ht_find_for_replace.
  destruct (maybe_rehash_ok X s ns HR) as (s' & E & HR' & F & _). exists s'. split; [|done]. run E.
  run (key_hash_ok s' (rep_opts _ _ _ HR') (rep_agree _ _ _ HR') key Dk).
  eapply both_find_ok; [done..|]. intros w cs Hh Hn Ho. by apply find_in_ok; [apply HR'| apply HR'|..].
Qed.

(** ** Unlinking *)

Lemma eqk_comm a b : D a -> D b -> eqk a b = eqk b a.
Proof.
  intros Da Db. apply eq_true_iff_eq. split; apply (km_sym _ _ _ _ _ KM); done.
Qed.

Lemma unlink_in_ok (s : st Op) w cs key eq : let h := ht_of w (guard s) in
  shape_ok (omem s) h cs -> nodes_ok (concat cs) -> owned (table h :: addrs (concat cs)) -> D key ->
  (forall x nx, x ∈ concat cs -> node_at (omem s) x nx -> eq x.1 s = Ok (eqk (key_of x) key, s)) ->
  match lookup_key (concat cs) key with
  | None => unlink_in eq (hashv key) w s = Ok (None, s)
  | Some x => exists i c c' nx m', cs !! i = Some c /\ c ≡ₚ x :: c' /\
      unlink_in eq (hashv key) w s = Ok (Some x.1, mk_st (with_ht w (guard s)
        (mk_ht (table h) (cap h) (mask h) (u64 (used h - 1)))) m' (kerrno s)) /\
      shape_ok m' h (<[i := c']> cs) /\ keeps (table h :: addrs (concat cs)) (omem s) m' /\
      node_at m' x nx
  end.
Proof.
  intros h Hh Hns Hown Dk Heq. subst h. unfold unlink_in. step.
  destruct (table_bucket _ _ _ (hashv key) Hh) as (i & c & Ei & Hi); [by apply hashv_range|].
  rewrite Ei, <- (lookup_bucket _ _ _ _ _ _ Hh Hns Dk Ei Hi).
  pose proof (chain_in _ _ _ _ _ Hh Hi) as Hc. destruct (owned_nodup_cons _ _ Hown) as [_ Hown'].
  pose proof (chain_fits _ _ _ _ _ Hh Hi (own_nodup _ Hown')) as Hfit.
  assert (Haddr : Forall (fun y => y.1 <> NULL /\ is_u 64 y.1) (concat cs)).
  { apply Forall_forall. intros y Hy. destruct (owned_in _ y.1 Hown') as (? & ? & _); [|done].
    apply list_elem_of_fmap; eauto. }
  pose proof (unlink_walk_ok s w eq (fun x => eqk (key_of x) key) cs i c [] (fuel_of s) Hh Hi
    (own_nodup _ Hown) Haddr) as HW.
  change (last_addr []) with NULL in HW. fold (lookup_key c key) in HW.
  assert (HW' := fun Hq => HW Hq ltac:(unfold fuel_of; lia)). clear HW.
  match type of HW' with ?P -> _ => assert (Hq : P) end.
  { intros x Hx. destruct (list_elem_of_split c x Hx) as (c1 & c2 & ->).
    apply chain_at_app in Hc as [_ [Hx' _]]. eapply Heq; [|exact Hx'].
    apply elem_of_concat. eexists. split; [exact Hx|by eapply list_elem_of_lookup_2]. }
  specialize (HW' Hq). destruct (lookup_key c key) as [x|].
  - destruct HW' as (d1 & d2 & m' & -> & E & Hs & K & Hx).
    exists i, (d1 ++ x :: d2), (d1 ++ d2), (first d2), m'. split_and!; try done.
    + symmetry. apply Permutation_middle.
    + run (bucket_ok s w cs i _ Hh Hi). step. exact E.
    + eapply keeps_weaken; [|exact K]. intros a. simpl.
      pose proof (chain_addrs cs _ a (list_elem_of_lookup_2 _ _ _ Hi)) as Hc'.
      rewrite fmap_app in Hc'. clear - Hc'. set_solver.
  - run (bucket_ok s w cs i _ Hh Hi). step. exact HW'.
Qed.

Lemma length_concat_replace (cs : list (list node)) i c c' x : cs !! i = Some c -> c ≡ₚ x :: c' ->
  concat cs ≡ₚ x :: concat (<[i := c']> cs).
Proof.
  intros Hi P. destruct (concat_insert cs i c Hi) as (rest & P1 & P2). by rewrite P1, P2, P.
Qed.

(** The phase after a node has left the table [w]. *)
Lemma phase_removed m m' g ts cs0 cs1 w i c c' x : let h := ht_of w g in
  let cs := if w : bool then cs1 else cs0 in
  phase m g ts cs0 cs1 -> owned (ts ++ addrs (concat cs0 ++ concat cs1)) ->
  used h < 2 ^ 62 -> cs !! i = Some c -> c ≡ₚ x :: c' -> shape_ok m' h (<[i := c']> cs) ->
  keeps (table h :: addrs (concat cs)) m m' ->
  phase m' (with_ht w g (mk_ht (table h) (cap h) (mask h) (u64 (used h - 1)))) ts
    (if w then cs0 else <[i := c']> cs0) (if w then <[i := c']> cs1 else cs1).
Proof.
  intros h cs Hp Hown Hu Hi P Hh K. subst h cs.
  pose proof (own_nodup _ Hown) as Hnd. rewrite fmap_app in Hnd.
  destruct Hp as [E0 E1 Eu Er|cs [H0 U0] E1 Eu Er|r cs0 cs1 [H0 U0] [H1 U1] Er Hr He].
  - by destruct w.
  - destruct w; [done|]. simpl in *.
    pose proof (Permutation_length (length_concat_replace _ _ _ _ _ Hi P)) as Hl. simpl in Hl.
    set (h' := mk_ht _ _ _ _). apply (settled m' (with_ht false g h')); [|done..].
    split; simpl; [by apply shape_used|].
    rewrite uw_id by (unfold is_u; lia). lia.
  - simpl in Hnd. apply NoDup_cons in Hnd as [Nt0 [Nt1 Hnd]%NoDup_cons].
    apply NoDup_app in Hnd as (_ & Hdis & _). destruct w; simpl in *;
      pose proof (Permutation_length (length_concat_replace _ _ _ _ _ Hi P)) as Hl; simpl in Hl.
    + set (h' := mk_ht _ _ _ _). apply (moving m' (with_ht true g h') r); simpl; try done; split; simpl.
      * eapply shape_other; [exact K|exact H0|]. intros a Ha1 Ha2. clear - Ha1 Ha2 Nt0 Nt1 Hdis.
        set_solver.
      * done.
      * by apply shape_used.
      * rewrite uw_id by (unfold is_u; lia). lia.
    + set (h' := mk_ht _ _ _ _). apply (moving m' (with_ht false g h') r); simpl; try done; [split; simpl|split; simpl| |].
      * by apply shape_used.
      * rewrite uw_id by (unfold is_u; lia). lia.
      * eapply shape_other; [exact K|exact H1|]. intros a Ha1 Ha2. clear - Ha1 Ha2 Nt0 Nt1 Hdis.
        set_solver.
      * done.
      * by rewrite length_insert.
      * intros j c0 Hj. destruct (decide (j = i)) as [->|Hne].
        -- rewrite (He i c Hj Hi) in P. by apply Permutation_nil_cons in P.
        -- rewrite list_lookup_insert_ne by done. by apply He.
Qed.

Lemma phase_used m g ts cs0 cs1 (w : bool) : phase m g ts cs0 cs1 ->
  used (ht_of w g) = Z.of_nat (length (concat (if w then cs1 else cs0))).
Proof.
  intros [E0 E1 Eu Er|cs [_ U] E1 Eu Er|r ? ? [_ U0] [_ U1] ? ? ?]; destruct w; simpl; by rewrite ?E0.
Qed.

(** A node taken out of the table [w] is out of the whole. *)
Lemma unlinked_rep X (s : st Op) ns ts cs0 cs1 (w : bool) i c c' x m' :
  let h := ht_of w (guard s) in let cs := if w then cs1 else cs0 in
  rep X s ns -> phase (omem s) (guard s) ts cs0 cs1 -> concat cs0 ++ concat cs1 ≡ₚ ns ->
  owned (ts ++ addrs (concat cs0 ++ concat cs1)) ->
  (forall a, a ∈ X -> a ∉ ts ++ addrs (concat cs0 ++ concat cs1)) ->
  cs !! i = Some c -> c ≡ₚ x :: c' -> shape_ok m' h (<[i := c']> cs) ->
  keeps (table h :: addrs (concat cs)) (omem s) m' -> table h ∈ ts ->
  exists s' ns', s' = mk_st (with_ht w (guard s)
      (mk_ht (table h) (cap h) (mask h) (u64 (used h - 1)))) m' (kerrno s) /\
    ns ≡ₚ x :: ns' /\ rep (x.1 :: X) s' ns' /\ frame X s s'.
Proof.
  intros h cs HR Hp HP Hown HX Hi P Hh K Hts. subst h cs.
  pose proof (nodes_few _ (rep_nodes _ _ _ HR)) as Hfew. rewrite <- HP, length_app in Hfew.
  assert (Hu : used (ht_of w (guard s)) < 2 ^ 62) by
    (rewrite (phase_used _ _ _ _ _ w Hp); destruct w; lia).
  pose proof (phase_removed _ m' _ _ _ _ w i c c' x Hp Hown Hu Hi P Hh K) as Hp'.
  pose proof (length_concat_replace _ _ _ _ _ Hi P) as PC.
  set (cs0' := if w then cs0 else <[i := c']> cs0) in *.
  set (cs1' := if w then <[i := c']> cs1 else cs1) in *.
  assert (PA : concat cs0 ++ concat cs1 ≡ₚ x :: concat cs0' ++ concat cs1').
  { destruct w; simpl in *; rewrite PC; [|done]. symmetry. apply Permutation_middle. }
  assert (Hin : forall a, a ∈ table (ht_of w (guard s)) :: addrs (concat (if w then cs1 else cs0)) ->
    a ∈ ts ++ addrs (concat cs0 ++ concat cs1)).
  { intros a. rewrite fmap_app. clear - Hts. destruct w; set_solver. }
  rewrite PA in HP. assert (Hown' : owned (x.1 :: ts ++ addrs (concat cs0' ++ concat cs1'))).
  { eapply owned_perm; [|exact Hown]. rewrite (fmap_Permutation fst _ _ PA). simpl. solve_Permutation. }
  destruct (owned_nodup_cons _ _ Hown') as [Nx Hown2].
  eexists _, (concat cs0' ++ concat cs1'). split_and!; [done|by symmetry| |].
  - destruct HR as [Ho _ Hns Ha Hm]. split; simpl.
    + by destruct w.
    + exists ts, cs0', cs1'. split_and!; try done. intros a [->|Ha1]%elem_of_cons; [done|].
      specialize (HX a Ha1). rewrite (fmap_Permutation fst _ _ PA) in HX. clear - HX. set_solver.
    + by apply (nodes_ok_app_r [x]), (nodes_ok_perm _ _ (symmetry HP)).
    + eapply agree_keeps; [exact K| |done]. intros a Ha1. by apply (owned_in _ a Hown), Hin.
    + by eapply mem_ok_keeps.
  - destruct K as (Kb & Ko & _ & K). split_and!; try done. intros a Ha1. apply K. intros Ha2.
    by apply (HX a Ha1), Hin.
Qed.

Lemma both_unlink_ok X s ns key eq : rep X s ns -> D key ->
  (forall x nx, x ∈ ns -> node_at (omem s) x nx -> eq x.1 s = Ok (eqk (key_of x) key, s)) ->
  match lookup_key ns key with
  | None => both_tables true (unlink_in eq (hashv key)) s = Ok (NULL, s)
  | Some x => exists s' ns' nx, both_tables true (unlink_in eq (hashv key)) s = Ok (x.1, s') /\
      ns ≡ₚ x :: ns' /\ rep (x.1 :: X) s' ns' /\ frame X s s' /\ node_at (omem s') x nx
  end.
Proof.
  intros HR Dk Heq. pose proof HR as [Ho (ts & cs0 & cs1 & Hp & HP & Hown & HX) Hns Ha Hm].
  pose proof (nodes_ok_perm _ _ (symmetry HP) Hns) as Hns'. rewrite <- (lookup_key_perm _ _ _ Hns' Dk HP).
  assert (Heq' : forall (w : bool) x nx, x ∈ concat (if w then cs1 else cs0) ->
    node_at (omem s) x nx -> eq x.1 s = Ok (eqk (key_of x) key, s)).
  { intros w x nx Hx. apply Heq. rewrite <- HP. destruct w; set_solver. }
  assert (Hun := fun w i c c' x m' => unlinked_rep X s ns ts cs0 cs1 w i c c' x m' HR Hp HP Hown HX).
  pose proof (nodes_ok_app_l _ _ Hns') as Hn0. pose proof (nodes_ok_app_r _ _ Hns') as Hn1.
  rewrite lookup_key_app. unfold both_tables. step. change (ht_of false (guard s)) with (ht0 (guard s)).
  destruct Hp as [E0 E1 _ Er|cs [H0 _] E1 _ Er|r cs0 cs1 [H0 _] [H1 _] Er _ _].
  - simpl. by rewrite E0.
  - destruct (owned_in _ (table (ht0 (guard s))) Hown) as [Ht _]; [set_solver|].
    rewrite (proj2 (Z.eqb_neq _ _) Ht).
    pose proof (unlink_in_ok s false cs key eq H0 Hn0 ltac:(by rewrite app_nil_r in Hown) Dk (Heq' false)) as U.
    destruct (lookup_key (concat cs) key) as [x|].
    + destruct U as (i & c & c' & nx & m' & Hi & P & E & Hh & K & Hx). run E.
      destruct (Hun false i c c' x m' Hi P Hh K) as (s' & ns' & -> & Hs); [set_solver|].
      eexists _, ns', nx. split; [reflexivity|]. split_and!; try done; apply Hs.
    + run U. simpl. step. unfold is_rehashing. by rewrite Er.
  - destruct (owned_in _ (table (ht0 (guard s))) Hown) as [Ht _]; [set_solver|].
    destruct (owned_in _ (table (ht1 (guard s))) Hown) as [Ht1 _]; [set_solver|].
    rewrite (proj2 (Z.eqb_neq _ _) Ht).
    assert (Ho0 : owned (table (ht0 (guard s)) :: addrs (concat cs0))).
    { eapply (owned_app_r (table (ht1 (guard s)) :: addrs (concat cs1))), owned_perm; [|exact Hown].
      rewrite fmap_app. simpl. solve_Permutation. }
    assert (Ho1 : owned (table (ht1 (guard s)) :: addrs (concat cs1))).
    { eapply (owned_app_r (table (ht0 (guard s)) :: addrs (concat cs0))), owned_perm; [|exact Hown].
      rewrite fmap_app. simpl. solve_Permutation. }
    pose proof (unlink_in_ok s false cs0 key eq H0 Hn0 Ho0 Dk (Heq' false)) as U0.
    pose proof (unlink_in_ok s true cs1 key eq H1 Hn1 Ho1 Dk (Heq' true)) as U1.
    destruct (lookup_key (concat cs0) key) as [x|].
    + destruct U0 as (i & c & c' & nx & m' & Hi & P & E & Hh & K & Hx). run E.
      destruct (Hun false i c c' x m' Hi P Hh K) as (s' & ns' & -> & Hs); [set_solver|].
      eexists _, ns', nx. split; [reflexivity|]. split_and!; try done; apply Hs.
    + assert (Etail : (r ← unlink_in eq (hashv key) false;
        match r with
        | Some n => mret n
        | None =>
            g ← get_guard;
            if true && negb (is_rehashing g) then mret NULL
            else if table (ht1 g) =? NULL then mret NULL
            else r ← unlink_in eq (hashv key) true; mret (default NULL r)
        end) s = (r ← unlink_in eq (hashv key) true; mret (default NULL r)) s).
      { run U0. cbv iota. step. unfold is_rehashing. rewrite (proj2 (Z.eqb_neq _ _) Ht1).
        by destruct (Z.eqb_spec (rehashidx (guard s)) (-1)); [lia|]. }
      rewrite Etail. destruct (lookup_key (concat cs1) key) as [x|]; [|by run U1].
      destruct U1 as (i & c & c' & nx & m' & Hi & P & E & Hh & K & Hx). run E.
      destruct (Hun true i c c' x m' Hi P Hh K) as (s' & ns' & -> & Hs); [set_solver|].
      eexists _, ns', nx. split; [reflexivity|]. split_and!; try done; apply Hs.
Qed.

Lemma frame_trans X s1 s2 s3 : frame X s1 s2 -> frame X s2 s3 -> frame X s1 s3.
Proof.
  intros (B1 & O1 & K1 & X1) (B2 & O2 & K2 & X2). split_and!; try congruence.
  intros a Ha. unfold same_at. rewrite X2 by done. by apply X1.
Qed.

Lemma rep_key X s ns x : rep X s ns -> x ∈ ns -> D (key_of x).
Proof.
  intros HR Hx. pose proof (nodes_keys _ (rep_nodes _ _ _ HR)) as Hk. rewrite Forall_forall in Hk. auto.
Qed.

Lemma shape_node m h cs x : shape_ok m h cs -> x ∈ concat cs -> exists nx, node_at m x nx.
Proof.
  intros Hh Hx. apply elem_of_concat in Hx as (c & Hx & Hc). pose proof (ok_chains _ _ _ Hh) as HF.
  rewrite Forall_forall in HF. specialize (HF c Hc).
  destruct (list_elem_of_split c x Hx) as (c1 & c2 & ->). apply chain_at_app in HF as [_ [Hx' _]]. eauto.
Qed.

(** The nodes of the collection are in the heap. *)
Lemma rep_node X s ns x : rep X s ns -> x ∈ ns -> exists nx, node_at (omem s) x nx.
Proof.
  intros [_ (ts & cs0 & cs1 & Hp & HP & _) _ _ _] Hx. rewrite <- HP in Hx.
  destruct Hp as [|cs [H0 _]|r cs0 cs1 [H0 _] [H1 _]]; rewrite ?app_nil_r in Hx.
  - by apply elem_of_nil in Hx.
  - by eapply shape_node.
  - apply elem_of_app in Hx as [Hx|Hx]; [exact (shape_node _ _ _ _ H0 Hx)|exact (shape_node _ _ _ _ H1 Hx)].
Qed.

Lemma ht_unlink_ok X s ns key : rep X s ns -> D key ->
  match lookup_key ns key with
  | None => exists s', ht_unlink nested key s = Ok (NULL, s') /\ rep X s' ns /\ frame X s s'
  | Some x => exists s' ns' nx, ht_unlink nested key s = Ok (x.1, s') /\ ns ≡ₚ x :: ns' /\
      rep (x.1 :: X) s' ns' /\ frame X s s' /\ node_at (omem s') x nx
  end.
Proof.
  intros HR Dk. unfold ht_unlink. destruct (maybe_rehash_ok X s ns HR) as (s1 & E & HR1 & F1 & _).
  pose proof (key_hash_ok s1 (rep_opts _ _ _ HR1) (rep_agree _ _ _ HR1) key Dk) as Eh.
  pose proof (both_unlink_ok X s1 ns key (has_key key) HR1 Dk) as HU.
  specialize (HU (fun x nx Hx Hn =>
    has_key_ok s1 (rep_opts _ _ _ HR1) (rep_agree _ _ _ HR1) key x nx Hn (rep_key _ _ _ _ HR1 Hx) Dk)).
  destruct (lookup_key ns key) as [x|].
  - destruct HU as (s' & ns' & nx & E' & P & HR' & F & Hx). exists s', ns', nx. split_and!; try done.
    + run E. by run Eh.
    + by eapply frame_trans.
  - exists s1. split_and!; [|done|done]. run E. by run Eh.
Qed.

(** Unlinking by a node of the table takes out that node. *)
Lemma ht_unlink_raw_ok X s ns x : rep X s ns -> x ∈ ns ->
  exists s' ns' nx, ht_unlink_raw nested x.1 s = Ok (x.1, s') /\ ns ≡ₚ x :: ns' /\
    rep (x.1 :: X) s' ns' /\ frame X s s' /\ node_at (omem s') x nx.
Proof.
  intros HR Hx. unfold ht_unlink_raw. destruct (maybe_rehash_ok X s ns HR) as (s1 & E & HR1 & F1 & _).
  pose proof (rep_key _ _ _ _ HR Hx) as Dx. destruct (rep_node _ _ _ _ HR1 Hx) as [nx1 Hn1].
  pose proof (node_hash_ok s1 (rep_opts _ _ _ HR1) (rep_agree _ _ _ HR1) x nx1 Hn1 Dx) as Eh.
  pose proof (both_unlink_ok X s1 ns (key_of x) (same_key x.1) HR1 Dx) as HU.
  assert (El : lookup_key ns (key_of x) = Some x).
  { apply lookup_key_Some; [apply HR|done|]. split; [done|]. by apply (km_refl _ _ _ _ _ KM). }
  rewrite El in HU. destruct HU as (s' & ns' & nx & E' & P & HR' & F & Hx').
  { intros y ny Hy Hny. rewrite eqk_comm by (done || by eapply rep_key).
    eapply same_key_ok; [apply HR1|apply HR1|done..|by eapply rep_key]. }
  exists s', ns', nx. split_and!; try done; [|by eapply frame_trans].
  run E. by run Eh.
Qed.

(** ** A new table *)

Lemma enc_zeroes n : enc_words (replicate n 0) = replicate (8 * n) 0.
Proof.
  induction n as [|n IH]; [done|].
  change (enc_words (replicate (S n) 0)) with (le_bytes 8 0 ++ enc_words (replicate n 0)).
  rewrite IH. replace (8 * S n)%nat with (8 + 8 * n)%nat by lia. by rewrite (replicate_add 8 (8 * n)).
Qed.

Lemma concat_empty n : concat (replicate n ([] : list node)) = [].
Proof. by induction n. Qed.

Lemma empty_shape m t n k : 0 <= k <= 30 -> n = Z.to_nat (2 ^ k) ->
  blocks m !! t = Some (replicate (8 * n) 0) ->
  ht_ok m (mk_ht t (2 ^ k) (2 ^ k - 1) 0) (replicate n []).
Proof.
  intros Hk -> Hb. pose proof (pow2_pos k ltac:(lia)). split; [split; simpl|].
  - assert (E : map first (replicate (Z.to_nat (2 ^ k)) []) = replicate (Z.to_nat (2 ^ k)) 0)
      by apply fmap_replicate.
    rewrite E. split; [by rewrite enc_zeroes|]. by apply Forall_replicate.
  - by apply Forall_replicate.
  - by exists k.
  - done.
  - rewrite length_replicate. lia.
  - intros i c x Hi Hx. apply lookup_replicate in Hi as [-> _]. by apply elem_of_nil in Hx.
  - simpl. by rewrite concat_empty.
Qed.

Lemma shape_live m h cs a : shape_ok m h cs -> a = table h \/ a ∈ addrs (concat cs) -> is_Some (blocks m !! a).
Proof.
  intros Hh [->|Ha]; [by eapply words_at_live, Hh|].
  apply list_elem_of_fmap in Ha as (x & -> & Hx). destruct (shape_node _ _ _ _ Hh Hx) as [nx [_ Hn]].
  by eapply words_at_live.
Qed.

Lemma phase_live m g ts cs0 cs1 a : phase m g ts cs0 cs1 ->
  a ∈ ts ++ addrs (concat cs0 ++ concat cs1) -> is_Some (blocks m !! a).
Proof.
  intros [|cs [H0 _]|r ? ? [H0 _] [H1 _]] Ha; rewrite fmap_app in Ha.
  - by apply elem_of_nil in Ha.
  - eapply shape_live; [exact H0|]. clear - Ha. set_solver.
  - apply elem_of_app in Ha as [Ha|[Ha|Ha]%elem_of_app].
    + apply elem_of_cons in Ha as [->|Ha]; [eapply shape_live; [exact H0|by left]|].
      eapply shape_live; [exact H1|]. clear - Ha. set_solver.
    + eapply shape_live; [exact H0|by right].
    + eapply shape_live; [exact H1|by right].
Qed.

(** What an operation that may allocate a table leaves alone. *)
Definition grown (X : list Z) (s s' : st Op) : Prop :=
  brk (omem s) <= brk (omem s') <= brk (omem s) + 2 ^ 34 /\ oom (omem s') = [] /\
  kerrno s' = kerrno s /\ forall a, a ∈ X -> same_at (omem s) (omem s') a.

Lemma rep_not_fresh X s ns : rep X s ns -> cap (ht0 (guard s)) <> 0 -> table (ht0 (guard s)) <> NULL.
Proof.
  intros [_ (ts & cs0 & cs1 & Hp & _ & Hown & _) _ _ _] Hc.
  destruct Hp as [E0|cs [H0 _]|r ? ? [H0 _] _]; [by rewrite E0 in Hc| |];
    eapply (owned_in _ _ Hown); clear; set_solver.
Qed.

(** The tables when a fresh array [t] of [2^k] buckets becomes the first table,
    or the second one. *)
Lemma phase_grown m m' g ts cs0 cs1 t k : phase m g ts cs0 cs1 -> is_rehashing g = false -> 0 <= k <= 30 ->
  (forall a, a ∈ ts ++ addrs (concat cs0 ++ concat cs1) -> same_at m m' a) ->
  blocks m' !! t = Some (replicate (8 * Z.to_nat (2 ^ k)) 0) ->
  owned (ts ++ addrs (concat cs0 ++ concat cs1)) ->
  exists g' cs0' cs1' ts',
    g' = (let h := mk_ht t (2 ^ k) (2 ^ k - 1) 0 in
          if table (ht0 g) =? NULL then with_ht false g h
          else mk_hguard (g_opts g) (ht0 g) h 0) /\
    g_opts g' = g_opts g /\ (t <> NULL -> table (ht0 g') <> NULL) /\
    phase m' g' ts' cs0' cs1' /\ concat cs0' ++ concat cs1' = concat cs0 ++ concat cs1 /\ ts' ≡ₚ t :: ts.
Proof.
  intros Hp Hr Hk Hsame Hb Hown.
  pose proof (empty_shape m' t _ k Hk eq_refl Hb) as HE. unfold is_rehashing in Hr.
  destruct Hp as [E0 E1 Eu Er|cs [H0 U0] E1 Eu Er|r cs0 cs1 _ _ Er _ _].
  - rewrite E0. simpl. eexists _, (replicate (Z.to_nat (2 ^ k)) []), [], [t]. split_and!; try done.
    + set (h := mk_ht _ _ _ _). apply (settled m' (with_ht false g h)); done.
    + by rewrite concat_empty.
  - destruct (owned_in _ (table (ht0 g)) Hown) as [Ht _]; [clear; set_solver|].
    rewrite (proj2 (Z.eqb_neq _ _) Ht). eexists _, cs, (replicate (Z.to_nat (2 ^ k)) []), [table (ht0 g); t].
    split_and!; try done.
    + set (h := mk_ht _ _ _ _). apply (moving m' (mk_hguard (g_opts g) (ht0 g) h 0) 0); simpl; try done; [|lia..].
      split; [|done]. eapply shape_same; [|exact H0]. intros a Ha. apply Hsame. clear - Ha. set_solver.
    + by rewrite concat_empty.
    + apply Permutation_swap.
  - rewrite Er in Hr. by destruct (Z.eqb_spec (Z.of_nat r) (-1)); [lia|].
Qed.

Lemma ht_resize_ok X s ns count : rep X s ns -> is_rehashing (guard s) = false -> 2 <= count <= 2 ^ 30 ->
  room (omem s) (2 ^ 34) -> (forall a, a ∈ X -> a < brk (omem s)) ->
  exists r s', ht_resize count s = Ok (r, s') /\ rep X s' ns /\ grown X s s' /\
    table (ht0 (guard s')) <> NULL /\
    (if 2 ^ Z.log2 (count - 1) =? cap (ht0 (guard s)) then r = KYLIN_ERROR_EXIST /\ s' = s
     else r = KYLIN_ERROR_OK /\ is_rehashing (guard s') = negb (table (ht0 (guard s)) =? NULL)).
Proof.
  intros HR Hr Hcount Hroom HX. unfold ht_resize. step. rewrite Hr.
  pose proof (Z.log2_nonneg (count - 1)) as Hk0.
  assert (Hk : 0 <= Z.log2 (count - 1) <= 30) by
    (split; [done|]; apply Z.lt_le_incl, Z.log2_lt_pow2; lia).
  set (k := Z.log2 (count - 1)) in *. pose proof (pow2_pos k ltac:(lia)) as Hp2.
  pose proof (Z.pow_le_mono_r 2 k 30 ltac:(lia) ltac:(lia)) as Hp30.
  assert (Ep : pow2 count s = Ok (2 ^ k, s)) by (unfold pow2; by rewrite roundup_value by lia).
  run Ep. destruct (Z.eqb_spec (2 ^ k) (cap (ht0 (guard s)))) as [Ecap|_]; cbv iota.
  { exists KYLIN_ERROR_EXIST, s. split_and!; try done.
    - split_and!; [lia|lia|apply Hroom|done|done].
    - eapply rep_not_fresh; [exact HR|]. lia. }
  destruct HR as [Ho (ts & cs0 & cs1 & Hp & HP & Hown & HXo) Hns Ha Hm].
  set (m := omem s) in *. pose proof Hm as [Hb Hlive].
  rewrite (uw_id 64 (2 ^ k * 8)), (uw_id 64 (2 ^ k - 1)) by (unfold is_u; lia).
  set (m' := mk_mem (<[brk m := replicate (Z.to_nat (2 ^ k * 8)) 0]> (blocks m))
    (brk m + Z.max 16 (2 ^ k * 8)) []).
  erewrite bind_Ok by (apply on_mem_ok, (malloc_room m _ _ Hroom Hm); lia). cbv beta.
  fold m'. cbv zeta.
  assert (Hbrk : forall a, is_Some (blocks m !! a) -> a < brk m) by (intros a [bs Hbs]; apply Hlive in Hbs; lia).
  assert (Hsame : forall a, a < brk m -> same_at m m' a) by
    (intros a Hlt; unfold same_at; simpl; rewrite lookup_insert_ne by lia; done).
  destruct (phase_grown m m' (guard s) ts cs0 cs1 (brk m) k Hp Hr Hk)
    as (g' & cs0' & cs1' & ts' & Eg & Eo & Ht & Hp' & Ec & Pts); [| |done|].
  { intros a Hin. by apply Hsame, Hbrk, (phase_live _ _ _ _ _ _ Hp). }
  { simpl. rewrite lookup_insert_eq. do 2 f_equal. lia. }
  exists KYLIN_ERROR_OK, (mk_st g' m' (kerrno s)). split_and!.
  - subst g'. cbv zeta. by destruct (table (ht0 (guard s)) =? NULL).
  - split; simpl; [by rewrite Eo| |done| |apply malloc_mem_ok; [done|]; destruct Hroom; fold m; lia].
    + exists ts', cs0', cs1'. rewrite Ec. split_and!; try done.
      * eapply owned_perm; [symmetry; by apply Permutation_app_tail|]. simpl.
        destruct Hown as [Hn Hf]. split; [apply NoDup_cons|apply Forall_cons]; split; try done.
        -- intros Hin. pose proof (Hbrk _ (phase_live _ _ _ _ _ _ Hp Hin)). lia.
        -- split_and!; [unfold NULL; lia|unfold is_u; lia|]. intros Db.
           destruct (km_live _ _ _ _ _ KM _ Db) as [bs Hbs]. rewrite <- (Ha _ Db) in Hbs.
           apply Hlive in Hbs. lia.
      * intros a Hin. rewrite Pts. simpl. intros [->|Hin']%elem_of_cons; [|by apply (HXo a)].
        apply HX in Hin. lia.
    + intros a Da. unfold same_at. rewrite Hsame; [by apply Ha|]. apply Hbrk.
      rewrite (Ha _ Da). by apply (km_live _ _ _ _ _ KM).
  - split_and!; simpl; fold m; [lia|lia|done|done|]. intros a Hin. by apply Hsame, HX.
  - simpl. apply Ht. unfold NULL. lia.
  - done.
  - simpl. rewrite Eg. cbv zeta. by destruct (table (ht0 (guard s)) =? NULL).
Qed.

Lemma phase_cap m g ts cs0 cs1 : phase m g ts cs0 cs1 -> 0 <= cap (ht0 g).
Proof.
  intros [E0|cs [H0 _]|r ? ? [H0 _]]; [by rewrite E0| |];
    destruct (ok_size _ _ _ H0) as (k & Hk & ->); apply Z.pow_nonneg; lia.
Qed.

Lemma expand_ok X s ns : rep X s ns -> room (omem s) (2 ^ 34) -> (forall a, a ∈ X -> a < brk (omem s)) ->
  exists r s', expand s = Ok (r, s') /\ rep X s' ns /\ grown X s s' /\ table (ht0 (guard s')) <> NULL.
Proof.
  intros HR Hroom HX. unfold expand. step.
  assert (Hsame : table (ht0 (guard s)) <> NULL -> exists r s', (mret KYLIN_ERROR_OK : M (st Op) kerr_t) s = Ok (r, s') /\
    rep X s' ns /\ grown X s s' /\ table (ht0 (guard s')) <> NULL).
  { intros Ht. exists KYLIN_ERROR_OK, s. split_and!; try done. split_and!; [lia|lia|apply Hroom|done|done]. }
  pose proof HR as [Ho (ts & cs0 & cs1 & Hp & HP & Hown & HXo) Hns Ha Hm].
  pose proof (phase_cap _ _ _ _ _ Hp) as Hcap. pose proof (phase_used _ _ _ _ _ false Hp) as Hu.
  pose proof (nodes_few _ Hns) as Hf. rewrite <- HP, length_app in Hf. simpl in Hu.
  unfold _ht_need_expand, force_resize_ratio.
  destruct (Z.eqb_spec (cap (ht0 (guard s))) 0) as [Ec|Ec]; simpl orb; cbv iota.
  - destruct (ht_resize_ok X s ns 4) as (r & s' & E & HR' & G & Ht & _); [done| |lia|done|done|by exists r, s'].
    destruct Hp as [_ _ _ Er|cs [H0 _] _ _ _|r ? ? [H0 _] _ _ _ _];
      [unfold is_rehashing; by rewrite Er| |];
      destruct (ok_size _ _ _ H0) as (k & Hk & Ek); pose proof (pow2_pos k ltac:(lia)); lia.
  - destruct (Z.ltb_spec 5 (used (ht0 (guard s)) / cap (ht0 (guard s)))) as [Hd|_];
      [|apply Hsame; by eapply rep_not_fresh]. cbv iota.
    destruct (is_rehashing (guard s)) eqn:Er.
    + exists KYLIN_ERROR_BUSY, s. split_and!; try done.
      * transitivity (ht_resize (u64 (used (ht0 (guard s)) * 2)) s); [done|].
        unfold ht_resize. step. by rewrite Er.
      * split_and!; [lia|lia|apply Hroom|done|done].
      * by eapply rep_not_fresh.
    + assert (5 < used (ht0 (guard s))).
      { pose proof (Z.div_le_upper_bound (used (ht0 (guard s))) (cap (ht0 (guard s))) 5 ltac:(lia)). nia. }
      rewrite uw_id by (unfold is_u; lia). destruct (ht_resize_ok X s ns (used (ht0 (guard s)) * 2)) as (r & s' & E & HR' & G & Ht & _); try done; [lia|].
      by exists r, s'.
Qed.

(** ** Insertion *)

(** The chains of the table insertion goes to. *)
Lemma phase_target m g ts cs0 cs1 : phase m g ts cs0 cs1 -> table (ht0 g) <> NULL ->
  let w := is_rehashing g in
  shape_ok m (ht_of w g) (if w then cs1 else cs0) /\ table (ht_of w g) ∈ ts.
Proof.
  intros Hp Ht. unfold is_rehashing.
  destruct Hp as [E0 _ _ Er|cs [H0 _] _ _ Er|r ? ? [H0 _] [H1 _] Er _ _].
  - by rewrite E0 in Ht.
  - rewrite Er. simpl. split; [done|]. clear. set_solver.
  - destruct (Z.eqb_spec (rehashidx g) (-1)); [lia|]. simpl. split; [done|]. clear. set_solver.
Qed.

Lemma phase_added m m' g ts cs0 cs1 i c x :
  let w := is_rehashing g in let h := ht_of w g in let cs := if w then cs1 else cs0 in
  phase m g ts cs0 cs1 -> owned (ts ++ addrs (concat cs0 ++ concat cs1)) -> table (ht0 g) <> NULL ->
  used h < 2 ^ 62 -> cs !! i = Some c -> shape_ok m' h (<[i := x :: c]> cs) ->
  keeps [x.1; table h] m m' -> x.1 ∉ ts ++ addrs (concat cs0 ++ concat cs1) ->
  phase m' (with_ht w g (mk_ht (table h) (cap h) (mask h) (u64 (used h + 1)))) ts
    (if w then cs0 else <[i := x :: c]> cs0) (if w then <[i := x :: c]> cs1 else cs1).
Proof.
  intros w h cs Hp Hown Ht Hu Hi Hh K Nx. subst w h cs. pose proof (own_nodup _ Hown) as Hnd.
  pose proof (concat_insert _ _ _ Hi) as (rest & P1 & P2). specialize (P2 (x :: c)).
  assert (Hl : length (concat (<[i := x :: c]> (if is_rehashing g then cs1 else cs0))) =
    S (length (concat (if is_rehashing g then cs1 else cs0)))) by (by rewrite P1, P2).
  clear P1 P2. revert Hu Hi Hh K Hl. unfold is_rehashing.
  destruct Hp as [E0 E1 Eu Er|cs [H0 U0] E1 Eu Er|r cs0 cs1 [H0 U0] [H1 U1] Er Hr He].
  - by rewrite E0 in Ht.
  - rewrite Er. simpl. intros Hu Hi Hh K Hl. set (h' := mk_ht _ _ _ _).
    apply (settled m' (with_ht false g h')); try done. split; simpl; [by apply shape_used|].
    rewrite uw_id by (unfold is_u; lia). lia.
  - destruct (Z.eqb_spec (rehashidx g) (-1)); [lia|]. simpl. intros Hu Hi Hh K Hl.
    set (h' := mk_ht _ _ _ _). apply (moving m' (with_ht true g h') r); simpl; try done; split; simpl.
    + eapply shape_other; [exact K|exact H0|]. rewrite fmap_app in Hnd, Nx. simpl in Hnd, Nx.
      apply NoDup_cons in Hnd as [Nt0 [Nt1 _]%NoDup_cons]. intros a Ha1 Ha2.
      clear - Ha1 Ha2 Nt0 Nt1 Nx. set_solver.
    + done.
    + by apply shape_used.
    + rewrite uw_id by (unfold is_u; lia). lia.
Qed.

(** [x] may be inserted: a node of its own, with a key that is not there yet. *)
Record insertable (s : st Op) (ns : list node) (x : node) : Prop := {
  ins_node : exists nx, node_at (omem s) x nx;
  ins_addr : x.1 <> NULL /\ is_u 64 x.1 /\ ~ D x.1;
  ins_key : D (key_of x);
  ins_new : lookup_key ns (key_of x) = None;
  ins_few : Z.of_nat (length ns) + 1 < 2 ^ 28;
}.

Lemma nodes_ok_insert s ns x : insertable s ns x -> nodes_ok ns -> nodes_ok (x :: ns).
Proof.
  intros [_ _ Dx Hnew Hfew] [Hk Hd _]. rewrite Forall_forall in Hk. split.
  - apply Forall_cons. split; [done|]. by apply Forall_forall.
  - assert (Hno : forall y, y ∈ ns -> eqk (key_of y) (key_of x) = false).
    { intros y Hy. apply list_elem_of_In in Hy. apply (List.find_none _ _ Hnew y Hy). }
    intros y z [->|Hy]%elem_of_cons [->|Hz]%elem_of_cons E; [done| | |by apply Hd].
    + rewrite eqk_comm, Hno in E by auto. done.
    + by rewrite Hno in E.
  - simpl. lia.
Qed.

(** The insertion proper, once the tables are in place. *)
Lemma link_new_ok X (s : st Op) ns x : rep (x.1 :: X) s ns -> insertable s ns x -> x.1 ∉ X ->
  table (ht0 (guard s)) <> NULL ->
  let w := is_rehashing (guard s) in
  exists i c s', Z.land (hashv (key_of x)) (mask (ht_of w (guard s))) = Z.of_nat i /\
    bucket w (Z.of_nat i) s = Ok (first c, s) /\
    chain_find (fuel_of s) (same_key x.1) (first c) s = Ok (NULL, s) /\
    (_ ← link_front w (Z.of_nat i) x.1; set_used w (fun u => u + 1)) s = Ok (tt, s') /\
    rep X s' (x :: ns) /\ frame X s s'.
Proof.
  intros HR Hins HxX Ht w. pose proof (nodes_ok_insert _ _ _ Hins (rep_nodes _ _ _ HR)) as Hns'.
  pose proof Hins as [[nx Hx] (Hx0 & Hxu & HxD) Dx _ _].
  pose proof HR as [Ho (ts & cs0 & cs1 & Hp & HP & Hown & HX) Hns Ha Hm].
  destruct (phase_target _ _ _ _ _ Hp Ht) as [Hh Hts]. fold w in Hh, Hts.
  set (cs := if w then cs1 else cs0) in *. set (h := ht_of w (guard s)) in *.
  assert (Nx : x.1 ∉ ts ++ addrs (concat cs0 ++ concat cs1)) by (apply HX; clear; set_solver).
  assert (Hownx : owned (x.1 :: ts ++ addrs (concat cs0 ++ concat cs1))).
  { destruct Hown as [Hn Hf]. split; [by apply NoDup_cons|by apply Forall_cons]. }
  destruct (table_bucket _ _ _ (hashv (key_of x)) Hh) as (i & c & Ei & Hi); [by apply hashv_range|].
  assert (HP' : concat cs ++ concat (if w then cs0 else cs1) ≡ₚ ns).
  { subst cs. destruct w; [|done]. by rewrite Permutation_app_comm. }
  assert (Hownc : owned (table h :: x.1 :: addrs (concat cs))).
  { destruct (list_elem_of_split ts _ Hts) as (t1 & t2 & Et).
    eapply (owned_app_r (t1 ++ t2 ++ addrs (concat (if w then cs0 else cs1)))), owned_perm; [|exact Hownx].
    rewrite Et, fmap_app. subst cs. destruct w; solve_Permutation. }
  destruct (link_front_ok s w cs i c x nx Hh Hi Hx Hxu Ei (own_nodup _ Hownc)) as (m' & E & Hh' & K).
  pose proof (nodes_few _ Hns) as Hfew. rewrite <- HP, length_app in Hfew.
  assert (Hu : used h < 2 ^ 62) by
    (unfold h; rewrite (phase_used _ _ _ _ _ w Hp); clear - Hfew; destruct w; lia).
  exists i, c. eexists. split_and!; [done|exact (bucket_ok s w cs i c Hh Hi)| | | |].
  - eapply search_new; [done|done|exact Hx|exact Hh|exact Hi| |by eapply owned_nodup_cons].
    apply (nodes_ok_app_l _ (concat (if w then cs0 else cs1))).
    apply (nodes_ok_perm (x :: ns)); [|done]. by rewrite <- HP'.
  - run E. apply set_used_eq.
  - pose proof (phase_added _ m' _ _ _ _ i c x Hp Hown Ht Hu Hi Hh' K Nx) as Hp'.
    set (cs0' := if is_rehashing (guard s) then cs0 else _) in Hp'.
    set (cs1' := if is_rehashing (guard s) then _ else cs1) in Hp'.
    assert (PA : concat cs0' ++ concat cs1' ≡ₚ x :: concat cs0 ++ concat cs1).
    { destruct (concat_insert _ _ _ Hi) as (rest & P1 & P2). specialize (P2 (x :: c)).
      subst cs0' cs1' cs w. destruct (is_rehashing (guard s)); rewrite P1, P2; solve_Permutation. }
    split; simpl.
    + by destruct w.
    + exists ts, cs0', cs1'. split_and!.
      * exact Hp'.
      * by rewrite PA, HP.
      * eapply owned_perm; [|exact Hownx]. rewrite (fmap_Permutation fst _ _ PA). simpl. solve_Permutation.
      * intros a Hin. rewrite (fmap_Permutation fst _ _ PA). specialize (HX a).
        assert (a <> x.1) by (by intros ->). clear - HX Hin H0. set_solver.
    + done.
    + eapply agree_keeps; [exact K| |done]. intros a Ha1. apply (owned_in _ a Hownc).
      clear - Ha1. set_solver.
    + by eapply mem_ok_keeps.
  - destruct K as (Kb & Ko & _ & K). split_and!; try done. intros a Hin. apply K.
    specialize (HX a). assert (a <> x.1) by (by intros ->).
    fold h. clear - Hin HX Hts H0. set_solver.
Qed.

Lemma ht_insert_raw_ok X s ns x : rep (x.1 :: X) s ns -> insertable s ns x -> x.1 ∉ X ->
  room (omem s) (2 ^ 34) -> (forall a, a ∈ X -> a < brk (omem s)) ->
  exists s', ht_insert_raw nested x.1 s = Ok (x.1, s') /\ rep X s' (x :: ns) /\ grown X s s'.
Proof.
  intros HR Hins HxX Hroom HX. pose proof Hins as [[nx Hx] Haddr Dx Hnew Hfew].
  assert (HX' : forall a, a ∈ x.1 :: X -> a < brk (omem s)).
  { intros a [->|Ha]%elem_of_cons; [|auto]. destruct Hx as [_ [Hx _]].
    pose proof (rep_mem _ _ _ HR) as [_ Hm]. apply Hm in Hx. lia. }
  destruct (expand_ok _ s ns HR Hroom HX') as (r & s1 & E1 & HR1 & G1 & Ht1).
  destruct (maybe_rehash_ok _ s1 ns HR1) as (s2 & E2 & HR2 & F2 & Ht2). specialize (Ht2 Ht1).
  assert (Hins2 : insertable s2 ns x).
  { split; try done. exists nx. eapply node_at_same; [|exact Hx].
    destruct G1 as (_ & _ & _ & G1), F2 as (_ & _ & _ & F2). unfold same_at.
    rewrite F2, G1 by (clear; set_solver). done. }
  destruct (link_new_ok X s2 ns x HR2 Hins2 HxX Ht2) as (i & c & s3 & Ei & Eb & Ec & El & HR3 & F3).
  exists s3. split; [|split; [done|]].
  - unfold ht_insert_raw. run E1. run E2. step. set (w := is_rehashing (guard s2)) in *.
    assert (Hw : table (ht_of w (guard s2)) <> NULL).
    { destruct HR2 as [_ (ts & cs0 & cs1 & Hp & _ & Hown & _) _ _ _].
      destruct (phase_target _ _ _ _ _ Hp Ht2) as [_ Hts]. fold w in Hts.
      eapply (owned_in _ _ Hown). clear - Hts. set_solver. }
    rewrite (proj2 (Z.eqb_neq _ _) Hw). destruct (ins_node _ _ _ Hins2) as [nx2 Hx2].
    run (node_hash_ok s2 (rep_opts _ _ _ HR2) (rep_agree _ _ _ HR2) x nx2 Hx2 Dx).
    cbv zeta. rewrite Ei. run Eb. step. run Ec. rewrite Z.eqb_refl. cbn [negb].
    destruct (bind_Ok_inv _ _ _ _ El) as (u & s' & El1 & El2). run El1. by run El2.
  - destruct G1 as (Gb & Go & Gk & Gs), F2 as (Fb & Fo & Fk & Fs), F3 as (Hb & Ho' & Hk & Hs).
    split_and!; try congruence; try lia. intros a Ha. unfold same_at.
    rewrite Hs, Fs, Gs by (done || by apply elem_of_cons; right). done.
Qed.

(** ** Other changes of the heap *)

Lemma phase_same m m' g ts cs0 cs1 : phase m g ts cs0 cs1 ->
  (forall a, a ∈ ts ++ addrs (concat cs0 ++ concat cs1) -> same_at m m' a) -> phase m' g ts cs0 cs1.
Proof.
  intros Hp Hs. destruct Hp as [E0 E1 Eu Er|cs [H0 U0] E1 Eu Er|r cs0 cs1 [H0 U0] [H1 U1] Er Hr He].
  - by apply fresh.
  - apply settled; try done. split; [|done]. eapply shape_same; [|exact H0]. intros a Ha. apply Hs.
    rewrite fmap_app. clear - Ha. set_solver.
  - apply (moving m' g r); try done; (split; [|done]).
    + eapply shape_same; [|exact H0]. intros a Ha. apply Hs. rewrite fmap_app. clear - Ha. set_solver.
    + eapply shape_same; [|exact H1]. intros a Ha. apply Hs. rewrite fmap_app. clear - Ha. set_solver.
Qed.

(** The caller's own objects [X'] change: the table does not. *)
Lemma rep_with_mem (X X' : list Z) s ns m' : rep X s ns -> mem_ok m' -> (forall a, a ∈ X' -> a ∈ X /\ ~ D a) ->
  (forall a, is_Some (blocks (omem s) !! a) -> a ∉ X' -> same_at (omem s) m' a) ->
  rep X (with_mem s m') ns.
Proof.
  intros [Ho (ts & cs0 & cs1 & Hp & HP & Hown & HX) Hns Ha Hm] Hm' HX' Hs. split; simpl; try done.
  - exists ts, cs0, cs1. split_and!; try done. eapply phase_same; [exact Hp|]. intros a Hin.
    apply Hs; [by eapply phase_live|]. intros Hin'. by apply HX' in Hin' as [Hin' _]; apply (HX a).
  - intros a Da. unfold same_at. rewrite Hs; [by apply Ha| |].
    + rewrite (Ha _ Da). by apply (km_live _ _ _ _ _ KM).
    + intros Hin'. by apply HX' in Hin' as [_ ?].
Qed.

Lemma rep_add_spare X s ns a : rep X s ns -> blocks (omem s) !! a = None -> rep (a :: X) s ns.
Proof.
  intros [Ho (ts & cs0 & cs1 & Hp & HP & Hown & HX) Hns Ha Hm] Hn. split; try done.
  exists ts, cs0, cs1. split_and!; try done. intros b [->|Hb]%elem_of_cons; [|by apply HX].
  intros Hin. destruct (phase_live _ _ _ _ _ _ Hp Hin) as [bs Hbs]. congruence.
Qed.

(** A new object of the caller, and what it may write there. *)
Lemma rep_alloc X s ns n k m2 : rep X s ns -> room (omem s) k -> 0 <= n -> Z.max 16 n <= k ->
  let a := brk (omem s) in
  let m1 := mk_mem (<[a := replicate (Z.to_nat n) 0]> (blocks (omem s))) (a + Z.max 16 n) [] in
  keeps [a] m1 m2 ->
  kylin_malloc n (omem s) = Ok (a, m1) /\ a <> NULL /\ is_u 64 a /\ ~ D a /\
  rep (a :: X) (with_mem s m2) ns.
Proof.
  intros HR Hroom Hn Hk a m1 K. pose proof (rep_mem _ _ _ HR) as Hm. pose proof Hm as [Hb Hlive].
  pose proof (mem_ok_fresh _ Hm) as Hfresh. fold a in Hfresh.
  assert (HnD : ~ D a).
  { intros Da. pose proof (rep_agree _ _ _ HR a Da) as Ea. unfold same_at in Ea. rewrite Hfresh in Ea.
    destruct (km_live _ _ _ _ _ KM _ Da) as [bs Hbs]. congruence. }
  split_and!; [by apply (malloc_room _ _ k)|unfold NULL, a; lia|unfold is_u, a; lia|done|].
  apply (rep_with_mem (a :: X) [a]).
  - by apply rep_add_spare.
  - eapply mem_ok_keeps; [exact K|]. apply malloc_mem_ok; [done|destruct Hroom; lia].
  - intros b ->%list_elem_of_singleton. split; [by apply elem_of_cons; left|done].
  - intros b [bs Hl] Hne. destruct K as (_ & _ & _ & K). unfold same_at. rewrite K by done.
    simpl. apply lookup_insert_ne. congruence.
Qed.

Lemma rep_drop_spare X X' s ns : rep X s ns -> (forall a, a ∈ X' -> a ∈ X) -> rep X' s ns.
Proof.
  intros [Ho (ts & cs0 & cs1 & Hp & HP & Hown & HX) Hns Ha Hm] HX'. split; try done.
  exists ts, cs0, cs1. split_and!; auto.
Qed.

Lemma ht_count_ok X s ns : rep X s ns -> ht_count s = Ok (Z.of_nat (length ns), s).
Proof.
  intros [_ (ts & cs0 & cs1 & Hp & HP & _ & _) Hns _ _]. unfold ht_count. step.
  pose proof (phase_used _ _ _ _ _ false Hp) as U0. pose proof (phase_used _ _ _ _ _ true Hp) as U1.
  simpl in U0, U1. pose proof (nodes_few _ Hns) as Hf. rewrite <- HP, length_app in *.
  rewrite U0, U1, uw_id by (unfold is_u; lia). unfold mret, M_ret. do 2 f_equal. lia.
Qed.

(** A table that has just been created. *)
Lemma rep_create m e :
  agree D m0 m -> mem_ok m -> rep [] (mk_st (mk_hguard o kmath_ht_reset kmath_ht_reset (-1)) m e) [].
Proof.
  intros Ha Hm. split; try done.
  - exists [], [], []. split_and!; try done; [by apply fresh|split; constructor|].
    intros a Hin. by apply elem_of_nil in Hin.
  - split; [by apply Forall_nil| |done]. intros x y Hx. by apply elem_of_nil in Hx.
Qed.

Lemma ht_create_ok sizeof k : mem_ok m0 -> room m0 k -> 16 <= sizeof <= k ->
  exists m, ht_create sizeof o (kmath_ht_reset, kmath_ht_reset) m0 =
      (Some (mk_hguard o kmath_ht_reset kmath_ht_reset (-1)), m, None) /\
    rep [] (mk_st (mk_hguard o kmath_ht_reset kmath_ht_reset (-1)) m None) [] /\
    room m (k - sizeof).
Proof.
  intros [Hb Hlive] [Ho Hk] Hs. exists (mk_mem (blocks m0) (brk m0 + sizeof) []).
  unfold ht_create, alloc_addr. rewrite Ho, Z.max_r by lia.
  rewrite (proj2 (Z.ltb_lt (brk m0 + sizeof) _)) by lia. split_and!; [done| |split; simpl; [done|lia]].
  apply rep_create; [done|]. split; simpl; [lia|]. intros a bs Ha. apply Hlive in Ha. lia.
Qed.

Lemma rep_perm X s ns ns' : ns ≡ₚ ns' -> rep X s ns -> rep X s ns'.
Proof.
  intros P [Ho (ts & cs0 & cs1 & Hp & HP & Hown & HX) Hns Ha Hm]. split; try done.
  - exists ts, cs0, cs1. split_and!; try done. by rewrite HP.
  - by eapply nodes_ok_perm.
Qed.

Lemma rep_addrs X s ns : rep X s ns -> NoDup (addrs ns) /\ forall a, a ∈ X -> a ∉ addrs ns.
Proof.
  intros [_ (ts & cs0 & cs1 & _ & HP & Hown & HX) _ _ _]. split.
  - rewrite <- (fmap_Permutation fst _ _ HP). apply owned_app_r in Hown. apply Hown.
  - intros a Ha Hin. apply (HX a Ha), elem_of_app. right. by rewrite (fmap_Permutation fst _ _ HP).
Qed.

Lemma rep_owned X s ns x : rep X s ns -> x ∈ ns -> x.1 <> NULL /\ is_u 64 x.1 /\ ~ D x.1.
Proof.
  intros [_ (ts & cs0 & cs1 & _ & HP & Hown & _) _ _ _] Hx. apply (owned_in _ x.1 Hown), elem_of_app. right.
  rewrite (fmap_Permutation fst _ _ HP). apply list_elem_of_fmap. eauto.
Qed.

(** What is left when the node with the key is taken out. *)
Lemma remove_filter ns ns' key x : nodes_ok ns -> D key -> lookup_key ns key = Some x ->
  ns ≡ₚ x :: ns' -> x.1 ∉ addrs ns' ->
  List.filter (fun y => negb (eqk (key_of y) key)) ns ≡ₚ ns'.
Proof.
  intros Hns Dk Hl P Hx. apply lookup_key_Some in Hl as [Hin Ex]; [|done..].
  pose proof (nodes_keys _ Hns) as Hk. rewrite Forall_forall in Hk.
  assert (E : List.filter (fun y => negb (eqk (key_of y) key)) (x :: ns') = ns').
  { simpl. rewrite Ex. simpl. apply List.forallb_filter_id, List.forallb_forall. intros y Hy.
    apply list_elem_of_In in Hy. destruct (eqk (key_of y) key) eqn:Ey; [|done]. exfalso. apply Hx.
    assert (Hyn : y ∈ ns) by (rewrite P; by apply elem_of_cons; right).
    assert (y = x) as ->; [|apply list_elem_of_fmap; eauto].
    apply (nodes_distinct _ Hns); [done..|]. apply (km_trans _ _ _ _ _ KM _ key); auto.
    apply (km_sym _ _ _ _ _ KM); auto. }
  transitivity (List.filter (fun y => negb (eqk (key_of y) key)) (x :: ns')); [|by rewrite E].
  revert P. generalize (x :: ns') as l. clear. intros l P. induction P; simpl in *; try done.
  - destruct (negb _); [by constructor|done].
  - destruct (negb _), (negb _); try done. apply perm_swap.
  - by etransitivity; [exact IHP1|exact IHP2].
Qed.

(** A node that was taken out is freed. *)
Lemma rep_removed s s1 ns ns' key x : rep [] s ns -> D key -> lookup_key ns key = Some x ->
  ns ≡ₚ x :: ns' -> rep [x.1] s1 ns' ->
  rep [] (with_mem s1 (mk_mem (delete x.1 (blocks (omem s1))) (brk (omem s1)) (oom (omem s1))))
    (List.filter (fun y => negb (eqk (key_of y) key)) ns).
Proof.
  intros HR Dk Ek P HR1. pose proof (rep_nodes _ _ _ HR) as Hns.
  pose proof Ek as Ek'. apply lookup_key_Some in Ek' as [Hin _]; [|done..].
  destruct (rep_owned _ _ _ _ HR Hin) as (_ & _ & HxD).
  eapply (rep_perm _ _ ns').
  { symmetry. eapply remove_filter; try done. apply rep_addrs in HR1 as [_ HR1]. apply HR1.
    by apply elem_of_cons; left. }
  eapply (rep_drop_spare [x.1]); [|by intros a Ha%elem_of_nil].
  eapply (rep_with_mem [x.1] [x.1]); [done| | |].
  - apply mem_ok_delete, HR1.
  - by intros a ->%list_elem_of_singleton; split; [apply list_elem_of_singleton|].
  - intros a _ Ha. apply same_at_delete. by rewrite list_elem_of_singleton in Ha.
Qed.
End Model.

(** ** Keys of one byte

    An instance of [key_model]: the keys are live objects, hashed and compared
    by their first byte. *)
Definition key_byte (m : mem) (a : Z) : Z :=
  match blocks m !! a with Some (b :: _) => b | _ => 0 end.
Definition byte_hash (m : mem) (p : vptr Z) : Z :=
  match p with PObj a => key_byte m a | PSlot _ => 0 end.
Definition byte_cmp (m : mem) (a b : Z) : Z := key_byte m a - key_byte m b.
Definition byte_eq (m : mem) (a b : Z) : bool := key_byte m a - key_byte m b =? 0.

Lemma byte_keys {Op} `{HashNode Op} m0 (o : Op) :
  hash o = byte_hash -> compare o = byte_cmp -> kobj_code KOBJ_NORMAL <= kobj_code (key_type o) ->
  key_model m0 o (fun a => is_Some (blocks m0 !! a)) (fun a => u64 (key_byte m0 a)) (byte_eq m0).
Proof.
  intros Eh Ec Ht.
  assert (Hb : forall m a, agree (fun a => is_Some (blocks m0 !! a)) m0 m -> is_Some (blocks m0 !! a) ->
    key_byte m a = key_byte m0 a) by (intros m a Ha Da; unfold key_byte; by rewrite (Ha a Da)).
  split; rewrite ?Eh, ?Ec; unfold byte_hash, byte_cmp, byte_eq; try done.
  - intros m a Ha Da. by rewrite (Hb m a).
  - intros m a b Ha Da Db. by rewrite (Hb m a), (Hb m b).
  - intros. apply Z.eqb_eq. lia.
  - intros a b _ _ E. apply Z.eqb_eq in E. apply Z.eqb_eq. lia.
  - intros a b c _ _ _ E1 E2. apply Z.eqb_eq in E1, E2. apply Z.eqb_eq. lia.
  - intros a b _ _ E. apply Z.eqb_eq in E. f_equal. lia.
Qed.
