(* ===== verification/Index.v ===== *)
(** * The hash index ([lib/core/math/kylin_index.c])

    [HashNode] for the two-word nodes of the index, the value being the key,
    and the functions of the file over [Htable]. *)

From S2P Require Import Prelude Errors Bytes Bitops Mem MathVal Htable HtRep.

Record kindex_opts_t := mk_kindex_opts {
  priv : Z;
  val_type : kobj_t;
  val_size : Z;
  hash_fn : mem -> vptr Z -> Z;
  compare_fn : cmp_fn;
  val_ctor : option (Z -> M mem Z);
  val_dtor : option (Z -> M mem unit);
  node_ctor : option (Z -> M mem Z);
  node_dtor : option (Z -> M mem unit);
  (** the two tables of a guard from [guard_ctor]; reset ones otherwise *)
  guard_init : ht_t * ht_t;
}.

Definition INDEX_VAL_FREE (o : kindex_opts_t) : Z -> M mem unit := default kylin_free (val_dtor o).
Definition INDEX_NODE_MALLOC (o : kindex_opts_t) : Z -> M mem Z := default kylin_malloc (node_ctor o).
Definition INDEX_NODE_FREE (o : kindex_opts_t) : Z -> M mem unit := default kylin_free (node_dtor o).

Definition VAL : nat := 0.
Definition sizeof_node : Z := 16.

(** [kmath_val_dtor(&node->val, ...)]: the value of an integer type is not read. *)
Definition val_destroy (nested : nested_dtors) (o : kindex_opts_t) (node : Z) : M mem unit :=
  match int_type (val_type o) with
  | Some _ => mret tt
  | None => v ← read_word node VAL; kmath_val_dtor nested v (val_type o) (Some (INDEX_VAL_FREE o))
  end.

Definition node_destroy (nested : nested_dtors) (o : kindex_opts_t) (node : Z) : M mem unit :=
  _ ← val_destroy nested o node; INDEX_NODE_FREE o node.

#[export] Instance index_node : HashNode kindex_opts_t.
Proof.
  refine {|
    key_word := VAL; next_word := 1; node_words := 2;
    key_type := val_type; hash := hash_fn; compare := compare_fn;
    free_node := node_destroy |}.
  by split_and!; [apply Nat.ltb_lt|apply Nat.ltb_lt|].
Defined.

Abbreviation st := (Htable.st kindex_opts_t).
Abbreviation kindex_t := (hguard kindex_opts_t).

Definition sizeof_guard : Z := 200.
Definition kylin_index_create (o : kindex_opts_t) (m : mem) : option kindex_t * mem * option kerr_t :=
  ht_create sizeof_guard o (guard_init o) m.

Definition opts : M st kindex_opts_t := g ← get_guard; mret (g_opts g).
Definition kylin_index_priv : M st Z := o ← opts; mret (priv o).
Definition kylin_index_val_type : M st kobj_t := o ← opts; mret (val_type o).
Definition kylin_index_val_size : M st Z := o ← opts; mret (val_size o).
Definition kylin_index_val (node : Z) : M st (vptr Z) :=
  o ← opts; v ← KEY node; mret (kmath_val_get node v (val_type o)).

Definition kylin_index_count : M st Z := ht_count.
Definition kylin_index_resize (count : Z) : M st kerr_t := ht_resize count.
Definition kylin_index_find (val : Z) : M st Z := ht_find val.
Definition kylin_index_first : M st Z := ht_first.
Definition kylin_index_last : M st Z := ht_last.
Definition kylin_index_next (node : Z) : M st Z := ht_next node.
Definition kylin_index_prev (node : Z) : M st Z := ht_prev node.

(** A pointer as an address: the value is the first field of its node. *)
Definition vptr_addr (p : vptr Z) : Z := match p with PSlot n => n | PObj a => a end.

Section Destructors.
Context (nested : nested_dtors).

Definition _index_rehash (step : nat) : M st unit := _ht_rehash nested step.

Definition kylin_index_clear : M st unit := ht_clear_both nested.
(** What is destroyed with the guard, which is then freed. *)
Definition kylin_index_destroy : M st unit := ht_destroy nested.
Definition kylin_index_insert_raw (node : Z) : M st Z := ht_insert_raw nested node.
Definition kylin_index_unlink_raw (node : Z) : M st Z := ht_unlink_raw nested node.

(** The node is freed, its value returned. *)
Definition kylin_index_unlink (val : Z) : M st (vptr Z) :=
  cmp ← ht_unlink nested val;
  if cmp =? NULL then mret (PObj NULL) else
  o ← opts; v ← KEY cmp;
  _ ← on_mem (INDEX_NODE_FREE o cmp);
  mret (kmath_val_get cmp v (val_type o)).

Definition kylin_index_remove_raw (cmp : Z) : M st kerr_t :=
  node ← kylin_index_unlink_raw cmp;
  if node =? NULL then mret KYLIN_ERROR_NODATA else
  _ ← destroy_node nested node; mret KYLIN_ERROR_OK.

(** The value pointer of [kylin_index_unlink] is taken for a node. *)
Definition kylin_index_remove (cmp : Z) : M st kerr_t :=
  node ← kylin_index_unlink cmp;
  if vptr_addr node =? NULL then mret KYLIN_ERROR_NODATA else
  _ ← destroy_node nested (vptr_addr node); mret KYLIN_ERROR_OK.

(** When [insert_raw] fails, the NULL it returned is destroyed. *)
Definition kylin_index_insert (val : Z) : M st (vptr Z) :=
  o ← opts;
  node ← on_mem (INDEX_NODE_MALLOC o sizeof_node);
  if node =? NULL then _ ← set_kerrno KYLIN_ERROR_NOMEM; mret (PObj NULL) else
  v ← on_mem (kmath_val_ctor val (val_type o) (val_size o) (val_ctor o));
  _ ← on_mem (write_word node VAL v);
  node ← kylin_index_insert_raw node;
  if node =? NULL then _ ← destroy_node nested node; mret (PObj NULL) else
  kylin_index_val node.

Definition kylin_index_replace (val : Z) : M st Z :=
  cmp ← ht_find_for_replace nested val;
  if cmp =? NULL then mret NULL else
  o ← opts;
  _ ← on_mem (val_destroy nested o cmp);
  v ← on_mem (kmath_val_ctor val (val_type o) (val_size o) (val_ctor o));
  _ ← on_mem (write_word cmp VAL v);
  mret cmp.
End Destructors.

(** ** The index as a set of values

    An index that borrows its values: object pointers kept as they are. *)
Record borrowing (o : kindex_opts_t) : Prop := {
  bo_type : kobj_code KOBJ_NORMAL <= kobj_code (val_type o);
  bo_plain : val_type o <> KOBJ_KMAP /\ val_type o <> KOBJ_KSET /\ val_type o <> KOBJ_KSTR;
  bo_val_ctor : val_ctor o = None;
  bo_val_dtor : val_dtor o = Some (fun _ => mret tt);
  bo_node_ctor : node_ctor o = None;
  bo_node_dtor : node_dtor o = None;
}.

Section Refinement.
Context (m0 : mem) (o : kindex_opts_t) (D : Z -> Prop) (hashv : Z -> Z) (eqk : Z -> Z -> bool).
Context (KM : key_model m0 o D hashv eqk) (BO : borrowing o) (nested : nested_dtors).
#[local] Set Default Proof Using "All".

Abbreviation repr := (rep m0 o D hashv eqk).
Abbreviation at_key ns key := (lookup_key eqk ns key).

Lemma ctor_plain v size : kmath_val_ctor v (val_type o) size None = mret v.
Proof. pose proof (bo_type _ BO) as E. by destruct (val_type o). Qed.

Lemma dtor_plain v : kmath_val_dtor nested v (val_type o) (Some (INDEX_VAL_FREE o)) = mret tt.
Proof.
  unfold INDEX_VAL_FREE. rewrite (bo_val_dtor _ BO). pose proof (bo_type _ BO) as E.
  destruct (bo_plain _ BO) as (N1 & N2 & N3). by destruct (val_type o).
Qed.

Lemma get_plain {I} (i : I) v : kmath_val_get i v (val_type o) = PObj v.
Proof. pose proof (bo_type _ BO) as E. by destruct (val_type o). Qed.

Lemma index_val_ok s x nx : g_opts (guard s) = o -> node_at (omem s) x nx ->
  kylin_index_val x.1 s = Ok (PObj (key_of x), s).
Proof.
  intros Ho Hx. unfold kylin_index_val, opts. step. run (KEY_ok s x nx Hx). by rewrite Ho, get_plain.
Qed.

(** Insertion of a value that is not there: a node of its own for it. *)
Lemma index_insert_ok s ns val : repr [] s ns -> D val -> is_u 64 val -> at_key ns val = None ->
  Z.of_nat (length ns) + 1 < 2 ^ 28 -> room (omem s) (2 ^ 35) ->
  exists n s', kylin_index_insert nested val s = Ok (PObj val, s') /\
    repr [] s' ((n, [val; 0]) :: ns) /\
    brk (omem s') <= brk (omem s) + 2 ^ 35 /\ oom (omem s') = [].
Proof.
  intros HR Dv Hv Hnew Hlen Hroom. pose proof (rep_opts _ _ _ _ _ _ _ _ HR) as Ho.
  set (n := brk (omem s)). set (x := (n, [val; 0]) : node).
  set (m1 := mk_mem (<[n := replicate (Z.to_nat 16) 0]> (blocks (omem s))) (n + Z.max 16 16) []).
  assert (W1 : words_at m1 n [0; 0]).
  { split; [simpl; by rewrite lookup_insert_eq|]. by repeat constructor. }
  destruct (set_field (S := st) _ _ _ VAL val W1) as (m2 & E2 & W2 & K2); [by apply Nat.ltb_lt|done|].
  destruct (rep_alloc _ _ _ _ _ KM nested [] s ns 16 _ m2 HR Hroom) as (Em & Hn & Hnu & HnD & HR2);
    [lia|lia|exact K2|]. fold n in Em, Hn, Hnu, HnD, HR2. fold m1 in Em.
  assert (Hins : insertable D eqk (with_mem s m2) ns x).
  { split; try done. exists 0. split; [done|]. exact W2. }
  destruct K2 as (Kb & Ko & _). simpl in Kb, Ko.
  destruct (ht_insert_raw_ok _ _ _ _ _ KM nested [] _ ns x HR2 Hins) as (s' & E & HR' & G).
  - by apply not_elem_of_nil.
  - destruct Hroom as [_ Hroom]. split; simpl; [done|]. rewrite Kb. unfold n. lia.
  - intros a Ha. by apply elem_of_nil in Ha.
  - exists n, s'. destruct G as (Gb & Go & _). simpl in Gb. rewrite Kb in Gb.
    change (brk (omem s)) with n.
    split_and!; try done; [|lia].
    unfold kylin_index_insert, opts. step. rewrite Ho. unfold INDEX_NODE_MALLOC. rewrite (bo_node_ctor _ BO).
    simpl default. erewrite bind_Ok by (apply on_mem_ok, Em). cbv beta.
    rewrite (proj2 (Z.eqb_neq _ _) Hn). rewrite (bo_val_ctor _ BO), ctor_plain.
    erewrite bind_Ok by (by apply on_mem_pure). cbv beta. erewrite bind_Ok by (by apply E2). cbv beta.
    rewrite with_mem_with. run E. change (x.1) with n. rewrite (proj2 (Z.eqb_neq _ _) Hn).
    destruct (rep_node _ _ _ _ _ KM nested _ _ _ x HR') as [nx Hx]; [by apply elem_of_cons; left|].
    change n with (x.1). rewrite (index_val_ok s' x nx); [done|apply HR'|done].
Qed.

(** Removal: the value comes back, its node is freed. *)
Lemma index_unlink_ok s ns val : repr [] s ns -> D val ->
  exists s', kylin_index_unlink nested val s =
      Ok (PObj match at_key ns val with Some x => key_of x | None => NULL end, s') /\
    repr [] s' (List.filter (fun y => negb (eqk (key_of y) val)) ns) /\
    brk (omem s') = brk (omem s) /\ oom (omem s') = oom (omem s).
Proof.
  intros HR Dv. unfold kylin_index_unlink.
  pose proof (ht_unlink_ok _ _ _ _ _ KM nested [] s ns val HR Dv) as HU.
  destruct (at_key ns val) as [x|] eqn:Ek.
  - destruct HU as (s1 & ns' & nx & E & P & HR1 & (Fb & Fo & _) & Hx).
    pose proof (rep_nodes _ _ _ _ _ _ _ _ HR) as Hns.
    pose proof Ek as Ek'. apply (lookup_key_Some _ _ _ _ _ KM nested) in Ek' as [Hin _]; [|done..].
    destruct (rep_owned _ _ _ _ _ KM nested _ _ _ _ HR Hin) as (Hx0 & _ & HxD).
    exists (with_mem s1 (mk_mem (delete x.1 (blocks (omem s1))) (brk (omem s1)) (oom (omem s1)))).
    split_and!; try done.
    + run E. rewrite (proj2 (Z.eqb_neq _ _) Hx0). unfold opts. step. run (KEY_ok s1 x nx Hx).
      rewrite (rep_opts _ _ _ _ _ _ _ _ HR1). unfold INDEX_NODE_FREE. rewrite (bo_node_dtor _ BO).
      simpl default. erewrite bind_Ok by (apply on_mem_ok, free_live; [done|]; destruct Hx as [_ Hx];
        by eapply words_at_live). by rewrite get_plain.
    + by eapply (rep_removed _ _ _ _ _ KM nested).
  - destruct HU as (s1 & E & HR1 & (Fb & Fo & _)). exists s1. split_and!; try done; [by run E|].
    assert (List.filter (fun y => negb (eqk (key_of y) val)) ns = ns) as ->; [|done].
    apply List.forallb_filter_id, List.forallb_forall. intros y Hy.
    by rewrite (List.find_none _ _ Ek y Hy).
Qed.
End Refinement.

(** The calls of a client, and what it sees of them. *)
Inductive index_op :=
| Insert (val : Z)
| Find (val : Z)
| Unlink (val : Z)
| Count.

Inductive index_res :=
| RValue (v : vptr Z)
| RFound (b : bool)
| RCount (n : Z).

Definition run_op (nested : nested_dtors) (op : index_op) : M st index_res :=
  match op with
  | Insert val => v ← kylin_index_insert nested val; mret (RValue v)
  | Find val => n ← kylin_index_find val; mret (RFound (negb (n =? NULL)))
  | Unlink val => v ← kylin_index_unlink nested val; mret (RValue v)
  | Count => n ← kylin_index_count; mret (RCount n)
  end.

(** The specification: a list of values, no two of them equal.  Inserting a value
    equal to one that is there is outside of it. *)
Definition spec_find (eqk : Z -> Z -> bool) (l : list Z) (val : Z) : option Z :=
  List.find (fun v => eqk v val) l.

Definition spec_op (eqk : Z -> Z -> bool) (l : list Z) (op : index_op) : option (index_res * list Z) :=
  match op with
  | Insert val =>
      match spec_find eqk l val with None => Some (RValue (PObj val), val :: l) | Some _ => None end
  | Find val => Some (RFound (bool_decide (is_Some (spec_find eqk l val))), l)
  | Unlink val =>
      Some (RValue (PObj (default NULL (spec_find eqk l val))),
            List.filter (fun v => negb (eqk v val)) l)
  | Count => Some (RCount (Z.of_nat (length l)), l)
  end.

Definition op_ok (D : Z -> Prop) (op : index_op) : Prop :=
  match op with
  | Insert val => D val /\ is_u 64 val
  | Find val | Unlink val => D val
  | Count => True
  end.

Section Simulation.
Context (m0 : mem) (o : kindex_opts_t) (D : Z -> Prop) (hashv : Z -> Z) (eqk : Z -> Z -> bool).
Context (KM : key_model m0 o D hashv eqk) (BO : borrowing o) (nested : nested_dtors).
#[local] Set Default Proof Using "All".

Definition holds (s : st) (l : list Z) : Prop :=
  exists ns, rep m0 o D hashv eqk [] s ns /\ l = map key_of ns.

Lemma spec_find_keys ns val : spec_find eqk (map key_of ns) val = key_of <$> lookup_key eqk ns val.
Proof.
  induction ns as [|x ns IH]; [done|]. unfold spec_find, lookup_key in *. simpl.
  by destruct (eqk (key_of x) val).
Qed.

Lemma filter_keys ns val : List.filter (fun v => negb (eqk v val)) (map key_of ns) =
  map key_of (List.filter (fun y => negb (eqk (key_of y) val)) ns).
Proof.
  induction ns as [|x ns IH]; [done|]. simpl. destruct (eqk (key_of x) val); simpl; by rewrite IH.
Qed.

Lemma index_call_ok s l op r l' : holds s l -> op_ok D op -> spec_op eqk l op = Some (r, l') ->
  Z.of_nat (length l) + 1 < 2 ^ 28 -> room (omem s) (2 ^ 35) ->
  exists s', run_op nested op s = Ok (r, s') /\ holds s' l' /\
    brk (omem s') <= brk (omem s) + 2 ^ 35 /\ oom (omem s') = [] /\ (length l' <= S (length l))%nat.
Proof.
  intros (ns & HR & ->) Hok Hs Hlen Hroom. rewrite length_map in Hlen.
  destruct op as [val|val|val|]; simpl in Hok, Hs; rewrite ?spec_find_keys in Hs.
  - destruct Hok as (Dv & Hv). destruct (lookup_key eqk ns val) eqn:E; simpl in Hs; simplify_eq.
    destruct (index_insert_ok _ _ _ _ _ KM BO nested s ns val HR Dv Hv E Hlen Hroom)
      as (n & s' & Ei & HR' & Hb & Ho).
    exists s'. split_and!; [simpl; by run Ei|by eexists|done|done|simpl; lia].
  - simplify_eq. exists s. split_and!; [|by exists ns|lia|apply Hroom|lia].
    simpl. unfold kylin_index_find. run (ht_find_ok _ _ _ _ _ KM nested [] s ns val HR Hok).
    destruct (lookup_key eqk ns val) as [x|] eqn:E; [|done]. cbn [addr_or_null].
    apply (lookup_key_Some _ _ _ _ _ KM nested) in E as [Hx _]; [|apply HR|done].
    destruct (rep_owned _ _ _ _ _ KM nested _ _ _ _ HR Hx) as (Hx0 & _ & _).
    by rewrite (proj2 (Z.eqb_neq _ _) Hx0).
  - destruct (index_unlink_ok _ _ _ _ _ KM BO nested s ns val HR Hok) as (s' & E & HR' & Hb & Ho).
    simplify_eq. exists s'. rewrite Hb, Ho, filter_keys. split_and!; [|by eexists|lia|apply Hroom|].
    + simpl. run E. by destruct (lookup_key eqk ns val).
    + rewrite !length_map. etransitivity; [apply List.filter_length_le|]. lia.
  - simplify_eq. exists s. split_and!; [|by exists ns|lia|apply Hroom|lia].
    simpl. unfold kylin_index_count. rewrite (bind_Ok _ _ _ _ _ (ht_count_ok _ _ _ _ _ KM nested _ _ _ HR)).
    by rewrite length_map.
Qed.

(** With room and numbers for [n] more calls. *)
Definition holds_for (n : nat) (s : st) l : Prop :=
  holds s l /\ Z.of_nat (length l) + Z.of_nat n < 2 ^ 28 /\ room (omem s) (Z.of_nat n * 2 ^ 35).

Lemma index_call_for n s l op r l' : holds_for (S n) s l -> op_ok D op -> spec_op eqk l op = Some (r, l') ->
  exists s', run_op nested op s = Ok (r, s') /\ holds_for n s' l'.
Proof.
  intros (Hh & Hlen & Ho & Hroom) Hop E.
  destruct (index_call_ok s l op r l' Hh Hop E) as (s' & E1 & H1 & Hb & Ho1 & Hl); [lia|split; [done|lia]|].
  exists s'. split; [done|]. split_and!; [done|lia|split; [done|lia]].
Qed.
End Simulation.

(** ** Properties *)

(** C2. The index is a set of values: from [kylin_index_create] on, for any
    sequence of insertions of new values, searches, removals by
    [kylin_index_unlink] and counts, with values that compare and hash
    consistently, every call returns what it does on a list of values, through
    every expansion and step of the migration. *)
Theorem index_refines_set m0 o D hashv eqk nested ops rs :
  key_model m0 o D hashv eqk -> borrowing o -> guard_init o = (kmath_ht_reset, kmath_ht_reset) ->
  mem_ok m0 -> room m0 ((Z.of_nat (length ops) + 1) * 2 ^ 35) ->
  Forall (op_ok D) ops -> spec_all (spec_op eqk) [] ops = Some rs ->
  exists g m s', kylin_index_create o m0 = (Some g, m, None) /\
    run_all (run_op nested) ops (mk_st g m None) = Ok (rs, s').
Proof.
  intros KM BO Hg Hm Hroom Hok Hs.
  destruct (ht_create_ok _ _ _ _ _ KM nested sizeof_guard _ Hm Hroom) as (m & Ec & HR & Ho & Hr);
    [unfold sizeof_guard; lia|].
  eexists _, m. unfold kylin_index_create. rewrite Hg, Ec.
  destruct (simulation (run_op nested) (spec_op eqk) (holds_for m0 o D hashv eqk) (op_ok D))
    with (calls := ops) (3 := Hok) (4 := Hs) (s := mk_st (mk_hguard o kmath_ht_reset kmath_ht_reset (-1)) m None)
    as (s' & E); [by apply index_call_for| |by exists s'].
  split; [by exists []|]. unfold sizeof_guard in Hr. pose proof (rep_mem _ _ _ _ _ _ _ _ HR) as [Hb _].
  simpl in Hb. split; [simpl; lia|]. split; [done|simpl; lia].
Qed.

(** Fourteen values: enough for an expansion and the migration after it. *)
Definition sample_mem : mem :=
  mk_mem (list_to_map (map (fun i => (16 * Z.of_nat i, [Z.of_nat i])) (seq 1 14))) 256 [].
Definition sample_opts : kindex_opts_t :=
  mk_kindex_opts 0 KOBJ_STRING 1 byte_hash byte_cmp None (Some (fun _ => mret tt)) None None
    (kmath_ht_reset, kmath_ht_reset).
Definition sample_ops : list index_op :=
  map (fun i => Insert (16 * Z.of_nat i)) (seq 1 14) ++ [Find 48; Unlink 48; Find 48; Unlink 48; Count; Find 224].
Definition sample_nested : nested_dtors := mk_nested_dtors (fun _ => ub) (fun _ => ub) (fun _ => ub).

Lemma index_refines_set_witness :
  exists g m s', kylin_index_create sample_opts sample_mem = (Some g, m, None) /\
    run_all (run_op sample_nested) sample_ops (mk_st g m None) =
      Ok (map (fun i => RValue (PObj (16 * Z.of_nat i))) (seq 1 14) ++
            [RFound true; RValue (PObj 48); RFound false; RValue (PObj NULL); RCount 13; RFound true], s').
Proof.
  apply (index_refines_set sample_mem sample_opts (fun a => is_Some (blocks sample_mem !! a))
    (fun a => u64 (key_byte sample_mem a)) (byte_eq sample_mem)).
  - by apply byte_keys.
  - by split.
  - done.
  - split; [simpl; lia|]. intros a bs Ha. apply elem_of_list_to_map_2 in Ha.
    simpl in Ha. set_unfold in Ha. naive_solver lia.
  - split; [done|]. simpl. lia.
  - unfold sample_ops. simpl. repeat (apply Forall_cons; split; [|]); try apply Forall_nil_2; simpl;
      repeat split; try (by eexists); lia.
  - vm_compute. reflexivity.
Defined.

(** Defects on concrete inputs. *)
Definition sample_st : st :=
  mk_st (mk_hguard sample_opts kmath_ht_reset kmath_ht_reset (-1)) sample_mem None.
Definition undefined {A} (f : M st A) (s : st) : bool := match f s with Ub => true | _ => false end.

(** [kylin_index_remove] takes the value it unlinked for a node: a value shorter
    than a node is read past its end, and a longer one is freed although the
    destructor keeps it. *)
Lemma index_remove_value_as_node :
  undefined (_ ← kylin_index_insert sample_nested 48; kylin_index_remove sample_nested 48) sample_st = true /\
  let m := mk_mem {[48 := replicate 8 1]} 256 [] in
  match (_ ← kylin_index_insert sample_nested 48; kylin_index_remove sample_nested 48)
      (mk_st (guard sample_st) m None) with
  | Ok (e, s) => e = KYLIN_ERROR_OK /\ blocks (omem s) !! 48 = None
  | _ => False
  end.
Proof. split; [by vm_compute|]. by vm_compute. Qed.

(** When the first table cannot be allocated, [kylin_index_insert] destroys the
    NULL it got back. *)
Lemma index_insert_null :
  undefined (kylin_index_insert sample_nested 48)
    (mk_st (guard sample_st) (mk_mem (blocks sample_mem) 256 [false; true]) None) = true.
Proof. by vm_compute. Qed.

(** Inserting a value that is there leaves its new node allocated and linked
    nowhere. *)
Lemma index_insert_leaks :
  match (_ ← kylin_index_insert sample_nested 48; kylin_index_insert sample_nested 48) sample_st with
  | Ok (v, s) => v = PObj 48 /\ used (ht0 (guard s)) = 1 /\ size (blocks (omem s)) = 17%nat
  | _ => False
  end.
Proof. by vm_compute. Qed.
