(* ===== verification/KMap.v ===== *)
(** * The hash map ([lib/core/math/kylin_map.c])

    [HashNode] for the five-word nodes of the map (key, value, type and size of
    the value, link) and the functions of the file over [Htable].  The type of
    a node's value is the [kobj_t] its field holds; a number that is none of
    the enumeration takes the default branch of every [switch], as
    [KOBJ_NORMAL] does. *)

From S2P Require Import Prelude Errors Bytes Bitops Mem MathVal Htable HtRep.

Record kmap_opts_t := mk_kmap_opts {
  priv : Z;
  key_type : kobj_t;
  key_size : Z;
  hash_fn : mem -> vptr Z -> Z;
  key_cmp : cmp_fn;
  key_ctor : option (Z -> M mem Z);
  key_dtor : option (Z -> M mem unit);
  val_ctor : option (Z -> M mem Z);
  val_dtor : option (Z -> M mem unit);
  node_ctor : option (Z -> M mem Z);
  node_dtor : option (Z -> M mem unit);
  (** the two tables of a guard from [guard_ctor]; reset ones otherwise *)
  guard_init : ht_t * ht_t;
}.

Definition MAP_KEY_FREE (o : kmap_opts_t) : Z -> M mem unit := default kylin_free (key_dtor o).
Definition MAP_VAL_FREE (o : kmap_opts_t) : Z -> M mem unit := default kylin_free (val_dtor o).
Definition MAP_NODE_MALLOC (o : kmap_opts_t) : Z -> M mem Z := default kylin_malloc (node_ctor o).
Definition MAP_NODE_FREE (o : kmap_opts_t) : Z -> M mem unit := default kylin_free (node_dtor o).

Definition KEYW : nat := 0.
Definition VAL : nat := 1.
Definition VAL_TYPE : nat := 2.
Definition VAL_SIZE : nat := 3.
Definition sizeof_node : Z := 40.

Definition kobj_of_code (c : Z) : kobj_t :=
  default KOBJ_NORMAL (List.find (fun t => kobj_code t =? c)
    [KOBJ_INT8; KOBJ_INT16; KOBJ_INT32; KOBJ_INT64; KOBJ_SIGNED; KOBJ_UINT8; KOBJ_UINT16;
     KOBJ_UINT32; KOBJ_UINT64; KOBJ_UNSIGNED; KOBJ_NORMAL; KOBJ_STRING; KOBJ_KMAP; KOBJ_KSET;
     KOBJ_KSTR; KOBJ_OTHERS]).

(** The four bytes of [node->val_type]; the field is followed by padding. *)
Definition node_val_type (node : Z) : M mem kobj_t :=
  c ← read_word node VAL_TYPE; mret (kobj_of_code (u32 c)).

Definition val_destroy (nested : nested_dtors) (o : kmap_opts_t) (node : Z) : M mem unit :=
  t ← node_val_type node; v ← read_word node VAL; kmath_val_dtor nested v t (Some (MAP_VAL_FREE o)).

Definition node_destroy (nested : nested_dtors) (o : kmap_opts_t) (node : Z) : M mem unit :=
  k ← read_word node KEYW;
  _ ← kmath_val_dtor nested k (key_type o) (Some (MAP_KEY_FREE o));
  _ ← val_destroy nested o node;
  MAP_NODE_FREE o node.

#[export] Instance map_node : HashNode kmap_opts_t.
Proof.
  refine {|
    key_word := KEYW; next_word := 4; node_words := 5;
    Htable.key_type := key_type; hash := hash_fn; compare := key_cmp;
    free_node := node_destroy |}.
  by split_and!; [apply Nat.ltb_lt|apply Nat.ltb_lt|].
Defined.

Abbreviation st := (Htable.st kmap_opts_t).
Abbreviation kmap_t := (hguard kmap_opts_t).

Definition sizeof_guard : Z := 216.
Definition kylin_map_create (o : kmap_opts_t) (m : mem) : option kmap_t * mem * option kerr_t :=
  ht_create sizeof_guard o (guard_init o) m.

Definition opts : M st kmap_opts_t := g ← get_guard; mret (g_opts g).
Definition kylin_map_priv : M st Z := o ← opts; mret (priv o).
(** [kylin_map_key] reads the value, with the type of the key. *)
Definition kylin_map_key (node : Z) : M st (vptr Z) :=
  o ← opts; v ← on_mem (read_word node VAL); mret (kmath_val_get node v (key_type o)).
Definition kylin_map_val (node : Z) : M st (vptr Z) :=
  v ← on_mem (read_word node VAL); t ← on_mem (node_val_type node); mret (kmath_val_get node v t).
Definition kylin_map_val_type (node : Z) : M st kobj_t := on_mem (node_val_type node).

Definition kylin_map_count : M st Z := ht_count.
Definition kylin_map_resize (count : Z) : M st kerr_t := ht_resize count.
Definition kylin_map_find (key : Z) : M st Z := ht_find key.
Definition kylin_map_first : M st Z := ht_first.
Definition kylin_map_last : M st Z := ht_last.
Definition kylin_map_next (node : Z) : M st Z := ht_next node.
Definition kylin_map_prev (node : Z) : M st Z := ht_prev node.

Definition kylin_map_fetch_val (key : Z) : M st (vptr Z) :=
  node ← kylin_map_find key;
  if node =? NULL then _ ← set_kerrno KYLIN_ERROR_NOENT; mret (PObj NULL) else kylin_map_val node.

(** [val_type], [val_size] and the constructed value are stored. *)
Definition set_val (o : kmap_opts_t) (node val : Z) (val_type : kobj_t) (size : Z) : M st unit :=
  _ ← on_mem (write_word node VAL_TYPE (kobj_code val_type));
  _ ← on_mem (write_word node VAL_SIZE size);
  v ← on_mem (kmath_val_ctor val val_type size (val_ctor o));
  on_mem (write_word node VAL v).

Section Destructors.
Context (nested : nested_dtors).

Definition _map_rehash (step : nat) : M st unit := _ht_rehash nested step.

Definition kylin_map_clear : M st unit := ht_clear_both nested.
(** What is destroyed with the guard, which is then freed. *)
Definition kylin_map_destroy : M st unit := ht_destroy nested.
Definition kylin_map_insert_raw (node : Z) : M st Z := ht_insert_raw nested node.
Definition kylin_map_unlink_raw (node : Z) : M st Z := ht_unlink_raw nested node.
Definition kylin_map_unlink (key : Z) : M st Z := ht_unlink nested key.

Definition kylin_map_remove_raw (cmp : Z) : M st kerr_t :=
  node ← kylin_map_unlink_raw cmp;
  if node =? NULL then mret KYLIN_ERROR_NODATA else
  _ ← destroy_node nested node; mret KYLIN_ERROR_OK.

Definition kylin_map_remove (key : Z) : M st kerr_t :=
  node ← kylin_map_unlink key;
  if node =? NULL then mret KYLIN_ERROR_NODATA else
  _ ← destroy_node nested node; mret KYLIN_ERROR_OK.

Definition kylin_map_insert (key val : Z) (val_type : kobj_t) (size : Z) : M st Z :=
  o ← opts;
  node ← on_mem (MAP_NODE_MALLOC o sizeof_node);
  if node =? NULL then _ ← set_kerrno KYLIN_ERROR_NOMEM; mret NULL else
  k ← on_mem (kmath_val_ctor key (key_type o) (key_size o) (key_ctor o));
  _ ← on_mem (write_word node KEYW k);
  _ ← set_val o node val val_type size;
  kylin_map_insert_raw node.

Definition kylin_map_replace (key val : Z) (val_type : kobj_t) (size : Z) : M st Z :=
  cmp ← ht_find_for_replace nested key;
  if cmp =? NULL then mret NULL else
  o ← opts;
  _ ← on_mem (val_destroy nested o cmp);
  _ ← set_val o cmp val val_type size;
  mret cmp.
End Destructors.

(** ** The map as a finite map

    A map that only borrows the keys and values it is given: no constructors,
    destructors that do nothing, nodes from the allocator. *)

(** Types whose values are kept and given back as they are. *)
Definition borrowed (t : kobj_t) : bool :=
  match t with
  | KOBJ_SIGNED | KOBJ_UNSIGNED | KOBJ_NORMAL | KOBJ_STRING | KOBJ_OTHERS => true
  | _ => false
  end.

Definition keep_it : option (Z -> M mem unit) := Some (fun _ => mret tt).

Record borrowing (o : kmap_opts_t) : Prop := {
  bo_key : borrowed (key_type o) = true;
  bo_key_ctor : key_ctor o = None;
  bo_key_dtor : key_dtor o = keep_it;
  bo_val_ctor : val_ctor o = None;
  bo_val_dtor : val_dtor o = keep_it;
  bo_node_ctor : node_ctor o = None;
  bo_node_dtor : node_dtor o = None;
}.

(** The words of a node. *)
Definition map_words (key val : Z) (t : kobj_t) (size : Z) : list Z := [key; val; kobj_code t; size; 0].

Lemma kobj_of_code_code t : kobj_of_code (u32 (kobj_code t)) = t.
Proof. by destruct t. Qed.

Lemma ctor_borrowed v t size : borrowed t = true -> kmath_val_ctor v t size None = mret v.
Proof. by destruct t. Qed.

Lemma dtor_borrowed nested v t : borrowed t = true ->
  kmath_val_dtor nested v t (Some (default kylin_free keep_it)) = mret tt.
Proof. by destruct t. Qed.

Lemma get_borrowed {I} (i : I) v t : borrowed t = true -> kmath_val_get i v t = PObj v.
Proof. by destruct t. Qed.

Section Refinement.
Context (m0 : mem) (o : kmap_opts_t) (D : Z -> Prop) (hashv : Z -> Z) (eqk : Z -> Z -> bool).
Context (KM : key_model m0 o D hashv eqk) (BO : borrowing o) (nested : nested_dtors).
#[local] Set Default Proof Using "All".

Abbreviation repr := (rep m0 o D hashv eqk).
Abbreviation at_key ns key := (lookup_key eqk ns key).

(** A new node, filled in. *)
Lemma fill_node (s : st) node ws key val t size :
  g_opts (guard s) = o -> words_at (omem s) node ws -> length ws = 5%nat ->
  ws !! 4%nat = Some 0 -> is_u 64 key -> is_u 64 val -> is_u 64 size -> borrowed t = true ->
  exists m', (k ← on_mem (kmath_val_ctor key (key_type o) (key_size o) (key_ctor o));
      _ ← on_mem (write_word node KEYW k); set_val o node val t size) s = Ok (tt, with_mem s m') /\
    words_at m' node (map_words key val t size) /\ keeps [node] (omem s) m'.
Proof.
  intros Ho Hw Hl H4 Hk Hv Hs Ht.
  rewrite (bo_key_ctor _ BO), (ctor_borrowed key _ _ (bo_key _ BO)).
  destruct ws as [|w0 [|w1 [|w2 [|w3 [|w4 [|]]]]]]; try done. simpl in H4. simplify_eq.
  destruct (set_field (S := st) _ _ _ KEYW key Hw) as (m1 & E1 & W1 & K1); [by apply Nat.ltb_lt|done|].
  destruct (set_field (S := st) _ _ _ VAL_TYPE (kobj_code t) W1) as (m2 & E2 & W2 & K2);
    [by apply Nat.ltb_lt|by destruct t|].
  destruct (set_field (S := st) _ _ _ VAL_SIZE size W2) as (m3 & E3 & W3 & K3);
    [by apply Nat.ltb_lt|done|].
  destruct (set_field (S := st) _ _ _ VAL val W3) as (m4 & E4 & W4 & K4); [by apply Nat.ltb_lt|done|].
  exists m4. split; [|split; [done|]].
  - erewrite bind_Ok by (by apply on_mem_pure). cbv beta.
    erewrite bind_Ok by (by apply E1). cbv beta. unfold set_val.
    erewrite bind_Ok by (by apply E2). cbv beta. erewrite bind_Ok by (by apply E3). cbv beta.
    rewrite (bo_val_ctor _ BO), (ctor_borrowed val _ _ Ht).
    erewrite bind_Ok by (by apply on_mem_pure). cbv beta. by rewrite E4.
  - assert (K12 : keeps [node] (omem s) m2) by (eapply keeps_trans_in; [exact K1|exact K2|set_solver]).
    assert (K34 : keeps [node] m2 m4) by (eapply keeps_trans_in; [exact K3|exact K4|set_solver]).
    eapply keeps_trans_in; [exact K12|exact K34|]. set_solver.
Qed.

Definition map_node_of (n key val : Z) (t : kobj_t) (size : Z) : node := (n, map_words key val t size).

(** Insertion of a key that is not there. *)
Lemma map_insert_ok s ns key val t size : repr [] s ns -> D key -> at_key ns key = None ->
  is_u 64 key -> is_u 64 val -> is_u 64 size -> borrowed t = true ->
  Z.of_nat (length ns) + 1 < 2 ^ 28 -> room (omem s) (2 ^ 35) ->
  exists n s', kylin_map_insert nested key val t size s = Ok (n, s') /\ n <> NULL /\
    repr [] s' (map_node_of n key val t size :: ns) /\
    brk (omem s') <= brk (omem s) + 2 ^ 35 /\ oom (omem s') = [].
Proof.
  intros HR Dk Hnew Hku Hvu Hsu Ht Hlen Hroom. pose proof (rep_opts _ _ _ _ _ _ _ _ HR) as Ho.
  set (m := omem s) in *. set (n := brk m).
  set (m1 := mk_mem (<[n := replicate (Z.to_nat 40) 0]> (blocks m)) (n + Z.max 16 40) []).
  assert (W1 : words_at m1 n (replicate 5 0)).
  { split; [simpl; by rewrite lookup_insert_eq|]. by apply Forall_replicate. }
  destruct (fill_node (with_mem s m1) n (replicate 5 0) key val t size) as (m2 & E2 & W2 & K2); try done.
  destruct (rep_alloc _ _ _ _ _ KM nested [] s ns 40 _ m2 HR Hroom) as (Em & Hn & Hnu & HnD & HR2);
    [lia|lia|exact K2|]. fold m in Em, Hn, Hnu, HnD, HR2. fold n in Em, Hn, Hnu, HnD, HR2. fold m1 in Em.
  set (x := map_node_of n key val t size).
  assert (Hins : insertable D eqk (with_mem s m2) ns x).
  { split; try done.
    exists 0. split; [done|]. exact W2. }
  destruct K2 as (Kb & Ko & _). simpl in Kb, Ko.
  destruct (ht_insert_raw_ok _ _ _ _ _ KM nested [] _ ns x HR2 Hins) as (s' & E & HR' & G).
  - by apply not_elem_of_nil.
  - destruct Hroom as [_ Hroom]. split; simpl; [done|]. rewrite Kb. lia.
  - intros a Ha. by apply elem_of_nil in Ha.
  - exists n, s'. destruct G as (Gb & Go & _). simpl in Gb. rewrite Kb in Gb. split_and!; try done; [|lia].
    unfold kylin_map_insert. step. rewrite Ho. unfold MAP_NODE_MALLOC. rewrite (bo_node_ctor _ BO).
    simpl default. erewrite bind_Ok by (apply on_mem_ok, Em). cbv beta.
    rewrite (proj2 (Z.eqb_neq _ _) Hn).
    destruct (bind_Ok_inv _ _ _ _ E2) as (k & s3 & E3 & E4). run E3.
    destruct (bind_Ok_inv _ _ _ _ E4) as (u & s4 & E5 & E6). run E5. run E6. by destruct s.
Qed.

(** The nodes this map makes. *)
Definition map_made (x : node) : Prop :=
  exists key val t size, x.2 = map_words key val t size /\ borrowed t = true.
Definition entry (x : node) : Z * Z := (key_of x, default 0 (x.2 !! VAL)).

Lemma map_val_ok s x nx : node_at (omem s) x nx -> map_made x ->
  kylin_map_val x.1 s = Ok (PObj (entry x).2, s).
Proof.
  intros [_ Hx] (key & val & t & size & E & Ht). unfold kylin_map_val, entry. rewrite E in *.
  erewrite bind_Ok by (by eapply (read_field (S := st) s x.1 _ VAL)). cbv beta.
  erewrite bind_Ok; [|apply on_mem_pure; unfold node_val_type;
    erewrite bind_Ok by (by eapply (read_word_ok _ x.1 _ VAL_TYPE)); reflexivity].
  simpl. by rewrite kobj_of_code_code, get_borrowed.
Qed.

Lemma map_fetch_ok s ns key : repr [] s ns -> Forall map_made ns -> D key ->
  exists s', kylin_map_fetch_val key s =
      Ok (PObj match at_key ns key with Some x => (entry x).2 | None => NULL end, s') /\
    repr [] s' ns /\ omem s' = omem s.
Proof.
  intros HR Hmade Dk. unfold kylin_map_fetch_val, kylin_map_find.
  run (ht_find_ok _ _ _ _ _ KM nested [] s ns key HR Dk).
  destruct (at_key ns key) as [x|] eqn:E; cbn [addr_or_null].
  - apply (lookup_key_Some _ _ _ _ _ KM nested) in E as [Hx _]; [|apply HR|done].
    destruct (rep_owned _ _ _ _ _ KM nested _ _ _ _ HR Hx) as (Hx0 & _ & _).
    destruct (rep_node _ _ _ _ _ KM nested _ _ _ _ HR Hx) as [nx Hn].
    rewrite Forall_forall in Hmade. rewrite (proj2 (Z.eqb_neq _ _) Hx0).
    exists s. split; [|done]. eapply map_val_ok; [exact Hn|by apply Hmade].
  - exists (mk_st (guard s) (omem s) (Some KYLIN_ERROR_NOENT)). split; [done|]. split; [|done].
    destruct HR as [? ? ? ? ?]. by split.
Qed.

Lemma node_destroy_ok m x nx : node_at m x nx -> map_made x -> x.1 <> NULL ->
  node_destroy nested o x.1 m = Ok (tt, mk_mem (delete x.1 (blocks m)) (brk m) (oom m)).
Proof.
  intros [_ Hx] (key & val & t & size & E & Ht) Hx0. unfold node_destroy, val_destroy, node_val_type.
  rewrite E in Hx. erewrite bind_Ok by (by eapply (read_word_ok _ x.1 _ KEYW)). cbv beta.
  unfold MAP_KEY_FREE, MAP_VAL_FREE, MAP_NODE_FREE.
  rewrite (bo_key_dtor _ BO), (bo_val_dtor _ BO), (bo_node_dtor _ BO), (dtor_borrowed nested _ _ (bo_key _ BO)).
  step. erewrite bind_Ok; [|erewrite bind_Ok; [|erewrite bind_Ok by (by eapply (read_word_ok _ x.1 _ VAL_TYPE));
    reflexivity]; cbv beta; erewrite bind_Ok by (by eapply (read_word_ok _ x.1 _ VAL));
    simpl map_words; rewrite kobj_of_code_code, dtor_borrowed by done; reflexivity].
  simpl default. apply free_live; [done|]. by eapply words_at_live.
Qed.

Lemma map_remove_ok s ns key : repr [] s ns -> Forall map_made ns -> D key ->
  exists r s', kylin_map_remove nested key s = Ok (r, s') /\
    brk (omem s') = brk (omem s) /\ oom (omem s') = oom (omem s) /\
    match at_key ns key with
    | None => r = KYLIN_ERROR_NODATA /\ repr [] s' ns
    | Some x => r = KYLIN_ERROR_OK /\ repr [] s' (List.filter (fun y => negb (eqk (key_of y) key)) ns)
    end.
Proof.
  intros HR Hmade Dk. unfold kylin_map_remove, kylin_map_unlink.
  pose proof (ht_unlink_ok _ _ _ _ _ KM nested [] s ns key HR Dk) as HU.
  destruct (at_key ns key) as [x|] eqn:Ek.
  - destruct HU as (s1 & ns' & nx & E & P & HR1 & (Fb & Fo & _) & Hx).
    pose proof (rep_nodes _ _ _ _ _ _ _ _ HR) as Hns.
    pose proof Ek as Ek'. apply (lookup_key_Some _ _ _ _ _ KM nested) in Ek' as [Hin _]; [|done..].
    destruct (rep_owned _ _ _ _ _ KM nested _ _ _ _ HR Hin) as (Hx0 & _ & HxD).
    assert (Hxm : map_made x) by (rewrite Forall_forall in Hmade; by apply Hmade).
    exists KYLIN_ERROR_OK, (with_mem s1 (mk_mem (delete x.1 (blocks (omem s1))) (brk (omem s1)) (oom (omem s1)))).
    split_and!; try done.
    + run E. rewrite (proj2 (Z.eqb_neq _ _) Hx0). unfold destroy_node.
      erewrite bind_Ok; [|step; rewrite (rep_opts _ _ _ _ _ _ _ _ HR1);
        eapply on_mem_ok, node_destroy_ok; [exact Hx|done|done]]. done.
    + by eapply (rep_removed _ _ _ _ _ KM nested).
  - destruct HU as (s1 & E & HR1 & (Fb & Fo & _)). exists KYLIN_ERROR_NODATA, s1. split_and!; try done.
    by run E.
Qed.
End Refinement.

(** The calls of a client, and what it sees of them. *)
Inductive map_op :=
| Insert (key val : Z) (t : kobj_t) (size : Z)
| Fetch (key : Z)
| Remove (key : Z)
| Count.

Inductive map_res :=
| RInserted
| RValue (v : vptr Z)
| RCode (e : kerr_t)
| RCount (n : Z)
| RNull.

Definition run_op (nested : nested_dtors) (op : map_op) : M st map_res :=
  match op with
  | Insert key val t size =>
      n ← kylin_map_insert nested key val t size; mret (if n =? NULL then RNull else RInserted)
  | Fetch key => v ← kylin_map_fetch_val key; mret (RValue v)
  | Remove key => e ← kylin_map_remove nested key; mret (RCode e)
  | Count => n ← kylin_map_count; mret (RCount n)
  end.

(** The specification: an association list without equal keys.  Inserting a key
    that is there is outside of it. *)
Definition spec_get (eqk : Z -> Z -> bool) (l : list (Z * Z)) (key : Z) : option (Z * Z) :=
  List.find (fun p => eqk p.1 key) l.

Definition spec_op (eqk : Z -> Z -> bool) (l : list (Z * Z)) (op : map_op) :
    option (map_res * list (Z * Z)) :=
  match op with
  | Insert key val _ _ =>
      match spec_get eqk l key with
      | None => Some (RInserted, (key, val) :: l)
      | Some _ => None
      end
  | Fetch key =>
      Some (RValue (PObj match spec_get eqk l key with Some p => p.2 | None => NULL end), l)
  | Remove key =>
      Some (match spec_get eqk l key with
            | Some _ => (RCode KYLIN_ERROR_OK, List.filter (fun p => negb (eqk p.1 key)) l)
            | None => (RCode KYLIN_ERROR_NODATA, l)
            end)
  | Count => Some (RCount (Z.of_nat (length l)), l)
  end.

(** Arguments a client passes: keys from [D], words, a type that is borrowed. *)
Definition op_ok (D : Z -> Prop) (op : map_op) : Prop :=
  match op with
  | Insert key val t size => D key /\ is_u 64 key /\ is_u 64 val /\ is_u 64 size /\ borrowed t = true
  | Fetch key | Remove key => D key
  | Count => True
  end.

Section Simulation.
Context (m0 : mem) (o : kmap_opts_t) (D : Z -> Prop) (hashv : Z -> Z) (eqk : Z -> Z -> bool).
Context (KM : key_model m0 o D hashv eqk) (BO : borrowing o) (nested : nested_dtors).
#[local] Set Default Proof Using "All".

(** The map [s] holds the association list [l]. *)
Definition holds (s : st) (l : list (Z * Z)) : Prop :=
  exists ns, rep m0 o D hashv eqk [] s ns /\ Forall map_made ns /\ l = map entry ns.

Lemma spec_get_entries ns key : spec_get eqk (map entry ns) key = entry <$> lookup_key eqk ns key.
Proof.
  induction ns as [|x ns IH]; [done|]. unfold spec_get, lookup_key in *. simpl.
  by destruct (eqk (key_of x) key).
Qed.

Lemma filter_entries ns key : List.filter (fun p => negb (eqk p.1 key)) (map entry ns) =
  map entry (List.filter (fun y => negb (eqk (key_of y) key)) ns).
Proof.
  induction ns as [|x ns IH]; [done|]. simpl. destruct (eqk (key_of x) key); simpl; by rewrite IH.
Qed.

Lemma Forall_filter {A} (P : A -> Prop) f l : Forall P l -> Forall P (List.filter f l).
Proof.
  rewrite !List.Forall_forall. intros HF x Hx. apply List.filter_In in Hx as [Hx _]. auto.
Qed.

Lemma map_call_ok s l op r l' : holds s l -> op_ok D op -> spec_op eqk l op = Some (r, l') ->
  Z.of_nat (length l) + 1 < 2 ^ 28 -> room (omem s) (2 ^ 35) ->
  exists s', run_op nested op s = Ok (r, s') /\ holds s' l' /\
    brk (omem s') <= brk (omem s) + 2 ^ 35 /\ oom (omem s') = [] /\ (length l' <= S (length l))%nat.
Proof.
  intros (ns & HR & Hmade & ->) Hok Hs Hlen Hroom. rewrite length_map in Hlen.
  destruct op as [key val t size|key|key|]; simpl in Hok, Hs; rewrite ?spec_get_entries in Hs.
  - destruct Hok as (Dk & Hk & Hv & Hsz & Ht).
    destruct (lookup_key eqk ns key) eqn:E; simpl in Hs; simplify_eq.
    destruct (map_insert_ok _ _ _ _ _ KM BO nested s ns key val t size HR Dk E Hk Hv Hsz Ht Hlen Hroom)
      as (n & s' & Ei & Hn & HR' & Hb & Ho).
    exists s'. split_and!; try done.
    + simpl. run Ei. by rewrite (proj2 (Z.eqb_neq _ _) Hn).
    + eexists. split_and!; [exact HR'| |done]. apply Forall_cons. split; [|done].
      by exists key, val, t, size.
  - simplify_eq. destruct (map_fetch_ok _ _ _ _ _ KM BO nested s ns key HR Hmade Hok) as (s' & E & HR' & Em).
    exists s'. rewrite Em. split_and!; [|by exists ns|lia|apply Hroom|lia].
    simpl. run E. by destruct (lookup_key eqk ns key).
  - destruct (map_remove_ok _ _ _ _ _ KM BO nested s ns key HR Hmade Hok) as (e & s' & E & Hb & Ho & Hm).
    exists s'. rewrite Hb, Ho. destruct (lookup_key eqk ns key) as [x|]; simpl in Hs; simplify_eq;
      destruct Hm as [-> HR']; (split_and!; [simpl; by run E| |lia|apply Hroom|]); try lia.
    + rewrite filter_entries. eexists. split; [exact HR'|]. split; [by apply Forall_filter|done].
    + rewrite length_map. etransitivity; [apply List.filter_length_le|]. rewrite length_map. lia.
    + by exists ns.
  - simplify_eq. exists s. split_and!; [|by exists ns|lia|apply Hroom|lia].
    simpl. unfold kylin_map_count. rewrite (bind_Ok _ _ _ _ _ (ht_count_ok _ _ _ _ _ KM nested _ _ _ HR)).
    by rewrite length_map.
Qed.

(** With room and numbers for [n] more calls. *)
Definition holds_for (n : nat) (s : st) l : Prop :=
  holds s l /\ Z.of_nat (length l) + Z.of_nat n < 2 ^ 28 /\ room (omem s) (Z.of_nat n * 2 ^ 35).

Lemma map_call_for n s l op r l' : holds_for (S n) s l -> op_ok D op -> spec_op eqk l op = Some (r, l') ->
  exists s', run_op nested op s = Ok (r, s') /\ holds_for n s' l'.
Proof.
  intros (Hh & Hlen & Ho & Hroom) Hop E.
  destruct (map_call_ok s l op r l' Hh Hop E) as (s' & E1 & H1 & Hb & Ho1 & Hl); [lia|split; [done|lia]|].
  exists s'. split; [done|]. split_and!; [done|lia|split; [done|lia]].
Qed.
End Simulation.

(** ** Properties *)

(** C1. The map is a finite map: from [kylin_map_create] on, for any sequence of
    insertions of new keys, lookups, removals and counts whose keys are objects
    that compare and hash consistently, every call returns what the same call
    on an association list does, whatever the tables go through: the first
    allocation, expansions, and the migration of the nodes from one table to
    the other, step by step, in the middle of the other calls. *)
Theorem kmap_refines_map m0 o D hashv eqk nested ops rs :
  key_model m0 o D hashv eqk -> borrowing o -> guard_init o = (kmath_ht_reset, kmath_ht_reset) ->
  mem_ok m0 -> room m0 ((Z.of_nat (length ops) + 1) * 2 ^ 35) ->
  Forall (op_ok D) ops -> spec_all (spec_op eqk) [] ops = Some rs ->
  exists g m s', kylin_map_create o m0 = (Some g, m, None) /\
    run_all (run_op nested) ops (mk_st g m None) = Ok (rs, s').
Proof.
  intros KM BO Hg Hm Hroom Hok Hs.
  destruct (ht_create_ok _ _ _ _ _ KM nested sizeof_guard _ Hm Hroom) as (m & Ec & HR & Ho & Hr);
    [unfold sizeof_guard; lia|].
  eexists _, m. unfold kylin_map_create. rewrite Hg, Ec.
  destruct (simulation (run_op nested) (spec_op eqk) (holds_for m0 o D hashv eqk) (op_ok D))
    with (calls := ops) (3 := Hok) (4 := Hs) (s := mk_st (mk_hguard o kmath_ht_reset kmath_ht_reset (-1)) m None)
    as (s' & E); [by apply map_call_for| |by exists s'].
  split; [by exists []|]. unfold sizeof_guard in Hr. pose proof (rep_mem _ _ _ _ _ _ _ _ HR) as [Hb _].
  simpl in Hb. split; [simpl; lia|]. split; [done|simpl; lia].
Qed.

(** Fourteen keys: enough for an expansion and the migration after it. *)
Definition sample_mem : mem :=
  mk_mem (list_to_map (map (fun i => (16 * Z.of_nat i, [Z.of_nat i])) (seq 1 14))) 256 [].
Definition sample_opts : kmap_opts_t :=
  mk_kmap_opts 0 KOBJ_STRING 1 byte_hash byte_cmp None keep_it None keep_it None None
    (kmath_ht_reset, kmath_ht_reset).
Definition sample_ops : list map_op :=
  map (fun i => Insert (16 * Z.of_nat i) (1000 + Z.of_nat i) KOBJ_NORMAL 0) (seq 1 14) ++
  [Fetch 48; Remove 48; Fetch 48; Remove 48; Count; Fetch 224].
Definition sample_nested : nested_dtors := mk_nested_dtors (fun _ => ub) (fun _ => ub) (fun _ => ub).

Definition sample_D (a : Z) : Prop := is_Some (blocks sample_mem !! a).
Definition sample_hash (a : Z) : Z := u64 (key_byte sample_mem a).
Abbreviation sample_rep := (rep sample_mem sample_opts sample_D sample_hash (byte_eq sample_mem)).
Definition sample_st : st :=
  mk_st (mk_hguard sample_opts kmath_ht_reset kmath_ht_reset (-1)) sample_mem None.

Lemma sample_keys : key_model sample_mem sample_opts sample_D sample_hash (byte_eq sample_mem).
Proof. by apply byte_keys. Qed.

Lemma sample_mem_ok : mem_ok sample_mem.
Proof.
  split; [simpl; lia|]. intros a bs Ha. apply elem_of_list_to_map_2 in Ha.
  simpl in Ha. set_unfold in Ha. naive_solver lia.
Qed.

Lemma sample_borrowing : borrowing sample_opts.
Proof. by split. Qed.

Lemma sample_fresh : sample_rep [] sample_st [].
Proof. apply (rep_create _ _ _ _ _ sample_keys sample_nested); [done|apply sample_mem_ok]. Qed.

Lemma kmap_refines_map_witness :
  exists g m s', kylin_map_create sample_opts sample_mem = (Some g, m, None) /\
    run_all (run_op sample_nested) sample_ops (mk_st g m None) =
      Ok (replicate 14 RInserted ++ [RValue (PObj 1003); RCode KYLIN_ERROR_OK; RValue (PObj NULL);
            RCode KYLIN_ERROR_NODATA; RCount 13; RValue (PObj 1014)], s').
Proof.
  apply (kmap_refines_map sample_mem sample_opts sample_D sample_hash (byte_eq sample_mem)).
  - apply sample_keys.
  - apply sample_borrowing.
  - done.
  - apply sample_mem_ok.
  - split; [done|]. simpl. lia.
  - unfold sample_ops. simpl. repeat (apply Forall_cons; split; [|]); try apply Forall_nil_2; simpl;
      repeat split; try (by eexists); lia.
  - vm_compute. reflexivity.
Defined.

(** A step of the migration: whatever nodes the two tables hold, moving the
    next occupied bucket terminates, loses and adds none, and keeps what the
    table does not own; when the first table is empty it is freed and the
    second takes its place. *)
Theorem kmap_migration_step m0 o D hashv eqk (nested : nested_dtors) X s ns :
  key_model m0 o D hashv eqk -> rep m0 o D hashv eqk X s ns -> is_rehashing (guard s) = true ->
  exists s', _map_rehash nested 1 s = Ok (tt, s') /\ rep m0 o D hashv eqk X s' ns /\ frame X s s'.
Proof.
  intros KM HR Hr. destruct (rehash_ok _ _ _ _ _ KM nested X s ns HR Hr) as (s' & E & HR' & F & _). eauto.
Qed.

(** A map with one node whose migration to 32 buckets has begun. *)
Lemma sample_moving : exists s x, sample_rep [] s [x] /\ is_rehashing (guard s) = true.
Proof.
  destruct (map_insert_ok _ _ _ _ _ sample_keys sample_borrowing sample_nested sample_st [] 48 1003
    KOBJ_NORMAL 0 sample_fresh) as (n & s & E & _ & HR & Hb & Ho);
    [by eexists|done|by split; lia..|done|simpl; lia|split; [done|simpl; lia]|].
  assert (Ec : match kylin_map_insert sample_nested 48 1003 KOBJ_NORMAL 0 sample_st with
    | Ok (_, s) => (is_rehashing (guard s), brk (omem s) <? 1000, cap (ht0 (guard s)),
        table (ht0 (guard s)) =? NULL)
    | _ => (true, true, 0, true)
    end = (false, true, 2, false)) by (vm_compute; reflexivity).
  rewrite E in Ec. injection Ec as Er Hb' Hcap Ht. apply Z.ltb_lt in Hb'.
  clear E Hb. assert (Hroom : room (omem s) (2 ^ 34)) by (split; [exact Ho|clear - Hb'; lia]).
  assert (H64 : 2 <= 64 <= 2 ^ 30) by (clear; lia).
  destruct (ht_resize_ok _ _ _ _ _ sample_keys sample_nested [] s _ 64 HR Er H64 Hroom)
    as (r & s' & _ & HR' & _ & _ & Hr); [by intros a Ha%elem_of_nil|].
  exists s', (map_node_of n 48 1003 KOBJ_NORMAL 0). split; [done|].
  rewrite Hcap in Hr. destruct Hr as [_ ->]. by rewrite Ht.
Qed.

Lemma kmap_migration_step_witness :
  exists s x s', is_rehashing (guard s) = true /\ _map_rehash sample_nested 1 s = Ok (tt, s') /\
    sample_rep [] s' [x].
Proof.
  destruct sample_moving as (s & x & HR & Hr).
  destruct (kmap_migration_step sample_mem sample_opts sample_D sample_hash (byte_eq sample_mem)
    sample_nested [] s [x] sample_keys HR Hr) as (s' & E & HR' & _).
  exists s, x, s'. done.
Defined.

(** [kylin_map_resize] is refused while a migration is under way and when the
    rounded size is the present one, without effect; otherwise it keeps every
    node and the migration to the new array has begun, or the array is the
    first one. *)
Theorem kmap_resize_codes m0 o D hashv eqk (s : st) ns count :
  key_model m0 o D hashv eqk -> rep m0 o D hashv eqk [] s ns -> 2 <= count <= 2 ^ 30 ->
  room (omem s) (2 ^ 34) ->
  if is_rehashing (guard s) then kylin_map_resize count s = Ok (KYLIN_ERROR_BUSY, s)
  else if 2 ^ Z.log2 (count - 1) =? cap (ht0 (guard s))
  then kylin_map_resize count s = Ok (KYLIN_ERROR_EXIST, s)
  else exists s', kylin_map_resize count s = Ok (KYLIN_ERROR_OK, s') /\
    rep m0 o D hashv eqk [] s' ns /\
    is_rehashing (guard s') = negb (table (ht0 (guard s)) =? NULL).
Proof.
  intros KM HR Hc Hroom. unfold kylin_map_resize. destruct (is_rehashing (guard s)) eqn:Er.
  { unfold ht_resize. step. by rewrite Er. }
  destruct (ht_resize_ok _ _ _ _ _ KM sample_nested [] s ns count HR Er Hc Hroom) as (r & s' & E & HR' & _ & _ & Hr).
  { intros a Ha. by apply elem_of_nil in Ha. }
  destruct (_ =? cap _); [by destruct Hr as [-> ->]|]. destruct Hr as [-> Hr]. by exists s'.
Qed.

Lemma kmap_resize_codes_witness :
  exists s', kylin_map_resize 9 sample_st = Ok (KYLIN_ERROR_OK, s') /\ sample_rep [] s' [] /\
    is_rehashing (guard s') = false.
Proof.
  apply (kmap_resize_codes sample_mem sample_opts sample_D sample_hash (byte_eq sample_mem) sample_st [] 9).
  - apply sample_keys.
  - apply sample_fresh.
  - lia.
  - split; [done|simpl; lia].
Defined.

(** The results of calls, and whether they reach undefined behaviour. *)
Definition results {A} (f : M st A) (s : st) : option A :=
  match f s with Ok (a, _) => Some a | _ => None end.
Definition undefined {A} (f : M st A) (s : st) : bool := match f s with Ub => true | _ => false end.

(** Five keys in eight buckets, and a migration to four that has begun. *)
Definition five_keys_moving : M st unit :=
  _ ← kylin_map_resize 9;
  _ ← run_all (run_op sample_nested)
        (map (fun i => Insert (16 * i) (1000 + i) KOBJ_NORMAL 0) [1; 2; 3; 5; 6]);
  _ ← kylin_map_resize 5; mret tt.

(** While a migration is under way, insertion looks at the new table only: a
    key that still waits in the old one is accepted a second time.  When the
    old node is destroyed later, its count is kept, so that the old table
    never gets empty for the code: the map counts two nodes when it holds one,
    and the next call reads past the end of the array. *)
Theorem kmap_duplicate_in_migration :
  results (_ ← five_keys_moving;
    run_all (run_op sample_nested) [Count; Insert 96 7 KOBJ_NORMAL 0; Count; Fetch 96]) sample_st =
    Some [RCount 5; RInserted; RCount 6; RValue (PObj 1006)] /\
  results (_ ← five_keys_moving;
    run_all (run_op sample_nested) [Insert 96 7 KOBJ_NORMAL 0;
      Remove 16; Remove 32; Remove 48; Remove 80; Count; Fetch 96]) sample_st =
    Some [RInserted; RCode KYLIN_ERROR_OK; RCode KYLIN_ERROR_OK; RCode KYLIN_ERROR_OK;
          RCode KYLIN_ERROR_OK; RCount 2; RValue (PObj 7)] /\
  undefined (_ ← five_keys_moving;
    run_all (run_op sample_nested) [Insert 96 7 KOBJ_NORMAL 0;
      Remove 16; Remove 32; Remove 48; Remove 80; Remove 96]) sample_st = true.
Proof. vm_compute. done. Qed.

(** Further defects on concrete inputs. *)

(** A map whose keys are integers finds none of them. *)
Lemma kmap_int_keys_lost :
  let o := mk_kmap_opts 0 KOBJ_UINT64 8 byte_hash byte_cmp None keep_it None keep_it None None
             (kmath_ht_reset, kmath_ht_reset) in
  let m := mk_mem {[16 := le_bytes 8 5]} 256 [] in
  results (run_all (run_op sample_nested) [Insert 16 7 KOBJ_NORMAL 0; Count; Fetch 16])
    (mk_st (mk_hguard o kmath_ht_reset kmath_ht_reset (-1)) m None) =
  Some [RInserted; RCount 1; RValue (PObj NULL)].
Proof. vm_compute. done. Qed.

(** [kylin_map_key] gives the value of the node. *)
Lemma kmap_key_is_value :
  results (n ← kylin_map_insert sample_nested 48 1003 KOBJ_NORMAL 0; kylin_map_key n) sample_st =
  Some (PObj 1003).
Proof. vm_compute. done. Qed.

(** [kylin_map_clear] leaves the chains in the table: the next call follows a
    freed node. *)
Lemma kmap_clear_dangling :
  undefined (_ ← kylin_map_insert sample_nested 48 1003 KOBJ_NORMAL 0;
    _ ← kylin_map_clear sample_nested; kylin_map_find 48) sample_st = true.
Proof. vm_compute. done. Qed.
