(* ===== verification/Addr.v ===== *)
(** * Network addresses ([include/utils/kylin_addr.h])

    A [struct kylin_addr] is its 16 bytes in network order: [addr8] are the
    bytes, [addr32] and [addr64] little-endian readings of them, and [v4] the
    first word.  A [struct sockaddr] is its bytes in the layout of the system
    headers: family at 0 (two bytes), port at 2, the IPv4 address at 4, the
    IPv6 address at 8.  Writes to the mask address go through [wr], so an
    index outside it would be undefined.  The MAC parser calls
    [kylin_strchr] with three arguments, [start], [stop] and the character; the
    only function of that name ([kylin_string.c]) takes a [kstr_t] and a
    character, so that the call is an error.  What it would call is an argument
    of the model. *)

From S2P Require Import Prelude Bytes.

Definition AF_INET : Z := 2.
Definition AF_INET6 : Z := 10.
Abbreviation kaddr_t := (list Z) (only parsing).

Definition addr32 (a : kaddr_t) (i : nat) : Z := le_value (take 4 (drop (4 * i) a)).
Definition addr64 (a : kaddr_t) (i : nat) : Z := le_value (take 8 (drop (8 * i) a)).
Definition set_addr32 (a : kaddr_t) (i : nat) (v : Z) : kaddr_t := splice a (4 * i) (le_bytes 4 v).

(** [ntohl] on a little-endian CPU. *)
Definition ntohl (v : Z) : Z := byte_reverse 4 v.

(** The tests [if x > y return 1; if x < y return -1], then the rest. *)
Definition cmp_word (x y : Z) (rest : Z) : Z :=
  if ntohl y <? ntohl x then 1 else if ntohl x <? ntohl y then -1 else rest.

Definition kylin_addr_comp (af : Z) (a b : kaddr_t) : Z :=
  if af =? AF_INET then cmp_word (addr32 a 0) (addr32 b 0) 0
  else cmp_word (addr32 a 0) (addr32 b 0) (cmp_word (addr32 a 1) (addr32 b 1)
       (cmp_word (addr32 a 2) (addr32 b 2) (cmp_word (addr32 a 3) (addr32 b 3) 0))).

Definition kylin_addr_zero (af : Z) (a : kaddr_t) : kaddr_t :=
  if af =? AF_INET then set_addr32 a 0 0
  else set_addr32 (set_addr32 (set_addr32 (set_addr32 a 0 0) 1 0) 2 0) 3 0.

Definition kylin_addr_copy (af : Z) (dst src : kaddr_t) : kaddr_t :=
  if af =? AF_INET then set_addr32 dst 0 (addr32 src 0)
  else
    let dst := set_addr32 dst 0 (addr32 src 0) in
    let dst := set_addr32 dst 1 (addr32 src 1) in
    let dst := set_addr32 dst 2 (addr32 src 2) in
    set_addr32 dst 3 (addr32 src 3).

Definition kylin_addr_is_zero (af : Z) (a : kaddr_t) : Z :=
  if af =? AF_INET then kbool (addr32 a 0 =? 0)
  else kbool (u64 (addr64 a 0 + addr64 a 1) =? 0).

Definition kylin_addr_is_max (af : Z) (a : kaddr_t) : Z :=
  if af =? AF_INET then kbool (addr32 a 0 =? 0xffffffff)
  else kbool ((addr64 a 0 =? 0xffffffffffffffff) && (addr64 a 1 =? 0xffffffffffffffff)).

(** ** Socket addresses *)
Definition sa_family (sa : list Z) : Z := le_value (take 2 sa).
Definition sin_addr (sa : list Z) : list Z := take 4 (drop 4 sa).
Definition sin6_addr (sa : list Z) : list Z := take 16 (drop 8 sa).
Definition sizeof_sockaddr_in6 : nat := 28.

(** The family the caller gets, and the address. *)
Definition kylin_addr_sockaddr_2_paddr (sa : list Z) : Z * kaddr_t :=
  let addr := replicate 16 0 in
  if sa_family sa =? AF_INET then (AF_INET, splice addr 0 (sin_addr sa))
  else (AF_INET, splice addr 0 (sin6_addr sa)).

Definition kylin_addr_sockaddr_2_paddr_af (sa : list Z) (af : Z) : kaddr_t :=
  let addr := replicate 16 0 in
  if af =? AF_INET then splice addr 0 (sin_addr sa) else splice addr 0 (sin6_addr sa).

Definition kylin_addr_paddr_2_sockaddr_af (af : Z) (a : kaddr_t) (sa : list Z) : list Z :=
  if af =? AF_INET then
    splice (splice (splice sa 0 (le_bytes 2 AF_INET)) 2 (le_bytes 2 0)) 4 (take 4 a)
  else
    splice (splice (splice sa 0 (replicate sizeof_sockaddr_in6 0)) 0 (le_bytes 2 AF_INET6)) 8 a.

(** ** Network masks *)

(** [while(netmask_bits >= 8)]: the bits left, the bytes written, the mask. *)
Fixpoint mask_ff_loop (fuel : nat) (bits : Z) (n : nat) (mask : kaddr_t) : outcome (Z * nat * kaddr_t) :=
  match fuel with
  | O => OutOfFuel
  | S fuel =>
      if 8 <=? bits then mask ← wr mask n 0xff; mask_ff_loop fuel (u8 (bits - 8)) (n + 1) mask
      else Ok (bits, n, mask)
  end.

Definition kylin_addr_maskbits_2_maskaddr (af netmask_bits : Z) (mask : kaddr_t) : outcome kaddr_t :=
  let max := if af =? AF_INET then 4%nat else 16%nat in
  let bits := if (af =? AF_INET) && (32 <? netmask_bits) then 32
              else if 128 <? netmask_bits then 128 else netmask_bits in
  '(bits, n, mask) ← mask_ff_loop 33 bits 0 mask;
  '(n, mask) ← (if 0 <? bits
                then mask ← wr mask n (u8 (Z.lnot (Z.shiftl 1 (8 - bits) - 1))); Ok ((n + 1)%nat, mask)
                else Ok (n, mask));
  for_each (fun m i => wr m i 0) mask (seq n (max - n)).

(** [while(value > 0)]: counts the shifts. *)
Fixpoint mask_shift_loop (fuel : nat) (value bits : Z) : outcome Z :=
  match fuel with
  | O => OutOfFuel
  | S fuel =>
      if 0 <? value then mask_shift_loop fuel (u8 (Z.shiftl value 1)) (u8 (bits + 1)) else Ok bits
  end.

Fixpoint mask_byte_loop (bytes : list Z) (bits : Z) : outcome Z :=
  match bytes with
  | [] => Ok bits
  | v :: bytes =>
      if v =? 0xff then mask_byte_loop bytes (u8 (bits + 8)) else mask_shift_loop 9 v bits
  end.

Definition kylin_addr_maskaddr_2_maskbits (af : Z) (mask : kaddr_t) : outcome Z :=
  mask_byte_loop (take (if af =? AF_INET then 4%nat else 16%nat) mask) 0.

Definition kylin_addr_broadaddr (af : Z) (addr mask bcast : kaddr_t) : outcome kaddr_t :=
  for_each (fun b i => x ← rd addr i; y ← rd mask i; wr b i (u8 (Z.lor x (Z.lnot y))))
    bcast (seq 0 (if af =? AF_INET then 4%nat else 16%nat)).

(** ** Connection tuples *)
Record kylin_host_t := mk_host { h_addr : kaddr_t; h_port : Z }.
Record kylin_host_tuple_t := mk_tuple { t_proto : Z; t_src : kylin_host_t; t_dst : kylin_host_t }.

Definition kylin_host_tuple_copy (dst src : kylin_host_tuple_t) : kylin_host_tuple_t := src.

(** [tmp] is the uninitialised local [addr]. *)
Definition kylin_host_tuple_invert (tmp : kaddr_t) (af : Z) (t : kylin_host_tuple_t) : kylin_host_tuple_t :=
  let port := h_port (t_src t) in
  let sp := h_port (t_dst t) in
  let dp := port in
  if af =? AF_INET then
    let addrx := addr32 (h_addr (t_src t)) 0 in
    let sa := set_addr32 (h_addr (t_src t)) 0 (addr32 (h_addr (t_dst t)) 0) in
    let da := set_addr32 (h_addr (t_dst t)) 0 addrx in
    mk_tuple (t_proto t) (mk_host sa sp) (mk_host da dp)
  else
    let addr := kylin_addr_copy af tmp (h_addr (t_src t)) in
    let sa := kylin_addr_copy af (h_addr (t_src t)) (h_addr (t_dst t)) in
    let da := kylin_addr_copy af (h_addr (t_dst t)) addr in
    mk_tuple (t_proto t) (mk_host sa sp) (mk_host da dp).

Definition addr_words_equal (af : Z) (a b : kaddr_t) : bool :=
  if af =? AF_INET then addr32 a 0 =? addr32 b 0
  else (addr32 a 0 =? addr32 b 0) && (addr32 a 1 =? addr32 b 1) &&
       (addr32 a 2 =? addr32 b 2) && (addr32 a 3 =? addr32 b 3).

Definition kylin_host_tuple_src_equal (af : Z) (t1 t2 : kylin_host_tuple_t) : Z :=
  if t_proto t1 =? t_proto t2 then
    if h_port (t_src t1) =? h_port (t_src t2) then
      kbool (addr_words_equal af (h_addr (t_src t1)) (h_addr (t_src t2)))
    else 0
  else 0.

Definition kylin_host_tuple_dst_equal (af : Z) (t1 t2 : kylin_host_tuple_t) : Z :=
  if t_proto t1 =? t_proto t2 then
    if h_port (t_dst t1) =? h_port (t_dst t2) then
      kbool (addr_words_equal af (h_addr (t_dst t1)) (h_addr (t_dst t2)))
    else 0
  else 0.

Definition kylin_host_tuple_equal (af : Z) (t1 t2 : kylin_host_tuple_t) : Z :=
  kbool (negb (kylin_host_tuple_src_equal af t1 t2 =? 0) &&
         negb (kylin_host_tuple_dst_equal af t1 t2 =? 0)).

(** [(x ^ y) & m] as a C condition. *)
Definition differ (x y m : Z) : bool := negb (Z.land (Z.lxor x y) m =? 0).
Definition differ32 (a b m : kaddr_t) (i : nat) : bool := differ (addr32 a i) (addr32 b i) (addr32 m i).

Definition kylin_host_tuple_mask_cmp (af : Z) (t tuple mask : kylin_host_tuple_t) : Z :=
  let d i := differ32 (h_addr (t_src t)) (h_addr (t_src tuple)) (h_addr (t_src mask)) i
          || differ32 (h_addr (t_dst t)) (h_addr (t_dst tuple)) (h_addr (t_dst mask)) i in
  if negb (differ (t_proto t) (t_proto tuple) (t_proto mask)
        || differ (h_port (t_src t)) (h_port (t_src tuple)) (h_port (t_src mask))
        || differ (h_port (t_dst t)) (h_port (t_dst tuple)) (h_port (t_dst mask)))
  then if af =? AF_INET then kbool (negb (d 0%nat))
       else kbool (negb (d 0%nat || d 1%nat || d 2%nat || d 3%nat))
  else 0.

(** ** MAC addresses *)
Definition EINVAL : Z := 22.

(** One hexadecimal digit; anything else leaves the byte alone. *)
Definition hex_digit (c : Z) : option Z :=
  if (48 <=? c) && (c <=? 57) then Some (c - 48)
  else if (65 <=? c) && (c <=? 70) then Some (c - 65 + 10)
  else if (97 <=? c) && (c <=? 102) then Some (c - 97 + 10)
  else None.

Definition set_high (hex : list Z) (pos : nat) (c : Z) : outcome (list Z) :=
  match hex_digit c with Some d => wr hex pos (u8 (Z.shiftl d 4)) | None => Ok hex end.
Definition set_low (hex : list Z) (pos : nat) (c : Z) : outcome (list Z) :=
  match hex_digit c with Some d => old ← rd hex pos; wr hex pos (Z.lor old d) | None => Ok hex end.
Definition set_byte (hex : list Z) (pos : nat) (c : Z) : outcome (list Z) :=
  match hex_digit c with Some d => wr hex pos d | None => Ok hex end.

Section MacAddr.
(** [strchr str start stop c]: a position of [c] in [str[start..stop]]. *)
Context (strchr : list Z -> Z -> Z -> Z -> option Z).

(** Pointers into [str] are positions. *)
Fixpoint mac_loop (fuel : nat) (str : list Z) (stop start : Z) (pos : nat) (hexlen : Z)
    (hex : list Z) : outcome (Z * list Z) :=
  match fuel with
  | O => OutOfFuel
  | S fuel =>
      if start <=? stop then
        let found := strchr str start stop 58 in
        let refuse := match found with None => negb (Z.of_nat pos =? 5) | Some _ => false end in
        if refuse then Ok (- EINVAL, hex) else
        let ch := default (stop + 1) found in
        if ch - start =? 2 then
          c0 ← rd str (Z.to_nat start); c1 ← rd str (Z.to_nat (start + 1));
          hex ← set_high hex pos c0; hex ← set_low hex pos c1;
          if hexlen <? Z.of_nat pos + 1 then Ok (- EINVAL, hex)
          else mac_loop fuel str stop (ch + 1) (pos + 1) hexlen hex
        else if ch - start =? 1 then
          c0 ← rd str (Z.to_nat start);
          hex ← set_byte hex pos c0;
          if hexlen <? Z.of_nat pos + 1 then Ok (- EINVAL, hex)
          else mac_loop fuel str stop (ch + 1) (pos + 1) hexlen hex
        else Ok (- EINVAL, hex)
      else Ok (0, hex)
  end.

(** Result and contents of [hex], which [hexlen] bytes are cleared of first. *)
Definition kylin_addr_mac_addr_str2hex (strlen : Z) (str : list Z) (hexlen : Z) (hex : list Z) :
    outcome (Z * list Z) :=
  hex ← write_bytes hex 0 (replicate (Z.to_nat hexlen) 0);
  if strlen <? 11 then Ok (0, hex)
  else mac_loop (S (Z.to_nat strlen)) str (strlen - 1) 0 0 hexlen hex.
End MacAddr.

(** ** The order of addresses *)

Definition sign_of (c : comparison) : Z := match c with Gt => 1 | Lt => -1 | Eq => 0 end.

Lemma ntohl_word bs : bytes_ok bs -> length bs = 4%nat -> ntohl (le_value bs) = be_value bs.
Proof. intros Hb Hl. unfold ntohl, byte_reverse. by rewrite <- Hl, le_bytes_le_value. Qed.

Lemma be_value_app a b : be_value (a ++ b) = be_value a * 2 ^ (8 * Z.of_nat (length b)) + be_value b.
Proof. unfold be_value. rewrite rev_app_distr, le_value_app, length_rev. lia. Qed.

Lemma be_value_range bs : bytes_ok bs -> is_u (8 * Z.of_nat (length bs)) (be_value bs).
Proof. intros H. unfold be_value. rewrite <- length_rev. by apply le_value_range, bytes_ok_rev. Qed.

Lemma cmp_word_spec a b a' b' rest :
  bytes_ok a -> bytes_ok b -> length a = 4%nat -> length b = 4%nat ->
  bytes_ok a' -> bytes_ok b' -> length a' = length b' ->
  rest = sign_of (be_value a' ?= be_value b') ->
  cmp_word (le_value a) (le_value b) rest = sign_of (be_value (a ++ a') ?= be_value (b ++ b')).
Proof.
  intros Ha Hb La Lb Ha' Hb' Hl ->. unfold cmp_word.
  rewrite !ntohl_word, !be_value_app, Hl by done.
  pose proof (be_value_range a' Ha') as Ra. pose proof (be_value_range b' Hb') as Rb.
  rewrite Hl in Ra. unfold is_u in Ra, Rb.
  set (k := 2 ^ (8 * Z.of_nat (length b'))) in *.
  destruct (Z.ltb_spec (be_value b) (be_value a)).
  { assert (E : be_value b * k + be_value b' < be_value a * k + be_value a') by nia.
    by rewrite (proj2 (Z.compare_gt_iff _ _) E). }
  destruct (Z.ltb_spec (be_value a) (be_value b)).
  { assert (E : be_value a * k + be_value a' < be_value b * k + be_value b') by nia.
    by rewrite (proj2 (Z.compare_lt_iff _ _) E). }
  replace (be_value a) with (be_value b) by lia. f_equal.
  destruct (Z.compare_spec (be_value a') (be_value b')) as [E|E|E]; symmetry;
    [apply Z.compare_eq_iff|apply Z.compare_lt_iff|apply Z.compare_gt_iff]; lia.
Qed.

(** An address of 16 bytes as its four words. *)
Lemma addr_words (a : kaddr_t) :
  length a = 16%nat -> bytes_ok a ->
  exists w0 w1 w2 w3, a = w0 ++ w1 ++ w2 ++ w3 /\
    addr32 a 0 = le_value w0 /\ addr32 a 1 = le_value w1 /\ addr32 a 2 = le_value w2 /\
    addr32 a 3 = le_value w3 /\
    length w0 = 4%nat /\ length w1 = 4%nat /\ length w2 = 4%nat /\ length w3 = 4%nat /\
    bytes_ok w0 /\ bytes_ok w1 /\ bytes_ok w2 /\ bytes_ok w3.
Proof.
  intros Hl Hb. do 17 (destruct a as [|? a]; try done).
  exists [z; z0; z1; z2], [z3; z4; z5; z6], [z7; z8; z9; z10], [z11; z12; z13; z14].
  rewrite !Forall_cons in *. split_and!; naive_solver.
Qed.

(** [kylin_addr_comp] orders addresses as the numbers they are in network
    order: 32 bits for IPv4, 128 bits otherwise. *)
Theorem addr_comp_order af a b :
  length a = 16%nat -> length b = 16%nat -> bytes_ok a -> bytes_ok b ->
  let n := if af =? AF_INET then 4%nat else 16%nat in
  kylin_addr_comp af a b = sign_of (be_value (take n a) ?= be_value (take n b)).
Proof.
  intros La Lb Ha Hb n.
  destruct (addr_words a La Ha) as (a0 & a1 & a2 & a3 & Ea & A0 & A1 & A2 & A3 & ? & ? & ? & ? & ? & ? & ? & ?).
  destruct (addr_words b Lb Hb) as (b0 & b1 & b2 & b3 & Eb & B0 & B1 & B2 & B3 & ? & ? & ? & ? & ? & ? & ? & ?).
  unfold kylin_addr_comp, n. rewrite A0, A1, A2, A3, B0, B1, B2, B3. destruct (af =? AF_INET).
  - rewrite Ea, Eb, !take_app_length' by done.
    rewrite (cmp_word_spec a0 b0 [] []) by done. by rewrite !app_nil_r.
  - rewrite !firstn_all2 by lia. rewrite Ea, Eb.
    assert (E3 : cmp_word (le_value a3) (le_value b3) 0 = sign_of (be_value a3 ?= be_value b3))
      by (rewrite (cmp_word_spec a3 b3 [] []) by done; by rewrite !app_nil_r).
    assert (E2 : forall rest, rest = sign_of (be_value a3 ?= be_value b3) ->
        cmp_word (le_value a2) (le_value b2) rest =
          sign_of (be_value (a2 ++ a3) ?= be_value (b2 ++ b3)))
      by (intros; apply cmp_word_spec; done || congruence).
    apply cmp_word_spec; try done; rewrite ?Forall_app; try done; [rewrite !length_app; lia|].
    apply cmp_word_spec; try done; rewrite ?Forall_app; try done; [rewrite !length_app; lia|].
    by apply E2.
Qed.

Lemma addr_comp_order_witness :
  let a := [10; 0; 0; 1] ++ replicate 12 0 in
  let b := [9; 255; 255; 255] ++ replicate 12 0 in
  kylin_addr_comp AF_INET a b = 1.
Proof.
  intros a b. rewrite (addr_comp_order AF_INET a b); [reflexivity|done|done|..];
    (unfold a, b; simpl; repeat constructor; unfold is_u; lia).
Defined.

(** ** Masks *)

(** The bytes of a mask of [b] bits in an address of [max] bytes. *)
Definition mask_bytes (max : nat) (b : Z) : list Z :=
  let q := Z.to_nat (b / 8) in
  let part := if 0 <? b mod 8 then [2 ^ 8 - 2 ^ (8 - b mod 8)] else [] in
  replicate q 255 ++ part ++ replicate (max - q - length part) 0.

Lemma splice_insert {A} (l : list A) n xs x :
  (n + length xs < length l)%nat -> <[(n + length xs)%nat := x]> (splice l n xs) = splice l n (xs ++ [x]).
Proof.
  intros H. apply list_eq. intros i.
  assert (L : length (splice l n xs) = length l) by (apply length_splice; lia).
  destruct (decide (i = n + length xs)%nat) as [->|Hne].
  - rewrite list_lookup_insert_eq by lia. rewrite lookup_splice_in by (rewrite ?length_app; simpl; lia).
    rewrite lookup_app_r by lia. by replace (n + length xs - n - length xs)%nat with 0%nat by lia.
  - rewrite list_lookup_insert_ne by done. destruct (decide (n <= i < n + length xs)%nat).
    + rewrite !lookup_splice_in by (rewrite ?length_app; simpl; lia). by rewrite lookup_app_l by lia.
    + rewrite !lookup_splice_out by (rewrite ?length_app; simpl; lia). done.
Qed.

Lemma splice_nil {A} (l : list A) : splice l 0 [] = l.
Proof. done. Qed.

Lemma mask_ff_loop_spec q r xs mask fuel :
  0 <= r < 8 -> (length xs + q <= length mask)%nat -> (q <= 31)%nat -> (q < fuel)%nat ->
  mask_ff_loop fuel (8 * Z.of_nat q + r) (length xs) (splice mask 0 xs) =
    Ok (r, (length xs + q)%nat, splice mask 0 (xs ++ replicate q 255)).
Proof.
  revert xs fuel. induction q as [|q IH]; intros xs [|fuel] Hr Hl Hq Hf; try lia; cbn [mask_ff_loop].
  - rewrite (proj2 (Z.leb_gt _ _)) by lia. rewrite app_nil_r, Nat.add_0_r. do 3 f_equal.
  - rewrite (proj2 (Z.leb_le _ _)) by lia.
    rewrite wr_lt by (rewrite length_splice by lia; lia). cbn [mbind outcome_bind].
    replace (length xs) with (0 + length xs)%nat at 2 by lia. rewrite splice_insert by lia.
    rewrite uw_id by (unfold is_u; lia).
    replace (8 * Z.of_nat (S q) + r - 8) with (8 * Z.of_nat q + r) by lia.
    replace (length xs + 1)%nat with (length (xs ++ [255])) by (by rewrite length_app).
    rewrite IH by (rewrite ?length_app; simpl; lia). rewrite length_app, <- app_assoc. simpl.
    do 3 f_equal. lia.
Qed.

Lemma zero_loop_spec k xs (mask : list Z) :
  (length xs + k <= length mask)%nat ->
  for_each (fun m i => wr m i 0) (splice mask 0 xs) (seq (length xs) k) =
    Ok (splice mask 0 (xs ++ replicate k 0)).
Proof.
  revert xs. induction k as [|k IH]; intros xs Hl; [by rewrite app_nil_r|]. simpl.
  rewrite wr_lt by (rewrite length_splice by lia; lia). cbn [mbind outcome_bind].
  replace (length xs) with (0 + length xs)%nat at 1 by lia. rewrite splice_insert by lia.
  replace (S (length xs)) with (length (xs ++ [0])) by (rewrite length_app; simpl; lia).
  rewrite IH by (rewrite length_app; simpl; lia). by rewrite <- app_assoc.
Qed.

Lemma partial_byte r : 0 < r < 8 -> u8 (Z.lnot (Z.shiftl 1 (8 - r) - 1)) = 2 ^ 8 - 2 ^ (8 - r).
Proof.
  intros Hr. assert (r = 1 \/ r = 2 \/ r = 3 \/ r = 4 \/ r = 5 \/ r = 6 \/ r = 7) by lia.
  repeat destruct H as [->|H]; try done. by subst.
Qed.

Lemma mask_byte_loop_spec q r k :
  0 <= r < 8 -> Z.of_nat q <= 16 -> forall base, 0 <= base -> base + 8 * Z.of_nat q + r <= 128 ->
  mask_byte_loop (replicate q 255 ++ (if 0 <? r then [2 ^ 8 - 2 ^ (8 - r)] else []) ++ replicate k 0) base
    = Ok (base + 8 * Z.of_nat q + r).
Proof.
  intros Hr. induction q as [|q IH]; intros Hq base Hb Hs.
  - replace (base + 8 * Z.of_nat 0 + r) with (base + r) by lia. simpl app.
    destruct (Z.ltb_spec 0 r).
    + simpl app. cbn [mask_byte_loop].
      assert (E : r = 1 \/ r = 2 \/ r = 3 \/ r = 4 \/ r = 5 \/ r = 6 \/ r = 7) by lia.
      repeat destruct E as [->|E]; subst; cbn -[uw Z.add];
        repeat match goal with
        | |- context [uw 8 (?x + 1)] =>
            lazymatch x with
            | context [uw] => fail
            | _ => rewrite (uw_id 8 (x + 1)) by (unfold is_u; lia)
            end
        end; f_equal; lia.
    + replace r with 0 by lia. rewrite Z.add_0_r. destruct k; done.
  - cbn [replicate app mask_byte_loop]. rewrite uw_id by (unfold is_u; lia).
    rewrite Z.eqb_refl, IH by lia. f_equal. lia.
Qed.

Lemma length_mask_bytes (max : nat) b : 0 <= b <= 8 * Z.of_nat max -> length (mask_bytes max b) = max.
Proof.
  intros Hb. unfold mask_bytes. rewrite !length_app, !length_replicate.
  pose proof (Z.div_mod b 8 ltac:(lia)). pose proof (Z.mod_pos_bound b 8 ltac:(lia)).
  destruct (Z.ltb_spec 0 (b mod 8)); simpl length; lia.
Qed.

(** As a number, the mask has its first [b] bits set. *)
Lemma mask_bytes_value max b :
  max = 4%nat \/ max = 16%nat -> 0 <= b <= 8 * Z.of_nat max ->
  be_value (mask_bytes max b) = 2 ^ (8 * Z.of_nat max) - 2 ^ (8 * Z.of_nat max - b).
Proof.
  intros Hmax Hb. apply Z.eqb_eq.
  assert (H : forallb (fun b => be_value (mask_bytes max (Z.of_nat b)) =?
     2 ^ (8 * Z.of_nat max) - 2 ^ (8 * Z.of_nat max - Z.of_nat b)) (seq 0 (8 * max + 1)) = true)
    by (destruct Hmax as [-> | ->]; vm_compute; reflexivity).
  rewrite List.forallb_forall in H. specialize (H (Z.to_nat b) ltac:(apply List.in_seq; lia)).
  by rewrite Z2Nat.id in H by lia.
Qed.

Lemma maskbits_result (max : nat) b mask :
  0 <= b <= 8 * Z.of_nat max -> (max <= 16)%nat -> (max <= length mask)%nat ->
  ('(bits, n, mask) ← mask_ff_loop 33 b 0 mask;
   '(n, mask) ← (if 0 <? bits
     then mask ← wr mask n (u8 (Z.lnot (Z.shiftl 1 (8 - bits) - 1))); Ok ((n + 1)%nat, mask)
     else Ok (n, mask));
   for_each (fun m i => wr m i 0) mask (seq n (max - n)))
  = Ok (splice mask 0 (mask_bytes max b)).
Proof.
  intros Hb Hmax Hl. unfold mask_bytes. set (q := Z.to_nat (b / 8)). set (r := b mod 8).
  assert (Hr : 0 <= r < 8) by (apply Z.mod_pos_bound; lia).
  assert (E : b = 8 * Z.of_nat q + r)
    by (unfold q, r; rewrite Z2Nat.id by (apply Z.div_pos; lia); apply Z.div_mod; lia).
  clearbody q r. rewrite E.
  pose proof (mask_ff_loop_spec q r [] mask 33 Hr ltac:(simpl; lia) ltac:(lia) ltac:(lia)) as Eq.
  rewrite splice_nil in Eq. simpl length in Eq. rewrite Eq. cbn [mbind outcome_bind app Nat.add].
  destruct (Z.ltb_spec 0 r) as [H0|H0].
  - rewrite wr_lt by (rewrite length_splice; rewrite ?length_replicate; lia).
    cbn [mbind outcome_bind]. rewrite partial_byte by lia.
    pose proof (splice_insert mask 0 (replicate q 255) (2 ^ 8 - 2 ^ (8 - r))) as Es.
    rewrite length_replicate in Es. cbn [Nat.add] in Es. rewrite Es by lia.
    replace (q + 1)%nat with (length (replicate q 255 ++ [2 ^ 8 - 2 ^ (8 - r)]))
      by (rewrite length_app, length_replicate; done).
    rewrite zero_loop_spec by (rewrite length_app, length_replicate; simpl; lia).
    rewrite length_app, length_replicate, <- app_assoc. simpl length.
    do 5 f_equal. lia.
  - cbn [mbind outcome_bind]. pose proof (zero_loop_spec (max - q) (replicate q 255) mask) as Ez.
    rewrite length_replicate in Ez. rewrite Ez by lia. simpl. do 4 f_equal. lia.
Qed.

(** C33. A prefix length becomes the mask whose first bits are set (32 at most
    for IPv4, 128 otherwise), without a write outside the address, the bytes
    behind an IPv4 mask untouched; the way back gives the prefix length. *)
Theorem maskbits_round_trip af b mask :
  0 <= b < 256 -> length mask = 16%nat ->
  let max := if af =? AF_INET then 4%nat else 16%nat in
  let b' := Z.min b (8 * Z.of_nat max) in
  exists m, kylin_addr_maskbits_2_maskaddr af b mask = Ok m /\ length m = 16%nat /\
    be_value (take max m) = 2 ^ (8 * Z.of_nat max) - 2 ^ (8 * Z.of_nat max - b') /\
    drop max m = drop max mask /\
    kylin_addr_maskaddr_2_maskbits af m = Ok b'.
Proof.
  intros Hb Hl max b'.
  assert (Hmax : max = 4%nat \/ max = 16%nat) by (unfold max; destruct (af =? AF_INET); auto).
  assert (Hb' : 0 <= b' <= 8 * Z.of_nat max) by lia.
  pose proof (length_mask_bytes max b' Hb') as Lm.
  assert (Lt : take max (splice mask 0 (mask_bytes max b')) = mask_bytes max b')
    by (unfold splice; simpl; by rewrite take_app_length').
  exists (splice mask 0 (mask_bytes max b')). split_and!.
  - assert (Eb : (if (af =? AF_INET) && (32 <? b) then 32 else if 128 <? b then 128 else b) = b').
    { unfold b', max. destruct (af =? AF_INET); simpl andb.
      - destruct (Z.ltb_spec 32 b); [lia|]. destruct (Z.ltb_spec 128 b); lia.
      - destruct (Z.ltb_spec 128 b); lia. }
    unfold kylin_addr_maskbits_2_maskaddr. rewrite Eb. fold max.
    apply maskbits_result; lia.
  - rewrite length_splice; lia.
  - rewrite Lt. by apply mask_bytes_value.
  - unfold splice. simpl. by rewrite Lm, drop_app_length'.
  - unfold kylin_addr_maskaddr_2_maskbits. fold max. rewrite Lt. unfold mask_bytes.
    pose proof (Z.div_mod b' 8 ltac:(lia)). pose proof (Z.mod_pos_bound b' 8 ltac:(lia)).
    rewrite mask_byte_loop_spec by lia. f_equal. lia.
Qed.

Lemma maskbits_round_trip_witness :
  exists m, kylin_addr_maskbits_2_maskaddr AF_INET 24 (replicate 16 7) = Ok m /\
    kylin_addr_maskaddr_2_maskbits AF_INET m = Ok 24.
Proof.
  destruct (maskbits_round_trip AF_INET 24 (replicate 16 7)) as (m & E & _ & _ & _ & R);
    [lia|done|by exists m].
Defined.

(** ** Tuples and socket addresses *)

Definition tuple_ok (t : kylin_host_tuple_t) : Prop :=
  Forall (fun a => length a = 16%nat /\ bytes_ok a) [h_addr (t_src t); h_addr (t_dst t)].

Lemma le_bytes_word a b c d :
  bytes_ok [a; b; c; d] -> le_bytes 4 (le_value [a; b; c; d]) = [a; b; c; d].
Proof. intros H. exact (le_bytes_le_value [a; b; c; d] H). Qed.

Ltac sixteen a := do 17 (destruct a as [|? a]; try done).

Lemma addr_copy_v4 dst src :
  length dst = 16%nat -> length src = 16%nat -> bytes_ok src ->
  kylin_addr_copy AF_INET dst src = take 4 src ++ drop 4 dst.
Proof.
  intros Ld Ls Hs. sixteen src. sixteen dst. rewrite !Forall_cons in Hs.
  unfold kylin_addr_copy, set_addr32, addr32. cbn [take drop Nat.mul Nat.add Z.eqb Pos.eqb AF_INET].
  rewrite le_bytes_word by (rewrite !Forall_cons; naive_solver). done.
Qed.

Lemma addr_copy_v6 af dst src :
  af <> AF_INET -> length dst = 16%nat -> length src = 16%nat -> bytes_ok src ->
  kylin_addr_copy af dst src = src.
Proof.
  intros Haf Ld Ls Hs. sixteen src. sixteen dst. rewrite !Forall_cons in Hs.
  unfold kylin_addr_copy, set_addr32, addr32. rewrite (proj2 (Z.eqb_neq _ _)) by done.
  cbn [take drop Nat.mul Nat.add].
  rewrite !le_bytes_word by (rewrite !Forall_cons; naive_solver). done.
Qed.

(** What inverting a tuple exchanges: the whole addresses, or their first word. *)
Definition swapped (af : Z) (t : kylin_host_tuple_t) : kylin_host_tuple_t :=
  let s := t_src t in let d := t_dst t in
  if af =? AF_INET then
    mk_tuple (t_proto t) (mk_host (take 4 (h_addr d) ++ drop 4 (h_addr s)) (h_port d))
      (mk_host (take 4 (h_addr s) ++ drop 4 (h_addr d)) (h_port s))
  else mk_tuple (t_proto t) d s.

Lemma tuple_invert_swaps tmp af t :
  tuple_ok t -> length tmp = 16%nat -> kylin_host_tuple_invert tmp af t = swapped af t.
Proof.
  intros [[Ls Hs] [[Ld Hd] _]%Forall_cons]%Forall_cons Ht. unfold kylin_host_tuple_invert, swapped.
  destruct t as [p [s sp] [d dp]]. simpl in *. destruct (Z.eqb_spec af AF_INET) as [->|Hne].
  - pose proof (addr_copy_v4 s d Ls Ld Hd) as E1. pose proof (addr_copy_v4 d s Ld Ls Hs) as E2.
    unfold kylin_addr_copy in E1, E2. simpl Z.eqb in E1, E2. cbn iota in E1, E2. by rewrite E1, E2.
  - rewrite !(addr_copy_v6 af tmp s), (addr_copy_v6 af s d), (addr_copy_v6 af d s) by done. done.
Qed.

(** Inverting a connection tuple exchanges its two ends (for IPv4 the
    first word of the addresses), so inverting twice gives the tuple back; and
    the inverse of a tuple equals, end for end, the tuple with source and
    destination exchanged. *)
Theorem tuple_invert_involutive tmp af t :
  tuple_ok t -> length tmp = 16%nat ->
  kylin_host_tuple_invert tmp af (kylin_host_tuple_invert tmp af t) = t /\
  kylin_host_tuple_equal af (kylin_host_tuple_invert tmp af t)
    (mk_tuple (t_proto t) (t_dst t) (t_src t)) = 1.
Proof.
  intros Hok Ht. pose proof Hok as [[Ls Hs] [[Ld Hd] _]%Forall_cons]%Forall_cons.
  rewrite (tuple_invert_swaps tmp af t Hok Ht).
  assert (Hok' : tuple_ok (swapped af t)).
  { destruct t as [p [s sp] [d dp]]. unfold swapped, tuple_ok. simpl in *. destruct (af =? AF_INET); simpl.
    - rewrite !Forall_cons, !length_app, !length_take, !length_drop, !Forall_app.
      split_and!; try lia; try done; by (apply Forall_take || apply Forall_drop).
    - by rewrite !Forall_cons. }
  rewrite (tuple_invert_swaps tmp af _ Hok' Ht). destruct t as [p [s sp] [d dp]]. simpl in *. split.
  - unfold swapped. destruct (af =? AF_INET) eqn:E; simpl; [|done].
    sixteen s. sixteen d.
  - unfold kylin_host_tuple_equal, kylin_host_tuple_src_equal, kylin_host_tuple_dst_equal,
      addr_words_equal, swapped. destruct (af =? AF_INET) eqn:E; simpl; rewrite !Z.eqb_refl; [|done].
    sixteen s. sixteen d.  unfold addr32. cbn [take drop app Nat.mul Nat.add].
    by rewrite !Z.eqb_refl.
Qed.

Lemma tuple_invert_involutive_witness :
  let t := mk_tuple 6 (mk_host (replicate 16 1) 80) (mk_host (replicate 16 2) 443) in
  kylin_host_tuple_invert (replicate 16 0) AF_INET (kylin_host_tuple_invert (replicate 16 0) AF_INET t) = t.
Proof.
  intros t. apply (tuple_invert_involutive (replicate 16 0) AF_INET t); [|done].
  repeat constructor; simpl; unfold is_u; lia.
Defined.

(** An IPv6 address whose halves add up to 2^64 passes for the zero address. *)
Lemma addr_is_zero_overflow :
  let a := [0; 0; 0; 0; 0; 0; 0; 128; 0; 0; 0; 0; 0; 0; 0; 128] in
  kylin_addr_is_zero AF_INET6 a = 1.
Proof. reflexivity. Qed.

(** The address survives the way through a socket address; the family reported
    by the conversion that looks at the socket address itself is always IPv4. *)
Lemma sockaddr_round_trip af a sa :
  length a = 16%nat -> length sa = 28%nat -> af = AF_INET \/ af = AF_INET6 ->
  kylin_addr_sockaddr_2_paddr_af (kylin_addr_paddr_2_sockaddr_af af a sa) af =
    (if af =? AF_INET then take 4 a ++ replicate 12 0 else a) /\
  fst (kylin_addr_sockaddr_2_paddr (kylin_addr_paddr_2_sockaddr_af af a sa)) = AF_INET.
Proof.
  intros La Ls Haf. sixteen a. do 29 (destruct sa as [|? sa]; try done).
  by destruct Haf as [-> | ->].
Qed.

(** Every byte of the broadcast address is the address byte with the host bits
    set. *)
Lemma broadaddr_bytes af addr mask bcast :
  length addr = 16%nat -> length mask = 16%nat -> length bcast = 16%nat ->
  exists b, kylin_addr_broadaddr af addr mask bcast = Ok b /\ length b = 16%nat /\
    forall i, b !! i = if decide (i < if Z.eqb af AF_INET then 4 else 16)%nat
                       then Some (u8 (Z.lor (nth i addr 0) (Z.lnot (nth i mask 0)))) else bcast !! i.
Proof.
  intros La Lm Lb. unfold kylin_addr_broadaddr.
  pose (g := fun i => x ← rd addr i; y ← rd mask i; Ok (u8 (Z.lor x (Z.lnot y)))).
  assert (Hf : forall l d, for_each (fun b i => x ← rd addr i; y ← rd mask i;
        wr b i (u8 (Z.lor x (Z.lnot y)))) d l = for_each (fun d i => x ← g i; wr d i x) d l).
  { induction l as [|i l IH]; intros d; [done|]. simpl. unfold g.
    destruct (rd addr i); [|done..]. destruct (rd mask i); [|done..]. simpl. by destruct (wr _ _ _); simpl. }
  rewrite Hf. rewrite <- Lb. apply (for_write_spec g (fun i => u8 (Z.lor (nth i addr 0) (Z.lnot (nth i mask 0))))).
  - destruct (af =? AF_INET); lia.
  - intros i Hi. assert (i < 16)%nat by (destruct (af =? AF_INET); lia). unfold g.
    destruct (rd_lt addr i) as (x & -> & Hx); [lia|]. destruct (rd_lt mask i) as (y & -> & Hy); [lia|].
    simpl. by rewrite (nth_lookup_Some _ _ _ _ Hx), (nth_lookup_Some _ _ _ _ Hy).
Qed.

(** ** Parsing what [MACADDR_FMT] prints *)

Definition hex_char (d : Z) : Z := if d <? 10 then 48 + d else 55 + d.
Definition mac_group (b : Z) : list Z := [hex_char (Z.shiftr b 4); hex_char (Z.land b 15)].

(** ["%02X:%02X:%02X:%02X:%02X:%02X"] *)
Fixpoint mac_format (mac : list Z) : list Z :=
  match mac with
  | [] => []
  | [b] => mac_group b
  | b :: mac => mac_group b ++ [58] ++ mac_format mac
  end.

Lemma hex_char_spec d : 0 <= d < 16 -> hex_digit (hex_char d) = Some d /\ hex_char d <> 58.
Proof.
  intros Hd. unfold hex_char, hex_digit. destruct (Z.ltb_spec d 10).
  - rewrite !(proj2 (Z.leb_le _ _)) by lia. simpl. split; [f_equal; lia|lia].
  - rewrite (proj2 (Z.leb_le 48 _)), (proj2 (Z.leb_gt (55 + d) 57)), !(proj2 (Z.leb_le _ _)) by lia.
    simpl. split; [f_equal; lia|lia].
Qed.

Lemma byte_halves b :
  is_u 8 b -> 0 <= Z.shiftr b 4 < 16 /\ 0 <= Z.land b 15 < 16 /\
  Z.lor (u8 (Z.shiftl (Z.shiftr b 4) 4)) (Z.land b 15) = b.
Proof.
  intros Hb.
  assert (H : forallb (fun n => let b := Z.of_nat n in
      (0 <=? Z.shiftr b 4) && (Z.shiftr b 4 <? 16) && (0 <=? Z.land b 15) && (Z.land b 15 <? 16) &&
      (Z.lor (u8 (Z.shiftl (Z.shiftr b 4) 4)) (Z.land b 15) =? b)) (seq 0 256) = true)
    by (vm_compute; reflexivity).
  rewrite List.forallb_forall in H. specialize (H (Z.to_nat b)).
  rewrite List.in_seq in H. unfold is_u in Hb. change (2 ^ 8) with 256 in Hb. specialize (H ltac:(lia)).
  cbv zeta in H. rewrite Z2Nat.id in H by lia. z_bool. lia.
Qed.

Section MacParse.
Context (strchr : list Z -> Z -> Z -> Z -> option Z).

(** The first [c] between two positions of the string, both included. *)
Definition strchr_first : Prop := forall str start stop c,
  0 <= start -> stop < Z.of_nat (length str) ->
  match strchr str start stop c with
  | Some p => start <= p <= stop /\ str !! Z.to_nat p = Some c /\
      forall q, start <= q < p -> str !! Z.to_nat q <> Some c
  | None => forall q, start <= q <= stop -> str !! Z.to_nat q <> Some c
  end.
Context (Hstrchr : strchr_first).

(** A group of two characters before a separator or at the end. *)
Lemma strchr_group str start c0 c1 :
  0 <= start -> str !! Z.to_nat start = Some c0 -> str !! Z.to_nat (start + 1) = Some c1 ->
  c0 <> 58 -> c1 <> 58 ->
  (str !! Z.to_nat (start + 2) = Some 58 ->
   strchr str start (Z.of_nat (length str) - 1) 58 = Some (start + 2)) /\
  (Z.of_nat (length str) = start + 2 -> strchr str start (Z.of_nat (length str) - 1) 58 = None).
Proof using Hstrchr.
  intros Hs E0 E1 N0 N1.
  pose proof (Hstrchr str start (Z.of_nat (length str) - 1) 58 Hs ltac:(lia)) as H. split.
  - intros E2. pose proof (lookup_lt_Some _ _ _ E2). destruct (strchr _ _ _ _) as [p|].
    + destruct H as ([H1 H2] & Hp & Hq). f_equal.
      destruct (decide (p = start)) as [->|]; [congruence|].
      destruct (decide (p = start + 1)) as [->|]; [congruence|].
      destruct (decide (p = start + 2)) as [->|]; [done|].
      destruct (Hq (start + 2)); [lia|done].
    + destruct (H (start + 2)); [lia|done].
  - intros El. destruct (strchr _ _ _ _) as [p|]; [|done]. destruct H as ([H1 H2] & Hp & _).
    assert (p = start \/ p = start + 1) as [-> | ->] by lia; congruence.
Qed.

(** One round of the parser on a printed group. *)
Lemma mac_loop_group str k b hex fuel :
  (k < 6)%nat -> is_u 8 b -> length hex = 6%nat -> hex !! k = Some 0 ->
  str !! (3 * k)%nat = Some (hex_char (Z.shiftr b 4)) ->
  str !! (3 * k + 1)%nat = Some (hex_char (Z.land b 15)) ->
  str !! (3 * k + 2)%nat = (if decide (k = 5)%nat then None else Some 58) -> length str = 17%nat ->
  mac_loop strchr (S fuel) str 16 (3 * Z.of_nat k) k 6 hex =
    mac_loop strchr fuel str 16 (3 * Z.of_nat (S k)) (S k) 6 (<[k := b]> hex).
Proof using Hstrchr.
  intros Hk Hb Lh Hh E0 E1 E2 Ls. destruct (byte_halves b Hb) as (Hhi & Hlo & Hlor).
  destruct (hex_char_spec _ Hhi) as [D0 N0]. destruct (hex_char_spec _ Hlo) as [D1 N1].
  replace (3 * k)%nat with (Z.to_nat (3 * Z.of_nat k)) in E0 by lia.
  replace (3 * k + 1)%nat with (Z.to_nat (3 * Z.of_nat k + 1)) in E1 by lia.
  replace (3 * k + 2)%nat with (Z.to_nat (3 * Z.of_nat k + 2)) in E2 by lia.
  destruct (strchr_group str (3 * Z.of_nat k) _ _ ltac:(lia) E0 E1 N0 N1) as [F1 F2].
  rewrite Ls in F1, F2. change (Z.of_nat 17 - 1) with 16 in F1, F2.
  cbn [mac_loop]. rewrite (proj2 (Z.leb_le _ _)) by lia.
  assert (Ech : default (16 + 1) (strchr str (3 * Z.of_nat k) 16 58) = 3 * Z.of_nat k + 2 /\
    match strchr str (3 * Z.of_nat k) 16 58 with None => negb (Z.of_nat k =? 5) | Some _ => false end = false).
  { destruct (decide (k = 5)%nat) as [->|Hne]; [rewrite F2 by lia; done|by rewrite F1]. }
  destruct Ech as [-> ->]. replace (3 * Z.of_nat k + 2 - 3 * Z.of_nat k) with 2 by lia.
  rewrite Z.eqb_refl. unfold rd at 1 2. rewrite E0, E1. cbn [mbind outcome_bind].
  unfold set_high, set_low. rewrite D0, D1, wr_lt by lia. cbn [mbind outcome_bind].
  unfold rd. rewrite list_lookup_insert_eq by lia. cbn [mbind outcome_bind].
  rewrite wr_lt by (rewrite length_insert; lia). cbn [mbind outcome_bind].
  rewrite Hlor, list_insert_insert_eq, (proj2 (Z.ltb_ge _ _)) by lia.
  f_equal; [lia|lia].
Qed.

(** If the search that is missing were one for the first separator, the parser
    would read back every MAC address the library prints: the 17 characters of
    [MACADDR_FMT] give the six bytes and 0, whatever the buffer held. *)
Theorem mac_print_parse mac hex :
  length mac = 6%nat -> bytes_ok mac -> length hex = 6%nat ->
  kylin_addr_mac_addr_str2hex strchr 17 (mac_format mac) 6 hex = Ok (0, mac).
Proof using Hstrchr.
  intros Lm Hm Lh. do 7 (destruct mac as [|? mac]; try done).
  unfold kylin_addr_mac_addr_str2hex. rewrite write_bytes_ok by (rewrite ?length_replicate; lia).
  cbn [mbind outcome_bind]. rewrite !Forall_cons in Hm. destruct Hm as (? & ? & ? & ? & ? & ? & _).
  assert (E : splice hex (Z.to_nat 0) (replicate (Z.to_nat 6) 0) = replicate 6 0).
  { do 7 (destruct hex as [|? hex]; try done). }
  rewrite E. change (17 <? 11) with false. cbn iota. change (17 - 1) with 16.
  change (S (Z.to_nat 17)) with 18%nat. clear E.
  set (str := mac_format _).
  rewrite (mac_loop_group str 0 z) by (done || lia).
  rewrite (mac_loop_group str 1 z0) by (done || lia). rewrite (mac_loop_group str 2 z1) by (done || lia).
  rewrite (mac_loop_group str 3 z2) by (done || lia). rewrite (mac_loop_group str 4 z3) by (done || lia).
  rewrite (mac_loop_group str 5 z4) by (done || lia). done.
Qed.
End MacParse.

(** The search as a function, for the witness and the overflow below. *)
Fixpoint find_from (n : nat) (str : list Z) (start c : Z) : option Z :=
  match n with
  | O => None
  | S n => if decide (str !! Z.to_nat start = Some c) then Some start else find_from n str (start + 1) c
  end.
Definition find_char (str : list Z) (start stop c : Z) : option Z :=
  find_from (Z.to_nat (stop + 1 - start)) str start c.

Lemma find_char_first : strchr_first find_char.
Proof.
  intros str start stop c Hs _. unfold find_char.
  remember (Z.to_nat (stop + 1 - start)) as n eqn:En. revert start Hs En.
  induction n as [|n IH]; intros start Hs En; simpl; [lia|].
  destruct (decide _) as [Hd|Hd]; [split_and!; done || lia|].
  specialize (IH (start + 1) ltac:(lia) ltac:(lia)). destruct (find_from _ _ _ _) as [p|].
  - destruct IH as ([? ?] & ? & Hq). split_and!; [lia..|done|]. intros q Hq'.
    destruct (decide (q = start)) as [->|]; [done|]. apply Hq. lia.
  - intros q Hq. destruct (decide (q = start)) as [->|]; [done|]. apply IH. lia.
Qed.

Lemma mac_print_parse_witness :
  kylin_addr_mac_addr_str2hex find_char 17 (mac_format [0xf0; 0x79; 0x59; 0x69; 0xb6; 0x70]) 6
    (replicate 6 9) = Ok (0, [0xf0; 0x79; 0x59; 0x69; 0xb6; 0x70]).
Proof.
  apply (mac_print_parse find_char find_char_first); [done| |done].
  repeat constructor; unfold is_u; lia.
Defined.

(** Six groups and a trailing one: the seventh byte is written behind the
    buffer before the length is looked at. *)
Lemma mac_parse_overflow :
  kylin_addr_mac_addr_str2hex find_char 14
    [49; 58; 50; 58; 51; 58; 52; 58; 53; 58; 54; 58; 55; 58] 6 (replicate 6 0) = Ub.
Proof. reflexivity. Qed.
