(* ===== verification/AddrPrint.v ===== *)
(** * Printed addresses ([include/utils/kylin_addr.h])

    The two functions that print an address and a connection.  What they print
    is the result. *)

From S2P Require Import Prelude Bytes Addr Dump.

(** "%u.%u.%u.%u" of [NIPQUAD] *)
Definition dotted (bs : list Z) : list Z :=
  match bs with
  | a :: b :: c :: d :: _ => dec_text a ++ 46 :: dec_text b ++ 46 :: dec_text c ++ 46 :: dec_text d
  | _ => []
  end.
(** [IP6ADDR_FMT] of [NIP6QUAD]: pairs of bytes, colons between them and a blank
    at the end. *)
Fixpoint hex_pairs (bs : list Z) : list Z :=
  match bs with
  | [a; b] => hex_fixed true 2 a ++ hex_fixed true 2 b
  | a :: b :: bs => hex_fixed true 2 a ++ hex_fixed true 2 b ++ 58 :: hex_pairs bs
  | _ => []
  end.
Definition NIPQUAD (a : kaddr_t) : list Z := take 4 a.
Definition NIP6QUAD (a : kaddr_t) : list Z := take 16 a.
Definition ip6_text (a : kaddr_t) : list Z := hex_pairs (NIP6QUAD a) ++ [32].

Definition kylin_addr_dump (af : Z) (addr : kaddr_t) : list Z :=
  if af =? AF_INET then dotted (NIPQUAD addr) ++ [10]
  else if af =? AF_INET6 then ip6_text addr ++ [10]
  else [].

Definition ntohs (v : Z) : Z := byte_reverse 2 v.
(** "%s:%u -> %s:%u, proto:%u\n" *)
Definition tuple_text (text : kaddr_t -> list Z) (t : kylin_host_tuple_t) : list Z :=
  text (h_addr (t_src t)) ++ 58 :: dec_text (ntohs (h_port (t_src t))) ++ [32; 45; 62; 32] ++
  text (h_addr (t_dst t)) ++ 58 :: dec_text (ntohs (h_port (t_dst t))) ++
  [44; 32; 112; 114; 111; 116; 111; 58] ++ dec_text (t_proto t) ++ [10].
Definition kylin_host_tuple_dump (af : Z) (t : kylin_host_tuple_t) : list Z :=
  if af =? AF_INET then tuple_text (fun a => dotted (NIPQUAD a)) t
  else if af =? AF_INET6 then tuple_text ip6_text t
  else [].

(** ** Two addresses are printed alike only if they are equal *)
Definition dec_value (l : list Z) : Z := fold_left (fun v c => 10 * v + (c - 48)) l 0.
Definition below (n : nat) : list Z := map Z.of_nat (seq 0 n).

Lemma in_below n z : 0 <= z < Z.of_nat n -> In z (below n).
Proof. intros H. apply List.in_map_iff. exists (Z.to_nat z). split; [lia|]. apply List.in_seq. lia. Qed.

Lemma byte_text z : 0 <= z < 256 -> dec_value (dec_text z) = z /\ Forall (fun c => c <> 46) (dec_text z).
Proof.
  intros Hz. pose proof (in_below 256 z Hz) as H.
  assert (E : forallb (fun z => (dec_value (dec_text z) =? z) && forallb (fun c => negb (c =? 46)) (dec_text z)) (below 256) = true)
    by (vm_compute; reflexivity).
  rewrite List.forallb_forall in E. apply E in H. apply andb_prop in H as [H1 H2]. split; [lia|].
  apply List.Forall_forall. intros c Hc. rewrite List.forallb_forall in H2. specialize (H2 c Hc). lia.
Qed.

Lemma split_dot x y x' y' : Forall (fun c => c <> 46) x -> Forall (fun c => c <> 46) x' ->
  x ++ 46 :: y = x' ++ 46 :: y' -> x = x' /\ y = y'.
Proof.
  intros Hx. revert x'. induction Hx as [|c x Hc Hx IH]; intros [|c' x'] Hx' E;
    pose proof (f_equal (hd 0) E) as E1; pose proof (f_equal (@tl Z) E) as E2; simpl in E1, E2.
  - by split.
  - by apply Forall_cons in Hx' as [? _].
  - by subst.
  - apply Forall_cons in Hx' as [_ Hx']. by destruct (IH x' Hx' E2) as [-> ->]; subst.
Qed.

Lemma dec_text_inj a b : is_u 8 a -> is_u 8 b -> dec_text a = dec_text b -> a = b.
Proof.
  intros Ha Hb E. unfold is_u in *. destruct (byte_text a Ha) as [<- _], (byte_text b Hb) as [<- _]. by rewrite E.
Qed.

Lemma dotted_inj a b c d a' b' c' d' : bytes_ok [a; b; c; d] -> bytes_ok [a'; b'; c'; d'] ->
  dotted [a; b; c; d] = dotted [a'; b'; c'; d'] -> [a; b; c; d] = [a'; b'; c'; d'].
Proof.
  rewrite !Forall_cons. intros (? & ? & ? & ? & _) (? & ? & ? & ? & _) E. unfold dotted in E.
  assert (N : forall z, is_u 8 z -> Forall (fun c => c <> 46) (dec_text z)) by (intros; by apply byte_text).
  apply split_dot in E as [E1 E]; [|by apply N..]. apply split_dot in E as [E2 E]; [|by apply N..].
  apply split_dot in E as [E3 E4]; [|by apply N..]. by rewrite (dec_text_inj a a'), (dec_text_inj b b'), (dec_text_inj c c'), (dec_text_inj d d').
Qed.

Lemma hex_byte_inj a b : is_u 8 a -> is_u 8 b -> hex_fixed true 2 a = hex_fixed true 2 b -> a = b.
Proof.
  set (val := fun l => match l with [x; y] => 16 * (if x <? 58 then x - 48 else x - 55) + (if y <? 58 then y - 48 else y - 55) | _ => 0 end : Z).
  assert (V : forall z, is_u 8 z -> val (hex_fixed true 2 z) = z).
  { intros z Hz. pose proof (in_below 256 z Hz) as H.
    assert (E : forallb (fun z => val (hex_fixed true 2 z) =? z) (below 256) = true) by (vm_compute; reflexivity).
    rewrite List.forallb_forall in E. apply E in H. lia. }
  intros Ha Hb E. rewrite <- (V a Ha), <- (V b Hb). by rewrite E.
Qed.

Lemma hex_pairs_inj n : forall bs bs', length bs = (2 * n)%nat -> length bs' = (2 * n)%nat ->
  bytes_ok bs -> bytes_ok bs' -> hex_pairs bs = hex_pairs bs' -> bs = bs'.
Proof.
  induction n as [|n IH]; intros [|a [|b bs]] [|a' [|b' bs']] L L' H H' E; simpl in L, L'; try lia; [done|].
  apply Forall_cons in H as [Ha H], H' as [Ha' H']. apply Forall_cons in H as [Hb H], H' as [Hb' H'].
  assert (L2 : forall z w (r r' : list Z), is_u 8 z -> is_u 8 w -> hex_fixed true 2 z ++ r = hex_fixed true 2 w ++ r' -> z = w /\ r = r').
  { intros z w r r' Hz Hw Er. apply app_inj_1 in Er as [E1 E2]; [|by rewrite !length_hex]. split; [|exact E2].
    by apply hex_byte_inj. }
  destruct bs as [|c bs], bs' as [|c' bs']; cbn [length] in *; try lia.
  - cbn [hex_pairs] in E. apply L2 in E as [-> E]; [|done..]. by apply hex_byte_inj in E as ->.
  - assert (E' : hex_fixed true 2 a ++ hex_fixed true 2 b ++ 58 :: hex_pairs (c :: bs) =
                 hex_fixed true 2 a' ++ hex_fixed true 2 b' ++ 58 :: hex_pairs (c' :: bs')) by exact E.
    apply L2 in E' as [-> E']; [|done..]. apply L2 in E' as [-> E']; [|done..]. injection E' as E'.
    do 2 f_equal. apply IH; [simpl; lia..|done|done|exact E'].
Qed.

(** The bytes an address of a family has. *)
Definition addr_len (af : Z) : nat := if af =? AF_INET then 4%nat else 16%nat.

(** The dump of an address shows which one it is, for both families. *)
Theorem addr_dump_injective af a b :
  (af = AF_INET \/ af = AF_INET6) -> length a = 16%nat -> length b = 16%nat -> bytes_ok a -> bytes_ok b ->
  kylin_addr_dump af a = kylin_addr_dump af b -> kylin_addr_comp af a b = 0.
Proof.
  intros Haf La Lb Ha Hb E.
  assert (T : take (addr_len af) a = take (addr_len af) b).
  { destruct Haf as [-> | ->]; cbn in E |- *; apply app_inv_tail in E.
    - sixteen a. sixteen b. cbn [NIPQUAD take] in *. apply (Forall_take _ 4) in Ha, Hb. by apply dotted_inj.
    - unfold ip6_text, NIP6QUAD in E. apply app_inv_tail in E. apply (hex_pairs_inj 8); try (rewrite length_take; lia); [by apply Forall_take..|exact E]. }
  assert (W : forall i, (4 * i + 4 <= addr_len af)%nat -> addr32 a i = addr32 b i).
  { intros i Hi. unfold addr32. f_equal. rewrite !take_drop_commute. f_equal.
    replace (4 * i + 4)%nat with ((4 * i + 4) `min` addr_len af)%nat by lia. by rewrite <- !take_take, T. }
  unfold kylin_addr_comp. destruct Haf as [-> | ->].
  - change (AF_INET =? AF_INET) with true. cbv iota. unfold cmp_word. rewrite (W 0%nat) by (vm_compute; lia).
    by rewrite Z.ltb_irrefl.
  - change (AF_INET6 =? AF_INET) with false. cbv iota. unfold cmp_word.
    rewrite (W 0%nat), (W 1%nat), (W 2%nat), (W 3%nat) by (vm_compute; lia). by rewrite !Z.ltb_irrefl.
Qed.
