(* ===== verification/Elf.v ===== *)
(** * Symbol tables of ELF files ([lib/core/kylin_core_module_elf.c])

    The file is mapped as a list of bytes; a pointer into it is its 64-bit
    distance from the start, pointer arithmetic wraps, and an access outside of
    the file is [Ub].  The loader walks the section headers of a file of
    either class and byte order and hands the symbols to a callback.

    The decoding functions [be16dec] to [le64dec] are not part of the
    repository: they are a record of arguments.  The hook and the print
    function of the caller are functions on a state of the caller's. *)

From S2P Require Import Prelude Errors Bytes.

Inductive elf_member :=
| D_TAG | D_PTR | D_VAL
| E_CLASS | E_DATA | E_OSABI | E_TYPE | E_MACHINE | E_VERSION | E_ENTRY | E_PHOFF | E_SHOFF
| E_FLAGS | E_EHSIZE | E_PHENTSIZE | E_PHNUM | E_SHENTSIZE | E_SHNUM | E_SHSTRNDX
| N_NAMESZ | N_DESCSZ | N_TYPE
| P_TYPE | P_OFFSET | P_VADDR | P_PADDR | P_FILESZ | P_MEMSZ | P_FLAGS | P_ALIGN
| SH_NAME | SH_TYPE | SH_FLAGS | SH_ADDR | SH_OFFSET | SH_SIZE | SH_LINK | SH_INFO
| SH_ADDRALIGN | SH_ENTSIZE
| ST_NAME | ST_VALUE | ST_SIZE | ST_INFO | ST_SHNDX
| R_OFFSET | R_INFO
| RA_OFFSET | RA_INFO | RA_ADDEND.

(** [D_TAG = 1], the others count on. *)
Definition member_index (m : elf_member) : nat :=
  match m with
  | D_TAG => 1 | D_PTR => 2 | D_VAL => 3
  | E_CLASS => 4 | E_DATA => 5 | E_OSABI => 6 | E_TYPE => 7 | E_MACHINE => 8 | E_VERSION => 9
  | E_ENTRY => 10 | E_PHOFF => 11 | E_SHOFF => 12 | E_FLAGS => 13 | E_EHSIZE => 14
  | E_PHENTSIZE => 15 | E_PHNUM => 16 | E_SHENTSIZE => 17 | E_SHNUM => 18 | E_SHSTRNDX => 19
  | N_NAMESZ => 20 | N_DESCSZ => 21 | N_TYPE => 22
  | P_TYPE => 23 | P_OFFSET => 24 | P_VADDR => 25 | P_PADDR => 26 | P_FILESZ => 27 | P_MEMSZ => 28
  | P_FLAGS => 29 | P_ALIGN => 30
  | SH_NAME => 31 | SH_TYPE => 32 | SH_FLAGS => 33 | SH_ADDR => 34 | SH_OFFSET => 35 | SH_SIZE => 36
  | SH_LINK => 37 | SH_INFO => 38 | SH_ADDRALIGN => 39 | SH_ENTSIZE => 40
  | ST_NAME => 41 | ST_VALUE => 42 | ST_SIZE => 43 | ST_INFO => 44 | ST_SHNDX => 45
  | R_OFFSET => 46 | R_INFO => 47
  | RA_OFFSET => 48 | RA_INFO => 49 | RA_ADDEND => 50
  end.

(** The structures of [elf.h]. *)
Definition elf32_offsets : list Z :=
  [0; 0; 4; 4;
   4; 5; 7; 16; 18; 20; 24; 28; 32; 36; 40; 42; 44; 46; 48; 50;
   0; 4; 8;
   0; 4; 8; 12; 16; 20; 24; 28;
   0; 4; 8; 12; 16; 20; 24; 28; 32; 36;
   0; 4; 8; 12; 14;
   0; 4;
   0; 4; 8].

Definition elf64_offsets : list Z :=
  [0; 0; 8; 8;
   4; 5; 7; 16; 18; 20; 24; 32; 40; 48; 52; 54; 56; 58; 60; 62;
   0; 4; 8;
   0; 8; 16; 24; 32; 40; 4; 48;
   0; 4; 8; 16; 24; 32; 40; 44; 48; 56;
   0; 8; 16; 4; 6;
   0; 8;
   0; 8; 16].

(** The two name tables [__elf_symtab_print] uses; a name is its string. *)
Inductive st_name :=
| STT_NOTYPE | STT_OBJECT | STT_FUNC | STT_SECTION | STT_FILE
| STB_LOCAL | STB_GLOBAL | STB_WEAK.
Definition st_types : list st_name := [STT_NOTYPE; STT_OBJECT; STT_FUNC; STT_SECTION; STT_FILE].
Definition st_bindings : list st_name := [STB_LOCAL; STB_GLOBAL; STB_WEAK].

Definition EI_CLASS : Z := 4.
Definition EI_DATA : Z := 5.
Definition ELFCLASS32 : Z := 1.
Definition ELFCLASS64 : Z := 2.
Definition ELFDATA2LSB : Z := 1.
Definition ELFDATA2MSB : Z := 2.
Definition SHT_SYMTAB : Z := 2.

Record decoders := mk_decoders {
  be16dec : list Z -> Z; be32dec : list Z -> Z; be64dec : list Z -> Z;
  le16dec : list Z -> Z; le32dec : list Z -> Z; le64dec : list Z -> Z;
}.

Section Elf.
Context (D : decoders) (img : list Z).

Definition bytes_at (p : Z) (n : nat) : outcome (list Z) :=
  if (0 <=? p) && (p + Z.of_nat n <=? Z.of_nat (length img))
  then Ok (take n (drop (Z.to_nat p) img)) else Ub.

Definition byte_at (p : Z) : outcome Z := if p <? 0 then Ub else rd img (Z.to_nat p).

Definition decode (dec : list Z -> Z) (n : nat) (p : Z) : outcome Z := bs ← bytes_at p n; mret (dec bs).

Definition offset_of (t : list Z) (m : elf_member) : Z := nth (member_index m) t 0.

(** A [char] is signed: its value is sign-extended to 64 bits. *)
Definition __elf_get_byte (base : Z) (m : elf_member) : outcome Z :=
  c ← byte_at EI_CLASS;
  if c =? ELFCLASS32 then b ← byte_at (u64 (base + offset_of elf32_offsets m)); mret (u64 (sw 8 b))
  else if c =? ELFCLASS64 then b ← byte_at (u64 (base + offset_of elf64_offsets m)); mret (u64 (sw 8 b))
  else mret 0.

(** The body of the other three: the field is [n32] bytes wide in 32-bit files
    and [n64] in 64-bit ones. *)
Definition elf_get (be32 le32 : list Z -> Z) (n32 : nat) (be64 le64 : list Z -> Z) (n64 : nat)
    (base : Z) (m : elf_member) : outcome Z :=
  c ← byte_at EI_CLASS;
  if c =? ELFCLASS32 then
    d ← byte_at EI_DATA;
    let p := u64 (base + offset_of elf32_offsets m) in
    if d =? ELFDATA2MSB then decode be32 n32 p
    else if d =? ELFDATA2LSB then decode le32 n32 p else mret 0
  else if c =? ELFCLASS64 then
    d ← byte_at EI_DATA;
    let p := u64 (base + offset_of elf64_offsets m) in
    if d =? ELFDATA2MSB then decode be64 n64 p
    else if d =? ELFDATA2LSB then decode le64 n64 p else mret 0
  else mret 0.

Definition __elf_get_word : Z -> elf_member -> outcome Z :=
  elf_get (be32dec D) (le32dec D) 4 (be32dec D) (le32dec D) 4.
Definition __elf_get_quad : Z -> elf_member -> outcome Z :=
  elf_get (be32dec D) (le32dec D) 4 (be64dec D) (le64dec D) 8.
Definition __elf_get_quarter : Z -> elf_member -> outcome Z :=
  elf_get (be16dec D) (le16dec D) 2 (be16dec D) (le16dec D) 2.

(** [strcmp(p, s) == 0]: reads up to the first difference. *)
Fixpoint str_equal (p : Z) (s : list Z) : outcome bool :=
  c ← byte_at p;
  match s with
  | [] => mret (c =? 0)
  | x :: s => if c =? x then str_equal (u64 (p + 1)) s else mret false
  end.

(** The string at [p]. *)
Fixpoint c_string (fuel : nat) (p : Z) : outcome (list Z) :=
  match fuel with
  | O => OutOfFuel
  | S fuel =>
      c ← byte_at p;
      if c =? 0 then mret [] else s ← c_string fuel (u64 (p + 1)); mret (c :: s)
  end.
Definition string_at (p : Z) : outcome (list Z) := c_string (S (length img)) p.

Definition lift {S A} (o : outcome A) : M S A := fun s =>
  match o with Ok a => Ok (a, s) | Ub => Ub | OutOfFuel => OutOfFuel end.

(** [str + name] of a string table that may not have been found. *)
Definition in_table (str : option Z) (name : Z) : outcome Z :=
  match str with Some p => Ok (u64 (p + name)) | None => Ub end.

(** [for(int i = 0; i < len; i++)] whose body may return. *)
Fixpoint sym_loop {S} (body : Z -> M S kerr_t) (n : nat) (i : Z) : M S kerr_t :=
  match n with
  | O => mret KYLIN_ERROR_OK
  | S n =>
      r ← body i; if decide (r = KYLIN_ERROR_OK) then sym_loop body n (i + 1) else mret r
  end.

(** [int len = size / entsize] *)
Definition table_len (size entsize : Z) : outcome Z :=
  if entsize =? 0 then Ub else Ok (s32 (size / entsize)).

Section Symbols.
Context {S : Type} (hook : Z -> Z -> M S kerr_t).

Definition symtab_entry (str : option Z) (offset entsize i : Z) : M S kerr_t :=
  let st := u64 (offset + i * entsize) in
  name ← lift (__elf_get_word st ST_NAME);
  value ← lift (__elf_get_quad st ST_VALUE);
  _ ← lift (__elf_get_quad st ST_SIZE);
  p ← lift (in_table str name);
  c ← lift (byte_at p);
  if negb (c =? 0) && negb (value =? 0) then hook p value else mret KYLIN_ERROR_OK.

Definition __elf_symtab_get (sh : Z) (str : option Z) : M S kerr_t :=
  offset ← lift (__elf_get_quad sh SH_OFFSET);
  entsize ← lift (__elf_get_quad sh SH_ENTSIZE);
  size ← lift (__elf_get_quad sh SH_SIZE);
  _ ← lift (__elf_get_word sh SH_NAME);
  len ← lift (table_len size entsize);
  sym_loop (symtab_entry str offset entsize) (Z.to_nat len) 0.
End Symbols.

(** What the print function is given, one constructor per call. *)
Inductive line :=
| LTable (name : list Z)
| LBlank
| LEntry (i : Z)
| LName (name : list Z)
| LValue (v : Z)
| LSize (n : Z)
| LInfo (type bind : st_name)
| LShndx (n : Z).

Section Print.
Context {S : Type} (print : line -> M S unit).

(** [ELF32_ST_TYPE], [ELF32_ST_BIND] *)
Definition st_type_of (info : Z) : Z := Z.land info 15.
Definition st_bind_of (info : Z) : Z := Z.shiftr (u8 info) 4.

Definition print_entry (str : option Z) (offset entsize i : Z) : M S kerr_t :=
  let st := u64 (offset + i * entsize) in
  name ← lift (__elf_get_word st ST_NAME);
  value ← lift (__elf_get_quad st ST_VALUE);
  size ← lift (__elf_get_quad st ST_SIZE);
  info ← lift (__elf_get_byte st ST_INFO);
  shndx ← lift (__elf_get_quarter st ST_SHNDX);
  _ ← print LBlank; _ ← print (LEntry i);
  p ← lift (in_table str name); s ← lift (string_at p); _ ← print (LName s);
  _ ← print (LValue value); _ ← print (LSize (s32 size));
  t ← lift (rd st_types (Z.to_nat (st_type_of info)));
  b ← lift (rd st_bindings (Z.to_nat (st_bind_of info)));
  _ ← print (LInfo t b); _ ← print (LShndx (s32 shndx));
  mret KYLIN_ERROR_OK.

Definition __elf_symtab_print (sh shstrtab : Z) (str : option Z) : M S unit :=
  offset ← lift (__elf_get_quad sh SH_OFFSET);
  entsize ← lift (__elf_get_quad sh SH_ENTSIZE);
  size ← lift (__elf_get_quad sh SH_SIZE);
  name ← lift (__elf_get_word sh SH_NAME);
  len ← lift (table_len size entsize);
  s ← lift (string_at (u64 (shstrtab + name))); _ ← print (LTable s);
  _ ← sym_loop (print_entry str offset entsize) (Z.to_nat len) 0; mret tt.
End Print.

Definition strtab_name : list Z := [46; 115; 116; 114; 116; 97; 98].

(** The first loop: the last section named [.strtab]. *)
Fixpoint find_strtab (sh shentsize shstrtab : Z) (n : nat) (i : Z) (strtab : option Z) : outcome (option Z) :=
  match n with
  | O => mret strtab
  | S n =>
      let v := u64 (sh + i * shentsize) in
      name ← __elf_get_word v SH_NAME;
      offset ← __elf_get_quad v SH_OFFSET;
      eq ← str_equal (u64 (shstrtab + name)) strtab_name;
      find_strtab sh shentsize shstrtab n (i + 1) (if eq : bool then Some (u64 offset) else strtab)
  end.

(** The second loop: every symbol table, until one fails. *)
Definition section_step {S} (table : Z -> M S kerr_t) (sh shentsize i : Z) : M S kerr_t :=
  let v := u64 (sh + i * shentsize) in
  type ← lift (__elf_get_word v SH_TYPE);
  if type =? SHT_SYMTAB then table v else mret KYLIN_ERROR_OK.

Definition __elf_symtab_process {S} (table : Z -> option Z -> Z -> M S kerr_t) : M S kerr_t :=
  shoff ← lift (__elf_get_quad 0 E_SHOFF);
  shentsize ← lift (__elf_get_quarter 0 E_SHENTSIZE);
  shnum ← lift (__elf_get_quarter 0 E_SHNUM);
  shstrndx ← lift (__elf_get_quarter 0 E_SHSTRNDX);
  shstrtab ← lift (__elf_get_quad (u64 (shoff + shstrndx * shentsize)) SH_OFFSET);
  strtab ← lift (find_strtab shoff shentsize shstrtab (Z.to_nat shnum) 0 None);
  sym_loop (section_step (table shstrtab strtab) shoff shentsize) (Z.to_nat shnum) 0.

Definition kylin_elf_symbol {S} (hook : Z -> Z -> M S kerr_t) : M S kerr_t :=
  __elf_symtab_process (fun _ strtab v => __elf_symtab_get hook v strtab).

Definition kylin_elf_dump {S} (print : line -> M S unit) : M S kerr_t :=
  __elf_symtab_process (fun shstrtab strtab v =>
    _ ← __elf_symtab_print print v shstrtab strtab; mret KYLIN_ERROR_OK).
End Elf.

(** ** Files with a symbol table

    The file a linker would write, of either class ([wide]: 64 bits) and byte
    order ([msb]: big-endian): a header, the symbols, the two string tables and
    four section headers.  Structures are given by their fields in the order of
    the ELF specification, each a width in bytes and a value. *)

Section Files.
Context (wide msb : bool).

Definition enc (n : nat) (v : Z) : list Z := if msb then rev (le_bytes n v) else le_bytes n v.
Definition encode (fs : list (nat * Z)) : list Z := concat (map (fun f => enc f.1 f.2) fs).

(** The width of an address, an offset or a size. *)
Definition aw : nat := if wide then 8 else 4.
Definition b1 (v : Z) : nat * Z := (1%nat, v).
Definition b2 (v : Z) : nat * Z := (2%nat, v).
Definition b4 (v : Z) : nat * Z := (4%nat, v).
Definition b8 (v : Z) : nat * Z := (8%nat, v).
Definition ba (v : Z) : nat * Z := (aw, v).

Definition ehdr (shoff shnum shstrndx : Z) : list (nat * Z) :=
  [b1 127; b1 69; b1 76; b1 70; b1 (if wide then 2 else 1); b1 (if msb then 2 else 1);
   b1 1; b1 0; b1 0; b1 0; b1 0; b1 0; b1 0; b1 0; b1 0; b1 0;
   b2 3; b2 62; b4 1; ba 0; ba 0; ba shoff; b4 0; b2 (if wide then 64 else 52);
   b2 0; b2 0; b2 (if wide then 64 else 40); b2 shnum; b2 shstrndx].

Definition shdr (name type offset size link entsize : Z) : list (nat * Z) :=
  [b4 name; b4 type; ba 0; ba 0; ba offset; ba size; b4 link; b4 0; ba 1;
   ba entsize].

Record elf_sym := mk_sym { sy_name : list Z; sy_value : Z; sy_size : Z; sy_info : Z; sy_shndx : Z }.

Definition sym (name : Z) (y : elf_sym) : list (nat * Z) :=
  if wide then [b4 name; b1 (sy_info y); b1 0; b2 (sy_shndx y); b8 (sy_value y); b8 (sy_size y)]
  else [b4 name; b4 (sy_value y); b4 (sy_size y); b1 (sy_info y); b1 0; b2 (sy_shndx y)].

Definition ehsize : Z := if wide then 64 else 52.
Definition symsize : Z := if wide then 24 else 16.
Definition shsize : Z := if wide then 64 else 40.

(** The names, each ended by a zero, from offset 1 on; and the symbols. *)
Definition strtab_of (ys : list elf_sym) : list Z := 0 :: concat (map (fun y => sy_name y ++ [0]) ys).
Fixpoint symtab_of (off : Z) (ys : list elf_sym) : list Z :=
  match ys with
  | [] => []
  | y :: ys => encode (sym off y) ++ symtab_of (off + Z.of_nat (length (sy_name y)) + 1) ys
  end.

(** [\0.symtab\0.strtab\0.shstrtab\0] *)
Definition shstrtab_of : list Z :=
  0 :: [46; 115; 121; 109; 116; 97; 98; 0] ++ strtab_name ++ 0 :: [46; 115; 104; 115; 116; 114; 116; 97; 98; 0].

(** Where the parts after the header are. *)
Definition sym_pos : Z := ehsize.
Definition str_pos (ys : list elf_sym) : Z := sym_pos + symsize * Z.of_nat (length ys).
Definition shstr_pos (ys : list elf_sym) : Z := str_pos ys + Z.of_nat (length (strtab_of ys)).
Definition sh_pos (ys : list elf_sym) : Z := shstr_pos ys + Z.of_nat (length shstrtab_of).

(** The four section headers: no section, the symbols, the two string tables. *)
Definition sec_name (i : nat) : list Z :=
  nth i [[]; [46; 115; 121; 109; 116; 97; 98]; strtab_name; [46; 115; 104; 115; 116; 114; 116; 97; 98]] [].
Definition sec_name_off (i : nat) : Z := nth i [0; 1; 9; 17] 0.
Definition sec_type (i : nat) : Z := nth i [0; 2; 3; 3] 0.
Definition sec_off (ys : list elf_sym) (i : nat) : Z := nth i [0; sym_pos; str_pos ys; shstr_pos ys] 0.
Definition sec_size (ys : list elf_sym) (i : nat) : Z :=
  nth i [0; symsize * Z.of_nat (length ys); Z.of_nat (length (strtab_of ys)); Z.of_nat (length shstrtab_of)] 0.
Definition sec_entsize (i : nat) : Z := nth i [0; symsize; 0; 0] 0.
Definition header (ys : list elf_sym) (i : nat) : list (nat * Z) :=
  shdr (sec_name_off i) (sec_type i) (sec_off ys i) (sec_size ys i) (nth i [0; 2; 0; 0] 0) (sec_entsize i).

Definition elf_file (ys : list elf_sym) : list Z :=
  encode (ehdr (sh_pos ys) 4 3) ++ symtab_of 1 ys ++ strtab_of ys ++ shstrtab_of ++
  encode (header ys 0) ++ encode (header ys 1) ++ encode (header ys 2) ++ encode (header ys 3).

Definition sym_ok (y : elf_sym) : Prop :=
  Forall (fun c => 0 < c < 256) (sy_name y) /\ is_u (8 * Z.of_nat aw) (sy_value y) /\
  is_u (8 * Z.of_nat aw) (sy_size y).

(** ** Reading the structures back *)
Definition holds (img : list Z) (p : Z) (bs : list Z) : Prop :=
  exists a b, img = a ++ bs ++ b /\ p = Z.of_nat (length a).

Lemma holds_app img p x y : holds img p (x ++ y) -> holds img p x /\ holds img (p + Z.of_nat (length x)) y.
Proof using Type.
  intros (a & b & -> & ->). split.
  - exists a, (y ++ b). by rewrite <- app_assoc.
  - exists (a ++ x), b. rewrite length_app, <- !app_assoc. split; [done|lia].
Qed.

Lemma holds_range img p bs : holds img p bs -> 0 <= p /\ p + Z.of_nat (length bs) <= Z.of_nat (length img).
Proof using Type. intros (a & b & -> & ->). rewrite !length_app. lia. Qed.

Lemma bytes_at_ok img p bs : holds img p bs -> bytes_at img p (length bs) = Ok bs.
Proof using Type.
  intros (a & b & -> & ->). unfold bytes_at. rewrite !length_app.
  rewrite (proj2 (Z.leb_le _ _)), (proj2 (Z.leb_le _ _)) by lia. simpl.
  by rewrite Nat2Z.id, drop_app_length, take_app_length.
Qed.

Lemma byte_at_ok img p c bs : holds img p (c :: bs) -> byte_at img p = Ok c.
Proof using Type.
  intros (a & b & -> & ->). unfold byte_at, rd. rewrite (proj2 (Z.ltb_ge _ _)) by lia.
  rewrite Nat2Z.id. simpl. by rewrite list_lookup_middle.
Qed.

Lemma length_enc n v : length (enc n v) = n.
Proof using Type. unfold enc. destruct msb; rewrite ?length_rev; apply length_le_bytes. Qed.

Definition width_sum (fs : list (nat * Z)) : Z := Z.of_nat (list_sum (map fst fs)).

Lemma length_encode fs : Z.of_nat (length (encode fs)) = width_sum fs.
Proof using Type.
  unfold width_sum, encode. f_equal. induction fs as [|[n v] fs IH]; [done|]. simpl.
  by rewrite length_app, length_enc, IH.
Qed.

(** Field [i] of a structure in the file. *)
Lemma holds_field img p fs i n v : holds img p (encode fs) -> fs !! i = Some (n, v) ->
  holds img (p + width_sum (take i fs)) (enc n v).
Proof using Type.
  revert p i. induction fs as [|[n' v'] fs IH]; intros p i H Hi; [done|].
  apply holds_app in H as [H1 H2]. destruct i as [|i]; simpl in Hi |- *.
  - simplify_eq. unfold width_sum. simpl. by rewrite Z.add_0_r.
  - specialize (IH _ _ H2 Hi). cbn [fst snd] in IH. rewrite length_enc in IH.
    unfold width_sum in IH |- *. simpl. by replace (p + Z.of_nat (n' + _)) with
      (p + Z.of_nat n' + Z.of_nat (list_sum (map fst (take i fs)))) by lia.
Qed.

(** The decoding functions, as their manual describes them. *)
Record decoders_ok (D : decoders) : Prop := {
  be16_ok : forall bs, length bs = 2%nat -> be16dec D bs = be_value bs;
  be32_ok : forall bs, length bs = 4%nat -> be32dec D bs = be_value bs;
  be64_ok : forall bs, length bs = 8%nat -> be64dec D bs = be_value bs;
  le16_ok : forall bs, length bs = 2%nat -> le16dec D bs = le_value bs;
  le32_ok : forall bs, length bs = 4%nat -> le32dec D bs = le_value bs;
  le64_ok : forall bs, length bs = 8%nat -> le64dec D bs = le_value bs;
}.

Context (D : decoders) (DK : decoders_ok D) (img : list Z) (Hlen : Z.of_nat (length img) < 2 ^ 31).
Context (shoff shnum shstrndx : Z) (Heh : holds img 0 (encode (ehdr shoff shnum shstrndx))).
#[local] Set Default Proof Using "All".

Lemma decode_ok dec n p v : (forall bs, length bs = n -> dec bs = if msb then be_value bs else le_value bs) ->
  holds img p (enc n v) -> is_u (8 * Z.of_nat n) v -> decode img dec n p = Ok v.
Proof.
  intros Hd Hh Hv. unfold decode. rewrite <- (length_enc n v) at 1. rewrite (bytes_at_ok _ _ _ Hh). simpl.
  unfold mret, outcome_ret. f_equal. rewrite Hd by apply length_enc. unfold enc, be_value.
  destruct msb; rewrite ?rev_involutive, le_value_le_bytes; by apply Z.mod_small.
Qed.

Lemma class_ok : byte_at img EI_CLASS = Ok (if wide then ELFCLASS64 else ELFCLASS32).
Proof.
  pose proof (holds_field _ _ _ 4 _ _ Heh eq_refl) as H. apply (byte_at_ok _ _ _ []).
  unfold enc in H. destruct wide, msb; exact H.
Qed.

Lemma data_ok : byte_at img EI_DATA = Ok (if msb then ELFDATA2MSB else ELFDATA2LSB).
Proof.
  pose proof (holds_field _ _ _ 5 _ _ Heh eq_refl) as H. apply (byte_at_ok _ _ _ []).
  unfold enc in H. destruct wide, msb; exact H.
Qed.

(** A field of a structure in the file is read as it was written. *)
Definition reads_as (get : Z -> elf_member -> outcome Z) (n : nat) : Prop :=
  forall base fs i m v, holds img base (encode fs) -> fs !! i = Some (n, v) ->
    width_sum (take i fs) = offset_of (if wide then elf64_offsets else elf32_offsets) m ->
    is_u (8 * Z.of_nat n) v -> get base m = Ok v.

Lemma elf_get_ok be32 le32 n32 be64 le64 n64 :
  (forall bs, length bs = n32 -> be32 bs = be_value bs) -> (forall bs, length bs = n32 -> le32 bs = le_value bs) ->
  (forall bs, length bs = n64 -> be64 bs = be_value bs) -> (forall bs, length bs = n64 -> le64 bs = le_value bs) ->
  reads_as (elf_get img be32 le32 n32 be64 le64 n64) (if wide then n64 else n32).
Proof.
  intros B3 L3 B6 L6 base fs i m v Hh Hi Hw Hv. apply (holds_field _ _ _ _ _ _ Hh) in Hi. rewrite Hw in Hi.
  pose proof (holds_range _ _ _ Hi) as Hr.
  unfold elf_get. rewrite class_ok. cbn [mbind outcome_bind].
  assert (Hu : forall z, z = base + offset_of (if wide then elf64_offsets else elf32_offsets) m ->
    holds img (u64 z) (enc (if wide then n64 else n32) v)).
  { intros z ->. rewrite uw_id; [done|]. unfold is_u. lia. }
  rewrite data_ok. cbn [mbind outcome_bind].
  assert (Hd : forall dec n, (forall bs, length bs = n -> dec bs = if msb then be_value bs else le_value bs) ->
    n = (if wide then n64 else n32) ->
    decode img dec n (u64 (base + offset_of (if wide then elf64_offsets else elf32_offsets) m)) = Ok v).
  { intros dec n Hdec ->. apply decode_ok; [exact Hdec|by apply Hu|done]. }
  destruct wide; [change (ELFCLASS64 =? ELFCLASS32) with false|]; simpl; destruct msb; simpl; by apply Hd.
Qed.

Lemma word_ok : reads_as (__elf_get_word D img) 4.
Proof. pose proof (elf_get_ok _ _ _ _ _ _ (be32_ok _ DK) (le32_ok _ DK) (be32_ok _ DK) (le32_ok _ DK)) as H. by destruct wide. Qed.

Lemma quad_ok : reads_as (__elf_get_quad D img) aw.
Proof. pose proof (elf_get_ok _ _ _ _ _ _ (be32_ok _ DK) (le32_ok _ DK) (be64_ok _ DK) (le64_ok _ DK)) as H. unfold aw. by destruct wide. Qed.

Lemma quarter_ok : reads_as (__elf_get_quarter D img) 2.
Proof. pose proof (elf_get_ok _ _ _ _ _ _ (be16_ok _ DK) (le16_ok _ DK) (be16_ok _ DK) (le16_ok _ DK)) as H. by destruct wide. Qed.

(** Strings. *)
Lemma next_ok p c bs : holds img p (c :: bs) -> u64 (p + 1) = p + 1 /\ holds img (p + 1) bs.
Proof.
  intros H. pose proof (holds_range _ _ _ H) as Hr. simpl in Hr. split; [apply uw_id; unfold is_u; lia|].
  by apply (holds_app _ _ [c]) in H as [_ H].
Qed.

Lemma c_string_ok n s p : (length s < n)%nat -> Forall (fun c => 0 < c < 256) s -> holds img p (s ++ [0]) ->
  c_string img n p = Ok s.
Proof.
  revert n p. induction s as [|c s IH]; intros [|n] p Hn Hs Hh; simpl in Hn; try lia; simpl in Hh |- *;
    rewrite (byte_at_ok _ _ _ _ Hh); [done|].
  apply Forall_cons in Hs as [Hc Hs]. cbn [mbind outcome_bind].
  rewrite (proj2 (Z.eqb_neq c 0)) by lia. destruct (next_ok _ _ _ Hh) as [-> Hh'].
  by rewrite (IH n _ ltac:(lia) Hs Hh').
Qed.

Lemma string_at_ok s p : Forall (fun c => 0 < c < 256) s -> holds img p (s ++ [0]) -> string_at img p = Ok s.
Proof.
  intros Hs Hh. apply c_string_ok; [|done|done]. pose proof (holds_range _ _ _ Hh) as Hr.
  rewrite length_app in Hr. lia.
Qed.

Lemma str_equal_ok s n p : Forall (fun c => 0 < c < 256) s -> Forall (fun c => 0 < c < 256) n ->
  holds img p (n ++ [0]) -> str_equal img p s = Ok (bool_decide (n = s)).
Proof.
  revert n p. induction s as [|x s IH]; intros n p Hs Hn Hh.
  - destruct n as [|c n]; simpl in Hh |- *; rewrite (byte_at_ok _ _ _ _ Hh); [done|].
    apply Forall_cons in Hn as [Hc _]. cbn [mbind outcome_bind]. by rewrite (proj2 (Z.eqb_neq c 0)) by lia.
  - apply Forall_cons in Hs as [Hx Hs].
    destruct n as [|c n]; simpl in Hh |- *; rewrite (byte_at_ok _ _ _ _ Hh); cbn [mbind outcome_bind].
    + by rewrite (proj2 (Z.eqb_neq 0 x)) by lia.
    + apply Forall_cons in Hn as [Hc Hn]. destruct (next_ok _ _ _ Hh) as [-> Hh'].
      destruct (Z.eqb_spec c x) as [->|Hne].
      * rewrite (IH _ _ Hs Hn Hh'). f_equal. apply bool_decide_ext. split; congruence.
      * unfold mret, outcome_ret. f_equal. symmetry. apply bool_decide_eq_false. congruence.
Qed.

(** ** The symbols of a table *)
Section Visit.
Context {S : Type} (h : list Z -> Z -> M S kerr_t).

(** A callback on the name itself. *)
Definition by_name (p v : Z) : M S kerr_t := n ← lift (string_at img p); h n v.

(** The named symbols with a value, in order, until the callback fails. *)
Definition visit_one (y : elf_sym) : M S kerr_t :=
  if bool_decide (sy_name y = []) || (sy_value y =? 0) then mret KYLIN_ERROR_OK
  else h (sy_name y) (sy_value y).

Fixpoint visit (ys : list elf_sym) : M S kerr_t :=
  match ys with
  | [] => mret KYLIN_ERROR_OK
  | y :: ys => r ← visit_one y; if decide (r = KYLIN_ERROR_OK) then visit ys else mret r
  end.

Lemma entry_ok offset str i off y s :
  holds img (offset + i * symsize) (encode (sym off y)) -> holds img (str + off) (sy_name y ++ [0]) ->
  sym_ok y -> 0 <= off < 2 ^ 31 ->
  symtab_entry D img by_name (Some str) offset symsize i s = visit_one y s.
Proof.
  intros Hy Hn (Hname & Hv & Hs) Ho. pose proof (holds_range _ _ _ Hy) as Hr. unfold symtab_entry.
  rewrite (uw_id 64 (offset + _)) by (unfold is_u; lia).
  assert (E1 : __elf_get_word D img (offset + i * symsize) ST_NAME = Ok off).
  { eapply (word_ok _ _ 0%nat); [exact Hy| | |unfold is_u; lia]; unfold sym; by destruct wide. }
  assert (E2 : __elf_get_quad D img (offset + i * symsize) ST_VALUE = Ok (sy_value y)).
  { eapply (quad_ok _ _ (if wide then 4 else 1)%nat); [exact Hy| | |exact Hv]; unfold sym, aw; by destruct wide. }
  assert (E3 : __elf_get_quad D img (offset + i * symsize) ST_SIZE = Ok (sy_size y)).
  { eapply (quad_ok _ _ (if wide then 5 else 2)%nat); [exact Hy| | |exact Hs]; unfold sym, aw; by destruct wide. }
  rewrite E1, E2, E3. pose proof (holds_range _ _ _ Hn) as Hrn.
  assert (Hp : u64 (str + off) = str + off) by (apply uw_id; unfold is_u; lia).
  unfold mbind, M_bind, lift, in_table. rewrite Hp. unfold visit_one.
  destruct (sy_name y) as [|c name] eqn:En; simpl in Hn; rewrite (byte_at_ok _ _ _ _ Hn); [done|].
  apply Forall_cons in Hname as [Hc Hname]. rewrite (proj2 (Z.eqb_neq c 0)) by lia. simpl.
  destruct (sy_value y =? 0); [done|]. simpl. unfold by_name, mbind, M_bind, lift.
  rewrite (string_at_ok (c :: name)); [done|by constructor|done].
Qed.

Lemma symbols_ok offset str ys i off s :
  holds img (offset + i * symsize) (symtab_of off ys) ->
  holds img (str + off) (concat (map (fun y => sy_name y ++ [0]) ys)) ->
  Forall sym_ok ys -> 0 <= off -> off + Z.of_nat (length (concat (map (fun y => sy_name y ++ [0]) ys))) < 2 ^ 31 ->
  sym_loop (symtab_entry D img by_name (Some str) offset symsize) (length ys) i s = visit ys s.
Proof.
  revert i off s. induction ys as [|y ys IH]; intros i off s Hy Hn Hok Ho Hl; [done|].
  apply Forall_cons in Hok as [Hy1 Hok]. cbn [symtab_of map concat] in Hy, Hn, Hl.
  apply holds_app in Hy as [Hy Hys]. apply holds_app in Hn as [Hn Hns]. rewrite !length_app in *.
  cbn [length] in *. cbn [sym_loop visit]. unfold mbind, M_bind.
  rewrite (entry_ok offset str i off y s Hy Hn Hy1) by lia.
  destruct (visit_one y s) as [[r s']| |]; [|done..]. destruct (decide (r = KYLIN_ERROR_OK)); [|done].
  apply (IH (i + 1) (off + Z.of_nat (length (sy_name y)) + 1)); [| |done|lia|lia].
  - rewrite length_encode in Hys. replace (offset + (i + 1) * symsize) with (offset + i * symsize + symsize) by lia.
    assert (Ew : width_sum (sym off y) = symsize) by (unfold width_sum, sym, symsize; by destruct wide).
    by rewrite Ew in Hys.
  - by replace (str + (off + _ + 1)) with (str + off + Z.of_nat (length (sy_name y) + 1)) by lia.
Qed.
End Visit.
End Files.

(** ** The whole file *)
Lemma aw_u wide v : is_u 31 v -> is_u (8 * Z.of_nat (aw wide)) v.
Proof. unfold is_u, aw. intros ?. destruct wide; simpl; lia. Qed.

Section WholeFile.
Context (wide msb : bool) (D : decoders) (DK : decoders_ok D) (ys : list elf_sym).
Abbreviation F := (elf_file wide msb ys).
Context (Hlen : Z.of_nat (length F) < 2 ^ 31).
#[local] Set Default Proof Using "All".

Abbreviation o1 := (sym_pos wide).
Abbreviation o2 := (str_pos wide ys).
Abbreviation o3 := (shstr_pos wide ys).
Abbreviation o4 := (sh_pos wide ys).
Abbreviation header := (header wide ys).
Abbreviation sec_off := (sec_off wide ys).
Abbreviation sec_size := (sec_size wide ys).
Abbreviation sec_entsize := (sec_entsize wide).

Lemma length_symtab off zs :
  Z.of_nat (length (symtab_of wide msb off zs)) = symsize wide * Z.of_nat (length zs).
Proof.
  revert off. induction zs as [|y zs IH]; intros off; [simpl; lia|]. cbn [symtab_of].
  rewrite length_app, Nat2Z.inj_add, IH, length_encode.
  assert (Ew : width_sum (sym wide off y) = symsize wide) by (unfold width_sum, sym, symsize; by destruct wide).
  rewrite Ew. simpl length. lia.
Qed.

Lemma length_header i : Z.of_nat (length (encode msb (header i))) = shsize wide.
Proof. rewrite length_encode. unfold Elf.header, shdr, shsize; by destruct wide. Qed.

Ltac move_to K :=
  match type of K with holds _ ?q _ =>
    match goal with |- holds _ ?p _ => replace p with q by lia; exact K end
  end.

Lemma layout :
  holds F 0 (encode msb (ehdr wide msb o4 4 3)) /\ holds F o1 (symtab_of wide msb 1 ys) /\
  holds F o2 (strtab_of ys) /\ holds F o3 shstrtab_of /\
  forall i, (i < 4)%nat -> holds F (o4 + Z.of_nat i * shsize wide) (encode msb (header i)).
Proof.
  assert (H : holds F 0 F) by (exists [], []; by rewrite app_nil_r).
  pose proof (length_symtab 1 ys) as Ly.
  assert (Le : Z.of_nat (length (encode msb (ehdr wide msb o4 4 3))) = o1)
    by (rewrite length_encode; unfold sym_pos, ehdr, ehsize, width_sum; by destruct wide).
  unfold elf_file at 2 in H.
  apply holds_app in H as [H0 H]. rewrite Le in H. apply holds_app in H as [H1 H]. rewrite Ly in H.
  apply holds_app in H as [H2 H]. apply holds_app in H as [H3 H].
  apply holds_app in H as [K0 H]. apply holds_app in H as [K1 H]. apply holds_app in H as [K2 K3].
  rewrite !length_header in *.
  change (0 + o1 + symsize wide * Z.of_nat (length ys)) with o2 in *.
  change (o2 + Z.of_nat (length (strtab_of ys))) with o3 in *.
  change (o3 + Z.of_nat (length shstrtab_of)) with o4 in *.
  split_and!; [exact H0|exact H1|exact H2|exact H3|].
  intros i Hi. destruct i as [|[|[|[|i]]]]; [move_to K0|move_to K1|move_to K2|move_to K3|lia].
Qed.

Lemma sizes : 0 <= o1 /\ o1 <= o2 /\ o2 <= o3 /\ o3 <= o4 /\ o4 + 4 * shsize wide <= Z.of_nat (length F).
Proof.
  destruct layout as (_ & _ & _ & _ & H). pose proof (holds_range _ _ _ (H 3%nat ltac:(lia))) as Hr.
  rewrite length_header in Hr. unfold sh_pos, shstr_pos, str_pos, sym_pos, ehsize, symsize in *. destruct wide; lia.
Qed.

Lemma header_at i : (i < 4)%nat -> u64 (o4 + Z.of_nat i * shsize wide) = o4 + Z.of_nat i * shsize wide /\
  holds F (o4 + Z.of_nat i * shsize wide) (encode msb (header i)).
Proof.
  intros Hi. destruct layout as (_ & _ & _ & _ & H). split; [|by apply H].
  pose proof (holds_range _ _ _ (H i Hi)) as Hr. apply uw_id. unfold is_u. lia.
Qed.

Lemma sec_bounds i : (i < 4)%nat -> is_u 31 (sec_off i) /\ is_u 31 (sec_size i) /\ is_u 31 (sec_entsize i).
Proof.
  intros Hi. pose proof sizes as (H1 & H2 & H3 & H4 & H5). unfold is_u.
  assert (0 <= shsize wide /\ 0 <= symsize wide < 100) as [Hs Hy] by (unfold shsize, symsize; by destruct wide).
  assert (o2 = o1 + symsize wide * Z.of_nat (length ys)) by done.
  assert (o3 = o2 + Z.of_nat (length (strtab_of ys))) by done.
  assert (o4 = o3 + Z.of_nat (length shstrtab_of)) by done.
  destruct i as [|[|[|[|i]]]]; [..|lia]; cbn [sec_off sec_size sec_entsize nth]; lia.
Qed.


Lemma header_word i k m v : (i < 4)%nat -> header i !! k = Some (4%nat, v) -> is_u 31 v ->
  width_sum (take k (header i)) = offset_of (if wide then elf64_offsets else elf32_offsets) m ->
  __elf_get_word D F (o4 + Z.of_nat i * shsize wide) m = Ok v.
Proof.
  intros Hi Hk Hv Hw. destruct (header_at i Hi) as [_ H].
  eapply (word_ok _ _ _ DK _ Hlen _ _ _ (proj1 layout)); [exact H|exact Hk|exact Hw|unfold is_u in *; simpl; lia].
Qed.

Lemma header_quad i k m v : (i < 4)%nat -> header i !! k = Some (aw wide, v) -> is_u 31 v ->
  width_sum (take k (header i)) = offset_of (if wide then elf64_offsets else elf32_offsets) m ->
  __elf_get_quad D F (o4 + Z.of_nat i * shsize wide) m = Ok v.
Proof.
  intros Hi Hk Hv Hw. destruct (header_at i Hi) as [_ H].
  eapply (quad_ok _ _ _ DK _ Hlen _ _ _ (proj1 layout)); [exact H|exact Hk|exact Hw|by apply aw_u].
Qed.

Ltac field := first [done|unfold Elf.header, shdr, width_sum, aw; by destruct wide].

(** The reads of the two loops in section header [i]. *)
Lemma section_reads i : (i < 4)%nat ->
  let p := o4 + Z.of_nat i * shsize wide in
  u64 p = p /\ __elf_get_word D F p SH_NAME = Ok (sec_name_off i) /\
  __elf_get_word D F p SH_TYPE = Ok (sec_type i) /\ __elf_get_quad D F p SH_OFFSET = Ok (sec_off i) /\
  __elf_get_quad D F p SH_SIZE = Ok (sec_size i) /\ __elf_get_quad D F p SH_ENTSIZE = Ok (sec_entsize i).
Proof.
  intros Hi p. destruct (sec_bounds i Hi) as (B1 & B2 & B3).
  assert (is_u 31 (sec_name_off i) /\ is_u 31 (sec_type i)) as [B4 B5]
    by (destruct i as [|[|[|[|i]]]]; [done..|lia]).
  split; [by apply header_at|]. split_and!.
  - apply (header_word i 0); field.
  - apply (header_word i 1); field.
  - apply (header_quad i 4); field.
  - apply (header_quad i 5); field.
  - apply (header_quad i 9); field.
Qed.

Lemma section_names i : (i < 4)%nat -> holds F (o3 + sec_name_off i) (sec_name i ++ [0]) /\
  Forall (fun c => 0 < c < 256) (sec_name i).
Proof.
  intros Hi. destruct layout as (_ & _ & _ & H & _).
  assert (Hs : forall x y z, shstrtab_of = x ++ y ++ z -> holds F (o3 + Z.of_nat (length x)) y).
  { intros x y z E. rewrite E in H. apply holds_app in H as [_ H]. by apply holds_app in H as [H _]. }
  destruct i as [|[|[|[|i]]]]; [..|lia]; (split; [|by repeat constructor]).
  - by apply (Hs [] _ (drop 1 shstrtab_of)).
  - by apply (Hs (take 1 shstrtab_of) _ (drop 9 shstrtab_of)).
  - by apply (Hs (take 9 shstrtab_of) _ (drop 17 shstrtab_of)).
  - by apply (Hs (take 17 shstrtab_of) _ []).
Qed.
(** The two loops, one section at a time. *)
Lemma find_strtab_step i n st : (i < 4)%nat ->
  find_strtab D F o4 (shsize wide) o3 (S n) (Z.of_nat i) st =
  find_strtab D F o4 (shsize wide) o3 n (Z.of_nat (S i))
    (if bool_decide (sec_name i = strtab_name) then Some (sec_off i) else st).
Proof.
  intros Hi. destruct (section_reads i Hi) as (Eu & E1 & _ & E2 & _ & _).
  destruct (section_names i Hi) as [Hh Hs]. destruct (sec_bounds i Hi) as (B & _ & _).
  cbn [find_strtab]. rewrite Eu, E1, E2. cbn [mbind outcome_bind].
  pose proof (holds_range _ _ _ Hh) as Hr. rewrite (uw_id 64 (o3 + _)) by (unfold is_u; lia).
  rewrite (str_equal_ok _ _ D DK F Hlen _ _ _ (proj1 layout) strtab_name (sec_name i)) by (first [exact Hh|exact Hs|by repeat constructor]).
  cbn [mbind outcome_bind]. rewrite (uw_id 64 (sec_off i)) by (unfold is_u in *; lia).
  by replace (Z.of_nat i + 1) with (Z.of_nat (S i)) by lia.
Qed.

Lemma find_strtab_ok : find_strtab D F o4 (shsize wide) o3 4 0 None = Ok (Some o2).
Proof.
  change 0 with (Z.of_nat 0).
  rewrite (find_strtab_step 0), (find_strtab_step 1), (find_strtab_step 2), (find_strtab_step 3) by lia. done.
Qed.

Section Hook.
Context {S : Type} (h : list Z -> Z -> M S kerr_t) (Hys : Forall (sym_ok wide) ys).

Lemma symtab_get_ok s :
  __elf_symtab_get D F (by_name F h) (o4 + Z.of_nat 1 * shsize wide) (Some o2) s = visit h ys s.
Proof.
  destruct (section_reads 1 ltac:(lia)) as (_ & E1 & _ & E2 & E3 & E4).
  destruct layout as (_ & H1 & H2 & _ & _). pose proof (holds_range _ _ _ H1) as R1.
  pose proof (holds_range _ _ _ H2) as R2. rewrite length_symtab in R1.
  unfold __elf_symtab_get. rewrite E1, E2, E3, E4. unfold mbind, M_bind, lift. unfold table_len.
  change (sec_off 1) with o1. change (sec_size 1) with (symsize wide * Z.of_nat (length ys)).
  change (sec_entsize 1) with (symsize wide).
  assert (Hz : 0 < symsize wide) by (unfold symsize; by destruct wide).
  rewrite (proj2 (Z.eqb_neq _ 0)) by lia.
  rewrite (Z.mul_comm (symsize wide)), Z.div_mul by lia.
  assert (Z.of_nat (length ys) <= symsize wide * Z.of_nat (length ys)) by nia.
  assert (0 <= o1) by apply sizes.
  rewrite s32_id by lia. rewrite Nat2Z.id.
  apply (symbols_ok _ _ D DK _ Hlen _ _ _ (proj1 layout) h) with (off := 1); [|..|done|done|].
  - by replace (o1 + 0 * symsize wide) with o1 by lia.
  - by apply (holds_app _ _ [0]) in H2 as [_ H2].
  - unfold strtab_of in R2. cbn [length] in R2. lia.
Qed.

Lemma section_step_ok i s : (i < 4)%nat ->
  section_step D F (fun v => __elf_symtab_get D F (by_name F h) v (Some o2)) o4 (shsize wide) (Z.of_nat i) s =
  if decide (i = 1%nat) then visit h ys s else Ok (KYLIN_ERROR_OK, s).
Proof.
  intros Hi. destruct (section_reads i Hi) as (Eu & _ & E & _). unfold section_step. rewrite Eu, E.
  unfold mbind, M_bind, lift. case_decide as Hd.
  - subst i. by rewrite <- symtab_get_ok.
  - destruct i as [|[|[|[|i]]]]; [done..|lia].
Qed.

Lemma header_fields : __elf_get_quad D F 0 E_SHOFF = Ok o4 /\ __elf_get_quarter D F 0 E_SHENTSIZE = Ok (shsize wide) /\
  __elf_get_quarter D F 0 E_SHNUM = Ok 4 /\ __elf_get_quarter D F 0 E_SHSTRNDX = Ok 3.
Proof.
  pose proof sizes as (S1 & S2 & S3 & S4 & S5). pose proof layout as [L _].
  assert (Ho : is_u 31 o4) by (unfold is_u, shsize in *; destruct wide; lia).
  split_and!.
  - apply (quad_ok _ _ D DK F Hlen _ _ _ L 0 _ 21%nat _ _ L); [done| |by apply aw_u].
    unfold ehdr, width_sum, ba, aw. by destruct wide.
  - apply (quarter_ok _ _ D DK F Hlen _ _ _ L 0 _ 26%nat _ _ L); [|unfold ehdr, width_sum, ba, aw; by destruct wide|].
    + unfold ehdr, b2, shsize. by destruct wide.
    + unfold is_u, shsize. by destruct wide.
  - apply (quarter_ok _ _ D DK F Hlen _ _ _ L 0 _ 27%nat _ _ L); [done| |done].
    unfold ehdr, width_sum, ba, aw. by destruct wide.
  - apply (quarter_ok _ _ D DK F Hlen _ _ _ L 0 _ 28%nat _ _ L); [done| |done].
    unfold ehdr, width_sum, ba, aw. by destruct wide.
Qed.

(** C32. Reading back what a linker wrote.  In an ELF file of either class and
    byte order that holds the symbols [ys] (with any names and any values that
    fit), [kylin_elf_symbol] calls the hook with exactly the named symbols
    whose value is not zero, each with its name and its value, in the order of
    the table, stops at the first that the hook refuses and returns its code;
    it reads nothing outside of the file. *)
Theorem elf_symbol_reads_table s : kylin_elf_symbol D F (by_name F h) s = visit h ys s.
Proof.
  destruct header_fields as (E1 & E2 & E3 & E4). destruct (section_reads 3 ltac:(lia)) as (Eu & _ & _ & E5 & _ & _).
  change (Z.of_nat 3) with 3 in *. change (sec_off 3) with o3 in *.
  unfold kylin_elf_symbol, __elf_symtab_process. rewrite E1, E2, E3, E4.
  unfold mbind at 1 2 3 4 5 6, M_bind, lift. rewrite Eu, E5. change (Z.to_nat 4) with 4%nat.
  rewrite find_strtab_ok. cbn [sym_loop]. unfold mbind, M_bind.
  change (0 + 1) with (Z.of_nat 1). change (Z.of_nat 1 + 1) with (Z.of_nat 2). change (Z.of_nat 2 + 1) with (Z.of_nat 3).
  change 0 with (Z.of_nat 0). rewrite (section_step_ok 0), decide_False, decide_True by first [lia|done].
  rewrite (section_step_ok 1), decide_True by first [lia|done].
  destruct (visit h ys s) as [[r s']| |]; [|done..]. case_decide as Hr; [|done]. subst r.
  rewrite (section_step_ok 2), decide_False, decide_True by first [lia|done].
  by rewrite (section_step_ok 3), decide_False, decide_True by first [lia|done].
Qed.
End Hook.
End WholeFile.

(** The decoding functions of the C library on their own arguments, and a
    hook that collects what it is given. *)
Definition std_decoders : decoders := mk_decoders be_value be_value be_value le_value le_value le_value.
Definition collect (n : list Z) (v : Z) : M (list (list Z * Z)) kerr_t :=
  fun s => Ok (KYLIN_ERROR_OK, s ++ [(n, v)]).

(** Three symbols ([f], one without a name, [gh]) in a big-endian file of 32 bits. *)
Definition three_syms : list elf_sym :=
  [mk_sym [102] 4096 16 18 1; mk_sym [] 8192 0 3 1; mk_sym [103; 104] 4112 4 17 2].

Lemma std_decoders_ok : decoders_ok std_decoders.
Proof. by split. Qed.

Lemma elf_symbol_reads_table_witness :
  kylin_elf_symbol std_decoders (elf_file false true three_syms)
    (by_name (elf_file false true three_syms) collect) [] =
  Ok (KYLIN_ERROR_OK, [([102], 4096); ([103; 104], 4112)]).
Proof.
  rewrite (elf_symbol_reads_table false true std_decoders).
  - reflexivity.
  - split; reflexivity.
  - vm_compute; reflexivity.
  - unfold three_syms, sym_ok, is_u. repeat constructor; simpl; lia.
Defined.

(** ** What is not checked

    The header and the section table are believed: the length of the file is
    kept ([ed->size]) and never consulted. *)
Lemma decode_outside img dec n p : Z.of_nat (length img) < p + Z.of_nat n -> decode img dec n p = Ub.
Proof. intros H. unfold decode, bytes_at. by rewrite (proj2 (Z.leb_gt _ _) H), andb_false_r. Qed.

Lemma quad_outside (wide msb : bool) D img base m :
  byte_at img EI_CLASS = Ok (if wide then ELFCLASS64 else ELFCLASS32) ->
  byte_at img EI_DATA = Ok (if msb then ELFDATA2MSB else ELFDATA2LSB) ->
  Z.of_nat (length img) < u64 (base + offset_of (if wide then elf64_offsets else elf32_offsets) m) + Z.of_nat (aw wide) ->
  __elf_get_quad D img base m = Ub.
Proof.
  intros C E H. unfold __elf_get_quad, elf_get. rewrite C. cbn [mbind outcome_bind]. rewrite E. cbn [mbind outcome_bind].
  destruct wide, msb; simpl; by apply decode_outside.
Qed.

(** A file cut short of its section table is read beyond its end. *)
Lemma elf_truncated_read (wide msb : bool) D img shoff esz n k {S} (hook : Z -> Z -> M S kerr_t) s :
  byte_at img EI_CLASS = Ok (if wide then ELFCLASS64 else ELFCLASS32) ->
  byte_at img EI_DATA = Ok (if msb then ELFDATA2MSB else ELFDATA2LSB) ->
  __elf_get_quad D img 0 E_SHOFF = Ok shoff -> __elf_get_quarter D img 0 E_SHENTSIZE = Ok esz ->
  __elf_get_quarter D img 0 E_SHNUM = Ok n -> __elf_get_quarter D img 0 E_SHSTRNDX = Ok k ->
  Z.of_nat (length img) < u64 (u64 (shoff + k * esz) +
    offset_of (if wide then elf64_offsets else elf32_offsets) SH_OFFSET) + Z.of_nat (aw wide) ->
  kylin_elf_symbol D img hook s = Ub.
Proof.
  intros C E E1 E2 E3 E4 H. unfold kylin_elf_symbol, __elf_symtab_process, mbind, M_bind, lift.
  rewrite E1, E2, E3, E4. by rewrite (quad_outside wide msb).
Qed.

(** A symbol table whose entries have size 0 is a division by zero. *)
Lemma elf_entsize_zero D img {S} (hook : Z -> Z -> M S kerr_t) sh str s r :
  __elf_get_quad D img sh SH_ENTSIZE = Ok 0 -> __elf_symtab_get D img hook sh str s <> Ok r.
Proof.
  intros H K. apply bind_Ok_inv in K as (o & s1 & _ & K). apply bind_Ok_inv in K as (e & s2 & F & K).
  unfold lift in F. rewrite H in F. simplify_eq.
  do 3 apply bind_Ok_inv in K as (? & ? & ? & K). done.
Qed.

(** A symbol that is dumped needs a type below 5 and a binding below 3 (thread
    local storage, the GNU extensions and the processor's own ranges have
    larger ones): the name tables end there. *)
Lemma elf_dump_info_range D img {S} (print : line -> M S unit) str offset entsize i info s r :
  __elf_get_byte img (u64 (offset + i * entsize)) ST_INFO = Ok info ->
  print_entry D img print str offset entsize i s = Ok r ->
  st_type_of info < 5 /\ st_bind_of info < 3.
Proof.
  intros H K. unfold print_entry in K. do 3 apply bind_Ok_inv in K as (? & ? & ? & K).
  apply bind_Ok_inv in K as (info' & ? & F & K). unfold lift in F. rewrite H in F. simplify_eq.
  do 8 apply bind_Ok_inv in K as (? & ? & ? & K).
  apply bind_Ok_inv in K as (t & ? & Ft & K). apply bind_Ok_inv in K as (b & ? & Fb & K). clear K.
  assert (R : forall (l : list st_name) z x s0 s1, @lift S _ (rd l (Z.to_nat z)) s0 = Ok (x, s1) -> z < Z.of_nat (length l)).
  { clear. intros l z x s0 s1. unfold lift, rd. destruct (l !! Z.to_nat z) eqn:E; [|done].
    apply lookup_lt_Some in E. lia. }
  apply R in Ft, Fb. done.
Qed.
