(* ===== verification/KString.v ===== *)
(** * Strings ([lib/core/math/kylin_string.c])

    A [kstr_t] has room for [cap] bytes and a terminator; [used] counts the
    bytes in use.  Its content is the first [used] bytes of [val].  A raw C
    string is the byte list of the object it points to; [strlen] finds its
    terminator.  [memcmp]'s result is represented by its sign. *)

From S2P Require Import Prelude Errors Bytes.

(** ** The C string functions used *)
Fixpoint memcmp_bytes (a b : list Z) : Z :=
  match a, b with
  | x :: a, y :: b => if x =? y then memcmp_bytes a b else Z.sgn (x - y)
  | _, _ => 0
  end.

Definition memcmp (a : list Z) (aoff : Z) (b : list Z) (boff n : Z) : outcome Z :=
  x ← read_bytes a aoff n; y ← read_bytes b boff n; Ok (memcmp_bytes x y).

Fixpoint strlen (s : list Z) : outcome Z :=
  match s with
  | [] => Ub
  | c :: s => if c =? 0 then Ok 0 else n ← strlen s; Ok (n + 1)
  end.

(** ** Data *)
Record kstr_opts_t := mk_kstr_opts {
  opts_cap : Z;
  guard_ctor : option (Z -> bool);
}.

Record kstr_t := mk_kstr {
  k_opts : kstr_opts_t;
  used : Z;
  val : list Z;
}.

Definition sizeof_kstr_t : Z := 40.

Definition STRING_GUARD_MALLOC (malloc : Z -> bool) (opts : kstr_opts_t) : Z -> bool :=
  match guard_ctor opts with Some f => f | None => malloc end.

Definition kylin_string_create (malloc : Z -> bool) (opts : kstr_opts_t) : kerr_t + kstr_t :=
  if negb (STRING_GUARD_MALLOC malloc opts (u64 (sizeof_kstr_t + u64 (opts_cap opts + 1))))
  then inl KYLIN_ERROR_NOMEM
  else inr (mk_kstr opts 0 (replicate (Z.to_nat (u64 (opts_cap opts + 1))) 0)).

(** The destructor of the options, or [kylin_free]. *)
Definition STRING_GUARD_FREE {S} (guard_dtor : option (kstr_t -> M S unit)) (kylin_free : kstr_t -> M S unit) : kstr_t -> M S unit :=
  match guard_dtor with Some f => f | None => kylin_free end.
Definition kylin_string_destroy {S} (guard_dtor : option (kstr_t -> M S unit)) (kylin_free : kstr_t -> M S unit) (g : kstr_t) : M S unit :=
  STRING_GUARD_FREE guard_dtor kylin_free g.

Definition kylin_string_val (s : kstr_t) : list Z := val s.

Definition kylin_string_zero (s : kstr_t) : outcome kstr_t :=
  v ← write_bytes (val s) 0 (replicate (Z.to_nat (used s)) 0); Ok (mk_kstr (k_opts s) 0 v).

Definition kylin_strlen (s : kstr_t) : Z := used s.

(** ** Duplication *)
Definition kylin_strndup (malloc : Z -> bool) (s : kstr_t) (n : Z) : outcome (kerr_t + kstr_t) :=
  match kylin_string_create malloc (k_opts s) with
  | inl e => Ok (inl e)
  | inr d =>
      v ← memcpy (val d) 0 (val s) 0 (Z.min (used s) n);
      Ok (inr (mk_kstr (k_opts d) (Z.min (used s) n) v))
  end.

Definition kylin_strdup (malloc : Z -> bool) (s : kstr_t) : outcome (kerr_t + kstr_t) :=
  kylin_strndup malloc s (used s).

(** A fresh C string. *)
Definition kylin_strndup_raw (malloc : Z -> bool) (s : kstr_t) (n : Z) :
    outcome (kerr_t + list Z) :=
  let len := Z.min (used s) n in
  if negb (malloc (u64 (len + 1))) then Ok (inl KYLIN_ERROR_NOMEM) else
  v ← memcpy (replicate (Z.to_nat (u64 (len + 1))) 0) 0 (val s) 0 len;
  v ← write_bytes v len [0];
  Ok (inr v).

Definition kylin_strdup_raw (malloc : Z -> bool) (s : kstr_t) : outcome (kerr_t + list Z) :=
  kylin_strndup_raw malloc s (used s).

(** ** Comparison *)
Definition kylin_strcmp (s1 s2 : kstr_t) : outcome Z :=
  memcmp (val s1) 0 (val s2) 0 (Z.min (used s1) (used s2)).

Definition kylin_strcmp_raw (s1 : kstr_t) (s2 : list Z) : outcome Z :=
  len ← strlen s2; memcmp (val s1) 0 s2 0 (Z.min (used s1) len).

Definition kylin_strncmp (s1 s2 : kstr_t) (n : Z) : outcome Z := memcmp (val s1) 0 (val s2) 0 n.

(** [s2] is a pointer [off] bytes into an object. *)
Definition kylin_strncmp_raw (s1 : kstr_t) (s2 : list Z) (off n : Z) : outcome Z :=
  memcmp (val s1) 0 s2 off n.

(** ** Copying and appending; [inl e] is NULL with [kerrno] set to [e] *)
Definition kylin_strcpy (dest src : kstr_t) : outcome (kerr_t + kstr_t) :=
  if opts_cap (k_opts dest) <? used src then Ok (inl KYLIN_ERROR_INVAL) else
  v ← memcpy (val dest) 0 (val src) 0 (used src);
  Ok (inr (mk_kstr (k_opts dest) (used src) v)).

Definition kylin_strcpy_raw (dest : kstr_t) (src : list Z) : outcome (kerr_t + kstr_t) :=
  len ← strlen src;
  if opts_cap (k_opts dest) <? len then Ok (inl KYLIN_ERROR_INVAL) else
  v ← memcpy (val dest) 0 src 0 len;
  Ok (inr (mk_kstr (k_opts dest) len v)).

Definition kylin_strncpy (dest src : kstr_t) (n : Z) : outcome (kerr_t + kstr_t) :=
  if (used src <? n) || (opts_cap (k_opts dest) <? n) then Ok (inl KYLIN_ERROR_INVAL) else
  v ← memcpy (val dest) 0 (val src) 0 n;
  Ok (inr (mk_kstr (k_opts dest) n v)).

Definition kylin_strncpy_raw (dest : kstr_t) (src : list Z) (n : Z) : outcome (kerr_t + kstr_t) :=
  len ← strlen src;
  if (len <? n) || (opts_cap (k_opts dest) <? n) then Ok (inl KYLIN_ERROR_INVAL) else
  v ← memcpy (val dest) 0 src 0 n;
  Ok (inr (mk_kstr (k_opts dest) n v)).

Definition kylin_strncat (dest src : kstr_t) (n : Z) : outcome (kerr_t + kstr_t) :=
  if (used src <? n) || (u64 (opts_cap (k_opts dest) - used dest) <? n)
  then Ok (inl KYLIN_ERROR_INVAL) else
  v ← memcpy (val dest) (used dest) (val src) 0 n;
  Ok (inr (mk_kstr (k_opts dest) (used dest) v)).

Definition kylin_strncat_raw (dest : kstr_t) (src : list Z) (n : Z) : outcome (kerr_t + kstr_t) :=
  len ← strlen src;
  if (len <? n) || (u64 (opts_cap (k_opts dest) - used dest) <? n)
  then Ok (inl KYLIN_ERROR_INVAL) else
  v ← memcpy (val dest) (used dest) src 0 len;
  Ok (inr (mk_kstr (k_opts dest) (used dest) v)).

Definition kylin_strcat (dest src : kstr_t) : outcome (kerr_t + kstr_t) :=
  kylin_strncat dest src (used src).

Definition kylin_strcat_raw (dest : kstr_t) (src : list Z) : outcome (kerr_t + kstr_t) :=
  len ← strlen src; kylin_strncat_raw dest src len.

(** ** Searching; a result is the offset of the returned pointer in [val] *)
Definition kylin_strchr (s : kstr_t) (c : Z) : outcome (option nat) :=
  find_idx (fun i => x ← rd (val s) i; Ok (x =? c)) (seq 0 (Z.to_nat (used s))).

Definition kylin_strrchr (s : kstr_t) (c : Z) : outcome (option nat) :=
  find_idx (fun i => x ← rd (val s) i; Ok (x =? c)) (rev (seq 0 (Z.to_nat (used s)))).

(** Is the byte at [i] one of the first [len] of [acpt]? *)
Definition one_of (s : kstr_t) (acpt : list Z) (len : nat) (i : nat) : outcome bool :=
  scan (fun j => x ← rd (val s) i; y ← rd acpt j; Ok (x =? y)) (seq 0 len).

Definition kylin_strpbrk (s : kstr_t) (acpt : list Z) : outcome (option nat) :=
  len ← strlen acpt;
  find_idx (one_of s acpt (Z.to_nat len)) (seq 0 (Z.to_nat (used s))).

(** The loop [for i = 0; val[i] == c0; i++]: it ends at the first byte that
    differs from [c0], or with the first match. *)
Fixpoint strstr_loop (fuel : nat) (v : list Z) (c0 : Z) (match_at : nat -> outcome bool) (i : nat) :
    outcome (option nat) :=
  match fuel with
  | O => OutOfFuel
  | S fuel =>
      x ← rd v i;
      if x =? c0 then
        match_at i ≫= fun b : bool =>
          if b then Ok (Some i) else strstr_loop fuel v c0 match_at (i + 1)
      else Ok None
  end.

Definition kylin_strstr (s acpt : kstr_t) : outcome (kerr_t + option nat) :=
  if used s <? used acpt then Ok (inl KYLIN_ERROR_INVAL) else
  c0 ← rd (val acpt) 0;
  r ← strstr_loop (S (length (val s))) (val s) c0
        (fun i => c ← kylin_strncmp_raw acpt (val s) (Z.of_nat i) (used acpt); Ok (c =? 0)) 0;
  Ok (inr r).

Definition kylin_strstr_raw (s : kstr_t) (acpt : list Z) : outcome (kerr_t + option nat) :=
  len ← strlen acpt;
  if used s <? len then Ok (inl KYLIN_ERROR_INVAL) else
  c0 ← rd acpt 0;
  r ← strstr_loop (S (length (val s))) (val s) c0
        (fun i => c ← memcmp acpt 0 (val s) (Z.of_nat i) len; Ok (c =? 0)) 0;
  Ok (inr r).

Definition kylin_strtok (malloc : Z -> bool) (s : kstr_t) (acpt : list Z) :
    outcome (kerr_t + kstr_t) :=
  len ← strlen acpt;
  r ← kylin_strdup malloc s;
  match r with
  | inl e => Ok (inl e)
  | inr d =>
      v ← for_each (fun v i =>
            for_each (fun v j =>
              x ← rd (val s) i; y ← rd acpt j;
              if x =? y then wr v i 0 else Ok v) v (seq 0 (Z.to_nat len)))
          (val d) (seq 0 (Z.to_nat (used s)));
      Ok (inr (mk_kstr (k_opts d) (used d) v))
  end.

(** ** Content *)

Record kstr_ok (s : kstr_t) : Prop := {
  ok_cap : 0 <= opts_cap (k_opts s) < 2 ^ 31;
  ok_len : Z.of_nat (length (val s)) = opts_cap (k_opts s) + 1;
  ok_used : 0 <= used s <= opts_cap (k_opts s);
}.

Definition content (s : kstr_t) : list Z := take (Z.to_nat (used s)) (val s).

(** A C string: its characters, a terminator, and what follows in the object. *)
Definition c_string (bs rest : list Z) : list Z := bs ++ 0 :: rest.

Lemma strlen_c_string bs rest :
  Forall (fun c => c <> 0) bs -> strlen (c_string bs rest) = Ok (Z.of_nat (length bs)).
Proof.
  induction 1 as [|c bs Hc _ IH]; [done|]. simpl. rewrite (proj2 (Z.eqb_neq _ _)) by done.
  change (bs ++ 0 :: rest) with (c_string bs rest). rewrite IH.
  cbn [mbind outcome_bind]. f_equal. lia.
Qed.

Lemma take_splice_app (v a : list Z) off :
  (off + length a <= length v)%nat ->
  take (off + length a) (splice v off a) = take off v ++ a.
Proof.
  intros H. unfold splice. rewrite app_assoc.
  rewrite take_app_le by (rewrite length_app, length_take; lia).
  apply firstn_all2. rewrite length_app, length_take. lia.
Qed.

Lemma take_splice_before (v a : list Z) off n :
  (n <= off)%nat -> (off <= length v)%nat -> take n (splice v off a) = take n v.
Proof.
  intros Hn Ho. unfold splice. rewrite take_app_le by (rewrite length_take; lia).
  rewrite take_take. f_equal. lia.
Qed.

(** [memcpy] to the start of [val], then [used] set to the count. *)
Lemma copy_in_spec dest src n :
  kstr_ok dest -> 0 <= n <= opts_cap (k_opts dest) -> n <= Z.of_nat (length src) ->
  exists v, memcpy (val dest) 0 src 0 n = Ok v /\
    kstr_ok (mk_kstr (k_opts dest) n v) /\
    content (mk_kstr (k_opts dest) n v) = take (Z.to_nat n) src.
Proof.
  intros [Hc El Hu] Hn Hs. eexists. split; [apply memcpy_ok; lia|].
  rewrite drop_0. change (Z.to_nat 0) with 0%nat.
  assert (Lt : length (take (Z.to_nat n) src) = Z.to_nat n) by (rewrite length_take; lia). split.
  - split; simpl; [done| |lia]. rewrite length_splice by lia. done.
  - unfold content. simpl. rewrite <- Lt at 1.
    by rewrite <- (Nat.add_0_l (length _)), take_splice_app by lia.
Qed.

Lemma strncpy_spec dest src n :
  kstr_ok dest -> kstr_ok src -> 0 <= n ->
  if (used src <? n) || (opts_cap (k_opts dest) <? n)
  then kylin_strncpy dest src n = Ok (inl KYLIN_ERROR_INVAL)
  else exists d, kylin_strncpy dest src n = Ok (inr d) /\ kstr_ok d /\
         k_opts d = k_opts dest /\ content d = take (Z.to_nat n) (content src).
Proof.
  intros Hd Hs Hn. unfold kylin_strncpy.
  destruct ((used src <? n) || (opts_cap (k_opts dest) <? n)) eqn:E; [done|]. z_bool.
  destruct (copy_in_spec dest (val src) n Hd) as (v & -> & Hok & Ec);
    [lia|destruct Hs; lia|].
  eexists. split; [done|]. split; [done|]. split; [done|]. rewrite Ec. unfold content.
  rewrite take_take. f_equal. lia.
Qed.

Lemma create_spec malloc opts :
  0 <= opts_cap opts < 2 ^ 31 -> (forall n, STRING_GUARD_MALLOC malloc opts n = true) ->
  exists d, kylin_string_create malloc opts = inr d /\ kstr_ok d /\ k_opts d = opts /\ used d = 0.
Proof.
  intros Hc Hm. unfold kylin_string_create. rewrite Hm. eexists. split; [done|].
  split; [|done]. split; simpl; [done| |lia].
  rewrite length_replicate, uw_id by (unfold is_u; lia). lia.
Qed.

Lemma strndup_spec malloc s n :
  kstr_ok s -> 0 <= n -> (forall k, STRING_GUARD_MALLOC malloc (k_opts s) k = true) ->
  exists d, kylin_strndup malloc s n = Ok (inr d) /\ kstr_ok d /\ k_opts d = k_opts s /\
    content d = take (Z.to_nat n) (content s).
Proof.
  intros Hs Hn Hm. unfold kylin_strndup.
  destruct (create_spec malloc (k_opts s) (ok_cap s Hs) Hm) as (d & -> & Hd & Eo & _).
  pose proof Hs as [Hc El Hu].
  destruct (copy_in_spec d (val s) (Z.min (used s) n) Hd) as (v & -> & Hok & Ec);
    [rewrite Eo; lia|lia|].
  eexists. split; [done|]. split; [done|]. split; [done|]. rewrite Ec. unfold content.
  rewrite take_take. f_equal. lia.
Qed.

(** ** Comparison *)

Lemma memcmp_zero a b :
  length a = length b -> memcmp_bytes a b = 0 <-> a = b.
Proof.
  revert b. induction a as [|x a IH]; intros [|y b] Hl; simplify_eq/=; [done|].
  destruct (Z.eqb_spec x y) as [->|Hne].
  - rewrite IH by done. split; [by intros ->|by intros [= ->]].
  - split; [intros E; apply Z.sgn_null_iff in E; lia|intros [= -> ->]; done].
Qed.

Lemma strcmp_spec s1 s2 :
  kstr_ok s1 -> kstr_ok s2 ->
  let n := Nat.min (length (content s1)) (length (content s2)) in
  exists c, kylin_strcmp s1 s2 = Ok c /\
    (c = 0 <-> take n (content s1) = take n (content s2)).
Proof.
  intros [C1 L1 U1] [C2 L2 U2] n. unfold kylin_strcmp, memcmp.
  rewrite !read_bytes_ok by lia. cbn [mbind outcome_bind]. eexists. split; [done|].
  rewrite !drop_0.
  assert (En : n = Z.to_nat (Z.min (used s1) (used s2))).
  { subst n. unfold content. rewrite !length_take. lia. }
  rewrite memcmp_zero by (rewrite !length_take; lia).
  unfold content. rewrite !take_take, En. by rewrite !Nat.min_l by lia.
Qed.

(** ** Searching *)

Lemma content_lookup s i :
  kstr_ok s -> (i < Z.to_nat (used s))%nat ->
  exists x, rd (val s) i = Ok x /\ content s !! i = Some x.
Proof.
  intros [] Hi. destruct (rd_lt (val s) i) as (x & E & Hx); [lia|].
  exists x. split; [done|]. unfold content. by rewrite lookup_take_lt.
Qed.

Definition is_char (s : kstr_t) (c : Z) (i : nat) : bool :=
  bool_decide (content s !! i = Some c).

Lemma is_char_spec s c i :
  kstr_ok s -> (i < Z.to_nat (used s))%nat ->
  (x ← rd (val s) i; Ok (x =? c)) = Ok (is_char s c i).
Proof.
  intros Hs Hi. destruct (content_lookup s i Hs Hi) as (x & -> & Hx). simpl. f_equal.
  unfold is_char. rewrite Hx. case_bool_decide as E; [injection E as ->; apply Z.eqb_refl|].
  apply Z.eqb_neq. congruence.
Qed.

Lemma strchr_spec s c :
  kstr_ok s ->
  kylin_strchr s c = Ok (List.find (is_char s c) (seq 0 (length (content s)))) /\
  kylin_strrchr s c = Ok (List.find (is_char s c) (rev (seq 0 (length (content s))))).
Proof.
  intros Hs. assert (El : length (content s) = Z.to_nat (used s)).
  { destruct Hs. unfold content. rewrite length_take. lia. }
  rewrite El. split; apply find_idx_spec; intros i Hi; apply is_char_spec; try done.
  - apply elem_of_seq in Hi. lia.
  - apply list_elem_of_In, in_rev, in_seq in Hi. lia.
Qed.

(** What the search loop of [strstr] can return. *)
Lemma strstr_loop_spec fuel v c0 (match_at : nat -> outcome bool) i r :
  strstr_loop fuel v c0 match_at i = Ok r ->
  match r with
  | Some k => (i <= k)%nat /\ match_at k = Ok true /\
      forall j, (i <= j <= k)%nat -> v !! j = Some c0
  | None => exists k x, (i <= k)%nat /\ v !! k = Some x /\ x <> c0 /\
      forall j, (i <= j < k)%nat -> v !! j = Some c0 /\ match_at j = Ok false
  end.
Proof.
  revert i. induction fuel as [|fuel IH]; intros i H; [done|]. cbn [strstr_loop] in H.
  unfold rd in H. destruct (v !! i) as [x|] eqn:Ex; [|done]. cbn [mbind outcome_bind] in H.
  destruct (Z.eqb_spec x c0) as [->|Hne].
  2:{ injection H as <-. exists i, x. split_and!; try done. intros; lia. }
  destruct (match_at i) as [[|]| |] eqn:Em; try done; cbn [mbind outcome_bind] in H.
  - injection H as <-. split_and!; [done|done|]. intros j Hj. by replace j with i by lia.
  - specialize (IH (i + 1)%nat H). destruct r as [k|].
    + destruct IH as (Hk & Hm & Hj). split_and!; [lia|done|].
      intros j Hj'. destruct (decide (j = i)) as [->|]; [done|]. apply Hj. lia.
    + destruct IH as (k & y & Hk & Hy & Hne & Hj). exists k, y. split_and!; try done; [lia|].
      intros j Hj'. destruct (decide (j = i)) as [->|]; [done|]. apply Hj. lia.
Qed.

(** The loop ends inside the array or leaves it: it never runs out of fuel. *)
Lemma strstr_loop_terminates fuel v c0 match_at i :
  (i <= length v)%nat -> (length v < i + fuel)%nat -> (forall j, match_at j <> OutOfFuel) ->
  strstr_loop fuel v c0 match_at i <> OutOfFuel.
Proof.
  revert i. induction fuel as [|fuel IH]; intros i Hi Hf Hm; [lia|]. cbn [strstr_loop].
  unfold rd. destruct (v !! i) as [x|] eqn:Ex; [|done]. cbn [mbind outcome_bind].
  apply lookup_lt_Some in Ex. destruct (x =? c0); [|done].
  specialize (Hm i) as Hmi. destruct (match_at i) as [[|]| |]; try done.
  cbn [mbind outcome_bind]. apply IH; [lia|lia|done].
Qed.

Lemma memcmp_no_fuel a aoff b boff n : memcmp a aoff b boff n <> OutOfFuel.
Proof.
  unfold memcmp, read_bytes. repeat (case_match; try done).
Qed.

(** ** Properties *)

(** Copying: [strcpy], [strncpy] and [strdup] produce a well-formed string whose
    content is the source's (its first [n] bytes); a copy that does not fit,
    or longer than the source, is refused. *)
Theorem kstring_copies malloc dest src n :
  kstr_ok dest -> kstr_ok src -> 0 <= n ->
  (forall k, STRING_GUARD_MALLOC malloc (k_opts src) k = true) ->
  (used src <= opts_cap (k_opts dest) ->
     exists d, kylin_strcpy dest src = Ok (inr d) /\ kstr_ok d /\ content d = content src) /\
  (opts_cap (k_opts dest) < used src -> kylin_strcpy dest src = Ok (inl KYLIN_ERROR_INVAL)) /\
  (if (used src <? n) || (opts_cap (k_opts dest) <? n)
   then kylin_strncpy dest src n = Ok (inl KYLIN_ERROR_INVAL)
   else exists d, kylin_strncpy dest src n = Ok (inr d) /\ kstr_ok d /\
          content d = take (Z.to_nat n) (content src)) /\
  (exists d, kylin_strdup malloc src = Ok (inr d) /\ kstr_ok d /\ content d = content src).
Proof.
  intros Hd Hs Hn Hm. split_and!.
  - intros Hfit. unfold kylin_strcpy. rewrite (proj2 (Z.ltb_ge _ _)) by done.
    pose proof Hs as [Hc El Hu].
    destruct (copy_in_spec dest (val src) (used src) Hd) as (v & -> & Hok & Ec); [lia|lia|].
    eexists. split; [done|]. split; [done|]. by rewrite Ec.
  - intros Hno. unfold kylin_strcpy. by rewrite (proj2 (Z.ltb_lt _ _)).
  - pose proof (strncpy_spec dest src n Hd Hs Hn) as H.
    destruct (_ || _); [done|]. destruct H as (d & E & Hok & _ & Ec). eauto.
  - destruct (strndup_spec malloc src (used src) Hs (proj1 (ok_used src Hs)) Hm)
      as (d & E & Hok & _ & Ec).
    exists d. split; [done|]. split; [done|]. rewrite Ec. unfold content at 1.
    rewrite firstn_all2; [done|]. rewrite length_take. lia.
Qed.

Definition kstr_of (cap : Z) (bs : list Z) : kstr_t :=
  mk_kstr (mk_kstr_opts cap None) (Z.of_nat (length bs))
    (bs ++ replicate (Z.to_nat (cap + 1) - length bs) 0).

Lemma kstring_copies_witness :
  exists d, kylin_strdup (fun _ => true) (kstr_of 4 [97; 98]) = Ok (inr d) /\
    kstr_ok d /\ content d = [97; 98].
Proof.
  assert (H : kstr_ok (kstr_of 4 [97; 98])) by (split; simpl; lia).
  apply (kstring_copies (fun _ => true) (kstr_of 4 [97; 98]) (kstr_of 4 [97; 98]) 1 H H);
    [lia|reflexivity].
Defined.

(** [strcat] copies the bytes behind the content of [dest] but does not add to
    [used]: the content and the length stay what they were, and a second
    [strcat] writes over the first. *)
Theorem kstring_strcat_invisible dest src src' :
  kstr_ok dest -> kstr_ok src -> kstr_ok src' ->
  used dest + used src <= opts_cap (k_opts dest) ->
  used dest + used src' <= opts_cap (k_opts dest) ->
  exists d d', kylin_strcat dest src = Ok (inr d) /\ kylin_strcat d src' = Ok (inr d') /\
    kylin_strlen d = kylin_strlen dest /\ content d = content dest /\ content d' = content dest /\
    take (Z.to_nat (used dest + used src)) (val d) = content dest ++ content src /\
    take (Z.to_nat (used dest + used src')) (val d') = content dest ++ content src'.
Proof.
  assert (one : forall d0 s, kstr_ok d0 -> kstr_ok s ->
    used d0 + used s <= opts_cap (k_opts d0) ->
    exists d, kylin_strcat d0 s = Ok (inr d) /\ kstr_ok d /\ k_opts d = k_opts d0 /\
      used d = used d0 /\ content d = content d0 /\
      take (Z.to_nat (used d0 + used s)) (val d) = content d0 ++ content s).
  { intros d0 s [Hc El Hu] [Hc' El' Hu'] Hfit. unfold kylin_strcat, kylin_strncat.
    rewrite uw_id by (unfold is_u; lia). rewrite !(proj2 (Z.ltb_ge _ _)) by lia. cbn [orb].
    rewrite memcpy_ok by lia. cbn [mbind outcome_bind]. rewrite drop_0.
    assert (Lt : length (take (Z.to_nat (used s)) (val s)) = Z.to_nat (used s))
      by (rewrite length_take; lia).
    eexists. split; [done|]. split; [split; simpl; [done| |done]; rewrite length_splice; lia|].
    split; [done|]. split; [done|]. split.
    - unfold content. simpl. apply take_splice_before; lia.
    - replace (Z.to_nat (used d0 + used s))
        with (Z.to_nat (used d0) + length (take (Z.to_nat (used s)) (val s)))%nat by lia.
      unfold content. apply take_splice_app. lia. }
  intros Hd Hs Hs' Hf Hf'. destruct (one dest src Hd Hs Hf) as (d & E & Hok & Eo & Eu & Ec & Et).
  destruct (one d src' Hok Hs') as (d' & E' & _ & _ & _ & Ec' & Et'); [rewrite Eo, Eu; done|].
  exists d, d'. rewrite Eu, Ec in Et'. rewrite Ec in Ec'. split_and!; done.
Qed.

Lemma kstring_strcat_invisible_witness :
  exists d d', kylin_strcat (kstr_of 8 [97]) (kstr_of 8 [98; 99]) = Ok (inr d) /\
    kylin_strcat d (kstr_of 8 [100]) = Ok (inr d') /\ kylin_strlen d = 1 /\
    take 2 (val d') = [97; 100].
Proof.
  assert (H : kstr_ok (kstr_of 8 [97])) by (split; simpl; lia).
  assert (H1 : kstr_ok (kstr_of 8 [98; 99])) by (split; simpl; lia).
  assert (H2 : kstr_ok (kstr_of 8 [100])) by (split; simpl; lia).
  destruct (kstring_strcat_invisible _ _ _ H H1 H2) as (d & d' & E & E' & Hl & _ & _ & _ & Ht);
    [simpl; lia|simpl; lia|].
  exists d, d'. split; [exact E|]. split; [exact E'|]. split; [exact Hl|exact Ht].
Defined.

(** [strcmp] compares only as many bytes as both strings have: it returns 0
    exactly when the shorter content is a prefix of the longer one. *)
Theorem kstring_strcmp_prefix s1 s2 :
  kstr_ok s1 -> kstr_ok s2 ->
  exists c, kylin_strcmp s1 s2 = Ok c /\
    (c = 0 <-> content s1 `prefix_of` content s2 \/ content s2 `prefix_of` content s1).
Proof.
  intros H1 H2. destruct (strcmp_spec s1 s2 H1 H2) as (c & E & Hc). exists c. split; [done|].
  rewrite Hc. clear. generalize (content s1) (content s2). intros a b.
  destruct (Nat.le_ge_cases (length a) (length b)) as [L|L].
  - rewrite Nat.min_l by done. rewrite firstn_all2 by done. split.
    + intros Ea. left. rewrite Ea. apply prefix_take.
    + intros [[k ->]|[k ->]].
      * by rewrite take_app_length.
      * rewrite length_app in *. assert (length k = 0%nat) by lia.
        destruct k; [|done]. rewrite app_nil_r. symmetry. apply firstn_all2. simpl. lia.
  - rewrite Nat.min_r by done. rewrite (firstn_all2 b) by done. split.
    + intros Ea. right. rewrite <- Ea. apply prefix_take.
    + intros [[k ->]|[k ->]].
      * rewrite length_app in *. assert (length k = 0%nat) by lia.
        destruct k; [|done]. rewrite app_nil_r. apply firstn_all2. simpl. lia.
      * by rewrite take_app_length.
Qed.

Lemma kstring_strcmp_prefix_witness :
  exists c, kylin_strcmp (kstr_of 4 [97]) (kstr_of 4 [97; 98]) = Ok c /\ c = 0.
Proof.
  assert (H1 : kstr_ok (kstr_of 4 [97])) by (split; simpl; lia).
  assert (H2 : kstr_ok (kstr_of 4 [97; 98])) by (split; simpl; lia).
  destruct (kstring_strcmp_prefix _ _ H1 H2) as (c & E & Hc).
  exists c. split; [exact E|]. apply Hc. left. exists [98]. reflexivity.
Defined.

(** The searches. [strchr] and [strrchr] return the first and the last index of
    the character, NULL when it does not occur.  What [strstr] returns is a
    place where the pattern occurs, but only a run of the pattern's first
    character at the very start of the string is looked at: an occurrence
    after any other character is never found. *)
Theorem kstring_searches s acpt c r :
  kstr_ok s -> kstr_ok acpt -> kylin_strstr s acpt = Ok (inr r) ->
  kylin_strchr s c = Ok (List.find (is_char s c) (seq 0 (length (content s)))) /\
  kylin_strrchr s c = Ok (List.find (is_char s c) (rev (seq 0 (length (content s))))) /\
  match r with
  | Some i => take (Z.to_nat (used acpt)) (drop i (val s)) = content acpt /\
      forall j, (j <= i)%nat -> val s !! j = val acpt !! 0%nat
  | None => exists k, val s !! k <> val acpt !! 0%nat /\
      forall j, (j < k)%nat -> val s !! j = val acpt !! 0%nat
  end.
Proof.
  intros Hs Ha Hr. destruct (strchr_spec s c Hs) as [E1 E2]. split; [done|]. split; [done|].
  unfold kylin_strstr in Hr. destruct (used s <? used acpt); [done|].
  unfold rd at 1 in Hr. destruct (val acpt !! 0%nat) as [c0|] eqn:E0; [|done].
  cbn [mbind outcome_bind] in Hr. destruct (strstr_loop _ _ _ _ _) as [r'| |] eqn:El; try done.
  cbn [mbind outcome_bind] in Hr. injection Hr as ->.
  apply strstr_loop_spec in El. destruct r as [i|].
  - destruct El as (_ & Hm & Hj). split; [|intros j Hji; apply Hj; lia].
    unfold kylin_strncmp_raw, memcmp, read_bytes in Hm.
    pose proof Ha as [Hc Hl Hu].
    destruct ((0 <=? 0) && (0 <=? used acpt) && (0 + used acpt <=? Z.of_nat (length (val acpt))));
      [|done].
    destruct ((0 <=? Z.of_nat i) && (0 <=? used acpt) &&
      (Z.of_nat i + used acpt <=? Z.of_nat (length (val s)))) eqn:Eb; [|done].
    z_bool. cbn [mbind outcome_bind] in Hm. injection Hm as Hm. apply Z.eqb_eq in Hm.
    rewrite memcmp_zero in Hm by (rewrite !length_take, !length_drop; lia).
    rewrite drop_0, Nat2Z.id in Hm. by rewrite <- Hm.
  - destruct El as (k & x & _ & Hx & Hne & Hj). exists k. split; [congruence|].
    intros j Hjk. apply Hj. lia.
Qed.

Lemma kstring_searches_witness :
  kylin_strstr (kstr_of 8 [120; 97; 98]) (kstr_of 8 [97; 98]) = Ok (inr None) /\
  kylin_strchr (kstr_of 8 [97; 98; 97]) 97 = Ok (Some 0%nat) /\
  kylin_strrchr (kstr_of 8 [97; 98; 97]) 97 = Ok (Some 2%nat).
Proof.
  assert (H1 : kstr_ok (kstr_of 8 [97; 98; 97])) by (split; simpl; lia).
  assert (H2 : kstr_ok (kstr_of 8 [97; 98])) by (split; simpl; lia).
  split; [vm_compute; reflexivity|].
  destruct (kstring_searches (kstr_of 8 [97; 98; 97]) (kstr_of 8 [97; 98]) 97 (Some 0%nat) H1 H2)
    as (E1 & E2 & _); [vm_compute; reflexivity|].
  split; [rewrite E1|rewrite E2]; vm_compute; reflexivity.
Defined.
