(* ===== verification/KSet.v ===== *)
(** * Array sets ([lib/core/math/kylin_set.c])

    A set is an array of [cap] value slots of which the first [used] are in
    use; an ordered set keeps them in ascending order of its [compare]
    callback.  The callback gets two pointers and looks at the bytes they point
    to: the eight bytes of a slot for the integer types, the object a slot
    holds for the others.  [rand] is an argument. *)

From Stdlib Require Import Sorting.Sorted.
From S2P Require Import Prelude Errors Bytes Mem MathVal.

Record kset_opts_t := mk_kset_opts {
  is_order : bool;
  opts_cap : Z;
  val_type : kobj_t;
  val_size : Z;
  compare : option (list Z -> list Z -> Z);
  val_ctor : option (Z -> M mem Z);
  val_dtor : option (Z -> M mem unit);
}.

Record kset_t := mk_kset {
  s_opts : kset_opts_t;
  used : Z;
  s_val : list Z;
}.

Definition SET_VAL_MALLOC (opts : kset_opts_t) := val_ctor opts.
Definition SET_VAL_FREE (opts : kset_opts_t) : Z -> M mem unit :=
  match val_dtor opts with Some f => f | None => kylin_free end.

Definition kylin_set_create (guard_ok : bool) (opts : kset_opts_t) : kerr_t + kset_t :=
  if negb guard_ok then inl KYLIN_ERROR_NOMEM
  else inr (mk_kset opts 0 (replicate (Z.to_nat (opts_cap opts)) 0)).

(** Destroys every value; [used] keeps its value. *)
Definition kylin_set_clear (nested : nested_dtors) (g : kset_t) : M mem kset_t := fun m =>
  m ← for_each (fun m i =>
        v ← rd (s_val g) i;
        r ← kmath_val_dtor nested v (val_type (s_opts g)) (Some (SET_VAL_FREE (s_opts g))) m;
        Ok r.2) m (seq 0 (Z.to_nat (used g)));
  Ok (g, m).

(** The destructor of the options, or [kylin_free]. *)
Definition SET_GUARD_FREE (guard_dtor : option (kset_t -> M mem unit)) (kylin_free : kset_t -> M mem unit) : kset_t -> M mem unit :=
  match guard_dtor with Some f => f | None => kylin_free end.
Definition kylin_set_destroy (nested : nested_dtors) (guard_dtor : option (kset_t -> M mem unit))
    (kylin_free : kset_t -> M mem unit) (g : kset_t) : M mem unit :=
  g ← kylin_set_clear nested g; SET_GUARD_FREE guard_dtor kylin_free g.

Definition kylin_set_val_type (g : kset_t) : kobj_t := val_type (s_opts g).
Definition kylin_set_val_size (g : kset_t) : Z := val_size (s_opts g).
Definition kylin_set_count (g : kset_t) : Z := used g.

(** The pointer [kmath_val_get(&guard->val[i])] and the bytes behind a pointer. *)
Definition elem (g : kset_t) (i : nat) : outcome (vptr nat) :=
  v ← rd (s_val g) i; Ok (kmath_val_get i v (val_type (s_opts g))).

Definition view (g : kset_t) (m : mem) (p : vptr nat) : outcome (list Z) :=
  match p with
  | PSlot i => v ← rd (s_val g) i; Ok (le_bytes 8 v)
  | PObj a => match blocks m !! a with Some bs => Ok bs | None => Ub end
  end.

Definition elem_view (g : kset_t) (m : mem) (i : nat) : outcome (list Z) :=
  p ← elem g i; view g m p.

(** [guard->opts.compare && guard->opts.compare(key, elem i) `test` 0] *)
Definition compares (test : Z -> bool) (g : kset_t) (m : mem) (key : list Z) (i : nat) :
    outcome bool :=
  match compare (s_opts g) with
  | None => Ok false
  | Some cmp => b ← elem_view g m i; Ok (test (cmp key b))
  end.

(** The swap loop of [insert]: the value moves into slot [j] and the old one
    is carried on. *)
Definition carry (st : Z * list Z) (j : nat) : outcome (Z * list Z) :=
  let '(x, a) := st in y ← rd a j; a ← wr a j x; Ok (y, a).

(** [v] is the address of the caller's object. *)
Definition kylin_set_insert (g : kset_t) (v : Z) (m : mem) : outcome (kerr_t * kset_t * mem) :=
  if used g =? opts_cap (s_opts g) then Ok (KYLIN_ERROR_INVAL, g, m) else
  x ← kmath_val_ctor v (val_type (s_opts g)) (val_size (s_opts g)) (SET_VAL_MALLOC (s_opts g)) m;
  let '(val, m) := x in
  let n := Z.to_nat (used g) in
  hit ← (if is_order (s_opts g)
         then find_idx (compares (fun c => c <? 0) g m (le_bytes 8 val)) (seq 0 n)
         else Ok None);
  st ← match hit with
       | Some i => for_each carry (val, s_val g) (seq i (n - i))
       | None => Ok (val, s_val g)
       end;
  a ← wr st.2 n st.1;
  Ok (KYLIN_ERROR_OK, mk_kset (s_opts g) (used g + 1) a, m).

Definition swap_next (a : list Z) (i : nat) : outcome (list Z) :=
  x ← rd a i; y ← rd a (i + 1); a ← wr a i y; wr a (i + 1) x.

Definition kylin_set_remove_by_index (g : kset_t) (index : Z) : outcome (kerr_t * kset_t) :=
  if used g <=? index then Ok (KYLIN_ERROR_INVAL, g) else
  a ← for_each swap_next (s_val g)
        (seq (Z.to_nat index) (Z.to_nat (used g - 1) - Z.to_nat index));
  Ok (KYLIN_ERROR_OK, mk_kset (s_opts g) (used g - 1) a).

(** The first element that compares equal to the object with bytes [key]. *)
Definition lookup_key (g : kset_t) (m : mem) (key : list Z) : outcome (option nat) :=
  find_idx (compares (fun c => c =? 0) g m key) (seq 0 (Z.to_nat (used g))).

Definition kylin_set_remove (g : kset_t) (m : mem) (key : list Z) : outcome (kerr_t * kset_t) :=
  hit ← lookup_key g m key;
  match hit with
  | Some i => kylin_set_remove_by_index g (Z.of_nat i)
  | None => Ok (KYLIN_ERROR_NOENT, g)
  end.

(** [None] is the NULL pointer. *)
Definition kylin_set_find (g : kset_t) (m : mem) (key : list Z) : outcome (option (vptr nat)) :=
  hit ← lookup_key g m key;
  match hit with Some i => p ← elem g i; Ok (Some p) | None => Ok None end.

Definition kylin_set_find_by_index (g : kset_t) (index : Z) : outcome (vptr nat) :=
  elem g (Z.to_nat index).

(** [rand() % used]: undefined on the empty set. *)
Definition kylin_set_random (rand : Z) (g : kset_t) : outcome (vptr nat) :=
  if used g =? 0 then Ub else elem g (Z.to_nat (rand mod used g)).

Definition kylin_set_first (g : kset_t) : outcome (vptr nat) := elem g 0.

Definition kylin_set_last (g : kset_t) : outcome (vptr nat) :=
  elem g (Z.to_nat (u64 (used g - 1))).

Definition kylin_set_next (g : kset_t) (m : mem) (key : list Z) : outcome (option (vptr nat)) :=
  hit ← lookup_key g m key;
  match hit with
  | Some i => if Z.of_nat i <? used g - 1 then p ← elem g (i + 1); Ok (Some p) else Ok None
  | None => Ok None
  end.

Definition kylin_set_prev (g : kset_t) (m : mem) (key : list Z) : outcome (option (vptr nat)) :=
  hit ← lookup_key g m key;
  match hit with
  | Some i => if (0 <? i)%nat then p ← elem g (i - 1); Ok (Some p) else Ok None
  | None => Ok None
  end.

(** Both sorting routines are stubs. *)
Definition _bubble_sort (val : list Z) (arr_len : Z) : kerr_t * list Z := (KYLIN_ERROR_OK, val).
Definition _quick_sort (val : list Z) (arr_len : Z) : kerr_t * list Z := (KYLIN_ERROR_OK, val).

Definition kylin_set_order (g : kset_t) : kerr_t * kset_t :=
  let '(ret, v) := if used g <? 100 then _bubble_sort (s_val g) (used g)
                   else _quick_sort (s_val g) (used g) in
  (ret, mk_kset (s_opts g) (used g) v).

(** ** The sequence of values *)

Record kset_ok (g : kset_t) : Prop := {
  ok_cap : 0 <= opts_cap (s_opts g) < 2 ^ 31;
  ok_len : Z.of_nat (length (s_val g)) = opts_cap (s_opts g);
  ok_used : 0 <= used g <= opts_cap (s_opts g);
  ok_vals : Forall (is_u 64) (s_val g);
}.

Definition values (g : kset_t) : list Z := take (Z.to_nat (used g)) (s_val g).

Lemma length_values g : kset_ok g -> length (values g) = Z.to_nat (used g).
Proof. intros []. unfold values. rewrite length_take. lia. Qed.

Lemma values_lookup g i :
  kset_ok g -> (i < Z.to_nat (used g))%nat ->
  exists v, rd (s_val g) i = Ok v /\ values g !! i = Some v.
Proof.
  intros [] Hi. destruct (rd_lt (s_val g) i) as (v & E & Hv); [lia|].
  exists v. split; [done|]. unfold values. by rewrite lookup_take_lt.
Qed.

(** Inserting before the first element that satisfies [p]. *)
Fixpoint insert_before (p : Z -> bool) (v : Z) (l : list Z) : list Z :=
  match l with
  | [] => [v]
  | y :: l => if p y then v :: y :: l else y :: insert_before p v l
  end.

Lemma insert_before_at p v l i :
  (forall j y, (j < i)%nat -> l !! j = Some y -> p y = false) ->
  (forall y, l !! i = Some y -> p y = true) -> (i <= length l)%nat ->
  insert_before p v l = take i l ++ v :: drop i l.
Proof.
  revert i. induction l as [|y l IH]; intros i Hlow Hi Hl.
  - destruct i; [done|simpl in Hl; lia].
  - destruct i as [|i]; simpl.
    + by rewrite (Hi y eq_refl).
    + rewrite (Hlow 0%nat y) by (done || lia). f_equal. apply IH.
      * intros j z Hj. apply (Hlow (S j)). lia.
      * intros z. apply (Hi z).
      * simpl in Hl. lia.
Qed.

Lemma insert_before_perm p v l : Permutation (insert_before p v l) (v :: l).
Proof.
  induction l as [|y l IH]; simpl; [done|]. destruct (p y); [done|].
  rewrite IH. apply perm_swap.
Qed.

(** The carry loop shifts slots [i..] up by one. *)
Lemma carry_spec x a i k :
  (i + k <= length a)%nat ->
  exists y a', for_each carry (x, a) (seq i k) = Ok (y, a') /\ length a' = length a /\
    take (i + k) a' ++ [y] = take i a ++ x :: drop i (take (i + k) a) /\
    drop (i + k) a' = drop (i + k) a.
Proof.
  revert x a i. induction k as [|k IH]; intros x a i Hl.
  - exists x, a. rewrite Nat.add_0_r. split_and!; try done.
    by rewrite drop_ge by (rewrite length_take; lia).
  - cbn [seq for_each carry].
    destruct (rd_lt a i) as (z & -> & Hz); [lia|]. cbn [mbind outcome_bind].
    rewrite wr_lt by lia. cbn [mbind outcome_bind].
    destruct (IH z (<[i := x]> a) (S i)) as (y & a' & E & L & Hseq & Hdrop);
      [rewrite length_insert; lia|].
    exists y, a'. rewrite length_insert in L. rewrite E. split; [done|]. split; [done|].
    replace (i + S k)%nat with (S i + k)%nat by lia.
    rewrite drop_insert_lt in Hdrop by lia. split; [|done]. rewrite Hseq.
    rewrite (take_S_r _ i x) by (by apply list_lookup_insert_eq; lia).
    rewrite take_insert_ge by lia. rewrite <- app_assoc. simpl app. do 2 f_equal.
    rewrite (drop_S (take (S (i + k)) a) z i) by (by rewrite lookup_take_lt by lia).
    f_equal. rewrite !skipn_firstn_comm. by rewrite drop_insert_lt by lia.
Qed.

(** ** Insertion *)

(** The test of the insertion loop on a slot value. *)
Definition before (g : kset_t) (m : mem) (val : Z) (y : Z) : bool :=
  match compare (s_opts g) with
  | None => false
  | Some cmp =>
      match kmath_val_get 0%nat y (val_type (s_opts g)) with
      | PSlot _ => cmp (le_bytes 8 val) (le_bytes 8 y) <? 0
      | PObj p => match blocks m !! p with Some bs => cmp (le_bytes 8 val) bs <? 0 | None => false end
      end
  end.

(** Every object held by the set is alive (nothing to say of integers). *)
Definition alive (g : kset_t) (m : mem) : Prop :=
  forall y, y ∈ values g ->
    match kmath_val_get 0%nat y (val_type (s_opts g)) with
    | PSlot _ => True
    | PObj p => is_Some (blocks m !! p)
    end.

Lemma get_slot_or_obj (i : nat) (y : Z) t :
  kmath_val_get i y t = match kmath_val_get 0%nat y t with PSlot _ => PSlot i | PObj p => PObj p end.
Proof. by destruct t. Qed.

Lemma elem_view_spec g m i y :
  kset_ok g -> alive g m -> values g !! i = Some y ->
  elem_view g m i = match kmath_val_get 0%nat y (val_type (s_opts g)) with
                    | PSlot _ => Ok (le_bytes 8 y)
                    | PObj p => match blocks m !! p with Some bs => Ok bs | None => Ub end
                    end.
Proof.
  intros Hok Ha Hy. assert (Hi : (i < Z.to_nat (used g))%nat).
  { rewrite <- (length_values g Hok). by eapply lookup_lt_Some. }
  destruct (values_lookup g i Hok Hi) as (v & Hv & Hy'). assert (v = y) as -> by congruence.
  unfold elem_view, elem. rewrite Hv. cbn [mbind outcome_bind].
  rewrite get_slot_or_obj. destruct (kmath_val_get 0%nat y _); simpl; [by rewrite Hv|done].
Qed.

Lemma compares_before g m val i y :
  kset_ok g -> alive g m -> values g !! i = Some y ->
  compares (fun c => c <? 0) g m (le_bytes 8 val) i = Ok (before g m val y).
Proof.
  intros Hok Ha Hy. unfold compares, before. destruct (compare (s_opts g)) as [cmp|]; [|done].
  rewrite (elem_view_spec g m i y Hok Ha Hy). specialize (Ha y (list_elem_of_lookup_2 _ _ _ Hy)).
  destruct (kmath_val_get 0%nat y _); [done|]. by destruct Ha as [bs ->].
Qed.

Lemma find_before p l :
  match List.find (fun i => match l !! i with Some y => p y | None => false end) (seq 0 (length l)) with
  | Some i => forall v, insert_before p v l = take i l ++ v :: drop i l
  | None => forall v, insert_before p v l = l ++ [v]
  end.
Proof.
  destruct (List.find _ _) as [i|] eqn:E; intros v.
  - apply find_seq_Some in E as (Hi & Hp & Hlow). apply insert_before_at; [| |lia].
    + intros j y Hj Hy. specialize (Hlow j ltac:(lia)). by rewrite Hy in Hlow.
    + intros y Hy. by rewrite Hy in Hp.
  - pose proof (proj1 (find_seq_None _ _) E) as Hn.
    rewrite (insert_before_at p v l (length l)).
    + by rewrite firstn_all, drop_all.
    + intros j y Hj Hy. specialize (Hn j Hj). cbv beta in Hn. by rewrite Hy in Hn.
    + intros y Hy. apply lookup_lt_Some in Hy. lia.
    + done.
Qed.

Lemma insert_spec g v m val m' :
  kset_ok g -> used g < opts_cap (s_opts g) -> is_u 64 val -> alive g m' ->
  kmath_val_ctor v (val_type (s_opts g)) (val_size (s_opts g)) (val_ctor (s_opts g)) m = Ok (val, m') ->
  exists g', kylin_set_insert g v m = Ok (KYLIN_ERROR_OK, g', m') /\ kset_ok g' /\
    s_opts g' = s_opts g /\ used g' = used g + 1 /\
    values g' = if is_order (s_opts g) then insert_before (before g m' val) val (values g)
                else values g ++ [val].
Proof.
  intros Hok Hroom Hval Ha Hctor. pose proof (length_values g Hok) as Lv. pose proof Hok as [Hc El Hu Hv].
  unfold kylin_set_insert. rewrite (proj2 (Z.eqb_neq _ _)) by lia.
  unfold SET_VAL_MALLOC. rewrite Hctor. cbn [mbind outcome_bind].
  set (n := Z.to_nat (used g)) in *.
  match goal with |- context [mbind _ (if is_order _ then find_idx ?p ?l else _)] =>
    assert (Ehit : (if is_order (s_opts g) then find_idx p l else Ok None) =
      Ok (if is_order (s_opts g)
          then List.find (fun i => match values g !! i with Some y => before g m' val y | None => false end)
                 (seq 0 (length (values g))) else None)) end.
  { destruct (is_order (s_opts g)); [|done]. rewrite Lv. apply find_idx_spec.
    intros i Hi. apply elem_of_seq in Hi.
    destruct (values_lookup g i Hok ltac:(lia)) as (y & _ & Hy). rewrite Hy. by apply compares_before. }
  rewrite Ehit. cbn [mbind outcome_bind]. clear Ehit.
  pose proof (find_before (before g m' val) (values g)) as Hf.
  set (hit := if is_order (s_opts g) then _ else None).
  assert (Hst : exists y a', (match hit with
      | Some i => for_each carry (val, s_val g) (seq i (n - i))
      | None => Ok (val, s_val g) end) = Ok (y, a') /\ length a' = length (s_val g) /\
      drop n a' = drop n (s_val g) /\
      take n a' ++ [y] = if is_order (s_opts g) then insert_before (before g m' val) val (values g)
                         else values g ++ [val]).
  { subst hit. destruct (is_order (s_opts g)); [|by exists val, (s_val g)].
    destruct (List.find _ _) as [i|] eqn:E; [|exists val, (s_val g); by rewrite Hf].
    apply find_seq_Some in E as (Hi & _).
    destruct (carry_spec val (s_val g) i (n - i)) as (y & a' & E & L & Hs & Hd); [lia|].
    exists y, a'. split; [done|]. split; [done|].
    replace (i + (n - i))%nat with n in Hs, Hd by lia. split; [done|]. rewrite Hs, Hf. unfold values. fold n.
    f_equal. rewrite take_take. f_equal. lia. }
  destruct Hst as (y & a' & -> & L & Hd & Hs). cbn [mbind outcome_bind fst snd].
  rewrite wr_lt by lia. cbn [mbind outcome_bind].
  assert (Hvals : values (mk_kset (s_opts g) (used g + 1) (<[n := y]> a')) =
    if is_order (s_opts g) then insert_before (before g m' val) val (values g) else values g ++ [val]).
  { rewrite <- Hs. unfold values. simpl. replace (Z.to_nat (used g + 1)) with (S n) by lia.
    rewrite (take_S_r _ n y) by (by apply list_lookup_insert_eq; lia).
    by rewrite take_insert_ge by lia. }
  eexists. split; [done|]. split; [|done]. split; simpl; try done; try lia.
  - rewrite length_insert. lia.
  - rewrite <- (take_drop (Datatypes.S n) (<[n := y]> a')). apply Forall_app. split.
    + change (Datatypes.S n) with (1 + n)%nat. replace (1 + n)%nat with (Z.to_nat (used g + 1)) by lia.
      change (Forall (is_u 64) (values (mk_kset (s_opts g) (used g + 1) (<[n := y]> a')))).
      rewrite Hvals. assert (Hvs : Forall (is_u 64) (values g)) by (by apply Forall_take).
      destruct (is_order (s_opts g)); [|apply Forall_app; by auto].
      rewrite insert_before_perm. by constructor.
    + rewrite drop_insert_lt by lia. replace (Datatypes.S n) with (n + 1)%nat by lia.
      rewrite <- drop_drop, Hd, drop_drop. by apply Forall_drop.
Qed.

(** ** Removal and lookup *)

(** The swap loop of [remove_by_index] carries slot [i] up [k] places. *)
Lemma swap_loop_spec a i k x :
  (i + k < length a)%nat -> a !! i = Some x ->
  exists a', for_each swap_next a (seq i k) = Ok a' /\ length a' = length a /\
    take (i + k + 1) a' = take i a ++ drop (i + 1) (take (i + k + 1) a) ++ [x] /\
    drop (i + k + 1) a' = drop (i + k + 1) a.
Proof.
  revert a i. induction k as [|k IH]; intros a i Hl Hx.
  - exists a. rewrite Nat.add_0_r. split_and!; try done.
    rewrite drop_ge by (rewrite length_take; lia). replace (i + 1)%nat with (S i) by lia.
    by apply take_S_r.
  - cbn [seq for_each]. change (swap_next a i) with
      (x ← rd a i; y ← rd a (i + 1); a ← wr a i y; wr a (i + 1) x).
    assert (Er : rd a i = Ok x) by (unfold rd; by rewrite Hx). rewrite Er. cbn [mbind outcome_bind].
    destruct (rd_lt a (i + 1)) as (y & -> & Hy); [lia|]. cbn [mbind outcome_bind].
    rewrite wr_lt by lia. cbn [mbind outcome_bind]. rewrite wr_lt by (rewrite length_insert; lia).
    cbn [mbind outcome_bind].
    destruct (IH (<[(i + 1)%nat := x]> (<[i := y]> a)) (S i)) as (a' & E & L & Ht & Hd).
    { rewrite !length_insert. lia. }
    { replace (S i) with (i + 1)%nat by lia. apply list_lookup_insert_eq. rewrite length_insert. lia. }
    exists a'. rewrite !length_insert in L. split; [done|]. split; [done|].
    replace (i + S k + 1)%nat with (S i + k + 1)%nat by lia. rewrite Ht, Hd.
    split; [|by rewrite !drop_insert_lt by lia].
    rewrite take_insert_ge by lia.
    rewrite (take_S_r _ i y) by (by apply list_lookup_insert_eq; lia).
    rewrite take_insert_ge by lia. rewrite <- app_assoc. simpl app. f_equal.
    rewrite (drop_S (take (S (i + k + 1)) a) y (i + 1)) by (by rewrite lookup_take_lt by lia).
    simpl app. f_equal. f_equal. replace (S (i + 1)) with (S i + 1)%nat by lia.
    rewrite !skipn_firstn_comm. by rewrite !drop_insert_lt by lia.
Qed.

Lemma remove_by_index_spec g i :
  kset_ok g -> 0 <= i ->
  if used g <=? i then kylin_set_remove_by_index g i = Ok (KYLIN_ERROR_INVAL, g)
  else exists g', kylin_set_remove_by_index g i = Ok (KYLIN_ERROR_OK, g') /\ kset_ok g' /\
    s_opts g' = s_opts g /\ used g' = used g - 1 /\ values g' = delete (Z.to_nat i) (values g).
Proof.
  intros Hok Hi. pose proof Hok as [Hc El Hu Hv]. unfold kylin_set_remove_by_index.
  destruct (Z.leb_spec (used g) i) as [|Hlt]; [done|].
  destruct (rd_lt (s_val g) (Z.to_nat i)) as (x & _ & Hx); [lia|].
  destruct (swap_loop_spec (s_val g) (Z.to_nat i) (Z.to_nat (used g - 1) - Z.to_nat i) x)
    as (a' & -> & L & Ht & Hd); [lia|done|].
  cbn [mbind outcome_bind].
  replace (Z.to_nat i + (Z.to_nat (used g - 1) - Z.to_nat i) + 1)%nat with (Z.to_nat (used g)) in Ht, Hd
    by lia.
  eexists. split; [done|]. split; [|split; [done|split; [done|]]].
  - split; simpl; [done|lia|lia|].
    rewrite <- (take_drop (Z.to_nat (used g)) a'), Ht, Hd.
    rewrite !Forall_app. split_and!; try (by apply Forall_take); try (by apply Forall_drop);
      [by apply Forall_drop, Forall_take|].
    constructor; [|done]. by eapply Forall_lookup_1.
  - unfold values at 1. simpl.
    replace (Z.to_nat (used g - 1)) with (Z.to_nat (used g) - 1)%nat by lia.
    replace (take (Z.to_nat (used g) - 1) a') with
      (take (Z.to_nat (used g) - 1) (take (Z.to_nat (used g)) a')) by (rewrite take_take; f_equal; lia).
    rewrite Ht, app_assoc. rewrite take_app_le.
    + rewrite firstn_all2 by (rewrite length_app, length_drop, !length_take; lia).
      rewrite delete_take_drop. unfold values. rewrite take_take, Nat.min_l by lia.
      by rewrite Nat.add_1_r.
    + rewrite length_app, length_drop, !length_take. lia.
Qed.

(** Does slot value [y] compare equal to the object with bytes [key]? *)
Definition equals (g : kset_t) (m : mem) (key : list Z) (y : Z) : bool :=
  match compare (s_opts g) with
  | None => false
  | Some cmp =>
      match kmath_val_get 0%nat y (val_type (s_opts g)) with
      | PSlot _ => cmp key (le_bytes 8 y) =? 0
      | PObj p => match blocks m !! p with Some bs => cmp key bs =? 0 | None => false end
      end
  end.

Definition key_index (g : kset_t) (m : mem) (key : list Z) : option nat :=
  List.find (fun i => match values g !! i with Some y => equals g m key y | None => false end)
    (seq 0 (length (values g))).

Lemma lookup_key_spec g m key :
  kset_ok g -> alive g m -> lookup_key g m key = Ok (key_index g m key).
Proof.
  intros Hok Ha. unfold lookup_key, key_index. rewrite (length_values g Hok).
  apply find_idx_spec. intros i Hi. apply elem_of_seq in Hi.
  destruct (values_lookup g i Hok ltac:(lia)) as (y & _ & Hy). rewrite Hy.
  unfold compares, equals. destruct (compare (s_opts g)) as [cmp|]; [|done].
  rewrite (elem_view_spec g m i y Hok Ha Hy). specialize (Ha y (list_elem_of_lookup_2 _ _ _ Hy)).
  destruct (kmath_val_get 0%nat y _); [done|]. by destruct Ha as [bs ->].
Qed.

Lemma key_index_lt g m key i : key_index g m key = Some i -> (i < length (values g))%nat.
Proof. intros H. apply find_seq_Some in H as (Hi & _). lia. Qed.

(** The pointer returned for element [i]. *)
Definition elem_ptr (g : kset_t) (i : nat) : option (vptr nat) :=
  (fun y => kmath_val_get i y (val_type (s_opts g))) <$> (values g !! i).

Lemma elem_spec g i :
  kset_ok g -> (i < length (values g))%nat ->
  exists p, elem g i = Ok p /\ elem_ptr g i = Some p.
Proof.
  intros Hok Hi. rewrite (length_values g Hok) in Hi. unfold elem, elem_ptr.
  destruct (values_lookup g i Hok Hi) as (y & -> & ->). eauto.
Qed.

(** ** Order *)

(** The set is ordered when no element is before its predecessor. *)
Definition ascending (lt : Z -> Z -> bool) (l : list Z) : Prop :=
  StronglySorted (fun x y => lt y x = false) l.

Lemma insert_before_ascending (lt : Z -> Z -> bool) v l :
  (forall x y, lt x y = true -> lt y x = false) ->
  (forall x y z, lt y x = false -> lt z y = false -> lt z x = false) ->
  ascending lt l -> ascending lt (insert_before (lt v) v l).
Proof.
  intros Hasym Htrans. induction 1 as [|y l Hl IH Hy]; simpl; [repeat constructor|].
  destruct (lt v y) eqn:E.
  - constructor; [by constructor|]. constructor; [by apply Hasym|].
    eapply Forall_impl; [exact Hy|]. intros z Hz. eapply Htrans; [|exact Hz]. by apply Hasym.
  - constructor; [done|]. rewrite insert_before_perm. by constructor.
Qed.

(** ** Properties *)

(** C34. Inserting into an ordered set of integers: the call succeeds while there is
    room, the elements are the old ones and the new one, and they are again in
    ascending order of the callback, for every callback that orders slots
    consistently. *)
Theorem kset_insert_keeps_order g v m val cmp w sg :
  let lt x y := cmp (le_bytes 8 x) (le_bytes 8 y) <? 0 in
  kset_ok g -> used g < opts_cap (s_opts g) -> is_order (s_opts g) = true ->
  compare (s_opts g) = Some cmp -> int_type (val_type (s_opts g)) = Some (w, sg) ->
  (forall x y, lt x y = true -> lt y x = false) ->
  (forall x y z, lt y x = false -> lt z y = false -> lt z x = false) ->
  kmath_val_ctor v (val_type (s_opts g)) (val_size (s_opts g)) (val_ctor (s_opts g)) m = Ok (val, m) ->
  is_u 64 val -> ascending lt (values g) ->
  exists g', kylin_set_insert g v m = Ok (KYLIN_ERROR_OK, g', m) /\ kset_ok g' /\
    kylin_set_count g' = kylin_set_count g + 1 /\
    Permutation (values g') (val :: values g) /\ ascending lt (values g').
Proof.
  intros lt Hok Hroom Hord Hcmp Hint Hasym Htrans Hctor Hval Hasc.
  assert (Hslot : forall y, kmath_val_get 0%nat y (val_type (s_opts g)) = PSlot 0%nat).
  { intros y. by destruct (val_type (s_opts g)). }
  destruct (insert_spec g v m val m Hok Hroom Hval) as (g' & E & Hok' & _ & Eu & Ev); [|done|].
  { intros y _. by rewrite Hslot. }
  rewrite Hord in Ev. exists g'. split; [done|]. split; [done|]. split; [done|].
  rewrite Ev. split; [apply insert_before_perm|].
  assert (Hb : forall l, insert_before (before g m val) val l = insert_before (lt val) val l).
  { intros l. induction l as [|y l IH]; [done|]. simpl. unfold before at 1.
    rewrite Hcmp, Hslot. subst lt. simpl. by rewrite IH. }
  rewrite Hb. by apply insert_before_ascending.
Qed.

Definition int_cmp (a b : list Z) : Z := Z.sgn (le_value a - le_value b).
Definition int_set (cap : Z) (vs : list Z) : kset_t :=
  mk_kset (mk_kset_opts true cap KOBJ_UINT64 8 (Some int_cmp) None None) (Z.of_nat (length vs))
    (vs ++ replicate (Z.to_nat cap - length vs) 0).

Lemma int_cmp_lt x y : int_cmp (le_bytes 8 x) (le_bytes 8 y) <? 0 = (u64 x <? u64 y).
Proof.
  unfold int_cmp. rewrite !le_value_le_bytes. change (8 * Z.of_nat 8) with 64.
  fold (u64 x) (u64 y). destruct (Z.ltb_spec (u64 x) (u64 y)); [apply Z.ltb_lt|apply Z.ltb_ge]; lia.
Qed.

Lemma kset_insert_keeps_order_witness :
  let m := mk_mem {[16 := [5; 0; 0; 0; 0; 0; 0; 0]]} 32 [] in
  exists g', kylin_set_insert (int_set 4 [3; 9]) 16 m = Ok (KYLIN_ERROR_OK, g', m) /\
    values g' = [3; 5; 9] /\ Permutation (values g') [5; 3; 9].
Proof.
  destruct (kset_insert_keeps_order (int_set 4 [3; 9]) 16
    (mk_mem {[16 := [5; 0; 0; 0; 0; 0; 0; 0]]} 32 []) 5 int_cmp 64 false)
    as (g' & E & _ & _ & P & _).
  - split; simpl; try lia. repeat constructor; unfold is_u; lia.
  - simpl. lia.
  - reflexivity.
  - reflexivity.
  - reflexivity.
  - intros x y. rewrite !int_cmp_lt. lia.
  - intros x y z. rewrite !int_cmp_lt. lia.
  - vm_compute. reflexivity.
  - unfold is_u. lia.
  - repeat constructor; vm_compute; reflexivity.
  - exists g'. split; [exact E|]. split; [|exact P].
    assert (E2 : kylin_set_insert (int_set 4 [3; 9]) 16
      (mk_mem {[16 := [5; 0; 0; 0; 0; 0; 0; 0]]} 32 []) =
      Ok (KYLIN_ERROR_OK, int_set 4 [3; 5; 9], mk_mem {[16 := [5; 0; 0; 0; 0; 0; 0; 0]]} 32 []))
      by (vm_compute; reflexivity).
    rewrite E2 in E. injection E as <-. vm_compute. reflexivity.
Defined.

(** Lookup and removal. [find], [next] and [prev] return the first element that
    compares equal to the key, its successor and its predecessor, or NULL;
    [remove] deletes that element and keeps the order of the others, or
    reports [KYLIN_ERROR_NOENT]. *)
Theorem kset_find_and_remove g m key :
  kset_ok g -> alive g m ->
  match key_index g m key with
  | Some i =>
      kylin_set_find g m key = Ok (elem_ptr g i) /\
      kylin_set_next g m key = Ok (elem_ptr g (i + 1)) /\
      kylin_set_prev g m key = Ok (if (0 <? i)%nat then elem_ptr g (i - 1) else None) /\
      exists g', kylin_set_remove g m key = Ok (KYLIN_ERROR_OK, g') /\ kset_ok g' /\
        values g' = delete i (values g) /\ kylin_set_count g' = kylin_set_count g - 1
  | None =>
      kylin_set_find g m key = Ok None /\ kylin_set_next g m key = Ok None /\
      kylin_set_prev g m key = Ok None /\ kylin_set_remove g m key = Ok (KYLIN_ERROR_NOENT, g)
  end.
Proof.
  intros Hok Ha. unfold kylin_set_find, kylin_set_next, kylin_set_prev, kylin_set_remove.
  rewrite (lookup_key_spec g m key Hok Ha). cbn [mbind outcome_bind].
  pose proof (length_values g Hok) as Lv. pose proof (ok_used g Hok) as Hu.
  destruct (key_index g m key) as [i|] eqn:Ek; [|done]. pose proof (key_index_lt g m key i Ek) as Hi.
  destruct (elem_spec g i Hok Hi) as (p & Ep & Pp).
  split; [|split; [|split]].
  - by rewrite Ep, Pp.
  - destruct (Z.ltb_spec (Z.of_nat i) (used g - 1)).
    + destruct (elem_spec g (i + 1) Hok) as (q & Eq & Pq); [lia|]. by rewrite Eq, Pq.
    + unfold elem_ptr. by rewrite lookup_ge_None_2 by lia.
  - destruct (Nat.ltb_spec 0 i); [|done].
    destruct (elem_spec g (i - 1) Hok) as (q & Eq & Pq); [lia|]. by rewrite Eq, Pq.
  - pose proof (remove_by_index_spec g (Z.of_nat i) Hok ltac:(lia)) as R.
    rewrite (proj2 (Z.leb_gt _ _)) in R by lia.
    destruct R as (g' & E & Hok' & _ & Eu & Ev). exists g'. rewrite Nat2Z.id in Ev. done.
Qed.

Lemma kset_find_and_remove_witness :
  let m := mk_mem ∅ 16 [] in let g := int_set 4 [3; 5; 9] in
  kylin_set_next g m (le_bytes 8 5) = Ok (Some (PSlot 2%nat)) /\
  exists g', kylin_set_remove g m (le_bytes 8 5) = Ok (KYLIN_ERROR_OK, g') /\ values g' = [3; 9].
Proof.
  assert (Hok : kset_ok (int_set 4 [3; 5; 9])).
  { split; simpl; try lia. repeat constructor; unfold is_u; lia. }
  pose proof (kset_find_and_remove (int_set 4 [3; 5; 9]) (mk_mem ∅ 16 []) (le_bytes 8 5) Hok) as H.
  destruct H as (_ & Hn & _ & g' & Er & _ & Ev & _).
  { intros y _. exact I. }
  split; [exact Hn|]. exists g'. split; [exact Er|]. rewrite Ev. vm_compute. reflexivity.
Defined.
