(* ===== verification/KList.v ===== *)
(** * Doubly linked lists ([lib/core/math/kylin_list.c])

    Nodes are three-word objects of the heap (previous, next, value); the guard
    structures have their own map.  The functions are state passing on the
    heap, one field access per access of the source; a walk along the nodes
    gets as much fuel as there are objects in the heap, so it runs out only on
    a cycle.  [match] looks at the heap through the two pointers it is given.
    A guard from a user-supplied [guard_ctor] is not cleared: [guard_init] is
    what its three fields hold (zeroes for [kylin_malloc]). *)

From S2P Require Import Prelude Errors Bytes Mem MathVal.

Record klist_opts_t := mk_klist_opts {
  val_type : kobj_t;
  val_size : Z;
  match_fn : mem -> Z -> Z -> Z;
  val_ctor : option (Z -> M mem Z);
  val_dtor : option (Z -> M mem unit);
  node_ctor : option (Z -> M mem Z);
  node_dtor : option (Z -> M mem unit);
  guard_init : Z * Z * Z;
}.

Record klist_t := mk_klist {
  g_head : Z;
  g_tail : Z;
  g_opts : klist_opts_t;
  g_count : Z;
}.

Record st := mk_st {
  guards : gmap Z klist_t;
  omem : mem;
  kerrno : option kerr_t;
}.

(** ** Accesses *)
#[export] Instance st_mem : HasMem st.
Proof.
  refine {| mem_of := omem; with_mem s m := mk_st (guards s) m (kerrno s) |}; by intros [].
Defined.

Definition set_kerrno (e : kerr_t) : M st unit := fun s =>
  Ok (tt, mk_st (guards s) (omem s) (Some e)).

Definition guard (g : Z) : M st klist_t := fun s =>
  match guards s !! g with Some l => Ok (l, s) | None => Ub end.

Definition put_guard (g : Z) (l : klist_t) : M st unit := fun s =>
  Ok (tt, mk_st (<[g := l]> (guards s)) (omem s) (kerrno s)).

Definition set_HEAD (g x : Z) : M st unit :=
  l ← guard g; put_guard g (mk_klist x (g_tail l) (g_opts l) (g_count l)).
Definition set_TAIL (g x : Z) : M st unit :=
  l ← guard g; put_guard g (mk_klist (g_head l) x (g_opts l) (g_count l)).
Definition set_COUNT (g x : Z) : M st unit :=
  l ← guard g; put_guard g (mk_klist (g_head l) (g_tail l) (g_opts l) x).

Definition PREV : nat := 0.
Definition NEXT : nat := 1.
Definition VAL : nat := 2.
Definition LIST_PREV (node : Z) : M st Z := on_mem (read_word node PREV).
Definition LIST_NEXT (node : Z) : M st Z := on_mem (read_word node NEXT).
Definition LIST_VAL (node : Z) : M st Z := on_mem (read_word node VAL).
Definition set_PREV (node x : Z) : M st unit := on_mem (write_word node PREV x).
Definition set_NEXT (node x : Z) : M st unit := on_mem (write_word node NEXT x).
Definition set_VAL (node x : Z) : M st unit := on_mem (write_word node VAL x).

Definition sizeof_node : Z := 24.
Definition LIST_VAL_FREE (o : klist_opts_t) : Z -> M mem unit :=
  match val_dtor o with Some f => f | None => kylin_free end.

Definition LIST_NODE_MALLOC (o : klist_opts_t) : Z -> M mem Z :=
  match node_ctor o with Some f => f | None => kylin_malloc end.
Definition LIST_NODE_FREE (o : klist_opts_t) : Z -> M mem unit :=
  match node_dtor o with Some f => f | None => kylin_free end.

Definition get_ptr (o : klist_opts_t) (node : Z) : M st (vptr Z) :=
  v ← LIST_VAL node; mret (kmath_val_get node v (val_type o)).

(** ** Creation *)
Definition sizeof_list : Z := 104.
Definition kylin_list_create (o : klist_opts_t) : M st Z := fun s =>
  match alloc_addr sizeof_list (omem s) with
  | (Some a, m) =>
      let '(h, t, c) := guard_init o in
      Ok (a, mk_st (<[a := mk_klist h t o c]> (guards s)) m (kerrno s))
  | (None, m) => Ok (NULL, mk_st (guards s) m (Some KYLIN_ERROR_NOMEM))
  end.

Definition kylin_list_count (g : Z) : M st Z := l ← guard g; mret (g_count l).
Definition kylin_list_val (g node : Z) : M st (vptr Z) := l ← guard g; get_ptr (g_opts l) node.
Definition kylin_list_first (g : Z) : M st Z := l ← guard g; mret (g_head l).
Definition kylin_list_last (g : Z) : M st Z := l ← guard g; mret (g_tail l).
Definition kylin_list_prev (node : Z) : M st Z := LIST_PREV node.
Definition kylin_list_next (node : Z) : M st Z := LIST_NEXT node.

(** ** Linking a node *)
Definition count_up (g : Z) : M st unit := l ← guard g; set_COUNT g (u64 (g_count l + 1)).
Definition count_down (g : Z) : M st unit := l ← guard g; set_COUNT g (u64 (g_count l - 1)).

Definition kylin_list_insert_head_raw (g node : Z) : M st unit :=
  l ← guard g;
  _ ← (if g_count l =? 0 then
         _ ← set_TAIL g node; _ ← set_HEAD g node; _ ← set_NEXT node NULL; set_PREV node NULL
       else
         _ ← set_PREV node NULL; _ ← set_NEXT node (g_head l);
         _ ← set_PREV (g_head l) node; set_HEAD g node);
  count_up g.

Definition kylin_list_insert_tail_raw (g node : Z) : M st unit :=
  l ← guard g;
  _ ← (if g_count l =? 0 then
         _ ← set_TAIL g node; _ ← set_HEAD g node; _ ← set_NEXT node NULL; set_PREV node NULL
       else
         _ ← set_PREV node (g_tail l); _ ← set_NEXT node NULL;
         _ ← set_NEXT (g_tail l) node; set_TAIL g node);
  count_up g.

Definition kylin_list_insert_after_raw (g before node : Z) : M st unit :=
  l ← guard g;
  _ ← set_PREV node before;
  n ← LIST_NEXT before; _ ← set_NEXT node n;
  _ ← (if g_tail l =? before then set_TAIL g node
       else n ← LIST_NEXT before; set_PREV n node);
  _ ← set_NEXT before node;
  count_up g.

Definition kylin_list_insert_before_raw (g after node : Z) : M st unit :=
  l ← guard g;
  _ ← set_NEXT node after;
  p ← LIST_PREV after; _ ← set_PREV node p;
  _ ← (if g_head l =? after then set_HEAD g node
       else p ← LIST_PREV after; set_NEXT p node);
  _ ← set_PREV after node;
  count_up g.

(** What the four value insertions share: the node, its value, the linking,
    the pointer returned. *)
Definition insert_with (g val : Z) (link : Z -> M st unit) : M st (vptr Z) :=
  l ← guard g;
  node ← on_mem (LIST_NODE_MALLOC (g_opts l) sizeof_node);
  if node =? NULL then _ ← set_kerrno KYLIN_ERROR_NOMEM; mret (PObj NULL) else
  v ← on_mem (kmath_val_ctor val (val_type (g_opts l)) (val_size (g_opts l)) (val_ctor (g_opts l)));
  _ ← set_VAL node v;
  _ ← link node;
  get_ptr (g_opts l) node.

Definition kylin_list_insert_head (g val : Z) : M st (vptr Z) :=
  insert_with g val (kylin_list_insert_head_raw g).
Definition kylin_list_insert_tail (g val : Z) : M st (vptr Z) :=
  insert_with g val (kylin_list_insert_tail_raw g).
Definition kylin_list_insert_after (g before val : Z) : M st (vptr Z) :=
  insert_with g val (kylin_list_insert_after_raw g before).
Definition kylin_list_insert_before (g after val : Z) : M st (vptr Z) :=
  insert_with g val (kylin_list_insert_before_raw g after).

(** ** Searching *)
Definition fuel_of (s : st) : nat := S (size (blocks (omem s))).

Fixpoint find_from (fuel : nat) (o : klist_opts_t) (key tmp : Z) : M st Z :=
  match fuel with
  | O => out_of_fuel
  | S fuel =>
      if tmp =? NULL then mret NULL else
      v ← LIST_VAL tmp;
      s ← get_st;
      if match_fn o (omem s) key v =? 0 then mret tmp else
      n ← LIST_NEXT tmp; find_from fuel o key n
  end.

Definition kylin_list_find_raw (g key : Z) : M st Z :=
  l ← guard g; s ← get_st; find_from (fuel_of s) (g_opts l) key (g_head l).

Definition kylin_list_find (g key : Z) : M st (vptr Z) :=
  l ← guard g;
  node ← kylin_list_find_raw g key;
  if node =? NULL then mret (PObj NULL) else get_ptr (g_opts l) node.

(** The loop [for i = 1; i < count; i++]. *)
Fixpoint index_from (fuel : nat) (index i count tmp : Z) : M st Z :=
  match fuel with
  | O => out_of_fuel
  | S fuel =>
      if i <? count then
        if i =? index then mret tmp
        else n ← LIST_NEXT tmp; index_from fuel index (i + 1) count n
      else mret NULL
  end.

Definition kylin_list_find_index_raw (g index : Z) : M st Z :=
  l ← guard g;
  if g_count l <? u64 index then mret NULL
  else index_from (S (Z.to_nat (g_count l))) index 1 (g_count l) (g_head l).

Definition kylin_list_find_index (g index : Z) : M st (vptr Z) :=
  l ← guard g;
  node ← kylin_list_find_index_raw g index;
  if node =? NULL then mret (PObj NULL) else get_ptr (g_opts l) node.

(** ** Unlinking *)
Definition free_guard (g : Z) : M st unit := fun s =>
  Ok (tt, mk_st (delete g (guards s)) (omem s) (kerrno s)).

Definition kylin_list_unlink_raw (g node : Z) : M st Z :=
  p ← LIST_PREV node;
  n ← LIST_NEXT node;
  _ ← (if negb (p =? NULL) then set_NEXT p n else set_HEAD g n);
  n ← LIST_NEXT node;
  p ← LIST_PREV node;
  _ ← (if negb (n =? NULL) then set_PREV n p else set_TAIL g p);
  _ ← count_down g;
  mret node.

Section Destructors.
Context (nested : nested_dtors).

Definition kylin_list_remove_raw (g node : Z) : M st unit :=
  _ ← kylin_list_unlink_raw g node;
  l ← guard g;
  v ← LIST_VAL node;
  _ ← on_mem (kmath_val_dtor nested v (val_type (g_opts l)) (Some (LIST_VAL_FREE (g_opts l))));
  on_mem (LIST_NODE_FREE (g_opts l) node).

Definition kylin_list_remove (g cmp : Z) : M st unit :=
  node ← kylin_list_find_raw g cmp;
  if node =? NULL then set_kerrno KYLIN_ERROR_INVAL else kylin_list_remove_raw g node.

(** [clear] destroys the head's value, then asks [remove] for the node equal to
    the head's own address. *)
Fixpoint clear_loop (fuel : nat) (g : Z) : M st unit :=
  match fuel with
  | O => out_of_fuel
  | S fuel =>
      l ← guard g;
      if g_head l =? NULL then mret tt else
      v ← LIST_VAL (g_head l);
      _ ← on_mem (kmath_val_dtor nested v (val_type (g_opts l)) (Some (LIST_VAL_FREE (g_opts l))));
      _ ← kylin_list_remove g (g_head l);
      clear_loop fuel g
  end.

Definition kylin_list_clear (g : Z) : M st unit := s ← get_st; clear_loop (fuel_of s) g.

Definition kylin_list_destroy (g : Z) : M st unit := _ ← kylin_list_clear g; free_guard g.

(** [dup] inserts the address of each node as the value, and gives up when an
    insertion succeeded. *)
Fixpoint dup_loop (fuel : nat) (dup tmp : Z) : M st Z :=
  match fuel with
  | O => out_of_fuel
  | S fuel =>
      if tmp =? NULL then mret dup else
      r ← kylin_list_insert_tail dup tmp;
      match r with
      | PObj 0 => n ← LIST_NEXT tmp; dup_loop fuel dup n
      | _ => _ ← kylin_list_destroy dup; mret NULL
      end
  end.

Definition kylin_list_dup (g : Z) : M st Z :=
  l ← guard g;
  dup ← kylin_list_create (g_opts l);
  if dup =? NULL then mret NULL else
  s ← get_st; dup_loop (fuel_of s) dup (g_head l).
End Destructors.

Definition kylin_list_unlink (g cmp : Z) : M st (vptr Z) :=
  l ← guard g;
  node ← kylin_list_find_raw g cmp;
  if node =? NULL then _ ← set_kerrno KYLIN_ERROR_INVAL; mret (PObj NULL) else
  _ ← kylin_list_unlink_raw g node;
  r ← get_ptr (g_opts l) node;
  _ ← on_mem (LIST_NODE_FREE (g_opts l) node);
  mret r.

(** ** Rotation and joining *)
Fixpoint rotate_loop (fuel : nat) (tmp : Z) : M st unit :=
  match fuel with
  | O => out_of_fuel
  | S fuel =>
      if tmp =? NULL then mret tt else
      tmp_next ← LIST_NEXT tmp;
      if tmp_next =? NULL then mret tt else
      p ← LIST_PREV tmp; n ← LIST_NEXT tmp;
      _ ← set_PREV tmp n; _ ← set_NEXT tmp p;
      rotate_loop fuel tmp_next
  end.

Definition kylin_list_rotate (g : Z) : M st unit :=
  l ← guard g;
  if g_count l <=? 1 then mret tt else
  s ← get_st;
  _ ← rotate_loop (fuel_of s) (g_head l);
  l ← guard g;
  _ ← set_HEAD g (g_tail l); set_TAIL g (g_head l).

Definition kylin_list_join (dest src : Z) : M st unit :=
  s ← guard src; d ← guard dest;
  _ ← (if negb (g_head s =? NULL) then set_PREV (g_head s) (g_tail d) else mret tt);
  _ ← (if negb (g_tail d =? NULL) then set_NEXT (g_tail d) (g_head s) else set_HEAD dest (g_head s));
  s ← guard src; _ ← set_TAIL dest (g_tail s);
  d ← guard dest; _ ← set_COUNT dest (u64 (g_count d + g_count s));
  _ ← set_TAIL src NULL; _ ← set_HEAD src NULL; set_COUNT src 0.

(** ** Segments of a list

    [l] lists the nodes of a segment, address and value, in order; [p] is the
    node before the segment and [n] the one after it. *)

Definition head_addr (l : list (Z * Z)) (n : Z) : Z := match l with [] => n | (a, _) :: _ => a end.
Fixpoint last_addr (l : list (Z * Z)) (p : Z) : Z :=
  match l with [] => p | (a, _) :: l => last_addr l a end.

Fixpoint dseg (m : mem) (p : Z) (l : list (Z * Z)) (n : Z) : Prop :=
  match l with
  | [] => True
  | (a, v) :: l => words_at m a [p; head_addr l n; v] /\ dseg m a l n
  end.

Abbreviation addrs l := (l.*1).

Lemma head_addr_app l1 l2 n : head_addr (l1 ++ l2) n = head_addr l1 (head_addr l2 n).
Proof. by destruct l1 as [|[a v] l1]. Qed.

Lemma last_addr_app l1 l2 p : last_addr (l1 ++ l2) p = last_addr l2 (last_addr l1 p).
Proof. revert p. induction l1 as [|[a v] l1 IH]; intros p; simpl; auto. Qed.

Lemma dseg_app m p l1 l2 n :
  dseg m p (l1 ++ l2) n <-> dseg m p l1 (head_addr l2 n) /\ dseg m (last_addr l1 p) l2 n.
Proof.
  revert p. induction l1 as [|[a v] l1 IH]; intros p; simpl; [tauto|].
  rewrite IH, head_addr_app. tauto.
Qed.

Lemma dseg_same m m' p l n :
  (forall a, a ∈ addrs l -> same_at m m' a) -> dseg m p l n -> dseg m' p l n.
Proof.
  revert p. induction l as [|[a v] l IH]; intros p Hs; simpl; [done|]. intros [Hw Hd]. split.
  - eapply words_at_same; [|exact Hw]. apply Hs. set_solver.
  - apply IH; [|done]. intros b Hb. apply Hs. set_solver.
Qed.

Lemma dseg_keeps X m m' p l n :
  keeps X m m' -> (forall a, a ∈ addrs l -> a ∉ X) -> dseg m p l n -> dseg m' p l n.
Proof. intros (_ & _ & _ & K) H. apply dseg_same. auto. Qed.

(** ** Changing links *)

(** Changing the link into a segment, and the link out of it. *)
Lemma set_prev_first m p a v l n q :
  dseg m p ((a, v) :: l) n -> NoDup (addrs ((a, v) :: l)) -> is_u 64 q ->
  exists m', writes (set_PREV a q) m m' tt /\ dseg m' q ((a, v) :: l) n /\ keeps [a] m m'.
Proof.
  intros [Hw Hd] Hnd Hq. eexists. split; [eapply write_field; [exact Hw|by apply Nat.ltb_lt]|].
  split; [|by eapply keeps_upd]. simpl in Hnd. apply NoDup_cons in Hnd as [Hn _].
  split.
  - apply words_at_upd. destruct Hw as [_ Hw]. by apply (Forall_insert _ [p; head_addr l n; v] 0).
  - eapply dseg_same; [|exact Hd]. intros b Hb. apply same_at_upd. by intros ->.
Qed.

Lemma set_next_last m p l b v n q :
  dseg m p (l ++ [(b, v)]) n -> NoDup (addrs (l ++ [(b, v)])) -> is_u 64 q ->
  exists m', writes (set_NEXT b q) m m' tt /\ dseg m' p (l ++ [(b, v)]) q /\ keeps [b] m m'.
Proof.
  intros Hd Hnd Hq. apply dseg_app in Hd as [Hl [Hw _]].
  eexists. split; [eapply write_field; [exact Hw|by apply Nat.ltb_lt]|].
  split; [|by eapply keeps_upd]. rewrite fmap_app in Hnd. simpl in Hnd.
  apply NoDup_app in Hnd as (_ & Hn & _). apply dseg_app. split.
  - eapply dseg_same; [|exact Hl]. intros a Ha. apply same_at_upd.
    intros ->. apply (Hn b Ha). set_solver.
  - split; [|done]. apply words_at_upd. destruct Hw as [_ Hw].
    by apply (Forall_insert _ [last_addr l p; n; v] 1).
Qed.

(** The assignments that fill a node's links. *)
Lemma set_prev_of m node v p n q :
  words_at m node [p; n; v] -> is_u 64 q ->
  exists m', writes (set_PREV node q) m m' tt /\ words_at m' node [q; n; v] /\ keeps [node] m m'.
Proof.
  intros Hw Hq. eexists. split; [eapply write_field; [exact Hw|by apply Nat.ltb_lt]|].
  split; [|by eapply keeps_upd]. apply words_at_upd. destruct Hw as [_ Hw].
  by apply (Forall_insert _ [p; n; v] 0).
Qed.

Lemma set_next_of m node v p n q :
  words_at m node [p; n; v] -> is_u 64 q ->
  exists m', writes (set_NEXT node q) m m' tt /\ words_at m' node [p; q; v] /\ keeps [node] m m'.
Proof.
  intros Hw Hq. eexists. split; [eapply write_field; [exact Hw|by apply Nat.ltb_lt]|].
  split; [|by eapply keeps_upd]. apply words_at_upd. destruct Hw as [_ Hw].
  by apply (Forall_insert _ [p; n; v] 1).
Qed.

(** The next statement is described by [E], whatever the state. *)
Ltac steps E := erewrite bind_Ok by (apply E); cbv beta.
(** The next statement is a field assignment described by [E : writes _ _ _ _]. *)
Ltac write E := erewrite bind_Ok by (apply E; reflexivity); cbn [with_mem st_mem guards kerrno].
(** The last statement of a block. *)
Ltac write_end E := rewrite E by reflexivity; cbn [with_mem st_mem guards kerrno]; reflexivity.

(** ** Guards *)

Lemma guard_eq gs g L m e : guard g (mk_st (<[g := L]> gs) m e) = Ok (L, mk_st (<[g := L]> gs) m e).
Proof. unfold guard. simpl. by rewrite lookup_insert_eq. Qed.

Lemma set_HEAD_eq gs g L m e x :
  set_HEAD g x (mk_st (<[g := L]> gs) m e) =
    Ok (tt, mk_st (<[g := mk_klist x (g_tail L) (g_opts L) (g_count L)]> gs) m e).
Proof.
  unfold set_HEAD. rewrite (bind_Ok _ _ _ _ _ (guard_eq gs g L m e)). unfold put_guard. simpl.
  by rewrite insert_insert_eq.
Qed.

Lemma set_TAIL_eq gs g L m e x :
  set_TAIL g x (mk_st (<[g := L]> gs) m e) =
    Ok (tt, mk_st (<[g := mk_klist (g_head L) x (g_opts L) (g_count L)]> gs) m e).
Proof.
  unfold set_TAIL. rewrite (bind_Ok _ _ _ _ _ (guard_eq gs g L m e)). unfold put_guard. simpl.
  by rewrite insert_insert_eq.
Qed.

Lemma set_COUNT_eq gs g L m e x :
  set_COUNT g x (mk_st (<[g := L]> gs) m e) =
    Ok (tt, mk_st (<[g := mk_klist (g_head L) (g_tail L) (g_opts L) x]> gs) m e).
Proof.
  unfold set_COUNT. rewrite (bind_Ok _ _ _ _ _ (guard_eq gs g L m e)). unfold put_guard. simpl.
  by rewrite insert_insert_eq.
Qed.

Lemma count_up_eq gs g L m e :
  0 <= g_count L < 2 ^ 63 ->
  count_up g (mk_st (<[g := L]> gs) m e) =
    Ok (tt, mk_st (<[g := mk_klist (g_head L) (g_tail L) (g_opts L) (g_count L + 1)]> gs) m e).
Proof.
  intros H. unfold count_up. rewrite (bind_Ok _ _ _ _ _ (guard_eq gs g L m e)), set_COUNT_eq.
  by rewrite uw_id by (unfold is_u; lia).
Qed.

Lemma count_down_eq gs g L m e :
  1 <= g_count L < 2 ^ 63 ->
  count_down g (mk_st (<[g := L]> gs) m e) =
    Ok (tt, mk_st (<[g := mk_klist (g_head L) (g_tail L) (g_opts L) (g_count L - 1)]> gs) m e).
Proof.
  intros H. unfold count_down. rewrite (bind_Ok _ _ _ _ _ (guard_eq gs g L m e)), set_COUNT_eq.
  by rewrite uw_id by (unfold is_u; lia).
Qed.

Lemma guard_at s g L : guards s !! g = Some L -> guard g s = Ok (L, s).
Proof. intros H. unfold guard. by rewrite H. Qed.

(** ** The list behind a guard *)

Record klist_rep (s : st) (g : Z) (o : klist_opts_t) (l : list (Z * Z)) : Prop := {
  rep_guard : guards s !! g =
    Some (mk_klist (head_addr l NULL) (last_addr l NULL) o (Z.of_nat (length l)));
  rep_seg : dseg (omem s) NULL l NULL;
  rep_nodup : NoDup (addrs l);
  rep_addrs : Forall (fun a => a <> NULL /\ is_u 64 a) (addrs l);
  rep_count : Z.of_nat (length l) < 2 ^ 62;
}.

(** What an operation on the guard [g] leaves alone: every object outside [X],
    every other guard, and [kerrno]. *)
Definition touches (X : list Z) (g : Z) (s s' : st) : Prop :=
  keeps X (omem s) (omem s') /\
  (forall g', g' <> g -> guards s' !! g' = guards s !! g') /\ kerrno s' = kerrno s.

(** A node that is not linked anywhere: three words, not in the list. *)
Record free_node (s : st) (l : list (Z * Z)) (node v : Z) : Prop := {
  fn_words : exists p n, words_at (omem s) node [p; n; v];
  fn_out : node ∉ addrs l;
  fn_addr : node <> NULL /\ is_u 64 node;
}.

Lemma canonical s g L :
  guards s !! g = Some L -> s = mk_st (<[g := L]> (guards s)) (omem s) (kerrno s).
Proof. intros H. rewrite insert_id by done. by destruct s. Qed.

(** ** Linking a node into a list *)

Section Insertion.
Context (g : Z) (o : klist_opts_t).

(** The state of a represented list, guard first. *)
Lemma rep_canonical s l :
  klist_rep s g o l -> exists gs m e,
    s = mk_st (<[g := mk_klist (head_addr l NULL) (last_addr l NULL) o (Z.of_nat (length l))]> gs)
          m e.
Proof. intros H. eexists _, _, _. apply canonical, H. Qed.

Lemma rep_insert gs m e L L' l l' l1 l2 node v m' :
  let s := mk_st (<[g := L]> gs) m e in
  klist_rep s g o l -> free_node s l node v -> Z.of_nat (length l) + 1 < 2 ^ 62 ->
  l = l1 ++ l2 -> l' = l1 ++ (node, v) :: l2 ->
  L' = mk_klist (head_addr l1 node) (last_addr l2 node) o (Z.of_nat (length l)) ->
  words_at m' node [last_addr l1 NULL; head_addr l2 NULL; v] ->
  dseg m' NULL l1 node -> dseg m' node l2 NULL ->
  keeps (node :: addrs l) m m' ->
  exists s', count_up g (mk_st (<[g := L']> gs) m' e) = Ok (tt, s') /\
    klist_rep s' g o l' /\ touches (node :: addrs l) g s s'.
Proof.
  intros s [Hg Hd Hnd Ha Hc] [_ Hout Hn] Hlen -> -> -> Hw H1 H2 Hk. eexists. split; [|split].
  - apply count_up_eq. simpl. lia.
  - simpl in *. split; simpl.
    + rewrite lookup_insert_eq, head_addr_app, last_addr_app, !length_app.
      simpl. do 2 f_equal. lia.
    + apply dseg_app. done.
    + rewrite fmap_app in *. simpl. apply NoDup_Permutation_proper with (node :: addrs l1 ++ addrs l2).
      * symmetry. apply Permutation_middle.
      * by apply NoDup_cons.
    + rewrite fmap_app, Forall_app in *. simpl. rewrite Forall_cons. naive_solver.
    + rewrite !length_app in *. simpl. lia.
  - split_and!; [done| |done]. intros g' Hne. simpl. by rewrite !lookup_insert_ne.
Qed.

Lemma rep_head_u s l : klist_rep s g o l -> is_u 64 (head_addr l NULL).
Proof. intros [_ _ _ Ha _]. destruct l as [|[a v] l]; [done|]. simpl in Ha. by inversion Ha as [|?? []]. Qed.

Lemma rep_last_u s l : klist_rep s g o l -> is_u 64 (last_addr l NULL).
Proof.
  intros [_ _ _ Ha _]. destruct l as [|[a v] l _] using rev_ind; [done|].
  rewrite fmap_app, Forall_app in Ha. destruct Ha as [_ Ha]. rewrite last_addr_app.
  simpl in *. by inversion Ha as [|?? []].
Qed.

Lemma last_addr_in l p : l <> [] -> last_addr l p ∈ addrs l.
Proof.
  intros H. destruct l as [|[a v] l _] using rev_ind; [done|].
  rewrite last_addr_app, fmap_app. simpl. set_solver.
Qed.

(** A list of the shape the code knows once it has compared the count, the head
    or the tail. *)
Abbreviation rep_at s gs m e l :=
  (s = mk_st (<[g := mk_klist (head_addr l NULL) (last_addr l NULL) o (Z.of_nat (length l))]> gs) m e).

(** The first node of an empty list. *)
Lemma insert_first gs m e node v :
  let s := mk_st (<[g := mk_klist NULL NULL o 0]> gs) m e in
  klist_rep s g o [] -> free_node s [] node v ->
  exists s', (_ ← (_ ← set_TAIL g node; _ ← set_HEAD g node; _ ← set_NEXT node NULL;
                  set_PREV node NULL); count_up g) s = Ok (tt, s') /\
    klist_rep s' g o [(node, v)] /\ touches (node :: addrs ([] : list (Z * Z))) g s s'.
Proof.
  intros s HR HF. pose proof HF as [(p0 & n0 & Hw) _ _].
  destruct (set_next_of m node v p0 n0 NULL Hw) as (m1 & E1 & W1 & K1); [done|].
  destruct (set_prev_of m1 node v p0 NULL NULL W1) as (m2 & E2 & W2 & K2); [done|].
  erewrite bind_Ok; [|unfold s; run (set_TAIL_eq gs g (mk_klist NULL NULL o 0) m e node);
    run (set_HEAD_eq gs g (mk_klist NULL node o 0) m e node); write E1; write_end E2].
  eapply (rep_insert _ _ _ _ _ _ _ [] []); try done.
  eapply keeps_trans_in; [done..|]. set_solver.
Qed.

Lemma insert_head_raw_spec s l node v :
  klist_rep s g o l -> free_node s l node v -> Z.of_nat (length l) + 1 < 2 ^ 62 ->
  exists s', kylin_list_insert_head_raw g node s = Ok (tt, s') /\
    klist_rep s' g o ((node, v) :: l) /\ touches (node :: addrs l) g s s'.
Proof.
  intros HR HF Hlen. pose proof (rep_head_u s l HR) as Hhu.
  destruct (rep_canonical s l HR) as (gs & m & e & ->).
  pose proof HR as [_ Hd Hnd _ _]. pose proof HF as [(p0 & n0 & Hw) Hout [_ Hnu]].
  unfold kylin_list_insert_head_raw. run (guard_eq gs g (mk_klist (head_addr l NULL) (last_addr l NULL) o (Z.of_nat (length l))) m e).
  destruct l as [|[a va] l]; [by apply insert_first|]. cbn [g_count g_head].
  rewrite (proj2 (Z.eqb_neq _ _)) by (simpl length; lia).
  destruct (set_prev_of m node v p0 n0 NULL Hw) as (m1 & E1 & W1 & K1); [done|].
  destruct (set_next_of m1 node v NULL n0 a W1) as (m2 & E2 & W2 & K2); [done|].
  destruct (set_prev_first m2 NULL a va l NULL node) as (m3 & E3 & D3 & K3); [|done..|].
  { eapply dseg_keeps; [exact (keeps_trans _ _ _ _ _ K1 K2)| |exact Hd]. set_solver. }
  erewrite bind_Ok; [|write E1; write E2; write E3; apply set_HEAD_eq].
  eapply (rep_insert _ _ _ _ _ _ _ [] ((a, va) :: l)); try done.
  - eapply words_keeps; [exact K3| |exact W2]. set_solver.
  - eapply keeps_trans_in; [exact (keeps_trans _ _ _ _ _ K1 K2)|exact K3|]. set_solver.
Qed.

Lemma insert_tail_raw_spec s l node v :
  klist_rep s g o l -> free_node s l node v -> Z.of_nat (length l) + 1 < 2 ^ 62 ->
  exists s', kylin_list_insert_tail_raw g node s = Ok (tt, s') /\
    klist_rep s' g o (l ++ [(node, v)]) /\ touches (node :: addrs l) g s s'.
Proof.
  intros HR HF Hlen. pose proof (rep_last_u s l HR) as Hhu.
  destruct (rep_canonical s l HR) as (gs & m & e & ->).
  pose proof HR as [_ Hd Hnd _ _]. pose proof HF as [(p0 & n0 & Hw) Hout [_ Hnu]].
  unfold kylin_list_insert_tail_raw. run (guard_eq gs g (mk_klist (head_addr l NULL) (last_addr l NULL) o (Z.of_nat (length l))) m e).
  destruct l as [|[b vb] l _] using rev_ind; [by apply insert_first|]. cbn [g_count g_tail].
  rewrite (proj2 (Z.eqb_neq _ _)) by (rewrite length_app; simpl; lia).
  assert (Hb : last_addr (l ++ [(b, vb)]) NULL = b) by (by rewrite last_addr_app).
  rewrite Hb in *.
  destruct (set_prev_of m node v p0 n0 b Hw) as (m1 & E1 & W1 & K1); [done|].
  destruct (set_next_of m1 node v b n0 NULL W1) as (m2 & E2 & W2 & K2); [done|].
  destruct (set_next_last m2 NULL l b vb NULL node) as (m3 & E3 & D3 & K3); [|done..|].
  { eapply dseg_keeps; [exact (keeps_trans _ _ _ _ _ K1 K2)| |exact Hd].
    intros c Hc. assert (c <> node) by (by intros ->). clear -H. set_solver. }
  erewrite bind_Ok; [|write E1; write E2; write E3; apply set_TAIL_eq].
  assert (Hbn : b ∈ addrs (l ++ [(b, vb)])) by (rewrite fmap_app; set_solver).
  eapply (rep_insert _ _ _ _ _ _ _ (l ++ [(b, vb)]) []); try done.
  - by rewrite app_nil_r.
  - cbn [g_head g_opts g_count]. f_equal. by destruct l.
  - rewrite Hb. eapply words_keeps; [exact K3| |exact W2]. intros Hin. apply Hout.
    apply list_elem_of_singleton in Hin as ->. done.
  - eapply keeps_trans_in; [exact (keeps_trans _ _ _ _ _ K1 K2)|exact K3|].
    clear -Hbn. set_solver.
Qed.

(** The link out of [l1], or the head when [l1] is empty, becomes [q]. *)
Lemma link_out m l1 n q :
  dseg m NULL l1 n -> NoDup (addrs l1) -> Forall (fun a => a <> NULL /\ is_u 64 a) (addrs l1) ->
  is_u 64 q ->
  exists m', (forall gs L e,
    (if negb (last_addr l1 NULL =? NULL) then set_NEXT (last_addr l1 NULL) q else set_HEAD g q)
      (mk_st (<[g := L]> gs) m e) =
    Ok (tt, mk_st (<[g := mk_klist (match l1 with [] => q | _ => g_head L end) (g_tail L) (g_opts L)
                            (g_count L)]> gs) m' e)) /\
    dseg m' NULL l1 q /\ keeps (addrs l1) m m'.
Proof.
  intros Hd Hnd Ha Hq. destruct l1 as [|[b v] l1 _] using rev_ind.
  { exists m. split; [|split; [done|apply keeps_refl]]. intros gs L e. apply set_HEAD_eq. }
  destruct (set_next_last m NULL l1 b v n q Hd Hnd Hq) as (m' & E & D & K).
  exists m'. split_and!; [|done|].
  - intros gs L e. rewrite last_addr_app. cbn [last_addr].
    rewrite fmap_app, Forall_app in Ha. destruct Ha as [_ Ha]. inversion Ha as [|?? [Hb _]]; subst.
    rewrite (proj2 (Z.eqb_neq _ _)) by done. cbn [negb]. rewrite E by reflexivity. cbn [with_mem st_mem guards kerrno].
    by destruct l1, L.
  - eapply keeps_weaken; [|exact K]. intros c Hc. apply list_elem_of_singleton in Hc as ->.
    rewrite fmap_app. set_solver.
Qed.

(** The link into [l2], or the tail when [l2] is empty, becomes [q]. *)
Lemma link_in m p l2 q :
  dseg m p l2 NULL -> NoDup (addrs l2) -> Forall (fun a => a <> NULL /\ is_u 64 a) (addrs l2) ->
  is_u 64 q ->
  exists m', (forall gs L e,
    (if negb (head_addr l2 NULL =? NULL) then set_PREV (head_addr l2 NULL) q else set_TAIL g q)
      (mk_st (<[g := L]> gs) m e) =
    Ok (tt, mk_st (<[g := mk_klist (g_head L) (match l2 with [] => q | _ => g_tail L end) (g_opts L)
                            (g_count L)]> gs) m' e)) /\
    dseg m' q l2 NULL /\ keeps (addrs l2) m m'.
Proof.
  intros Hd Hnd Ha Hq. destruct l2 as [|[b v] l2].
  { exists m. split; [|split; [done|apply keeps_refl]]. intros gs L e. apply set_TAIL_eq. }
  destruct (set_prev_first m p b v l2 NULL q Hd Hnd Hq) as (m' & E & D & K).
  exists m'. split_and!; [|done|].
  - intros gs L e. cbn [head_addr]. simpl in Ha. inversion Ha as [|?? [Hb _]]; subst.
    rewrite (proj2 (Z.eqb_neq _ _)) by done. cbn [negb]. rewrite E by reflexivity. cbn [with_mem st_mem guards kerrno]. by destruct L.
  - eapply keeps_weaken; [|exact K]. set_solver.
Qed.

(** What a list says of the node in its middle. *)
Lemma rep_split s l1 a v l2 :
  klist_rep s g o (l1 ++ (a, v) :: l2) ->
  words_at (omem s) a [last_addr l1 NULL; head_addr l2 NULL; v] /\
  dseg (omem s) NULL l1 a /\ dseg (omem s) a l2 NULL /\
  NoDup (addrs l1) /\ NoDup (addrs l2) /\ a ∉ addrs l1 /\ a ∉ addrs l2 /\
  (forall x, x ∈ addrs l1 -> x ∉ addrs l2) /\
  Forall (fun a => a <> NULL /\ is_u 64 a) (addrs l1) /\
  Forall (fun a => a <> NULL /\ is_u 64 a) (addrs l2) /\ (a <> NULL /\ is_u 64 a).
Proof.
  intros [_ Hd Hnd Ha _]. apply dseg_app in Hd as [H1 [Hw H2]].
  rewrite fmap_app in *. apply NoDup_app in Hnd as (N1 & Hx & N2). simpl in *.
  apply NoDup_cons in N2 as [Hn N2]. apply Forall_app in Ha as [F1 F2].
  apply Forall_cons in F2 as [Fa F2]. split_and!; try done.
  - intros Hin. apply (Hx a Hin). set_solver.
  - intros x Hin Hin2. apply (Hx x Hin). set_solver.
  - apply Fa.
  - apply Fa.
Qed.

Lemma keeps_sub3 X Y W Z0 m1 m2 m3 m4 :
  keeps X m1 m2 -> keeps Y m2 m3 -> keeps W m3 m4 ->
  (forall a, a ∈ X \/ a ∈ Y \/ a ∈ W -> a ∈ Z0) -> keeps Z0 m1 m4.
Proof.
  intros K1 K2 K3 H. eapply keeps_trans_in; [exact K1|exact (keeps_trans _ _ _ _ _ K2 K3)|].
  intros a. rewrite elem_of_app. apply H.
Qed.

Lemma unlink_raw_spec s l1 node v l2 :
  klist_rep s g o (l1 ++ (node, v) :: l2) ->
  exists s', kylin_list_unlink_raw g node s = Ok (node, s') /\
    klist_rep s' g o (l1 ++ l2) /\ touches (addrs l1 ++ addrs l2) g s s' /\
    words_at (omem s') node [last_addr l1 NULL; head_addr l2 NULL; v].
Proof.
  intros HR. pose proof (rep_split _ _ _ _ _ HR) as (Hw & H1 & H2 & N1 & N2 & X1 & X2 & X & A1 & A2 & An).
  pose proof HR as [_ _ _ _ Hlen].
  destruct (rep_canonical _ _ HR) as (gs & m & e & ->). simpl omem in *.
  pose proof Hw as [_ Hu]. rewrite !Forall_cons in Hu. destruct Hu as (Hp & Hn & _).
  destruct (link_out m l1 node (head_addr l2 NULL) H1 N1 A1 Hn) as (m1 & E1 & D1 & K1).
  assert (Hw1 : words_at m1 node [last_addr l1 NULL; head_addr l2 NULL; v])
    by (eapply words_keeps; [exact K1|done|exact Hw]).
  assert (H2' : dseg m1 node l2 NULL).
  { eapply dseg_keeps; [exact K1| |exact H2]. intros x Hx Hx'. by apply (X x). }
  destruct (link_in m1 node l2 (last_addr l1 NULL) H2' N2 A2 Hp) as (m2 & E2 & D2 & K2).
  unfold kylin_list_unlink_raw, LIST_PREV, LIST_NEXT.
  do 2 reads Hw. steps E1. do 2 reads Hw1. steps E2. cbn [g_head g_tail g_opts g_count].
  erewrite bind_Ok by (apply count_down_eq; simpl; rewrite length_app in *; simpl in *; lia).
  eexists. split; [reflexivity|]. simpl. split; [|split].
  - split; simpl.
    + rewrite lookup_insert_eq, !head_addr_app, !last_addr_app, !length_app.
      do 2 f_equal; [by destruct l1|by destruct l2|simpl; lia].
    + apply dseg_app. split; [eapply dseg_keeps; [exact K2|exact X|exact D1]|done].
    + rewrite fmap_app. by apply NoDup_app.
    + rewrite fmap_app. by apply Forall_app.
    + rewrite !length_app in *. simpl in *. lia.
  - split_and!; [by eapply keeps_trans| |done].
    intros g' Hne. simpl. by rewrite !lookup_insert_ne.
  - by eapply words_keeps; [exact K2| |].
Qed.

(** Comparing the head (the tail) with a node of the list asks whether it has
    no predecessor (successor). *)
Lemma head_is s l1 a v l2 :
  klist_rep s g o (l1 ++ (a, v) :: l2) ->
  (head_addr (l1 ++ (a, v) :: l2) NULL =? a) = negb (negb (last_addr l1 NULL =? NULL)).
Proof.
  intros HR. apply rep_split in HR as (_ & _ & _ & _ & _ & X1 & _ & _ & A1 & _ & _).
  rewrite negb_involutive. destruct (decide (l1 = [])) as [->|Hne]; [apply Z.eqb_refl|].
  rewrite Forall_forall in A1. destruct (A1 _ (last_addr_in l1 NULL Hne)) as [Hl _].
  rewrite (proj2 (Z.eqb_neq _ NULL)) by done. apply Z.eqb_neq. intros E. apply X1.
  destruct l1 as [|[b w] l1]; [done|]. simpl in *. subst. set_solver.
Qed.

Lemma tail_is s l1 a v l2 :
  klist_rep s g o (l1 ++ (a, v) :: l2) ->
  (last_addr (l1 ++ (a, v) :: l2) NULL =? a) = negb (negb (head_addr l2 NULL =? NULL)).
Proof.
  intros HR. apply rep_split in HR as (_ & _ & _ & _ & _ & _ & X2 & _ & _ & A2 & _).
  rewrite negb_involutive, last_addr_app. cbn [last_addr].
  destruct l2 as [|[b w] l2]; [apply Z.eqb_refl|].
  rewrite Forall_forall in A2. destruct (A2 b) as [Hl _]; [set_solver|]. cbn [head_addr].
  rewrite (proj2 (Z.eqb_neq b NULL)) by done. apply Z.eqb_neq. intros E. apply X2.
  rewrite <- E. by apply last_addr_in.
Qed.

Lemma insert_after_raw_spec s l1 b vb l2 node v :
  let l := l1 ++ (b, vb) :: l2 in
  klist_rep s g o l -> free_node s l node v -> Z.of_nat (length l) + 1 < 2 ^ 62 ->
  exists s', kylin_list_insert_after_raw g b node s = Ok (tt, s') /\
    klist_rep s' g o (l1 ++ (b, vb) :: (node, v) :: l2) /\ touches (node :: addrs l) g s s'.
Proof.
  intros l HR HF Hlen. unfold l in *. clear l. pose proof (tail_is _ _ _ _ _ HR) as Htail.
  pose proof (rep_split _ _ _ _ _ HR) as (Hb & H1 & H2 & N1 & N2 & X1 & X2 & X & A1 & A2 & Ab).
  destruct (rep_canonical _ _ HR) as (gs & m & e & ->). simpl omem in *.
  pose proof Hb as [_ Hu]. rewrite !Forall_cons in Hu. destruct Hu as (Hp & Hn & _).
  pose proof HF as [(p0 & n0 & Hw) Hout [_ Hnu]]. simpl omem in *.
  rewrite fmap_app, fmap_cons, not_elem_of_app, not_elem_of_cons in Hout.
  destruct Hout as (Ho1 & Hob & Ho2).
  destruct (set_prev_of m node v p0 n0 b Hw) as (m1 & E1 & W1 & K1); [apply Ab|].
  destruct (set_next_of m1 node v b n0 (head_addr l2 NULL) W1) as (m2 & E2 & W2 & K2); [done|].
  assert (K12 : keeps [node] m m2) by (eapply keeps_trans_in; [done..|set_solver]).
  assert (Hb2 : words_at m2 b [last_addr l1 NULL; head_addr l2 NULL; vb])
    by (eapply words_keeps; [exact K12|set_solver|exact Hb]).
  destruct (link_in m2 b l2 node) as (m3 & E3 & D3 & K3); [|done..|].
  { eapply dseg_keeps; [exact K12| |exact H2]. intros x Hx. set_solver. }
  destruct (set_next_last m3 NULL l1 b vb (head_addr l2 NULL) node) as (m4 & E4 & D4 & K4); [| |done|].
  { apply dseg_app. split; [|split; [|done]].
    - apply (dseg_keeps _ _ _ _ _ _ K3 X), (dseg_keeps _ _ _ _ _ _ K12); [set_solver|done].
    - by eapply words_keeps; [exact K3| |]. }
  { rewrite fmap_app. apply NoDup_app. split_and!; [done| |apply NoDup_singleton].
    intros x Hx. simpl. intros ->%list_elem_of_singleton. done. }
  unfold kylin_list_insert_after_raw. run (guard_eq gs g (mk_klist (head_addr (l1 ++ (b, vb) :: l2) NULL)
    (last_addr (l1 ++ (b, vb) :: l2) NULL) o (Z.of_nat (length (l1 ++ (b, vb) :: l2)))) m e).
  write E1. assert (Hb1 : words_at m1 b [last_addr l1 NULL; head_addr l2 NULL; vb])
    by (eapply words_keeps; [exact K1|set_solver|exact Hb]).
  reads Hb1. write E2. cbn [g_tail]. rewrite Htail, if_negb.
  erewrite bind_Ok; [cbv beta|destruct (negb (head_addr l2 NULL =? NULL)); [reads Hb2|]; apply E3].
  write E4. cbn [g_head g_tail g_opts g_count].
  eapply (rep_insert _ _ _ _ _ _ _ (l1 ++ [(b, vb)]) l2);
    [exact HR|exact HF|exact Hlen|by rewrite <- app_assoc|by rewrite <- app_assoc| | |exact D4| |].
  - rewrite !head_addr_app, last_addr_app. f_equal; by destruct l1, l2.
  - rewrite last_addr_app. eapply words_keeps; [exact K4|set_solver|].
    eapply words_keeps; [exact K3|done|exact W2].
  - by eapply dseg_keeps; [exact K4|set_solver|].
  - eapply keeps_sub3; [exact K12|exact K3|exact K4|].
    intros x. rewrite fmap_app, fmap_cons. set_solver.
Qed.

Lemma insert_before_raw_spec s l1 c vc l2 node v :
  let l := l1 ++ (c, vc) :: l2 in
  klist_rep s g o l -> free_node s l node v -> Z.of_nat (length l) + 1 < 2 ^ 62 ->
  exists s', kylin_list_insert_before_raw g c node s = Ok (tt, s') /\
    klist_rep s' g o (l1 ++ (node, v) :: (c, vc) :: l2) /\ touches (node :: addrs l) g s s'.
Proof.
  intros l HR HF Hlen. unfold l in *. clear l. pose proof (head_is _ _ _ _ _ HR) as Hhead.
  pose proof (rep_split _ _ _ _ _ HR) as (Hc & H1 & H2 & N1 & N2 & X1 & X2 & X & A1 & A2 & Ac).
  destruct (rep_canonical _ _ HR) as (gs & m & e & ->). simpl omem in *.
  pose proof Hc as [_ Hu]. rewrite !Forall_cons in Hu. destruct Hu as (Hp & Hn & _).
  pose proof HF as [(p0 & n0 & Hw) Hout [_ Hnu]]. simpl omem in *.
  rewrite fmap_app, fmap_cons, not_elem_of_app, not_elem_of_cons in Hout.
  destruct Hout as (Ho1 & Hoc & Ho2).
  destruct (set_next_of m node v p0 n0 c Hw) as (m1 & E1 & W1 & K1); [apply Ac|].
  destruct (set_prev_of m1 node v p0 c (last_addr l1 NULL) W1) as (m2 & E2 & W2 & K2); [done|].
  assert (K12 : keeps [node] m m2) by (eapply keeps_trans_in; [done..|set_solver]).
  assert (Hc2 : words_at m2 c [last_addr l1 NULL; head_addr l2 NULL; vc])
    by (eapply words_keeps; [exact K12|set_solver|exact Hc]).
  destruct (link_out m2 l1 c node) as (m3 & E3 & D3 & K3); [|done..|].
  { eapply dseg_keeps; [exact K12| |exact H1]. intros x Hx. set_solver. }
  destruct (set_prev_first m3 (last_addr l1 NULL) c vc l2 NULL node) as (m4 & E4 & D4 & K4); [| |done|].
  { split; [by eapply words_keeps; [exact K3| |]|].
    apply (dseg_keeps _ _ _ _ _ _ K3); [intros x Hx Hx'; by apply (X x)|].
    apply (dseg_keeps _ _ _ _ _ _ K12); [set_solver|done]. }
  { by apply NoDup_cons. }
  unfold kylin_list_insert_before_raw. run (guard_eq gs g (mk_klist (head_addr (l1 ++ (c, vc) :: l2) NULL)
    (last_addr (l1 ++ (c, vc) :: l2) NULL) o (Z.of_nat (length (l1 ++ (c, vc) :: l2)))) m e).
  write E1. assert (Hc1 : words_at m1 c [last_addr l1 NULL; head_addr l2 NULL; vc])
    by (eapply words_keeps; [exact K1|set_solver|exact Hc]).
  reads Hc1. write E2. cbn [g_head]. rewrite Hhead, if_negb.
  erewrite bind_Ok; [cbv beta|destruct (negb (last_addr l1 NULL =? NULL)); [reads Hc2|]; apply E3].
  write E4. cbn [g_head g_tail g_opts g_count].
  eapply (rep_insert _ _ _ _ _ _ _ l1 ((c, vc) :: l2));
    [exact HR|exact HF|exact Hlen|done|done| | | |exact D4|].
  - rewrite !head_addr_app, last_addr_app. f_equal; by destruct l1.
  - eapply words_keeps; [exact K4|set_solver|].
    eapply words_keeps; [exact K3|done|exact W2].
  - eapply dseg_keeps; [exact K4| |exact D3].
    intros x Hx Hx'. apply list_elem_of_singleton in Hx' as ->. done.
  - eapply keeps_sub3; [exact K12|exact K3|exact K4|].
    intros x. rewrite fmap_app, fmap_cons. set_solver.
Qed.
End Insertion.

(** ** Insertion of a value *)

(** Where the four insertions put the new node. *)
Inductive place := AtHead | AtTail | After (a : Z) | Before (a : Z).

Definition link_at (p : place) (g node : Z) : M st unit :=
  match p with
  | AtHead => kylin_list_insert_head_raw g node
  | AtTail => kylin_list_insert_tail_raw g node
  | After a => kylin_list_insert_after_raw g a node
  | Before a => kylin_list_insert_before_raw g a node
  end.

Definition insert_at (p : place) (g val : Z) : M st (vptr Z) :=
  match p with
  | AtHead => kylin_list_insert_head g val
  | AtTail => kylin_list_insert_tail g val
  | After a => kylin_list_insert_after g a val
  | Before a => kylin_list_insert_before g a val
  end.

(** The list with [x] put at [p]. *)
Inductive placed : place -> list (Z * Z) -> Z * Z -> list (Z * Z) -> Prop :=
| placed_head l x : placed AtHead l x (x :: l)
| placed_tail l x : placed AtTail l x (l ++ [x])
| placed_after l1 a v l2 x : placed (After a) (l1 ++ (a, v) :: l2) x (l1 ++ (a, v) :: x :: l2)
| placed_before l1 a v l2 x : placed (Before a) (l1 ++ (a, v) :: l2) x (l1 ++ x :: (a, v) :: l2).

Lemma link_at_spec p g o s l node v l' :
  klist_rep s g o l -> free_node s l node v -> Z.of_nat (length l) + 1 < 2 ^ 62 ->
  placed p l (node, v) l' ->
  exists s', link_at p g node s = Ok (tt, s') /\ klist_rep s' g o l' /\
    touches (node :: addrs l) g s s'.
Proof.
  intros HR HF Hlen Hp. inversion Hp; subst.
  - by apply insert_head_raw_spec.
  - by apply insert_tail_raw_spec.
  - by apply insert_after_raw_spec.
  - by apply insert_before_raw_spec.
Qed.

Lemma insert_at_with p g val s : insert_at p g val s = insert_with g val (link_at p g) s.
Proof. by destruct p. Qed.

(** The 64 bits the options make of the pointer [val]: the integer it points
    to, or [val] itself when there is no constructor. *)
Definition value_of (m : mem) (o : klist_opts_t) (val v : Z) : Prop :=
  match int_type (val_type o) with
  | Some (w, sgn) => exists z, in_int_type w sgn z /\ v = u64 z /\
      blocks m !! val = Some (le_bytes (Z.to_nat (w / 8)) z)
  | None => val_ctor o = None /\ v = val /\ is_u 64 val
  end.

Lemma value_of_ctor m o val v m' :
  value_of m o val v -> (forall bs, blocks m !! val = Some bs -> blocks m' !! val = Some bs) ->
  kmath_val_ctor val (val_type o) (val_size o) (val_ctor o) m' = Ok (v, m') /\ is_u 64 v.
Proof.
  unfold value_of. intros H Hs. destruct (int_type (val_type o)) as [[w sgn]|] eqn:Ht.
  - destruct H as (z & Hz & -> & Hm). split; [|apply uw_range; lia].
    apply Hs in Hm. pose proof (int_type_width _ _ _ Ht) as [Hw H8].
    destruct (val_type o); simplify_eq/=; unfold in_int_type in Hz; simpl in Hz;
      first [ erewrite bind_Ok by (apply load_s_bytes; [lia|done|exact Hz|exact Hm]); done
            | erewrite load_u_bytes by (lia || done || exact Hm);
              rewrite uw_id by (unfold is_u in *; lia); done ].
  - destruct H as (Hc & -> & Hu). split; [|done]. rewrite Hc. by destruct (val_type o).
Qed.

Lemma dseg_live m p l n a : dseg m p l n -> a ∈ addrs l -> is_Some (blocks m !! a).
Proof.
  revert p. induction l as [|[b v] l IH]; intros p; simpl; [set_solver|].
  intros [[Hw _] Hd] Ha. apply elem_of_cons in Ha as [->|Ha]; [by eexists|by eapply IH].
Qed.

Lemma rep_same s g o l m' e :
  klist_rep s g o l -> (forall a, a ∈ addrs l -> same_at (omem s) m' a) ->
  klist_rep (mk_st (guards s) m' e) g o l.
Proof. intros [H1 H2 H3 H4 H5] Hs. split; try done. by eapply dseg_same. Qed.

Definition slot_of (o : klist_opts_t) (node v : Z) : vptr Z :=
  match int_type (val_type o) with Some _ => PSlot node | None => PObj v end.

Lemma get_slot node v o : kmath_val_get node v (val_type o) = slot_of o node v.
Proof. unfold slot_of. by destruct (val_type o). Qed.

(** The value of a node of a list. *)
Lemma rep_val s g o l a v : klist_rep s g o l -> (a, v) ∈ l -> LIST_VAL a s = Ok (v, s).
Proof.
  intros HR (l1 & l2 & ->)%list_elem_of_split. apply rep_split in HR as [Hw _].
  exact (read_field s a _ 2 v Hw eq_refl).
Qed.

Lemma placed_in p l x l' : placed p l x l' -> x ∈ l'.
Proof. intros Hp. inversion Hp; subst; set_solver. Qed.

Lemma get_ptr_ok o a v s : LIST_VAL a s = Ok (v, s) -> get_ptr o a s = Ok (slot_of o a v, s).
Proof. intros H. unfold get_ptr. run H. by rewrite get_slot. Qed.

(** Allocating a node. *)
Lemma node_malloc s o :
  node_ctor o = None ->
  on_mem (LIST_NODE_MALLOC o sizeof_node) s =
    match alloc_addr sizeof_node (omem s) with
    | (Some a, m) => Ok (a, mk_st (guards s)
        (mk_mem (<[a := replicate 24 0]> (blocks m)) (brk m) (oom m)) (kerrno s))
    | (None, m) => Ok (NULL, mk_st (guards s) m (kerrno s))
    end.
Proof.
  intros Hnc. unfold on_mem, LIST_NODE_MALLOC. rewrite Hnc. unfold kylin_malloc. cbn [mem_of st_mem].
  by destruct (alloc_addr sizeof_node (omem s)) as [[?|] ?].
Qed.

(** The list and the new node once the value is stored. *)
Lemma fresh_node s g o l val v m1 :
  let node := brk (omem s) in
  let m2 := mk_mem (<[node := replicate 24 0]> (blocks m1)) (brk m1) (oom m1) in
  let s2 := mk_st (guards s) m2 (kerrno s) in
  let s3 := mk_st (guards s) (upd_words m2 node [NULL; NULL; v]) (kerrno s) in
  klist_rep s g o l -> mem_ok (omem s) -> value_of (omem s) o val v ->
  alloc_addr sizeof_node (omem s) = (Some node, m1) ->
  on_mem (kmath_val_ctor val (val_type o) (val_size o) (val_ctor o)) s2 = Ok (v, s2) /\
  set_VAL node v s2 = Ok (tt, s3) /\ klist_rep s3 g o l /\ free_node s3 l node v.
Proof.
  intros node m2 s2 s3 HR Hm Hv Ea. destruct (alloc_addr_some _ _ _ _ Ea Hm) as (_ & Hb & Hnode).
  pose proof (mem_ok_fresh _ Hm : _ !! node = None) as Hfresh.
  destruct (value_of_ctor _ _ _ _ m2 Hv) as [Hc Hvu].
  { intros bs Hbs. simpl. rewrite lookup_insert_ne, Hb by congruence. done. }
  assert (Hout : node ∉ addrs l).
  { intros Hin. destruct (dseg_live _ _ _ _ _ (rep_seg _ _ _ _ HR) Hin). congruence. }
  assert (W2 : words_at m2 node [0; 0; 0]) by (split; [apply lookup_insert_eq|]; repeat constructor; done).
  split_and!.
  - by apply (on_mem_pure _ s2).
  - exact (write_field m2 node _ 2 v W2 ltac:(by apply Nat.ltb_lt) s2 eq_refl).
  - apply rep_same; [done|]. intros a Ha. unfold same_at. simpl.
    rewrite !lookup_insert_ne, Hb by (intros ->; done). done.
  - split; [|done|split; [unfold NULL; lia|unfold is_u; lia]]. exists NULL, NULL. apply words_at_upd.
    repeat constructor; apply Hvu || done.
Qed.

(** C29. Insertion of a value (head, tail, after or before a node of the list):
    when there is memory, one new node holding the value the options make of
    the caller's pointer is linked at the asked place, every other node keeps
    its place and value, the count grows by one and the pointer to the value
    is returned; when there is none, NULL is returned, [kerrno] says so and
    the list is as before.  No other list is touched. *)
Theorem insert_value p s g o l val v :
  klist_rep s g o l -> node_ctor o = None -> mem_ok (omem s) -> value_of (omem s) o val v ->
  Z.of_nat (length l) + 1 < 2 ^ 62 ->
  match fst (alloc_addr sizeof_node (omem s)) with
  | None => exists s', insert_at p g val s = Ok (PObj NULL, s') /\ klist_rep s' g o l /\
      kerrno s' = Some KYLIN_ERROR_NOMEM /\ guards s' = guards s
  | Some node => forall l', placed p l (node, v) l' ->
      exists s', insert_at p g val s = Ok (slot_of o node v, s') /\ klist_rep s' g o l' /\
        kerrno s' = kerrno s /\ forall g', g' <> g -> guards s' !! g' = guards s !! g'
  end.
Proof.
  intros HR Hnc Hm Hv Hlen. rewrite !insert_at_with. unfold insert_with.
  pose proof (guard_at _ _ _ (rep_guard _ _ _ _ HR)) as Eg. pose proof (node_malloc s o Hnc) as Em.
  destruct (alloc_addr sizeof_node (omem s)) as [[node|] m1] eqn:Ea; simpl fst.
  - destruct (alloc_addr_some _ _ _ _ Ea Hm) as (-> & _ & Hnode). intros l' Hp.
    destruct (fresh_node s g o l val v m1 HR Hm Hv Ea) as (Ec & Ev & HR3 & HF).
    destruct (link_at_spec p g o _ l _ v l' HR3 HF Hlen Hp) as (s' & El & R & (_ & T & Ke)).
    exists s'. split_and!; [|done..].
    run Eg. run Em. rewrite (proj2 (Z.eqb_neq _ _)) by (unfold NULL; lia). cbn [g_opts].
    run Ec. run Ev. run El. apply get_ptr_ok. by apply (rep_val s' g o l' _ v R), (placed_in p l).
  - run Eg. run Em. simpl. eexists. split_and!; [done| |done..].
    simpl. apply rep_same; [done|]. intros a _. unfold same_at. by rewrite (alloc_addr_none _ _ _ Ea).
Qed.

Lemma insert_value_witness :
  let o := mk_klist_opts KOBJ_INT32 4 (fun _ _ _ => 1) None None None None (0, 0, 0) in
  let m := mk_mem {[16 := [7; 0; 0; 0]]} 48 [] in
  let s := mk_st {[1000 := mk_klist 0 0 o 0]} m None in
  exists s', insert_at AtTail 1000 16 s = Ok (PSlot 48, s') /\
    klist_rep s' 1000 o [(48, 7)] /\ kerrno s' = None.
Proof.
  intros o m s.
  assert (HR : klist_rep s 1000 o []) by (split; [done..|simpl; constructor|constructor|done]).
  pose proof (insert_value AtTail s 1000 o [] 16 7 HR eq_refl) as H.
  destruct (H ltac:(split; [done|]; simpl; intros a bs Ha; apply lookup_singleton_Some in Ha as [<- _]; lia)
    ltac:(exists 7; split_and!; [simpl; lia|done|done]) ltac:(done) [(48, 7)]
    ltac:(apply (placed_tail []))) as (s' & E & R & K & _).
  by exists s'.
Defined.

(** ** Searching and unlinking *)

Lemma nodes_le_size m p l n :
  dseg m p l n -> NoDup (addrs l) -> (length l <= size (blocks m))%nat.
Proof.
  intros Hd Hnd. rewrite <- (length_fmap fst l). apply live_le_size; [|done].
  intros a Ha. by eapply dseg_live.
Qed.

Definition matches (m : mem) (o : klist_opts_t) (key : Z) (x : Z * Z) : bool :=
  match_fn o m key (snd x) =? 0.

Lemma find_from_spec o key s l p fuel :
  dseg (omem s) p l NULL -> Forall (fun a => a <> NULL /\ is_u 64 a) (addrs l) ->
  (length l < fuel)%nat ->
  find_from fuel o key (head_addr l NULL) s =
    Ok (match List.find (matches (omem s) o key) l with Some (a, _) => a | None => NULL end, s).
Proof.
  destruct s as [gs m e]. simpl omem.
  revert p fuel. induction l as [|[a v] l IH]; intros p [|fuel] Hd Ha Hf; simpl in *; try lia; [done|].
  destruct Hd as [Hw Hd]. apply Forall_cons in Ha as [[Hn _] Ha].
  rewrite (proj2 (Z.eqb_neq _ _)) by done.
  reads Hw. run (eq_refl : get_st (mk_st gs m e) = Ok (mk_st gs m e, _)). cbn [omem].
  change (matches m o key (a, v)) with (match_fn o m key v =? 0). destruct (match_fn o m key v =? 0); [done|].
  reads Hw. apply (IH a); done || lia.
Qed.

Lemma find_raw_spec s g o l key :
  klist_rep s g o l ->
  kylin_list_find_raw g key s =
    Ok (match List.find (matches (omem s) o key) l with Some (a, _) => a | None => NULL end, s).
Proof.
  intros HR. pose proof HR as [Hg Hd Hnd Ha _]. unfold kylin_list_find_raw.
  assert (Eg : guard g s = Ok (mk_klist (head_addr l NULL) (last_addr l NULL) o (Z.of_nat (length l)), s))
    by (unfold guard; by rewrite Hg).
  run Eg. unfold mbind, M_bind, get_st. eapply find_from_spec; [done..|].
  pose proof (nodes_le_size _ _ _ _ Hd Hnd). unfold fuel_of. lia.
Qed.

(** Freeing a node that is not in the list. *)
Lemma free_unlinked s g o l node ws :
  klist_rep s g o l -> node ∉ addrs l -> node <> NULL -> words_at (omem s) node ws ->
  exists s', on_mem (kylin_free node) s = Ok (tt, s') /\ klist_rep s' g o l /\
    blocks (omem s') = delete node (blocks (omem s)) /\ guards s' = guards s /\ kerrno s' = kerrno s.
Proof.
  intros HR Hout Hn [Hw _]. eexists. split; [|split].
  - apply on_mem_ok. unfold kylin_free. rewrite (proj2 (Z.eqb_neq _ _)) by done.
    cbn [mem_of st_mem]. by rewrite Hw.
  - apply rep_same; [done|]. intros a Ha. unfold same_at. simpl.
    rewrite lookup_delete_ne; [done|]. intros ->. by apply Hout.
  - done.
Qed.

(** What the two removals by value share: the list without its first match,
    whose node is freed. *)
Definition removed (g : Z) (o : klist_opts_t) (l1 : list (Z * Z)) (a : Z) (l2 : list (Z * Z))
    (s s' : st) : Prop :=
  klist_rep s' g o (l1 ++ l2) /\ blocks (omem s') !! a = None /\
  (forall b, b ∉ a :: addrs l1 ++ addrs l2 -> same_at (omem s) (omem s') b) /\
  (forall g', g' <> g -> guards s' !! g' = guards s !! g') /\ kerrno s' = kerrno s.

Lemma unlink_and_free s g o l1 a v l2 :
  klist_rep s g o (l1 ++ (a, v) :: l2) ->
  exists s1 s2, kylin_list_unlink_raw g a s = Ok (a, s1) /\
    klist_rep s1 g o (l1 ++ l2) /\ LIST_VAL a s1 = Ok (v, s1) /\
    on_mem (kylin_free a) s1 = Ok (tt, s2) /\ removed g o l1 a l2 s s2.
Proof.
  intros HR. destruct (unlink_raw_spec _ _ _ _ _ _ _ HR) as (s1 & E1 & R1 & ((_ & _ & _ & K) & T & Ke) & W).
  pose proof (rep_split _ _ _ _ _ _ _ HR) as (_ & _ & _ & _ & _ & X1 & X2 & _ & _ & _ & An).
  assert (Hout : a ∉ addrs (l1 ++ l2)) by (rewrite fmap_app; set_solver).
  destruct (free_unlinked s1 g o (l1 ++ l2) a _ R1 Hout (proj1 An) W) as (s2 & E2 & R2 & B & G & Ke2).
  exists s1, s2. split_and!; try done.
  - exact (read_field s1 a _ 2 v W eq_refl).
  - split_and!; [done| | | |congruence].
    + by rewrite B, lookup_delete_eq.
    + intros b Hb. unfold same_at in *. apply not_elem_of_cons in Hb as [Hne Hb].
      rewrite B, lookup_delete_ne by done. by apply K.
    + intros g' Hne. by rewrite G, T.
Qed.

Lemma find_split {A} (f : A -> bool) l x :
  List.find f l = Some x ->
  exists l1 l2, l = l1 ++ x :: l2 /\ f x = true /\ Forall (fun y => f y = false) l1.
Proof.
  induction l as [|y l IH]; simpl; [done|]. destruct (f y) eqn:E.
  - intros [= ->]. by exists [], l.
  - intros H. destruct (IH H) as (l1 & l2 & -> & Hx & Hl). exists (y :: l1), l2. split_and!; [done..|].
    by constructor.
Qed.

(** C30. Removal by value.  Both forms look for the first node that matches the
    key.  [unlink] takes it out of the list, frees the node and returns the
    pointer to its value, which for an integer type points into the node just
    freed; [remove], for the integer types, takes it out and frees it.  The
    other nodes keep their order and values.  When nothing matches only
    [kerrno] changes. *)
Theorem remove_first_match nested s g o l key :
  klist_rep s g o l -> node_dtor o = None ->
  match List.find (matches (omem s) o key) l with
  | Some (a, v) => exists l1 l2, l = l1 ++ (a, v) :: l2 /\
      Forall (fun x => matches (omem s) o key x = false) l1 /\
      (exists s', kylin_list_unlink g key s = Ok (slot_of o a v, s') /\ removed g o l1 a l2 s s') /\
      (is_Some (int_type (val_type o)) ->
       exists s', kylin_list_remove nested g key s = Ok (tt, s') /\ removed g o l1 a l2 s s')
  | None =>
      kylin_list_unlink g key s =
        Ok (PObj NULL, mk_st (guards s) (omem s) (Some KYLIN_ERROR_INVAL)) /\
      kylin_list_remove nested g key s =
        Ok (tt, mk_st (guards s) (omem s) (Some KYLIN_ERROR_INVAL))
  end.
Proof.
  intros HR Hnd. pose proof (find_raw_spec s g o l key HR) as Ef.
  assert (Eg : guard g s = Ok (mk_klist (head_addr l NULL) (last_addr l NULL) o (Z.of_nat (length l)), s))
    by (unfold guard; by rewrite (rep_guard _ _ _ _ HR)).
  unfold kylin_list_unlink, kylin_list_remove. run Eg. rewrite !(bind_Ok _ _ _ _ _ Ef). cbv beta.
  destruct (List.find _ l) as [[a v]|] eqn:Hf; [|done].
  apply find_split in Hf as (l1 & l2 & -> & Hm & Hl1). exists l1, l2. split; [done|]. split; [done|].
  destruct (unlink_and_free s g o l1 a v l2 HR) as (s1 & s2 & E1 & R1 & Ev & E2 & Hr).
  pose proof (rep_split _ _ _ _ _ _ _ HR) as (_ & _ & _ & _ & _ & _ & _ & _ & _ & _ & Ha & _).
  rewrite (proj2 (Z.eqb_neq _ _)) by done. split.
  - exists s2. split; [|done]. run E1. run (get_ptr_ok o a v s1 Ev). cbn [g_opts].
    unfold LIST_NODE_FREE. rewrite Hnd. by run E2.
  - intros [[w sg] Ht]. exists s2. split; [|done]. unfold kylin_list_remove_raw. run E1.
    assert (Eg1 : guard g s1 = Ok (mk_klist (head_addr (l1 ++ l2) NULL) (last_addr (l1 ++ l2) NULL) o
      (Z.of_nat (length (l1 ++ l2))), s1)) by (unfold guard; by rewrite (rep_guard _ _ _ _ R1)).
    run Eg1. run Ev. cbn [g_opts].
    unfold LIST_NODE_FREE. rewrite Hnd. erewrite bind_Ok; [exact E2|]. apply on_mem_pure. by destruct (val_type o).
Qed.

(** A two-node list for the witnesses. *)
Definition ex_opts : klist_opts_t :=
  mk_klist_opts KOBJ_INT32 4 (fun _ k v => if k =? v then 0 else 1) None None None None (0, 0, 0).
Definition ex_mem : mem :=
  mk_mem {[48 := enc_words [0; 80; 7]; 80 := enc_words [48; 0; 9]]} 112 [].
Definition ex_st : st := mk_st {[1000 := mk_klist 48 80 ex_opts 2]} ex_mem None.

Lemma ex_rep : klist_rep ex_st 1000 ex_opts [(48, 7); (80, 9)].
Proof.
  split; [done| | | |done].
  - simpl. split_and!; try done; repeat constructor; done.
  - apply (bool_decide_unpack _). by vm_compute.
  - repeat constructor; done.
Qed.

Lemma remove_first_match_witness :
  exists s', kylin_list_unlink 1000 9 ex_st = Ok (PSlot 80, s') /\
    removed 1000 ex_opts [(48, 7)] 80 [] ex_st s'.
Proof.
  destruct (remove_first_match (mk_nested_dtors (fun _ => ub) (fun _ => ub) (fun _ => ub))
    ex_st 1000 ex_opts [(48, 7); (80, 9)] 9 ex_rep eq_refl) as (l1 & l2 & E & Hl1 & (s' & Es & Hr) & _).
  destruct l1 as [|x [|y l1]]; simplify_eq/=; [by exists s'|]. by destruct l1.
Defined.

(** ** Searching by position *)

Lemma index_from_spec fuel gs m e index i count l p :
  dseg m p l NULL -> count <= i + Z.of_nat (length l) -> (Z.to_nat (count - i) < fuel)%nat ->
  index_from fuel index i count (head_addr l NULL) (mk_st gs m e) =
    Ok (if (i <=? index) && (index <? count)
        then head_addr (drop (Z.to_nat (index - i)) l) NULL else NULL, mk_st gs m e).
Proof.
  revert i p l. induction fuel as [|fuel IH]; intros i p l Hd Hc Hf; [lia|]. cbn [index_from].
  destruct (Z.ltb_spec i count) as [Hi|Hi].
  2: { destruct (_ && _) eqn:E; [lia|done]. }
  destruct l as [|[a v] l]; [simpl in *; lia|]. destruct Hd as [Hw Hd]. simpl length in Hc.
  destruct (Z.eqb_spec i index) as [->|Hne].
  - rewrite Z.leb_refl, (proj2 (Z.ltb_lt index count)), Z.sub_diag by lia. done.
  - cbn [head_addr]. reads Hw. rewrite (IH (i + 1) a l) by (done || lia).
    destruct (Z.leb_spec (i + 1) index), (Z.leb_spec i index); try lia; [|done].
    destruct (index <? count); [|done]. simpl.
    replace (Z.to_nat (index - i)) with (S (Z.to_nat (index - (i + 1)))) by lia. done.
Qed.

(** [find_index] numbers the nodes from 1 and finds the one asked for,
    except the last: an index of at least [count], 0 or a negative index give
    NULL. *)
Theorem find_index_position s g o l index :
  klist_rep s g o l -> Z.of_nat (length l) < 2 ^ 31 -> - 2 ^ 31 <= index < 2 ^ 31 ->
  kylin_list_find_index g index s =
    Ok (match l !! Z.to_nat (index - 1) with
        | Some (a, v) => if (1 <=? index) && (index <? Z.of_nat (length l)) then slot_of o a v
                         else PObj NULL
        | None => PObj NULL
        end, s).
Proof.
  intros HR Hlen Hi. pose proof HR as [Hg Hd _ Ha _].
  assert (Eg : guard g s = Ok (mk_klist (head_addr l NULL) (last_addr l NULL) o (Z.of_nat (length l)), s))
    by (unfold guard; by rewrite Hg).
  assert (E : kylin_list_find_index_raw g index s =
    Ok (if (1 <=? index) && (index <? Z.of_nat (length l))
        then head_addr (drop (Z.to_nat (index - 1)) l) NULL else NULL, s)).
  { unfold kylin_list_find_index_raw. run Eg. cbn [g_count g_head].
    destruct (Z.ltb_spec (Z.of_nat (length l)) (u64 index)) as [Hu|Hu].
    - destruct (Z.leb_spec 1 index); [|done]. rewrite uw_id in Hu by (unfold is_u; lia).
      by rewrite (proj2 (Z.ltb_ge index _)) by lia.
    - destruct s as [gs m e]. apply (index_from_spec _ _ _ _ _ _ _ _ NULL); [done|lia..]. }
  unfold kylin_list_find_index. run Eg. run E.
  destruct (l !! Z.to_nat (index - 1)) as [[a v]|] eqn:El.
  - destruct (_ && _) eqn:Hin; [|done]. rewrite (drop_S _ _ _ El). cbn [head_addr].
    rewrite Forall_forall in Ha. destruct (Ha a) as [Hn _].
    { apply list_elem_of_fmap. exists (a, v). split; [done|]. by eapply list_elem_of_lookup_2. }
    rewrite (proj2 (Z.eqb_neq _ _)) by done. apply get_ptr_ok.
    by apply (rep_val s g o l a v HR), (list_elem_of_lookup_2 _ _ _ El).
  - apply lookup_ge_None in El. destruct (_ && _) eqn:Hin; [lia|done].
Qed.

Lemma find_index_position_witness :
  kylin_list_find_index 1000 1 ex_st = Ok (PSlot 48, ex_st) /\
  kylin_list_find_index 1000 2 ex_st = Ok (PObj NULL, ex_st).
Proof.
  split; (rewrite (find_index_position ex_st 1000 ex_opts [(48, 7); (80, 9)] _ ex_rep) by (simpl; lia));
    reflexivity.
Defined.

(** ** Joining *)

(** Emptying the source guard. *)
Lemma empty_guard src gs m e L :
  gs !! src = Some L ->
  (_ ← set_TAIL src NULL; _ ← set_HEAD src NULL; set_COUNT src 0) (mk_st gs m e) =
    Ok (tt, mk_st (<[src := mk_klist NULL NULL (g_opts L) 0]> gs) m e).
Proof.
  intros H. rewrite <- (insert_id gs src L) at 1 by done.
  run (set_TAIL_eq gs src L m e NULL).
  run (set_HEAD_eq gs src (mk_klist (g_head L) NULL (g_opts L) (g_count L)) m e NULL).
  by rewrite set_COUNT_eq.
Qed.

(** Joining a non-empty list to another moves all its nodes, in order,
    behind the nodes of the destination, and empties the source; the counts
    add up. *)
Theorem join_appends s dest src o o2 l1 l2 :
  klist_rep s dest o l1 -> klist_rep s src o2 l2 -> dest <> src -> l2 <> [] ->
  (forall a, a ∈ addrs l1 -> a ∉ addrs l2) -> Z.of_nat (length l1 + length l2) < 2 ^ 62 ->
  exists s', kylin_list_join dest src s = Ok (tt, s') /\
    klist_rep s' dest o (l1 ++ l2) /\ klist_rep s' src o2 [] /\
    keeps (addrs l1 ++ addrs l2) (omem s) (omem s') /\
    (forall g', g' <> dest -> g' <> src -> guards s' !! g' = guards s !! g').
Proof.
  intros R1 R2 Hne Hl2 Hx Hlen. destruct l2 as [|[b vb] l2]; [done|]. clear Hl2.
  pose proof (rep_last_u dest o s l1 R1) as Hlu.
  destruct (rep_canonical dest o s l1 R1) as (gs & m & e & ->).
  pose proof R1 as [_ Hd1 N1 A1 _]. pose proof R2 as [Hg2 Hd2 N2 A2 _]. simpl omem in *.
  simpl in Hg2. rewrite lookup_insert_ne in Hg2 by done.
  pose proof A2 as [[Hb Hbu] _]%Forall_cons. simpl in Hb, Hbu.
  destruct (set_prev_first m NULL b vb l2 NULL (last_addr l1 NULL) Hd2 N2 Hlu) as (m1 & E1 & D1 & K1).
  assert (Hd1' : dseg m1 NULL l1 NULL).
  { eapply dseg_keeps; [exact K1| |exact Hd1]. intros a Ha ->%list_elem_of_singleton.
    apply (Hx b Ha). set_solver. }
  destruct (link_out dest m1 l1 NULL b Hd1' N1 A1 Hbu) as (m2 & E2 & D2 & K2).
  assert (D2' : dseg m2 (last_addr l1 NULL) ((b, vb) :: l2) NULL).
  { eapply dseg_keeps; [exact K2| |exact D1]. intros a Ha Ha'. by apply (Hx a). }
  set (L2 := mk_klist b (last_addr l2 b) o2 (Z.of_nat (S (length l2)))) in *.
  set (Ld := mk_klist (head_addr l1 b) (last_addr l2 b) o (Z.of_nat (length l1 + S (length l2)))).
  eexists (mk_st (<[src := mk_klist NULL NULL o2 0]> (<[dest := Ld]> gs)) m2 e). split.
  - unfold kylin_list_join. run (guard_at (mk_st (<[dest:=mk_klist (head_addr l1 NULL) (last_addr l1 NULL) o (Z.of_nat (length l1))]> gs) m e) src L2 ltac:(simpl; by rewrite lookup_insert_ne)).
    run (guard_eq gs dest (mk_klist (head_addr l1 NULL) (last_addr l1 NULL) o (Z.of_nat (length l1))) m e).
    cbn [g_head g_tail L2]. rewrite (proj2 (Z.eqb_neq b NULL)) by done. cbn [negb].
    write E1. steps E2. cbn [g_head g_tail g_opts g_count].
    assert (Hg : forall L m' e', guard src (mk_st (<[dest := L]> gs) m' e') =
        Ok (L2, mk_st (<[dest := L]> gs) m' e'))
      by (intros; apply guard_at; simpl; by rewrite lookup_insert_ne).
    steps Hg. cbn [g_tail L2].
    steps set_TAIL_eq. steps guard_eq. cbn [g_head g_tail g_opts g_count].
    unfold L2 at 1; cbn [g_count]. rewrite uw_id by (unfold is_u; simpl length in *; lia).
    steps set_COUNT_eq. cbn [g_head g_tail g_opts g_count].
    rewrite (empty_guard src _ m2 e L2) by (by rewrite lookup_insert_ne).
    do 6 f_equal; unfold Ld, L2; f_equal; first [done | by destruct l1 | simpl; lia].
  - split_and!.
    + split; simpl.
      * rewrite lookup_insert_ne, lookup_insert_eq by done. unfold Ld.
        by rewrite head_addr_app, last_addr_app, length_app.
      * apply dseg_app. split; [exact D2|exact D2'].
      * rewrite fmap_app. apply NoDup_app. done.
      * rewrite fmap_app. by apply Forall_app.
      * rewrite length_app. simpl in *. lia.
    + split; simpl; [by rewrite lookup_insert_eq|done|constructor|constructor|done].
    + eapply keeps_trans_in; [exact K1|exact K2|]. intros a. rewrite elem_of_app. set_solver.
    + intros g' H1 H2. simpl. by rewrite !lookup_insert_ne.
Qed.

Lemma join_appends_witness :
  let s := mk_st {[1000 := mk_klist 0 0 ex_opts 0; 2000 := mk_klist 48 80 ex_opts 2]} ex_mem None in
  exists s', kylin_list_join 1000 2000 s = Ok (tt, s') /\
    klist_rep s' 1000 ex_opts [(48, 7); (80, 9)] /\ klist_rep s' 2000 ex_opts [].
Proof.
  intros s. destruct ex_rep as [_ Hd N A C].
  destruct (join_appends s 1000 2000 ex_opts ex_opts [] [(48, 7); (80, 9)]) as (s' & E & R & R' & _);
    [split; [done..|simpl; constructor|constructor|done]|by split| | | | |by exists s'].
  - done.
  - done.
  - set_solver.
  - simpl. lia.
Defined.

(** ** Operations that do not do what they mean to *)

(** C31. [clear] asks [remove] for the value equal to the head's own address: on
    a list of integers where no value matches it, nothing is ever removed and
    the loop does not end, whatever the fuel.  [kylin_list_destroy] starts
    with it. *)
Theorem clear_diverges nested fuel s g o a v l :
  klist_rep s g o ((a, v) :: l) -> is_Some (int_type (val_type o)) ->
  (forall x, x ∈ (a, v) :: l -> match_fn o (omem s) a (snd x) <> 0) ->
  clear_loop nested fuel g s = OutOfFuel.
Proof.
  intros HR [[w sg] Ht] Hm. revert s HR Hm.
  induction fuel as [|fuel IH]; intros s HR Hm; [done|]. cbn [clear_loop].
  run (guard_at s g _ (rep_guard _ _ _ _ HR)). cbn [g_head head_addr g_opts].
  pose proof (rep_addrs _ _ _ _ HR) as [[Ha _] _]%Forall_cons. simpl in Ha.
  rewrite (proj2 (Z.eqb_neq _ _)) by done.
  run (rep_val s g o _ a v HR ltac:(set_solver)).
  assert (Ed : on_mem (kmath_val_dtor nested v (val_type o) (Some (LIST_VAL_FREE o))) s = Ok (tt, s))
    by (apply on_mem_pure; by destruct (val_type o)).
  run Ed. unfold kylin_list_remove.
  assert (Ef : kylin_list_find_raw g a s = Ok (NULL, s)).
  { rewrite (find_raw_spec s g o _ a HR). destruct (List.find _ _) as [x|] eqn:E; [|done].
    apply List.find_some in E as [Hin Hx]. unfold matches in Hx. apply Z.eqb_eq in Hx.
    destruct (Hm x ltac:(by apply list_elem_of_In) Hx). }
  set (s' := mk_st (guards s) (omem s) (Some KYLIN_ERROR_INVAL)).
  erewrite bind_Ok by (run Ef; reflexivity). cbv beta. fold s'.
  apply IH; [by apply rep_same|done].
Qed.

Lemma clear_diverges_witness :
  let nested := mk_nested_dtors (fun _ => ub) (fun _ => ub) (fun _ => ub) in
  clear_loop nested 1000 1000 ex_st = OutOfFuel.
Proof.
  intros nested. apply (clear_diverges nested 1000 ex_st 1000 ex_opts 48 7 [(80, 9)] ex_rep); [by eexists|].
  intros x [->|[->|[]%elem_of_nil]%elem_of_cons]%elem_of_cons; vm_compute; discriminate.
Defined.

(** [rotate] exchanges the links of every node but the old tail, which becomes
    the head: a walk from it finds no other node. *)
Lemma rotate_cuts_list :
  exists s', kylin_list_rotate 1000 ex_st = Ok (tt, s') /\
    guards s' !! 1000 = Some (mk_klist 80 48 ex_opts 2) /\ LIST_NEXT 80 s' = Ok (NULL, s').
Proof. eexists. split_and!; [vm_compute; reflexivity..]. Qed.

(** Joining an empty list clears the destination's tail pointer. *)
Lemma join_empty_clears_tail :
  let s := mk_st {[1000 := mk_klist 48 80 ex_opts 2; 2000 := mk_klist 0 0 ex_opts 0]} ex_mem None in
  exists s', kylin_list_join 1000 2000 s = Ok (tt, s') /\
    guards s' !! 1000 = Some (mk_klist 48 NULL ex_opts 2).
Proof. eexists. split; vm_compute; reflexivity. Qed.

(** [dup] gives up at the first insertion that succeeds: here, where the values
    are the caller's objects, the copy is destroyed and the result is NULL. *)
Lemma dup_returns_null :
  let nested := mk_nested_dtors (fun _ => ub) (fun _ => ub) (fun _ => ub) in
  let o := mk_klist_opts KOBJ_OTHERS 8 (fun _ _ _ => 0) None
             (Some (fun _ => mret tt)) None None (0, 0, 0) in
  let s := mk_st {[1000 := mk_klist 48 80 o 2]} ex_mem None in
  exists s', kylin_list_dup nested 1000 s = Ok (NULL, s').
Proof. eexists. vm_compute. reflexivity. Qed.
