(* ===== verification/Plugin.v ===== *)
(** * Plug-in registries ([lib/core/event], [lib/core/socket])

    The event loop and the sockets are built alike: an array of plug-ins, one
    per type, with a count of the objects that use it, and a list of the live
    objects, which is a [kylin_list] of pointers.  This file holds what the two
    need: what a step leaves alone in a heap with lists, the list of pointers
    on top of [KList], and the array with its counts. *)

From S2P Require Import Prelude Errors Bytes Mem MathVal KList.

(** ** What a step leaves alone *)

(** What an address holds: an object, or the guard of a list. *)
Definition loc (h : KList.st) (a : Z) : option (list Z) * option klist_t := (blocks (omem h) !! a, guards h !! a).
Definition top (h : KList.st) : Z := brk (omem h).

Record heap_ok (h : KList.st) : Prop := {
  hp_mem : mem_ok (omem h);
  hp_guards : forall g, is_Some (guards h !! g) -> 0 < g < top h;
}.

(** [h'] differs from [h] at the addresses [X] and at new ones only. *)
Record changes (X : list Z) (h h' : KList.st) : Prop := {
  ch_ok : heap_ok h';
  ch_top : top h <= top h';
  ch_loc : forall a, a < top h -> a ∉ X -> loc h' a = loc h a;
}.

Lemma changes_refl X h : heap_ok h -> changes X h h.
Proof. intros H. by split. Qed.

Lemma changes_weaken X Y h h' : changes X h h' -> (forall a, a < top h -> a ∈ X -> a ∈ Y) -> changes Y h h'.
Proof. intros [H1 H2 H3] HY. split; [done..|]. intros a Ha HaY. apply H3; [done|]. intros HX. by apply HaY, HY. Qed.

Lemma changes_trans X Y h1 h2 h3 : changes X h1 h2 -> changes Y h2 h3 -> changes (X ++ Y) h1 h3.
Proof.
  intros [A1 A2 A3] [B1 B2 B3]. split; [done|lia|]. intros a Ha HX. apply not_elem_of_app in HX as [HX HY].
  rewrite B3 by (done || lia). by apply A3.
Qed.

Lemma changes_new X Y h1 h2 h3 :
  changes X h1 h2 -> changes Y h2 h3 -> (forall a, a < top h1 -> a ∈ Y -> a ∈ X) -> changes X h1 h3.
Proof.
  intros A B HY. eapply changes_weaken; [by eapply changes_trans|]. intros a Ha [?|?]%elem_of_app; auto.
Qed.

Lemma loc_block h h' a : loc h' a = loc h a -> blocks (omem h') !! a = blocks (omem h) !! a.
Proof. unfold loc. congruence. Qed.

Lemma loc_guard h h' a : loc h' a = loc h a -> guards h' !! a = guards h !! a.
Proof. unfold loc. congruence. Qed.

(** ** Steps on the heap *)

Lemma top_free h : heap_ok h -> loc h (top h) = (None, None).
Proof.
  intros [Hm Hg]. unfold loc. f_equal; [by apply mem_ok_fresh|].
  destruct (guards h !! top h) eqn:E; [|done]. specialize (Hg (top h) ltac:(by eexists)). lia.
Qed.

Lemma heap_step {A} (f : M mem A) h x m : f (omem h) = Ok (x, m) ->
  on_mem f h = Ok (x, mk_st (guards h) m (kerrno h)).
Proof. exact (on_mem_ok f h x m). Qed.

(** [kylin_malloc]: NULL, or a new object of zeroes. *)
Lemma heap_malloc h n : heap_ok h -> exists a h', on_mem (kylin_malloc n) h = Ok (a, h') /\ changes [] h h' /\
  (a = NULL \/ a = top h /\ 0 < a < top h' /\ loc h' a = (Some (replicate (Z.to_nat n) 0), None)).
Proof.
  intros Hh. pose proof (top_free h Hh) as Hf. destruct Hh as [Hm Hg].
  destruct (malloc_ok (omem h) n Hm) as (a & m' & E & Hm' & Ha).
  exists a, (mk_st (guards h) m' (kerrno h)). split; [by apply heap_step|].
  assert (Hout : brk (omem h) <= brk m' -> (forall b, b < top h -> blocks m' !! b = blocks (omem h) !! b) ->
    changes [] h (mk_st (guards h) m' (kerrno h))).
  { intros Hb Ho. split; [split; [done|]|done|].
    - intros g Hs. specialize (Hg g Hs). unfold top in *. simpl. lia.
    - intros b Hlt _. unfold loc. simpl. by rewrite Ho. }
  assert (Hbrk : brk (omem h) <= brk m').
  { revert E. unfold kylin_malloc, alloc_addr. repeat case_match; intros; simplify_eq/=; lia. }
  destruct Ha as [[-> Hb]|(-> & Hlt & Hb)]; (split; [apply Hout; [done|]|]).
  - intros b _. by rewrite Hb.
  - by left.
  - intros b Hlt'. rewrite Hb, lookup_insert_ne; [done|]. unfold top in Hlt'. lia.
  - right. unfold top, loc in *. simpl. rewrite Hb, lookup_insert_eq. split; [done|].
    split; [destruct Hm; lia|]. f_equal. congruence.
Qed.

Lemma heap_free h a bs : heap_ok h -> blocks (omem h) !! a = Some bs ->
  exists h', on_mem (kylin_free a) h = Ok (tt, h') /\ changes [a] h h'.
Proof.
  intros [Hm Hg] Ha. exists (mk_st (guards h) (mk_mem (delete a (blocks (omem h))) (brk (omem h)) (oom (omem h))) (kerrno h)).
  split.
  - apply heap_step, free_live; [|by eexists].
    unfold NULL. destruct Hm as [_ Hm]. apply Hm in Ha. lia.
  - split; [split; [by apply mem_ok_delete|done]|done|]. intros b _ Hb. unfold loc. simpl.
    rewrite lookup_delete_ne; [done|]. set_solver.
Qed.

Lemma heap_store h a x old new y off : heap_ok h -> blocks (omem h) !! a = Some (x ++ old ++ y) ->
  length old = length new -> off = Z.of_nat (length x) ->
  exists h', on_mem (store_at a off new) h = Ok (tt, h') /\ changes [a] h h' /\ guards h' = guards h /\
    blocks (omem h') !! a = Some (x ++ new ++ y) /\ top h' = top h.
Proof.
  intros [Hm Hg] Ha Hl Ho.
  eexists. split; [by eapply heap_step, store_at_ok|].
  split; [|split; [done|split; [|done]]].
  - split; [split; [|done]|done|].
    + destruct Hm as [Hb Hm]. split; [done|]. simpl. intros b bs Hl'.
      apply lookup_insert_Some in Hl' as [[<- _]|[_ Hl']]; by eapply Hm.
    + intros b _ Hb. unfold loc. simpl. rewrite lookup_insert_ne; [done|]. set_solver.
  - simpl. by rewrite lookup_insert_eq.
Qed.

Lemma heap_put h a x old n v y w off : heap_ok h -> blocks (omem h) !! a = Some (x ++ old ++ y) ->
  length old = n -> w = Z.of_nat n -> off = Z.of_nat (length x) ->
  exists h', on_mem (put_field (off, w) a v) h = Ok (tt, h') /\ changes [a] h h' /\ guards h' = guards h /\
    blocks (omem h') !! a = Some (x ++ le_bytes n v ++ y) /\ top h' = top h.
Proof.
  intros Hh Ha Hl -> ->. unfold put_field. cbn [fst snd]. rewrite Nat2Z.id.
  apply heap_store with old; [done..|by rewrite length_le_bytes|done].
Qed.

(** An allocation that fails leaves the heap as it was. *)
Lemma changes_same X h m' e : heap_ok h -> blocks m' = blocks (omem h) -> brk m' = brk (omem h) ->
  changes X h (mk_st (guards h) m' e).
Proof.
  intros [[Hr Hm] Hg] Hb Ht. split; [split|unfold top; simpl; lia|].
  - split; simpl; [lia|]. by rewrite Hb, Ht.
  - unfold top in *. simpl. by rewrite Ht.
  - intros a _ _. unfold loc. simpl. by rewrite Hb.
Qed.

(** ** Lists of pointers *)

(** The options of both lists: pointers are kept, not copied. *)
Record obj_list (o : klist_opts_t) : Prop := {
  ol_type : val_type o = KOBJ_OTHERS;
  ol_ctor : val_ctor o = None;
  ol_node_ctor : node_ctor o = None;
  ol_node_dtor : node_dtor o = None;
}.

Lemma list_create h o : heap_ok h -> guard_init o = (NULL, NULL, 0) ->
  exists g h', kylin_list_create o h = Ok (g, h') /\ changes [] h h' /\
    (g = NULL \/ g = top h /\ 0 < g < top h' /\ klist_rep h' g o []).
Proof.
  intros Hh Hi. pose proof Hh as [Hm Hg]. unfold kylin_list_create. rewrite Hi.
  destruct (alloc_addr sizeof_list (omem h)) as [[g|] m'] eqn:Ea.
  - destruct (alloc_addr_some _ _ _ _ Ea Hm) as (-> & Hb & Hr).
    destruct (alloc_top _ _ _ _ Ea) as (_ & Ht).
    eexists _, _. split; [done|]. split.
    + split; [split|unfold top; simpl; lia|].
      * split; [unfold top; simpl; destruct Hm; lia|]. simpl. rewrite Hb. intros a bs Ha. destruct Hm as [_ Hm].
        apply Hm in Ha. lia.
      * intros g [L HL]. unfold top. simpl in *. apply lookup_insert_Some in HL as [[<- _]|[_ HL]]; [lia|].
        specialize (Hg g ltac:(by eexists)). unfold top in Hg. lia.
      * intros a Ha _. unfold loc, top in *. simpl. rewrite Hb, lookup_insert_ne by lia. done.
    + right. unfold top. simpl. split; [done|]. split; [destruct Hm; lia|]. split; simpl.
      * by rewrite lookup_insert_eq.
      * done.
      * constructor.
      * constructor.
      * done.
  - destruct (alloc_top _ _ _ _ Ea) as (Hb & Ht). eexists _, _. split; [done|]. split; [|by left].
    by apply changes_same.
Qed.

(** The guard and the nodes of a list. *)
Definition list_cells (g : Z) (l : list (Z * Z)) : list Z := g :: addrs l.

Lemma rep_frame h h' g o l : klist_rep h g o l -> (forall a, a ∈ list_cells g l -> loc h' a = loc h a) ->
  klist_rep h' g o l.
Proof.
  intros [H1 H2 H3 H4 H5] Hl. split; try done.
  - rewrite <- H1. apply loc_guard, Hl. set_solver.
  - eapply dseg_same; [|exact H2]. intros a Ha. apply loc_block, Hl. set_solver.
Qed.

(** [kylin_list_insert_head] of a pointer. *)
Lemma list_insert_ptr h g o l val : heap_ok h -> obj_list o -> klist_rep h g o l -> val <> NULL -> is_u 64 val ->
  Z.of_nat (length l) + 1 < 2 ^ 62 ->
  exists p h', kylin_list_insert_head g val h = Ok (PObj p, h') /\
    (p = NULL /\ fst (alloc_addr sizeof_node (omem h)) = None /\ changes [] h h' \/
     p = val /\ is_Some (fst (alloc_addr sizeof_node (omem h))) /\ exists node, top h <= node < top h' /\ klist_rep h' g o ((node, val) :: l) /\
       changes (list_cells g l) h h').
Proof.
  intros Hh [Ht Hc Hnc _] HR Hv0 Hvu Hlen. pose proof Hh as [Hm Hg].
  assert (Hv : value_of (omem h) o val val) by (unfold value_of; by rewrite Ht).
  unfold kylin_list_insert_head, insert_with.
  pose proof (guard_at _ _ _ (rep_guard _ _ _ _ HR)) as Eg. pose proof (node_malloc h o Hnc) as Em.
  destruct (alloc_addr sizeof_node (omem h)) as [[node|] m1] eqn:Ea.
  - destruct (alloc_addr_some _ _ _ _ Ea Hm) as (-> & Hb & Hnode).
    destruct (alloc_top _ _ _ _ Ea) as (_ & Htop).
    destruct (fresh_node h g o l val val m1 HR Hm Hv Ea) as (Ec & Ev & HR3 & HF).
    destruct (insert_head_raw_spec g o _ l _ val HR3 HF Hlen) as (s' & El & R & (K & T & Ke)).
    exists val, s'. split.
    + run Eg. run Em. rewrite (proj2 (Z.eqb_neq _ _)) by (unfold NULL; lia). cbn [g_opts].
      run Ec. run Ev. run El. rewrite (get_ptr_ok o (brk (omem h)) val s').
      * unfold slot_of. by rewrite Ht.
      * apply (rep_val s' g o _ _ _ R). left.
    + right. split; [done|]. split; [by eexists|]. exists (brk (omem h)). destruct K as (KB & KO & KD & KS). cbn in KB.
      split; [unfold top; rewrite KB; lia|]. split; [done|]. split; [split|unfold top; rewrite KB; simpl; lia|].
      * split; [rewrite KB; lia|]. intros a bs Ha. destruct (proj1 (KD a)) as [bs' Hbs]; [by eexists|].
        cbn in Hbs. rewrite KB. apply lookup_insert_Some in Hbs as [[<- _]|[_ Hbs]]; [lia|].
        apply lookup_insert_Some in Hbs as [[<- _]|[_ Hbs]]; [lia|].
        rewrite Hb in Hbs. destruct Hm as [_ Hm]. apply Hm in Hbs. lia.
      * intros g' Hs. destruct (decide (g' = g)) as [->|Hne].
        -- specialize (Hg g ltac:(rewrite (rep_guard _ _ _ _ HR); by eexists)). unfold top in *. rewrite KB. lia.
        -- rewrite T in Hs by done. specialize (Hg g' Hs). unfold top in *. rewrite KB. simpl. lia.
      * intros a Ha HX. unfold list_cells in HX. apply not_elem_of_cons in HX as [Hag HX]. unfold top in Ha.
        unfold loc. f_equal.
        -- rewrite (KS a) by (apply not_elem_of_cons; split; [lia|done]). cbn.
           by rewrite !lookup_insert_ne, Hb by lia.
        -- by rewrite T.
  - exists NULL. eexists. split; [run Eg; by run Em|]. left. split; [done|]. split; [done|]. simpl.
    destruct (alloc_top _ _ _ _ Ea) as (Hb & Htop). by apply changes_same.
Qed.

(** A predicate of the pointers, in the order [kylin_list_unlink] asks. *)
Definition hits (h : KList.st) (o : klist_opts_t) (key : Z) (x : Z * Z) : bool := match_fn o (omem h) key (snd x) =? 0.

Lemma list_unlink_ptr h g o l1 node val l2 key : heap_ok h -> obj_list o ->
  klist_rep h g o (l1 ++ (node, val) :: l2) -> Forall (fun x => hits h o key x = false) l1 ->
  hits h o key (node, val) = true ->
  exists h', kylin_list_unlink g key h = Ok (PObj val, h') /\ klist_rep h' g o (l1 ++ l2) /\
    changes (list_cells g (l1 ++ (node, val) :: l2)) h h'.
Proof.
  intros Hh [Ht _ _ Hnd] HR Hl1 Hn. pose proof Hh as [Hm Hg].
  destruct (unlink_raw_spec _ _ _ _ _ _ _ HR) as (h1 & E1 & R1 & (K & T & Ke) & W).
  pose proof (rep_split _ _ _ _ _ _ _ HR) as (_ & _ & _ & _ & _ & X1 & X2 & _ & _ & _ & An).
  assert (Hout : node ∉ addrs (l1 ++ l2)) by (rewrite fmap_app; set_solver).
  destruct (free_unlinked h1 g o (l1 ++ l2) node _ R1 Hout (proj1 An) W) as (h2 & E2 & R2 & B & G & Ke2).
  exists h2. split; [|split; [done|]].
  - unfold kylin_list_unlink. run (guard_at _ _ _ (rep_guard _ _ _ _ HR)). cbn [g_opts].
    run (find_raw_spec h g o _ key HR).
    replace (List.find (matches (omem h) o key) (l1 ++ (node, val) :: l2)) with (Some (node, val)).
    2:{ clear - Hl1 Hn. induction Hl1 as [|x l1 Hx _ IH]; simpl.
        - change (matches (omem h) o key (node, val)) with (hits h o key (node, val)). by rewrite Hn.
        - change (matches (omem h) o key x) with (hits h o key x). by rewrite Hx. }
    rewrite (proj2 (Z.eqb_neq _ _)) by apply An. run E1.
    assert (EV : LIST_VAL node h1 = Ok (val, h1)) by exact (read_field h1 node _ 2 val W eq_refl).
    run (get_ptr_ok o node val h1 EV).
    unfold LIST_NODE_FREE. rewrite Hnd. run E2. unfold slot_of. by rewrite Ht.
  - pose proof (mem_ok_keeps _ _ _ K Hm) as Hm1. destruct K as (KB & KO & KD & KS).
    assert (HE : omem h2 = mk_mem (delete node (blocks (omem h1))) (brk (omem h1)) (oom (omem h1))).
    { revert E2. unfold on_mem. cbn [mem_of st_mem]. rewrite (free_live (omem h1) node (proj1 An)).
      - by intros [= <-].
      - eapply words_at_live, W. }
    split; [split|unfold top; rewrite HE; simpl; lia|].
    + rewrite HE. by apply mem_ok_delete.
    + intros g' Hs. unfold top. rewrite HE. simpl. rewrite KB. rewrite G in Hs.
      destruct (decide (g' = g)) as [->|Hne].
      * apply Hg. rewrite (rep_guard _ _ _ _ HR). by eexists.
      * rewrite T in Hs by done. by apply Hg.
    + intros a Ha HX. unfold list_cells in HX. apply not_elem_of_cons in HX as [Hag HX].
      unfold loc. rewrite G, T by done. f_equal. rewrite HE. simpl. rewrite fmap_app in HX.
      rewrite lookup_delete_ne by set_solver. apply KS. set_solver.
Qed.

(** Destroying an empty list. *)
Lemma list_destroy_empty nested h g o : heap_ok h -> klist_rep h g o [] ->
  exists h', kylin_list_destroy nested g h = Ok (tt, h') /\ changes [g] h h'.
Proof.
  intros [Hm Hg] HR. exists (mk_st (delete g (guards h)) (omem h) (kerrno h)). split.
  - unfold kylin_list_destroy, kylin_list_clear, mbind, M_bind, get_st. cbn [fuel_of clear_loop].
    unfold fuel_of. cbn [clear_loop]. run (guard_at _ _ _ (rep_guard _ _ _ _ HR)). done.
  - split; [split; [done|]|done|].
    + intros g' [L HL]. simpl in HL. apply lookup_delete_Some in HL as [_ HL]. apply Hg. by eexists.
    + intros a _ Ha. unfold loc. simpl. rewrite lookup_delete_ne; [done|]. set_solver.
Qed.

(** ** The array of plug-ins *)

Record plugin (R : Type) := mk_plugin { p_ref : Z; p_type : Z; p_reg : R }.
Arguments mk_plugin {R}.
Arguments p_ref {R}.
Arguments p_type {R}.
Arguments p_reg {R}.

(** How many of the live objects are of type [t]. *)
Definition users (t : Z) (live : list Z) : nat := length (List.filter (Z.eqb t) live).

Lemma users_cons t x live : users t (x :: live) = if t =? x then S (users t live) else users t live.
Proof. unfold users. simpl. by destruct (t =? x). Qed.

Lemma users_in t live : t ∈ live <-> (0 < users t live)%nat.
Proof.
  induction live as [|x live IH]; [split; [set_solver|unfold users; simpl; lia]|].
  rewrite users_cons, elem_of_cons, IH. destruct (Z.eqb_spec t x); split; intuition lia.
Qed.

Lemma users_le t live : (users t live <= length live)%nat.
Proof. unfold users. induction live as [|x live IH]; [done|]. simpl. destruct (t =? x); simpl; lia. Qed.

Lemma users_perm t l l' : l ≡ₚ l' -> users t l = users t l'.
Proof. induction 1; rewrite ?users_cons; repeat case_match; congruence. Qed.

(** [MAX] as the type marks a free entry, which no object uses; the count of
    another entry is the number of its users. *)
Definition entry_ok {R} (MAX : Z) (live : list Z) (i : nat) (p : plugin R) : Prop :=
  if decide (p_type p = MAX) then users (Z.of_nat i) live = 0%nat
  else p_ref p = Z.of_nat (users (Z.of_nat i) live).

Record table_ok {R} (MAX : Z) (live : list Z) (tab : list (plugin R)) : Prop := {
  tb_length : Z.of_nat (length tab) = MAX;
  tb_entry : forall i p, tab !! i = Some p -> entry_ok MAX live i p;
  tb_live : Forall (fun t => 0 <= t < MAX) live;
  tb_few : Z.of_nat (length live) < 2 ^ 32;
}.

(** The types that are registered. *)
Definition registered {R} (MAX : Z) (tab : list (plugin R)) (t : Z) : Prop :=
  exists i p, t = Z.of_nat i /\ tab !! i = Some p /\ p_type p <> MAX.

Section Table.
Context {R : Type} (MAX : Z).
Implicit Types (tab : list (plugin R)) (live : list Z).

(** Changing one entry. *)
Lemma table_change tab live live' i p p' : table_ok MAX live tab -> tab !! i = Some p ->
  (forall t, t <> Z.of_nat i -> users t live' = users t live) -> entry_ok MAX live' i p' ->
  Forall (fun t => 0 <= t < MAX) live' -> Z.of_nat (length live') < 2 ^ 32 ->
  table_ok MAX live' (<[i := p']> tab).
Proof.
  intros [H1 H2 _ _] Hi Hu He Hl Hf. split; [by rewrite length_insert| |done..].
  intros j q Hj. destruct (decide (j = i)) as [->|Hne].
  - rewrite list_lookup_insert_eq in Hj by (by eapply lookup_lt_Some). by simplify_eq.
  - rewrite list_lookup_insert_ne in Hj by done. specialize (H2 j q Hj). unfold entry_ok in *.
    rewrite Hu by lia. done.
Qed.

Lemma table_up tab live i p : table_ok MAX live tab -> tab !! i = Some p -> p_type p <> MAX ->
  Z.of_nat (length live) + 1 < 2 ^ 32 ->
  table_ok MAX (Z.of_nat i :: live) (<[i := mk_plugin (u32 (p_ref p + 1)) (p_type p) (p_reg p)]> tab).
Proof.
  intros HT Hi Hp Hf. pose proof (lookup_lt_Some _ _ _ Hi). pose proof (tb_length _ _ _ HT).
  eapply table_change; [done..| | |constructor; [lia|apply HT]|simpl; lia].
  - intros t Ht. rewrite users_cons. by rewrite (proj2 (Z.eqb_neq _ _)).
  - pose proof (tb_entry _ _ _ HT i p Hi) as He. unfold entry_ok in *. cbn [p_type p_ref].
    rewrite decide_False in * by done. rewrite He.
    rewrite users_cons, Z.eqb_refl, uw_id; [lia|]. pose proof (users_le (Z.of_nat i) live). unfold is_u. lia.
Qed.

Lemma table_down tab live live' i : table_ok MAX live tab -> live ≡ₚ Z.of_nat i :: live' ->
  exists p, tab !! i = Some p /\ p_type p <> MAX /\
    table_ok MAX live' (<[i := mk_plugin (u32 (p_ref p - 1)) (p_type p) (p_reg p)]> tab).
Proof.
  intros HT Hl. assert (Hu : users (Z.of_nat i) live = S (users (Z.of_nat i) live')).
  { by rewrite (users_perm _ _ _ Hl), users_cons, Z.eqb_refl. }
  pose proof (Permutation_length Hl) as Hlen. pose proof (tb_few _ _ _ HT) as Hf. cbn in Hlen.
  pose proof (tb_live _ _ _ HT) as Hfa. rewrite Hl in Hfa. apply Forall_cons in Hfa as [Hi Hfa].
  destruct (lookup_lt_is_Some_2 tab i) as [p Hp]; [pose proof (tb_length _ _ _ HT); lia|].
  pose proof (tb_entry _ _ _ HT i p Hp) as He. unfold entry_ok in He.
  destruct (decide (p_type p = MAX)) as [|Hne]; [lia|]. exists p. split; [done|]. split; [done|].
  eapply table_change; [done..| | |done|lia].
  - intros t Ht. rewrite (users_perm _ _ _ Hl), users_cons. by rewrite (proj2 (Z.eqb_neq _ _)).
  - unfold entry_ok. cbn [p_type p_ref]. rewrite decide_False by done. rewrite He.
    rewrite Hu, uw_id; [lia|]. pose proof (users_le (Z.of_nat i) live). unfold is_u. lia.
Qed.

(** An entry that is set or cleared has no users. *)
Lemma table_set tab live i p p' : table_ok MAX live tab -> tab !! i = Some p ->
  users (Z.of_nat i) live = 0%nat -> p_type p' = MAX \/ p_ref p' = 0 ->
  table_ok MAX live (<[i := p']> tab).
Proof.
  intros HT Hi Hu Hp'. eapply table_change; [done..| |apply HT|apply HT]. unfold entry_ok.
  case_decide; [done|]. rewrite Hu. by destruct Hp' as [| ->].
Qed.

(** A plug-in counts no users exactly when there are none. *)
Lemma table_unused tab live i p : table_ok MAX live tab -> tab !! i = Some p -> p_type p <> MAX ->
  p_ref p = 0 <-> Z.of_nat i ∉ live.
Proof.
  intros HT Hi Hp. pose proof (tb_entry _ _ _ HT i p Hi) as He. unfold entry_ok in He.
  rewrite decide_False in He by done. rewrite He, users_in. lia.
Qed.

Lemma table_free tab live i p : table_ok MAX live tab -> tab !! i = Some p -> p_type p = MAX ->
  Z.of_nat i ∉ live.
Proof.
  intros HT Hi Hp. pose proof (tb_entry _ _ _ HT i p Hi) as He. unfold entry_ok in He.
  rewrite decide_True in He by done. rewrite users_in. lia.
Qed.

(** The types registered once an entry has changed. *)
Lemma registered_insert tab i p p' t : tab !! i = Some p ->
  registered MAX (<[i := p']> tab) t <->
  (t = Z.of_nat i /\ p_type p' <> MAX) \/ (t <> Z.of_nat i /\ registered MAX tab t).
Proof.
  intros Hi. pose proof (lookup_lt_Some _ _ _ Hi) as Hlt. split.
  - intros (j & q & -> & Hj & Hq). destruct (decide (j = i)) as [->|Hne].
    + rewrite list_lookup_insert_eq in Hj by done. simplify_eq. by left.
    + rewrite list_lookup_insert_ne in Hj by done. right. split; [lia|]. by exists j, q.
  - intros [[-> Hp]|[Hne (j & q & -> & Hj & Hq)]].
    + exists i, p'. by rewrite list_lookup_insert_eq.
    + exists j, q. rewrite list_lookup_insert_ne by (intros ->; done). done.
Qed.
End Table.

(** Destroying a list whose first pointer is dangling. *)
Lemma list_destroy_dangling nested h g o node v l : klist_rep h g o ((node, v) :: l) ->
  val_type o = KOBJ_OTHERS -> val_dtor o = None -> v <> NULL -> blocks (omem h) !! v = None ->
  kylin_list_destroy nested g h = Ub.
Proof.
  intros HR Ht Hd Hv Hb. pose proof (rep_addrs _ _ _ _ HR) as Ha. apply Forall_cons in Ha as [[Hn _] _].
  change (node <> NULL) in Hn.
  assert (Hc : forall n, clear_loop nested (S n) g h = Ub).
  { intros n. cbn [clear_loop]. run (guard_at _ _ _ (rep_guard _ _ _ _ HR)). cbn [g_head head_addr g_opts].
    rewrite (proj2 (Z.eqb_neq _ _) Hn). run (rep_val h g o _ node v HR ltac:(left)). apply bind_Ub.
    unfold on_mem, LIST_VAL_FREE. rewrite Ht, Hd. cbn [kmath_val_dtor mem_of st_mem]. unfold kylin_free.
    by rewrite (proj2 (Z.eqb_neq _ _) Hv), Hb. }
  apply bind_Ub. unfold kylin_list_clear. run (eq_refl : get_st h = Ok (h, h)). apply Hc.
Qed.
