(* ===== verification/Loader.v ===== *)
(** * The module loader ([lib/core/kylin_core_module.c])

    A session is a directory and a list of the modules that are loaded; a
    module is a shared object whose symbols say what it depends on: a symbol
    [a_depend_on_b] of the module [a] has [b] loaded before it, into the place
    before it in the list.

    The files and the dynamic linker are arguments; what a call of the linker
    or of a module's own function gives may depend on the calls made so far,
    which the state records.  Names and paths are lists of characters, their
    buffers objects of the heap where the code takes their address.  [exit]
    sets a flag and returns a code with which every caller returns at once. *)

From S2P Require Import Prelude Errors Bytes Mem MathVal KList Plugin Elf.

Definition KYLIN_NAME_LENGTH : nat := 64.
Definition PATH_MAX : nat := 4096.
(** "modules.conf" *)
Definition KYLIN_MODULE_CONFIG_FILE : list Z := [109; 111; 100; 117; 108; 101; 115; 46; 99; 111; 110; 102].

Inductive kmod_action_t := KMOD_ACTION_LOAD | KMOD_ACTION_UNLOAD.

(** ** The system *)
Inductive dlcall :=
| DlOpen (path : list Z) | DlSym (handle : Z) (name : list Z) | DlGet (func : Z)
| DlHandle (module : Z) (action : kmod_action_t) | DlClose (handle : Z).

(** The files that can be opened and mapped, or the error; the handle, the
    function and the module of a name, the result of a module's handler. *)
Record system := mk_system {
  file : list Z -> list Z + kerr_t;
  dl_open : list dlcall -> list Z -> Z;
  dl_sym : list dlcall -> Z -> list Z -> Z;
  dl_get : list dlcall -> Z -> Z;
  dl_handle : list dlcall -> Z -> kmod_action_t -> kerr_t;
}.

Record mst := mk_mst { mheap : KList.st; dlcalls : list dlcall; exited : bool }.

#[export] Instance mst_mem : HasMem mst.
Proof.
  refine {| mem_of s := omem (mheap s);
            with_mem s m := mk_mst (mk_st (guards (mheap s)) m (kerrno (mheap s))) (dlcalls s) (exited s) |};
    try done; by intros [[]].
Defined.

Definition on_list {A} (f : M KList.st A) : M mst A := fun s =>
  match f (mheap s) with
  | Ok (x, h) => Ok (x, mk_mst h (dlcalls s) (exited s))
  | Ub => Ub
  | OutOfFuel => OutOfFuel
  end.
Definition lift {A} (o : outcome A) : M mst A := fun s =>
  match o with Ok a => Ok (a, s) | Ub => Ub | OutOfFuel => OutOfFuel end.
Definition linker {A} (c : dlcall) (f : list dlcall -> A) : M mst A := fun s =>
  Ok (f (dlcalls s), mk_mst (mheap s) (dlcalls s ++ [c]) (exited s)).
(** [exit(1)] *)
Definition exit_process : M mst kerr_t := fun s =>
  Ok (KYLIN_ERROR_INVAL, mk_mst (mheap s) (dlcalls s) true).

(** ** Structures

    [kmod_internal_t]: the name, the count, the handle and the module;
    [struct kylin_module_session]: the path and the list. *)
Definition M_NAME : Z := 0.
Definition M_REFCNT : field := (64, 4).
Definition M_DL_HANDLE : field := (72, 8).
Definition M_MODULE : field := (80, 8).
Definition sizeof_mod : Z := 88.
Definition S_PATH : Z := 0.
Definition S_LIST : field := (4096, 8).
Definition sizeof_session : Z := 4104.
Definition sizeof_ked : Z := 16.

Definition mget (f : field) (a : Z) : M mst Z := on_mem (get_field f a).
Definition mput (f : field) (a v : Z) : M mst unit := on_mem (put_field f a v).

Definition vptr_addr (v : vptr Z) : Z := match v with PObj a => a | PSlot _ => NULL end.

(** [memcmp] of the two names; where one cannot be read the C function is
    undefined and this one gives 1. *)
Fixpoint bytes_cmp (a b : list Z) : Z :=
  match a, b with
  | x :: a, y :: b => if x =? y then bytes_cmp a b else if x <? y then -1 else 1
  | _, _ => 0
  end.
Definition __module_match (m : mem) (m1 m2 : Z) : Z :=
  match load_at m1 M_NAME (Z.of_nat KYLIN_NAME_LENGTH) m, load_at m2 M_NAME (Z.of_nat KYLIN_NAME_LENGTH) m with
  | Ok (a, _), Ok (b, _) => bytes_cmp a b
  | _, _ => 1
  end.

Definition module_opts : klist_opts_t :=
  mk_klist_opts KOBJ_OTHERS sizeof_mod __module_match None None None None (NULL, NULL, 0).

(** [snprintf] into a buffer of [n] bytes. *)
Definition printed (n : nat) (s : list Z) : list Z := take (n - 1) s.
(** [memcpy(dst, src, KYLIN_MIN(strlen(src), n - 1))] into zeroes. *)
Definition clipped (n : nat) (s : list Z) : list Z := take (n - 1) s ++ replicate (n - length (take (n - 1) s)) 0.

Definition dot_so : list Z := [46; 115; 111].
Definition module_suffix : list Z := [95; 109; 111; 100; 117; 108; 101].
Definition depend_on : list Z := [95; 100; 101; 112; 101; 110; 100; 95; 111; 110; 95].

(** The local variables whose address is taken: [kmod_internal_t cmp], and
    [depend] of the [n]-th call before the last. *)
Definition STACK_CMP : Z := 2 ^ 63.
Definition STACK_DEPEND (n : nat) : Z := 2 ^ 63 + 4096 * (Z.of_nat n + 1).
Definition cmp_bytes (name : list Z) : list Z := name ++ replicate 24 0.

Section Loader.
Context (sys : system) (D : decoders) (nested : nested_dtors).

(** "<path of the session>/<name>.so" *)
Definition so_path (session : Z) (name : list Z) : M mst (list Z) :=
  path ← on_mem (load_string session S_PATH); mret (printed PATH_MAX (path ++ 47 :: name ++ dot_so)).

Definition __module_load (session module_load : Z) : M mst kerr_t :=
  name ← on_mem (load_string module_load M_NAME);
  path ← so_path session name;
  handle ← linker (DlOpen path) (fun h => dl_open sys h path);
  if handle =? NULL then mret KYLIN_ERROR_INVAL else
  let func_name := printed 64 (name ++ module_suffix) in
  func ← linker (DlSym handle func_name) (fun h => dl_sym sys h handle func_name);
  if func =? NULL then _ ← linker (DlClose handle) (fun _ => tt); mret KYLIN_ERROR_INVAL else
  _ ← mput M_DL_HANDLE module_load handle;
  module ← linker (DlGet func) (fun h => dl_get sys h func);
  _ ← mput M_MODULE module_load module;
  if module =? NULL then _ ← linker (DlClose handle) (fun _ => tt); mret KYLIN_ERROR_INVAL else
  linker (DlHandle module KMOD_ACTION_LOAD) (fun h => dl_handle sys h module KMOD_ACTION_LOAD).

Definition __module_unload (session module_unload : Z) : M mst kerr_t :=
  module ← mget M_MODULE module_unload;
  if module =? NULL then ub else
  ret ← linker (DlHandle module KMOD_ACTION_UNLOAD) (fun h => dl_handle sys h module KMOD_ACTION_UNLOAD);
  if negb (bool_decide (ret = KYLIN_ERROR_OK)) then mret ret else
  handle ← mget M_DL_HANDLE module_unload;
  _ ← linker (DlClose handle) (fun _ => tt);
  mret ret.

(** A search for a name of 64 bytes. *)
Definition find_module (session : Z) (name : list Z) : M mst Z :=
  list ← mget S_LIST session;
  local STACK_CMP (cmp_bytes name) (v ← on_list (kylin_list_find list STACK_CMP); mret (vptr_addr v)).
Definition find_node (session : Z) (name : list Z) : M mst Z :=
  list ← mget S_LIST session;
  local STACK_CMP (cmp_bytes name) (on_list (kylin_list_find_raw list STACK_CMP)).

(** [name] without its end. *)
Definition __module_exist (session : Z) (name : list Z) : M mst bool :=
  m ← find_module session (clipped KYLIN_NAME_LENGTH name); mret (negb (m =? NULL)).

Definition kylin_module_session_create (path : Z) : M mst Z :=
  session ← on_mem (kylin_malloc sizeof_session);
  if session =? NULL then mret NULL else
  list ← on_list (kylin_list_create module_opts);
  _ ← mput S_LIST session list;
  if list =? NULL then _ ← on_mem (kylin_free session); mret NULL else
  s ← on_mem (load_string path 0);
  _ ← on_mem (store_at session S_PATH (take (PATH_MAX - 1) s));
  mret session.

(** The session itself is not freed. *)
Definition kylin_module_session_destroy (session : Z) : M mst unit :=
  list ← mget S_LIST session;
  if negb (list =? NULL) then on_list (kylin_list_destroy nested list) else mret tt.

(** ** Descriptors of ELF files ([kylin_core_module_elf.c]) *)
Definition kylin_elf_create (filename : list Z) : M mst (Z * list Z) :=
  match file sys filename with
  | inl img => ed ← on_mem (kylin_malloc sizeof_ked); mret (ed, img)
  | inr _ => mret (NULL, [])
  end.
Definition kylin_elf_destroy (ed : Z) : M mst unit := if negb (ed =? NULL) then on_mem (kylin_free ed) else mret tt.

(** ** Loading *)

(** [depend] as the array of 64 bytes [memcpy] fills. *)
Definition depend_array (name base : list Z) : outcome (list Z) :=
  let n := drop (length base) name in
  if (length n <=? KYLIN_NAME_LENGTH)%nat then Ok (n ++ replicate (KYLIN_NAME_LENGTH - length n) 0) else Ub.

(** The entry of a dependency: the one there is, with one more user, or a new
    one before the module that needs it. *)
Definition depend_entry (session mod_name : Z) (depend : list Z) : M mst (kerr_t + Z) :=
  name ← lift (c_chars depend);
  exist ← __module_exist session name;
  if exist : bool then
    mod_depend ← find_module session depend;
    if mod_depend =? NULL then mret (inl KYLIN_ERROR_NOENT) else
    n ← mget M_REFCNT mod_depend; _ ← mput M_REFCNT mod_depend (u32 (n + 1)); mret (inr mod_depend)
  else
    self ← on_mem (load mod_name (Z.of_nat KYLIN_NAME_LENGTH));
    mod_node ← find_node session self;
    if mod_node =? NULL then mret (inl KYLIN_ERROR_INVAL) else
    mod_depend ← on_mem (kylin_malloc sizeof_mod);
    if mod_depend =? NULL then mret (inl KYLIN_ERROR_NOMEM) else
    _ ← on_mem (store_at mod_depend M_NAME depend);
    _ ← mput M_REFCNT mod_depend 1;
    list ← mget S_LIST session;
    v ← on_list (kylin_list_insert_before list mod_node mod_depend);
    if vptr_addr v =? NULL then _ ← on_mem (kylin_free mod_depend); mret (inl KYLIN_ERROR_NOENT)
    else mret (inr mod_depend).

(** The module is loaded when its dependencies are and it has one user. *)
Definition load_once (session m : Z) : M mst kerr_t :=
  n ← mget M_REFCNT m; if n =? 1 then __module_load session m else mret KYLIN_ERROR_OK.

(** The callback on a symbol; [fuel] bounds the depth of the dependencies. *)
Fixpoint __module_depend_process (fuel : nat) (session mod_name : Z) (name : list Z) (value : Z) : M mst kerr_t :=
  match fuel with
  | O => out_of_fuel
  | S fuel =>
      self ← on_mem (load_string mod_name 0);
      let base := printed PATH_MAX (self ++ depend_on) in
      if (length base <? length name)%nat && bool_decide (take (length base) name = base) then
        depend ← lift (depend_array name base);
        e ← depend_entry session mod_name depend;
        match e with
        | inl ret => mret ret
        | inr mod_depend =>
            dep ← lift (c_chars depend);
            path ← so_path session dep;
            '(ed, img) ← kylin_elf_create path;
            if ed =? NULL then mret KYLIN_ERROR_NOENT else
            ret ← local (STACK_DEPEND fuel) depend
                    (kylin_elf_symbol D img (by_name img (__module_depend_process fuel session (STACK_DEPEND fuel))));
            if negb (bool_decide (ret = KYLIN_ERROR_OK)) then exit_process else
            _ ← kylin_elf_destroy ed;
            load_once session mod_depend
        end
      else mret KYLIN_ERROR_OK
  end.

(** [wild] is what the uninitialised [param.mod_name] holds. *)
Definition kylin_module_load (fuel : nat) (wild session : Z) (mod_name : list Z) : M mst kerr_t :=
  exist ← __module_exist session mod_name;
  if exist : bool then mret KYLIN_ERROR_EXIST else
  mod_load ← on_mem (kylin_malloc sizeof_mod);
  if mod_load =? NULL then mret KYLIN_ERROR_NOMEM else
  _ ← on_mem (store_at mod_load M_NAME (take (KYLIN_NAME_LENGTH - 1) mod_name));
  _ ← mput M_REFCNT mod_load 1;
  list ← mget S_LIST session;
  v ← on_list (kylin_list_insert_tail list mod_load);
  if vptr_addr v =? NULL then _ ← on_mem (kylin_free mod_load); mret KYLIN_ERROR_NOENT else
  path ← so_path session mod_name;
  '(ed, img) ← kylin_elf_create path;
  if ed =? NULL then mret KYLIN_ERROR_INVAL else
  _ ← on_mem (store_at wild 0 (take (KYLIN_NAME_LENGTH - 1) mod_name));
  ret ← kylin_elf_symbol D img (by_name img (__module_depend_process fuel session wild));
  if negb (bool_decide (ret = KYLIN_ERROR_OK)) then exit_process else
  _ ← kylin_elf_destroy ed;
  load_once session mod_load.

(** ** The configuration file *)

(** The mapping of a file reads zeroes up to the end of its last page. *)
Definition config_at (config : list Z) (i : nat) : outcome Z :=
  match config !! i with
  | Some c => Ok c
  | None => if (i <? 4096 * ((length config + 4095) / 4096))%nat then Ok 0 else Ub
  end.

(** [while( *end != '\n' && end < ...) end++;] *)
Fixpoint line_end (fuel : nat) (config : list Z) (e : nat) : outcome nat :=
  match fuel with
  | O => OutOfFuel
  | S fuel =>
      c ← config_at config e;
      if negb (c =? 10) && (e <? length config)%nat then line_end fuel config (S e) else Ok e
  end.

(** [strncpy(module_name, begin, n)] into 64 bytes, as a string. *)
Definition config_name (config : list Z) (b n : nat) : outcome (list Z) :=
  if (n <=? KYLIN_NAME_LENGTH)%nat
  then c_chars (take n (drop b config) ++ replicate (KYLIN_NAME_LENGTH - n) 0) else Ub.

(** The loop over the lines; [load] is [kylin_module_load] in this session. *)
Fixpoint config_lines {S} (load : list Z -> M S kerr_t) (fuel : nat) (config : list Z) (b e : nat) : M S kerr_t :=
  match fuel with
  | O => out_of_fuel
  | S fuel => fun s =>
      if (e <? length config)%nat then
        match line_end (Datatypes.S (length config)) config e with
        | Ok e =>
            match config_at config e with
            | Ok c =>
                if (c =? 10) && (length config <=? e)%nat then Ok (KYLIN_ERROR_OK, s) else
                if (b <? e)%nat && (e - b <? PATH_MAX)%nat then
                  match config_name config b (e - b) with
                  | Ok name =>
                      (ret ← load name;
                       if negb (bool_decide (ret = KYLIN_ERROR_OK)) && negb (bool_decide (ret = KYLIN_ERROR_EXIST))
                       then mret ret else config_lines load fuel config (Datatypes.S e) (Datatypes.S e)) s
                  | Ub => Ub
                  | OutOfFuel => OutOfFuel
                  end
                else config_lines load fuel config (Datatypes.S e) (Datatypes.S e) s
            | Ub => Ub
            | OutOfFuel => OutOfFuel
            end
        | Ub => Ub
        | OutOfFuel => OutOfFuel
        end
      else Ok (KYLIN_ERROR_OK, s)
  end.

Definition kylin_module_load_all (fuel : nat) (wild session : Z) : M mst kerr_t :=
  path ← on_mem (load_string session S_PATH);
  match file sys (printed PATH_MAX (path ++ 47 :: KYLIN_MODULE_CONFIG_FILE)) with
  | inr errno => mret errno
  | inl config => config_lines (kylin_module_load fuel wild session) (S (S (length config))) config 0 0
  end.

(** ** Unloading *)
Definition kylin_module_unload (session : Z) (mod_name : list Z) : M mst kerr_t :=
  mod_unload ← find_module session (clipped KYLIN_NAME_LENGTH mod_name);
  if mod_unload =? NULL then mret KYLIN_ERROR_NOENT else
  ret ← __module_unload session mod_unload;
  if negb (bool_decide (ret = KYLIN_ERROR_OK)) then mret ret else
  list ← mget S_LIST session;
  mod_unload ← local STACK_CMP (cmp_bytes (clipped KYLIN_NAME_LENGTH mod_name))
    (v ← on_list (kylin_list_unlink list STACK_CMP); mret (vptr_addr v));
  if mod_unload =? NULL then mret KYLIN_ERROR_NOENT else
  _ ← on_mem (kylin_free mod_unload);
  mret KYLIN_ERROR_OK.

(** [KYLIN_LIST_FOREACH_REVERSE] *)
Fixpoint unload_from (fuel : nat) (session list node : Z) : M mst kerr_t :=
  match fuel with
  | O => out_of_fuel
  | S fuel =>
      if node =? NULL then mret KYLIN_ERROR_OK else
      v ← on_list (kylin_list_val list node);
      let mod_unload := vptr_addr v in
      if mod_unload =? NULL then mret KYLIN_ERROR_INVAL else
      ret ← __module_unload session mod_unload;
      if negb (bool_decide (ret = KYLIN_ERROR_OK)) then mret ret else
      prev ← on_list (kylin_list_prev node);
      unload_from fuel session list prev
  end.

Definition kylin_module_unload_all (session : Z) : M mst kerr_t :=
  list ← mget S_LIST session;
  node ← on_list (kylin_list_last list);
  s ← get_st;
  ret ← unload_from (fuel_of (mheap s)) session list node;
  if negb (bool_decide (ret = KYLIN_ERROR_OK)) then mret ret else
  list ← mget S_LIST session;
  _ ← on_list (kylin_list_destroy nested list);
  mret KYLIN_ERROR_OK.

Definition kylin_module_count (session : Z) : M mst Z := list ← mget S_LIST session; on_list (kylin_list_count list).
Definition kylin_module_dump (session : Z) : unit := tt.
Definition module_init : kerr_t := KYLIN_ERROR_OK.
Definition module_fini : unit := tt.
End Loader.

(** ** The configuration file names the modules, a line each *)

(** Loading one after the other, until a load fails. *)
Fixpoint load_each {S} (load : list Z -> M S kerr_t) (names : list (list Z)) : M S kerr_t :=
  match names with
  | [] => mret KYLIN_ERROR_OK
  | name :: names =>
      ret ← load name;
      if negb (bool_decide (ret = KYLIN_ERROR_OK)) && negb (bool_decide (ret = KYLIN_ERROR_EXIST))
      then mret ret else load_each load names
  end.

Definition line_ok (l : list Z) : Prop := Forall (fun c => c <> 0 /\ c <> 10) l /\ (length l < KYLIN_NAME_LENGTH)%nat.
(** The lines, each ended, and what follows the last end. *)
Definition config_text (ls : list (list Z)) (last : list Z) : list Z := concat (map (fun l => l ++ [10]) ls) ++ last.
Definition named (ls : list (list Z)) : list (list Z) := List.filter (fun l => negb (bool_decide (l = []))) ls.

Lemma config_at_in pre c rest : config_at (pre ++ c :: rest) (length pre) = Ok c.
Proof. unfold config_at. by rewrite list_lookup_middle. Qed.

Lemma line_end_ok l : Forall (fun c => c <> 0 /\ c <> 10) l -> forall pre c rest fuel,
  (length l < fuel)%nat -> c = 10 -> line_end fuel (pre ++ l ++ c :: rest) (length pre) = Ok (length pre + length l)%nat.
Proof.
  induction 1 as [|x l [_ Hx] _ IH]; intros pre c rest fuel Hf Hc; (destruct fuel as [|fuel]; [simpl in Hf; lia|]); simpl.
  - rewrite config_at_in. subst c. simpl. f_equal. lia.
  - rewrite config_at_in. simpl mbind. rewrite (proj2 (Z.eqb_neq _ _) Hx), (proj2 (Nat.ltb_lt _ _)) by (rewrite length_app; simpl; lia).
    simpl. specialize (IH (pre ++ [x]) c rest fuel). rewrite <- app_assoc, length_app in IH. simpl in IH.
    replace (length pre + 1)%nat with (S (length pre)) in IH by lia. rewrite IH; [f_equal; lia|simpl in Hf; lia|done].
Qed.

Lemma line_end_last l : Forall (fun c => c <> 0 /\ c <> 10) l -> forall pre fuel,
  (length l < fuel)%nat -> Z.of_nat (length (pre ++ l)) mod 4096 <> 0 ->
  line_end fuel (pre ++ l) (length pre) = Ok (length pre + length l)%nat /\
  config_at (pre ++ l) (length pre + length l) = Ok 0.
Proof.
  induction 1 as [|x l [_ Hx] _ IH]; intros pre fuel Hf Hm; (destruct fuel as [|fuel]; [simpl in Hf; lia|]).
  - assert (E : config_at (pre ++ []) (length pre) = Ok 0).
    { unfold config_at. rewrite app_nil_r in *. rewrite lookup_ge_None_2 by done.
      rewrite (proj2 (Nat.ltb_lt _ _)); [done|]. pose proof (Nat.div_mod (length pre + 4095) 4096 ltac:(lia)).
      pose proof (Nat.mod_upper_bound (length pre + 4095) 4096 ltac:(lia)).
      pose proof (Z.div_mod (Z.of_nat (length pre)) 4096 ltac:(lia)).
      pose proof (Z.mod_pos_bound (Z.of_nat (length pre)) 4096 ltac:(lia)). nia. }
    simpl. rewrite E, Nat.add_0_r. simpl. rewrite app_nil_r, Nat.ltb_irrefl. rewrite app_nil_r in E. by rewrite E.
  - simpl. rewrite config_at_in. simpl mbind.
    rewrite (proj2 (Z.eqb_neq _ _) Hx), (proj2 (Nat.ltb_lt _ _)) by (rewrite length_app; simpl; lia). simpl.
    specialize (IH (pre ++ [x]) fuel). rewrite <- app_assoc, !length_app in IH. simpl in IH.
    replace (length pre + 1)%nat with (S (length pre)) in IH by lia. simpl in Hf.
    destruct IH as [I1 I2]; [lia|intros Hz; apply Hm; rewrite <- Hz; rewrite ?length_app; simpl; f_equal; lia|]. rewrite I1. split; [f_equal; lia|]. rewrite <- I2. f_equal. lia.
Qed.

Lemma c_chars_ok l rest : Forall (fun c => c <> 0 /\ c <> 10) l -> c_chars (l ++ 0 :: rest) = Ok l.
Proof.
  induction 1 as [|x l [Hx _] _ IH]; [done|]. simpl. by rewrite (proj2 (Z.eqb_neq _ _) Hx), IH.
Qed.

Lemma config_name_ok pre l rest : line_ok l -> config_name (pre ++ l ++ rest) (length pre) (length l) = Ok l.
Proof.
  intros [H1 H2]. unfold config_name. rewrite (proj2 (Nat.leb_le _ _)) by lia.
  rewrite drop_app_length, take_app_length.
  replace (KYLIN_NAME_LENGTH - length l)%nat with (S (KYLIN_NAME_LENGTH - length l - 1)) by lia.
  by apply c_chars_ok.
Qed.

Section ConfigLines.
Context {S : Type} (load : list Z -> M S kerr_t).

Lemma config_lines_ok last ls : line_ok last -> Forall line_ok ls -> forall pre fuel s,
  (length ls + 1 < fuel)%nat ->
  (last = [] \/ Z.of_nat (length (pre ++ config_text ls last)) mod 4096 <> 0) ->
  config_lines load fuel (pre ++ config_text ls last) (length pre) (length pre) s =
  load_each load (named (ls ++ [last])) s.
Proof.
  intros Hlast. induction 1 as [|l ls Hl Hls IH]; intros pre fuel s Hf Hm; (destruct fuel as [|fuel]; [simpl in Hf; lia|]).
  - change (config_text [] last) with last in *. change (named ([] ++ [last])) with (named [last]).
    destruct last as [|x l].
    + rewrite app_nil_r. cbn [config_lines]. by rewrite Nat.ltb_irrefl.
    + destruct Hm as [|Hm]; [done|]. cbn [config_lines].
      rewrite (proj2 (Nat.ltb_lt _ _)) by (rewrite length_app; simpl; lia).
      destruct (line_end_last (x :: l) (proj1 Hlast) pre (Datatypes.S (length (pre ++ x :: l)))) as [E1 E2];
        [rewrite length_app; lia|done|].
      rewrite E1, E2. cbn [Z.eqb andb]. rewrite (proj2 (Nat.ltb_lt _ _)) by (simpl; lia).
      rewrite (proj2 (Nat.ltb_lt (_ - _) _)) by (destruct Hlast as [_ Hl]; unfold KYLIN_NAME_LENGTH, PATH_MAX in *; simpl in *; lia).
      cbn [andb]. replace (length pre + length (x :: l) - length pre)%nat with (length (x :: l)) by lia.
      pose proof (config_name_ok pre (x :: l) [] Hlast) as En. rewrite app_nil_r in En. rewrite En.
      cbn [named List.filter]. rewrite bool_decide_eq_false_2 by done. cbn [negb load_each].
      unfold mbind, M_bind. destruct (load (x :: l) s) as [[ret s']| |]; [|done..].
      destruct (_ && _); [done|]. destruct fuel as [|fuel]; [simpl in Hf; lia|]. cbn [config_lines].
      by rewrite (proj2 (Nat.ltb_ge _ _)) by (rewrite length_app; lia).
  - unfold config_text. cbn [map concat config_lines]. rewrite <- !app_assoc. cbn [app].
    fold (config_text ls last).
    set (config := pre ++ l ++ 10 :: config_text ls last).
    rewrite (proj2 (Nat.ltb_lt _ _)) by (unfold config; rewrite !length_app; simpl; lia).
    assert (El : line_end (Datatypes.S (length config)) config (length pre) = Ok (length pre + length l)%nat).
    { unfold config. apply line_end_ok; [apply Hl|rewrite !length_app; simpl; lia|done]. }
    rewrite El.
    assert (Ea : config_at config (length pre + length l) = Ok 10).
    { unfold config. rewrite app_assoc, <- length_app. apply config_at_in. }
    rewrite Ea, Z.eqb_refl. rewrite (proj2 (Nat.leb_gt _ _)) by (unfold config; rewrite !length_app; simpl; lia).
    cbn [andb].
    assert (IH' : forall s, config_lines load fuel config (Datatypes.S (length pre + length l)) (Datatypes.S (length pre + length l)) s
      = load_each load (named (ls ++ [last])) s).
    { intros s'. unfold config. specialize (IH (pre ++ l ++ [10]) fuel s'). rewrite <- !app_assoc, !length_app in IH. simpl in IH.
      replace (length pre + (length l + 1))%nat with (Datatypes.S (length pre + length l)) in IH by lia.
      apply IH; [simpl in Hf; lia|]. destruct Hm as [?|Hm]; [by left|right]. intros Hz. apply Hm. rewrite <- Hz. f_equal.
      unfold config_text. cbn [map concat]. rewrite !length_app. simpl. lia. }
    destruct l as [|x l].
    + simpl length. rewrite Nat.add_0_r, Nat.ltb_irrefl. cbn [andb]. simpl length in IH'. rewrite Nat.add_0_r in IH'. apply IH'.
    + rewrite (proj2 (Nat.ltb_lt _ _)) by (simpl; lia).
      rewrite (proj2 (Nat.ltb_lt (_ - _) _)) by (destruct Hl as [_ Hl]; unfold KYLIN_NAME_LENGTH, PATH_MAX in *; simpl in *; lia).
      cbn [andb]. replace (length pre + length (x :: l) - length pre)%nat with (length (x :: l)) by lia.
      assert (En : config_name config (length pre) (length (x :: l)) = Ok (x :: l)) by (by apply config_name_ok). rewrite En. cbn [app named List.filter]. rewrite bool_decide_eq_false_2 by done.
      cbn [negb load_each]. unfold mbind, M_bind. destruct (load (x :: l) s) as [[ret s']| |]; [|done..].
      destruct (_ && _); [done|]. apply IH'.
Qed.
End ConfigLines.

Lemma length_lines ls last : (length ls <= length (config_text ls last))%nat.
Proof.
  unfold config_text. rewrite length_app. enough (length ls <= length (concat (map (fun l => l ++ [10%Z]) ls)))%nat by lia.
  induction ls as [|l ls IH]; [done|]. cbn [map concat]. rewrite !length_app. simpl. lia.
Qed.

(** C11. [kylin_module_load_all] loads the modules the configuration file
    names, a line each: blank lines are passed over, the last line may lack its
    end, a module that is loaded already is no error, and the first other error
    ends the reading and is returned.  (A line holds less than 64 characters;
    a file without an end on its last line must not fill its last page.) *)
Theorem module_load_all_reads_lines sys D fuel wild session ls last path s :
  on_mem (load_string session S_PATH) s = Ok (path, s) ->
  file sys (printed PATH_MAX (path ++ 47 :: KYLIN_MODULE_CONFIG_FILE)) = inl (config_text ls last) ->
  line_ok last -> Forall line_ok ls ->
  last = [] \/ Z.of_nat (length (config_text ls last)) mod 4096 <> 0 ->
  kylin_module_load_all sys D fuel wild session s =
  load_each (kylin_module_load sys D fuel wild session) (named (ls ++ [last])) s.
Proof.
  intros Ep Ef Hl Hls Hm. unfold kylin_module_load_all. run Ep. rewrite Ef.
  apply (config_lines_ok (kylin_module_load sys D fuel wild session) last ls Hl Hls [] _ s); [|exact Hm].
  pose proof (length_lines ls last). simpl. lia.
Qed.

(** ** What loading leaves dead

    Objects are only made at new addresses. *)
Definition buried (m m' : mem) : Prop :=
  brk m < 2 ^ 63 ->
  brk m <= brk m' < 2 ^ 63 /\ forall a, a < brk m -> blocks m !! a = None -> blocks m' !! a = None.

Lemma buried_refl m : buried m m.
Proof. by split. Qed.
Lemma buried_trans m1 m2 m3 : buried m1 m2 -> buried m2 m3 -> buried m1 m3.
Proof.
  intros A B Hm. destruct (A Hm) as [A1 A2]. destruct (B ltac:(lia)) as [B1 B2]. split; [lia|].
  intros a Ha H. apply B2; [lia|]. by apply A2.
Qed.

Definition digs {S} `{HasMem S} {A} (f : M S A) : Prop := forall s r s', f s = Ok (r, s') -> buried (mem_of s) (mem_of s').

Section Digs.
Context {S : Type} `{HasMem S}.

Lemma digs_ret {A} (x : A) : digs (mret x).
Proof. intros s r s' [= _ <-]. apply buried_refl. Qed.
Lemma digs_bind {A B} (f : M S A) (g : A -> M S B) : digs f -> (forall x, digs (g x)) -> digs (f ≫= g).
Proof. intros Hf Hg s r s' E. apply bind_Ok_inv in E as (x & s1 & E1 & E2). eapply buried_trans; [by eapply Hf|by eapply Hg]. Qed.
Lemma digs_on_mem {A} (f : M mem A) : (forall m x m', f m = Ok (x, m') -> buried m m') -> digs (on_mem f).
Proof.
  intros Hf s r s' E. unfold on_mem in E. destruct (f (mem_of s)) as [[x m]| |] eqn:Ef; [|done..].
  injection E as _ <-. rewrite mem_of_with. by eapply Hf.
Qed.

Lemma buried_write m a bs bs' : blocks m !! a = Some bs -> buried m (mk_mem (<[a := bs']> (blocks m)) (brk m) (oom m)).
Proof. intros Ha Hm. split; [done|]. simpl. intros b _ Hb. rewrite lookup_insert_ne; [done|]. intros ->. congruence. Qed.

Lemma digs_store a off bs : digs (on_mem (store_at a off bs)).
Proof.
  apply digs_on_mem. intros m x m'. unfold store_at. destruct (blocks m !! a) eqn:Ea; [|done].
  destruct (write_bytes _ _ _); [|done..]. intros [= _ <-]. by eapply buried_write.
Qed.
Lemma digs_put f a v : digs (on_mem (put_field f a v)).
Proof. apply digs_store. Qed.
Lemma digs_word a i v : digs (on_mem (write_word a i v)).
Proof.
  apply digs_on_mem. intros m x m'. unfold write_word. destruct (blocks m !! a) eqn:Ea; [|done].
  destruct (write_bytes _ _ _); [|done..]. intros [= _ <-]. by eapply buried_write.
Qed.
Lemma digs_malloc n : digs (on_mem (kylin_malloc n)).
Proof.
  apply digs_on_mem. intros m x m'. unfold kylin_malloc, alloc_addr.
  assert (H1 : forall o, brk m + Z.max 16 n < 2 ^ 63 ->
    buried m (mk_mem (<[brk m := replicate (Z.to_nat n) 0]> (blocks m)) (brk m + Z.max 16 n) o)).
  { intros o Hlt Hm. split; [simpl; lia|]. simpl. intros a Ha Hn. rewrite lookup_insert_ne; [done|lia]. }
  assert (H2 : forall o, buried m (mk_mem (blocks m) (brk m) o)) by (by split).
  destruct (oom m) as [|[] o]; [| intros [= _ <-]; auto|]; destruct (Z.ltb_spec (brk m + Z.max 16 n) (2 ^ 63));
    intros [= _ <-]; auto.
Qed.
(** Reads. *)
Lemma digs_same {A} (f : M mem A) : (forall m x m', f m = Ok (x, m') -> m' = m) -> digs (on_mem f).
Proof. intros Hf. apply digs_on_mem. intros m x m' E. rewrite (Hf _ _ _ E). apply buried_refl. Qed.
Lemma digs_load a off n : digs (on_mem (load_at a off n)).
Proof. apply digs_same. intros m x m'. unfold load_at. destruct (blocks m !! a); [|done]. destruct (read_bytes _ _ _); [|done..]. by intros [= _ <-]. Qed.
Lemma digs_get f a : digs (on_mem (get_field f a)).
Proof.
  apply digs_same. intros m x m' E. apply bind_Ok_inv in E as (bs & m1 & E1 & E). injection E as _ <-. revert E1.
  unfold load_at. destruct (blocks m !! a); [|done]. destruct (read_bytes _ _ _); [|done..]. by intros [= _ <-].
Qed.
Lemma digs_string a off : digs (on_mem (load_string a off)).
Proof. apply digs_same. intros m x m'. unfold load_string. destruct (blocks m !! a); [|done]. destruct (c_chars _); [|done..]. by intros [= _ <-]. Qed.
Lemma digs_read a i : digs (on_mem (read_word a i)).
Proof. apply digs_same. intros m x m'. unfold read_word. destruct (blocks m !! a); [|done]. destruct (read_bytes _ _ _); [|done..]. by intros [= _ <-]. Qed.
Lemma digs_free a : digs (on_mem (kylin_free a)).
Proof.
  apply digs_on_mem. intros m x m'. unfold kylin_free. destruct (a =? NULL); [intros [= _ <-]; apply buried_refl|].
  destruct (blocks m !! a); [|done]. intros [= _ <-] Hm. split; [done|]. simpl. intros b _ Hb.
  apply lookup_delete_None. by right.
Qed.
Lemma digs_out_of_fuel {A} : digs (@out_of_fuel S A).
Proof. by intros s r s' E. Qed.
Lemma digs_get_st : digs (get_st (S := S)).
Proof. intros s r s' [= _ <-]. apply buried_refl. Qed.
(** A local variable above the heap. *)
Lemma digs_local {A} a bs (f : M S A) : digs f -> 2 ^ 63 <= a -> digs (local a bs f).
Proof.
  intros Hf Ha s r s' E. unfold local in E. destruct (f _) as [[x s1]| |] eqn:Ef; [|done..]. injection E as _ <-.
  apply Hf in Ef. rewrite mem_of_with in *. intros Hm. destruct (Ef Hm) as [B1 B2]. split; [done|]. simpl in *.
  intros b Hb Hn. apply lookup_delete_None. right. apply B2; [done|]. rewrite lookup_insert_ne; [done|]. lia.
Qed.
End Digs.

Create HintDb digs.
#[export] Hint Resolve digs_ret digs_store digs_put digs_word digs_malloc digs_load digs_get digs_string digs_read
  digs_free digs_out_of_fuel digs_get_st : digs.

Ltac digs :=
  cbv zeta;
  repeat first
    [ solve [auto with digs]
    | apply digs_bind; [|intros ?]
    | match goal with |- digs (if ?b then _ else _) => destruct b end
    | match goal with |- digs (match ?x with _ => _ end) => destruct x end ].

(** The list functions the loader calls. *)
Lemma digs_guard g : digs (guard g).
Proof. intros s r s' E. unfold guard in E. destruct (guards s !! g); [|done]. injection E as _ <-. apply buried_refl. Qed.
Lemma digs_put_guard g l : digs (put_guard g l).
Proof. intros s r s' [= _ <-]. apply buried_refl. Qed.
Lemma digs_kerrno e : digs (KList.set_kerrno e).
Proof. intros s r s' [= _ <-]. apply buried_refl. Qed.
#[export] Hint Resolve digs_guard digs_put_guard digs_kerrno : digs.

Lemma digs_find_from fuel o key tmp : digs (find_from fuel o key tmp).
Proof. revert tmp. induction fuel as [|fuel IH]; intros tmp; simpl; unfold LIST_VAL, LIST_NEXT; digs. Qed.
#[export] Hint Resolve digs_find_from : digs.
Lemma digs_find g key : digs (kylin_list_find g key).
Proof. unfold kylin_list_find, kylin_list_find_raw, get_ptr, LIST_VAL. digs. Qed.
Lemma digs_insert_tail g val L s r s' : guards s !! g = Some L -> obj_list (g_opts L) ->
  kylin_list_insert_tail g val s = Ok (r, s') -> buried (omem s) (omem s').
Proof.
  intros Hg [Ht Hc Hnc _] E. unfold kylin_list_insert_tail, insert_with in E.
  apply bind_Ok_inv in E as (L' & s1 & E1 & E). unfold guard in E1. rewrite Hg in E1. injection E1 as <- <-.
  revert E. unfold LIST_NODE_MALLOC. rewrite Hnc.
  assert (Hd : digs (node ← on_mem (kylin_malloc sizeof_node);
    if node =? NULL then _ ← KList.set_kerrno KYLIN_ERROR_NOMEM; mret (PObj NULL) else
    v ← on_mem (kmath_val_ctor val (val_type (g_opts L)) (val_size (g_opts L)) (val_ctor (g_opts L)));
    _ ← set_VAL node v;
    _ ← kylin_list_insert_tail_raw g node;
    get_ptr (g_opts L) node)); [|by intros E; apply Hd in E].
  rewrite Ht, Hc. unfold kmath_val_ctor, set_VAL, kylin_list_insert_tail_raw, set_TAIL, set_HEAD, set_NEXT, set_PREV,
    count_up, set_COUNT, get_ptr, LIST_VAL.
  apply digs_bind; [digs|]. intros node. destruct (node =? NULL); [digs|].
  apply digs_bind; [apply digs_same; by intros m x m' [= _ <-]|]. intros v. digs.
Qed.

Section Loads.
Context (sys : system) (D : decoders).

Lemma digs_on_list {A} (f : M KList.st A) : digs f -> digs (on_list f).
Proof.
  intros Hf s r s' E. unfold on_list in E. destruct (f (mheap s)) as [[x h]| |] eqn:Ef; [|done..].
  injection E as _ <-. by apply Hf in Ef.
Qed.

Lemma digs_find_module session name : digs (find_module session name).
Proof.
  unfold find_module. apply digs_bind; [apply digs_get|]. intros list. apply digs_local; [|done].
  apply digs_bind; [apply digs_on_list, digs_find|intros v; apply digs_ret].
Qed.

(** What a step does to the linker and the list headers: nothing. *)
Definition aside (s s' : mst) : Prop :=
  dlcalls s' = dlcalls s /\ exited s' = exited s /\ guards (mheap s') = guards (mheap s) /\ buried (mem_of s) (mem_of s').

Lemma aside_trans s1 s2 s3 : aside s1 s2 -> aside s2 s3 -> aside s1 s3.
Proof. intros (A1 & A2 & A3 & A4) (B1 & B2 & B3 & B4). split_and!; try congruence. by eapply buried_trans. Qed.

Lemma aside_mem {A} (f : M mem A) s r s' : digs (S := mst) (on_mem f) -> on_mem f s = Ok (r, s') -> aside s s'.
Proof.
  intros Hf E. pose proof (Hf _ _ _ E) as B. unfold on_mem in E. destruct (f _) as [[x m]| |]; [|done..].
  injection E as _ <-. by split_and!.
Qed.

Lemma list_find_same g key s r s' : kylin_list_find g key s = Ok (r, s') -> s' = s.
Proof.
  assert (Hg : forall L s', guard g s = Ok (L, s') -> s' = s).
  { intros L s1. unfold guard. destruct (guards s !! g); [|done]. by intros [= _ <-]. }
  assert (Hf : forall fuel o tmp r s', find_from fuel o key tmp s = Ok (r, s') -> s' = s).
  { induction fuel as [|fuel IH]; intros o tmp x s1 E; [done|]. cbn [find_from] in E.
    destruct (tmp =? NULL); [by injection E|].
    apply bind_Ok_inv in E as (v & s2 & E1 & E). apply read_word_same in E1 as ->.
    apply bind_Ok_inv in E as (s2 & s3 & E1 & E). injection E1 as <- <-.
    destruct (_ =? 0); [by injection E|].
    apply bind_Ok_inv in E as (n & s2 & E1 & E). apply read_word_same in E1 as ->. by eapply IH. }
  intros E. unfold kylin_list_find in E. apply bind_Ok_inv in E as (L & s1 & E1 & E). apply Hg in E1 as ->.
  apply bind_Ok_inv in E as (node & s1 & E1 & E). unfold kylin_list_find_raw in E1.
  apply bind_Ok_inv in E1 as (L' & s2 & E2 & E1). apply Hg in E2 as ->.
  apply bind_Ok_inv in E1 as (s2 & s3 & E2 & E1). injection E2 as <- <-. apply Hf in E1 as ->.
  destruct (node =? NULL); [by injection E|]. unfold get_ptr in E.
  apply bind_Ok_inv in E as (v & s1 & E1 & E). apply read_word_same in E1 as ->. by injection E.
Qed.

Lemma aside_find session name s r s' : find_module session name s = Ok (r, s') -> aside s s'.
Proof.
  intros E. pose proof (digs_find_module _ _ _ _ _ E) as B. unfold find_module in E.
  apply bind_Ok_inv in E as (list & s1 & E1 & E). apply (aside_mem _ _ _ _ (digs_get _ _)) in E1 as (A1 & A2 & A3 & _).
  unfold local in E. match type of E with match ?f with _ => _ end = _ => destruct f as [[x s2]| |] eqn:E2 end; [|done..]. injection E as _ <-.
  apply bind_Ok_inv in E2 as (v & s3 & E2 & E3). injection E3 as _ <-. unfold on_list in E2.
  destruct (kylin_list_find _ _ _) as [[y h]| |] eqn:Ef; [|done..]. injection E2 as _ <-. apply list_find_same in Ef as ->.
  by split_and!.
Qed.
Lemma aside_exist session name s r s' : __module_exist session name s = Ok (r, s') -> aside s s'.
Proof.
  intros E. unfold __module_exist in E. apply bind_Ok_inv in E as (m & s1 & E1 & E). injection E as _ <-.
  by eapply aside_find.
Qed.

(** The insertion of the new module: all lists of the heap are lists of
    modules. *)
Lemma aside_insert list m s r s' : (forall L, guards (mheap s) !! list = Some L -> obj_list (g_opts L)) ->
  on_list (kylin_list_insert_tail list m) s = Ok (r, s') ->
  dlcalls s' = dlcalls s /\ buried (mem_of s) (mem_of s').
Proof.
  intros Ho E. unfold on_list in E. destruct (kylin_list_insert_tail _ _ _) as [[x h]| |] eqn:Ei; [|done..].
  injection E as _ <-. split; [done|]. destruct (guards (mheap s) !! list) as [L|] eqn:HL.
  - by apply (digs_insert_tail _ _ _ _ _ _ HL (Ho _ eq_refl)) in Ei.
  - apply bind_Ok_inv in Ei as (L & s1 & E1 & _). unfold guard in E1. by rewrite HL in E1.
Qed.

Lemma buried_path session name s r s' : so_path session name s = Ok (r, s') -> aside s s'.
Proof.
  intros E. unfold so_path in E. apply bind_Ok_inv in E as (p & s1 & E1 & E). injection E as _ <-.
  by eapply aside_mem, E1; auto with digs.
Qed.

Lemma buried_elf name s ed img s' : kylin_elf_create sys name s = Ok ((ed, img), s') ->
  dlcalls s' = dlcalls s /\ buried (mem_of s) (mem_of s').
Proof.
  unfold kylin_elf_create. destruct (file sys name) as [img'|]; [|intros [= _ _ <-]; split; [done|apply buried_refl]].
  intros E. apply bind_Ok_inv in E as (a & s1 & E1 & E). injection E as _ _ <-.
  apply (aside_mem _ _ _ _ (digs_malloc _)) in E1 as (A1 & _ & _ & A4). done.
Qed.
End Loads.

(** C12. [kylin_module_load] copies the name of the module through a pointer it
    never set, [param.mod_name].  Whenever what the pointer happens to hold
    ([wild]) is not the address of an object, the function returns only before
    that point, with an error, and has called neither the linker nor any module.
    (Where it holds the address of an object by chance, the copy overwrites that
    and the loading goes on: [dependency_loaded_first].) *)
Theorem module_load_never_loads sys D fuel wild session name s r s' :
  brk (mem_of s) < 2 ^ 63 -> wild < brk (mem_of s) -> blocks (mem_of s) !! wild = None ->
  (forall list L, guards (mheap s) !! list = Some L -> obj_list (g_opts L)) ->
  kylin_module_load sys D fuel wild session name s = Ok (r, s') ->
  r ∈ [KYLIN_ERROR_EXIST; KYLIN_ERROR_NOMEM; KYLIN_ERROR_NOENT; KYLIN_ERROR_INVAL] /\ dlcalls s' = dlcalls s.
Proof.
  intros Hb Hw Hn Ho E. unfold kylin_module_load in E.
  apply bind_Ok_inv in E as (ex & s1 & E1 & E). pose proof (aside_exist _ _ _ _ _ E1) as A1.
  destruct ex; [injection E as <- <-; split; [set_solver|apply A1]|].
  apply bind_Ok_inv in E as (m & s2 & E2 & E). pose proof (aside_trans _ _ _ A1 (aside_mem _ _ _ _ (digs_malloc _) E2)) as A2.
  destruct (m =? NULL); [injection E as <- <-; split; [set_solver|apply A2]|].
  apply bind_Ok_inv in E as (u & s3 & E3 & E). pose proof (aside_trans _ _ _ A2 (aside_mem _ _ _ _ (digs_store _ _ _) E3)) as A3.
  apply bind_Ok_inv in E as (u' & s4 & E4 & E). pose proof (aside_trans _ _ _ A3 (aside_mem _ _ _ _ (digs_put _ _ _) E4)) as A4.
  apply bind_Ok_inv in E as (list & s5 & E5 & E). pose proof (aside_trans _ _ _ A4 (aside_mem _ _ _ _ (digs_get _ _) E5)) as A5.
  destruct A5 as (D5 & _ & G5 & B5). clear E1 E2 E3 E4 E5 A1 A2 A3 A4.
  apply bind_Ok_inv in E as (v & s6 & E6 & E).
  apply aside_insert in E6 as [D6 B6]; [|intros L HL; rewrite G5 in HL; by eapply Ho].
  pose proof (buried_trans _ _ _ B5 B6) as B. rewrite D5 in D6. clear B5 B6 G5 D5.
  destruct (vptr_addr v =? NULL).
  { apply bind_Ok_inv in E as (u1 & s7 & E7 & E). injection E as <- <-. split; [set_solver|].
    rewrite <- D6. by apply (aside_mem _ _ _ _ (digs_free _)) in E7 as (? & _). }
  apply bind_Ok_inv in E as (path & s7 & E7 & E). apply buried_path in E7 as (D7 & _ & _ & B7).
  apply bind_Ok_inv in E as ([ed img] & s8 & E8 & E). apply buried_elf in E8 as [D8 B8].
  pose proof (buried_trans _ _ _ B (buried_trans _ _ _ B7 B8)) as B'.
  destruct (ed =? NULL); [injection E as <- <-; split; [set_solver|congruence]|].
  apply bind_Ok_inv in E as (u1 & s9 & E9 & _). destruct (B' Hb) as [_ Bw]. specialize (Bw wild Hw Hn).
  unfold on_mem, store_at in E9. by rewrite Bw in E9.
Qed.

(** ** A session

    Two modules on the disk, [a] with the symbol [a_depend_on_b], and [b]. *)
Definition sample_a : list elf_sym := [mk_sym ([97] ++ depend_on ++ [98]) 4096 16 18 1].
Definition sample_b : list elf_sym := [mk_sym [102] 4096 16 18 1].
Definition sample_file (path : list Z) : list Z + kerr_t :=
  if bool_decide (path = [112; 47; 97] ++ dot_so) then inl (elf_file true false sample_a)
  else if bool_decide (path = [112; 47; 98] ++ dot_so) then inl (elf_file true false sample_b)
  else if bool_decide (path = [112; 47] ++ KYLIN_MODULE_CONFIG_FILE) then inl (config_text [[122]; []] [97])
  else inr KYLIN_ERROR_NOENT.
Definition sample_sys : system :=
  mk_system sample_file (fun h _ => 900 + Z.of_nat (length h)) (fun _ h _ => h + 1000) (fun _ f => f + 1000)
    (fun _ _ _ => KYLIN_ERROR_OK).
Definition sample_nested : nested_dtors := mk_nested_dtors (fun _ => ub) (fun _ => ub) (fun _ => ub).
Definition sample_list : Z := 2000.
Definition sample_session : Z := 256.
Definition sample_buffer : Z := 64.
Definition sample_mst : mst :=
  mk_mst (mk_st {[sample_list := mk_klist NULL NULL module_opts 0]}
    (mk_mem {[sample_buffer := replicate 64 0; sample_session := [112] ++ replicate 4095 0 ++ le_bytes 8 sample_list]} 8192 []) None)
    [] false.

(** A buffer where the uninitialised pointer points, by luck: the dependency is
    loaded first, and the list has it first. *)
Lemma dependency_loaded_first :
  match kylin_module_load sample_sys std_decoders 3 sample_buffer sample_session [97] sample_mst with
  | Ok (r, s) =>
      r = KYLIN_ERROR_OK /\ exited s = false /\
      dlcalls s =
        [DlOpen ([112; 47; 98] ++ dot_so); DlSym 900 ([98] ++ module_suffix); DlGet 1900; DlHandle 2900 KMOD_ACTION_LOAD;
         DlOpen ([112; 47; 97] ++ dot_so); DlSym 904 ([97] ++ module_suffix); DlGet 1904; DlHandle 2904 KMOD_ACTION_LOAD]
  | _ => False
  end.
Proof. vm_compute. by split. Qed.

Lemma module_load_all_reads_lines_witness :
  kylin_module_load_all sample_sys std_decoders 3 sample_buffer sample_session sample_mst =
  load_each (kylin_module_load sample_sys std_decoders 3 sample_buffer sample_session) [[122]; [97]] sample_mst.
Proof.
  apply (module_load_all_reads_lines sample_sys std_decoders 3 sample_buffer sample_session [[122]; []] [97] [112] sample_mst).
  - vm_compute. reflexivity.
  - reflexivity.
  - split; [repeat constructor; discriminate|unfold KYLIN_NAME_LENGTH; simpl; lia].
  - repeat constructor; try discriminate; unfold KYLIN_NAME_LENGTH; simpl; lia.
  - right. discriminate.
Defined.

Lemma module_load_never_loads_witness :
  match kylin_module_load sample_sys std_decoders 3 32 sample_session [122] sample_mst with
  | Ok (r, s) => r = KYLIN_ERROR_INVAL /\ dlcalls s = []
  | _ => False
  end.
Proof.
  assert (E : exists s, kylin_module_load sample_sys std_decoders 3 32 sample_session [122] sample_mst = Ok (KYLIN_ERROR_INVAL, s))
    by (eexists; vm_compute; reflexivity).
  destruct E as [s E]. rewrite E. split; [reflexivity|].
  destruct (module_load_never_loads sample_sys std_decoders 3 32 sample_session [122] sample_mst KYLIN_ERROR_INVAL s)
    as [_ H]; [vm_compute; reflexivity|vm_compute; reflexivity|vm_compute; reflexivity| |exact E|exact H].
  intros list L HL. cbn [guards mheap sample_mst] in HL. apply lookup_singleton_Some in HL as [_ <-]. by split.
Defined.

(** With an existing file the pointer is reached. *)
Lemma module_load_wild :
  kylin_module_load sample_sys std_decoders 3 32 sample_session [97] sample_mst = Ub.
Proof. vm_compute. reflexivity. Qed.

(** ** Unloading everything

    The list is destroyed after every module in it has been unloaded: its first
    module is freed, found by no search, and freed again. *)
Lemma match_unreadable m m1 m2 o : blocks m !! m1 = Some o -> (length o < KYLIN_NAME_LENGTH)%nat ->
  __module_match m m1 m2 = 1.
Proof.
  intros Hk Hl. unfold __module_match. unfold load_at at 1. rewrite Hk. unfold read_bytes.
  destruct (_ && _) eqn:Ec; [|done]. apply andb_true_iff in Ec as [_ Ec%Z.leb_le].
  unfold M_NAME, KYLIN_NAME_LENGTH in *. lia.
Qed.

Definition freed (h : KList.st) (a : Z) : KList.st :=
  mk_st (guards h) (mk_mem (delete a (blocks (omem h))) (brk (omem h)) (oom (omem h))) (kerrno h).

Lemma find_none_all {A} (f : A -> bool) l : (forall x, x ∈ l -> f x = false) -> List.find f l = None.
Proof.
  induction l as [|y l IH]; intros Hf; [done|]. simpl. rewrite Hf by left. apply IH. intros x Hx. apply Hf. by right.
Qed.

(** [kylin_list_clear] frees the first value, asks for the node whose value
    equals the node's own address, and, where there is none, starts again. *)
Lemma list_destroy_twice nested h g o node v l : klist_rep h g o ((node, v) :: l) ->
  val_type o = KOBJ_OTHERS -> val_dtor o = None -> v <> NULL -> v ∉ addrs ((node, v) :: l) ->
  (forall x, x ∈ (node, v) :: l -> match_fn o (omem (freed h v)) node (snd x) <> 0) ->
  kylin_list_destroy nested g h = Ub.
Proof.
  intros HR Ht Hd Hv Hout Hmatch. destruct (blocks (omem h) !! v) as [bs|] eqn:Hb; [|by eapply list_destroy_dangling].
  pose proof (rep_addrs _ _ _ _ HR) as Ha. apply Forall_cons in Ha as [[Hn _] _]. change (node <> NULL) in Hn.
  assert (HR1 : klist_rep (freed h v) g o ((node, v) :: l)).
  { apply rep_same; [done|]. intros a Hin. unfold same_at. simpl. rewrite lookup_delete_ne; [done|]. by intros ->. }
  assert (Hfree : forall h', blocks (omem h') = blocks (omem (freed h v)) ->
    on_mem (kmath_val_dtor nested v (val_type o) (Some (LIST_VAL_FREE o))) h' = Ub).
  { intros h' E. unfold on_mem, LIST_VAL_FREE. rewrite Ht, Hd. cbn [kmath_val_dtor mem_of st_mem]. unfold kylin_free.
    rewrite (proj2 (Z.eqb_neq _ _) Hv), E. simpl. by rewrite lookup_delete_eq. }
  set (h2 := KList.mk_st (guards (freed h v)) (omem (freed h v)) (Some KYLIN_ERROR_INVAL)).
  assert (HR2 : klist_rep h2 g o ((node, v) :: l)) by (by apply rep_same).
  assert (Er : kylin_list_remove nested g node (freed h v) = Ok (tt, h2)).
  { unfold kylin_list_remove. run (find_raw_spec _ g o _ node HR1).
    replace (List.find _ _) with (@None (Z * Z)); [done|]. symmetry. apply find_none_all. intros x Hx.
    unfold matches. apply Z.eqb_neq. by apply Hmatch. }
  unfold kylin_list_destroy. apply bind_Ub. unfold kylin_list_clear. run (eq_refl : get_st h = Ok (h, h)).
  assert (Hsz : exists n, fuel_of h = S (S n)).
  { exists (size (blocks (omem h)) - 1)%nat. unfold fuel_of.
    assert (size (blocks (omem h)) <> 0)%nat; [|lia]. intros Hz%map_size_empty_inv. by rewrite Hz in Hb. }
  destruct Hsz as [n ->]. cbn [clear_loop].
  run (guard_at _ _ _ (rep_guard _ _ _ _ HR)). cbn [g_head head_addr g_opts]. rewrite (proj2 (Z.eqb_neq _ _) Hn).
  run (rep_val h g o _ node v HR ltac:(left)).
  assert (E1 : on_mem (kmath_val_dtor nested v (val_type o) (Some (LIST_VAL_FREE o))) h = Ok (tt, freed h v)).
  { unfold on_mem, LIST_VAL_FREE. rewrite Ht, Hd. cbn [kmath_val_dtor mem_of st_mem]. unfold kylin_free.
    by rewrite (proj2 (Z.eqb_neq _ _) Hv), Hb. }
  run E1. run Er. run (guard_at _ _ _ (rep_guard _ _ _ _ HR2)). cbn [g_head head_addr g_opts].
  rewrite (proj2 (Z.eqb_neq _ _) Hn). run (rep_val h2 g o _ node v HR2 ltac:(left)).
  by apply bind_Ub, Hfree.
Qed.

(** What the walk does to the heap: nothing. *)
Lemma unload_heap sys session m s r s' : __module_unload sys session m s = Ok (r, s') -> mheap s' = mheap s.
Proof.
  intros E. unfold __module_unload in E. apply bind_Ok_inv in E as (md & s1 & E1 & E).
  assert (Hget : forall f a s x s', mget f a s = Ok (x, s') -> s' = s).
  { clear. intros f a s x s'. apply on_mem_same. intros m y m' E. apply bind_Ok_inv in E as (bs & m1 & E1 & E).
    injection E as _ <-. revert E1. unfold load_at. destruct (blocks m !! a); [|done].
    destruct (read_bytes _ _ _); [|done..]. by intros [= _ <-]. }
  apply Hget in E1 as ->. destruct (md =? NULL); [done|].
  apply bind_Ok_inv in E as (ret & s1 & E1 & E). injection E1 as <- <-.
  destruct (negb _); [by injection E as _ <-|].
  apply bind_Ok_inv in E as (hd & s1 & E1 & E). apply Hget in E1 as ->. by injection E as _ <-.
Qed.

Lemma unload_from_heap sys fuel session list node s r s' :
  unload_from sys fuel session list node s = Ok (r, s') -> mheap s' = mheap s.
Proof.
  revert node s. induction fuel as [|fuel IH]; intros node s E; [done|]. cbn [unload_from] in E.
  destruct (node =? NULL); [by injection E as _ <-|].
  assert (Hl : forall {A} (f : M KList.st A) s x s', (forall h x h', f h = Ok (x, h') -> h' = h) ->
    on_list f s = Ok (x, s') -> mheap s' = mheap s).
  { clear. intros A f s x s' Hf E. unfold on_list in E. destruct (f (mheap s)) as [[y h]| |] eqn:Ef; [|done..].
    injection E as _ <-. by apply Hf in Ef. }
  apply bind_Ok_inv in E as (v & s1 & E1 & E). apply Hl in E1 as H1.
  - destruct (vptr_addr v =? NULL); [by injection E as _ <-|].
    apply bind_Ok_inv in E as (ret & s2 & E2 & E). apply unload_heap in E2.
    destruct (negb _); [injection E as _ <-; congruence|].
    apply bind_Ok_inv in E as (prev & s3 & E3 & E). apply Hl in E3 as H3.
    + apply IH in E. congruence.
    + intros h x h'. apply read_word_same.
  - intros h x h' E'. unfold kylin_list_val in E'. apply bind_Ok_inv in E' as (L & h1 & E' & E'').
    unfold guard in E'. destruct (guards h !! list); [|done]. injection E' as _ <-.
    apply bind_Ok_inv in E'' as (w & h1 & E' & E''). apply read_word_same in E' as ->. by injection E''.
Qed.

(** [kylin_module_unload_all] does not survive its success: where any module is
    loaded and all can be unloaded, the destruction of the list frees a module
    twice. *)
Lemma module_unload_all_frees_twice sys nested session list node v l ws s s' :
  mget S_LIST session s = Ok (list, s) -> klist_rep (mheap s) list module_opts ((node, v) :: l) ->
  words_at (mem_of s) node ws -> length ws = 3%nat -> v <> NULL -> v ∉ addrs ((node, v) :: l) ->
  kylin_module_unload_all sys nested session s <> Ok (KYLIN_ERROR_OK, s').
Proof.
  intros Hl HR Hw Hws Hv Hout E. unfold kylin_module_unload_all in E.
  apply bind_Ok_inv in E as (x & s1 & E1 & E). rewrite Hl in E1. injection E1 as <- <-.
  apply bind_Ok_inv in E as (last & s1 & E1 & E).
  assert (H1 : s1 = s).
  { unfold on_list, kylin_list_last in E1. unfold mbind, M_bind in E1.
    rewrite (guard_at _ _ _ (rep_guard _ _ _ _ HR)) in E1. injection E1 as _ <-. by destruct s. }
  subst s1. apply bind_Ok_inv in E as (s1 & s2 & E2 & E). injection E2 as <- <-.
  apply bind_Ok_inv in E as (ret & s2 & E2 & E). apply unload_from_heap in E2.
  destruct (bool_decide_reflect (ret = KYLIN_ERROR_OK)) as [->|Hne]; cbn [negb] in E; [|by injection E].
  apply bind_Ok_inv in E as (list' & s3 & E3 & E).
  assert (H3 : list' = list /\ s3 = s2).
  { destruct s as [h c e]. destruct s2 as [h2 c2 e2]. simpl in E2. subst h2. revert E3 Hl. unfold mget, on_mem. cbn.
    destruct (get_field S_LIST session (omem h)) as [[y m]| |]; [|done..]. intros [= <- <-] [= -> Hh].
    split; [done|]. f_equal. done. }
  destruct H3 as [-> ->]. apply bind_Ok_inv in E as (u & s4 & E4 & _).
  unfold on_list in E4. rewrite E2 in E4. rewrite (list_destroy_twice nested _ _ _ _ _ _ HR) in E4; [done..|].
  intros x _. rewrite (match_unreadable _ _ _ (enc_words ws)); [done| |].
  - unfold freed. simpl. rewrite lookup_delete_ne; [apply Hw|]. intros ->. apply Hout. simpl. left.
  - rewrite length_enc_words, Hws. unfold KYLIN_NAME_LENGTH. simpl. lia.
Qed.
