(* ===== verification/Ddb.v ===== *)
(** * Dynamic debugging ([lib/core/ddb])

    A record of the runs of a process in a shared memory segment
    ([kylin_ddb.c]), its log with nine archives ([kylin_ddb_log.c]) and the
    services that are run when the process gets a fatal signal
    ([kylin_ddb_service.c]).

    The segment is used through [Shm]: what its system calls do to the memory
    of the process is read off their history.  The file system is a finite map
    from paths to contents and modes with the POSIX meaning of [open], [rename],
    [unlink] and [write]; the shell, the time, the texts and the services are
    arguments. *)

From S2P Require Import Prelude Errors Bytes Mem MathVal KList Shm.

Definition KYLIN_LOGFILE_ARCH_MAX : nat := 9.
Definition KYLIN_LOGBUFF_MAX : nat := 2048.
Definition PATH_MAX : nat := 4096.

Inductive kddb_status_t :=
| KDDB_STATUS_NONE | KDDB_STATUS_RUNNING | KDDB_STATUS_STOPPED | KDDB_STATUS_CORE | KDDB_STATUS_UNKNOWN | KDDB_STATUS_MAX.
Definition status_code (s : kddb_status_t) : Z :=
  match s with
  | KDDB_STATUS_NONE => 0 | KDDB_STATUS_RUNNING => 1 | KDDB_STATUS_STOPPED => 2 | KDDB_STATUS_CORE => 3
  | KDDB_STATUS_UNKNOWN => 4 | KDDB_STATUS_MAX => 5
  end.

(** A path's contents and mode. *)
Abbreviation fs := (gmap (list Z) (list Z * Z)).

(** What happens on a signal. *)
Inductive disposition := Process | Ignore.

Record dst := mk_dst {
  dshm : Shm.st;
  ddb_shm : Z;
  mapped_mem : gmap Z (list Z);
  dheap : KList.st;
  service_list : Z;
  files : fs;
  handlers : gmap Z disposition;
  dexited : bool;
}.

(** What the program depends on: the system calls of [Shm], what the segment
    holds before it is mapped, the files that cannot be opened, the shell and
    the process' name. *)
Record environment := mk_env {
  shm_sys : Shm.system;
  segment : list Z;
  open_error : list Z -> option kerr_t;
  shell : list Z -> fs -> fs;
  pname : list Z;
}.

Definition lift {A} (o : outcome A) : M dst A := fun s =>
  match o with Ok a => Ok (a, s) | Ub => Ub | OutOfFuel => OutOfFuel end.

Definition on_list {A} (f : M KList.st A) : M dst A := fun s =>
  match f (dheap s) with
  | Ok (x, h) =>
      Ok (x, mk_dst (dshm s) (ddb_shm s) (mapped_mem s) h (service_list s) (files s) (handlers s) (dexited s))
  | Ub => Ub
  | OutOfFuel => OutOfFuel
  end.

Definition set_files (f : fs -> fs) : M dst unit := fun s =>
  Ok (tt, mk_dst (dshm s) (ddb_shm s) (mapped_mem s) (dheap s) (service_list s) (f (files s)) (handlers s) (dexited s)).
Definition get_files : M dst fs := fun s => Ok (files s, s).
Definition set_ddb_shm (a : Z) : M dst unit := fun s =>
  Ok (tt, mk_dst (dshm s) a (mapped_mem s) (dheap s) (service_list s) (files s) (handlers s) (dexited s)).
Definition set_service_list (g : Z) : M dst unit := fun s =>
  Ok (tt, mk_dst (dshm s) (ddb_shm s) (mapped_mem s) (dheap s) g (files s) (handlers s) (dexited s)).
Definition exit_process : M dst unit := fun s =>
  Ok (tt, mk_dst (dshm s) (ddb_shm s) (mapped_mem s) (dheap s) (service_list s) (files s) (handlers s) true).

(** ** The mapped memory

    What the calls of a history, newest first, do to the memory; [old] is the
    length of the history before.  The address of a mapping is the answer to
    its call. *)
Fixpoint replay (e : environment) (old : nat) (h : list syscall) (m : gmap Z (list Z)) : gmap Z (list Z) :=
  match h with
  | [] => m
  | c :: h' =>
      if (length h <=? old)%nat then m else
      let m := replay e old h' m in
      match c with
      | SysMap len _ =>
          let a := answer (shm_sys e) h in
          if a =? MAP_FAILED then m
          else <[a := take (Z.to_nat len) (segment e ++ replicate (Z.to_nat len) 0)]> m
      | SysZero a len =>
          match m !! a with
          | Some bs => <[a := replicate (Z.to_nat len) 0 ++ drop (Z.to_nat len) bs]> m
          | None => m
          end
      | SysUnmap a _ => delete a m
      | _ => m
      end
  end.

Section Ddb.
Context (env : environment) (nested : nested_dtors).

Definition on_shm {A} (f : M Shm.st A) : M dst A := fun s =>
  match f (dshm s) with
  | Ok (x, t) =>
      Ok (x, mk_dst t (ddb_shm s) (replay env (length (hist (dshm s))) (hist t) (mapped_mem s)) (dheap s)
        (service_list s) (files s) (handlers s) (dexited s))
  | Ub => Ub
  | OutOfFuel => OutOfFuel
  end.

Definition read_at (a off n : Z) : M dst (list Z) := fun s =>
  match mapped_mem s !! a with
  | Some bs => x ← read_bytes bs off n; Ok (x, s)
  | None => Ub
  end.
Definition write_at (a off : Z) (bs : list Z) : M dst unit := fun s =>
  match mapped_mem s !! a with
  | Some old =>
      new ← write_bytes old off bs;
      Ok (tt, mk_dst (dshm s) (ddb_shm s) (<[a := new]> (mapped_mem s)) (dheap s) (service_list s) (files s)
                (handlers s) (dexited s))
  | None => Ub
  end.

(** ** Services ([kylin_ddb_service.c]) *)

(** [kddb_service_t] is a function pointer; where one cannot be read the C
    function is undefined and this one gives 1. *)
Definition sizeof_service : Z := 8.
Definition EXEC : field := (0, 8).
Definition __service_match (m : mem) (s1 s2 : Z) : Z :=
  match get_field EXEC s1 m, get_field EXEC s2 m with
  | Ok (x, _), Ok (y, _) => if y <? x then 1 else if x <? y then -1 else 0
  | _, _ => 1
  end.
Definition service_opts : klist_opts_t :=
  mk_klist_opts KOBJ_OTHERS sizeof_service __service_match (Some kylin_malloc) None None None (NULL, NULL, 0).

Definition vptr_addr (v : vptr Z) : Z := match v with PObj a => a | PSlot _ => NULL end.
Definition get_list : M dst Z := fun s => Ok (service_list s, s).

Definition kylin_ddb_service_register (service : Z) : M dst kerr_t :=
  g ← get_list;
  v ← on_list (kylin_list_insert_head g service);
  if vptr_addr v =? NULL then mret KYLIN_ERROR_NOMEM else mret KYLIN_ERROR_OK.

Definition kylin_ddb_service_unregister (service : Z) : M dst unit :=
  g ← get_list; on_list (kylin_list_remove nested g service).

(** The two functions only look at the heap. *)
Definition first_service (g : Z) : M KList.st Z :=
  node ← kylin_list_first g;
  if node =? NULL then mret NULL else v ← kylin_list_val g node; mret (vptr_addr v).
Definition next_service (g service : Z) : M KList.st Z :=
  node ← kylin_list_find_raw g service;
  if node =? NULL then mret NULL else
  node ← kylin_list_next node;
  if node =? NULL then mret NULL else v ← kylin_list_val g node; mret (vptr_addr v).

Definition service_get_first : M dst Z := g ← get_list; on_list (first_service g).
Definition service_get_next (service : Z) : M dst Z := g ← get_list; on_list (next_service g service).

(** [service_foreach(service) service->exec();] *)
Fixpoint service_foreach (run : Z -> M dst unit) (fuel : nat) (service : Z) : M dst unit :=
  match fuel with
  | O => out_of_fuel
  | S fuel =>
      if service =? NULL then mret tt else
      exec ← on_list (on_mem (get_field EXEC service));
      _ ← run exec;
      next ← service_get_next service;
      service_foreach run fuel next
  end.

Definition service_init : M dst kerr_t :=
  g ← on_list (kylin_list_create service_opts);
  _ ← set_service_list g;
  if g =? NULL then mret KYLIN_ERROR_NOMEM else mret KYLIN_ERROR_OK.

Definition service_fini : M dst unit :=
  g ← get_list; if g =? NULL then mret tt else on_list (kylin_list_destroy nested g).

(** ** The log ([kylin_ddb_log.c]) *)

(** "/var/log" *)
Definition KYLIN_LOGFILE_DAEMON_DIR : list Z := [47; 118; 97; 114; 47; 108; 111; 103].
(** "/var/log/ddb" *)
Definition KYLIN_LOGFILE_DDB_DIR : list Z := KYLIN_LOGFILE_DAEMON_DIR ++ [47; 100; 100; 98].
(** "-ddb.log", ".log" *)
Definition ddb_suffix : list Z := [45; 100; 100; 98; 46; 108; 111; 103].
Definition daemon_suffix : list Z := [46; 108; 111; 103].

Definition printed (s : list Z) : list Z := take (PATH_MAX - 1) s.
(** "%s/%s<suffix>", and the same with ".%d" for one digit. *)
Definition log_path (dir suffix : list Z) : list Z := printed (dir ++ 47 :: pname env ++ suffix).
Definition arch_path (dir suffix : list Z) (i : nat) : list Z := printed (dir ++ 47 :: pname env ++ suffix ++ [46; 48 + Z.of_nat i]).
Definition ddb_path := log_path KYLIN_LOGFILE_DDB_DIR ddb_suffix.
Definition ddb_arch := arch_path KYLIN_LOGFILE_DDB_DIR ddb_suffix.
Definition daemon_path := log_path KYLIN_LOGFILE_DAEMON_DIR daemon_suffix.
Definition daemon_arch := arch_path KYLIN_LOGFILE_DAEMON_DIR daemon_suffix.

(** [open], of which only success matters: the error otherwise. *)
Definition open_file (path : list Z) (creat : option Z) : M dst (option kerr_t) :=
  match open_error env path with
  | Some e => mret (Some e)
  | None =>
      f ← get_files;
      match f !! path, creat with
      | Some _, _ => mret None
      | None, Some mode => _ ← set_files (insert path ([], mode)); mret None
      | None, None => mret (Some KYLIN_ERROR_NOENT)
      end
  end.
Definition unlink (path : list Z) : M dst unit := set_files (delete path).
(** An absent source is an error nobody looks at. *)
Definition rename_file (src dest : list Z) (f : fs) : fs :=
  match f !! src with Some x => <[dest := x]> (delete src f) | None => f end.
Definition rename (src dest : list Z) : M dst unit := set_files (rename_file src dest).
Definition append (path bs : list Z) : M dst unit :=
  set_files (alter (fun x => (x.1 ++ bs, x.2)) path).

(** [text] is what the format makes. *)
Fixpoint c_string (s : list Z) : list Z :=
  match s with [] => [] | c :: s => if c =? 0 then [] else c :: c_string s end.
Definition kylin_ddb_log (text : list Z) : M dst kerr_t :=
  let logbuf := take (KYLIN_LOGBUFF_MAX - 1) (c_string text) in
  r ← open_file ddb_path None;
  match r with
  | None => _ ← append ddb_path logbuf; mret KYLIN_ERROR_OK
  | Some e => mret e
  end.

(** The loop [for(int i = KYLIN_LOGFILE_ARCH_MAX; i > 0; i--)]: the newest
    archive is made from the log itself, by [newest]. *)
Fixpoint rotate_loop (path : list Z) (arch : nat -> list Z) (newest : list Z -> list Z -> M dst unit) (i : nat) : M dst unit :=
  match i with
  | O => mret tt
  | S j =>
      let src := if bool_decide (j = 0%nat) then path else arch j in
      _ ← (if bool_decide (i = KYLIN_LOGFILE_ARCH_MAX) then unlink (arch i) else mret tt);
      _ ← (if bool_decide (j = 0%nat) then newest src (arch i) else rename src (arch i));
      rotate_loop path arch newest j
  end.

(** 0x0644 *)
Definition LOG_MODE : Z := 0x644.
Definition __logfile_ddb_init : M dst kerr_t :=
  r ← open_file ddb_path (Some LOG_MODE);
  match r with
  | Some e => mret e
  | None => _ ← rotate_loop ddb_path ddb_arch rename KYLIN_LOGFILE_ARCH_MAX; mret KYLIN_ERROR_OK
  end.

(** "cp %s %s &> /dev/null" *)
Definition cp_command (src dest : list Z) : list Z :=
  printed ([99; 112; 32] ++ src ++ [32] ++ dest ++ [32; 38; 62; 32; 47; 100; 101; 118; 47; 110; 117; 108; 108]).
Definition __logfile_daemon_init : M dst kerr_t :=
  _ ← rotate_loop daemon_path daemon_arch (fun src dest => set_files (shell env (cp_command src dest))) KYLIN_LOGFILE_ARCH_MAX;
  mret KYLIN_ERROR_OK.

Definition log_init : M dst kerr_t :=
  ret ← __logfile_ddb_init;
  if negb (bool_decide (ret = KYLIN_ERROR_OK)) then mret ret else __logfile_daemon_init.
Definition log_fini : unit := tt.

(** ** The record of runs ([kylin_ddb.c]) *)

(** [kddb_t]: the name, the number of runs, the current and the previous
    process. *)
Definition D_RUNS : field := (64, 2).
Definition KYLIN_DDB_PROC_CURRENT : Z := 0.
Definition KYLIN_DDB_PROC_BEFORE : Z := 1.
Definition sizeof_proc : Z := 24.
Definition PROC (i : Z) : Z := 72 + sizeof_proc * i.
Definition D_STATUS (i : Z) : field := (PROC i, 4).
Definition D_START (i : Z) : field := (PROC i + 8, 8).
Definition D_STOP (i : Z) : field := (PROC i + 16, 8).
Definition sizeof_ddb : Z := 120.

Definition dget (f : field) (a : Z) : M dst Z := bs ← read_at a f.1 f.2; mret (le_value bs).
Definition dput (f : field) (a v : Z) : M dst unit := write_at a f.1 (le_bytes (Z.to_nat f.2) v).
Definition get_shm : M dst Z := fun s => Ok (ddb_shm s, s).
Definition shm_addr (shm : Z) : M dst Z := on_shm (kylin_shm_addr shm).

Definition kylin_ddb_get : M dst Z := shm ← get_shm; if shm =? NULL then mret NULL else shm_addr shm.

(** The handler; [text] is the line it logs. *)
Definition __signal_process_normal (run : Z -> M dst unit) (fuel : nat) (text : list Z) (now : Z) : M dst unit :=
  _ ← kylin_ddb_log text;
  first ← service_get_first;
  _ ← service_foreach run fuel first;
  shm ← get_shm;
  if shm =? NULL then exit_process else
  a ← shm_addr shm;
  if a =? NULL then exit_process else
  _ ← dput (D_STATUS KYLIN_DDB_PROC_CURRENT) a (status_code KDDB_STATUS_CORE);
  _ ← dput (D_STOP KYLIN_DDB_PROC_CURRENT) a now;
  exit_process.

(** SIGILL, SIGTRAP, SIGABRT, SIGIOT, SIGSYS, SIGXCPU, SIGXFSZ, SIGFPE, SIGSEGV:
    [signal] refuses SIGKILL. *)
Definition fatal_signals : list Z := [4; 5; 6; 6; 31; 24; 25; 8; 11; 8].
Definition ignored_signals : list Z := [13; 17].
Definition __signal_init : M dst kerr_t := fun s =>
  let h := foldl (fun h n => <[n := Process]> h) (handlers s) fatal_signals in
  let h := foldl (fun h n => <[n := Ignore]> h) h ignored_signals in
  Ok (KYLIN_ERROR_OK,
      mk_dst (dshm s) (ddb_shm s) (mapped_mem s) (dheap s) (service_list s) (files s) h (dexited s)).

(** "ddb#%s" in a buffer of 64 bytes. *)
Definition shm_name : list Z :=
  let s := take (KYLIN_NAME_LENGTH - 1) ([100; 100; 98; 35] ++ pname env) in
  s ++ replicate (KYLIN_NAME_LENGTH - length s) 0.

Definition first_run (a now : Z) : M dst unit :=
  _ ← write_at a 0 (replicate (Z.to_nat sizeof_ddb) 0);
  _ ← write_at a 0 (take (KYLIN_NAME_LENGTH - 1) (pname env));
  _ ← dput D_RUNS a 1;
  _ ← dput (D_STATUS KYLIN_DDB_PROC_CURRENT) a (status_code KDDB_STATUS_RUNNING);
  dput (D_START KYLIN_DDB_PROC_CURRENT) a now.

Definition another_run (a now : Z) : M dst unit :=
  runs ← dget D_RUNS a;
  _ ← dput D_RUNS a (runs + 1);
  bs ← read_at a (PROC KYLIN_DDB_PROC_CURRENT) sizeof_proc;
  _ ← write_at a (PROC KYLIN_DDB_PROC_BEFORE) bs;
  _ ← write_at a (PROC KYLIN_DDB_PROC_CURRENT) (replicate (Z.to_nat sizeof_proc) 0);
  _ ← dput (D_STATUS KYLIN_DDB_PROC_CURRENT) a (status_code KDDB_STATUS_RUNNING);
  dput (D_START KYLIN_DDB_PROC_CURRENT) a now.

Definition __shm_init (now : Z) : M dst kerr_t :=
  ret ← on_shm (kylin_shm_create shm_name sizeof_ddb);
  let first_create := bool_decide (ret = KYLIN_ERROR_OK) in
  if negb (bool_decide (ret = KYLIN_ERROR_OK)) && negb (bool_decide (ret = KYLIN_ERROR_EXIST)) then mret ret else
  shm ← on_shm (kylin_shm_open (shm_sys env) shm_name);
  _ ← set_ddb_shm shm;
  if shm =? NULL then mret KYLIN_ERROR_NOMEM else
  a ← shm_addr shm;
  if a =? NULL then mret KYLIN_ERROR_NOENT else
  _ ← (if first_create : bool then first_run a now else another_run a now);
  mret KYLIN_ERROR_OK.

Definition __shm_fini (now : Z) : M dst unit :=
  shm ← get_shm;
  if shm =? NULL then mret tt else
  a ← shm_addr shm;
  _ ← (if a =? NULL then mret tt else
         _ ← dput (D_STATUS KYLIN_DDB_PROC_CURRENT) a (status_code KDDB_STATUS_STOPPED);
         dput (D_STOP KYLIN_DDB_PROC_CURRENT) a now);
  on_shm (kylin_shm_close (shm_sys env) shm).

Definition kylin_ddb_init (now : Z) : M dst kerr_t :=
  ret ← service_init;
  if negb (bool_decide (ret = KYLIN_ERROR_OK)) then mret ret else
  ret ← log_init;
  if negb (bool_decide (ret = KYLIN_ERROR_OK)) then mret ret else
  _ ← __signal_init;
  __shm_init now.

Definition kylin_ddb_fini (now : Z) : M dst unit :=
  _ ← __shm_fini now; _ ← mret log_fini; service_fini.
End Ddb.

(** ** The rotation of the log *)

(** The log and its archives, by number. *)
Definition slot_name (path : list Z) (arch : nat -> list Z) (k : nat) : list Z :=
  if bool_decide (k = 0%nat) then path else arch k.

Fixpoint shift (path : list Z) (arch : nat -> list Z) (i : nat) (f : fs) : fs :=
  match i with
  | O => f
  | S j => shift path arch j (rename_file (slot_name path arch j) (slot_name path arch i) f)
  end.

Definition with_files (s : dst) (f : fs) : dst :=
  mk_dst (dshm s) (ddb_shm s) (mapped_mem s) (dheap s) (service_list s) f (handlers s) (dexited s).

Lemma rotate_step path arch j s :
  rotate_loop path arch rename (S j) s =
  rotate_loop path arch rename j (with_files s (rename_file (slot_name path arch j) (slot_name path arch (S j))
    (if bool_decide (S j = KYLIN_LOGFILE_ARCH_MAX) then delete (arch (S j)) (files s) else files s))).
Proof.
  cbn [rotate_loop]. unfold slot_name. rewrite (bool_decide_eq_false_2 (S j = 0%nat)) by done.
  destruct (bool_decide (S j = KYLIN_LOGFILE_ARCH_MAX)), (bool_decide (j = 0%nat)); reflexivity.
Qed.

Lemma rotate_shift path arch i s : (i < KYLIN_LOGFILE_ARCH_MAX)%nat ->
  rotate_loop path arch rename i s = Ok (tt, with_files s (shift path arch i (files s))).
Proof.
  revert s. induction i as [|j IH]; intros s Hi; [by destruct s|].
  rewrite rotate_step, (bool_decide_eq_false_2 (S j = KYLIN_LOGFILE_ARCH_MAX)) by lia. by rewrite IH by lia.
Qed.

Lemma rotate_all path arch s :
  rotate_loop path arch rename KYLIN_LOGFILE_ARCH_MAX s =
  Ok (tt, with_files s (shift path arch KYLIN_LOGFILE_ARCH_MAX (delete (arch KYLIN_LOGFILE_ARCH_MAX) (files s)))).
Proof.
  unfold KYLIN_LOGFILE_ARCH_MAX. rewrite rotate_step, bool_decide_eq_true_2 by done.
  by rewrite rotate_shift by (unfold KYLIN_LOGFILE_ARCH_MAX; lia).
Qed.

Lemma rename_other src dest f p : p <> src -> p <> dest -> rename_file src dest f !! p = f !! p.
Proof. intros H1 H2. unfold rename_file. destruct (f !! src); [|done]. by rewrite lookup_insert_ne, lookup_delete_ne. Qed.
Lemma rename_dest src dest f : src <> dest -> f !! dest = None -> rename_file src dest f !! dest = f !! src.
Proof. intros Hne Hd. unfold rename_file. destruct (f !! src) eqn:E; [by rewrite lookup_insert_eq|done]. Qed.
Lemma rename_src src dest f : src <> dest -> rename_file src dest f !! src = None.
Proof.
  intros Hne. unfold rename_file. destruct (f !! src) eqn:E; [|done].
  by rewrite lookup_insert_ne, lookup_delete_eq.
Qed.

Section Shift.
Context (path : list Z) (arch : nat -> list Z).
Abbreviation name := (slot_name path arch).
Context (Hinj : forall i j, (i <= 9)%nat -> (j <= 9)%nat -> name i = name j -> i = j).

Lemma shift_spec i f : (i <= 9)%nat -> f !! name i = None ->
  shift path arch i f !! name 0 = None /\
  (forall k, (k < i)%nat -> shift path arch i f !! name (S k) = f !! name k) /\
  (forall p, (forall k, (k <= i)%nat -> p <> name k) -> shift path arch i f !! p = f !! p).
Proof using Hinj.
  revert f. induction i as [|j IH]; intros f Hi Hn; [split; [done|split; [lia|done]]|]. cbn [shift].
  assert (Hne : forall a b, (a <= 9)%nat -> (b <= 9)%nat -> a <> b -> name a <> name b) by (intros a b ? ? Hab E; by apply Hab, Hinj).
  set (f1 := rename_file _ _ f). destruct (IH f1) as (I1 & I2 & I3); [lia|apply rename_src, Hne; lia|].
  split; [done|]. split.
  - intros k Hk. destruct (decide (k = j)) as [->|Hkj].
    + rewrite I3 by (intros m Hm; apply Hne; lia). apply rename_dest; [apply Hne; lia|done].
    + rewrite I2 by lia. apply rename_other; apply Hne; lia.
  - intros p Hp. rewrite I3 by (intros k Hk; apply Hp; lia). apply rename_other; apply Hp; lia.
Qed.
End Shift.

(** The names differ while they fit. *)
Lemma name_inj env : (length (pname env) <= 4000)%nat -> forall i j, (i <= 9)%nat -> (j <= 9)%nat ->
  slot_name (ddb_path env) (ddb_arch env) i = slot_name (ddb_path env) (ddb_arch env) j -> i = j.
Proof.
  intros Hl i j Hi Hj. unfold slot_name, ddb_path, ddb_arch, log_path, arch_path, printed.
  assert (Hc : forall l, (length l <= 10)%nat -> take (PATH_MAX - 1) (KYLIN_LOGFILE_DDB_DIR ++ 47 :: pname env ++ ddb_suffix ++ l)
    = KYLIN_LOGFILE_DDB_DIR ++ 47 :: pname env ++ ddb_suffix ++ l).
  { intros l Hll. apply take_ge. rewrite length_app. simpl. rewrite !length_app. unfold PATH_MAX. simpl. lia. }
  pose proof (Hc [] ltac:(simpl; lia)) as H0. rewrite app_nil_r in H0. rewrite H0, !Hc by (simpl; lia).
  destruct (bool_decide_reflect (i = 0%nat)), (bool_decide_reflect (j = 0%nat)); subst; try done.
  - intros E. apply (f_equal length) in E. revert E. repeat (rewrite length_app || cbn [length]). lia.
  - intros E. apply (f_equal length) in E. revert E. repeat (rewrite length_app || cbn [length]). lia.
  - intros E. apply app_inv_head in E. injection E as E. apply app_inv_head in E. injection E as E. lia.
Qed.

Definition opened (env : environment) (s : dst) : fs :=
  match files s !! ddb_path env with Some _ => files s | None => <[ddb_path env := ([], LOG_MODE)]> (files s) end.

Lemma ddb_init_eq env s : open_error env (ddb_path env) = None ->
  __logfile_ddb_init env s =
  Ok (KYLIN_ERROR_OK, with_files s (shift (ddb_path env) (ddb_arch env) 9 (delete (ddb_arch env 9) (opened env s)))).
Proof.
  intros Ho.
  assert (Ef : open_file env (ddb_path env) (Some LOG_MODE) s = Ok (None, with_files s (opened env s))).
  { unfold open_file, opened. rewrite Ho. run (eq_refl : get_files s = Ok (files s, s)).
    destruct (files s !! ddb_path env); [by destruct s|done]. }
  unfold __logfile_ddb_init. run Ef. by run (rotate_all (ddb_path env) (ddb_arch env) (with_files s (opened env s))).
Qed.

Lemma ddb_init_removes env s s' : (length (pname env) <= 4000)%nat -> open_error env (ddb_path env) = None ->
  __logfile_ddb_init env s = Ok (KYLIN_ERROR_OK, s') -> files s' !! ddb_path env = None.
Proof.
  intros Hl Ho E. rewrite ddb_init_eq in E by done. injection E as <-.
  destruct (shift_spec (ddb_path env) (ddb_arch env) (name_inj env Hl) 9 (delete (ddb_arch env 9) (opened env s))) as (S1 & _);
    [done|apply lookup_delete_eq|exact S1].
Qed.

(** C10. The start of a process moves its log into the archives: every archive
    takes the place of the next older one, the ninth is lost, the log, created if
    there was none, becomes the first, and no log is left; no other file
    changes. *)
Theorem ddb_log_rotated env s : (length (pname env) <= 4000)%nat -> open_error env (ddb_path env) = None ->
  exists s', __logfile_ddb_init env s = Ok (KYLIN_ERROR_OK, s') /\
    files s' !! ddb_path env = None /\
    files s' !! ddb_arch env 1 = Some (default ([], LOG_MODE) (files s !! ddb_path env)) /\
    (forall k, (1 <= k <= 8)%nat -> files s' !! ddb_arch env (S k) = files s !! ddb_arch env k) /\
    (forall p, p <> ddb_path env -> (forall k, (1 <= k <= 9)%nat -> p <> ddb_arch env k) -> files s' !! p = files s !! p).
Proof.
  intros Hl Ho. set (f0 := opened env s).
  pose proof (name_inj env Hl) as Hinj. unfold slot_name at 1 2 in Hinj.
  assert (Hne : forall k, (1 <= k <= 9)%nat -> ddb_arch env k <> ddb_path env).
  { intros k Hk E. assert (k = 0%nat); [|lia]. apply Hinj; [lia|lia|]. rewrite bool_decide_eq_false_2 by lia. done. }
  assert (Hf0 : forall p, p <> ddb_path env -> f0 !! p = files s !! p).
  { intros p Hp. unfold f0, opened. destruct (files s !! ddb_path env); [done|]. by rewrite lookup_insert_ne. }
  set (f1 := delete (ddb_arch env 9) f0).
  destruct (shift_spec (ddb_path env) (ddb_arch env) (name_inj env Hl) 9 f1) as (S1 & S2 & S3); [done|apply lookup_delete_eq|].
  exists (with_files s (shift (ddb_path env) (ddb_arch env) 9 f1)). split; [|split; [exact S1|split; [|split]]].
  - by apply ddb_init_eq.
  - etransitivity; [exact (S2 0%nat ltac:(lia))|]. unfold slot_name. cbn [bool_decide]. unfold f1.
    rewrite lookup_delete_ne by (apply Hne; lia). unfold f0, opened.
    destruct (files s !! ddb_path env) eqn:E; [exact E|apply lookup_insert_eq].
  - intros k Hk. etransitivity; [exact (S2 k ltac:(lia))|]. unfold slot_name. rewrite bool_decide_eq_false_2 by lia.
    unfold f1. rewrite lookup_delete_ne.
    + apply Hf0. apply Hne. lia.
    + intros E. assert (9 = k)%nat; [|lia]. apply Hinj; [lia|lia|]. rewrite !bool_decide_eq_false_2 by lia. done.
  - intros p Hp Hk. change (files (with_files s (shift (ddb_path env) (ddb_arch env) 9 f1)))
      with (shift (ddb_path env) (ddb_arch env) 9 f1). rewrite S3.
    + unfold f1. rewrite lookup_delete_ne by (intros E; by apply (Hk 9%nat); [lia|]). by apply Hf0.
    + intros k Hk9. unfold slot_name. case_bool_decide; [done|]. apply Hk. lia.
Qed.

(** ** The log of a running process *)
Lemma daemon_loop_spares env i s p : files s !! p = None ->
  (forall k, (1 <= k <= 9)%nat -> p <> daemon_arch env k) ->
  (forall cmd f, f !! p = None -> shell env cmd f !! p = None) ->
  (i <= 9)%nat ->
  exists s', rotate_loop (daemon_path env) (daemon_arch env)
    (fun src dest => set_files (shell env (cp_command src dest))) i s = Ok (tt, s') /\ files s' !! p = None.
Proof.
  intros Hn Hne Hsh. revert s Hn. induction i as [|j IH]; intros s Hn Hi; [by exists s|].
  cbn [rotate_loop]. cbv zeta.
  set (s1 := if bool_decide (S j = KYLIN_LOGFILE_ARCH_MAX) then with_files s (delete (daemon_arch env (S j)) (files s)) else s).
  assert (E1 : (if bool_decide (S j = KYLIN_LOGFILE_ARCH_MAX) then unlink (daemon_arch env (S j)) else mret tt) s = Ok (tt, s1))
    by (unfold s1; by destruct (bool_decide _)).
  assert (Hn1 : files s1 !! p = None).
  { unfold s1. destruct (bool_decide _); [|done]. simpl. apply lookup_delete_None. by right. }
  run E1. destruct (bool_decide (j = 0%nat)).
  - set (s2 := with_files s1 (shell env (cp_command (daemon_path env) (daemon_arch env (S j))) (files s1))).
    run (eq_refl : set_files (shell env (cp_command (daemon_path env) (daemon_arch env (S j)))) s1 = Ok (tt, s2)).
    apply IH; [by apply Hsh|lia].
  - set (s2 := with_files s1 (rename_file (daemon_arch env j) (daemon_arch env (S j)) (files s1))).
    run (eq_refl : rename (daemon_arch env j) (daemon_arch env (S j)) s1 = Ok (tt, s2)).
    apply IH; [|lia]. simpl. unfold rename_file. destruct (files s1 !! daemon_arch env j); [|done].
    rewrite lookup_insert_ne by (intros E; symmetry in E; revert E; apply Hne; lia). apply lookup_delete_None. by right.
Qed.

Lemma daemon_not_ddb env k : (length (pname env) <= 4000)%nat -> ddb_path env <> daemon_arch env k.
Proof.
  intros Hl E. apply (f_equal length) in E. revert E. unfold ddb_path, log_path, daemon_arch, arch_path, printed, PATH_MAX.
  rewrite !length_take. repeat (rewrite length_app || cbn [length]).
  change (length KYLIN_LOGFILE_DDB_DIR) with 12%nat. change (length KYLIN_LOGFILE_DAEMON_DIR) with 8%nat.
  change (length ddb_suffix) with 8%nat. change (length daemon_suffix) with 4%nat. lia.
Qed.

Lemma daemon_init_spares env s p : files s !! p = None ->
  (forall k, (1 <= k <= 9)%nat -> p <> daemon_arch env k) ->
  (forall cmd f, f !! p = None -> shell env cmd f !! p = None) ->
  exists s', __logfile_daemon_init env s = Ok (KYLIN_ERROR_OK, s') /\ files s' !! p = None.
Proof.
  intros Hn Hne Hsh. unfold __logfile_daemon_init.
  assert (Hm : (KYLIN_LOGFILE_ARCH_MAX <= 9)%nat) by apply le_n.
  generalize dependent KYLIN_LOGFILE_ARCH_MAX. intros i Hm.
  destruct (daemon_loop_spares env i s p Hn Hne Hsh Hm) as (s' & E & Hn'). exists s'. split; [|exact Hn']. by run E.
Qed.

Lemma log_of_absent env text s : open_error env (ddb_path env) = None -> files s !! ddb_path env = None ->
  kylin_ddb_log env text s = Ok (KYLIN_ERROR_NOENT, s).
Proof.
  intros Ho Hn.
  assert (Er : open_file env (ddb_path env) None s = Ok (Some KYLIN_ERROR_NOENT, s)).
  { unfold open_file. rewrite Ho. run (eq_refl : get_files s = Ok (files s, s)). by rewrite Hn. }
  unfold kylin_ddb_log. cbv zeta. by run Er.
Qed.

Lemma log_init_leaves_none env s : (length (pname env) <= 4000)%nat -> open_error env (ddb_path env) = None ->
  (forall cmd f, f !! ddb_path env = None -> shell env cmd f !! ddb_path env = None) ->
  exists s', log_init env s = Ok (KYLIN_ERROR_OK, s') /\ files s' !! ddb_path env = None.
Proof.
  intros Hl Ho Hsh. pose proof (ddb_init_eq env s Ho) as E1. pose proof (ddb_init_removes env s _ Hl Ho E1) as Hn1.
  match type of Hn1 with files ?x !! _ = _ => generalize dependent x end. intros s1 E1 Hn1.
  destruct (daemon_init_spares env s1 (ddb_path env) Hn1) as (s2 & E2 & Hn2); [intros k _; by apply daemon_not_ddb|done|].
  exists s2. split; [|exact Hn2]. unfold log_init. run E1. exact E2.
Qed.

(** A process never writes its log: the rotation takes away the file it has
    just created, and [kylin_ddb_log] does not create it again; the error is
    that there is no such file. *)
Theorem ddb_log_never_written env s text :
  (length (pname env) <= 4000)%nat -> open_error env (ddb_path env) = None ->
  (forall cmd f, f !! ddb_path env = None -> shell env cmd f !! ddb_path env = None) ->
  exists s', log_init env s = Ok (KYLIN_ERROR_OK, s') /\ kylin_ddb_log env text s' = Ok (KYLIN_ERROR_NOENT, s').
Proof.
  intros Hl Ho Hsh. destruct (log_init_leaves_none env s Hl Ho Hsh) as (s' & E & Hn).
  exists s'. split; [exact E|by apply log_of_absent].
Qed.

(** ** The record of runs *)
Definition part (off n : nat) (bs : list Z) : list Z := take n (drop off bs).

Lemma part_written off bs old : (off + length bs <= length old)%nat -> part off (length bs) (splice old off bs) = bs.
Proof.
  intros H. unfold part, splice. rewrite drop_app_length' by (rewrite length_take; lia). by rewrite take_app_length.
Qed.
Lemma part_kept off n off' bs old : (off' + length bs <= length old)%nat ->
  (off + n <= off' \/ off' + length bs <= off)%nat -> part off n (splice old off' bs) = part off n old.
Proof.
  intros H Hd. apply list_eq. intros i. unfold part. destruct (decide (i < n)%nat).
  - rewrite !lookup_take_lt, !lookup_drop by done. apply lookup_splice_out; lia.
  - by rewrite !lookup_take_ge by lia.
Qed.
Lemma part_zero off n k : (off + n <= k)%nat -> part off n (replicate k 0) = replicate n 0.
Proof. intros H. unfold part. rewrite drop_replicate, take_replicate. f_equal. lia. Qed.

Section Open.
Context (sys : Shm.system).

(** A step that leaves the handles and the history as they are. *)
Definition looks {A} (f : M Shm.st A) : Prop := forall s r s', f s = Ok (r, s') -> shms s' = shms s /\ hist s' = hist s.

Lemma looks_bind {A B} (f : M Shm.st A) (g : A -> M Shm.st B) : looks f -> (forall x, looks (g x)) -> looks (x ← f; g x).
Proof.
  intros Hf Hg s r s' E. apply bind_Ok_inv in E as (x & s1 & E1 & E).
  apply Hf in E1 as [H1 H2]. apply Hg in E as [H3 H4]. by rewrite H3, H4.
Qed.
Lemma looks_ret {A} (x : A) : looks (mret x).
Proof. by intros s r s' [= _ <-]. Qed.
Lemma looks_lift {A} (o : outcome A) : looks (Shm.lift o).
Proof. intros s r s' E. unfold Shm.lift in E. destruct o; [|done..]. by injection E as _ <-. Qed.
Lemma looks_get_ov : looks get_ov.
Proof. intros s r s' E. unfold get_ov in E. destruct (shm_ov s); [done..|]. by injection E as _ <-. Qed.
Lemma looks_set_ov f : looks (set_ov f).
Proof. intros s r s' E. unfold set_ov in E. destruct (shm_ov s); [done..|]. by injection E as _ <-. Qed.
Local Hint Resolve looks_bind looks_ret looks_lift looks_get_ov looks_set_ov : core.

Lemma looks_find name : looks (object_find name).
Proof. unfold object_find, ov_lock_acquire, ov_lock_release. auto 20. Qed.
Lemma looks_get_obj i : looks (get_obj i).
Proof. unfold get_obj. auto. Qed.
Lemma looks_set_refcnt i n : looks (set_refcnt i n).
Proof. unfold set_refcnt. auto 20. Qed.

Lemma call_inv c s r s' : call sys c s = Ok (r, s') ->
  r = answer sys (c :: hist s) /\ hist s' = c :: hist s /\ shms s' = shms s.
Proof. by intros [= <- <-]. Qed.

(** An open segment was mapped and then zeroed, whatever was in it. *)
Lemma open_wipes name s r s' : kylin_shm_open sys name s = Ok (r, s') -> r <> NULL ->
  exists x fd h, shms s' !! r = Some x /\ hist s' = SysZero (s_addr x) (s_cap x) :: SysMap (s_cap x) fd :: h /\
    answer sys (SysMap (s_cap x) fd :: h) = s_addr x /\ s_addr x <> MAP_FAILED /\ (length (hist s) <= length h)%nat.
Proof.
  intros E Hr. unfold kylin_shm_open in E.
  apply bind_Ok_inv in E as (n & s1 & E1 & E). apply looks_lift in E1 as [_ H1].
  destruct (_ <? n)%nat; [by injection E as <- _|].
  apply bind_Ok_inv in E as (f & s2 & E2 & E). apply looks_find in E2 as [_ H2].
  destruct f as [i|]; [|by injection E as <- _].
  apply bind_Ok_inv in E as (a & s3 & E3 & E). apply call_inv in E3 as (_ & H3 & _).
  destruct (a =? NULL); [by injection E as <- _|].
  apply bind_Ok_inv in E as (? & s4 & E4 & E). injection E4 as _ H4.
  apply bind_Ok_inv in E as (fd & s5 & E5 & E). unfold kshm_open in E5.
  apply bind_Ok_inv in E5 as (p & s5' & E5' & E5). apply looks_lift in E5' as [_ H5'].
  apply call_inv in E5 as (_ & H5 & _).
  apply bind_Ok_inv in E as (o & s6 & E6 & E). apply looks_get_obj in E6 as [_ H6].
  apply bind_Ok_inv in E as (t & s7 & E7 & E).
  assert (H7 : (length (hist s6) <= length (hist s7))%nat).
  { destruct (fd =? -1); [by injection E7 as _ <-|]. apply call_inv in E7 as (_ & -> & _). simpl. lia. }
  destruct ((fd =? -1) || (t =? -1)).
  { apply bind_Ok_inv in E as (? & ? & _ & E). apply bind_Ok_inv in E as (? & ? & _ & E). by injection E as <- _. }
  apply bind_Ok_inv in E as (addr & s8 & E8 & E). apply call_inv in E8 as (Ha & H8 & _).
  destruct (Z.eqb_spec addr MAP_FAILED).
  { apply bind_Ok_inv in E as (? & ? & _ & E). apply bind_Ok_inv in E as (? & ? & _ & E). by injection E as <- _. }
  apply bind_Ok_inv in E as (z & s9 & E9 & E). apply call_inv in E9 as (_ & H9 & _).
  apply bind_Ok_inv in E as (? & s10 & E10 & E).
  apply bind_Ok_inv in E as (? & s11 & E11 & E). apply looks_set_refcnt in E11 as [H11 H11'].
  injection E as <- <-. injection E10 as _ H10. subst s10.
  eexists _, fd, (hist s7). rewrite H11, H11'. simpl. rewrite lookup_insert_eq. split; [done|].
  simpl. rewrite H9, H8. repeat split; [by rewrite Ha|done|].
  rewrite H6, H5 in H7. rewrite H5', <- H4 in H7. simpl in H7. rewrite H3, H2, H1 in H7. simpl in H7. lia.
Qed.
End Open.

Section History.
Context (env : environment).

Lemma on_shm_inv {A} (f : M Shm.st A) s r s' : on_shm env f s = Ok (r, s') ->
  exists t, f (dshm s) = Ok (r, t) /\ dshm s' = t /\ ddb_shm s' = ddb_shm s /\
    mapped_mem s' = replay env (length (hist (dshm s))) (hist t) (mapped_mem s).
Proof. unfold on_shm. destruct (f (dshm s)) as [[x t]| |]; [|done..]. intros [= <- <-]. by exists t. Qed.

Lemma replay_wiped old len fd a h m : answer (shm_sys env) (SysMap len fd :: h) = a -> a <> MAP_FAILED ->
  (old <= length h)%nat ->
  replay env old (SysZero a len :: SysMap len fd :: h) m !! a = Some (replicate (Z.to_nat len) 0).
Proof.
  intros Ha Hf Hl. cbn [replay]. rewrite !(proj2 (Nat.leb_gt _ _)) by (simpl; lia). cbv zeta.
  rewrite Ha, (proj2 (Z.eqb_neq _ _)) by done. rewrite lookup_insert_eq, lookup_insert_eq.
  rewrite drop_ge, app_nil_r; [done|]. rewrite length_take. lia.
Qed.

Lemma open_zeroed name s r s' : on_shm env (kylin_shm_open (shm_sys env) name) s = Ok (r, s') -> r <> NULL ->
  exists x, shms (dshm s') !! r = Some x /\ mapped_mem s' !! s_addr x = Some (replicate (Z.to_nat (s_cap x)) 0).
Proof.
  intros E Hr. apply on_shm_inv in E as (t & E & -> & _ & ->).
  destruct (open_wipes _ _ _ _ _ E Hr) as (x & fd & h & Hx & Hh & Ha & Hf & Hl). exists x. split; [exact Hx|].
  rewrite Hh. by apply replay_wiped.
Qed.

Lemma write_at_parts a off bs s u s' old : mapped_mem s !! a = Some old -> write_at a off bs s = Ok (u, s') ->
  exists new, mapped_mem s' !! a = Some new /\ part (Z.to_nat off) (length bs) new = bs /\
    (forall o n, (o + n <= Z.to_nat off \/ Z.to_nat off + length bs <= o)%nat -> part o n new = part o n old) /\
    length new = length old /\ dshm s' = dshm s /\ ddb_shm s' = ddb_shm s.
Proof.
  unfold write_at. intros ->. unfold write_bytes. destruct (_ && _) eqn:Hb; [|done]. intros [= _ <-].
  apply andb_true_iff in Hb as [H1%Z.leb_le H2%Z.leb_le]. eexists. split; [apply lookup_insert_eq|].
  split; [apply part_written; lia|]. split; [intros o n Hd; apply part_kept; lia|]. split; [apply length_splice; lia|done].
Qed.
Lemma read_at_part a off n s bs s' old : mapped_mem s !! a = Some old -> read_at a off n s = Ok (bs, s') ->
  s' = s /\ bs = part (Z.to_nat off) (Z.to_nat n) old /\ (Z.to_nat off + Z.to_nat n <= length old)%nat.
Proof.
  unfold read_at. intros ->. unfold read_bytes. destruct (_ && _) eqn:Hb; [|done]. intros [= <- <-].
  apply andb_true_iff in Hb as [[H1%Z.leb_le H0%Z.leb_le]%andb_true_iff H2%Z.leb_le]. repeat split. lia.
Qed.

Ltac next_step E s' H := apply bind_Ok_inv in E as (? & s' & H & E).

(** What [another_run] makes of a zeroed record. *)
Lemma another_run_zeroed a now s u s' k : mapped_mem s !! a = Some (replicate k 0) -> another_run a now s = Ok (u, s') ->
  exists bs, mapped_mem s' !! a = Some bs /\ dshm s' = dshm s /\ ddb_shm s' = ddb_shm s /\
    le_value (part 64 2 bs) = 1 /\ part 96 24 bs = replicate 24 0.
Proof.
  intros Hm E. unfold another_run, dget, dput in E.
  next_step E s1 E1. apply bind_Ok_inv in E1 as (b1 & t1 & E1 & [= <- <-]).
  destruct (read_at_part _ _ _ _ _ _ _ Hm E1) as (-> & -> & L1). rewrite length_replicate in L1.
  rewrite part_zero in E by exact L1.
  next_step E s2 E2. destruct (write_at_parts _ _ _ _ _ _ _ Hm E2) as (m2 & M2 & W2 & K2 & N2 & D2 & S2).
  next_step E s3 E3. destruct (read_at_part _ _ _ _ _ _ _ M2 E3) as (-> & -> & L3).
  next_step E s4 E4. destruct (write_at_parts _ _ _ _ _ _ _ M2 E4) as (m4 & M4 & W4 & K4 & N4 & D4 & S4).
  next_step E s5 E5. destruct (write_at_parts _ _ _ _ _ _ _ M4 E5) as (m5 & M5 & W5 & K5 & N5 & D5 & S5).
  next_step E s6 E6. destruct (write_at_parts _ _ _ _ _ _ _ M5 E6) as (m6 & M6 & W6 & K6 & N6 & D6 & S6).
  destruct (write_at_parts _ _ _ _ _ _ _ M6 E) as (m7 & M7 & W7 & K7 & N7 & D7 & S7).
  exists m7. split; [exact M7|]. split; [congruence|]. split; [congruence|].
  rewrite length_replicate in N2. rewrite N2 in L3.
  assert (Z3 : part 72 24 m2 = replicate 24 0) by (rewrite K2 by (right; vm_compute; lia); apply part_zero, L3).
  change (part (Z.to_nat (PROC KYLIN_DDB_PROC_CURRENT)) (Z.to_nat sizeof_proc) m2) with (part 72 24 m2) in W4, K4.
  rewrite Z3 in W4, K4. split.
  - rewrite K7, K6, K5, K4 by (left; vm_compute; lia). exact (f_equal le_value W2).
  - rewrite K7, K6, K5 by (right; vm_compute; lia). exact W4.
Qed.

(** A process that finds the record of its former runs loses it: opening the
    segment zeroes it, so that the record always tells of a first run, before
    which there was no process. *)
Theorem ddb_history_lost now s s1 s' :
  on_shm env (kylin_shm_create (shm_name env) sizeof_ddb) s = Ok (KYLIN_ERROR_EXIST, s1) ->
  __shm_init env now s = Ok (KYLIN_ERROR_OK, s') ->
  exists x bs, shms (dshm s') !! ddb_shm s' = Some x /\ mapped_mem s' !! s_addr x = Some bs /\
    le_value (part 64 2 bs) = 1 /\ part 96 24 bs = replicate 24 0.
Proof.
  intros E1 E. unfold __shm_init in E. rewrite (bind_Ok _ _ _ _ _ E1) in E. cbv beta zeta in E.
  rewrite bool_decide_eq_false_2, bool_decide_eq_true_2 in E by done. cbn [negb andb] in E.
  next_step E s2 E2. apply bind_Ok_inv in E as (? & s3 & E3 & E). injection E3 as _ E3.
  match type of E2 with _ = Ok (?x, _) => rename x into shm end.
  destruct (Z.eqb_spec shm NULL) as [|Hn]; [by injection E|].
  destruct (open_zeroed _ _ _ _ E2 Hn) as (x & Hx & Hm).
  next_step E s4 E4. unfold shm_addr in E4. apply on_shm_inv in E4 as (t & E4 & D4 & S4 & M4).
  unfold kylin_shm_addr in E4. apply bind_Ok_inv in E4 as (y & t' & E4 & [= <- <-]).
  assert (Hd : dshm s3 = dshm s2) by (by subst s3). assert (Hm3 : mapped_mem s3 = mapped_mem s2) by (by subst s3).
  unfold Shm.get_shm in E4. rewrite Hd, Hx in E4. injection E4 as <- <-.
  destruct (_ =? NULL); [by injection E|].
  next_step E s5 E5. injection E as <-.
  assert (Hm4 : mapped_mem s4 = mapped_mem s2).
  { rewrite M4, Hd, Hm3. destruct (hist (dshm s2)); [done|]. cbn [replay]. by rewrite Nat.leb_refl. }
  rewrite <- Hm4 in Hm. destruct (another_run_zeroed _ _ _ _ _ _ Hm E5) as (bs & B & D5 & S5 & R1 & R2).
  exists x, bs. split; [|done]. rewrite D5, D4, S5, S4. by subst s3.
Qed.
End History.

(** ** Concrete runs: a process "d" that may do everything; the shell runs
    nothing *)
Definition sample_env : environment := mk_env sample_sys (replicate 200 7) (fun _ => None) (fun _ f => f) [100].
Definition sample_dst : dst :=
  mk_dst sample_st NULL ∅ (KList.mk_st ∅ (mk_mem ∅ 64 []) None) NULL
    (<[ddb_path sample_env := ([104; 105], 420)]> (<[ddb_arch sample_env 1 := ([111], 420)]> ∅)) ∅ false.
Definition state_of {A} (r : outcome (A * dst)) : dst := match r with Ok (_, s) => s | _ => sample_dst end.

Lemma ddb_log_rotated_witness :
  exists s', __logfile_ddb_init sample_env sample_dst = Ok (KYLIN_ERROR_OK, s') /\
    files s' !! ddb_path sample_env = None /\
    files s' !! ddb_arch sample_env 1 = Some (default ([], LOG_MODE) (files sample_dst !! ddb_path sample_env)) /\
    (forall k, (1 <= k <= 8)%nat -> files s' !! ddb_arch sample_env (S k) = files sample_dst !! ddb_arch sample_env k) /\
    (forall p, p <> ddb_path sample_env -> (forall k, (1 <= k <= 9)%nat -> p <> ddb_arch sample_env k) ->
      files s' !! p = files sample_dst !! p).
Proof. apply (ddb_log_rotated sample_env sample_dst); [vm_compute; lia|reflexivity]. Defined.

Lemma ddb_log_never_written_witness :
  exists s', log_init sample_env sample_dst = Ok (KYLIN_ERROR_OK, s') /\
    kylin_ddb_log sample_env [104; 105] s' = Ok (KYLIN_ERROR_NOENT, s').
Proof. apply (ddb_log_never_written sample_env sample_dst); [vm_compute; lia|reflexivity|by intros cmd f H]. Defined.

(** The second and the third run of the process. *)
Definition second_run : dst := state_of (__shm_init sample_env 5 sample_dst).
Definition third_run : dst := state_of (__shm_init sample_env 9 second_run).

Lemma ddb_history_lost_witness :
  exists x bs, shms (dshm third_run) !! ddb_shm third_run = Some x /\ mapped_mem third_run !! s_addr x = Some bs /\
    le_value (part 64 2 bs) = 1 /\ part 96 24 bs = replicate 24 0.
Proof.
  apply (ddb_history_lost sample_env 9 second_run
    (state_of (on_shm sample_env (kylin_shm_create (shm_name sample_env) sizeof_ddb) second_run))).
  - vm_compute. reflexivity.
  - vm_compute. reflexivity.
Defined.
