(* ===== verification/Rb.v ===== *)
(** * Red-black trees ([lib/core/math/kylin_rb.c])

    A node is a five-word object of the heap: parent, left, right, colour,
    value (the colour's byte and its padding are one word).  The tree header
    is a record of the state.  The functions make one field access per access
    of the source, in its order; a NULL dereference is [Ub].  Walks and
    rebalancing loops take as much fuel as there are objects.  The
    uninitialised or dead third arguments of the rotations are not passed. *)

From Stdlib Require Import Sorting.Sorted.
From S2P Require Import Prelude Errors Bytes Mem MathVal.

Record krb_opts_t := mk_krb_opts {
  val_type : kobj_t;
  val_size : Z;
  compare : cmp_fn;
  val_ctor : option (Z -> M mem Z);
  val_dtor : option (Z -> M mem unit);
  node_ctor : option (Z -> M mem Z);
  node_dtor : option (Z -> M mem unit);
  (** count, min, max and root of a guard from [guard_ctor]; zeroes otherwise *)
  guard_init : Z * Z * Z * Z;
}.

Record krb_t := mk_krb {
  opts : krb_opts_t;
  rb_count : Z;
  rb_min : Z;
  rb_max : Z;
  rb_root : Z;
}.

Record st := mk_st {
  guard : krb_t;
  omem : mem;
  kerrno : option kerr_t;
}.

(** ** Accesses *)
#[export] Instance st_mem : HasMem st.
Proof.
  refine {| mem_of := omem; with_mem s m := mk_st (guard s) m (kerrno s) |}; by intros [].
Defined.

Definition set_kerrno (e : kerr_t) : M st unit := fun s =>
  Ok (tt, mk_st (guard s) (omem s) (Some e)).

Definition RB_RED : Z := 1.
Definition RB_BLACK : Z := 0.

Definition PARENT : nat := 0.
Definition LEFT : nat := 1.
Definition RIGHT : nat := 2.
Definition COLOR : nat := 3.
Definition VAL : nat := 4.
Definition sizeof_node : Z := 40.

Definition RB_PARENT (n : Z) : M st Z := on_mem (read_word n PARENT).
Definition RB_LEFT (n : Z) : M st Z := on_mem (read_word n LEFT).
Definition RB_RIGHT (n : Z) : M st Z := on_mem (read_word n RIGHT).
Definition RB_COLOR (n : Z) : M st Z := on_mem (read_word n COLOR).
Definition RB_VAL (n : Z) : M st Z := on_mem (read_word n VAL).
Definition set_PARENT (n x : Z) : M st unit := on_mem (write_word n PARENT x).
Definition set_LEFT (n x : Z) : M st unit := on_mem (write_word n LEFT x).
Definition set_RIGHT (n x : Z) : M st unit := on_mem (write_word n RIGHT x).
Definition set_COLOR (n x : Z) : M st unit := on_mem (write_word n COLOR x).
Definition set_VAL (n x : Z) : M st unit := on_mem (write_word n VAL x).

Definition get_guard : M st krb_t := fun s => Ok (guard s, s).
Definition RB_ROOT : M st Z := g ← get_guard; mret (rb_root g).
Definition set_ROOT (x : Z) : M st unit := fun s =>
  let g := guard s in
  Ok (tt, mk_st (mk_krb (opts g) (rb_count g) (rb_min g) (rb_max g) x) (omem s) (kerrno s)).

Definition RB_VAL_FREE (o : krb_opts_t) : Z -> M mem unit := default kylin_free (val_dtor o).
Definition RB_NODE_MALLOC (o : krb_opts_t) : Z -> M mem Z := default kylin_malloc (node_ctor o).
Definition RB_NODE_FREE (o : krb_opts_t) : Z -> M mem unit := default kylin_free (node_dtor o).

Definition get_ptr (node : Z) : M st (vptr Z) :=
  g ← get_guard; v ← RB_VAL node; mret (kmath_val_get node v (val_type (opts g))).

Definition fuel_of (s : st) : nat := S (size (blocks (omem s))).

(** The child link of [p] that points to [node] is redirected to [x]. *)
Definition replace_child (p node x : Z) : M st unit :=
  l ← RB_LEFT p; if l =? node then set_LEFT p x else set_RIGHT p x.

(** ** Rotations *)
Definition _rotate_left (node : Z) : M st unit :=
  tmp ← RB_RIGHT node;
  l ← RB_LEFT tmp; _ ← set_RIGHT node l;
  _ ← (if negb (l =? NULL) then l ← RB_LEFT tmp; set_PARENT l node else mret tt);
  p ← RB_PARENT node; _ ← set_PARENT tmp p;
  _ ← (if negb (p =? NULL) then p ← RB_PARENT node; replace_child p node tmp else set_ROOT tmp);
  _ ← set_LEFT tmp node; set_PARENT node tmp.

Definition _rotate_right (node : Z) : M st unit :=
  tmp ← RB_LEFT node;
  r ← RB_RIGHT tmp; _ ← set_LEFT node r;
  _ ← (if negb (r =? NULL) then r ← RB_RIGHT tmp; set_PARENT r node else mret tt);
  p ← RB_PARENT node; _ ← set_PARENT tmp p;
  _ ← (if negb (p =? NULL) then p ← RB_PARENT node; replace_child p node tmp else set_ROOT tmp);
  _ ← set_RIGHT tmp node; set_PARENT node tmp.

(** ** Rebalancing *)

(** [node && RB_COLOR(node) == RB_RED] *)
Definition is_red (n : Z) : M st bool :=
  if n =? NULL then mret false else c ← RB_COLOR n; mret (c =? RB_RED).
(** [node == NULL || RB_COLOR(node) == RB_BLACK] *)
Definition is_black (n : Z) : M st bool :=
  if n =? NULL then mret true else c ← RB_COLOR n; mret (c =? RB_BLACK).

Definition recolor (tmp parent gparent : Z) : M st unit :=
  _ ← set_COLOR tmp RB_BLACK; _ ← set_COLOR parent RB_BLACK; set_COLOR gparent RB_RED.

Fixpoint insert_color_loop (fuel : nat) (node : Z) : M st unit :=
  match fuel with
  | O => out_of_fuel
  | S fuel =>
      parent ← RB_PARENT node;
      red ← is_red parent;
      if negb red then mret tt else
      gparent ← RB_PARENT parent;
      gl ← RB_LEFT gparent;
      if parent =? gl then
        tmp ← RB_RIGHT gparent;
        red ← is_red tmp;
        if red : bool then _ ← recolor tmp parent gparent; insert_color_loop fuel gparent else
        pr ← RB_RIGHT parent;
        '(node, parent) ← (if pr =? node then _ ← _rotate_left parent; mret (parent, node)
                           else mret (node, parent));
        _ ← set_COLOR parent RB_BLACK; _ ← set_COLOR gparent RB_RED;
        _ ← _rotate_right gparent; insert_color_loop fuel node
      else
        tmp ← RB_LEFT gparent;
        red ← is_red tmp;
        if red : bool then _ ← recolor tmp parent gparent; insert_color_loop fuel gparent else
        pl ← RB_LEFT parent;
        '(node, parent) ← (if pl =? node then _ ← _rotate_right parent; mret (parent, node)
                           else mret (node, parent));
        _ ← set_COLOR parent RB_BLACK; _ ← set_COLOR gparent RB_RED;
        _ ← _rotate_left gparent; insert_color_loop fuel node
  end.

Definition _insert_color (node : Z) : M st unit :=
  s ← get_st; _ ← insert_color_loop (fuel_of s) node; r ← RB_ROOT; set_COLOR r RB_BLACK.

(** Both children of the sibling are black. *)
Definition both_black (tmp : Z) : M st bool :=
  l ← RB_LEFT tmp; bl ← is_black l;
  if negb bl then mret false else r ← RB_RIGHT tmp; is_black r.

Fixpoint remove_color_loop (fuel : nat) (parent node : Z) : M st Z :=
  match fuel with
  | O => out_of_fuel
  | S fuel =>
      black ← is_black node;
      r ← RB_ROOT;
      if negb (black && negb (node =? r)) then mret node else
      pl ← RB_LEFT parent;
      if pl =? node then
        tmp ← RB_RIGHT parent;
        c ← RB_COLOR tmp;
        tmp ← (if c =? RB_RED then
                 _ ← set_COLOR tmp RB_BLACK; _ ← set_COLOR parent RB_RED;
                 _ ← _rotate_left parent; RB_RIGHT parent
               else mret tmp);
        bb ← both_black tmp;
        if bb : bool then
          _ ← set_COLOR tmp RB_RED; p ← RB_PARENT parent; remove_color_loop fuel p parent
        else
          tr ← RB_RIGHT tmp; rb ← is_black tr;
          tmp ← (if rb : bool then
                   oleft ← RB_LEFT tmp;
                   _ ← (if negb (oleft =? NULL) then set_COLOR oleft RB_BLACK else mret tt);
                   _ ← set_COLOR tmp RB_RED;
                   _ ← _rotate_right tmp; RB_RIGHT parent
                 else mret tmp);
          c ← RB_COLOR parent; _ ← set_COLOR tmp c; _ ← set_COLOR parent RB_BLACK;
          tr ← RB_RIGHT tmp;
          _ ← (if negb (tr =? NULL) then set_COLOR tr RB_BLACK else mret tt);
          _ ← _rotate_left parent; RB_ROOT
      else
        tmp ← RB_LEFT parent;
        c ← RB_COLOR tmp;
        tmp ← (if c =? RB_RED then
                 _ ← set_COLOR tmp RB_BLACK; _ ← set_COLOR parent RB_RED;
                 _ ← _rotate_right parent; RB_LEFT parent
               else mret tmp);
        bb ← both_black tmp;
        if bb : bool then
          _ ← set_COLOR tmp RB_RED; p ← RB_PARENT parent; remove_color_loop fuel p parent
        else
          tl ← RB_LEFT tmp; lb ← is_black tl;
          tmp ← (if lb : bool then
                   oright ← RB_RIGHT tmp;
                   _ ← (if negb (oright =? NULL) then set_COLOR oright RB_BLACK else mret tt);
                   _ ← set_COLOR tmp RB_RED;
                   _ ← _rotate_left tmp; RB_LEFT parent
                 else mret tmp);
          c ← RB_COLOR parent; _ ← set_COLOR tmp c; _ ← set_COLOR parent RB_BLACK;
          tl ← RB_LEFT tmp;
          _ ← (if negb (tl =? NULL) then set_COLOR tl RB_BLACK else mret tt);
          _ ← _rotate_right parent; RB_ROOT
  end.

Definition _remove_color (parent node : Z) : M st unit :=
  s ← get_st; node ← remove_color_loop (fuel_of s) parent node;
  if negb (node =? NULL) then set_COLOR node RB_BLACK else mret tt.

(** ** Creation and accessors *)
Definition sizeof_rb : Z := 112.
Definition kylin_rb_create (o : krb_opts_t) (m : mem) : option krb_t * mem * option kerr_t :=
  match alloc_addr sizeof_rb m with
  | (Some _, m) =>
      let '(c, mn, mx, r) := guard_init o in (Some (mk_krb o c mn mx r), m, None)
  | (None, m) => (None, m, Some KYLIN_ERROR_NOMEM)
  end.

Definition kylin_rb_clear : M st unit := mret tt.
Definition kylin_rb_val (node : Z) : M st (vptr Z) := get_ptr node.
Definition kylin_rb_count : M st Z := g ← get_guard; mret (rb_count g).
Definition kylin_rb_min : M st Z := g ← get_guard; mret (rb_min g).
Definition kylin_rb_max : M st Z := g ← get_guard; mret (rb_max g).

(** ** Insertion *)

(** The descent of the two insertions: [None] when an equal node exists,
    otherwise the final [tmp], [parent] and [result]. *)
Fixpoint descend (fuel : nat) (node tmp parent result : Z) : M st (option (Z * Z * Z)) :=
  match fuel with
  | O => out_of_fuel
  | S fuel =>
      if tmp =? NULL then mret (Some (tmp, parent, result)) else
      v1 ← RB_VAL node; v2 ← RB_VAL tmp; s ← get_st;
      let o := opts (guard s) in
      let result := kmath_val_cmp (omem s) v1 v2 (val_type o) (compare o) in
      if result <? 0 then l ← RB_LEFT tmp; descend fuel node l tmp result
      else if 0 <? result then r ← RB_RIGHT tmp; descend fuel node r tmp result
      else mret None
  end.

(** The node is linked under [parent], or becomes the root; then recoloured. *)
Definition link_node (node tmp parent result : Z) : M st unit :=
  _ ← set_PARENT node parent;
  _ ← set_RIGHT node NULL; _ ← set_LEFT node NULL;
  _ ← set_COLOR node RB_RED;
  _ ← (if negb (tmp =? NULL) then
         if result <? 0 then set_LEFT parent node else set_RIGHT parent node
       else set_ROOT node);
  _insert_color node.

Definition kylin_rb_insert_raw (node : Z) : M st unit :=
  root ← RB_ROOT; s ← get_st;
  r ← descend (fuel_of s) node root NULL 0;
  match r with
  | None => set_kerrno KYLIN_ERROR_EXIST
  | Some (tmp, parent, result) => link_node node tmp parent result
  end.

Section Destructors.
Context (nested : nested_dtors).

(** [kmath_val_dtor(&RB_VAL(node), ...)]: the value of an integer type is not
    read. *)
Definition val_destroy (node : Z) : M st unit :=
  g ← get_guard;
  let o := opts g in
  match int_type (val_type o) with
  | Some _ => mret tt
  | None => v ← RB_VAL node; on_mem (kmath_val_dtor nested v (val_type o) (Some (RB_VAL_FREE o)))
  end.

Definition kylin_rb_insert (elm : Z) : M st (vptr Z) :=
  g ← get_guard;
  let o := opts g in
  node ← on_mem (RB_NODE_MALLOC o sizeof_node);
  if node =? NULL then _ ← set_kerrno KYLIN_ERROR_NOMEM; mret (PObj NULL) else
  v ← on_mem (kmath_val_ctor elm (val_type o) (val_size o) (val_ctor o));
  _ ← set_VAL node v;
  s ← get_st;
  r ← descend (fuel_of s) node (rb_root g) NULL 0;
  match r with
  | None => _ ← val_destroy node; _ ← on_mem (RB_NODE_FREE o node); mret (PObj NULL)
  | Some (tmp, parent, result) => _ ← link_node node tmp parent result; get_ptr node
  end.

(** ** Searching *)
Fixpoint find_loop (fuel : nat) (cmp tmp : Z) : M st Z :=
  match fuel with
  | O => out_of_fuel
  | S fuel =>
      if tmp =? NULL then mret NULL else
      v ← RB_VAL tmp; g ← get_guard;
      result ← on_mem (kmath_val_cmp_raw v cmp (val_type (opts g)) (compare (opts g)));
      if result <? 0 then r ← RB_RIGHT tmp; find_loop fuel cmp r
      else if 0 <? result then l ← RB_LEFT tmp; find_loop fuel cmp l
      else mret tmp
  end.

Definition kylin_rb_find_raw (cmp : Z) : M st Z :=
  root ← RB_ROOT; s ← get_st; find_loop (fuel_of s) cmp root.

Definition kylin_rb_find (cmp : Z) : M st (vptr Z) :=
  node ← kylin_rb_find_raw cmp;
  if node =? NULL then mret (PObj NULL) else get_ptr node.

(** The node found, or the last one left to the right; and whether it was found. *)
Fixpoint find_or_loop (fuel : nat) (cmp tmp res : Z) : M st (Z * bool) :=
  match fuel with
  | O => out_of_fuel
  | S fuel =>
      if tmp =? NULL then mret (res, false) else
      v ← RB_VAL tmp; g ← get_guard;
      result ← on_mem (kmath_val_cmp_raw v cmp (val_type (opts g)) (compare (opts g)));
      if result <? 0 then r ← RB_RIGHT tmp; find_or_loop fuel cmp r tmp
      else if 0 <? result then l ← RB_LEFT tmp; find_or_loop fuel cmp l res
      else mret (tmp, true)
  end.

Definition kylin_rb_find_or_next_raw (cmp : Z) : M st Z :=
  root ← RB_ROOT; s ← get_st;
  '(n, _) ← find_or_loop (fuel_of s) cmp root NULL; mret n.

(** A found node gives its value pointer, the other case the node itself. *)
Definition kylin_rb_find_or_next (cmp : Z) : M st (vptr Z) :=
  root ← RB_ROOT; s ← get_st;
  '(n, found) ← find_or_loop (fuel_of s) cmp root NULL;
  if found : bool then get_ptr n else mret (PObj n).

(** ** Neighbours *)
Fixpoint leftmost (fuel : nat) (tmp : Z) : M st Z :=
  match fuel with
  | O => out_of_fuel
  | S fuel => l ← RB_LEFT tmp; if l =? NULL then mret tmp else leftmost fuel l
  end.
Fixpoint rightmost (fuel : nat) (tmp : Z) : M st Z :=
  match fuel with
  | O => out_of_fuel
  | S fuel => r ← RB_RIGHT tmp; if r =? NULL then mret tmp else rightmost fuel r
  end.

(** [while(RB_PARENT(tmp) && tmp == side(RB_PARENT(tmp))) tmp = RB_PARENT(tmp)] *)
Fixpoint climb (side : Z -> M st Z) (fuel : nat) (tmp : Z) : M st Z :=
  match fuel with
  | O => out_of_fuel
  | S fuel =>
      p ← RB_PARENT tmp;
      if p =? NULL then mret tmp else
      c ← side p; if tmp =? c then climb side fuel p else mret tmp
  end.

Definition kylin_rb_next_raw (node : Z) : M st Z :=
  s ← get_st;
  r ← RB_RIGHT node;
  if negb (r =? NULL) then leftmost (fuel_of s) r else
  p ← RB_PARENT node;
  is_left ← (if p =? NULL then mret false else l ← RB_LEFT p; mret (node =? l));
  if is_left : bool then RB_PARENT node
  else tmp ← climb RB_RIGHT (fuel_of s) node; RB_PARENT tmp.

Definition kylin_rb_prev_raw (node : Z) : M st Z :=
  s ← get_st;
  l ← RB_LEFT node;
  if negb (l =? NULL) then rightmost (fuel_of s) l else
  p ← RB_PARENT node;
  is_right ← (if p =? NULL then mret false else r ← RB_RIGHT p; mret (node =? r));
  if is_right : bool then RB_PARENT node
  else tmp ← climb RB_LEFT (fuel_of s) node; RB_PARENT tmp.

Definition neighbour (step : Z -> M st Z) (cmp : Z) : M st (vptr Z) :=
  node ← kylin_rb_find_raw cmp;
  if node =? NULL then mret (PObj NULL) else
  node ← step node;
  if node =? NULL then mret (PObj NULL) else get_ptr node.

Definition kylin_rb_next (cmp : Z) : M st (vptr Z) := neighbour kylin_rb_next_raw cmp.
Definition kylin_rb_prev (cmp : Z) : M st (vptr Z) := neighbour kylin_rb_prev_raw cmp.

(** ** Removal *)

(** [node], with at most one child, is replaced by it: the colour of [node],
    its parent and the child. *)
Definition splice_out (node child : Z) : M st (Z * Z) :=
  parent ← RB_PARENT node;
  color ← RB_COLOR node;
  _ ← (if negb (child =? NULL) then set_PARENT child parent else mret tt);
  _ ← (if negb (parent =? NULL) then replace_child parent node child else set_ROOT child);
  mret (parent, color).

(** The case of two children: the leftmost node of the right subtree takes the
    place of [old] in the links of its neighbours. *)
Definition splice_successor (old : Z) : M st (Z * Z * Z) :=
  s ← get_st;
  r ← RB_RIGHT old;
  node ← leftmost (fuel_of s) r;
  child ← RB_RIGHT node;
  '(parent, color) ← splice_out node child;
  np ← RB_PARENT node;
  let parent := if np =? old then node else parent in
  op ← RB_PARENT old;
  _ ← (if negb (op =? NULL) then replace_child op old node else set_ROOT node);
  ol ← RB_LEFT old; _ ← set_PARENT ol node;
  or ← RB_RIGHT old;
  _ ← (if negb (or =? NULL) then set_PARENT or node else mret tt);
  mret (parent, color, child).

Definition kylin_rb_unlink_raw (node : Z) : M st Z :=
  l ← RB_LEFT node; r ← RB_RIGHT node;
  '(parent, color, child) ←
    (if l =? NULL then '(p, c) ← splice_out node r; mret (p, c, r)
     else if r =? NULL then '(p, c) ← splice_out node l; mret (p, c, l)
     else splice_successor node);
  _ ← (if color =? RB_BLACK then _remove_color parent child else mret tt);
  mret node.

Definition kylin_rb_remove_raw (node : Z) : M st unit :=
  old ← kylin_rb_unlink_raw node;
  _ ← val_destroy old;
  g ← get_guard; on_mem (RB_NODE_FREE (opts g) old).

Definition kylin_rb_remove (cmp : Z) : M st unit :=
  tmp ← kylin_rb_find_raw cmp;
  if tmp =? NULL then set_kerrno KYLIN_ERROR_NOENT else kylin_rb_remove_raw tmp.

Definition kylin_rb_unlink (cmp : Z) : M st (vptr Z) :=
  tmp ← kylin_rb_find_raw cmp;
  if tmp =? NULL then _ ← set_kerrno KYLIN_ERROR_NOENT; mret (PObj NULL) else
  tmp ← kylin_rb_unlink_raw tmp;
  if tmp =? NULL then _ ← set_kerrno KYLIN_ERROR_NOENT; mret (PObj NULL) else
  g ← get_guard;
  result ← get_ptr tmp;
  _ ← on_mem (RB_NODE_FREE (opts g) tmp);
  mret result.

(** [do ... while(node)], then the header is freed. *)
Fixpoint destroy_loop (fuel : nat) : M st unit :=
  match fuel with
  | O => out_of_fuel
  | S fuel =>
      node ← kylin_rb_min;
      _ ← val_destroy node;
      _ ← kylin_rb_remove node;
      if negb (node =? NULL) then destroy_loop fuel else mret tt
  end.

Definition kylin_rb_destroy : M st unit := s ← get_st; destroy_loop (fuel_of s).
End Destructors.

(** ** Trees in memory *)

Inductive tree := Leaf | Node (a c v : Z) (l r : tree).

Definition root_of (t : tree) : Z := match t with Leaf => NULL | Node a _ _ _ _ => a end.

(** The nodes in order: address and value. *)
Fixpoint inorder (t : tree) : list (Z * Z) :=
  match t with Leaf => [] | Node a _ v l r => inorder l ++ (a, v) :: inorder r end.
Abbreviation addrs t := ((inorder t).*1).

Fixpoint height (t : tree) : nat :=
  match t with Leaf => 0 | Node _ _ _ l r => S (height l `max` height r) end.

Fixpoint tree_at (m : mem) (p : Z) (t : tree) : Prop :=
  match t with
  | Leaf => True
  | Node a c v l r =>
      words_at m a [p; root_of l; root_of r; c; v] /\ a <> NULL /\ tree_at m a l /\ tree_at m a r
  end.

Lemma tree_at_same m m' p t :
  (forall a, a ∈ addrs t -> same_at m m' a) -> tree_at m p t -> tree_at m' p t.
Proof.
  revert p. induction t as [|a c v l IHl r IHr]; intros p Hs; simpl; [done|].
  intros (Hw & Hn & Hl & Hr). simpl in Hs. rewrite fmap_app in Hs. simpl in Hs. split_and!.
  - eapply words_at_same; [|exact Hw]. apply Hs. set_solver.
  - done.
  - apply IHl; [|done]. intros b Hb. apply Hs. set_solver.
  - apply IHr; [|done]. intros b Hb. apply Hs. set_solver.
Qed.

Lemma tree_at_keeps X m m' p t :
  keeps X m m' -> (forall a, a ∈ addrs t -> a ∉ X) -> tree_at m p t -> tree_at m' p t.
Proof. intros (_ & _ & _ & K) H. apply tree_at_same. auto. Qed.

Lemma tree_at_live m p t a : tree_at m p t -> a ∈ addrs t -> is_Some (blocks m !! a).
Proof.
  revert p. induction t as [|b c v l IHl r IHr]; intros p; simpl; [set_solver|].
  intros ([Hw _] & _ & Hl & Hr) Ha. rewrite fmap_app in Ha. simpl in Ha.
  apply elem_of_app in Ha as [Ha|[->|Ha]%elem_of_cons]; [by eapply IHl|by eexists|by eapply IHr].
Qed.

Lemma height_le_length t : (height t <= length (inorder t))%nat.
Proof. induction t; simpl; [done|]. rewrite length_app. simpl. lia. Qed.

Lemma height_lt_fuel s p t : tree_at (omem s) p t -> NoDup (addrs t) -> (height t < fuel_of s)%nat.
Proof.
  intros Ht Hnd. unfold fuel_of. pose proof (height_le_length t).
  pose proof (live_le_size (omem s) (addrs t)) as Hs. rewrite length_fmap in Hs.
  enough (length (inorder t) <= size (blocks (omem s)))%nat by lia.
  apply Hs; [|done]. intros a Ha. by eapply tree_at_live.
Qed.

(** ** Symbolic execution *)

Ltac write E := erewrite bind_Ok by (apply E; reflexivity); cbn [with_mem st_mem guard kerrno].
(** The last statement of a block. *)
Ltac write_end E :=
  etransitivity; [apply E; reflexivity|]; cbn [with_mem st_mem guard kerrno]; reflexivity.

(** ** Searching *)

(** The order of a node against the key: the comparison of an object type. *)
Definition ord (o : krb_opts_t) (m : mem) (key : Z) (x : Z * Z) : Z := compare o m (snd x) key.

Definition by_compare (o : krb_opts_t) : Prop := kobj_code (val_type o) >= kobj_code KOBJ_NORMAL.

Lemma cmp_raw_object o v key m :
  by_compare o ->
  kmath_val_cmp_raw v key (val_type o) (compare o) m = Ok (compare o m v key, m).
Proof.
  unfold by_compare, kmath_val_cmp_raw. intros H.
  by rewrite (proj2 (Z.ltb_ge (kobj_code (val_type o)) (kobj_code KOBJ_NORMAL))) by lia.
Qed.

(** Along the order of the nodes the comparison with the key never decreases. *)
Definition monotone_for (o : krb_opts_t) (m : mem) (key : Z) (t : tree) : Prop :=
  StronglySorted (fun x y => ord o m key x <= ord o m key y) (inorder t).

Lemma sorted_app_inv {A} (R : A -> A -> Prop) l1 l2 :
  StronglySorted R (l1 ++ l2) ->
  StronglySorted R l1 /\ StronglySorted R l2 /\ forall x y, x ∈ l1 -> y ∈ l2 -> R x y.
Proof.
  induction l1 as [|a l1 IH]; simpl; intros H.
  - split_and!; [constructor|done|]. intros x y Hx. by apply elem_of_nil in Hx.
  - inversion H as [|?? Hs Hf]; subst. destruct (IH Hs) as (H1 & H2 & H3).
    rewrite Forall_app in Hf. destruct Hf as [Hf1 Hf2]. split_and!; [by constructor|done|].
    intros x y [->|Hx]%elem_of_cons Hy; [|by apply H3]. rewrite Forall_forall in Hf2. by apply Hf2.
Qed.

(** What a search may return: a node equal to the key if there is one. *)
Definition search_result (o : krb_opts_t) (m : mem) (key : Z) (l : list (Z * Z)) (n : Z) : Prop :=
  (exists v, (n, v) ∈ l /\ ord o m key (n, v) = 0) \/
  (n = NULL /\ forall x, x ∈ l -> ord o m key x <> 0).

Lemma find_loop_spec g m e key p t fuel :
  tree_at m p t -> by_compare (opts g) -> monotone_for (opts g) m key t -> (height t < fuel)%nat ->
  exists n, find_loop fuel key (root_of t) (mk_st g m e) = Ok (n, mk_st g m e) /\
    search_result (opts g) m key (inorder t) n.
Proof.
  intros Ht Hc Hm Hf. revert p fuel Ht Hf. unfold monotone_for in Hm.
  induction t as [|a c v l IHl r IHr]; intros p [|fuel] Ht Hf; simpl in *; try lia.
  { exists NULL. split; [done|]. right. split; [done|]. intros x Hx. by apply elem_of_nil in Hx. }
  destruct Ht as (Hw & Hn & Hl & Hr).
  apply sorted_app_inv in Hm as (Sl & Sr & Hlr). inversion Sr as [|?? Sr' Hge]; subst.
  rewrite Forall_forall in Hge.
  rewrite (proj2 (Z.eqb_neq _ _)) by done. reads Hw.
  run (eq_refl : get_guard (mk_st g m e) = Ok (g, _)).
  assert (Ec : on_mem (kmath_val_cmp_raw v key (val_type (opts g)) (compare (opts g))) (mk_st g m e) =
    Ok (ord (opts g) m key (a, v), mk_st g m e))
    by (apply on_mem_pure; exact (cmp_raw_object _ v key m Hc)).
  run Ec. destruct (Z.ltb_spec (ord (opts g) m key (a, v)) 0) as [H|H];
    [|destruct (Z.ltb_spec 0 (ord (opts g) m key (a, v))) as [H'|H']].
  - reads Hw. destruct (IHr Sr' a fuel Hr ltac:(lia)) as (n & E & HS). exists n. split; [exact E|].
    destruct HS as [(w & Hin & Hz)|[-> Hnone]]; [left; exists w; set_solver|].
    right. split; [done|]. intros x [Hx|[->|Hx]%elem_of_cons]%elem_of_app; [|lia|by apply Hnone].
    pose proof (Hlr x (a, v) Hx ltac:(set_solver)). lia.
  - reads Hw. destruct (IHl Sl a fuel Hl ltac:(lia)) as (n & E & HS). exists n. split; [exact E|].
    destruct HS as [(w & Hin & Hz)|[-> Hnone]]; [left; exists w; set_solver|].
    right. split; [done|]. intros x [Hx|[->|Hx]%elem_of_cons]%elem_of_app; [by apply Hnone|lia|].
    pose proof (Hge x Hx). lia.
  - exists a. split; [done|]. left. exists v. split; [set_solver|lia].
Qed.

Record rb_rep (s : st) (t : tree) : Prop := {
  rep_tree : tree_at (omem s) NULL t;
  rep_root : rb_root (guard s) = root_of t;
  rep_nodup : NoDup (addrs t);
}.

Lemma rb_find_raw_spec s t key :
  rb_rep s t -> by_compare (opts (guard s)) -> monotone_for (opts (guard s)) (omem s) key t ->
  exists n, kylin_rb_find_raw key s = Ok (n, s) /\
    search_result (opts (guard s)) (omem s) key (inorder t) n.
Proof.
  intros [Ht Hr Hnd] Hc Hm. pose proof (height_lt_fuel s NULL t Ht Hnd) as Hf.
  destruct s as [g m e]. simpl in *.
  destruct (find_loop_spec g m e key NULL t _ Ht Hc Hm Hf) as (n & E & HS).
  exists n. split; [|done]. rewrite <- Hr in E. exact E.
Qed.

(** What [find_or_next] returns: a node equal to the key, or the last node
    below it, or NULL. *)
Definition below_result (o : krb_opts_t) (m : mem) (key : Z) (l : list (Z * Z)) (dflt : Z)
    (r : Z * bool) : Prop :=
  match r with
  | (n, true) => exists v, (n, v) ∈ l /\ ord o m key (n, v) = 0
  | (n, false) =>
      exists l1 l2, l = l1 ++ l2 /\ (forall x, x ∈ l1 -> ord o m key x < 0) /\
        (forall x, x ∈ l2 -> 0 < ord o m key x) /\
        n = match last l1 with Some (a, _) => a | None => dflt end
  end.

Lemma find_or_loop_spec g m e key p t fuel res :
  tree_at m p t -> by_compare (opts g) -> monotone_for (opts g) m key t -> (height t < fuel)%nat ->
  exists r, find_or_loop fuel key (root_of t) res (mk_st g m e) = Ok (r, mk_st g m e) /\
    below_result (opts g) m key (inorder t) res r.
Proof.
  intros Ht Hc Hm Hf. revert p fuel res Ht Hf. unfold monotone_for in Hm.
  induction t as [|a c v l IHl r IHr]; intros p [|fuel] res Ht Hf; simpl in *; try lia.
  { exists (res, false). split; [done|]. exists [], []. set_solver. }
  destruct Ht as (Hw & Hn & Hl & Hr).
  apply sorted_app_inv in Hm as (Sl & Sr & Hlr). inversion Sr as [|?? Sr' Hge]; subst.
  rewrite Forall_forall in Hge.
  rewrite (proj2 (Z.eqb_neq _ _)) by done. reads Hw.
  run (eq_refl : get_guard (mk_st g m e) = Ok (g, _)).
  assert (Ec : on_mem (kmath_val_cmp_raw v key (val_type (opts g)) (compare (opts g))) (mk_st g m e) =
    Ok (ord (opts g) m key (a, v), mk_st g m e))
    by (apply on_mem_pure; exact (cmp_raw_object _ v key m Hc)).
  run Ec. destruct (Z.ltb_spec (ord (opts g) m key (a, v)) 0) as [H|H];
    [|destruct (Z.ltb_spec 0 (ord (opts g) m key (a, v))) as [H'|H']].
  - reads Hw. destruct (IHr Sr' a fuel a Hr ltac:(lia)) as ([n []] & E & HS);
      (eexists; split; [exact E|]).
    + destruct HS as (w & Hin & Hz). exists w. set_solver.
    + destruct HS as (l1 & l2 & Hi & H1 & H2 & Hres). exists (inorder l ++ (a, v) :: l1), l2.
      rewrite Hi, <- app_assoc. split_and!; [done| |done|].
      * intros x [Hx|[->|Hx]%elem_of_cons]%elem_of_app; [|lia|by apply H1].
        pose proof (Hlr x (a, v) Hx ltac:(set_solver)). lia.
      * rewrite last_app, last_cons. by destruct (last l1) as [[? ?]|].
  - reads Hw. destruct (IHl Sl a fuel res Hl ltac:(lia)) as ([n []] & E & HS);
      (eexists; split; [exact E|]).
    + destruct HS as (w & Hin & Hz). exists w. set_solver.
    + destruct HS as (l1 & l2 & Hi & H1 & H2 & Hres). exists l1, (l2 ++ (a, v) :: inorder r).
      rewrite Hi, <- app_assoc. split_and!; [done|done| |done].
      intros x [Hx|[->|Hx]%elem_of_cons]%elem_of_app; [by apply H2|lia|].
      pose proof (Hge x Hx). lia.
  - exists (a, true). split; [done|]. exists v. split; [set_solver|lia].
Qed.

(** C27. On a tree whose nodes are ordered with respect to the key, with an
    object type, [kylin_rb_find_raw] returns a node that compares equal exactly
    when there is one, and NULL otherwise; [kylin_rb_find_or_next_raw] returns
    an equal node too, but otherwise the last node below the key, not the next
    one above it. *)
Theorem rb_search s t key :
  rb_rep s t -> by_compare (opts (guard s)) -> monotone_for (opts (guard s)) (omem s) key t ->
  (exists n, kylin_rb_find_raw key s = Ok (n, s) /\
    search_result (opts (guard s)) (omem s) key (inorder t) n) /\
  (exists r, kylin_rb_find_or_next_raw key s = Ok (fst r, s) /\
    below_result (opts (guard s)) (omem s) key (inorder t) NULL r).
Proof.
  intros HR Hc Hm. split; [by apply rb_find_raw_spec|].
  destruct HR as [Ht Hr Hnd]. pose proof (height_lt_fuel s NULL t Ht Hnd) as Hf.
  destruct s as [g m e]. simpl in *.
  destruct (find_or_loop_spec g m e key NULL t _ NULL Ht Hc Hm Hf) as ([n b] & E & HS).
  exists (n, b). split; [|done]. unfold kylin_rb_find_or_next_raw.
  rewrite <- Hr in E. run (eq_refl : RB_ROOT (mk_st g m e) = Ok (rb_root g, mk_st g m e)).
  run (eq_refl : get_st (mk_st g m e) = Ok (mk_st g m e, mk_st g m e)). by run E.
Qed.

(** A tree of three nodes for the witnesses: values 10, 20, 30. *)
Definition ex_tree : tree := Node 80 0 20 (Node 32 1 10 Leaf Leaf) (Node 128 1 30 Leaf Leaf).
Definition ex_opts : krb_opts_t :=
  mk_krb_opts KOBJ_OTHERS 8 (fun _ v k => v - k) None (Some (fun _ => mret tt)) None None (0, 0, 0, 0).
Definition ex_mem : mem :=
  mk_mem {[32 := enc_words [80; 0; 0; 1; 10]; 80 := enc_words [0; 32; 128; 0; 20];
           128 := enc_words [80; 0; 0; 1; 30]]} 200 [].
Definition ex_st : st := mk_st (mk_krb ex_opts 0 0 0 80) ex_mem None.

Lemma ex_tree_rep : rb_rep ex_st ex_tree.
Proof.
  split; [|done|].
  - simpl. split_and!; try done; repeat constructor; done.
  - apply (bool_decide_unpack _). by vm_compute.
Qed.

Lemma ex_sorted key : monotone_for ex_opts ex_mem key ex_tree.
Proof. unfold monotone_for. simpl. repeat constructor; unfold ord; simpl; lia. Qed.

Lemma rb_search_witness :
  (exists n, kylin_rb_find_raw 30 ex_st = Ok (n, ex_st) /\
    search_result ex_opts ex_mem 30 (inorder ex_tree) n) /\
  (exists r, kylin_rb_find_or_next_raw 25 ex_st = Ok (fst r, ex_st) /\
    below_result ex_opts ex_mem 25 (inorder ex_tree) NULL r).
Proof.
  split; [apply (rb_search ex_st ex_tree 30 ex_tree_rep)|apply (rb_search ex_st ex_tree 25 ex_tree_rep)];
    try apply ex_sorted; done.
Defined.

(** Below 30 the search for 25 stops at 20: the previous node. *)
Lemma find_or_next_is_previous :
  exists s, kylin_rb_find_or_next_raw 25 ex_st = Ok (80, s).
Proof. eexists. vm_compute. reflexivity. Qed.

(** ** Neighbours

    [next] and [prev] are the same walk with the sides exchanged: [true] is
    the walk to the right. *)

Definition near {A} (b : bool) (l r : A) : A := if b then l else r.
Definition far {A} (b : bool) (l r : A) : A := if b then r else l.

Fixpoint walk (b : bool) (t : tree) : list (Z * Z) :=
  match t with
  | Leaf => []
  | Node a _ v l r => near b (walk b l) (walk b r) ++ (a, v) :: far b (walk b l) (walk b r)
  end.

Lemma walk_true t : walk true t = inorder t.
Proof. induction t as [|a c v l IHl r IHr]; simpl; [done|]. by rewrite IHl, IHr. Qed.

Lemma walk_false t : walk false t = rev (inorder t).
Proof.
  induction t as [|a c v l IHl r IHr]; simpl; [done|].
  rewrite IHl, IHr, rev_app_distr. simpl. by rewrite <- app_assoc.
Qed.

Definition child (b : bool) (n : Z) : M st Z := if b then RB_LEFT n else RB_RIGHT n.
Definition extreme (b : bool) : nat -> Z -> M st Z := if b then leftmost else rightmost.

Definition step_raw (b : bool) (node : Z) : M st Z :=
  s ← get_st;
  r ← child (negb b) node;
  if negb (r =? NULL) then extreme b (fuel_of s) r else
  p ← RB_PARENT node;
  is_near ← (if p =? NULL then mret false else l ← child b p; mret (node =? l));
  if is_near : bool then RB_PARENT node
  else tmp ← climb (child (negb b)) (fuel_of s) node; RB_PARENT tmp.

Lemma step_raw_code b : step_raw b = if b then kylin_rb_next_raw else kylin_rb_prev_raw.
Proof. by destruct b. Qed.

Section Walk.
Context (b : bool) (g : krb_t) (m : mem) (e : option kerr_t).
Let s := mk_st g m e.

Lemma child_read a p x y c v :
  words_at m a [p; x; y; c; v] -> child b a s = Ok (near b x y, s) /\ child (negb b) a s = Ok (far b x y, s).
Proof using Type. intros H. by destruct b; split; (eapply read_field; [exact H|done]). Qed.

Lemma parent_read a p x y c v : words_at m a [p; x; y; c; v] -> RB_PARENT a s = Ok (p, s).
Proof using Type. intros H. by (eapply read_field; [exact H|done]). Qed.

Lemma tree_at_sides p a c v l r :
  tree_at m p (Node a c v l r) ->
  words_at m a [p; root_of l; root_of r; c; v] /\ a <> NULL /\
  tree_at m a (near b l r) /\ tree_at m a (far b l r).
Proof using Type. intros (Hw & Hn & Hl & Hr). by destruct b. Qed.

Lemma walk_sides a c v l r :
  walk b (Node a c v l r) = walk b (near b l r) ++ (a, v) :: walk b (far b l r).
Proof using Type. by destruct b. Qed.

Lemma height_sides a c v l r :
  height (Node a c v l r) = S (height (near b l r) `max` height (far b l r)).
Proof using Type. destruct b; simpl; lia. Qed.

Lemma root_sides l r : near b (root_of l) (root_of r) = root_of (near b l r) /\
  far b (root_of l) (root_of r) = root_of (far b l r).
Proof using Type. by destruct b. Qed.

Lemma root_in t : t <> Leaf -> root_of t ∈ (walk b t).*1.
Proof using Type.
  destruct t as [|a c v l r]; [done|]. intros _. rewrite walk_sides, fmap_app. simpl. set_solver.
Qed.

Lemma walk_nonnull p t a : tree_at m p t -> a ∈ (walk b t).*1 -> a <> NULL.
Proof using Type.
  revert p. induction t as [|d c v l IHl r IHr]; intros p; [intros _ H; by apply elem_of_nil in H|].
  intros (_ & Hn & Hl & Hr). rewrite walk_sides, fmap_app. simpl.
  intros [Ha|[->|Ha]%elem_of_cons]%elem_of_app; [|done|]; destruct b; eauto.
Qed.

(** The extreme node of a subtree. *)
Lemma extreme_spec p t fuel :
  tree_at m p t -> t <> Leaf -> (height t <= fuel)%nat ->
  exists x l, walk b t = x :: l /\ extreme b fuel (root_of t) s = Ok (fst x, s).
Proof using Type.
  revert p fuel. induction t as [|a c v l IHl r IHr]; intros p fuel Ht Hne Hf; [done|].
  pose proof (tree_at_sides _ _ _ _ _ _ Ht) as (Hw & Hn & H1 & _).
  rewrite height_sides in Hf. rewrite walk_sides.
  assert (IH : forall p' fuel', tree_at m p' (near b l r) -> near b l r <> Leaf ->
     (height (near b l r) <= fuel')%nat -> exists x l', walk b (near b l r) = x :: l' /\
       extreme b fuel' (root_of (near b l r)) s = Ok (fst x, s)) by (clear -IHl IHr; destruct b; eauto).
  clear IHl IHr. destruct fuel as [|fuel]; [lia|].
  destruct (child_read a _ _ _ _ _ Hw) as [Ec _]. rewrite (proj1 (root_sides l r)) in Ec.
  assert (Eu : extreme b (S fuel) a s =
    (if root_of (near b l r) =? NULL then Ok (a, s) else extreme b fuel (root_of (near b l r)) s)).
  { unfold extreme, child in *. destruct b; cbn [leftmost rightmost]; run Ec;
      by destruct (_ =? NULL). }
  cbn [root_of]. rewrite Eu. destruct (near b l r) as [|a' c' v' l' r'] eqn:En.
  - by eexists (a, v), _.
  - destruct (IH a fuel H1 ltac:(done) ltac:(lia)) as (x & w & Ew & Ex). rewrite Ew.
    simpl root_of. rewrite (proj2 (Z.eqb_neq _ _)) by apply H1. by eexists x, _.
Qed.

(** The last node of a subtree: nothing on the far side, not a near child inside
    the subtree, and climbing from it leads to the subtree's root. *)
Lemma last_node p t l1 a v :
  tree_at m p t -> NoDup ((walk b t).*1) -> walk b t = l1 ++ [(a, v)] ->
  exists pa x y c, words_at m a [pa; x; y; c; v] /\ far b x y = NULL /\
    (a = root_of t /\ pa = p \/
     exists q x' y' c' v', words_at m pa [q; x'; y'; c'; v'] /\ pa <> NULL /\ near b x' y' <> a) /\
    exists d, (d < height t)%nat /\
      forall fuel, climb (child (negb b)) (d + fuel) a s = climb (child (negb b)) fuel (root_of t) s.
Proof using Type.
  revert p l1. induction t as [|d c w l IHl r IHr]; intros p l1 Ht Hnd Hl; [by destruct l1|].
  pose proof (tree_at_sides _ _ _ _ _ _ Ht) as (Hw & Hn & H1 & H2).
  rewrite walk_sides in Hl, Hnd. rewrite height_sides.
  assert (IH : forall p' l1', tree_at m p' (far b l r) -> NoDup ((walk b (far b l r)).*1) ->
    walk b (far b l r) = l1' ++ [(a, v)] -> exists pa x y c, words_at m a [pa; x; y; c; v] /\ far b x y = NULL /\
    (a = root_of (far b l r) /\ pa = p' \/
     exists q x' y' c' v', words_at m pa [q; x'; y'; c'; v'] /\ pa <> NULL /\ near b x' y' <> a) /\
    exists d, (d < height (far b l r))%nat /\
      forall fuel, climb (child (negb b)) (d + fuel) a s = climb (child (negb b)) fuel (root_of (far b l r)) s)
    by (clear -IHl IHr; destruct b; eauto). clear IHl IHr.
  destruct (far b l r) as [|fa fc fv fl fr] eqn:Ef.
  - apply app_inj_tail in Hl as [_ [= -> ->]]. exists p, (root_of l), (root_of r), c. split; [done|].
    split; [rewrite (proj2 (root_sides l r)); by rewrite Ef|]. split; [by left|].
    exists 0%nat. split; [lia|done].
  - rewrite <- Ef in *.
    destruct (walk b (far b l r)) as [|z ws _] eqn:Ew using rev_ind;
      [rewrite Ef in Ew; rewrite walk_sides in Ew; by destruct (walk b (near b fl fr))|].
    rewrite app_comm_cons, app_assoc in Hl. apply app_inj_tail in Hl as [<- ->].
    rewrite fmap_app in Hnd. apply NoDup_app in Hnd as (N1 & N2 & N3).
    rewrite fmap_cons in N3. apply NoDup_cons in N3 as [N3 N4].
    destruct (IH d ws H2 N4 eq_refl) as (pa & x & y & c' & Hwa & Hfar & Hor & k & Hk & Hcl).
    exists pa, x, y, c'. split; [done|]. split; [done|].
    assert (Hroot : root_of (far b l r) = fa) by (by rewrite Ef).
    assert (Hfa : fa <> NULL) by (rewrite Ef in H2; apply H2).
    split.
    + right. destruct Hor as [[-> ->]|Hor]; [|done].
      exists p, (root_of l), (root_of r), c, w. split; [done|]. split; [done|].
      rewrite (proj1 (root_sides l r)). intros Heq.
      assert (Hin : root_of (near b l r) ∈ (walk b (near b l r)).*1)
        by (apply root_in; intros E; rewrite E in Heq; by rewrite Hroot in Heq).
      apply (N2 _ Hin). rewrite Heq, fmap_cons, elem_of_cons. right.
      rewrite <- Ew. apply root_in. by rewrite Ef.
    + exists (k + 1)%nat. split; [lia|]. intros fuel. rewrite <- Nat.add_assoc, Hcl. simpl.
      rewrite Hroot. rewrite Ef in H2. destruct H2 as (Hwf & _).
      run (parent_read _ _ _ _ _ _ Hwf). rewrite (proj2 (Z.eqb_neq _ _)) by done.
      destruct (child_read d _ _ _ _ _ Hw) as [_ Ec]. rewrite (proj2 (root_sides l r)), Hroot in Ec.
      run Ec. by rewrite Z.eqb_refl.
Qed.

(** The rest of the walk from a node with nothing on its far side. *)
Lemma step_up a pa x y c v :
  words_at m a [pa; x; y; c; v] -> far b x y = NULL -> pa <> NULL ->
  forall q x' y' c' v', words_at m pa [q; x'; y'; c'; v'] ->
  step_raw b a s =
    (if a =? near b x' y' then Ok (pa, s)
     else (tmp ← climb (child (negb b)) (fuel_of s) a; RB_PARENT tmp) s).
Proof using Type.
  intros Hw Hf Hpa q x' y' c' v' Hp. unfold step_raw.
  run (eq_refl : get_st s = Ok (s, s)).
  destruct (child_read a _ _ _ _ _ Hw) as [_ E1]. run E1. rewrite Hf. simpl (negb (NULL =? NULL)).
  cbn iota. run (parent_read _ _ _ _ _ _ Hw). rewrite (proj2 (Z.eqb_neq _ _)) by done.
  destruct (child_read pa _ _ _ _ _ Hp) as [E2 _].
  erewrite bind_Ok by (run E2; reflexivity). cbv beta.
  destruct (a =? near b x' y'); [|done]. apply (parent_read _ _ _ _ _ _ Hw).
Qed.

Lemma near_far_roots p d c w l r :
  tree_at m p (Node d c w l r) -> NoDup ((walk b (Node d c w l r)).*1) -> near b l r <> Leaf ->
  root_of (near b l r) <> root_of (far b l r).
Proof using Type.
  intros Ht Hnd Hne Heq. pose proof (tree_at_sides _ _ _ _ _ _ Ht) as (_ & _ & H1 & _).
  rewrite walk_sides, fmap_app, fmap_cons in Hnd. apply NoDup_app in Hnd as (_ & N & _).
  apply (N _ (root_in _ Hne)). rewrite Heq. apply elem_of_cons. right. apply root_in.
  intros E. rewrite E in Heq. destruct (near b l r); [done|]. simpl in Heq. by apply (proj1 (proj2 H1)).
Qed.

(** From the last node of the near subtree the step leads to the root. *)
Lemma step_to_root p d c w l r l1 a v :
  tree_at m p (Node d c w l r) -> NoDup ((walk b (Node d c w l r)).*1) ->
  walk b (near b l r) = l1 ++ [(a, v)] -> (height (Node d c w l r) < fuel_of s)%nat ->
  step_raw b a s = Ok (d, s).
Proof using Type.
  intros Ht Hnd Hl Hf. pose proof (tree_at_sides _ _ _ _ _ _ Ht) as (Hw & Hn & H1 & H2).
  assert (Hne : near b l r <> Leaf) by (intros E; rewrite E in Hl; by destruct l1).
  pose proof (near_far_roots p d c w l r Ht Hnd Hne) as Hroots.
  rewrite walk_sides, fmap_app in Hnd. apply NoDup_app in Hnd as (N1 & _ & _).
  destruct (last_node d (near b l r) l1 a v H1 N1 Hl) as (pa & x & y & c' & Hwa & Hfar & Hor & k & Hk & Hcl).
  rewrite height_sides in Hf.
  assert (Hup : (tmp ← climb (child (negb b)) (fuel_of s) a; RB_PARENT tmp) s = Ok (d, s)).
  { replace (fuel_of s) with (k + S (fuel_of s - S k))%nat by lia.
    destruct (near b l r) as [|na nc nv nl nr] eqn:En; [done|]. destruct H1 as (Hwn & _).
    assert (Ecl : climb (child (negb b)) (k + S (fuel_of s - S k)) a s = Ok (na, s)).
    { rewrite Hcl. cbn [climb root_of]. run (parent_read _ _ _ _ _ _ Hwn).
      rewrite (proj2 (Z.eqb_neq _ _)) by done.
      destruct (child_read d _ _ _ _ _ Hw) as [_ Ec]. rewrite (proj2 (root_sides l r)) in Ec.
      run Ec. by rewrite (proj2 (Z.eqb_neq _ _)). }
    run Ecl. apply (parent_read _ _ _ _ _ _ Hwn). }
  destruct Hor as [[-> ->]|(q & x' & y' & cq & vq & Hq & Hpa & Hneq)].
  - rewrite (step_up _ _ _ _ _ _ Hwa Hfar Hn _ _ _ _ _ Hw), (proj1 (root_sides l r)). by rewrite Z.eqb_refl.
  - rewrite (step_up _ _ _ _ _ _ Hwa Hfar Hpa _ _ _ _ _ Hq). by rewrite (proj2 (Z.eqb_neq _ _)).
Qed.

Lemma step_inner p t l1 a v y l2 :
  tree_at m p t -> NoDup ((walk b t).*1) -> walk b t = l1 ++ (a, v) :: y :: l2 ->
  (height t < fuel_of s)%nat -> step_raw b a s = Ok (fst y, s).
Proof using Type.
  revert p l1 l2. induction t as [|d c w l IHl r IHr]; intros p l1 l2 Ht Hnd Hl Hf; [by destruct l1|].
  pose proof (tree_at_sides _ _ _ _ _ _ Ht) as (Hw & Hn & H1 & H2).
  pose proof Hnd as Hnd'. rewrite walk_sides in Hl, Hnd'. pose proof Hf as Hf'. rewrite height_sides in Hf'.
  rewrite fmap_app, fmap_cons in Hnd'. apply NoDup_app in Hnd' as (N1 & _ & [_ N3]%NoDup_cons).
  assert (IHn : forall l1 l2, walk b (near b l r) = l1 ++ (a, v) :: y :: l2 -> step_raw b a s = Ok (fst y, s)).
  { intros k1 k2 Hk. assert (height (near b l r) < fuel_of s)%nat by lia.
    clear -IHl IHr H1 N1 Hk H. destruct b; eauto. }
  assert (IHf : forall l1 l2, walk b (far b l r) = l1 ++ (a, v) :: y :: l2 -> step_raw b a s = Ok (fst y, s)).
  { intros k1 k2 Hk. assert (height (far b l r) < fuel_of s)%nat by lia.
    clear -IHl IHr H2 N3 Hk H. destruct b; eauto. }
  clear IHl IHr.
  assert (Hroot : a = d -> walk b (far b l r) = y :: l2 -> step_raw b a s = Ok (fst y, s)).
  { intros -> Hy. assert (Hne : far b l r <> Leaf) by (intros E; by rewrite E in Hy).
    destruct (extreme_spec d _ (fuel_of s) H2 Hne ltac:(lia)) as (z & ws & Ez & Ex).
    rewrite Hy in Ez. injection Ez as -> _. unfold step_raw. run (eq_refl : get_st s = Ok (s, s)).
    destruct (child_read d _ _ _ _ _ Hw) as [_ Ec]. rewrite (proj2 (root_sides l r)) in Ec.
    run Ec. destruct (far b l r) as [|fa fc fv fl fr]; [done|]. destruct H2 as (_ & Hfa & _).
    simpl root_of in *. by rewrite (proj2 (Z.eqb_neq _ _)). }
  symmetry in Hl. apply app_eq_inv in Hl as [(k & -> & Hk)|(k & Hk & Hl)].
  - destruct k as [|z k]; simplify_eq/=; [by apply Hroot|by eapply IHf].
  - destruct k as [|z [|z' k]]; simplify_eq/=; [by apply Hroot| |by eapply IHn].
    by apply (step_to_root p d c w l r l1 a v).
Qed.

(** The last node of the whole tree has no neighbour. *)
Lemma step_last t l1 a v :
  tree_at m NULL t -> NoDup ((walk b t).*1) -> walk b t = l1 ++ [(a, v)] ->
  (height t < fuel_of s)%nat -> step_raw b a s = Ok (NULL, s).
Proof using Type.
  intros Ht Hnd Hl Hf.
  destruct (last_node NULL t l1 a v Ht Hnd Hl) as (pa & x & y & c' & Hwa & Hfar & Hor & k & Hk & Hcl).
  assert (Hup : (tmp ← climb (child (negb b)) (fuel_of s) a; RB_PARENT tmp) s = Ok (NULL, s)).
  { replace (fuel_of s) with (k + S (fuel_of s - S k))%nat by lia.
    destruct t as [|na nc nv nl nr]; [by destruct l1|]. destruct Ht as (Hwn & _).
    assert (Ecl : climb (child (negb b)) (k + S (fuel_of s - S k)) a s = Ok (na, s)).
    { rewrite Hcl. cbn [climb root_of]. by run (parent_read _ _ _ _ _ _ Hwn). }
    run Ecl. apply (parent_read _ _ _ _ _ _ Hwn). }
  destruct Hor as [[-> ->]|(q & x' & y' & cq & vq & Hq & Hpa & Hneq)].
  - unfold step_raw. run (eq_refl : get_st s = Ok (s, s)).
    destruct (child_read _ _ _ _ _ _ Hwa) as [_ E1]. run E1. rewrite Hfar. simpl (negb (NULL =? NULL)).
    cbn iota. run (parent_read _ _ _ _ _ _ Hwa). exact Hup.
  - rewrite (step_up _ _ _ _ _ _ Hwa Hfar Hpa _ _ _ _ _ Hq). by rewrite (proj2 (Z.eqb_neq _ _)).
Qed.

Lemma step_spec t l1 a v l2 :
  tree_at m NULL t -> NoDup ((walk b t).*1) -> walk b t = l1 ++ (a, v) :: l2 ->
  (height t < fuel_of s)%nat ->
  step_raw b a s = Ok (match l2 with (x, _) :: _ => x | [] => NULL end, s).
Proof using Type.
  intros Ht Hnd Hl Hf. destruct l2 as [|[x w] l2]; [by eapply step_last|].
  by apply (step_inner NULL t l1 a v (x, w) l2).
Qed.
End Walk.

(** C24. On every tree whose links are consistent, [kylin_rb_next_raw] and
    [kylin_rb_prev_raw] are the neighbours of a node in the order of the tree:
    the next one (the previous one), or NULL at the end. *)
Theorem rb_neighbours s t l1 a v l2 :
  rb_rep s t -> inorder t = l1 ++ (a, v) :: l2 ->
  kylin_rb_next_raw a s = Ok (match l2 with (x, _) :: _ => x | [] => NULL end, s) /\
  kylin_rb_prev_raw a s = Ok (match last l1 with Some (x, _) => x | None => NULL end, s).
Proof.
  intros [Ht Hr Hnd] Hl. pose proof (height_lt_fuel s NULL t Ht Hnd) as Hf.
  destruct s as [g m e]. simpl in *. split.
  - rewrite <- (walk_true t) in Hnd, Hl. exact (step_spec true g m e t l1 a v l2 Ht Hnd Hl Hf).
  - assert (Hw : walk false t = rev l2 ++ (a, v) :: rev l1)
      by (rewrite walk_false, Hl, rev_app_distr; simpl; by rewrite <- app_assoc).
    assert (Hn : NoDup ((walk false t).*1)).
    { rewrite walk_false. eapply NoDup_Permutation_proper; [|exact Hnd].
      apply fmap_Permutation. symmetry. apply Permutation_rev. }
    pose proof (step_spec false g m e t (rev l2) a v (rev l1) Ht Hn Hw Hf) as E.
    change (kylin_rb_prev_raw a) with (step_raw false a). rewrite E. do 2 f_equal.
    destruct l1 as [|x l1 _] using rev_ind; [done|]. rewrite last_snoc, rev_app_distr. by destruct x.
Qed.

Lemma rb_neighbours_witness :
  kylin_rb_next_raw 80 ex_st = Ok (128, ex_st) /\ kylin_rb_prev_raw 80 ex_st = Ok (32, ex_st).
Proof. exact (rb_neighbours ex_st ex_tree [(32, 10)] 80 20 [(128, 30)] ex_tree_rep eq_refl). Defined.

(** ** Rotations

    The two rotations are one operation with the sides exchanged: [true] is
    the rotation to the left, its far side the right. *)

Definition FAR (b : bool) : nat := if b then RIGHT else LEFT.
Definition NEAR (b : bool) : nat := if b then LEFT else RIGHT.
Definition set_child (b : bool) (n x : Z) : M st unit := if b then set_LEFT n x else set_RIGHT n x.

Definition rotate (b : bool) (node : Z) : M st unit :=
  tmp ← child (negb b) node;
  l ← child b tmp; _ ← set_child (negb b) node l;
  _ ← (if negb (l =? NULL) then l ← child b tmp; set_PARENT l node else mret tt);
  p ← RB_PARENT node; _ ← set_PARENT tmp p;
  _ ← (if negb (p =? NULL) then p ← RB_PARENT node; replace_child p node tmp else set_ROOT tmp);
  _ ← set_child b tmp node; set_PARENT node tmp.

Lemma rotate_code b : rotate b = if b then _rotate_left else _rotate_right.
Proof. by destruct b. Qed.

Section Rotation.
Context (b : bool).

(** A node by its sides: its words, and the tree. *)
Definition side_words (p n f c v : Z) : list Z := if b then [p; n; f; c; v] else [p; f; n; c; v].
Definition side_node (a c v : Z) (n f : tree) : tree := if b then Node a c v n f else Node a c v f n.

Lemma tree_at_side m p a c v n f :
  tree_at m p (side_node a c v n f) <->
  words_at m a (side_words p (root_of n) (root_of f) c v) /\ a <> NULL /\ tree_at m a n /\ tree_at m a f.
Proof using Type. unfold side_node, side_words. destruct b; simpl; tauto. Qed.

Lemma addrs_side a c v n f x :
  x ∈ addrs (side_node a c v n f) <-> x = a \/ x ∈ addrs n \/ x ∈ addrs f.
Proof using Type.
  unfold side_node. destruct b; simpl; rewrite fmap_app, fmap_cons; simpl;
    rewrite elem_of_app, elem_of_cons; tauto.
Qed.

Lemma nodup_side a c v n f :
  NoDup (addrs (side_node a c v n f)) <->
  a ∉ addrs n /\ a ∉ addrs f /\ (forall x, x ∈ addrs n -> x ∉ addrs f) /\
  NoDup (addrs n) /\ NoDup (addrs f).
Proof using Type.
  unfold side_node. destruct b; simpl; rewrite fmap_app, fmap_cons, NoDup_app, NoDup_cons; simpl;
    (split; [intros (H1 & H2 & H3 & H4); split_and!; try done;
       [intros H; apply (H2 _ H); set_solver|]; intros x Hx Hx'; try (apply (H2 x Hx); set_solver);
       apply (H2 x Hx'); set_solver
     |intros (H1 & H2 & H3 & H4 & H5); split_and!; try done;
       intros x Hx [->|Hx']%elem_of_cons; [done|]; first [by apply (H3 x)|by apply (H3 x Hx')] ]).
Qed.

(** Assigning a side field or the parent of a node. *)
Lemma set_far m a p n f c v x :
  words_at m a (side_words p n f c v) -> is_u 64 x ->
  exists m', writes (set_child (negb b) a x) m m' tt /\ words_at m' a (side_words p n x c v) /\ keeps [a] m m'.
Proof using Type.
  unfold side_words, set_child. intros Hw Hx. destruct b;
    [exact (set_field m a _ RIGHT x Hw ltac:(by apply Nat.ltb_lt) Hx)
    |exact (set_field m a _ LEFT x Hw ltac:(by apply Nat.ltb_lt) Hx)].
Qed.

Lemma set_near m a p n f c v x :
  words_at m a (side_words p n f c v) -> is_u 64 x ->
  exists m', writes (set_child b a x) m m' tt /\ words_at m' a (side_words p x f c v) /\ keeps [a] m m'.
Proof using Type.
  unfold side_words, set_child. intros Hw Hx. destruct b;
    [exact (set_field m a _ LEFT x Hw ltac:(by apply Nat.ltb_lt) Hx)
    |exact (set_field m a _ RIGHT x Hw ltac:(by apply Nat.ltb_lt) Hx)].
Qed.

Lemma set_parent_of m a p n f c v x :
  words_at m a (side_words p n f c v) -> is_u 64 x ->
  exists m', writes (set_PARENT a x) m m' tt /\ words_at m' a (side_words x n f c v) /\ keeps [a] m m'.
Proof using Type.
  unfold side_words. intros Hw Hx. destruct b;
    exact (set_field m a _ PARENT x Hw ltac:(by apply Nat.ltb_lt) Hx).
Qed.

Lemma side_reads g m e a p n f c v :
  words_at m a (side_words p n f c v) ->
  RB_PARENT a (mk_st g m e) = Ok (p, mk_st g m e) /\
  child b a (mk_st g m e) = Ok (n, mk_st g m e) /\
  child (negb b) a (mk_st g m e) = Ok (f, mk_st g m e).
Proof using Type.
  unfold side_words. intros Hw. destruct b; split_and!; (eapply read_field; [exact Hw|done]).
Qed.

Lemma side_words_u m a p n f c v :
  words_at m a (side_words p n f c v) -> is_u 64 p /\ is_u 64 n /\ is_u 64 f.
Proof using Type.
  unfold side_words. intros [_ H]. destruct b; rewrite !Forall_cons in H; naive_solver.
Qed.
End Rotation.

(** Giving a subtree another parent. *)
Lemma set_parent_root m p t q :
  tree_at m p t -> NoDup (addrs t) -> is_u 64 q ->
  exists m', writes (if negb (root_of t =? NULL) then set_PARENT (root_of t) q else mret tt) m m' tt /\
    tree_at m' q t /\ keeps (addrs t) m m'.
Proof.
  intros Ht Hnd Hq. destruct t as [|a c v l r].
  { exists m. split; [intros s <-; unfold mret, M_ret; by rewrite with_mem_of|]. split; [done|apply keeps_refl]. }
  destruct Ht as (Hw & Hn & Hl & Hr).
  destruct (set_field m a _ PARENT q Hw) as (m' & E & W & K); [by apply Nat.ltb_lt|done|].
  exists m'. simpl root_of. rewrite (proj2 (Z.eqb_neq _ _)) by done. split; [exact E|].
  simpl in Hnd. rewrite fmap_app, fmap_cons in Hnd. apply NoDup_app in Hnd as (N1 & N2 & [N3 N4]%NoDup_cons).
  split; [split_and!; [exact W|done|..]; (eapply tree_at_keeps; [exact K| |done]);
    intros x Hx ->%list_elem_of_singleton|].
  - apply (N2 a Hx). set_solver.
  - done.
  - eapply keeps_weaken; [|exact K]. intros x ->%list_elem_of_singleton. simpl. rewrite fmap_app. set_solver.
Qed.

Definition with_root (g : krb_t) (x : Z) : krb_t := mk_krb (opts g) (rb_count g) (rb_min g) (rb_max g) x.

(** Where a subtree at [a] hangs: at the root, or under another node. *)
Definition hangs (m : mem) (p : Z) (ctx : Z * Z * Z * Z * Z) : Prop :=
  let '(q, y, z, c, v) := ctx in p = NULL \/ p <> NULL /\ words_at m p [q; y; z; c; v].

(** The place after [a] was replaced by [x]. *)
Definition rehung (m : mem) (p a x : Z) (ctx : Z * Z * Z * Z * Z) : Prop :=
  let '(q, y, z, c, v) := ctx in
  p = NULL \/ words_at m p (if y =? a then [q; x; z; c; v] else [q; y; x; c; v]).

(** Hanging [x] in the place of [a]. *)
Lemma rehang g m e p a x ctx :
  hangs m p ctx -> is_u 64 x ->
  exists m', (if negb (p =? NULL) then replace_child p a x else set_ROOT x) (mk_st g m e) =
      Ok (tt, mk_st (if p =? NULL then with_root g x else g) m' e) /\
    rehung m' p a x ctx /\ keeps [p] m m'.
Proof.
  destruct ctx as [[[[q y] z] c] v]. intros [->|[Hp Hw]] Hx.
  - exists m. split; [done|]. split; [by left|apply keeps_refl].
  - rewrite (proj2 (Z.eqb_neq p NULL)) by done. unfold rehung.
    assert (Er : RB_LEFT p (mk_st g m e) = Ok (y, mk_st g m e)) by (eapply read_field; [exact Hw|done]).
    destruct (set_field m p _ LEFT x Hw) as (m1 & E1 & W1 & K1); [by apply Nat.ltb_lt|done|].
    destruct (set_field m p _ RIGHT x Hw) as (m2 & E2 & W2 & K2); [by apply Nat.ltb_lt|done|].
    exists (if y =? a then m1 else m2). split; [|by destruct (y =? a); split; [right| |right|]].
    simpl. unfold replace_child. run Er. destruct (y =? a); [write_end E1|write_end E2].
Qed.

Lemma rotate_spec b g m e p a ca va n x cx vx n' f' ctx :
  let t := side_node b a ca va n (side_node b x cx vx n' f') in
  tree_at m p t -> NoDup (addrs t) -> p ∉ addrs t -> hangs m p ctx ->
  exists m', rotate b a (mk_st g m e) =
      Ok (tt, mk_st (if p =? NULL then with_root g x else g) m' e) /\
    tree_at m' p (side_node b x cx vx (side_node b a ca va n n') f') /\
    rehung m' p a x ctx /\ keeps (p :: addrs t) m m'.
Proof.
  intros t Ht Hnd Hp Hh. unfold t in *. clear t.
  rewrite tree_at_side in Ht. destruct Ht as (Wa & Na & Tn & Tx).
  rewrite tree_at_side in Tx. destruct Tx as (Wx & Nx & Tn' & Tf').
  rewrite nodup_side in Hnd. destruct Hnd as (A1 & A2 & A3 & D1 & Hnd).
  rewrite nodup_side in Hnd. destruct Hnd as (X1 & X2 & X3 & D2 & D3).
  rewrite addrs_side in A2, Hp. rewrite addrs_side in Hp.
  setoid_rewrite addrs_side in A3.
  assert (Rx : root_of (side_node b x cx vx n' f') = x) by (by destruct b). rewrite Rx in Wa.
  destruct (side_words_u b m a _ _ _ _ _ Wa) as (Up & _ & Ux).
  destruct (side_words_u b m x _ _ _ _ _ Wx) as (Ua & Un' & _).
  destruct (set_far b m a _ _ _ _ _ (root_of n') Wa Un') as (m1 & E1 & Wa1 & K1).
  assert (Wx1 : words_at m1 x (side_words b a (root_of n') (root_of f') cx vx))
    by (eapply words_keeps; [exact K1|set_solver|exact Wx]).
  assert (Tn1 : tree_at m1 x n') by (eapply tree_at_keeps; [exact K1|set_solver|exact Tn']).
  destruct (set_parent_root m1 x n' a Tn1 D2 Ua) as (m2 & E2 & Tn2 & K2).
  assert (Wx2 : words_at m2 x (side_words b a (root_of n') (root_of f') cx vx))
    by (eapply words_keeps; [exact K2|done|exact Wx1]).
  assert (Wa2 : words_at m2 a (side_words b p (root_of n) (root_of n') ca va))
    by (eapply words_keeps; [exact K2|set_solver|exact Wa1]).
  destruct (set_parent_of b m2 x _ _ _ _ _ p Wx2 Up) as (m3 & E3 & Wx3 & K3).
  assert (Wa3 : words_at m3 a (side_words b p (root_of n) (root_of n') ca va))
    by (eapply words_keeps; [exact K3|set_solver|exact Wa2]).
  assert (K13 : keeps ([a] ++ addrs n' ++ [x]) m m3)
    by (eapply keeps_trans; [exact K1|by eapply keeps_trans]).
  assert (Hh3 : hangs m3 p ctx).
  { destruct ctx as [[[[q y] z] c] v]. destruct Hh as [->|[Hpn Hw]]; [by left|right]. split; [done|].
    eapply words_keeps; [exact K13|set_solver|exact Hw]. }
  destruct (rehang g m3 e p a x ctx Hh3 Ux) as (m4 & E4 & R4 & K4).
  assert (Hpx : p <> x /\ p <> a) by set_solver. destruct Hpx as [Hpx Hpa].
  assert (Hax : a <> x) by set_solver.
  assert (Wx4 : words_at m4 x (side_words b p (root_of n') (root_of f') cx vx))
    by (eapply words_keeps; [exact K4|set_solver|exact Wx3]).
  destruct (set_near b m4 x _ _ _ _ _ a Wx4 Ua) as (m5 & E5 & Wx5 & K5).
  assert (Wa5 : words_at m5 a (side_words b p (root_of n) (root_of n') ca va)).
  { eapply words_keeps; [exact K5|set_solver|]. eapply words_keeps; [exact K4|set_solver|exact Wa3]. }
  destruct (set_parent_of b m5 a _ _ _ _ _ x Wa5 Ux) as (m6 & E6 & Wa6 & K6).
  assert (K36 : keeps ([p] ++ [x] ++ [a]) m3 m6)
    by (eapply keeps_trans; [exact K4|by eapply keeps_trans]).
  exists m6. split_and!.
  - unfold rotate. destruct (side_reads b g m e a _ _ _ _ _ Wa) as (_ & _ & R1). run R1.
    destruct (side_reads b g m e x _ _ _ _ _ Wx) as (_ & R2 & _). run R2. write E1.
    destruct (side_reads b g m1 e x _ _ _ _ _ Wx1) as (_ & R3 & _).
    erewrite bind_Ok; [cbv beta|specialize (E2 (mk_st g m1 e) eq_refl); destruct (negb (root_of n' =? NULL)); [run R3|]; exact E2].
    cbn [with_mem st_mem guard kerrno].
    destruct (side_reads b g m2 e a _ _ _ _ _ Wa2) as (R5 & _). run R5. write E3.
    destruct (side_reads b g m3 e a _ _ _ _ _ Wa3) as (R6 & _).
    erewrite bind_Ok; [cbv beta|destruct (negb (p =? NULL)); [run R6|]; exact E4].
    write E5. write_end E6.
  - apply tree_at_side.
    assert (Ra : root_of (side_node b a ca va n n') = a) by (by destruct b). rewrite Ra. split_and!.
    + eapply words_keeps; [exact K6|set_solver|exact Wx5].
    + done.
    + apply tree_at_side. split_and!; [exact Wa6|done| |].
      * eapply tree_at_keeps; [exact K36|set_solver|].
        eapply tree_at_keeps; [exact K13| |exact Tn].
        intros z Hz. specialize (A3 z Hz). set_solver.
      * eapply tree_at_keeps; [exact K36|set_solver|].
        eapply tree_at_keeps; [exact K3|set_solver|exact Tn2].
    + eapply tree_at_keeps; [exact K36|set_solver|].
      eapply tree_at_keeps; [exact K13|set_solver|exact Tf'].
  - destruct ctx as [[[[q y] z] c] v]. destruct R4 as [->|W4]; [by left|right].
    eapply words_keeps; [exact K6|set_solver|]. eapply words_keeps; [exact K5|set_solver|exact W4].
  - eapply keeps_weaken; [|exact (keeps_trans _ _ _ _ _ K13 K36)].
    intros z Hz. rewrite elem_of_cons, addrs_side, addrs_side. set_solver.
Qed.

(** A rotation ([true]: left, [false]: right) of a node whose far child
    exists, anywhere in a tree: the child takes its place under the parent or
    at the root, all parent and child links are consistent again, the order of
    the nodes and their colours and values are unchanged, and no other object
    is touched. *)
Theorem rb_rotation b g m e p a ca va n x cx vx n' f' ctx :
  let before := side_node b a ca va n (side_node b x cx vx n' f') in
  let after := side_node b x cx vx (side_node b a ca va n n') f' in
  tree_at m p before -> NoDup (addrs before) -> p ∉ addrs before -> hangs m p ctx ->
  exists m', (if b then _rotate_left else _rotate_right) a (mk_st g m e) =
      Ok (tt, mk_st (if p =? NULL then with_root g x else g) m' e) /\
    tree_at m' p after /\ inorder after = inorder before /\
    rehung m' p a x ctx /\ keeps (p :: addrs before) m m'.
Proof.
  intros before after Ht Hnd Hp Hh.
  destruct (rotate_spec b g m e p a ca va n x cx vx n' f' ctx Ht Hnd Hp Hh) as (m' & E & T & R & K).
  exists m'. rewrite <- rotate_code. split_and!; try done.
  unfold after, before, side_node. destruct b; simpl; by rewrite <- app_assoc.
Qed.

Lemma rb_rotation_witness :
  let t := Node 128 1 30 (Node 80 0 20 (Node 32 1 10 Leaf Leaf) Leaf) Leaf in
  exists m', _rotate_left 80 ex_st = Ok (tt, mk_st (with_root (guard ex_st) 128) m' None) /\
    tree_at m' NULL t.
Proof.
  destruct ex_tree_rep as [Ht _ Hnd].
  destruct (rb_rotation true (guard ex_st) ex_mem None NULL 80 0 20 (Node 32 1 10 Leaf Leaf)
    128 1 30 Leaf Leaf (0, 0, 0, 0, 0) Ht Hnd) as (m' & E & T & _).
  - simpl. intros H. repeat (apply elem_of_cons in H as [H|H]; [done|]). by apply elem_of_nil in H.
  - by left.
  - by exists m'.
Defined.

(** ** Insertion *)

(** A tree the header reaches exactly one node of: black, no children. *)
Definition lone (s : st) (r v : Z) : Prop :=
  rb_root (guard s) = r /\ (r <> NULL /\ is_u 64 r) /\
  exists p, words_at (omem s) r [p; NULL; NULL; RB_BLACK; v].

(** A node that is not in the tree, its links not filled in. *)
Definition loose (s : st) (node v : Z) : Prop :=
  node <> NULL /\ is_u 64 node /\ exists p l r c, words_at (omem s) node [p; l; r; c; v].

(** Linking a node under [par] when the descent has ended: the node becomes the
    root, and nothing is rebalanced when [par] is black. *)
Lemma link_node_lone g m e node v par res :
  loose (mk_st g m e) node v -> is_u 64 par -> par <> node ->
  par = NULL \/ (par <> NULL /\ exists q l r w, words_at m par [q; l; r; RB_BLACK; w]) ->
  exists m', link_node node NULL par res (mk_st g m e) = Ok (tt, mk_st (with_root g node) m' e) /\
    words_at m' node [par; NULL; NULL; RB_BLACK; v] /\ keeps [node] m m'.
Proof.
  intros (Hn & Hu & p & l & r & c & Hw) Hup Hne Hpar. simpl in Hw.
  destruct (set_field m node _ PARENT par Hw) as (m1 & E1 & W1 & K1); [by apply Nat.ltb_lt|done|].
  destruct (set_field m1 node _ RIGHT NULL W1) as (m2 & E2 & W2 & K2); [by apply Nat.ltb_lt|done|].
  destruct (set_field m2 node _ LEFT NULL W2) as (m3 & E3 & W3 & K3); [by apply Nat.ltb_lt|done|].
  destruct (set_field m3 node _ COLOR RB_RED W3) as (m4 & E4 & W4 & K4); [by apply Nat.ltb_lt|done|].
  simpl in W4.
  destruct (set_field m4 node _ COLOR RB_BLACK W4) as (m5 & E5 & W5 & K5); [by apply Nat.ltb_lt|done|].
  assert (K14 : keeps [node] m m4).
  { eapply keeps_weaken; [|exact (keeps_trans _ _ _ _ _ (keeps_trans _ _ _ _ _ K1 K2) (keeps_trans _ _ _ _ _ K3 K4))].
    set_solver. }
  exists m5. split; [|split; [exact W5|eapply keeps_weaken; [|exact (keeps_trans _ _ _ _ _ K14 K5)]; set_solver]].
  set (s4 := mk_st (with_root g node) m4 e).
  assert (Eloop : forall fuel, insert_color_loop (S fuel) node s4 = Ok (tt, s4)).
  { intros fuel. cbn [insert_color_loop].
    assert (Ep : RB_PARENT node s4 = Ok (par, s4)) by (eapply read_field; [exact W4|done]).
    run Ep. unfold is_red. destruct Hpar as [->|(Hpn & q & l' & r' & w & Hp)]; [done|].
    rewrite (proj2 (Z.eqb_neq _ _)) by done.
    assert (Hp4 : words_at m4 par [q; l'; r'; RB_BLACK; w])
      by (eapply words_keeps; [exact K14|set_solver|exact Hp]).
    assert (Ec : RB_COLOR par s4 = Ok (RB_BLACK, s4)) by (eapply read_field; [exact Hp4|done]).
    erewrite bind_Ok by (run Ec; reflexivity). done. }
  unfold link_node. write E1. write E2. write E3. write E4.
  change (negb (NULL =? NULL)) with false. cbn iota.
  run (eq_refl : set_ROOT node (mk_st g m4 e) = Ok (tt, s4)).
  unfold _insert_color. run (eq_refl : get_st s4 = Ok (s4, s4)).
  run (Eloop (size (blocks (omem s4)))).
  run (eq_refl : RB_ROOT s4 = Ok (node, s4)). unfold s4. write_end E5.
Qed.

(** The descent from the only node ends below it. *)
Lemma descend_lone g m e node r v v0 :
  loose (mk_st g m e) node v -> lone (mk_st g m e) r v0 -> is_Some (int_type (val_type (opts g))) ->
  exists res, descend (fuel_of (mk_st g m e)) node r NULL 0 (mk_st g m e) =
    Ok (Some (NULL, r, res), mk_st g m e).
Proof.
  intros (Hn & Hu & p & l & rr & c & Hw) (Hr & [Hrn _] & q & Hwr) [[w sg] Ht].
  simpl in Hw, Hwr, Hr.
  set (s := mk_st g m e).
  assert (Hsz : exists k, fuel_of s = S (S k)).
  { exists (size (blocks m) - 1)%nat. unfold fuel_of. simpl.
    assert (size (blocks m) <> 0)%nat; [|lia]. intros Hz%map_size_empty_inv.
    destruct Hwr as [Hwr _]. by rewrite Hz in Hwr. }
  destruct Hsz as [k ->]. cbn [descend]. rewrite (proj2 (Z.eqb_neq _ _)) by done.
  assert (E1 : RB_VAL node s = Ok (v, s)) by (eapply read_field; [exact Hw|done]).
  assert (E2 : RB_VAL r s = Ok (v0, s)) by (eapply read_field; [exact Hwr|done]).
  assert (El : RB_LEFT r s = Ok (NULL, s)) by (eapply read_field; [exact Hwr|done]).
  assert (Er : RB_RIGHT r s = Ok (NULL, s)) by (eapply read_field; [exact Hwr|done]).
  run E1. run E2. run (eq_refl : get_st s = Ok (s, s)).
  cbn [guard s omem]. rewrite (cmp_int_spec _ _ _ _ w sg) by done.
  destruct (int_value sg v0 <? int_value sg v); simpl; eexists; [by run Er|by run El].
Qed.

Lemma insert_raw_step g m e node v :
  loose (mk_st g m e) node v -> is_Some (int_type (val_type (opts g))) ->
  (rb_root g = NULL \/ exists r v0, lone (mk_st g m e) r v0 /\ r <> node) ->
  exists m', kylin_rb_insert_raw node (mk_st g m e) = Ok (tt, mk_st (with_root g node) m' e) /\
    lone (mk_st (with_root g node) m' e) node v /\ keeps [node] m m'.
Proof.
  intros HL Ht Hroot. set (s := mk_st g m e) in *. unfold kylin_rb_insert_raw.
  run (eq_refl : RB_ROOT s = Ok (rb_root g, s)). run (eq_refl : get_st s = Ok (s, s)).
  destruct Hroot as [E|(r & v0 & Hl & Hne)].
  - rewrite E.
    destruct (link_node_lone g m e node v NULL 0 HL) as (m' & El & W & K);
      [done|intros <-; by destruct HL|by left|].
    exists m'. split; [|split; [|done]].
    + run (eq_refl : descend (fuel_of s) node NULL NULL 0 s = Ok (Some (NULL, NULL, 0), s)). exact El.
    + destruct HL as (Hn & Hu & _). split; [done|]. split; [done|]. by exists NULL.
  - destruct (descend_lone g m e node r v v0 HL Hl Ht) as (res & Ed). fold s in Ed.
    destruct Hl as (Hr & [Hrn Hru] & q & Hw). simpl in Hr, Hw. rewrite Hr.
    destruct (link_node_lone g m e node v r res HL) as (m' & El & W & K);
      [done|done|right; by eauto 8|].
    exists m'. split; [|split; [|done]]; [run Ed; exact El|].
    destruct HL as (Hn & Hu & _). split; [done|]. split; [done|]. by exists r.
Qed.

(** Insertion of several nodes. *)
Fixpoint insert_all (nodes : list Z) : M st unit :=
  match nodes with [] => mret tt | n :: nodes => _ ← kylin_rb_insert_raw n; insert_all nodes end.

Lemma loose_keeps g g' m m' e node v n :
  keeps [n] m m' -> node <> n -> loose (mk_st g m e) node v -> loose (mk_st g' m' e) node v.
Proof.
  intros K Hne (Hn & Hu & p & l & r & c & Hw). split; [done|]. split; [done|].
  exists p, l, r, c. eapply words_keeps; [exact K|set_solver|exact Hw].
Qed.

(** C28. Whatever nodes are inserted, one after the other, into an empty tree of
    integers, the header ends up with the last one alone: the descent always
    ends at NULL, so every new node becomes the root, without children.  The
    count and the minimum the header keeps never change. *)
Theorem rb_inserts_keep_last g m e nodes last :
  rb_root g = NULL -> is_Some (int_type (val_type (opts g))) ->
  NoDup (nodes ++ [last]).*1 ->
  Forall (fun x => loose (mk_st g m e) (fst x) (snd x)) (nodes ++ [last]) ->
  exists m', insert_all ((nodes ++ [last]).*1) (mk_st g m e) =
      Ok (tt, mk_st (with_root g (fst last)) m' e) /\
    lone (mk_st (with_root g (fst last)) m' e) (fst last) (snd last).
Proof.
  intros Hroot Ht Hnd Hl.
  enough (G : forall g m, is_Some (int_type (val_type (opts g))) ->
    (rb_root g = NULL \/ exists r v0, lone (mk_st g m e) r v0 /\ r ∉ (nodes ++ [last]).*1) ->
    Forall (fun x => loose (mk_st g m e) (fst x) (snd x)) (nodes ++ [last]) ->
    exists m', insert_all ((nodes ++ [last]).*1) (mk_st g m e) =
        Ok (tt, mk_st (with_root g (fst last)) m' e) /\
      lone (mk_st (with_root g (fst last)) m' e) (fst last) (snd last)) by (apply G; auto).
  clear g m Hroot Ht Hl. revert Hnd.
  induction nodes as [|[n v] nodes IH]; intros Hnd g m Ht Hroot Hl.
  - apply Forall_cons in Hl as [Hl _]. destruct last as [n v]. simpl in *.
    destruct (insert_raw_step g m e n v Hl Ht) as (m' & E & L & _).
    + destruct Hroot as [?|(r & v0 & Hr & Hout)]; [by left|right]. exists r, v0. set_solver.
    + exists m'. split; [by run E|done].
  - apply Forall_cons in Hl as [Hn Hl]. simpl in Hnd, Hn. apply NoDup_cons in Hnd as [Hout Hnd].
    destruct (insert_raw_step g m e n v Hn Ht) as (m1 & E & L & K).
    + destruct Hroot as [?|(r & v0 & Hr & Ho)]; [by left|right]. exists r, v0. split; [done|]. set_solver.
    + destruct (IH Hnd (with_root g n) m1 Ht) as (m' & E' & L').
      * right. exists n, v. done.
      * rewrite Forall_forall in Hl |- *. intros x Hx. eapply loose_keeps; [exact K| |by apply Hl].
        intros <-. apply Hout. by apply list_elem_of_fmap_2.
      * exists m'. split; [|done]. simpl. run E. exact E'.
Qed.

Lemma rb_inserts_keep_last_witness :
  let o := mk_krb_opts KOBJ_INT32 4 (fun _ _ _ => 0) None None None None (0, 0, 0, 0) in
  let m := mk_mem {[32 := enc_words [0; 0; 0; 0; 10]; 80 := enc_words [0; 0; 0; 0; 20]]} 200 [] in
  exists m', insert_all [32; 80] (mk_st (mk_krb o 0 0 0 0) m None) =
      Ok (tt, mk_st (mk_krb o 0 0 0 80) m' None) /\
    lone (mk_st (mk_krb o 0 0 0 80) m' None) 80 20.
Proof.
  intros o m. apply (rb_inserts_keep_last (mk_krb o 0 0 0 0) m None [(32, 10)] (80, 20)); [done|by eexists| |].
  - simpl. apply (bool_decide_unpack _). by vm_compute.
  - repeat constructor; simpl; try done; exists 0, 0, 0, 0; (split; [done|]);
      repeat constructor; done.
Defined.

(** The removal of a node with two children never hands its links to the node
    that takes its place: here the old root's left subtree and the new root are
    disconnected. *)
Lemma rb_unlink_loses_subtree :
  exists s', kylin_rb_unlink_raw 80 ex_st = Ok (80, s') /\
    rb_root (guard s') = 128 /\ RB_LEFT 128 s' = Ok (NULL, s').
Proof. eexists. split_and!; vm_compute; reflexivity. Qed.

(** Destroying a tree of objects starts from the header's [min], which nothing
    sets: NULL is dereferenced. *)
Lemma rb_destroy_null nested : kylin_rb_destroy nested ex_st = Ub.
Proof. reflexivity. Qed.
