(* ===== verification/RbBalance.v ===== *)
(** * Rebalancing of the red-black tree

    [_insert_color] and [_remove_color] of [kylin_rb.c] against the red-black
    invariant.  The node a loop stands at is the focus of a tree split into
    that subtree and its context, a list of frames from the focus to the root;
    [fill] puts them together, so moving the focus changes nothing in memory.
    The left and the right case of the code are one case over a side. *)

From S2P Require Import Prelude Errors Bytes Mem MathVal Rb.

(** ** Contexts *)

(** A node whose child on side [fb] ([true]: left) is the hole. *)
Record frame := mk_frame { fb : bool; fa : Z; fc : Z; fv : Z; fsib : tree }.

Definition plug (f : frame) (t : tree) : tree := side_node (fb f) (fa f) (fc f) (fv f) t (fsib f).
Fixpoint fill (k : list frame) (t : tree) : tree :=
  match k with [] => t | f :: k => fill k (plug f t) end.

Definition top_addr (k : list frame) : Z := match k with [] => NULL | f :: _ => fa f end.

Lemma side_node_negb b a c v n f : side_node (negb b) a c v n f = side_node b a c v f n.
Proof. by destruct b. Qed.

Lemma root_of_side b a c v n f : root_of (side_node b a c v n f) = a.
Proof. by destruct b. Qed.

(** The nodes before and after the focus, in order. *)
Lemma inorder_fill k : exists l1 l2, forall t, inorder (fill k t) = l1 ++ inorder t ++ l2.
Proof.
  induction k as [|[[] a c v sib] k (l1 & l2 & IH)]; simpl.
  - exists [], []. intros t. by rewrite app_nil_r.
  - exists l1, ((a, v) :: inorder sib ++ l2). intros t. rewrite IH. simpl. by rewrite <- app_assoc.
  - exists (l1 ++ inorder sib ++ [(a, v)]), l2. intros t. rewrite IH. simpl.
    by rewrite <- !app_assoc.
Qed.

Lemma inorder_fill_eq k t t' : inorder t' = inorder t -> inorder (fill k t') = inorder (fill k t).
Proof. destruct (inorder_fill k) as (l1 & l2 & E). intros H. by rewrite !E, H. Qed.

(** The root of the whole tree is that of the context, if there is one. *)
Lemma root_fill k t t' : root_of t = root_of t' -> root_of (fill k t) = root_of (fill k t').
Proof.
  revert t t'. induction k as [|f k IH]; intros t t' H; simpl; [done|].
  apply IH. unfold plug. by rewrite !root_of_side.
Qed.

(** The context in memory, the hole holding a subtree with root [x]. *)
Fixpoint ctx_at (m : mem) (k : list frame) (x : Z) : Prop :=
  match k with
  | [] => True
  | f :: k =>
      words_at m (fa f) (side_words (fb f) (top_addr k) x (root_of (fsib f)) (fc f) (fv f)) /\
      fa f <> NULL /\ tree_at m (fa f) (fsib f) /\ ctx_at m k (fa f)
  end.

Fixpoint ctx_addrs (k : list frame) : list Z :=
  match k with [] => [] | f :: k => fa f :: addrs (fsib f) ++ ctx_addrs k end.

Lemma tree_at_fill m k t :
  tree_at m NULL (fill k t) <-> ctx_at m k (root_of t) /\ tree_at m (top_addr k) t.
Proof.
  revert t. induction k as [|f k IH]; intros t; simpl; [tauto|].
  rewrite IH. unfold plug. rewrite root_of_side, tree_at_side. tauto.
Qed.

Lemma addrs_fill k t x : x ∈ addrs (fill k t) <-> x ∈ addrs t \/ x ∈ ctx_addrs k.
Proof.
  revert t. induction k as [|f k IH]; intros t; simpl; [set_solver|].
  rewrite IH. unfold plug. rewrite addrs_side, elem_of_cons, elem_of_app. tauto.
Qed.

Lemma nodup_fill k t :
  NoDup (addrs (fill k t)) <->
  NoDup (addrs t) /\ NoDup (ctx_addrs k) /\ forall x, x ∈ addrs t -> x ∉ ctx_addrs k.
Proof.
  revert t. induction k as [|f k IH]; intros t; simpl.
  { split; [|tauto]. intros H. split_and!; [done|constructor|set_solver]. }
  rewrite IH. unfold plug. rewrite nodup_side. setoid_rewrite addrs_side.
  rewrite NoDup_cons, NoDup_app. setoid_rewrite elem_of_cons. setoid_rewrite elem_of_app.
  set_solver.
Qed.

Lemma ctx_at_keeps X m m' k x :
  keeps X m m' -> (forall a, a ∈ ctx_addrs k -> a ∉ X) -> ctx_at m k x -> ctx_at m' k x.
Proof.
  intros K. revert x. induction k as [|f k IH]; intros x Hd; simpl; [done|]. simpl in Hd.
  intros (Hw & Hn & Ht & Hc). split_and!.
  - eapply words_keeps; [exact K| |exact Hw]. apply Hd. set_solver.
  - done.
  - eapply tree_at_keeps; [exact K| |exact Ht]. intros a Ha. apply Hd. set_solver.
  - apply IH; [|done]. intros a Ha. apply Hd. set_solver.
Qed.

(** ** Steps of the loops on a tree in focus *)

(** From [s] with tree [T] to [s'] with [T']: the same nodes in the same order,
    nothing but their links and colours and the root changed. *)
Record rebal (s : st) (T : tree) (s' : st) (T' : tree) : Prop := {
  rebal_rep : rb_rep s' T';
  rebal_inorder : inorder T' = inorder T;
  rebal_keeps : keeps (NULL :: addrs T) (omem s) (omem s');
  rebal_guard : guard s' = with_root (guard s) (rb_root (guard s'));
  rebal_kerrno : kerrno s' = kerrno s;
}.

Lemma rebal_refl s T : rb_rep s T -> rebal s T s T.
Proof. intros H. split; [done|done|apply keeps_refl|by destruct (guard s)|done]. Qed.

Lemma rebal_trans s T s1 T1 s2 T2 : rebal s T s1 T1 -> rebal s1 T1 s2 T2 -> rebal s T s2 T2.
Proof.
  intros [R1 I1 K1 G1 E1] [R2 I2 K2 G2 E2]. split; [done|by rewrite I2| |by rewrite G2, G1|by rewrite E2].
  rewrite I1 in K2. eapply keeps_trans_in; [exact K1|exact K2|tauto].
Qed.

Lemma rep_fill s k t :
  rb_rep s (fill k t) <->
  ctx_at (omem s) k (root_of t) /\ tree_at (omem s) (top_addr k) t /\
  rb_root (guard s) = root_of (fill k t) /\
  NoDup (addrs t) /\ NoDup (ctx_addrs k) /\ (forall x, x ∈ addrs t -> x ∉ ctx_addrs k).
Proof.
  split.
  - intros [Ht Hr Hn]. apply tree_at_fill in Ht. apply nodup_fill in Hn. tauto.
  - intros (H1 & H2 & H3 & H4). split; [by apply tree_at_fill|done|by apply nodup_fill].
Qed.

Lemma top_not_in k t : (forall x, x ∈ addrs t -> x ∉ ctx_addrs k) -> NULL ∉ addrs t ->
  top_addr k ∉ addrs t.
Proof. destruct k as [|f k]; simpl; [done|]. intros H _ Ha. apply (H _ Ha). set_solver. Qed.

Lemma null_not_in m p t : tree_at m p t -> NULL ∉ addrs t.
Proof.
  revert p. induction t as [|a c v l IHl r IHr]; intros p; simpl; [intros _; apply not_elem_of_nil|].
  intros (_ & Hn & Hl & Hr). rewrite fmap_app, fmap_cons, elem_of_app, elem_of_cons.
  simpl. specialize (IHl _ Hl). specialize (IHr _ Hr). naive_solver.
Qed.

Section Focus.
Context (b : bool).

Lemma focus_reads s k a c v n f : rb_rep s (fill k (side_node b a c v n f)) ->
  RB_PARENT a s = Ok (top_addr k, s) /\ child b a s = Ok (root_of n, s) /\
  child (negb b) a s = Ok (root_of f, s) /\ RB_COLOR a s = Ok (c, s) /\ a <> NULL.
Proof using Type.
  rewrite rep_fill. intros (_ & Ht & _). apply tree_at_side in Ht as (Hw & Hn & _).
  destruct s as [g m e]. simpl in *. destruct (side_reads b g m e a _ _ _ _ _ Hw) as (E1 & E2 & E3).
  split_and!; try done. unfold side_words in Hw. destruct b; (eapply read_field; [exact Hw|done]).
Qed.

Lemma inorder_color a c c' v n f : inorder (side_node b a c' v n f) = inorder (side_node b a c v n f).
Proof using Type. by destruct b. Qed.

Lemma set_color_ok s k a c v n f c' : rb_rep s (fill k (side_node b a c v n f)) -> is_u 64 c' ->
  exists s', set_COLOR a c' s = Ok (tt, s') /\
    rebal s (fill k (side_node b a c v n f)) s' (fill k (side_node b a c' v n f)).
Proof using Type.
  intros HR Hc. pose proof HR as HR0. apply rep_fill in HR as (Hk & Ht & Hr & N1 & N2 & N3).
  apply tree_at_side in Ht as (Hw & Hn & Tn & Tf).
  set (ws := side_words b (top_addr k) (root_of n) (root_of f) c v) in *.
  assert (Hlen : (COLOR < length ws)%nat) by (unfold ws, side_words; destruct b; by apply Nat.ltb_lt).
  destruct (set_field (S := st) (omem s) a ws COLOR c' Hw Hlen Hc) as (m' & E & W & K).
  exists (with_mem s m'). split; [by apply E|].
  assert (Hio : inorder (fill k (side_node b a c' v n f)) = inorder (fill k (side_node b a c v n f)))
    by (apply inorder_fill_eq, inorder_color).
  apply nodup_side in N1 as (A1 & A2 & A3 & _).
  split; simpl; [|done| |by destruct (guard s)|done].
  - apply rep_fill. simpl. split_and!.
    + rewrite root_of_side in *. eapply ctx_at_keeps; [exact K| |exact Hk].
      intros x Hx ->%list_elem_of_singleton. apply (N3 a); [rewrite addrs_side; by left|done].
    + apply tree_at_side. split_and!; [|done|..].
      * unfold ws, side_words in W. unfold side_words. by destruct b.
      * eapply tree_at_keeps; [exact K|set_solver|done].
      * eapply tree_at_keeps; [exact K|set_solver|done].
    + rewrite Hr. apply root_fill. by rewrite !root_of_side.
    + destruct HR0 as [_ _ HN]. rewrite <- Hio in HN. by apply nodup_fill in HN as (? & ? & ?).
    + done.
    + destruct HR0 as [_ _ HN]. rewrite <- Hio in HN. by apply nodup_fill in HN as (? & ? & ?).
  - eapply keeps_weaken; [|exact K]. intros x ->%list_elem_of_singleton.
    apply elem_of_cons. right.
    apply addrs_fill. left. apply addrs_side. by left.
Qed.
End Focus.

(** What the rotations need of the context, and give back of it. *)
Definition hook (k : list frame) (x : Z) : Z * Z * Z * Z * Z :=
  match k with
  | [] => (0, 0, 0, 0, 0)
  | f :: k =>
      if fb f then (top_addr k, x, root_of (fsib f), fc f, fv f)
      else (top_addr k, root_of (fsib f), x, fc f, fv f)
  end.

Lemma ctx_hangs m k x : ctx_at m k x -> hangs m (top_addr k) (hook k x).
Proof.
  destruct k as [|f k]; simpl; [by left|]. intros (Hw & Hn & _). unfold side_words in Hw.
  destruct (fb f); by right.
Qed.

(** The hole is on the side where the old root hung. *)
Lemma ctx_rehung m m' k a x X :
  ctx_at m k a -> rehung m' (top_addr k) a x (hook k a) -> keeps (top_addr k :: X) m m' ->
  NoDup (ctx_addrs k) -> (forall y, y ∈ ctx_addrs k -> y ∉ X) -> a ∉ ctx_addrs k -> a <> NULL ->
  ctx_at m' k x.
Proof.
  intros Hk R K Hnd Hd Ha Hn0. destruct k as [|f k]; simpl in *; [done|].
  destruct Hk as (Hw & Hn & Ht & Hk). apply NoDup_cons in Hnd as [Hf Hnd].
  apply NoDup_app in Hnd as (_ & Hsk & _). split_and!.
  - unfold side_words in *. destruct (fb f); simpl in R; destruct R as [R|R]; try done.
    + by rewrite Z.eqb_refl in R.
    + enough (E : (root_of (fsib f) =? a) = false) by (by rewrite E in R).
      apply Z.eqb_neq. intros E. destruct (fsib f) as [|d dc dv dl dr]; simpl in E; [by subst|].
      subst. apply Ha. rewrite elem_of_cons, elem_of_app. right. left. simpl.
      rewrite fmap_app, fmap_cons. set_solver.
  - done.
  - eapply tree_at_keeps; [exact K| |done]. intros y Hy [->|Hx]%elem_of_cons; [set_solver|].
    apply (Hd y); [set_solver|done].
  - eapply ctx_at_keeps; [exact K| |done]. intros y Hy [->|Hx]%elem_of_cons; [set_solver|].
    apply (Hd y); [set_solver|done].
Qed.

Lemma rotated_inorder b a ca va n x cx vx n' f' :
  inorder (side_node b x cx vx (side_node b a ca va n n') f') =
  inorder (side_node b a ca va n (side_node b x cx vx n' f')).
Proof. destruct b; simpl; by rewrite <- app_assoc. Qed.

Lemma rotate_ok b s k a ca va n x cx vx n' f' :
  let t := side_node b a ca va n (side_node b x cx vx n' f') in
  let t' := side_node b x cx vx (side_node b a ca va n n') f' in
  rb_rep s (fill k t) ->
  exists s', rotate b a s = Ok (tt, s') /\ rebal s (fill k t) s' (fill k t').
Proof.
  intros t t' HR. pose proof HR as HR0. apply rep_fill in HR as (Hk & Ht & Hr & N1 & N2 & N3).
  unfold t in Hk. rewrite root_of_side in Hk. fold t in Hk.
  assert (Ha : a ∈ addrs t) by (apply addrs_side; by left).
  assert (Hn : a <> NULL) by (intros ->; by apply (null_not_in _ _ _ Ht)).
  assert (Htop : top_addr k ∉ addrs t) by (apply (top_not_in k); [done|by eapply null_not_in]).
  assert (Hio : inorder (fill k t') = inorder (fill k t)) by (apply inorder_fill_eq, rotated_inorder).
  destruct s as [g m e]. simpl in *.
  destruct (rotate_spec b g m e (top_addr k) a ca va n x cx vx n' f' (hook k a) Ht N1 Htop
    (ctx_hangs _ _ _ Hk)) as (m' & E & T & R & K).
  exists (mk_st (if top_addr k =? NULL then with_root g x else g) m' e). split; [exact E|].
  assert (Hnull : forall y, top_addr k = y -> (k = [] /\ y = NULL) \/ y <> NULL /\ k <> []).
  { intros y <-. destruct k; simpl in *; [by left|right; naive_solver]. }
  split; simpl; [|done| |by destruct (_ =? _), g|done].
  - apply rep_fill. simpl. split_and!.
    + unfold t'. rewrite root_of_side. eapply ctx_rehung; [exact Hk|exact R|exact K|done|..]; [|by apply N3|done].
      intros y Hy Hin. by apply (N3 y).
    + exact T.
    + destruct (Hnull _ eq_refl) as [[-> ->]|[Hne Hk0]]; simpl; [by unfold t'; rewrite root_of_side|].
      rewrite (proj2 (Z.eqb_neq _ _) Hne), Hr. destruct k as [|f k]; [done|]. simpl. apply root_fill.
      unfold plug. by rewrite !root_of_side.
    + destruct HR0 as [_ _ HN]. rewrite <- Hio in HN. by apply nodup_fill in HN as (? & ? & ?).
    + done.
    + destruct HR0 as [_ _ HN]. rewrite <- Hio in HN. by apply nodup_fill in HN as (? & ? & ?).
  - eapply keeps_weaken; [|exact K]. intros y [->|Hy]%elem_of_cons; apply elem_of_cons.
    + destruct k; [by left|right]. apply addrs_fill. right. apply elem_of_cons. by left.
    + right. apply addrs_fill. by left.
Qed.

(** ** The red-black invariant *)
Definition color_of (t : tree) : Z := match t with Leaf => RB_BLACK | Node _ c _ _ _ => c end.

(** Every path has [n] black nodes, no red node has a red child. *)
Fixpoint balanced (t : tree) (n : nat) : Prop :=
  match t with
  | Leaf => n = O
  | Node _ c _ l r =>
      c = RB_RED /\ color_of l = RB_BLACK /\ color_of r = RB_BLACK /\ balanced l n /\ balanced r n \/
      c = RB_BLACK /\ exists h, n = S h /\ balanced l h /\ balanced r h
  end.

Definition red_black (t : tree) : Prop := color_of t = RB_BLACK /\ exists n, balanced t n.

(** What the context asks of the subtree in the hole: its black height, and to
    be black under a red node or at the root. *)
Fixpoint ctx_ok (k : list frame) (n : nat) (c : Z) : Prop :=
  match k with
  | [] => c = RB_BLACK
  | f :: k =>
      balanced (fsib f) n /\
      (fc f = RB_RED /\ c = RB_BLACK /\ color_of (fsib f) = RB_BLACK /\ ctx_ok k n RB_RED \/
       fc f = RB_BLACK /\ ctx_ok k (S n) RB_BLACK)
  end.

Lemma color_side b a c v x y : color_of (side_node b a c v x y) = c.
Proof. by destruct b. Qed.

Lemma balanced_side b a c v x y n :
  balanced (side_node b a c v x y) n <->
  c = RB_RED /\ color_of x = RB_BLACK /\ color_of y = RB_BLACK /\ balanced x n /\ balanced y n \/
  c = RB_BLACK /\ exists h, n = S h /\ balanced x h /\ balanced y h.
Proof. destruct b; simpl; [done|]. split; (intros [?|(? & h & ?)]; [left; tauto|right; split; [done|exists h; tauto]]). Qed.

Lemma ctx_ok_fill k t n : balanced t n -> ctx_ok k n (color_of t) -> red_black (fill k t).
Proof.
  revert t n. induction k as [|f k IH]; intros t n Ht Hk; simpl in *; [split; [done|by exists n]|].
  destruct Hk as (Hs & [(Hc & Htc & Hsc & Hk)|(Hc & Hk)]).
  - apply (IH _ n); unfold plug; [|by rewrite color_side, Hc]. apply balanced_side. left. by split_and!.
  - apply (IH _ (S n)); unfold plug; [|by rewrite color_side, Hc].
    apply balanced_side. right. split; [done|]. by exists n.
Qed.

Lemma red_black_fill k t : red_black (fill k t) -> exists n, balanced t n /\ ctx_ok k n (color_of t).
Proof.
  revert t. induction k as [|f k IH]; intros t; simpl; [by intros (Hc & n & H); exists n|].
  intros (n & Hb & Hk)%IH. unfold plug in Hb, Hk. rewrite color_side in Hk. apply balanced_side in Hb.
  destruct Hb as [(Hc & H1 & H2 & H3 & H4)|(Hc & h & -> & H3 & H4)]; rewrite Hc in Hk.
  - exists n. split_and!; try done. left. by split_and!.
  - exists h. split_and!; try done. right. by split_and!.
Qed.

(** ** Insertion *)

(** The branch of the loop for a parent on side [b] of its parent. *)
Definition insert_turn (b : bool) (fuel : nat) (node parent gparent : Z) : M st unit :=
  tmp ← child (negb b) gparent;
  red ← is_red tmp;
  if red : bool then _ ← recolor tmp parent gparent; insert_color_loop fuel gparent else
  pf ← child (negb b) parent;
  '(node, parent) ← (if pf =? node then _ ← rotate b parent; mret (parent, node)
                     else mret (node, parent));
  _ ← set_COLOR parent RB_BLACK; _ ← set_COLOR gparent RB_RED;
  _ ← rotate (negb b) gparent; insert_color_loop fuel node.

Lemma insert_loop_turn b fuel node parent gparent gl s :
  RB_PARENT node s = Ok (parent, s) -> is_red parent s = Ok (true, s) ->
  RB_PARENT parent s = Ok (gparent, s) -> RB_LEFT gparent s = Ok (gl, s) -> (parent =? gl) = b ->
  insert_color_loop (S fuel) node s = insert_turn b fuel node parent gparent s.
Proof.
  intros E1 E2 E3 E4 Hb. cbn [insert_color_loop]. run E1. run E2. cbn [negb]. run E3. run E4.
  rewrite Hb. by destruct b.
Qed.

Lemma is_red_ok s k t : rb_rep s (fill k t) -> is_red (root_of t) s = Ok (color_of t =? RB_RED, s).
Proof.
  intros HR. destruct t as [|a c v l r]; [done|].
  destruct (focus_reads true s k a c v l r HR) as (_ & _ & _ & E & Hn).
  unfold is_red. simpl. rewrite (proj2 (Z.eqb_neq _ _) Hn). by run E.
Qed.

Lemma is_black_ok s k t : rb_rep s (fill k t) -> is_black (root_of t) s = Ok (color_of t =? RB_BLACK, s).
Proof.
  intros HR. destruct t as [|a c v l r]; [done|].
  destruct (focus_reads true s k a c v l r HR) as (_ & _ & _ & E & Hn).
  unfold is_black. simpl. rewrite (proj2 (Z.eqb_neq _ _) Hn). by run E.
Qed.

Lemma plug_negb f t : plug f t = plug (mk_frame (negb (fb f)) (fa f) (fc f) (fv f) t) (fsib f).
Proof. unfold plug. simpl. by rewrite side_node_negb. Qed.

Lemma root_elem t : t <> Leaf -> root_of t ∈ addrs t.
Proof. destruct t; [done|]. intros _. simpl. rewrite fmap_app, fmap_cons. set_solver. Qed.

(** On which side of the top frame's node the hole is. *)
Lemma hole_of_top b s f k t : rb_rep s (fill (f :: k) t) -> root_of t <> NULL \/ root_of (fsib f) <> NULL ->
  exists x, child b (fa f) s = Ok (x, s) /\ (x =? root_of t) = eqb b (fb f).
Proof.
  intros HR Hne. simpl in HR. destruct (focus_reads _ _ _ _ _ _ _ _ HR) as (_ & E1 & E2 & _ & _).
  destruct (bool_decide_reflect (b = fb f)) as [->|Hb].
  { exists (root_of t). by rewrite Z.eqb_refl, eqb_reflx. }
  assert (b = negb (fb f)) as -> by (by destruct b, (fb f)).
  exists (root_of (fsib f)). split; [done|]. rewrite eqb_negb1. apply Z.eqb_neq. intros Heq.
  destruct HR as [_ _ HN]. apply nodup_fill in HN as (HN & _). apply nodup_side in HN as (_ & _ & HN & _).
  assert (t <> Leaf /\ fsib f <> Leaf) as [Ht Hs].
  { split; intros E; rewrite E in *; simpl in Heq; rewrite Heq in *; by destruct Hne. }
  apply (HN _ (root_elem _ Ht)). rewrite <- Heq. by apply root_elem.
Qed.

Lemma root_nonnull s k t : rb_rep s (fill k t) -> t <> Leaf -> root_of t <> NULL.
Proof.
  intros HR Hne. destruct t as [|a c v l r]; [done|].
  by destruct (focus_reads true s k a c v l r HR) as (_ & _ & _ & _ & ?).
Qed.

Definition paint (c : Z) (t : tree) : tree := match t with Leaf => Leaf | Node a _ v l r => Node a c v l r end.

Lemma paint_side b a c c' v x y : paint c' (side_node b a c v x y) = side_node b a c' v x y.
Proof. by destruct b. Qed.

Lemma color_paint c t : t <> Leaf -> color_of (paint c t) = c.
Proof. by destruct t. Qed.

Lemma root_paint c t : root_of (paint c t) = root_of t.
Proof. by destruct t. Qed.

Lemma set_root_color s k t c : rb_rep s (fill k t) -> t <> Leaf -> is_u 64 c ->
  exists s', set_COLOR (root_of t) c s = Ok (tt, s') /\ rebal s (fill k t) s' (fill k (paint c t)).
Proof.
  intros HR Hne Hc. destruct t as [|a c0 v l r]; [done|]. exact (set_color_ok true s k a c0 v l r c HR Hc).
Qed.

Definition with_sib (f : frame) (t : tree) : frame := mk_frame (fb f) (fa f) (fc f) (fv f) t.
Definition with_color (f : frame) (c : Z) : frame := mk_frame (fb f) (fa f) c (fv f) (fsib f).

(** The other child of the top frame's node. *)
Definition flip (f : frame) (t : tree) : frame := mk_frame (negb (fb f)) (fa f) (fc f) (fv f) t.

Lemma fill_flip f k t : fill (f :: k) t = fill (flip f t :: k) (fsib f).
Proof. simpl. by rewrite plug_negb. Qed.

Lemma set_sibling_color s f k t c : rb_rep s (fill (f :: k) t) -> fsib f <> Leaf -> is_u 64 c ->
  exists s', set_COLOR (root_of (fsib f)) c s = Ok (tt, s') /\
    rebal s (fill (f :: k) t) s' (fill (with_sib f (paint c (fsib f)) :: k) t).
Proof.
  rewrite (fill_flip f k t). intros HR Hne Hc.
  destruct (set_root_color s _ _ c HR Hne Hc) as (s' & E & R). exists s'. split; [done|].
  rewrite (fill_flip (with_sib _ _)). exact R.
Qed.

Lemma set_top_color s f k t c : rb_rep s (fill (f :: k) t) -> is_u 64 c ->
  exists s', set_COLOR (fa f) c s = Ok (tt, s') /\
    rebal s (fill (f :: k) t) s' (fill (with_color f c :: k) t).
Proof. intros HR Hc. exact (set_color_ok _ _ _ _ _ _ _ _ _ HR Hc). Qed.

Lemma far_of_top s f k t : rb_rep s (fill (f :: k) t) ->
  child (negb (fb f)) (fa f) s = Ok (root_of (fsib f), s).
Proof. intros HR. by destruct (focus_reads _ _ _ _ _ _ _ _ HR) as (_ & _ & E & _). Qed.

Ltac obtain L s' E R := destruct L as (s' & E & R).

(** Red uncle: the two are blackened, the grandparent reddened. *)
Lemma recolor_ok s f g k t : rb_rep s (fill (f :: g :: k) t) -> fsib g <> Leaf ->
  exists s', recolor (root_of (fsib g)) (fa f) (fa g) s = Ok (tt, s') /\
    rebal s (fill (f :: g :: k) t) s'
      (fill k (side_node (fb g) (fa g) RB_RED (fv g)
        (side_node (fb f) (fa f) RB_BLACK (fv f) t (fsib f)) (paint RB_BLACK (fsib g)))).
Proof.
  intros HR Hne. destruct (set_sibling_color s g k (plug f t) RB_BLACK HR Hne ltac:(done)) as (s1 & E1 & R1).
  destruct (set_top_color s1 f (with_sib g (paint RB_BLACK (fsib g)) :: k) t RB_BLACK
    (rebal_rep _ _ _ _ R1) ltac:(done)) as (s2 & E2 & R2).
  destruct (set_top_color s2 (with_sib g (paint RB_BLACK (fsib g))) k
    (plug (with_color f RB_BLACK) t) RB_RED (rebal_rep _ _ _ _ R2) ltac:(done)) as (s3 & E3 & R3).
  exists s3. split; [unfold recolor; run E1; run E2; exact E3|].
  eapply rebal_trans; [exact R1|]. eapply rebal_trans; [exact R2|exact R3].
Qed.

(** Black uncle, the node on the outer side: the parent takes the place of the
    grandparent. *)
Lemma outer_ok s f g k t : rb_rep s (fill (f :: g :: k) t) -> fb f = fb g ->
  let f' := mk_frame (fb g) (fa f) RB_BLACK (fv f) (side_node (fb g) (fa g) RB_RED (fv g) (fsib f) (fsib g)) in
  exists s', (_ ← set_COLOR (fa f) RB_BLACK; _ ← set_COLOR (fa g) RB_RED; rotate (negb (fb g)) (fa g)) s =
      Ok (tt, s') /\ rebal s (fill (f :: g :: k) t) s' (fill (f' :: k) t).
Proof.
  intros HR Hb f'.
  destruct (set_top_color s f _ t RB_BLACK HR ltac:(done)) as (s1 & E1 & R1).
  destruct (set_top_color s1 g k (plug (with_color f RB_BLACK) t) RB_RED (rebal_rep _ _ _ _ R1) ltac:(done))
    as (s2 & E2 & R2).
  pose proof (rebal_rep _ _ _ _ R2) as HR2.
  assert (Eq : fill (with_color g RB_RED :: k) (plug (with_color f RB_BLACK) t) =
    fill k (side_node (negb (fb g)) (fa g) RB_RED (fv g) (fsib g)
             (side_node (negb (fb g)) (fa f) RB_BLACK (fv f) (fsib f) t)))
    by (rewrite !side_node_negb; simpl; unfold plug; simpl; rewrite Hb; reflexivity).
  rewrite Eq in HR2, R2. destruct (rotate_ok _ _ _ _ _ _ _ _ _ _ _ _ HR2) as (s3 & E3 & R3).
  exists s3. split; [run E1; run E2; exact E3|].
  eapply rebal_trans; [exact R1|]. eapply rebal_trans; [exact R2|].
  eassert (Eq' : fill (f' :: k) t = _); [|rewrite Eq'; exact R3].
  rewrite !side_node_negb. reflexivity.
Qed.

Lemma run_turn (b : bool) fuel node parent gparent pf nd par (s s1 s2 : st) (tmp : Z) :
  child (negb b) gparent s = Ok (tmp, s) -> is_red tmp s = Ok (false, s) ->
  child (negb b) parent s = Ok (pf, s) ->
  (if pf =? node then _ ← rotate b parent; mret (parent, node) else mret (node, parent)) s = Ok ((nd, par), s1) ->
  (_ ← set_COLOR par RB_BLACK; _ ← set_COLOR gparent RB_RED; rotate (negb b) gparent) s1 = Ok (tt, s2) ->
  insert_turn b fuel node parent gparent s = insert_color_loop fuel nd s2.
Proof.
  intros E1 E2 E3 E4 E5. unfold insert_turn. run E1. run E2. run E3. run E4.
  apply bind_Ok_inv in E5 as ([] & s3 & F1 & E5). run F1.
  apply bind_Ok_inv in E5 as ([] & s4 & F2 & E5). run F2. by run E5.
Qed.


Lemma node_side b a c v l r : Node a c v l r = side_node b a c v (near b l r) (far b l r).
Proof. by destruct b. Qed.

(** The node on the inner side: the first rotation makes it an outer one. *)
Lemma inner_ok s f g k a v n n' :
  let t := side_node (fb g) a RB_RED v n n' in
  rb_rep s (fill (f :: g :: k) t) -> fb f = negb (fb g) ->
  exists s', rotate (fb g) (fa f) s = Ok (tt, s') /\
    rebal s (fill (f :: g :: k) t) s'
      (fill (mk_frame (fb g) a RB_RED v n' :: g :: k) (side_node (fb g) (fa f) (fc f) (fv f) (fsib f) n)).
Proof.
  intros t HR Hb.
  assert (Eq : fill (f :: g :: k) t = fill (g :: k) (side_node (fb g) (fa f) (fc f) (fv f) (fsib f) t)).
  { cbn [fill]. unfold plug at 2. by rewrite Hb, side_node_negb. }
  rewrite Eq in *. exact (rotate_ok _ s (g :: k) _ _ _ _ _ _ _ _ _ HR).
Qed.

(** A turn with a black uncle: the red node is left under a black one. *)
Lemma black_uncle_ok fuel s f g k t n :
  rb_rep s (fill (f :: g :: k) t) -> balanced t n -> color_of t = RB_RED -> fc f = RB_RED ->
  ctx_ok (f :: g :: k) n RB_BLACK -> color_of (fsib g) = RB_BLACK ->
  exists f' t' s', insert_turn (fb g) fuel (root_of t) (fa f) (fa g) s =
      insert_color_loop fuel (root_of t') s' /\
    rebal s (fill (f :: g :: k) t) s' (fill (f' :: k) t') /\ balanced t' n /\
    color_of t' = RB_RED /\ fc f' = RB_BLACK /\ ctx_ok (f' :: k) n RB_BLACK.
Proof.
  intros HR Ht Hred Hf Hk Hunc. simpl in Hk. rewrite Hf in Hk.
  destruct Hk as (Bs & [(_ & _ & Cs & Bu & [(_ & ? & _)|(Hg & Hk)])|(? & _)]); [done| |done].
  pose proof (far_of_top s g k (plug f t) HR) as E1.
  assert (E2 : is_red (root_of (fsib g)) s = Ok (false, s)).
  { rewrite (is_red_ok s (flip g (plug f t) :: k)); [by rewrite Hunc|]. rewrite <- fill_flip. exact HR. }
  destruct t as [|a c v l r] eqn:Et; [done|]. simpl in Hred. subst c. rewrite <- Et in *.
  assert (Hne : root_of t <> NULL) by (eapply root_nonnull; [exact HR|by subst]).
  destruct (hole_of_top (negb (fb g)) s f (g :: k) t HR (or_introl Hne)) as (pf & E3 & Hpf).
  destruct (bool_decide_reflect (fb f = fb g)) as [Hb|Hb].
  - destruct (outer_ok s f g k t HR Hb) as (s' & E & R).
    eexists _, t, s'. split_and!; [|exact R|done|by subst|done|].
    + eapply run_turn; [exact E1|exact E2|exact E3| |exact E].
      rewrite Hpf, Hb, eqb_negb1. done.
    + simpl. split; [apply balanced_side; left; by split_and!|]. by right.
  - assert (Hb' : fb f = negb (fb g)) by (by destruct (fb f), (fb g)).
    rewrite (node_side (fb g)) in Et. rewrite Et in HR, Ht. apply balanced_side in Ht.
    destruct Ht as [(_ & C1 & C2 & B1 & B2)|(? & _)]; [|done].
    destruct (inner_ok s f g k _ _ _ _ HR Hb') as (s1 & Er & R1).
    destruct (outer_ok s1 _ g k _ (rebal_rep _ _ _ _ R1) eq_refl) as (s2 & E & R2).
    eexists _, _, s2. split_and!.
    + eapply run_turn; [exact E1|exact E2|exact E3| |exact E].
      rewrite Hpf, Hb', eqb_reflx. run Er. rewrite Et, root_of_side, root_of_side. done.
    + eapply rebal_trans; [rewrite Et; exact R1|exact R2].
    + apply balanced_side. left. by split_and!.
    + by rewrite color_side.
    + done.
    + simpl. split; [apply balanced_side; left; by split_and!|]. by right.
Qed.

Lemma insert_loop_ok fuel k t n s :
  rb_rep s (fill k t) -> balanced t n -> color_of t = RB_RED -> ctx_ok k n RB_BLACK ->
  (length k < fuel)%nat ->
  exists s' T', insert_color_loop fuel (root_of t) s = Ok (tt, s') /\
    rebal s (fill k t) s' T' /\ exists h, balanced T' h.
Proof.
  revert k t n s. induction fuel as [fuel IH] using lt_wf_ind. intros k t n s HR Ht Hred Hk Hf.
  destruct fuel as [|fuel]; [lia|].
  assert (Et : exists a v l r, t = Node a RB_RED v l r)
    by (destruct t; simpl in Hred; [done|subst; by eauto]).
  destruct Et as (a & v & l & r & Et).
  assert (Ep : RB_PARENT (root_of t) s = Ok (top_addr k, s)).
  { rewrite Et in *. by destruct (focus_reads true s k _ _ _ _ _ HR) as (E & _). }
  destruct k as [|f k].
  { exists s, t. split; [cbn [insert_color_loop]; by run Ep|]. split; [by apply rebal_refl|by exists n]. }
  pose proof (is_red_ok s k (plug f t) HR) as Er. unfold plug in Er at 1.
  rewrite root_of_side in Er. unfold plug in Er. rewrite color_side in Er. simpl in Ep.
  destruct (Z.eqb_spec (fc f) RB_RED) as [Hfc|Hfc].
  2: { exists s, (fill (f :: k) t). split; [cbn [insert_color_loop]; run Ep; by run Er|].
    split; [by apply rebal_refl|]. eapply ctx_ok_fill; [exact Ht|]. rewrite Hred.
    simpl in Hk |- *. destruct Hk as (Hs & [(? & _)|Hk]); [done|]. by split; [|right]. }
  assert (Hg : exists g k', k = g :: k').
  { destruct k as [|g k]; [|by eauto]. simpl in Hk. rewrite Hfc in Hk.
    by destruct Hk as (_ & [(_ & _ & _ & ?)|(? & _)]). }
  destruct Hg as (g & k' & ->).
  destruct (focus_reads _ s (g :: k') _ _ _ _ _ HR) as (Epp & _ & _ & _ & Hfn). simpl in Epp.
  destruct (hole_of_top true s g k' (plug f t) HR) as (gl & Egl & Hgl).
  { left. unfold plug. by rewrite root_of_side. }
  unfold plug in Hgl. rewrite root_of_side in Hgl.
  assert (Hside : (fa f =? gl) = fb g) by (rewrite Z.eqb_sym, Hgl; by destruct (fb g)).
  rewrite (insert_loop_turn _ _ _ _ _ _ _ Ep Er Epp Egl Hside).
  destruct (Z.eqb_spec (color_of (fsib g)) RB_RED) as [Hu|Hu].
  - assert (Hun : fsib g <> Leaf) by (intros E; by rewrite E in Hu).
    destruct (recolor_ok s f g k' t HR Hun) as (s1 & E1 & R1).
    pose proof Hk as Hk'. simpl in Hk'. rewrite Hfc, Hu in Hk'.
    destruct Hk' as (Bs & [(_ & _ & Cs & Bu & [(_ & ? & _)|(Hgc & Hk')])|(? & _)]); [done| |done].
    assert (B1 : balanced (paint RB_BLACK (fsib g)) (S n)).
    { destruct (fsib g) as [|ua uc uv ul ur]; [done|]. simpl in Hu, Bu |- *. subst uc.
      destruct Bu as [(_ & _ & _ & ? & ?)|(? & _)]; [|done]. right. split; [done|]. by exists n. }
    destruct (IH fuel ltac:(lia) k' _ (S n) s1 (rebal_rep _ _ _ _ R1)) as (s2 & T & E2 & R2 & H2).
    + apply balanced_side. left. split_and!; try done; [by rewrite color_side|by apply color_paint|].
      apply balanced_side. right. split; [done|]. by exists n.
    + by rewrite color_side.
    + done.
    + simpl in Hf. lia.
    + rewrite root_of_side in E2. exists s2, T. split; [|split; [by eapply rebal_trans|done]].
      unfold insert_turn. run (far_of_top s g k' (plug f t) HR).
      assert (Eu : is_red (root_of (fsib g)) s = Ok (true, s)).
      { rewrite (is_red_ok s (flip g (plug f t) :: k')); [by rewrite Hu|]. rewrite <- fill_flip. exact HR. }
      run Eu. run E1. exact E2.
  - assert (Hub : color_of (fsib g) = RB_BLACK).
    { pose proof Hk as Hk'. simpl in Hk'. rewrite Hfc in Hk'.
      destruct Hk' as (_ & [(_ & _ & _ & Bu & _)|(? & _)]); [|done].
      destruct (fsib g); [done|]. simpl in Bu, Hu |- *. by destruct Bu as [(? & _)|(? & _)]. }
    destruct (black_uncle_ok fuel s f g k' t n HR Ht Hred Hfc Hk Hub) as (f' & t' & s1 & E1 & R1 & B1 & C1 & F1 & K1).
    destruct (IH fuel ltac:(lia) (f' :: k') t' n s1 (rebal_rep _ _ _ _ R1) B1 C1 K1) as (s2 & T & E2 & R2 & H2).
    { simpl in Hf |- *. lia. }
    exists s2, T. rewrite E1. split; [exact E2|]. split; [by eapply rebal_trans|done].
Qed.

Lemma length_fill k t : (length k + length (inorder t) <= length (inorder (fill k t)))%nat.
Proof.
  revert t. induction k as [|f k IH]; intros t; simpl; [lia|]. specialize (IH (plug f t)).
  enough (S (length (inorder t)) <= length (inorder (plug f t)))%nat by lia.
  unfold plug, side_node. destruct (fb f); simpl; rewrite length_app; simpl; lia.
Qed.

Lemma context_lt_fuel s k t : rb_rep s (fill k t) -> (length k < fuel_of s)%nat.
Proof.
  intros [Ht _ Hn]. pose proof (length_fill k t) as H.
  pose proof (live_le_size (omem s) (addrs (fill k t))) as Hs. rewrite length_fmap in Hs. unfold fuel_of.
  enough (length (inorder (fill k t)) <= size (blocks (omem s)))%nat by lia.
  apply Hs; [|done]. intros a Ha. by eapply tree_at_live.
Qed.

Lemma paint_black_ok t n : balanced t n -> red_black (paint RB_BLACK t).
Proof.
  destruct t as [|a c v l r]; simpl; [by split; [|exists n]|].
  intros [(_ & _ & _ & Hl & Hr)|(_ & h & -> & Hl & Hr)]; (split; [done|]); [exists (S n)|exists (S h)];
    right; (split; [done|]); by eexists.
Qed.

Lemma paint_root_ok s T c : rb_rep s T -> T <> Leaf -> is_u 64 c ->
  exists s', (r ← RB_ROOT; set_COLOR r c) s = Ok (tt, s') /\ rebal s T s' (paint c T).
Proof.
  intros HR Hne Hc. destruct (set_root_color s [] T c HR Hne Hc) as (s' & E & R). exists s'. split; [|exact R].
  assert (Er : RB_ROOT s = Ok (root_of T, s)) by (unfold RB_ROOT, get_guard; simpl; by destruct HR as [_ <- _]).
  by run Er.
Qed.

Lemma insert_color_ok s k t n :
  rb_rep s (fill k t) -> balanced t n -> color_of t = RB_RED -> ctx_ok k n RB_BLACK ->
  exists s' T', _insert_color (root_of t) s = Ok (tt, s') /\ rebal s (fill k t) s' T' /\ red_black T'.
Proof.
  intros HR Ht Hred Hk.
  destruct (insert_loop_ok _ k t n s HR Ht Hred Hk (context_lt_fuel _ _ _ HR)) as (s1 & T1 & E1 & R1 & h & Hh).
  assert (Hne : T1 <> Leaf).
  { intros ->. pose proof (rebal_inorder _ _ _ _ R1) as Hi. destruct (inorder_fill k) as (l1 & l2 & El).
    rewrite El in Hi. destruct t as [|a c v l r]; [done|]. simpl in Hi. by destruct l1, (inorder l). }
  destruct (paint_root_ok s1 T1 RB_BLACK (rebal_rep _ _ _ _ R1) Hne ltac:(done)) as (s2 & E2 & R2).
  exists s2, (paint RB_BLACK T1). split_and!; [|by eapply rebal_trans|by eapply paint_black_ok].
  unfold _insert_color. run (eq_refl : get_st s = Ok (s, s)). run E1. exact E2.
Qed.

(** C25. Rebalancing after an insertion.  A red leaf linked anywhere into a
    red-black tree: [_insert_color] terminates and leaves a red-black tree of
    the same nodes in the same order; only links and colours of these nodes and
    the root have changed. *)
Theorem rb_insert_color_rebalances s k a v :
  let T := fill k (Node a RB_RED v Leaf Leaf) in
  rb_rep s T -> red_black (fill k Leaf) ->
  exists s' T', _insert_color a s = Ok (tt, s') /\ rb_rep s' T' /\ red_black T' /\
    inorder T' = inorder T /\ keeps (NULL :: addrs T) (omem s) (omem s') /\
    guard s' = with_root (guard s) (root_of T') /\ kerrno s' = kerrno s.
Proof.
  intros T HR HB. apply red_black_fill in HB as (n & Hn & Hk). simpl in Hn. subst n.
  destruct (insert_color_ok s k (Node a RB_RED v Leaf Leaf) 0 HR) as (s' & T' & E & [R I K G Ek] & B).
  - left. by split_and!.
  - done.
  - exact Hk.
  - exists s', T'. split_and!; try done. rewrite G at 1. f_equal. apply R.
Qed.

(** The third of three nodes in a row: a rotation and the exchange of colours. *)
Definition row_tree : list frame :=
  [mk_frame false 80 RB_RED 20 Leaf; mk_frame false 32 RB_BLACK 10 Leaf].
Definition row_st : st :=
  mk_st (mk_krb ex_opts 0 0 0 32)
    (mk_mem {[32 := enc_words [0; 0; 80; 0; 10]; 80 := enc_words [32; 0; 128; 1; 20];
              128 := enc_words [80; 0; 0; 1; 30]]} 200 []) None.

Lemma rb_insert_color_rebalances_witness :
  exists s' T', _insert_color 128 row_st = Ok (tt, s') /\ rb_rep s' T' /\ red_black T' /\
    inorder T' = [(32, 10); (80, 20); (128, 30)].
Proof.
  destruct (rb_insert_color_rebalances row_st row_tree 128 30) as (s' & T' & E & R & B & I & _).
  - split; [|done|apply (bool_decide_unpack _); by vm_compute].
    simpl. split_and!; try done; repeat constructor; done.
  - split; [done|]. exists 1%nat. right. split; [done|]. exists O. split; [done|]. split; [done|].
    left. by split_and!.
  - exists s', T'. by split_and!.
Defined.

(** ** Removal *)

(** The branch of the loop for a node on side [b] of its parent, in three
    parts: a red sibling, black nephews, the final rotations. *)
Definition finish (b : bool) (parent tmp : Z) : M st Z :=
  tf ← child (negb b) tmp; far_black ← is_black tf;
  tmp ← (if far_black : bool then
           o ← child b tmp;
           _ ← (if negb (o =? NULL) then set_COLOR o RB_BLACK else mret tt);
           _ ← set_COLOR tmp RB_RED;
           _ ← rotate (negb b) tmp; child (negb b) parent
         else mret tmp);
  c ← RB_COLOR parent; _ ← set_COLOR tmp c; _ ← set_COLOR parent RB_BLACK;
  tf ← child (negb b) tmp;
  _ ← (if negb (tf =? NULL) then set_COLOR tf RB_BLACK else mret tt);
  _ ← rotate b parent; RB_ROOT.

Definition black_sibling (b : bool) (fuel : nat) (parent tmp : Z) : M st Z :=
  bb ← both_black tmp;
  if bb : bool then
    _ ← set_COLOR tmp RB_RED; p ← RB_PARENT parent; remove_color_loop fuel p parent
  else finish b parent tmp.

Definition remove_turn (b : bool) (fuel : nat) (parent : Z) : M st Z :=
  tmp ← child (negb b) parent;
  c ← RB_COLOR tmp;
  tmp ← (if c =? RB_RED then
           _ ← set_COLOR tmp RB_BLACK; _ ← set_COLOR parent RB_RED;
           _ ← rotate b parent; child (negb b) parent
         else mret tmp);
  black_sibling b fuel parent tmp.

Lemma remove_loop_turn b fuel node parent r pl s :
  is_black node s = Ok (true, s) -> RB_ROOT s = Ok (r, s) -> node <> r ->
  RB_LEFT parent s = Ok (pl, s) -> (pl =? node) = b ->
  remove_color_loop (S fuel) parent node s = remove_turn b fuel parent s.
Proof.
  intros E1 E2 Hr E3 Hb. cbn [remove_color_loop]. run E1. run E2.
  rewrite (proj2 (Z.eqb_neq _ _) Hr). cbn [negb andb]. run E3. rewrite Hb. by destruct b.
Qed.

(** A red sibling: after the rotation the sibling is black. *)
Lemma red_sibling_ok s f k t xa xv xn xf :
  rb_rep s (fill (f :: k) t) -> fsib f = side_node (fb f) xa RB_RED xv xn xf ->
  let f' := mk_frame (fb f) (fa f) RB_RED (fv f) xn in
  let k' := mk_frame (fb f) xa RB_BLACK xv xf :: k in
  exists s', (_ ← set_COLOR xa RB_BLACK; _ ← set_COLOR (fa f) RB_RED; rotate (fb f) (fa f)) s = Ok (tt, s') /\
    rebal s (fill (f :: k) t) s' (fill (f' :: k') t).
Proof.
  intros HR Hs f' k'.
  assert (Hne : fsib f <> Leaf) by (rewrite Hs; by destruct (fb f)).
  destruct (set_sibling_color s f k t RB_BLACK HR Hne ltac:(done)) as (s1 & E1 & R1).
  destruct (set_top_color s1 (with_sib f (paint RB_BLACK (fsib f))) k t RB_RED (rebal_rep _ _ _ _ R1) ltac:(done))
    as (s2 & E2 & R2).
  rewrite Hs, root_of_side in E1.
  assert (Eq : fill (with_color (with_sib f (paint RB_BLACK (fsib f))) RB_RED :: k) t =
    fill k (side_node (fb f) (fa f) RB_RED (fv f) t (side_node (fb f) xa RB_BLACK xv xn xf)))
    by (cbn [fill]; unfold plug; cbn; by rewrite Hs, paint_side).
  rewrite Eq in R2. destruct (rotate_ok _ _ _ _ _ _ _ _ _ _ _ _ (rebal_rep _ _ _ _ R2)) as (s3 & E3 & R3).
  exists s3. split; [run E1; run E2; exact E3|].
  eapply rebal_trans; [exact R1|]. eapply rebal_trans; [exact R2|exact R3].
Qed.

(** A black sibling with a red far child: one rotation ends it. *)
Lemma far_red_ok s f k t ya yv yn yf :
  rb_rep s (fill (f :: k) t) -> fsib f = side_node (fb f) ya RB_BLACK yv yn yf -> yf <> Leaf ->
  is_u 64 (fc f) ->
  exists s', (c ← RB_COLOR (fa f); _ ← set_COLOR ya c; _ ← set_COLOR (fa f) RB_BLACK;
      tf ← child (negb (fb f)) ya;
      _ ← (if negb (tf =? NULL) then set_COLOR tf RB_BLACK else mret tt);
      rotate (fb f) (fa f)) s = Ok (tt, s') /\
    rebal s (fill (f :: k) t) s'
      (fill k (side_node (fb f) ya (fc f) yv (side_node (fb f) (fa f) RB_BLACK (fv f) t yn) (paint RB_BLACK yf))).
Proof.
  intros HR Hs Hyf Hc.
  destruct (focus_reads _ s k _ _ _ _ _ HR) as (_ & _ & _ & Ec & _).
  assert (Hne : fsib f <> Leaf) by (rewrite Hs; by destruct (fb f)).
  destruct (set_sibling_color s f k t (fc f) HR Hne Hc) as (s1 & E1 & R1).
  destruct (set_top_color s1 (with_sib f (paint (fc f) (fsib f))) k t RB_BLACK (rebal_rep _ _ _ _ R1) ltac:(done))
    as (s2 & E2 & R2).
  rewrite Hs, root_of_side in E1. rewrite Hs, paint_side in R2.
  set (f2 := with_color (with_sib f (side_node (fb f) ya (fc f) yv yn yf)) RB_BLACK) in *.
  set (k2 := flip f2 t :: k). set (g := mk_frame (negb (fb f)) ya (fc f) yv yn).
  assert (Eq2 : fill (f2 :: k) t = fill k2 (side_node (fb f) ya (fc f) yv yn yf)) by apply fill_flip.
  assert (Eq : fill (f2 :: k) t = fill (g :: k2) yf).
  { rewrite Eq2. cbn [fill]. unfold plug, g. cbn. by rewrite side_node_negb. }
  pose proof (rebal_rep _ _ _ _ R2) as HR2. rewrite Eq2 in HR2.
  destruct (focus_reads _ s2 k2 _ _ _ _ _ HR2) as (_ & _ & Etf & _ & _).
  rewrite <- Eq2, Eq in HR2. rewrite Eq in R2. pose proof (root_nonnull _ _ _ HR2 Hyf) as Hn.
  destruct (set_root_color s2 _ yf RB_BLACK HR2 Hyf ltac:(done)) as (s3 & E3 & R3).
  assert (Eq3 : fill (g :: k2) (paint RB_BLACK yf) =
    fill k (side_node (fb f) (fa f) RB_BLACK (fv f) t (side_node (fb f) ya (fc f) yv yn (paint RB_BLACK yf))))
    by (unfold k2; cbn [fill]; unfold plug, g, f2; cbn; by rewrite !side_node_negb).
  rewrite Eq3 in R3. destruct (rotate_ok _ _ _ _ _ _ _ _ _ _ _ _ (rebal_rep _ _ _ _ R3)) as (s4 & E4 & R4).
  exists s4. split.
  - run Ec. run E1. run E2. run Etf. rewrite (proj2 (Z.eqb_neq _ _) Hn). cbn [negb]. run E3. exact E4.
  - rewrite Hs, paint_side in R1.
    eapply rebal_trans; [exact R1|]. eapply rebal_trans; [exact R2|].
    eapply rebal_trans; [exact R3|exact R4].
Qed.

(** A black sibling whose red child is the near one: it takes the sibling's place. *)
Lemma near_red_ok s f k t xa xv na nv nn nf sf :
  rb_rep s (fill (f :: k) t) ->
  fsib f = side_node (fb f) xa RB_BLACK xv (side_node (fb f) na RB_RED nv nn nf) sf ->
  exists s', (o ← child (fb f) xa;
      _ ← (if negb (o =? NULL) then set_COLOR o RB_BLACK else mret tt);
      _ ← set_COLOR xa RB_RED;
      _ ← rotate (negb (fb f)) xa; child (negb (fb f)) (fa f)) s = Ok (na, s') /\
    rebal s (fill (f :: k) t) s'
      (fill (with_sib f (side_node (fb f) na RB_BLACK nv nn (side_node (fb f) xa RB_RED xv nf sf)) :: k) t).
Proof.
  intros HR Hs. set (sn := side_node (fb f) na RB_RED nv nn nf) in *.
  set (k2 := flip f t :: k). set (g := mk_frame (fb f) xa RB_BLACK xv sf).
  assert (Eq : fill (f :: k) t = fill (g :: k2) sn).
  { rewrite fill_flip, Hs. reflexivity. }
  pose proof HR as HR0. rewrite Eq in HR0.
  destruct (focus_reads (fb f) s k2 _ _ _ _ _ HR0) as (_ & Eo & _ & _ & _).
  assert (Hsn : sn <> Leaf) by (unfold sn; by destruct (fb f)).
  pose proof (root_nonnull _ _ _ HR0 Hsn) as Hn.
  destruct (set_root_color s _ sn RB_BLACK HR0 Hsn ltac:(done)) as (s1 & E1 & R1).
  destruct (set_top_color s1 g k2 _ RB_RED (rebal_rep _ _ _ _ R1) ltac:(done)) as (s2 & E2 & R2).
  unfold sn at 2 in R2. rewrite paint_side in R2.
  assert (Eq2 : fill (with_color g RB_RED :: k2) (side_node (fb f) na RB_BLACK nv nn nf) =
    fill k2 (side_node (negb (fb f)) xa RB_RED xv sf (side_node (negb (fb f)) na RB_BLACK nv nf nn)))
    by (by rewrite !side_node_negb).
  rewrite Eq2 in R2. destruct (rotate_ok _ _ _ _ _ _ _ _ _ _ _ _ (rebal_rep _ _ _ _ R2)) as (s3 & E3 & R3).
  set (T := side_node (fb f) na RB_BLACK nv nn (side_node (fb f) xa RB_RED xv nf sf)).
  assert (Eq3 : fill k2 (side_node (negb (fb f)) na RB_BLACK nv (side_node (negb (fb f)) xa RB_RED xv sf nf) nn) =
    fill (with_sib f T :: k) t) by (rewrite (fill_flip (with_sib f T)), !side_node_negb; reflexivity).
  rewrite Eq3 in R3. pose proof (far_of_top _ _ _ _ (rebal_rep _ _ _ _ R3)) as E4.
  exists s3. split.
  - run Eo. rewrite (proj2 (Z.eqb_neq _ _) Hn). cbn [negb]. run E1. run E2. run E3.
    unfold T in E4. cbn [fsib with_sib fb fa] in E4. by rewrite root_of_side in E4.
  - rewrite Eq. eapply rebal_trans; [exact R1|].
    eapply rebal_trans; [exact R2|exact R3].
Qed.

(** The reads of [both_black]. *)
Lemma both_black_ok s k a c v x y b : rb_rep s (fill k (side_node b a c v x y)) ->
  both_black a s = Ok ((color_of x =? RB_BLACK) && (color_of y =? RB_BLACK), s).
Proof.
  intros HR.
  assert (Eq : exists l r, side_node b a c v x y = Node a c v l r /\
    (color_of x =? RB_BLACK) && (color_of y =? RB_BLACK) = (color_of l =? RB_BLACK) && (color_of r =? RB_BLACK)).
  { destruct b; [by exists x, y|]. exists y, x. by rewrite andb_comm. }
  destruct Eq as (l & r & Eq & ->). rewrite Eq in HR. clear Eq.
  destruct (focus_reads true s k a c v l r HR) as (_ & El & Er & _ & _). simpl in El, Er.
  unfold both_black. run El.
  run (is_black_ok s (mk_frame true a c v r :: k) l HR).
  destruct (color_of l =? RB_BLACK); [|done]. cbn [negb andb]. run Er.
  exact (is_black_ok s (mk_frame false a c v l :: k) r HR).
Qed.

(** The subtrees a turn works on, one black node short of what the context asks. *)
Definition due (t : tree) (n : nat) : Prop :=
  color_of t = RB_BLACK /\ balanced t n \/ color_of t = RB_RED /\ balanced (paint RB_BLACK t) (S n).

(** What the loop returns: the node to blacken for a red-black tree. *)
Definition settled (s : st) (T : tree) (r : outcome (Z * st)) : Prop :=
  exists k t s', r = Ok (root_of t, s') /\ rebal s T s' (fill k t) /\ red_black (fill k (paint RB_BLACK t)).

Lemma settled_trans s T s1 T1 r : rebal s T s1 T1 -> settled s1 T1 r -> settled s T r.
Proof. intros R (k & t & s' & E & R' & B). exists k, t, s'. split_and!; [done|by eapply rebal_trans|done]. Qed.

Lemma color_cases t n : balanced t n -> color_of t = RB_BLACK \/ color_of t = RB_RED.
Proof. destruct t; simpl; [by left|]. intros [(? & _)|(? & _)]; auto. Qed.

Lemma balanced_paint_red t n : balanced t n -> color_of t = RB_RED -> balanced (paint RB_BLACK t) (S n).
Proof.
  destruct t as [|a c v l r]; simpl; [done|]. intros [(_ & _ & _ & Hl & Hr)|(-> & _)]; [|done].
  right. split; [done|]. by exists n.
Qed.

Lemma root_ok s T : rb_rep s T -> RB_ROOT s = Ok (root_of T, s).
Proof. intros [_ Hr _]. unfold RB_ROOT, get_guard. simpl. by rewrite <- Hr. Qed.

(** A red far child: done. *)
Lemma finish_far s f k t n xa xv xn xf :
  rb_rep s (fill (f :: k) t) -> fsib f = side_node (fb f) xa RB_BLACK xv xn xf ->
  color_of xf = RB_RED -> balanced t n -> balanced xn n -> balanced xf n ->
  ctx_ok (f :: k) (S n) RB_BLACK ->
  settled s (fill (f :: k) t)
    ((c ← RB_COLOR (fa f); _ ← set_COLOR xa c; _ ← set_COLOR (fa f) RB_BLACK;
      tf ← child (negb (fb f)) xa;
      _ ← (if negb (tf =? NULL) then set_COLOR tf RB_BLACK else mret tt);
      _ ← rotate (fb f) (fa f); RB_ROOT) s).
Proof.
  intros HR Hs Hc Bt Bn Bf Hk.
  assert (Hxf : xf <> Leaf) by (by intros ->).
  assert (Hfc : is_u 64 (fc f)) by (simpl in Hk; destruct Hk as (_ & [(-> & _)|(-> & _)]); done).
  destruct (far_red_ok s f k t xa xv xn xf HR Hs Hxf Hfc) as (s1 & E1 & R1).
  set (T := fill k _) in R1. exists [], T, s1. split_and!.
  - pose proof (root_ok _ _ (rebal_rep _ _ _ _ R1)) as Er.
    repeat (apply bind_Ok_inv in E1 as (? & ? & F & E1); run F; clear F). run E1. exact Er.
  - exact R1.
  - assert (Hp : balanced (paint RB_BLACK xf) (S n)) by (by apply balanced_paint_red).
    simpl in Hk. destruct Hk as (_ & Hk).
    enough (red_black T) as (_ & h & Hh) by (by eapply paint_black_ok).
    assert (Hin : balanced (side_node (fb f) (fa f) RB_BLACK (fv f) t xn) (S n))
      by (apply balanced_side; right; split; [done|by exists n]).
    destruct Hk as [(Hf & _ & _ & Hk)|(Hf & Hk)]; (eapply ctx_ok_fill; [|by rewrite color_side, Hf]);
      apply balanced_side; [left|right].
    + split_and!; [done|by rewrite color_side|by apply color_paint|done|done].
    + split; [done|]. by exists (S n).
Qed.

(** A far child that is black leaves a red near one. *)
Lemma insert_finish_ok s f k t n xa xv xn xf :
  rb_rep s (fill (f :: k) t) -> fsib f = side_node (fb f) xa RB_BLACK xv xn xf ->
  color_of xn = RB_RED \/ color_of xf = RB_RED -> balanced t n -> balanced xn n -> balanced xf n ->
  ctx_ok (f :: k) (S n) RB_BLACK ->
  settled s (fill (f :: k) t) (finish (fb f) (fa f) xa s).
Proof.
  intros HR Hs Hc Bt Bn Bf Hk. pose proof HR as HR0. rewrite fill_flip, Hs in HR0.
  destruct (focus_reads _ s _ _ _ _ _ _ HR0) as (_ & _ & Ef & _ & _).
  assert (Efb : is_black (root_of xf) s = Ok (color_of xf =? RB_BLACK, s)).
  { apply (is_black_ok s (mk_frame (negb (fb f)) xa RB_BLACK xv xn :: flip f t :: k)).
    cbn [fill]. unfold plug at 2. cbn. by rewrite side_node_negb. }
  unfold finish. run Ef. run Efb. destruct (color_cases _ _ Bf) as [Cf|Cf]; rewrite Cf.
  - destruct Hc as [Hc|Hc]; [|by rewrite Hc in Cf]. change (RB_BLACK =? RB_BLACK) with true. cbv iota.
    assert (Esn : exists na nv nn nf, xn = side_node (fb f) na RB_RED nv nn nf).
    { destruct xn as [|na c nv l r]; [done|]. simpl in Hc. subst c. rewrite (node_side (fb f)). eauto. }
    destruct Esn as (na & nv & nn & nf & ->). apply balanced_side in Bn as [(_ & C1 & C2 & B1 & B2)|(? & _)]; [|done].
    destruct (near_red_ok s f k t xa xv na nv nn nf xf HR Hs) as (s1 & E1 & R1). run E1.
    eapply settled_trans; [exact R1|].
    apply (finish_far s1 _ k t n na nv nn (side_node (fb f) xa RB_RED xv nf xf) (rebal_rep _ _ _ _ R1) eq_refl).
    + apply color_side.
    + exact Bt.
    + exact B1.
    + apply balanced_side. left. by split_and!.
    + simpl in Hk |- *. destruct Hk as (Bs & Hk). split.
      * apply balanced_side. right. split; [done|]. exists n. split_and!; try done.
        apply balanced_side. left. by split_and!.
      * rewrite color_side. destruct Hk as [(? & ? & _ & ?)|?]; [left; by split_and!|by right].
  - change (RB_RED =? RB_BLACK) with false. cbv iota.
    run (eq_refl : (mret xa : M st Z) s = Ok (xa, s)). by eapply finish_far.
Qed.

Lemma black_sibling_ok fuel s f k t n :
  rb_rep s (fill (f :: k) t) -> balanced t n -> color_of t = RB_BLACK ->
  color_of (fsib f) = RB_BLACK -> ctx_ok (f :: k) (S n) RB_BLACK ->
  (forall t1 n1 s1, root_of t1 = fa f -> color_of t1 = fc f -> rb_rep s1 (fill k t1) -> due t1 n1 ->
     ctx_ok k (S n1) RB_BLACK ->
     settled s1 (fill k t1) (remove_color_loop fuel (top_addr k) (fa f) s1)) ->
  settled s (fill (f :: k) t) (black_sibling (fb f) fuel (fa f) (root_of (fsib f)) s).
Proof.
  intros HR Bt Ct Cs Hk IH. pose proof Hk as (Bs & Hk').
  assert (Es : exists xa xv xn xf, fsib f = side_node (fb f) xa RB_BLACK xv xn xf).
  { destruct (fsib f) as [|xa c xv l r] eqn:E; [done|]. simpl in Cs. subst c. rewrite (node_side (fb f)). eauto. }
  destruct Es as (xa & xv & xn & xf & Es). rewrite Es, root_of_side.
  rewrite Es in Bs. apply balanced_side in Bs as [(? & _)|(_ & h & [= <-] & Bn & Bf)]; [done|].
  pose proof HR as HR0. rewrite fill_flip, Es in HR0.
  unfold black_sibling. run (both_black_ok _ _ _ _ _ _ _ _ HR0).
  destruct ((color_of xn =? RB_BLACK) && (color_of xf =? RB_BLACK)) eqn:Eb.
  - apply andb_prop in Eb as [Cn%Z.eqb_eq Cf%Z.eqb_eq].
    assert (Hne : fsib f <> Leaf) by (rewrite Es; by destruct (fb f)).
    destruct (set_sibling_color s f k t RB_RED HR Hne ltac:(done)) as (s1 & E1 & R1).
    rewrite Es, root_of_side in E1. rewrite Es, paint_side in R1. run E1.
    pose proof (rebal_rep _ _ _ _ R1) as HR1.
    destruct (focus_reads _ _ _ _ _ _ _ _ HR1) as (Ep & _). run Ep.
    eapply settled_trans; [exact R1|].
    assert (Bx : balanced (side_node (fb f) xa RB_RED xv xn xf) n)
      by (apply balanced_side; left; by split_and!).
    destruct Hk' as [(Hf & _ & _ & Hk')|(Hf & Hk')].
    + apply (IH (plug (with_sib f (side_node (fb f) xa RB_RED xv xn xf)) t) n s1); [| |exact HR1| |].
      * apply root_of_side.
      * apply color_side.
      * right. unfold plug. cbn. rewrite color_side, paint_side. split; [done|].
        apply balanced_side. right. split; [done|]. by exists n.
      * clear -Hk'. destruct k as [|g k]; simpl in *; [done|].
        destruct Hk' as (? & [(? & ? & _)|?]); [done|]. split; [done|by right].
    + apply (IH (plug (with_sib f (side_node (fb f) xa RB_RED xv xn xf)) t) (S n) s1); [| |exact HR1| |done].
      * apply root_of_side.
      * apply color_side.
      * left. unfold plug. cbn. rewrite color_side. split; [done|].
        apply balanced_side. right. split; [done|]. by exists n.
  - eapply insert_finish_ok; try done. apply andb_false_iff in Eb as [Eb|Eb]; apply Z.eqb_neq in Eb.
    + left. by destruct (color_cases _ _ Bn).
    + right. by destruct (color_cases _ _ Bf).
Qed.

(** Below a frame the focus is not the root. *)
Lemma fill_neq_Leaf f k t : fill (f :: k) t <> Leaf.
Proof.
  intros E. pose proof (length_fill (f :: k) t) as H. rewrite E in H. simpl in H. lia.
Qed.

Lemma root_in_context f k t : root_of (fill (f :: k) t) ∈ ctx_addrs (f :: k).
Proof.
  revert f t. induction k as [|g k IH]; intros f t.
  - simpl. unfold plug. rewrite root_of_side. by left.
  - change (fill (f :: g :: k) t) with (fill (g :: k) (plug f t)). specialize (IH g (plug f t)).
    cbn [ctx_addrs] in *. apply elem_of_cons. right. apply elem_of_app. by right.
Qed.

Lemma focus_not_root s f k t : rb_rep s (fill (f :: k) t) -> root_of t <> root_of (fill (f :: k) t).
Proof.
  intros HR E. pose proof (root_nonnull s [] _ HR (fill_neq_Leaf f k t)) as Hn.
  destruct HR as [_ _ HN]. apply nodup_fill in HN as (_ & _ & HN).
  apply (HN (root_of t)); [apply root_elem; intros ->; by rewrite <- E in Hn|].
  rewrite E. apply root_in_context.
Qed.

Lemma due_black t n : due t n -> color_of t = RB_BLACK -> balanced t n.
Proof. intros [[_ ?]|[E _]] ?; [done|by rewrite E in *]. Qed.

Lemma remove_loop_ok fuel k t n s :
  rb_rep s (fill k t) -> due t n -> ctx_ok k (S n) RB_BLACK ->
  color_of t = RB_RED /\ (0 < fuel)%nat \/ (length k < fuel)%nat ->
  settled s (fill k t) (remove_color_loop fuel (top_addr k) (root_of t) s).
Proof.
  revert k t n s. induction fuel as [|fuel IH]; intros k t n s HR Hd Hk Hf; [lia|].
  pose proof (is_black_ok s k t HR) as Eb. pose proof (root_ok s _ HR) as Er.
  assert (Hstop : (color_of t =? RB_BLACK) && negb (root_of t =? root_of (fill k t)) = false ->
    settled s (fill k t) (remove_color_loop (S fuel) (top_addr k) (root_of t) s)).
  { intros Hs. exists k, t, s. split_and!; [|by apply rebal_refl|].
    - cbn [remove_color_loop]. run Eb. run Er. by rewrite Hs.
    - destruct k as [|f k]; simpl.
      + destruct Hd as [[_ H]|[_ H]]; [by eapply paint_black_ok|]. split; [by destruct t|by eexists].
      + pose proof (focus_not_root s f k t HR) as Hr. apply Z.eqb_neq in Hr. rewrite Hr, andb_true_r in Hs.
        destruct Hd as [[Hc _]|[Hc H]]; [by rewrite Hc in Hs|].
        eapply (ctx_ok_fill (f :: k)); [exact H|]. rewrite color_paint; [done|]. by intros ->. }
  destruct k as [|f k].
  { apply Hstop. simpl. by rewrite Z.eqb_refl, andb_false_r. }
  destruct (color_of t =? RB_BLACK) eqn:Hc; [|by apply Hstop]. apply Z.eqb_eq in Hc. clear Hstop.
  pose proof (due_black _ _ Hd Hc) as Bt. destruct Hf as [[Hr _]|Hf]; [by rewrite Hr in Hc|].
  pose proof Hk as (Bs & Hk'). assert (Hne : fsib f <> Leaf) by (by intros E; rewrite E in Bs).
  pose proof (root_nonnull s (flip f t :: k) (fsib f)) as Hsn. rewrite <- fill_flip in Hsn.
  destruct (hole_of_top true s f k t HR (or_intror (Hsn HR Hne))) as (pl & Epl & Hpl).
  assert (Hpl' : (pl =? root_of t) = fb f) by (rewrite Hpl; by destruct (fb f)).
  cbn [top_addr]. rewrite (remove_loop_turn _ _ _ _ _ _ _ Eb Er (focus_not_root s f k t HR) Epl Hpl').
  unfold remove_turn. run (far_of_top s f k t HR).
  assert (Ec : RB_COLOR (root_of (fsib f)) s = Ok (color_of (fsib f), s)).
  { rewrite fill_flip in HR. destruct (fsib f) as [|xa xc xv l r] eqn:E; [done|].
    by destruct (focus_reads true s _ _ _ _ _ _ HR) as (_ & _ & _ & ? & _). }
  run Ec. destruct (color_cases _ _ Bs) as [Cs|Cs]; rewrite Cs.
  - change (RB_BLACK =? RB_RED) with false. cbv iota.
    run (eq_refl : (mret (root_of (fsib f)) : M st Z) s = Ok (root_of (fsib f), s)).
    apply (black_sibling_ok fuel s f k t n HR Bt Hc Cs Hk).
    intros t1 n1 s1 Hrt Hct HR1 Hd1 Hk1. rewrite <- Hrt. apply (IH k t1 n1 s1 HR1 Hd1 Hk1).
    right. simpl in Hf. lia.
  - change (RB_RED =? RB_RED) with true. cbv iota.
    destruct Hk' as [(_ & _ & ? & _)|(Hfc & Hk')]; [by rewrite Cs in *|].
    assert (Es : exists xa xv xn xf, fsib f = side_node (fb f) xa RB_RED xv xn xf).
    { destruct (fsib f) as [|xa c xv l r] eqn:E; [done|]. simpl in Cs. subst c. rewrite (node_side (fb f)). eauto. }
    destruct Es as (xa & xv & xn & xf & Es). rewrite Es in Bs.
    apply balanced_side in Bs as [(_ & C1 & C2 & B1 & B2)|(? & _)]; [|done].
    destruct (red_sibling_ok s f k t xa xv xn xf HR Es) as (s1 & E1 & R1).
    pose proof (rebal_rep _ _ _ _ R1) as HR1. rewrite Es, root_of_side.
    pose proof (far_of_top _ _ _ _ HR1) as Ef. cbn [fb fa fsib] in Ef.
    assert (Ein : (_ ← set_COLOR xa RB_BLACK; _ ← set_COLOR (fa f) RB_RED; _ ← rotate (fb f) (fa f);
      child (negb (fb f)) (fa f)) s = Ok (root_of xn, s1)).
    { do 2 (apply bind_Ok_inv in E1 as (? & ? & F & E1); run F; clear F). run E1. exact Ef. }
    run Ein.
    eapply settled_trans; [exact R1|].
    apply (black_sibling_ok fuel s1 _ _ t n HR1 Bt Hc C1).
    + simpl. split; [done|]. left. split_and!; try done. by right.
    + intros t1 n1 s2 Hrt Hct HR2 Hd1 Hk1. cbn [fa] in Hrt |- *. rewrite <- Hrt.
      apply (IH _ t1 n1 s2 HR2 Hd1 Hk1). left. split; [exact Hct|]. simpl in Hf. lia.
Qed.

Lemma remove_color_ok s k t n :
  rb_rep s (fill k t) -> due t n -> ctx_ok k (S n) RB_BLACK ->
  exists s' T', _remove_color (top_addr k) (root_of t) s = Ok (tt, s') /\ rebal s (fill k t) s' T' /\ red_black T'.
Proof.
  intros HR Hd Hk.
  destruct (remove_loop_ok _ k t n s HR Hd Hk (or_intror (context_lt_fuel _ _ _ HR))) as (k' & t' & s1 & E1 & R1 & B).
  assert (E0 : _remove_color (top_addr k) (root_of t) s =
    (if negb (root_of t' =? NULL) then set_COLOR (root_of t') RB_BLACK else mret tt) s1).
  { unfold _remove_color. run (eq_refl : get_st s = Ok (s, s)). by run E1. }
  destruct t' as [|a c v l r].
  - exists s1, (fill k' Leaf). split_and!; [by rewrite E0|done|done].
  - pose proof (rebal_rep _ _ _ _ R1) as HR1.
    destruct (set_root_color s1 k' _ RB_BLACK HR1 ltac:(done) ltac:(done)) as (s2 & E2 & R2).
    exists s2, (fill k' (paint RB_BLACK (Node a c v l r))). split_and!; [|by eapply rebal_trans|done].
    rewrite E0, (proj2 (Z.eqb_neq _ _) (root_nonnull _ _ _ HR1 ltac:(done))). exact E2.
Qed.

(** A node with nothing on side [b] is replaced by its other child. *)
Lemma splice_ok b s k a c v t :
  rb_rep s (fill k (side_node b a c v Leaf t)) ->
  exists s', splice_out a (root_of t) s = Ok ((top_addr k, c), s') /\ rb_rep s' (fill k t) /\
    keeps (NULL :: addrs (fill k t)) (omem s) (omem s') /\
    guard s' = with_root (guard s) (rb_root (guard s')) /\ kerrno s' = kerrno s.
Proof.
  intros HR. destruct (focus_reads b s k a c v Leaf t HR) as (Ep & _ & _ & Ec & Hn).
  apply rep_fill in HR as (Hk & Ht & Hr & N1 & N2 & N3). rewrite root_of_side in Hk.
  apply tree_at_side in Ht as (Hw & _ & _ & Tt). destruct (side_words_u _ _ _ _ _ _ _ _ Hw) as (Up & _ & Ut).
  setoid_rewrite addrs_side in N3. apply nodup_side in N1 as (_ & A2 & _ & _ & N1).
  assert (Ha : a ∉ ctx_addrs k) by (apply N3; by left).
  destruct (set_parent_root (omem s) a t (top_addr k) Tt N1 Up) as (m1 & E1 & T1 & K1).
  assert (Hk1 : ctx_at m1 k a).
  { eapply ctx_at_keeps; [exact K1| |exact Hk]. intros y Hy Hy'. apply (N3 y); [by right; right|done]. }
  destruct s as [g m e]. simpl in *.
  destruct (rehang g m1 e (top_addr k) a (root_of t) (hook k a) (ctx_hangs _ _ _ Hk1) Ut) as (m2 & E2 & R2 & K2).
  exists (mk_st (if top_addr k =? NULL then with_root g (root_of t) else g) m2 e). split_and!.
  - unfold splice_out. run Ep. run Ec. erewrite bind_Ok by (apply E1; reflexivity). cbn [with_mem st_mem guard kerrno].
    run E2. done.
  - apply rep_fill. simpl. split_and!.
    + eapply (ctx_rehung m1 m2 k a (root_of t) []); [exact Hk1|exact R2|exact K2|done| |done|done].
      intros y _. apply not_elem_of_nil.
    + eapply tree_at_keeps; [exact K2| |exact T1]. intros y Hy ->%list_elem_of_singleton.
      destruct k as [|f k]; simpl in Hy; [by apply (null_not_in _ _ _ T1)|].
      apply (N3 (fa f)); [by right; right|by left].
    + destruct k as [|f k]; [done|]. simpl. rewrite (proj2 (Z.eqb_neq _ _)) by (by destruct Hk as (_ & ? & _)).
      rewrite Hr. cbn [fill]. apply root_fill. unfold plug. by rewrite !root_of_side.
    + done.
    + done.
    + intros y Hy. apply N3. by right; right.
  - eapply keeps_trans_in; [exact K1|exact K2|]. intros y [Hy|Hy%list_elem_of_singleton]; [|subst y]; apply elem_of_cons.
    + right. apply addrs_fill. by left.
    + destruct k; [by left|right]. apply addrs_fill. right. by left.
  - cbn [guard]. destruct (top_addr k =? NULL); by destruct g.
  - done.
Qed.

Lemma ctx_ok_black k n c : ctx_ok k n c -> ctx_ok k n RB_BLACK.
Proof. destruct k as [|f k]; simpl; [done|]. intros (? & [(? & _ & ? & ?)|?]); split; try done; [left|right]; done. Qed.

(** Without an inner node on one side the other side has at most a red leaf. *)
Lemma one_child_due b k a c v t : red_black (fill k (side_node b a c v Leaf t)) ->
  (c = RB_RED /\ red_black (fill k t)) \/ (c = RB_BLACK /\ due t 0 /\ ctx_ok k 1 RB_BLACK).
Proof.
  intros (n & Hb & Hk)%red_black_fill. rewrite color_side in Hk. apply balanced_side in Hb.
  destruct Hb as [(-> & _ & Hc & Hn & Ht)|(-> & h & -> & Hh & Ht)].
  - left. split; [done|]. eapply ctx_ok_fill; [exact Ht|]. rewrite Hc. by eapply ctx_ok_black.
  - right. simpl in Hh. subst h. split_and!; [done| |done].
    destruct (color_cases _ _ Ht) as [Hc|Hc]; [by left|right]. split; [done|]. by apply balanced_paint_red.
Qed.

(** A node occurs once. *)
Lemma nodup_split {A B} (p1 p2 l1 l2 : list (A * B)) a v : NoDup (l1 ++ (a, v) :: l2).*1 ->
  p1 ++ (a, v) :: p2 = l1 ++ (a, v) :: l2 -> p1 = l1 /\ p2 = l2.
Proof.
  revert l1. induction p1 as [|x p1 IH]; intros [|y l1] HN E; [by simplify_eq/=|..];
    simpl in E, HN; rewrite ?fmap_app in HN; simpl in HN; apply NoDup_cons in HN as [HN1 HN2].
  - injection E as <- E. set_solver.
  - injection E as -> <-. rewrite fmap_app in HN1. set_solver.
  - injection E as -> E. destruct (IH l1) as [-> ->]; [by rewrite fmap_app|done|done].
Qed.

Lemma inorder_unlinked b k a c v t l1 l2 :
  let T := fill k (side_node b a c v Leaf t) in
  NoDup (addrs T) -> inorder T = l1 ++ (a, v) :: l2 -> inorder (fill k t) = l1 ++ l2.
Proof.
  intros T HN E. rewrite E in HN. destruct (inorder_fill k) as (k1 & k2 & Ek). unfold T in E.
  rewrite Ek in E |- *.
  assert (Es : exists t1 t2, inorder (side_node b a c v Leaf t) = t1 ++ (a, v) :: t2 /\ inorder t = t1 ++ t2).
  { destruct b; simpl; [by exists [], (inorder t)|]. exists (inorder t), []. by rewrite app_nil_r. }
  destruct Es as (t1 & t2 & E2 & E3). rewrite E2, <- app_assoc in E. simpl in E. rewrite E3.
  rewrite app_assoc in E. apply (nodup_split _ _ _ _ _ _ HN) in E as [<- <-].
  by rewrite <- !app_assoc.
Qed.

(** C26. Removing a node with at most one child from a red-black tree, wherever
    it is: [kylin_rb_unlink_raw] returns it and leaves a red-black tree of the
    other nodes in their order; the node's own object and all others keep
    their contents. *)
Theorem rb_unlink_keeps_red_black b s k a c v t :
  let T := fill k (side_node b a c v Leaf t) in
  rb_rep s T -> red_black T ->
  exists s' T', kylin_rb_unlink_raw a s = Ok (a, s') /\ rb_rep s' T' /\ red_black T' /\
    (forall l1 l2, inorder T = l1 ++ (a, v) :: l2 -> inorder T' = l1 ++ l2) /\
    keeps (NULL :: addrs (fill k t)) (omem s) (omem s') /\ guard s' = with_root (guard s) (root_of T') /\
    kerrno s' = kerrno s.
Proof.
  intros T HR HB. destruct (focus_reads b s k a c v Leaf t HR) as (_ & En & Ef & _ & _).
  destruct (splice_ok b s k a c v t HR) as (s1 & E1 & HR1 & K1 & G1 & Ek1).
  assert (Hl : kylin_rb_unlink_raw a s =
    (_ ← (if c =? RB_BLACK then _remove_color (top_addr k) (root_of t) else mret tt); mret a) s1).
  { unfold kylin_rb_unlink_raw. destruct b; simpl in En, Ef.
    - run En. run Ef. change (NULL =? NULL) with true. cbv iota.
      erewrite bind_Ok by (run E1; reflexivity). done.
    - run Ef. run En. destruct (root_of t =? NULL) eqn:Et.
      + apply Z.eqb_eq in Et. rewrite Et in *. change (NULL =? NULL) with true. cbv iota.
        erewrite bind_Ok by (run E1; reflexivity). done.
      + change (NULL =? NULL) with true. cbv iota. erewrite bind_Ok by (run E1; reflexivity). done. }
  pose proof (fun l1 l2 => inorder_unlinked b k a c v t l1 l2 (rep_nodup _ _ HR)) as Hio.
  destruct (one_child_due b k a c v t HB) as [[-> B]|(-> & Hd & Hk)].
  - exists s1, (fill k t). split_and!; try done. rewrite G1 at 1. f_equal. apply HR1.
  - destruct (remove_color_ok s1 k t 0 HR1 Hd Hk) as (s2 & T2 & E2 & [R2 I2 K2 G2 Ek2] & B2).
    exists s2, T2. split_and!; try done.
    + rewrite Hl. change (RB_BLACK =? RB_BLACK) with true. cbv iota. by run E2.
    + intros l1 l2 E. rewrite I2. by apply Hio.
    + eapply keeps_trans_in; [exact K1|exact K2|tauto].
    + rewrite G2, G1. simpl. unfold with_root. simpl. f_equal. apply R2.
    + by rewrite Ek2.
Qed.

(** Three black nodes: removing one reddens its sibling. *)
Definition black_st : st :=
  mk_st (mk_krb ex_opts 0 0 0 80)
    (mk_mem {[32 := enc_words [80; 0; 0; 0; 10]; 80 := enc_words [0; 32; 128; 0; 20];
              128 := enc_words [80; 0; 0; 0; 30]]} 200 []) None.

Lemma rb_unlink_keeps_red_black_witness :
  exists s' T', kylin_rb_unlink_raw 32 black_st = Ok (32, s') /\ rb_rep s' T' /\ red_black T' /\
    inorder T' = [(80, 20); (128, 30)].
Proof.
  destruct (rb_unlink_keeps_red_black true black_st
    [mk_frame true 80 RB_BLACK 20 (Node 128 RB_BLACK 30 Leaf Leaf)] 32 RB_BLACK 10 Leaf)
    as (s' & T' & E & R & B & I & _).
  - split; [|done|apply (bool_decide_unpack _); by vm_compute].
    simpl. split_and!; try done; repeat constructor; done.
  - split; [done|]. exists 2%nat. right. split; [done|]. exists 1%nat.
    split_and!; [done|right|right]; (split; [done|]); by exists O.
  - exists s', T'. split_and!; try done. by apply (I []).
Defined.
