(* ===== verification/RbHeader.v ===== *)
(** * The header of a red-black tree

    No operation of [kylin_rb.c] changes anything in the header of a tree but
    its root: the count, the minimum and the maximum stay what they were at the
    creation.  The timers and the threads look for the minimum.  Then what an
    insertion leaves of a tree of objects whose root has no children, which is
    all that insertions make. *)

From S2P Require Import Prelude Errors Bytes Mem MathVal Rb.

Definition header (g : krb_t) : krb_opts_t * Z * Z * Z := (opts g, rb_count g, rb_min g, rb_max g).

Definition header_kept {A} (f : M Rb.st A) : Prop :=
  forall s r s', f s = Ok (r, s') -> header (guard s') = header (guard s).

Lemma header_ret {A} (x : A) : header_kept (mret x).
Proof. by intros s r s' [= _ <-]. Qed.

Lemma header_bind {A B} (f : M Rb.st A) (g : A -> M Rb.st B) :
  header_kept f -> (forall x, header_kept (g x)) -> header_kept (f ≫= g).
Proof.
  intros Hf Hg s r s' E. apply bind_Ok_inv in E as (x & s1 & E1 & E2).
  by rewrite (Hg _ _ _ _ E2), (Hf _ _ _ E1).
Qed.

Lemma header_on_mem {A} (f : M mem A) : header_kept (on_mem f).
Proof. intros s r s' E. unfold on_mem in E. destruct (f _) as [[x m]| |]; by simplify_eq/=. Qed.

Lemma header_out_of_fuel {A} : header_kept (@out_of_fuel Rb.st A).
Proof. by intros s r s' E. Qed.

Lemma header_get_st : header_kept get_st.
Proof. by intros s r s' [= _ <-]. Qed.

Lemma header_get_guard : header_kept get_guard.
Proof. by intros s r s' [= _ <-]. Qed.

Lemma header_set_ROOT x : header_kept (set_ROOT x).
Proof. by intros s r s' [= _ <-]. Qed.

Lemma header_set_kerrno e : header_kept (set_kerrno e).
Proof. by intros s r s' [= _ <-]. Qed.

Create HintDb header.
#[export] Hint Resolve header_ret header_on_mem header_out_of_fuel header_get_st header_get_guard header_set_ROOT
  header_set_kerrno : header.
#[export] Hint Extern 1 (header_kept (RB_PARENT _)) => apply header_on_mem : header.
#[export] Hint Extern 1 (header_kept (RB_LEFT _)) => apply header_on_mem : header.
#[export] Hint Extern 1 (header_kept (RB_RIGHT _)) => apply header_on_mem : header.
#[export] Hint Extern 1 (header_kept (RB_COLOR _)) => apply header_on_mem : header.
#[export] Hint Extern 1 (header_kept (RB_VAL _)) => apply header_on_mem : header.
#[export] Hint Extern 1 (header_kept (set_PARENT _ _)) => apply header_on_mem : header.
#[export] Hint Extern 1 (header_kept (set_LEFT _ _)) => apply header_on_mem : header.
#[export] Hint Extern 1 (header_kept (set_RIGHT _ _)) => apply header_on_mem : header.
#[export] Hint Extern 1 (header_kept (set_COLOR _ _)) => apply header_on_mem : header.
#[export] Hint Extern 1 (header_kept (set_VAL _ _)) => apply header_on_mem : header.

(** A program of field accesses, of calls in the database and of branches. *)
Ltac header_kept :=
  cbv zeta;
  repeat first
    [ solve [auto with header]
    | apply header_bind; [|intros ?]
    | match goal with |- header_kept (if ?b then _ else _) => destruct b end
    | match goal with |- header_kept (match ?x with _ => _ end) => destruct x end ].

Lemma header_RB_ROOT : header_kept RB_ROOT.
Proof. unfold RB_ROOT. header_kept. Qed.
Lemma header_get_ptr n : header_kept (get_ptr n).
Proof. unfold get_ptr. header_kept. Qed.
Lemma header_replace_child p n x : header_kept (replace_child p n x).
Proof. unfold replace_child. header_kept. Qed.
#[export] Hint Resolve header_RB_ROOT header_get_ptr header_replace_child : header.

Lemma header_rotate_left n : header_kept (_rotate_left n).
Proof. unfold _rotate_left. header_kept. Qed.
Lemma header_rotate_right n : header_kept (_rotate_right n).
Proof. unfold _rotate_right. header_kept. Qed.
Lemma header_is_red n : header_kept (is_red n).
Proof. unfold is_red. header_kept. Qed.
Lemma header_is_black n : header_kept (is_black n).
Proof. unfold is_black. header_kept. Qed.
Lemma header_recolor a b c : header_kept (recolor a b c).
Proof. unfold recolor. header_kept. Qed.
#[export] Hint Resolve header_rotate_left header_rotate_right header_is_red header_is_black header_recolor : header.

Lemma header_both_black n : header_kept (both_black n).
Proof. unfold both_black. header_kept. Qed.
#[export] Hint Resolve header_both_black : header.

Lemma header_insert_color_loop fuel n : header_kept (insert_color_loop fuel n).
Proof. revert n. induction fuel as [|fuel IH]; intros n; simpl; header_kept. Qed.
Lemma header_remove_color_loop fuel p n : header_kept (remove_color_loop fuel p n).
Proof. revert p n. induction fuel as [|fuel IH]; intros p n; simpl; header_kept. Qed.
#[export] Hint Resolve header_insert_color_loop header_remove_color_loop : header.

Lemma header_insert_color n : header_kept (_insert_color n).
Proof. unfold _insert_color. header_kept. Qed.
Lemma header_remove_color p n : header_kept (_remove_color p n).
Proof. unfold _remove_color. header_kept. Qed.
Lemma header_descend fuel n t p r : header_kept (descend fuel n t p r).
Proof. revert t p r. induction fuel as [|fuel IH]; intros t p r; simpl; header_kept. Qed.
Lemma header_find_loop fuel c t : header_kept (find_loop fuel c t).
Proof. revert t. induction fuel as [|fuel IH]; intros t; simpl; header_kept. Qed.
Lemma header_leftmost fuel t : header_kept (leftmost fuel t).
Proof. revert t. induction fuel as [|fuel IH]; intros t; simpl; header_kept. Qed.
Lemma header_splice_out n c : header_kept (splice_out n c).
Proof. unfold splice_out. header_kept. Qed.
#[export] Hint Resolve header_insert_color header_remove_color header_descend header_find_loop header_leftmost
  header_splice_out : header.

Lemma header_find_raw c : header_kept (kylin_rb_find_raw c).
Proof. unfold kylin_rb_find_raw. header_kept. Qed.
Lemma header_link_node n t p r : header_kept (link_node n t p r).
Proof. unfold link_node. header_kept. Qed.
Lemma header_splice_successor n : header_kept (splice_successor n).
Proof. unfold splice_successor. header_kept. Qed.
Lemma header_val_destroy nested n : header_kept (val_destroy nested n).
Proof. unfold val_destroy. header_kept. Qed.
#[export] Hint Resolve header_find_raw header_link_node header_splice_successor header_val_destroy : header.

Lemma header_unlink_raw n : header_kept (kylin_rb_unlink_raw n).
Proof. unfold kylin_rb_unlink_raw. header_kept. Qed.
#[export] Hint Resolve header_unlink_raw : header.

Lemma header_insert nested e : header_kept (kylin_rb_insert nested e).
Proof. unfold kylin_rb_insert. header_kept. Qed.
Lemma header_remove nested c : header_kept (kylin_rb_remove nested c).
Proof. unfold kylin_rb_remove, kylin_rb_remove_raw. header_kept. Qed.
Lemma header_unlink c : header_kept (kylin_rb_unlink c).
Proof. unfold kylin_rb_unlink. header_kept. Qed.
Lemma header_climb side fuel t : (forall n, header_kept (side n)) -> header_kept (climb side fuel t).
Proof. intros Hs. revert t. induction fuel as [|fuel IH]; intros t; simpl; header_kept. Qed.
Lemma header_next_raw n : header_kept (kylin_rb_next_raw n).
Proof. unfold kylin_rb_next_raw. header_kept. apply header_climb. auto with header. Qed.
Lemma header_next c : header_kept (kylin_rb_next c).
Proof.
  assert (H : forall n, header_kept (kylin_rb_next_raw n)) by apply header_next_raw.
  unfold kylin_rb_next, neighbour. header_kept.
Qed.
Lemma header_min : header_kept kylin_rb_min.
Proof. unfold kylin_rb_min. header_kept. Qed.
Lemma header_find c : header_kept (kylin_rb_find c).
Proof. unfold kylin_rb_find. header_kept. Qed.
#[export] Hint Resolve header_insert header_remove header_unlink header_next header_min header_find : header.

(** ** Insertion into a tree of one node

    Every tree the program makes has at most one node that its root reaches
    ([Rb.rb_inserts_keep_last]). *)

(** Two readings of an object agree. *)
Lemma words_at_lookup m a ws ws' i w w' : words_at m a ws -> words_at m a ws' -> ws !! i = Some w -> ws' !! i = Some w' ->
  w = w'.
Proof.
  intros H H' Hi Hi'. pose proof (read_word_ok _ _ _ _ _ H Hi) as E. rewrite (read_word_ok _ _ _ _ _ H' Hi') in E.
  by injection E.
Qed.

(** The values of the nodes that a node reaches. *)
Inductive in_tree (m : mem) (n v : Z) : Prop :=
| in_here p l r c : n <> NULL -> words_at m n [p; l; r; c; v] -> in_tree m n v
| in_left p l r c w : n <> NULL -> words_at m n [p; l; r; c; w] -> in_tree m l v -> in_tree m n v
| in_right p l r c w : n <> NULL -> words_at m n [p; l; r; c; w] -> in_tree m r v -> in_tree m n v.

Lemma in_tree_null m v : ~ in_tree m NULL v.
Proof. by intros [? ? ? ? H| ? ? ? ? ? H|? ? ? ? ? H]. Qed.

Lemma in_tree_one m n p c w v : words_at m n [p; NULL; NULL; c; w] -> in_tree m n v -> v = w.
Proof.
  intros H [p' l r c' _ H'|p' l r c' w' _ H' Hl|p' l r c' w' _ H' Hl].
  - by apply (words_at_lookup m n _ _ VAL _ _ H' H).
  - rewrite (words_at_lookup m n _ _ LEFT l NULL H' H) in Hl by done. by apply in_tree_null in Hl.
  - rewrite (words_at_lookup m n _ _ RIGHT r NULL H' H) in Hl by done. by apply in_tree_null in Hl.
Qed.

(** The root is black and has no children, or there is none. *)
Definition one_node (s : Rb.st) : Prop := rb_root (guard s) = NULL \/ exists v, lone s (rb_root (guard s)) v.

Lemma lone_in_tree s r w v : lone s r w -> in_tree (omem s) r v <-> v = w.
Proof.
  intros (_ & [Hr _] & p & Hw). split; [by apply (in_tree_one _ _ _ _ _ _ Hw)|]. intros ->. by eapply in_here.
Qed.

Lemma one_node_same g m e m' e' : one_node (Rb.mk_st g m e) -> same_at m m' (rb_root g) ->
  one_node (Rb.mk_st g m' e') /\ forall v, in_tree m' (rb_root g) v <-> in_tree m (rb_root g) v.
Proof.
  intros [Hr|(w & HL)] Hs.
  - split; [by left|]. intros v. cbn [guard] in Hr. rewrite Hr. split; intros H; by apply in_tree_null in H.
  - assert (HL' : lone (Rb.mk_st g m' e') (rb_root g) w).
    { destruct HL as (_ & Hr & p & Hw). split; [done|]. split; [done|]. exists p. by eapply words_at_same. }
    split; [right; by exists w|]. intros v. by rewrite (lone_in_tree _ _ _ v HL), (lone_in_tree _ _ _ v HL').
Qed.

(** The descent reads; it ends below the root, or at an equal value. *)
Lemma descend_one fuel node s d s' : one_node s -> descend fuel node (rb_root (guard s)) NULL 0 s = Ok (d, s') ->
  s' = s /\ (d = None /\ rb_root (guard s) <> NULL \/ exists res, d = Some (NULL, rb_root (guard s), res)).
Proof.
  intros Hone E. destruct fuel as [|fuel]; [done|]. cbn [descend] in E.
  destruct Hone as [Hr|(v & _ & [Hr _] & q & Hw)]; [by rewrite Hr in *; injection E as <- <-; split; [|right; exists 0]|].
  rewrite (proj2 (Z.eqb_neq _ _) Hr) in E.
  assert (El : RB_LEFT (rb_root (guard s)) s = Ok (NULL, s)) by (eapply read_field; [exact Hw|done]).
  assert (Er : RB_RIGHT (rb_root (guard s)) s = Ok (NULL, s)) by (eapply read_field; [exact Hw|done]).
  apply bind_Ok_inv in E as (v1 & s1 & E1 & E). apply read_word_same in E1 as ->.
  apply bind_Ok_inv in E as (v2 & s1 & E1 & E). apply read_word_same in E1 as ->.
  apply bind_Ok_inv in E as (s1 & s2 & E1 & E). injection E1 as <- <-.
  destruct (_ <? 0); [rewrite (bind_Ok _ _ _ _ _ El) in E|destruct (0 <? _); [rewrite (bind_Ok _ _ _ _ _ Er) in E|]].
  1,2: destruct fuel; [done|]; injection E as <- <-; split; [done|]; right; by eexists.
  injection E as <- <-. split; [done|]. by left.
Qed.

(** A tree of objects that are kept as pointers, with the default allocators. *)
Record object_tree (o : krb_opts_t) : Prop := {
  ot_type : val_type o = KOBJ_OTHERS;
  ot_val_ctor : val_ctor o = None;
  ot_val_dtor : val_dtor o = None;
  ot_node_ctor : node_ctor o = None;
  ot_node_dtor : node_dtor o = None;
}.

(** Insertion of a pointer into such a tree: no memory for the node; an equal
    value is there already, and the new one is freed; or the node becomes the
    root, above the old one, and the pointer comes back. *)
Inductive inserted (elm : Z) (s : Rb.st) : vptr Z -> Rb.st -> Prop :=
| no_node m : alloc_addr sizeof_node (omem s) = (None, m) ->
    inserted elm s (PObj NULL) (Rb.mk_st (guard s) m (Some KYLIN_ERROR_NOMEM))
| equal_value m : rb_root (guard s) <> NULL -> mem_ok m -> brk (omem s) <= brk m ->
    (forall b, b <> elm -> b <> brk (omem s) -> same_at (omem s) m b) -> blocks m !! elm = None ->
    is_Some (fst (alloc_addr sizeof_node (omem s))) ->
    inserted elm s (PObj NULL) (Rb.mk_st (guard s) m (kerrno s))
| linked node m : fst (alloc_addr sizeof_node (omem s)) = Some node -> mem_ok m -> brk (omem s) <= brk m ->
    words_at m node [rb_root (guard s); NULL; NULL; RB_BLACK; elm] -> (forall b, b <> node -> same_at (omem s) m b) ->
    inserted elm s (PObj elm) (Rb.mk_st (with_root (guard s) node) m (kerrno s)).

Lemma heap_free_gone a m u m' : a <> NULL -> kylin_free a m = Ok (u, m') ->
  blocks m' = delete a (blocks m) /\ brk m' = brk m.
Proof.
  intros Ha. unfold kylin_free. rewrite (proj2 (Z.eqb_neq _ _) Ha). destruct (blocks m !! a); [|done].
  by intros [= _ <-].
Qed.

Lemma on_mem_inv {A} (f : M mem A) (s : Rb.st) x s' : on_mem f s = Ok (x, s') ->
  exists m, f (omem s) = Ok (x, m) /\ s' = Rb.mk_st (guard s) m (kerrno s).
Proof. unfold on_mem. simpl. destruct (f (omem s)) as [[y m]| |]; [|done..]. intros [= -> <-]. eauto. Qed.

(** A new node with the value in it. *)
Lemma new_node m node m1 elm u m2 : mem_ok m -> kylin_malloc sizeof_node m = Ok (node, m1) -> node <> NULL -> is_u 64 elm ->
  write_word node VAL elm m1 = Ok (u, m2) ->
  fst (alloc_addr sizeof_node m) = Some node /\ node = brk m /\ is_u 64 node /\ brk m <= brk m2 /\ mem_ok m2 /\
  words_at m2 node [0; 0; 0; 0; elm] /\ forall b, b <> node -> same_at m m2 b.
Proof.
  intros Hm E Hn Hu Ew. unfold kylin_malloc in E. destruct (alloc_addr sizeof_node m) as [[a|] m0] eqn:Ea; injection E as <- <-; [|done].
  destruct (alloc_addr_some _ _ _ _ Ea Hm) as (-> & Hb & Hr). destruct (alloc_top _ _ _ _ Ea) as (_ & Ht & Ht').
  match type of Ew with write_word _ _ _ ?M = _ =>
    assert (W : words_at M (brk m) [0; 0; 0; 0; 0]) by (split; [simpl; by rewrite lookup_insert_eq|by repeat constructor])
  end.
  rewrite (write_word_ok _ _ _ VAL elm W) in Ew by (by apply Nat.ltb_lt). injection Ew as _ <-. cbn [blocks brk oom].
  split; [done|]. split; [done|]. split; [unfold is_u; lia|]. split; [lia|]. split; [|split].
  - split; [simpl; lia|]. simpl. intros b bs Hbs. apply lookup_insert_Some in Hbs as [[<- _]|[_ Hbs]]; [lia|].
    apply lookup_insert_Some in Hbs as [[<- _]|[_ Hbs]]; [lia|]. rewrite Hb in Hbs. destruct Hm as [_ Hm]. apply Hm in Hbs. lia.
  - split; [simpl; by rewrite lookup_insert_eq|simpl; repeat (apply Forall_cons; split; [done|]); by apply Forall_nil].
  - intros b Hb'. unfold same_at. simpl. by rewrite !lookup_insert_ne, Hb by done.
Qed.

(** The new node is given up: the value and the node are freed. *)
Lemma give_back nested node elm w m e g s' : object_tree (opts g) -> elm <> NULL -> node <> NULL ->
  words_at m node [w; w; w; w; elm] ->
  (_ ← val_destroy nested node; _ ← on_mem (RB_NODE_FREE (opts g) node); mret (PObj NULL : vptr Z)) (Rb.mk_st g m e) = Ok (PObj NULL, s') ->
  exists m', s' = Rb.mk_st g m' e /\ brk m' = brk m /\ blocks m' = delete node (delete elm (blocks m)).
Proof.
  intros [Ht Hc Hd Hnc Hnd] Hn Hnode Hw E.
  apply bind_Ok_inv in E as (u & s1 & E4 & E). apply bind_Ok_inv in E as (u' & s2 & E5 & E). injection E as <-.
  unfold val_destroy in E4. apply bind_Ok_inv in E4 as (g1 & s3 & E6 & E4). injection E6 as <- <-.
  cbn [guard] in E4. rewrite Ht in E4. cbn [int_type] in E4.
  assert (Ev : RB_VAL node (Rb.mk_st g m e) = Ok (elm, Rb.mk_st g m e)) by (eapply read_field; [exact Hw|done]).
  rewrite (bind_Ok _ _ _ _ _ Ev) in E4. apply on_mem_inv in E4 as (m4 & E4 & ->). cbn [guard omem] in E4.
  unfold kmath_val_dtor, RB_VAL_FREE in E4. rewrite Hd in E4. cbn [default] in E4.
  unfold RB_NODE_FREE in E5. rewrite Hnd in E5. apply on_mem_inv in E5 as (m5 & E5 & ->). cbn [guard omem default kerrno] in *.
  exists m5. split; [done|]. destruct (heap_free_gone _ _ _ _ Hn E4) as [B4 R4]. destruct (heap_free_gone _ _ _ _ Hnode E5) as [B5 R5].
  by rewrite B5, B4, R5, R4.
Qed.

Lemma insert_result nested elm s r s' : object_tree (opts (guard s)) -> mem_ok (omem s) -> one_node s ->
  elm <> NULL -> is_u 64 elm -> kylin_rb_insert nested elm s = Ok (r, s') -> inserted elm s r s'.
Proof.
  intros Ho Hm Hone Hn Hu E. pose proof Ho as [Ht Hc _ Hnc _]. destruct s as [g m e]. cbn [guard omem] in *.
  unfold kylin_rb_insert in E.
  apply bind_Ok_inv in E as (g1 & s1 & E1 & E). injection E1 as <- <-. cbn [guard] in E.
  apply bind_Ok_inv in E as (node & s1 & E1 & E). unfold RB_NODE_MALLOC in E1. rewrite Hnc in E1. cbn [default] in E1.
  apply on_mem_inv in E1 as (m1 & E1 & ->). cbn [guard omem kerrno] in *.
  destruct (Z.eqb_spec node NULL) as [->|Hnode].
  { injection E as <- <-. apply no_node. cbn [omem]. unfold kylin_malloc in E1.
    destruct (alloc_addr sizeof_node m) as [[a|] m0] eqn:Ea; [|by injection E1 as <-].
    injection E1 as -> <-. by destruct (alloc_addr_some _ _ _ _ Ea Hm) as (_ & _ & [? _]). }
  apply bind_Ok_inv in E as (v & s1 & E2 & E). apply on_mem_inv in E2 as (m2 & E2 & ->).
  unfold kmath_val_ctor in E2. rewrite Ht, Hc in E2. injection E2 as <- <-. cbn [guard omem kerrno] in *.
  apply bind_Ok_inv in E as (u & s1 & E2 & E). apply on_mem_inv in E2 as (m2 & E2 & ->). cbn [guard omem kerrno] in *.
  destruct (new_node _ _ _ _ _ _ Hm E1 Hnode Hu E2) as (Ha & -> & Hnu & Hb2 & Hm2 & W & Hs).
  assert (Hold : rb_root g = NULL \/ rb_root g <> brk m /\ exists v, lone (Rb.mk_st g m2 e) (rb_root g) v).
  { destruct Hone as [?|(v & _ & Hr & q & Hq)]; [by left|right]. cbn [omem] in Hq.
    assert (rb_root g <> brk m) by (intros Heq; pose proof (mem_ok_fresh _ Hm) as F; destruct Hq as [Hq _]; simpl in Hq; congruence).
    split; [done|]. exists v. split; [done|]. split; [done|]. exists q. eapply words_at_same; [|exact Hq]. by apply Hs. }
  apply bind_Ok_inv in E as (s1 & s2 & E3 & E). injection E3 as <- <-.
  apply bind_Ok_inv in E as (d & s1 & E3 & E).
  assert (Hone2 : one_node (Rb.mk_st g m2 e)) by (destruct Hold as [?|[_ ?]]; [by left|by right]).
  destruct (descend_one _ _ _ _ _ Hone2 E3) as (-> & Hd). cbn [guard] in Hd.
  destruct Hd as [[-> Hr]|[res ->]].
  - assert (r = PObj NULL) as ->.
    { apply bind_Ok_inv in E as (? & ? & _ & E). apply bind_Ok_inv in E as (? & ? & _ & E). by injection E. }
    destruct (give_back nested _ _ _ _ _ _ _ Ho Hn Hnode W E) as (m' & -> & Hb & Hm').
    apply equal_value; cbn [guard omem].
    + done.
    + destruct Hm2 as [Hr2 Hm2]. split; [by rewrite Hb|]. intros b bs Hbs. rewrite Hm' in Hbs.
      apply lookup_delete_Some in Hbs as [_ Hbs]. apply lookup_delete_Some in Hbs as [_ Hbs]. rewrite Hb. by eapply Hm2.
    + lia.
    + intros b H1 H2. unfold same_at. rewrite Hm', !lookup_delete_ne by done. by apply Hs.
    + rewrite Hm'. apply lookup_delete_None. right. apply lookup_delete_eq.
    + by rewrite Ha.
  - destruct (link_node_lone g m2 e (brk m) elm (rb_root g) res) as (m' & El & W' & K).
    + split; [done|]. split; [done|]. by exists 0, 0, 0, 0.
    + destruct Hold as [->|(_ & v & _ & [_ ?] & _)]; done.
    + destruct Hold as [->|[? _]]; [by apply not_eq_sym|done].
    + destruct Hold as [?|(_ & v & _ & [? _] & q & Hq)]; [by left|right]. split; [done|]. by eauto.
    + rewrite (bind_Ok _ _ _ _ _ El) in E.
      assert (Ev : RB_VAL (brk m) (Rb.mk_st (with_root g (brk m)) m' e) = Ok (elm, Rb.mk_st (with_root g (brk m)) m' e))
        by (eapply read_field; [exact W'|done]).
      unfold get_ptr in E. apply bind_Ok_inv in E as (g3 & s3 & E5 & E). injection E5 as <- <-.
      rewrite (bind_Ok _ _ _ _ _ Ev) in E. cbn [guard with_root opts] in E. rewrite Ht in E. injection E as <- <-.
      eapply linked; cbn [guard omem]; [done|by eapply mem_ok_keeps|by destruct K as [-> _]|done|].
      intros b Hb. unfold same_at. rewrite (proj2 (proj2 (proj2 K)) b); [by apply Hs|by rewrite list_elem_of_singleton].
Qed.

(** Destroying a tree starts at the minimum, which nothing sets. *)
Lemma destroy_null nested s : object_tree (opts (guard s)) -> rb_min (guard s) = NULL -> blocks (omem s) !! NULL = None ->
  kylin_rb_destroy nested s = Ub.
Proof.
  intros Ho Hmin Hm. unfold kylin_rb_destroy. run (eq_refl : get_st s = Ok (s, s)).
  unfold fuel_of. cbn [destroy_loop]. run (eq_refl : kylin_rb_min s = Ok (rb_min (guard s), s)). rewrite Hmin.
  apply bind_Ub. unfold val_destroy. run (eq_refl : get_guard s = Ok (guard s, s)).
  rewrite (ot_type _ Ho). cbn [int_type]. apply bind_Ub. unfold RB_VAL, on_mem, read_word.
  change (mem_of s) with (omem s). by rewrite Hm.
Qed.
