(* ===== verification/Timer.v ===== *)
(** * Timers ([lib/core/timer])

    Three sources of time, each with a tree of pending timers, ordered by the
    time they expire, and a spin lock.  A timer is an object of the heap; its
    callback is a function on the state.  The functions run while the other
    threads stand still; what the scheduling thread does is one of them
    ([__kylin_timer_schedule]). *)

From S2P Require Import Prelude Errors Bytes Mem MathVal Locks Rb RbHeader.

Inductive ktimer_src_t := KTIMER_SRC_TSC | KTIMER_SRC_HPET | KTIMER_SRC_SOFT.
Inductive ktimer_type_t :=
| KTIMER_TYPE_SINGLE | KTIMER_TYPE_PERIODICAL | KTIMER_TYPE_BLK_SINGLE | KTIMER_TYPE_BLK_PERIODICAL.
Inductive ktimer_state_t := KTIMER_STATE_INIT | KTIMER_STATE_STOP | KTIMER_STATE_PENDING | KTIMER_STATE_RUNNING.

Definition KTIMER_SRC_MAX : nat := 3.
Definition src_code (s : ktimer_src_t) : Z :=
  match s with KTIMER_SRC_TSC => 0 | KTIMER_SRC_HPET => 1 | KTIMER_SRC_SOFT => 2 end.
Definition type_code (t : ktimer_type_t) : Z :=
  match t with
  | KTIMER_TYPE_SINGLE => 0 | KTIMER_TYPE_PERIODICAL => 1
  | KTIMER_TYPE_BLK_SINGLE => 2 | KTIMER_TYPE_BLK_PERIODICAL => 3
  end.
Definition state_code (s : ktimer_state_t) : Z :=
  match s with
  | KTIMER_STATE_INIT => 0 | KTIMER_STATE_STOP => 1 | KTIMER_STATE_PENDING => 2 | KTIMER_STATE_RUNNING => 3
  end.

(** [timer_pending_rb], [lock] and the heap. *)
Record tst := mk_tst {
  timer_pending_rb : list (option Rb.krb_t);
  lock : list Z; (** [kspinlock_t] *)
  tmem : mem;
  terrno : option kerr_t;
}.

#[export] Instance tst_mem : HasMem tst.
Proof.
  refine {| mem_of := tmem; with_mem s m := mk_tst (timer_pending_rb s) (lock s) m (terrno s) |}; by intros [].
Defined.

Definition lift {A} (o : outcome A) : M tst A := fun s =>
  match o with Ok a => Ok (a, s) | Ub => Ub | OutOfFuel => OutOfFuel end.

(** ** Fields of a timer *)
Definition EXPIRE : field := (0, 8).
Definition PERIOD : field := (8, 8).
Definition SRC : field := (16, 4).
Definition TYPE : field := (20, 4).
Definition STATE : field := (24, 4).
Definition EXEC : field := (32, 8).
Definition ARG_SIZE : field := (40, 8).
Definition sizeof_timer : Z := 48.

Definition timer_get (f : field) (t : Z) : M tst Z := on_mem (get_field f t).
Definition timer_set (f : field) (t v : Z) : M tst unit := on_mem (put_field f t v).

(** The callback compares two timers of the tree; where one has been freed the
    C function is undefined and this one gives 0. *)
Definition __timer_compare (m : mem) (v1 v2 : Z) : Z :=
  match get_field EXPIRE v1 m, get_field EXPIRE v2 m with
  | Ok (e1, _), Ok (e2, _) => if e2 <? e1 then 1 else if e1 <? e2 then -1 else 0
  | _, _ => 0
  end.

Definition timer_opts : Rb.krb_opts_t :=
  Rb.mk_krb_opts KOBJ_OTHERS sizeof_timer __timer_compare None None None None (0, 0, 0, 0).

(** ** Sources of time *)
Definition __tsc_get_cycle : Z := 0.
Definition __hpet_get_cycle : Z := 0.
Definition __soft_get_cycle : Z := 0.
Definition timer_source : list Z := [__tsc_get_cycle; __hpet_get_cycle; __soft_get_cycle].
Definition kylin_timer_source_init : kerr_t := KYLIN_ERROR_OK.
Definition kylin_timer_source_fini : unit := tt.
Definition get_cycle (src : Z) : M tst Z := lift (rd timer_source (Z.to_nat src)).

(** ** The tree and the lock of a source *)

(** What a tree function returned as a pointer: the timer or NULL. *)
Definition vptr_addr (v : vptr Z) : Z := match v with PObj a => a | _ => NULL end.
Definition vptr_null (v : vptr Z) : bool := match v with PObj a => a =? NULL | _ => false end.

Definition on_rb {A} (src : Z) (f : M Rb.st A) : M tst A := fun s =>
  match rd (timer_pending_rb s) (Z.to_nat src) with
  | Ok (Some g) =>
      match f (Rb.mk_st g (tmem s) (terrno s)) with
      | Ok (a, r) =>
          Ok (a, mk_tst (<[Z.to_nat src := Some (Rb.guard r)]> (timer_pending_rb s)) (lock s) (Rb.omem r) (Rb.kerrno r))
      | Ub => Ub
      | OutOfFuel => OutOfFuel
      end
  | _ => Ub
  end.

Definition set_lock (src sl : Z) : M tst unit := fun s =>
  l ← wr (lock s) (Z.to_nat src) sl; Ok (tt, mk_tst (timer_pending_rb s) l (tmem s) (terrno s)).
Definition get_lock (src : Z) : M tst Z := fun s =>
  sl ← rd (lock s) (Z.to_nat src); Ok (sl, s).

Section Timer.
Context (nested : nested_dtors) (run_exec : Z -> Z -> Z -> M tst unit) (fuel : nat).

(** [fuel] bounds the turns of every waiting loop. *)
Definition lock_source (src : Z) : M tst unit :=
  sl ← get_lock src; sl ← lift (spin_alone fuel SXchg sl); set_lock src sl.
Definition unlock_source (src : Z) : M tst unit := sl ← get_lock src; set_lock src (kylin_spinlock_unlock sl).

(** [while(timer->state == KTIMER_STATE_RUNNING) kylin_pause();] alone. *)
Definition while_running (timer : Z) : M tst unit :=
  st ← timer_get STATE timer; if st =? state_code KTIMER_STATE_RUNNING then out_of_fuel else mret tt.

(** [memcpy(timer->arg, arg, arg_size)] *)
Definition copy_arg (timer arg n : Z) : M mem unit :=
  if n =? 0 then mret tt else bs ← load arg n; store_at timer sizeof_timer bs.

Definition kylin_timer_create (expire : Z) (src : ktimer_src_t) (type : ktimer_type_t) (exec arg arg_size : Z) : M tst Z :=
  let n := u64 arg_size in
  timer ← on_mem (kylin_malloc (u64 (sizeof_timer + n)));
  if timer =? NULL then mret NULL else
  _ ← timer_set EXPIRE timer expire;
  _ ← (match type with KTIMER_TYPE_PERIODICAL => timer_set PERIOD timer expire | _ => mret tt end);
  _ ← timer_set SRC timer (src_code src);
  _ ← timer_set TYPE timer (type_code type);
  _ ← timer_set STATE timer (state_code KTIMER_STATE_INIT);
  _ ← timer_set EXEC timer exec;
  _ ← timer_set ARG_SIZE timer n;
  _ ← on_mem (copy_arg timer arg n);
  mret timer.

Definition kylin_timer_destroy (timer : Z) : M tst unit :=
  src ← timer_get SRC timer;
  _ ← while_running timer;
  _ ← lock_source src;
  src' ← timer_get SRC timer;
  _ ← on_rb src' (Rb.kylin_rb_remove nested timer);
  unlock_source src.

Definition kylin_timer_start (timer : Z) : M tst kerr_t :=
  expire ← timer_get EXPIRE timer;
  st ← timer_get STATE timer;
  if negb (st =? state_code KTIMER_STATE_INIT) then mret KYLIN_ERROR_NOENT else
  src ← timer_get SRC timer;
  now ← get_cycle src;
  _ ← timer_set EXPIRE timer (u64 (expire + now));
  _ ← lock_source src;
  v ← on_rb src (Rb.kylin_rb_insert nested timer);
  if vptr_null v then
    src ← timer_get SRC timer;
    _ ← unlock_source src;
    _ ← timer_set EXPIRE timer expire;
    mret KYLIN_ERROR_NOMEM
  else
    src ← timer_get SRC timer;
    _ ← unlock_source src;
    _ ← timer_set STATE timer (state_code KTIMER_STATE_PENDING);
    mret KYLIN_ERROR_OK.

Fixpoint start_loop (n : nat) (timer : Z) : M tst kerr_t :=
  match n with
  | O => out_of_fuel
  | S n =>
      ret ← kylin_timer_start timer;
      if decide (ret = KYLIN_ERROR_OK) then mret KYLIN_ERROR_OK
      else if decide (ret = KYLIN_ERROR_NOENT) then mret ret else start_loop n timer
  end.
Definition kylin_timer_start_sync (timer : Z) : M tst kerr_t := start_loop fuel timer.

Definition kylin_timer_stop (timer : Z) : M tst kerr_t :=
  st ← timer_get STATE timer;
  if st =? state_code KTIMER_STATE_RUNNING then mret KYLIN_ERROR_NOENT else
  src ← timer_get SRC timer;
  _ ← lock_source src;
  v ← on_rb src (Rb.kylin_rb_unlink timer);
  src ← timer_get SRC timer;
  _ ← unlock_source src;
  if vptr_null v then mret KYLIN_ERROR_INVAL
  else _ ← timer_set STATE timer (state_code KTIMER_STATE_STOP); mret KYLIN_ERROR_OK.

Definition kylin_timer_stop_sync (timer : Z) : M tst kerr_t :=
  _ ← while_running timer; kylin_timer_stop timer.

Definition kylin_timer_is_pending (timer : Z) : M tst bool :=
  st ← timer_get STATE timer; mret (st =? state_code KTIMER_STATE_PENDING).

(** [while(!kylin_rb_insert(...)) cur_timer->expire++;] *)
Fixpoint insert_again (n : nat) (src timer : Z) : M tst unit :=
  match n with
  | O => out_of_fuel
  | S n =>
      v ← on_rb src (Rb.kylin_rb_insert nested timer);
      if vptr_null v then
        e ← timer_get EXPIRE timer; _ ← timer_set EXPIRE timer (u64 (e + 1)); insert_again n src timer
      else mret tt
  end.

(** The expired timers of one source. *)
Fixpoint expire_loop (n : nat) (src now : Z) : M tst unit :=
  match n with
  | O => out_of_fuel
  | S n =>
      node ← on_rb src Rb.kylin_rb_min;
      if node =? NULL then mret tt else
      v ← on_rb src (Rb.kylin_rb_val node);
      let timer := vptr_addr v in
      late ← (if timer =? NULL then mret true else e ← timer_get EXPIRE timer; mret (now <? e));
      if late : bool then unlock_source src else
      _ ← on_rb src (Rb.kylin_rb_unlink timer);
      _ ← unlock_source src;
      _ ← timer_set STATE timer (state_code KTIMER_STATE_RUNNING);
      exec ← timer_get EXEC timer;
      _ ← run_exec exec timer (timer + sizeof_timer);
      period ← timer_get PERIOD timer;
      _ ← (if period =? 0 then
             _ ← timer_set EXPIRE timer (u64 (period + now));
             _ ← timer_set STATE timer (state_code KTIMER_STATE_PENDING);
             _ ← lock_source src;
             _ ← insert_again fuel src timer;
             unlock_source src
           else timer_set STATE timer (state_code KTIMER_STATE_STOP));
      expire_loop n src now
  end.

Fixpoint schedule_sources (n : nat) (i : Z) : M tst Z :=
  match n with
  | O => mret NULL
  | S n =>
      now ← get_cycle i;
      _ ← lock_source i;
      _ ← expire_loop fuel i now;
      schedule_sources n (i + 1)
  end.
Definition __kylin_timer_schedule : M tst Z := schedule_sources KTIMER_SRC_MAX 0.

Definition set_rb (src : Z) (g : option Rb.krb_t) : M tst unit := fun s =>
  l ← wr (timer_pending_rb s) (Z.to_nat src) g; Ok (tt, mk_tst l (lock s) (tmem s) (terrno s)).

Definition rb_create (o : Rb.krb_opts_t) : M tst (option Rb.krb_t) := fun s =>
  let '(g, m, e) := Rb.kylin_rb_create o (tmem s) in
  Ok (g, mk_tst (timer_pending_rb s) (lock s) m (match e with Some e => Some e | None => terrno s end)).

Fixpoint init_sources (n : nat) (i : Z) : M tst kerr_t :=
  match n with
  | O => mret KYLIN_ERROR_OK
  | S n =>
      g ← rb_create timer_opts;
      _ ← set_rb i g;
      match g with
      | None => mret KYLIN_ERROR_NOMEM
      | Some _ => _ ← set_lock i (kylin_spinlock_init 0); init_sources n (i + 1)
      end
  end.

(** [created] is what [pthread_create] returns. *)
Definition kylin_timer_init (created : kerr_t) : M tst kerr_t :=
  ret ← init_sources KTIMER_SRC_MAX 0;
  if decide (ret = KYLIN_ERROR_OK) then
    if decide (kylin_timer_source_init = KYLIN_ERROR_OK) then mret created else mret kylin_timer_source_init
  else mret ret.

Fixpoint fini_sources (n : nat) (i : Z) : M tst unit :=
  match n with
  | O => mret tt
  | S n =>
      g ← (fun s => g ← rd (timer_pending_rb s) (Z.to_nat i); Ok (g, s));
      _ ← (match g with Some _ => on_rb i (Rb.kylin_rb_destroy nested) | None => mret tt end);
      fini_sources n (i + 1)
  end.
(** Up to [pthread_join]. *)
Definition kylin_timer_fini : M tst unit := fini_sources KTIMER_SRC_MAX 0.
End Timer.

(** ** The pending trees *)
Definition no_minimum (o : option krb_t) : Prop := exists g, o = Some g /\ rb_min g = NULL.
Definition trees_ok (s : tst) : Prop :=
  length (timer_pending_rb s) = KTIMER_SRC_MAX /\ length (lock s) = KTIMER_SRC_MAX /\
  Forall no_minimum (timer_pending_rb s).

Definition trees_kept {A} (f : M tst A) : Prop := forall s r s', trees_ok s -> f s = Ok (r, s') -> trees_ok s'.

Lemma trees_ret {A} (x : A) : trees_kept (mret x).
Proof. by intros s r s' H [= _ <-]. Qed.

Lemma trees_bind {A B} (f : M tst A) (g : A -> M tst B) : trees_kept f -> (forall x, trees_kept (g x)) -> trees_kept (f ≫= g).
Proof. intros Hf Hg s r s' H E. apply bind_Ok_inv in E as (x & s1 & E1 & E2). eapply Hg, E2. by eapply Hf. Qed.

Lemma trees_on_mem {A} (f : M mem A) : trees_kept (on_mem f).
Proof. intros s r s' H E. unfold on_mem in E. destruct (f _) as [[x m]| |]; by simplify_eq/=. Qed.

Lemma trees_lift {A} (o : outcome A) : trees_kept (lift o).
Proof. intros s r s' H E. unfold lift in E. destruct o; by simplify_eq. Qed.

Lemma trees_out_of_fuel {A} : trees_kept (@out_of_fuel tst A).
Proof. by intros s r s' _ E. Qed.

Lemma trees_get_lock src : trees_kept (get_lock src).
Proof. intros s r s' H E. unfold get_lock in E. destruct (rd _ _); by simplify_eq/=. Qed.

Lemma trees_set_lock src sl : trees_kept (set_lock src sl).
Proof.
  intros s r s' (H1 & H2 & H3) E. unfold set_lock, wr in E. destruct (_ <? _)%nat; simplify_eq/=.
  split; [done|]. split; [simpl; by rewrite length_insert|done].
Qed.

Lemma trees_on_rb {A} src (f : M Rb.st A) : header_kept f -> trees_kept (on_rb src f).
Proof.
  intros Hf s r s' (H1 & H2 & H3) E. unfold on_rb, rd in E.
  destruct (timer_pending_rb s !! Z.to_nat src) as [[g|]|] eqn:Ei; [|done..].
  destruct (f _) as [[x r']| |] eqn:Ef; [|done..]. simplify_eq.
  assert (Em : rb_min (guard r') = rb_min g) by exact (f_equal (fun h => h.1.2) (Hf _ _ _ Ef)).
  rewrite Forall_lookup in H3. destruct (H3 _ _ Ei) as (g' & Eg & Hm). simplify_eq.
  split; [simpl; by rewrite length_insert|]. split; [done|]. simpl. apply Forall_insert; [apply Forall_lookup; exact H3|].
  eexists. split; [done|]. by rewrite Em.
Qed.

Create HintDb trees.
#[export] Hint Resolve trees_ret trees_on_mem trees_lift trees_out_of_fuel trees_get_lock trees_set_lock : trees.
#[export] Hint Extern 1 (trees_kept (on_rb _ _)) => apply trees_on_rb; solve [auto with header] : trees.
#[export] Hint Extern 1 (trees_kept (timer_get _ _)) => apply trees_on_mem : trees.
#[export] Hint Extern 1 (trees_kept (timer_set _ _ _)) => apply trees_on_mem : trees.
#[export] Hint Extern 1 (trees_kept (get_cycle _)) => apply trees_lift : trees.

Ltac trees_kept :=
  cbv zeta;
  repeat first
    [ solve [auto with trees]
    | apply trees_bind; [|intros ?]
    | match goal with |- trees_kept (if ?b then _ else _) => destruct b end
    | match goal with |- trees_kept (match ?x with _ => _ end) => destruct x end ].

Section Calls.
Context (nested : nested_dtors) (run_exec : Z -> Z -> Z -> M tst unit).

(** The calls of the users of the library. *)
Inductive timer_call :=
| Create (expire : Z) (src : ktimer_src_t) (type : ktimer_type_t) (exec arg arg_size : Z)
| Destroy (timer : Z) | Start (timer : Z) | StartSync (timer : Z)
| Stop (timer : Z) | StopSync (timer : Z) | IsPending (timer : Z).

Definition run_call (fuel : nat) (c : timer_call) : M tst unit :=
  match c with
  | Create expire src type exec arg n => _ ← kylin_timer_create expire src type exec arg n; mret tt
  | Destroy t => kylin_timer_destroy nested fuel t
  | Start t => _ ← kylin_timer_start nested fuel t; mret tt
  | StartSync t => _ ← kylin_timer_start_sync nested fuel t; mret tt
  | Stop t => _ ← kylin_timer_stop fuel t; mret tt
  | StopSync t => _ ← kylin_timer_stop_sync fuel t; mret tt
  | IsPending t => _ ← kylin_timer_is_pending t; mret tt
  end.

Lemma trees_lock_source fuel src : trees_kept (lock_source fuel src).
Proof. unfold lock_source. trees_kept. Qed.
Lemma trees_unlock_source src : trees_kept (unlock_source src).
Proof. unfold unlock_source. trees_kept. Qed.
Lemma trees_while_running t : trees_kept (while_running t).
Proof. unfold while_running. trees_kept. Qed.
#[local] Hint Resolve trees_lock_source trees_unlock_source trees_while_running : trees.

Lemma trees_start fuel t : trees_kept (kylin_timer_start nested fuel t).
Proof. unfold kylin_timer_start. trees_kept. Qed.
Lemma trees_stop fuel t : trees_kept (kylin_timer_stop fuel t).
Proof. unfold kylin_timer_stop. trees_kept. Qed.
#[local] Hint Resolve trees_start trees_stop : trees.

Lemma trees_start_loop fuel n t : trees_kept (start_loop nested fuel n t).
Proof. induction n as [|n IH]; simpl; trees_kept. Qed.
#[local] Hint Resolve trees_start_loop : trees.

Lemma trees_run_call fuel c : trees_kept (run_call fuel c).
Proof.
  destruct c; cbn [run_call]; unfold kylin_timer_create, kylin_timer_destroy, kylin_timer_start_sync,
    kylin_timer_stop_sync, kylin_timer_is_pending; trees_kept.
Qed.

Lemma trees_run_all fuel calls : trees_kept (run_all (run_call fuel) calls).
Proof.
  induction calls as [|c calls IH]; simpl; [trees_kept|].
  apply trees_bind; [apply trees_run_call|]. intros r. apply trees_bind; [done|]. intros rs. trees_kept.
Qed.

(** The scheduling thread finds no minimum in any tree, and leaves each lock
    held. *)
Definition all_locked (s : tst) : tst := mk_tst (timer_pending_rb s) [1; 1; 1] (tmem s) (terrno s).

Lemma on_rb_min src g s : timer_pending_rb s !! Z.to_nat src = Some (Some g) ->
  on_rb src kylin_rb_min s = Ok (rb_min g, s).
Proof.
  intros H. unfold on_rb, rd. rewrite H. simpl. rewrite list_insert_id by done. by destruct s.
Qed.

Lemma schedule_source fuel n i s : trees_ok s -> (i < KTIMER_SRC_MAX)%nat -> lock s !! i = Some 0 ->
  schedule_sources nested run_exec (S fuel) (S n) (Z.of_nat i) s =
  schedule_sources nested run_exec (S fuel) n (Z.of_nat (S i))
    (mk_tst (timer_pending_rb s) (<[i := 1]> (lock s)) (tmem s) (terrno s)).
Proof.
  intros (H1 & H2 & H3) Hi Hl. cbn [schedule_sources]. unfold get_cycle, lift.
  destruct (lookup_lt_is_Some_2 timer_source i) as [now Hn]; [exact Hi|].
  unfold mbind at 1, M_bind at 1, rd. rewrite Nat2Z.id, Hn.
  assert (El : lock_source (S fuel) (Z.of_nat i) s =
    Ok (tt, mk_tst (timer_pending_rb s) (<[i := 1]> (lock s)) (tmem s) (terrno s))).
  { unfold lock_source, mbind, M_bind, get_lock, rd. rewrite Nat2Z.id, Hl. simpl.
    unfold set_lock. rewrite Nat2Z.id, wr_lt by (by rewrite H2). done. }
  run El. destruct (lookup_lt_is_Some_2 (timer_pending_rb s) i) as [o Ho]; [by rewrite H1|].
  rewrite Forall_lookup in H3. destruct (H3 _ _ Ho) as (g & -> & Hm).
  assert (Em : on_rb (Z.of_nat i) kylin_rb_min (mk_tst (timer_pending_rb s) (<[i := 1]> (lock s)) (tmem s) (terrno s))
    = Ok (rb_min g, mk_tst (timer_pending_rb s) (<[i := 1]> (lock s)) (tmem s) (terrno s)))
    by (apply on_rb_min; simpl; by rewrite Nat2Z.id).
  rewrite Hm in Em.
  assert (Ex : expire_loop nested run_exec (S fuel) (S fuel) (Z.of_nat i) now
      (mk_tst (timer_pending_rb s) (<[i := 1]> (lock s)) (tmem s) (terrno s))
    = Ok (tt, mk_tst (timer_pending_rb s) (<[i := 1]> (lock s)) (tmem s) (terrno s)))
    by (cbn [expire_loop]; by run Em).
  run Ex.
  by replace (Z.of_nat i + 1) with (Z.of_nat (S i)) by lia.
Qed.

Lemma schedule_ok fuel s : trees_ok s -> lock s = [0; 0; 0] ->
  __kylin_timer_schedule nested run_exec (S fuel) s = Ok (NULL, all_locked s).
Proof.
  intros H Hl. unfold __kylin_timer_schedule, KTIMER_SRC_MAX. change 0 with (Z.of_nat 0).
  pose proof H as (H1 & H2 & H3). unfold KTIMER_SRC_MAX in *.
  rewrite schedule_source by (first [done|unfold KTIMER_SRC_MAX; lia|by rewrite Hl]).
  rewrite schedule_source by (first [by rewrite Hl|unfold KTIMER_SRC_MAX; simpl; lia|by rewrite Hl in *]).
  rewrite schedule_source by (first [by rewrite Hl|unfold KTIMER_SRC_MAX; simpl; lia|by rewrite Hl in *]).
  simpl. by rewrite Hl.
Qed.

Lemma lock_source_held fuel src s r : Forall (fun sl => sl <> 0) (lock s) -> lock_source fuel src s <> Ok r.
Proof.
  intros H E. unfold lock_source in E. apply bind_Ok_inv in E as (sl & s1 & E1 & E).
  unfold get_lock, rd in E1. destruct (lock s !! Z.to_nat src) as [x|] eqn:Ei; simplify_eq/=.
  rewrite Forall_lookup in H. specialize (H _ _ Ei).
  apply bind_Ok_inv in E as (y & s2 & E2 & _). unfold lift in E2. by rewrite spin_alone_waits in E2.
Qed.

Lemma timer_get_keeps f t s r s' : timer_get f t s = Ok (r, s') -> s' = s.
Proof.
  unfold timer_get, on_mem, get_field, load_at, mbind, M_bind. destruct (blocks _ !! t); [|done]. simpl.
  destruct (read_bytes _ _ _); simpl; [|done..]. intros [= _ <-]. by destruct s.
Qed.

Lemma timer_set_locks f t v s r s' : timer_set f t v s = Ok (r, s') -> lock s' = lock s.
Proof. unfold timer_set, on_mem. destruct (put_field _ _ _ _) as [[x m]| |]; [|done..]. by intros [= _ <-]. Qed.

(** With all locks held, [start] and [stop] return only where they do nothing. *)
Lemma start_held fuel t s r s' : Forall (fun sl => sl <> 0) (lock s) ->
  kylin_timer_start nested fuel t s = Ok (r, s') -> r = KYLIN_ERROR_NOENT /\ s' = s.
Proof.
  intros Hl E. apply bind_Ok_inv in E as (e & s1 & E1 & E). apply timer_get_keeps in E1 as ->.
  apply bind_Ok_inv in E as (st & s1 & E1 & E). apply timer_get_keeps in E1 as ->.
  destruct (negb _); [by injection E as <- <-|].
  apply bind_Ok_inv in E as (src & s1 & E1 & E). apply timer_get_keeps in E1 as ->.
  apply bind_Ok_inv in E as (now & s1 & E1 & E). unfold get_cycle, lift in E1. destruct (rd _ _); simplify_eq.
  apply bind_Ok_inv in E as (u & s2 & E2 & E). apply timer_set_locks in E2. rewrite <- E2 in Hl.
  apply bind_Ok_inv in E as (u' & s3 & E3 & _). by apply lock_source_held in E3.
Qed.

Lemma stop_held fuel t s r s' : Forall (fun sl => sl <> 0) (lock s) ->
  kylin_timer_stop fuel t s = Ok (r, s') -> r = KYLIN_ERROR_NOENT /\ s' = s.
Proof.
  intros Hl E. apply bind_Ok_inv in E as (st & s1 & E1 & E). apply timer_get_keeps in E1 as ->.
  destruct (_ =? _); [by injection E as <- <-|].
  apply bind_Ok_inv in E as (src & s1 & E1 & E). apply timer_get_keeps in E1 as ->.
  apply bind_Ok_inv in E as (u' & s3 & E3 & _). by apply lock_source_held in E3.
Qed.

(** Initialisation. *)
Lemma init_source n i s s' :
  init_sources (S n) (Z.of_nat i) s = Ok (KYLIN_ERROR_OK, s') ->
  length (timer_pending_rb s) = KTIMER_SRC_MAX -> length (lock s) = KTIMER_SRC_MAX -> (i < KTIMER_SRC_MAX)%nat ->
  exists g m, rb_min g = NULL /\ init_sources n (Z.of_nat (S i))
    (mk_tst (<[i := Some g]> (timer_pending_rb s)) (<[i := 0]> (lock s)) m (terrno s)) = Ok (KYLIN_ERROR_OK, s').
Proof.
  intros E H1 H2 Hi. cbn [init_sources] in E. unfold rb_create, kylin_rb_create, mbind, M_bind in E.
  destruct (alloc_addr sizeof_rb (tmem s)) as [[a|] m]; unfold set_rb in E; simpl in E;
    rewrite Nat2Z.id, wr_lt in E by (rewrite H1; exact Hi); simpl in E; [|done].
  unfold set_lock in E. simpl in E. rewrite Nat2Z.id, wr_lt in E by (rewrite H2; exact Hi). simpl in E.
  exists (mk_krb timer_opts 0 0 0 0), m. split; [done|].
  by replace (Z.of_nat (S i)) with (Z.of_nat i + 1) by lia.
Qed.

Lemma init_ok s s' : length (timer_pending_rb s) = KTIMER_SRC_MAX -> length (lock s) = KTIMER_SRC_MAX ->
  kylin_timer_init KYLIN_ERROR_OK s = Ok (KYLIN_ERROR_OK, s') -> trees_ok s' /\ lock s' = [0; 0; 0].
Proof.
  intros H1 H2 E. unfold kylin_timer_init in E. apply bind_Ok_inv in E as (r & s1 & E & E').
  case_decide as Hr; [|by injection E' as -> _]. subst r. injection E' as <-.
  unfold KTIMER_SRC_MAX in E. change 0 with (Z.of_nat 0) in E. destruct s as [tp lk m e]. simpl in H1, H2.
  destruct tp as [|a [|b [|c [|]]]]; try done. destruct lk as [|a' [|b' [|c' [|]]]]; try done.
  apply init_source in E as (g0 & m0 & M0 & E); [|done|done|unfold KTIMER_SRC_MAX; lia].
  apply init_source in E as (g1 & m1 & M1 & E); [|done|done|unfold KTIMER_SRC_MAX; lia].
  apply init_source in E as (g2 & m2 & M2 & E); [|done|done|unfold KTIMER_SRC_MAX; lia].
  injection E as <-. split; [|done]. split; [done|]. split; [done|]. repeat constructor; eexists; done.
Qed.
End Calls.

(** C19. No timer ever runs.  After the initialisation and any calls of the users
    that return, the scheduling thread, when it gets the locks at all, finds no timer
    in any tree (their minimum is never set), returns without having called
    anything, and keeps the locks of the three sources.  From then on starting
    and stopping a timer return only where they refuse at once and change
    nothing: every other call waits for a lock for ever. *)
Theorem timers_never_run nested run_exec fuel calls s0 s1 s2 rs :
  length (timer_pending_rb s0) = KTIMER_SRC_MAX -> length (lock s0) = KTIMER_SRC_MAX ->
  kylin_timer_init KYLIN_ERROR_OK s0 = Ok (KYLIN_ERROR_OK, s1) ->
  run_all (run_call nested fuel) calls s1 = Ok (rs, s2) -> lock s2 = [0; 0; 0] ->
  __kylin_timer_schedule nested run_exec (S fuel) s2 = Ok (NULL, all_locked s2) /\
  forall n t r s3,
    (kylin_timer_start nested n t (all_locked s2) = Ok (r, s3) \/ kylin_timer_stop n t (all_locked s2) = Ok (r, s3)) ->
    r = KYLIN_ERROR_NOENT /\ s3 = all_locked s2.
Proof.
  intros H1 H2 Ei Er Hl. destruct (init_ok s0 s1 H1 H2 Ei) as [Ht _].
  apply trees_run_all in Er; [|done]. split; [by apply schedule_ok|].
  assert (Hh : Forall (fun sl => sl <> 0) (lock (all_locked s2))) by (by repeat constructor).
  intros n t r s3 [E|E]; [by eapply start_held|by eapply stop_held].
Qed.

(** One timer of 100 cycles, started. *)
Definition sample_nested : nested_dtors := mk_nested_dtors (fun _ => ub) (fun _ => ub) (fun _ => ub).
Definition sample_exec (exec timer arg : Z) : M tst unit := timer_set EXEC timer 7.
Definition sample_init : tst := mk_tst [None; None; None] [0; 0; 0] (mk_mem ∅ 256 []) None.
Definition after {A} (f : M tst A) (s : tst) : tst := match f s with Ok (_, s) => s | _ => s end.
Definition sample_st : tst := after (kylin_timer_init KYLIN_ERROR_OK) sample_init.
Definition sample_timer : Z := 592.
Definition sample_calls : list timer_call :=
  [Create 100 KTIMER_SRC_TSC KTIMER_TYPE_SINGLE 1 NULL 0; Start sample_timer].

Lemma timers_never_run_witness :
  exists s3, __kylin_timer_schedule sample_nested sample_exec 2
      (after (run_all (run_call sample_nested 1) sample_calls) sample_st) = Ok (NULL, s3) /\
    kylin_timer_is_pending sample_timer s3 = Ok (true, s3) /\
    forall n r s4, kylin_timer_start sample_nested n sample_timer s3 = Ok (r, s4) -> r = KYLIN_ERROR_NOENT.
Proof.
  destruct (timers_never_run sample_nested sample_exec 1 sample_calls sample_init sample_st
    (after (run_all (run_call sample_nested 1) sample_calls) sample_st) [tt; tt]) as [Hs Hh];
    [reflexivity|reflexivity|vm_compute; reflexivity|vm_compute; reflexivity|vm_compute; reflexivity|].
  eexists. split; [exact Hs|]. split; [vm_compute; reflexivity|].
  intros n r s4 E. by destruct (Hh n sample_timer r s4 (or_introl E)).
Defined.

(** ** Defects *)
Definition undefined {A} (f : M tst A) (s : tst) : bool := match f s with Ub => true | _ => false end.

(** A second timer that expires at the same time is freed by the tree that
    refuses it, and then written to. *)
Lemma timers_same_time :
  undefined (run_all (run_call sample_nested 1)
    [Create 100 KTIMER_SRC_TSC KTIMER_TYPE_SINGLE 1 NULL 0; Create 100 KTIMER_SRC_TSC KTIMER_TYPE_SINGLE 1 NULL 0;
     Start sample_timer; Start (sample_timer + 48)]) sample_st = true.
Proof. by vm_compute. Qed.

(** Shutting down dereferences the minimum that nobody set. *)
Lemma timer_fini_null : undefined (kylin_timer_fini sample_nested) sample_st = true.
Proof. by vm_compute. Qed.
