(* ===== verification/Thread.v ===== *)
(** * Threads ([lib/core/thread])

    The table of threads ([kylin_thread.c]) is a red-black tree of the objects
    [kylin_thread_create] makes ([kylin_thread_impl.c]), ordered by the number
    the system gave the thread.  The pthread library is an argument: what its
    functions return may depend on the calls made so far, which the state
    records.  The body of a thread is a function on the state. *)

From S2P Require Import Prelude Errors Bytes Mem MathVal Rb RbHeader.

Definition KYLIN_NAME_LENGTH : nat := 64.

(** ** The pthread library *)
Inductive pcall :=
| PCreate (thread : Z) | PJoin (tid : Z) | PSetname (tid : Z) (name : list Z)
| PGetsched (tid : Z) | PSetsched (tid prio : Z)
| PGetaffinity (tid : Z) | PSetaffinity (tid : Z) (mask : list Z).

(** The code a call returns, the number of a new thread, the priority and the
    set of processors of a thread. *)
Record pthreads := mk_pthreads {
  pt_ret : list pcall -> pcall -> kerr_t;
  pt_tid : list pcall -> Z -> Z;
  pt_prio : list pcall -> Z -> Z;
  pt_mask : list pcall -> Z -> list Z;
}.

Record thst := mk_thst {
  thread_rb : option krb_t;
  calls : list pcall;
  thmem : mem;
  therrno : option kerr_t;
}.

#[export] Instance thst_mem : HasMem thst.
Proof.
  refine {| mem_of := thmem; with_mem s m := mk_thst (thread_rb s) (calls s) m (therrno s) |}; by intros [].
Defined.

Definition lift {A} (o : outcome A) : M thst A := fun s =>
  match o with Ok a => Ok (a, s) | Ub => Ub | OutOfFuel => OutOfFuel end.

(** ** [struct kylin_thread] *)
Definition T_ID : field := (0, 4).
Definition T_THREAD_ID : field := (8, 8).
Definition T_NAME : Z := 16.
Definition T_TERMINATED : field := (80, 1).
Definition T_EXEC : field := (88, 8).
Definition T_PARAM_SIZE : field := (96, 8).
Definition T_PARAM : Z := 104.
Definition sizeof_thread : Z := 104.

Definition tget (f : field) (t : Z) : M thst Z := on_mem (get_field f t).
Definition tput (f : field) (t v : Z) : M thst unit := on_mem (put_field f t v).

(** [kthread_t cmp], a local variable: its address. *)
Definition STACK_CMP : Z := 2 ^ 63.

(** Where a thread has been freed the C function is undefined and this one
    gives 0. *)
Definition __thread_compare (m : mem) (t1 t2 : Z) : Z :=
  match get_field T_THREAD_ID t1 m, get_field T_THREAD_ID t2 m with
  | Ok (i1, _), Ok (i2, _) => if i2 <? i1 then 1 else if i1 <? i2 then -1 else 0
  | _, _ => 0
  end.

Definition thread_opts : krb_opts_t :=
  mk_krb_opts KOBJ_OTHERS sizeof_thread __thread_compare None None None None (0, 0, 0, 0).

Definition on_thread_rb {A} (f : M Rb.st A) : M thst A := fun s =>
  match thread_rb s with
  | Some g =>
      match f (Rb.mk_st g (thmem s) (therrno s)) with
      | Ok (x, r) => Ok (x, mk_thst (Some (guard r)) (calls s) (omem r) (kerrno r))
      | Ub => Ub
      | OutOfFuel => OutOfFuel
      end
  | None => Ub
  end.

Definition vptr_addr (v : vptr Z) : Z := match v with PObj a => a | PSlot _ => NULL end.

Section Threads.
Context (nested : nested_dtors) (os : pthreads) (run_exec : Z -> Z -> M thst unit).

(** A call of the library: its code, and its record. *)
Definition pcall_ret (c : pcall) : M thst kerr_t := fun s =>
  Ok (pt_ret os (calls s) c, mk_thst (thread_rb s) (calls s ++ [c]) (thmem s) (therrno s)).

(** ** The table ([kylin_thread.c]) *)
Definition kylin_thread_insert (thread : Z) : M thst kerr_t :=
  v ← on_thread_rb (kylin_rb_insert nested thread);
  if negb (vptr_addr v =? NULL) then mret KYLIN_ERROR_NOMEM else mret KYLIN_ERROR_OK.

Definition kylin_thread_remove (thread : Z) : M thst unit := on_thread_rb (kylin_rb_remove nested thread).

(** [kylin_rb_unlink] and [kylin_rb_next] return values; they are used as
    nodes. *)
Definition kylin_thread_unlink (thread : Z) : M thst Z :=
  node ← on_thread_rb (kylin_rb_unlink thread);
  if negb (vptr_addr node =? NULL) then v ← on_thread_rb (kylin_rb_val (vptr_addr node)); mret (vptr_addr v)
  else mret NULL.

Definition cmp_bytes (tid : Z) : list Z := replicate 8 0 ++ le_bytes 8 tid ++ replicate 88 0.

Definition kylin_thread_find (tid : Z) : M thst Z :=
  local STACK_CMP (cmp_bytes tid) (v ← on_thread_rb (kylin_rb_find STACK_CMP); mret (vptr_addr v)).

Definition kylin_thread_get_first : M thst Z :=
  node ← on_thread_rb kylin_rb_min;
  if node =? NULL then mret NULL else v ← on_thread_rb (kylin_rb_val node); mret (vptr_addr v).

Definition kylin_thread_get_next (thread : Z) : M thst Z :=
  node ← on_thread_rb (kylin_rb_next thread);
  if vptr_addr node =? NULL then mret NULL
  else v ← on_thread_rb (kylin_rb_val (vptr_addr node)); mret (vptr_addr v).

(** [KYLIN_THREAD_FOREACH]: the body returns a thread to stop. *)
Fixpoint foreach_from (fuel : nat) (body : Z -> M thst (option Z)) (thread : Z) : M thst Z :=
  match fuel with
  | O => out_of_fuel
  | S fuel =>
      if thread =? NULL then mret NULL else
      r ← body thread;
      match r with
      | Some t => mret t
      | None => next ← kylin_thread_get_next thread; foreach_from fuel body next
      end
  end.
Definition KYLIN_THREAD_FOREACH (fuel : nat) (body : Z -> M thst (option Z)) : M thst Z :=
  thread ← kylin_thread_get_first; foreach_from fuel body thread.

(** The characters from [off] to the end of an object. *)
Definition chars_from (a off : Z) : M mem (list Z) := fun m =>
  match blocks m !! a with Some bs => Ok (drop (Z.to_nat off) bs, m) | None => Ub end.

Definition same_name (name thread : Z) : M thst (option Z) :=
  a ← on_mem (chars_from thread T_NAME); b ← on_mem (chars_from name 0);
  eq ← lift (strncmp_eq KYLIN_NAME_LENGTH a b); mret (if eq : bool then Some thread else None).
Definition kylin_thread_find_by_name (fuel : nat) (name : Z) : M thst Z := KYLIN_THREAD_FOREACH fuel (same_name name).

Definition kylin_thread_init : M thst kerr_t := fun s =>
  let '(g, m, e) := kylin_rb_create thread_opts (thmem s) in
  Ok (match g with Some _ => KYLIN_ERROR_OK | None => KYLIN_ERROR_NOMEM end,
      mk_thst g (calls s) m (match e with Some e => Some e | None => therrno s end)).

(** ** Threads ([kylin_thread_impl.c]) *)
Definition __thread_proc (param : Z) : M thst Z :=
  exec ← tget T_EXEC param; _ ← run_exec exec param; mret NULL.

(** [memcpy(thread->param, param, n)] *)
Definition copy_param (thread param n : Z) : M mem unit :=
  if n =? 0 then mret tt else bs ← load param n; store_at thread T_PARAM bs.

(** [memcpy(thread->name, name, KYLIN_MIN(strlen(name), KYLIN_NAME_LENGTH - 1))] *)
Definition copy_name (thread name : Z) : M mem unit :=
  s ← load_string name 0; store_at thread T_NAME (take (KYLIN_NAME_LENGTH - 1) s).

Definition kylin_thread_terminate (thread : Z) : M thst unit := tput T_TERMINATED thread 1.
Definition kylin_thread_is_terminated (thread : Z) : M thst Z := tget T_TERMINATED thread.
Definition kylin_thread_param (thread : Z) : Z := thread + T_PARAM.
Definition kylin_thread_name (thread : Z) : Z := thread + T_NAME.

Definition kylin_thread_create (name exec param param_size : Z) : M thst Z :=
  let n := u64 (s32 param_size) in
  thread ← on_mem (kylin_malloc (u64 (sizeof_thread + n)));
  if thread =? NULL then mret NULL else
  _ ← on_mem (copy_param thread param n);
  _ ← on_mem (copy_name thread name);
  _ ← tput T_TERMINATED thread 0;
  _ ← tput T_PARAM_SIZE thread n;
  _ ← tput T_EXEC thread exec;
  ret ← kylin_thread_insert thread;
  if negb (bool_decide (ret = KYLIN_ERROR_OK)) then _ ← on_mem (kylin_free thread); mret NULL
  else mret thread.

Definition set_name (thread : Z) : M thst unit :=
  tid ← tget T_THREAD_ID thread; name ← on_mem (load_string thread T_NAME);
  _ ← pcall_ret (PSetname tid name); mret tt.

(** The number is written into the thread; the new thread runs
    [__thread_proc]. *)
Definition kylin_thread_start (thread : Z) : M thst kerr_t :=
  s ← get_st;
  ret ← pcall_ret (PCreate thread);
  _ ← tput T_THREAD_ID thread (pt_tid os (calls s) thread);
  _ ← (if bool_decide (ret = KYLIN_ERROR_OK) then set_name thread else mret tt);
  mret ret.

Definition kylin_thread_stop (thread : Z) : M thst kerr_t :=
  tid ← tget T_THREAD_ID thread; pcall_ret (PJoin tid).

Definition kylin_thread_destroy (thread : Z) : M thst unit :=
  thread ← kylin_thread_unlink thread;
  if thread =? NULL then mret tt else
  _ ← kylin_thread_terminate thread;
  _ ← kylin_thread_stop thread;
  on_mem (kylin_free thread).

Definition kylin_thread_fini (fuel : nat) : M thst unit :=
  s ← get_st;
  match thread_rb s with
  | Some _ =>
      _ ← KYLIN_THREAD_FOREACH fuel (fun t => _ ← kylin_thread_terminate t; mret None);
      _ ← KYLIN_THREAD_FOREACH fuel (fun t => _ ← kylin_thread_stop t; mret None);
      on_thread_rb (kylin_rb_destroy nested)
  | None => mret tt
  end.

Definition kylin_thread_param_set (thread param : Z) : M thst unit :=
  n ← tget T_PARAM_SIZE thread; on_mem (copy_param thread param n).

Definition kylin_thread_name_set (thread name : Z) : M thst unit :=
  _ ← on_mem (store_at thread T_NAME (replicate KYLIN_NAME_LENGTH 0));
  _ ← on_mem (copy_name thread name);
  set_name thread.

(** The priority stays 0 where the call fails. *)
Definition kylin_thread_priority (thread : Z) : M thst Z :=
  tid ← tget T_THREAD_ID thread;
  s ← get_st;
  ret ← pcall_ret (PGetsched tid);
  mret (if bool_decide (ret = KYLIN_ERROR_OK) then u8 (pt_prio os (calls s) tid) else 0).

Definition kylin_thread_priority_set (thread priority : Z) : M thst kerr_t :=
  tid ← tget T_THREAD_ID thread; pcall_ret (PSetsched tid (u8 priority)).

(** A set of 1024 processors. *)
Definition cpu_set (cpuid : Z) : list Z :=
  let i := Z.to_nat (u8 cpuid / 8) in <[i := 2 ^ (u8 cpuid mod 8)]> (replicate 128 0).

Definition kylin_thread_affinity (thread mask : Z) : M thst kerr_t :=
  tid ← tget T_THREAD_ID thread;
  s ← get_st;
  ret ← pcall_ret (PGetaffinity tid);
  _ ← (if bool_decide (ret = KYLIN_ERROR_OK) then on_mem (store mask (pt_mask os (calls s) tid)) else mret tt);
  mret ret.

Definition kylin_thread_affinity_set (thread cpuid : Z) : M thst kerr_t :=
  tid ← tget T_THREAD_ID thread; pcall_ret (PSetaffinity tid (cpu_set cpuid)).
End Threads.

(** ** Creation *)

(** What filling in the new thread at [a] keeps. *)
Definition fills {A} (a : Z) (f : M thst A) : Prop := forall s x s', f s = Ok (x, s') ->
  thread_rb s' = thread_rb s /\ keeps [a] (thmem s) (thmem s').

Lemma store_at_keeps a off bs m u m' : store_at a off bs m = Ok (u, m') -> keeps [a] m m'.
Proof.
  unfold store_at. destruct (blocks m !! a) as [old|] eqn:Ea; [|done]. destruct (write_bytes _ _ _); [|done..].
  intros [= _ <-]. split; [done|]. split; [done|]. split; simpl.
  - intros b. destruct (decide (b = a)) as [->|Hne]; [|by rewrite lookup_insert_ne].
    rewrite lookup_insert_eq, Ea. by split; eexists.
  - intros b Hb. unfold same_at. simpl. rewrite lookup_insert_ne; [done|]. set_solver.
Qed.

Lemma fills_mem a (f : M mem unit) : (forall m u m', f m = Ok (u, m') -> keeps [a] m m') -> fills a (on_mem f).
Proof.
  intros Hf s x s' E. unfold on_mem in E. cbn [mem_of thst_mem] in E.
  destruct (f (thmem s)) as [[y m]| |] eqn:Ef; [|done..]. injection E as _ <-. split; [done|]. by eapply Hf.
Qed.

Lemma fills_tput f t v : fills t (tput f t v).
Proof. apply fills_mem. intros m u m'. apply store_at_keeps. Qed.

Lemma fills_param t p n : fills t (on_mem (copy_param t p n)).
Proof.
  apply fills_mem. intros m u m' E. unfold copy_param in E. destruct (n =? 0); [injection E as _ <-; apply keeps_refl|].
  apply bind_Ok_inv in E as (bs & m1 & E1 & E). apply store_at_keeps in E. revert E1. unfold load.
  destruct (blocks m !! p); [|done]. destruct (read_bytes _ _ _); [|done..]. by intros [= _ <-].
Qed.

Lemma fills_name t p : fills t (on_mem (copy_name t p)).
Proof.
  apply fills_mem. intros m u m' E. unfold copy_name in E.
  apply bind_Ok_inv in E as (bs & m1 & E1 & E). apply store_at_keeps in E. revert E1. unfold load_string.
  destruct (blocks m !! p); [|done]. destruct (c_chars _); [|done..]. by intros [= _ <-].
Qed.

Lemma fills_bind {A B} a (f : M thst A) (g : A -> M thst B) : fills a f -> (forall x, fills a (g x)) -> fills a (f ≫= g).
Proof.
  intros Hf Hg s x s' E. apply bind_Ok_inv in E as (y & s1 & E1 & E2).
  destruct (Hf _ _ _ E1) as [T1 K1]. destruct (Hg _ _ _ _ E2) as [T2 K2]. split; [congruence|].
  eapply keeps_trans_in; [exact K1|exact K2|]. by intros b [?|?].
Qed.

(** The threads in the table: the values its root reaches. *)
Definition in_table (s : thst) (t : Z) : Prop := exists g, thread_rb s = Some g /\ in_tree (thmem s) (rb_root g) t.

(** The table as its initialisation leaves it and the creations keep it. *)
Record table_ok (s : thst) (g : krb_t) : Prop := {
  tb_rb : thread_rb s = Some g;
  tb_opts : object_tree (opts g);
  tb_mem : mem_ok (thmem s);
  tb_one : one_node (Rb.mk_st g (thmem s) None);
  tb_old : forall v, in_tree (thmem s) (rb_root g) v -> v < brk (thmem s);
}.

Lemma in_table_tree s g v : thread_rb s = Some g -> in_table s v <-> in_tree (thmem s) (rb_root g) v.
Proof. intros H. split; [by intros (g' & H' & Ht); simplify_eq|]. intros Ht. by exists g. Qed.

Lemma table_same s s' g : table_ok s g -> thread_rb s' = Some g -> mem_ok (thmem s') ->
  brk (thmem s) <= brk (thmem s') -> same_at (thmem s) (thmem s') (rb_root g) ->
  table_ok s' g /\ forall v, in_table s' v <-> in_table s v.
Proof.
  intros [H1 H2 H3 H4 H5] Hg Hm Hb Hs. destruct (one_node_same _ _ _ _ None H4 Hs) as [H4' Hin].
  split; [split; try done|]; [|].
  - intros v Hv%Hin. specialize (H5 v Hv). lia.
  - intros v. by rewrite (in_table_tree s' g), (in_table_tree s g).
Qed.

Lemma table_new s' g node par a : thread_rb s' = Some (with_root g node) -> object_tree (opts g) -> mem_ok (thmem s') ->
  words_at (thmem s') node [par; NULL; NULL; RB_BLACK; a] -> a < brk (thmem s') ->
  table_ok s' (with_root g node) /\ forall v, in_table s' v <-> v = a.
Proof.
  intros Hg Ho Hm Hw Ha. assert (HL : lone (Rb.mk_st (with_root g node) (thmem s') None) node a).
  { split; [done|]. split; [|by exists par]. destruct Hm as [Hr Hm]. destruct Hw as [Hw _]. apply Hm in Hw.
    unfold NULL, is_u. lia. }
  split; [split; try done|].
  - right. by exists a.
  - intros v Hv%(lone_in_tree _ _ _ v HL). lia.
  - intros v. rewrite (in_table_tree _ _ _ Hg). apply (lone_in_tree _ _ _ v HL).
Qed.

(** The insertion of a thread, its test the wrong way round. *)
Lemma thread_insert_inv nested a g s ret s' : table_ok s g -> a <> NULL -> is_u 64 a ->
  kylin_thread_insert nested a s = Ok (ret, s') ->
  exists v r, inserted a (Rb.mk_st g (thmem s) (therrno s)) v r /\
    s' = mk_thst (Some (guard r)) (calls s) (omem r) (kerrno r) /\
    ret = if vptr_addr v =? NULL then KYLIN_ERROR_OK else KYLIN_ERROR_NOMEM.
Proof.
  intros [Hg Ho Hm H1 _] Hn Hu E. unfold kylin_thread_insert in E. apply bind_Ok_inv in E as (v & s1 & E1 & E).
  unfold on_thread_rb in E1. rewrite Hg in E1. destruct (kylin_rb_insert _ _ _) as [[x r]| |] eqn:Ei; [|done..].
  injection E1 as -> <-. exists v, r. split; [|destruct (_ =? _) in E |- *; by injection E as <- <-].
  by apply insert_result in Ei.
Qed.

Lemma table_root s g : table_ok s g -> rb_root g < brk (thmem s).
Proof.
  intros [_ _ [Hr Hm] [H|(v & _ & _ & p & Hw & _)] _]; cbn [guard omem] in *; [rewrite H; unfold NULL; lia|].
  apply Hm in Hw. lia.
Qed.

(** The new object. *)
Lemma table_alloc s g n m : table_ok s g -> alloc_addr n (thmem s) = (Some (brk (thmem s)), m) ->
  let s1 := mk_thst (thread_rb s) (calls s)
    (mk_mem (<[brk (thmem s) := replicate (Z.to_nat n) 0]> (blocks m)) (brk m) (oom m)) (therrno s) in
  table_ok s1 g /\ (forall v, in_table s1 v <-> in_table s v) /\ brk (thmem s) < brk m.
Proof.
  intros HT Ea s1. pose proof (table_root s g HT) as Hroot. pose proof HT as [Hg _ Hm _ _].
  destruct (alloc_addr_some _ _ _ _ Ea Hm) as (_ & Hb & Hr). destruct (alloc_top _ _ _ _ Ea) as (_ & Ht & Ht').
  assert (H : table_ok s1 g /\ forall v, in_table s1 v <-> in_table s v).
  { apply (table_same s); unfold s1; [done..| |cbn; lia|].
    - split; cbn; [lia|]. intros b bs Hbs. rewrite Hb in Hbs. apply lookup_insert_Some in Hbs as [[<- _]|[_ Hbs]]; [lia|].
      destruct Hm as [_ Hm]. apply Hm in Hbs. lia.
    - unfold same_at. cbn. rewrite Hb, lookup_insert_ne; [done|lia]. }
  destruct H. split; [done|]. split; [done|lia].
Qed.

(** Filling it in. *)
Lemma table_fills {A} (f : M thst A) a s g x s' : table_ok s g -> rb_root g <> a -> fills a f -> f s = Ok (x, s') ->
  table_ok s' g /\ (forall v, in_table s' v <-> in_table s v) /\ keeps [a] (thmem s) (thmem s').
Proof.
  intros HT Ha Hf E. destruct (Hf _ _ _ E) as [T K]. pose proof HT as [Hg _ Hm _ _].
  destruct (table_same s s' g HT) as [H1 H2].
  - congruence.
  - by eapply mem_ok_keeps.
  - destruct K as (-> & _). lia.
  - apply K. by rewrite list_elem_of_singleton.
  - done.
Qed.

Lemma bind5 {A B C D E F} (f1 : M thst A) (f2 : M thst B) (f3 : M thst C) (f4 : M thst D) (f5 : M thst E) (k : M thst F) s r :
  (_ ← f1; _ ← f2; _ ← f3; _ ← f4; _ ← f5; k) s = Ok r ->
  exists s5, (_ ← f1; _ ← f2; _ ← f3; _ ← f4; f5) s = Ok s5 /\ k (snd s5) = Ok r.
Proof.
  intros H. destruct r as [r s']. do 4 (apply bind_Ok_inv in H as (? & ? & ? & H)).
  apply bind_Ok_inv in H as (u5 & s5 & E5 & H). exists (u5, s5). split; [|done]. by repeat (erewrite bind_Ok by done).
Qed.

(** What a creation does up to the insertion. *)
Lemma create_inv nested name exec param n s t s' g m1 : table_ok s g ->
  alloc_addr (u64 (sizeof_thread + u64 (s32 n))) (thmem s) = (Some (brk (thmem s)), m1) ->
  kylin_thread_create nested name exec param n s = Ok (t, s') -> let a := brk (thmem s) in
  exists s1 v r, table_ok s1 g /\ (forall x, in_table s1 x <-> in_table s x) /\ rb_root g < a < brk (thmem s1) /\
    is_Some (blocks (thmem s1) !! a) /\ (brk (thmem s1) = brk m1 /\ oom (thmem s1) = oom m1) /\
    inserted a (Rb.mk_st g (thmem s1) (therrno s1)) v r /\
    (if vptr_addr v =? NULL then mret a else _ ← on_mem (kylin_free a); mret NULL)
      (mk_thst (Some (guard r)) (calls s1) (omem r) (kerrno r)) = Ok (t, s').
Proof.
  intros HT Ea E a. pose proof (table_root s g HT) as Hroot. pose proof HT as [_ _ Hm _ _].
  destruct (table_alloc s g _ m1 HT Ea) as (HT1 & Hin1 & Hlt). unfold kylin_thread_create in E.
  apply bind_Ok_inv in E as (thread & s1 & E1 & E). unfold on_mem, kylin_malloc in E1. cbn [mem_of thst_mem] in E1.
  rewrite Ea in E1. injection E1 as <- <-. fold a in E, HT1, Hin1, Hroot, Hlt.
  assert (Ha : a <> NULL /\ is_u 64 a) by (destruct Hm; unfold a, NULL, is_u; lia).
  rewrite (proj2 (Z.eqb_neq a NULL)) in E by apply Ha.
  apply bind5 in E as ([u s5] & E5 & E). cbn [snd] in E.
  assert (Hf : fills a (_ ← on_mem (copy_param a param (u64 (s32 n))); _ ← on_mem (copy_name a name);
    _ ← tput T_TERMINATED a 0; _ ← tput T_PARAM_SIZE a (u64 (s32 n)); tput T_EXEC a exec))
    by (repeat (apply fills_bind; [auto using fills_param, fills_name, fills_tput|intros _]); apply fills_tput).
  destruct (table_fills _ a _ g _ _ HT1 ltac:(lia) Hf E5) as (HT5 & Hin5 & K).
  apply bind_Ok_inv in E as (ret & s6 & E6 & E).
  destruct (thread_insert_inv _ _ _ _ _ _ HT5 (proj1 Ha) (proj2 Ha) E6) as (v & r & Hi & -> & ->).
  exists s5, v, r. destruct K as (B & O & D & _). cbn [thmem brk oom] in B, O.
  split; [done|]. split; [intros x; by rewrite Hin5|]. split; [rewrite B; lia|].
  split; [apply D; cbn; rewrite lookup_insert_eq; by eexists|]. split; [done|]. split; [done|].
  by destruct (vptr_addr v =? NULL).
Qed.

Lemma create_none nested name exec param n s t s' g m1 : table_ok s g ->
  alloc_addr (u64 (sizeof_thread + u64 (s32 n))) (thmem s) = (None, m1) ->
  kylin_thread_create nested name exec param n s = Ok (t, s') ->
  (exists g', table_ok s' g') /\ t = NULL /\ forall v, in_table s' v <-> in_table s v.
Proof.
  intros HT Ea E. destruct (alloc_top _ _ _ _ Ea) as (Hb & Hk). unfold kylin_thread_create in E.
  apply bind_Ok_inv in E as (thread & s1 & E1 & E). unfold on_mem, kylin_malloc in E1. cbn [mem_of thst_mem] in E1.
  rewrite Ea in E1. injection E1 as <- <-. injection E as <- <-. pose proof HT as [Hg _ Hm _ _].
  edestruct (table_same s (mk_thst (thread_rb s) (calls s) m1 (therrno s)) g HT) as [HT' Hin'];
    [done|destruct Hm; by split; cbn; rewrite ?Hb, ?Hk|cbn; lia|unfold same_at; cbn; by rewrite Hb|].
  split; [by exists g|done].
Qed.

(** A thread that was linked is freed. *)
Lemma linked_freed g node par a m cs e u s' : object_tree (opts g) -> mem_ok m ->
  words_at m node [par; NULL; NULL; RB_BLACK; a] -> node <> a -> a <> NULL -> a < brk m ->
  on_mem (kylin_free a) (mk_thst (Some (with_root g node)) cs m e) = Ok (u, s') ->
  table_ok s' (with_root g node) /\ (forall v, in_table s' v <-> v = a) /\ blocks (thmem s') !! a = None.
Proof.
  intros Ho [Hr Hm] Hw Hne Hn Ha E. unfold on_mem in E. cbn [mem_of thst_mem thmem] in E.
  destruct (kylin_free a m) as [[y m']| |] eqn:Ef; [|done..]. injection E as _ <-.
  destruct (heap_free_gone a m y m' Hn Ef) as [Bf Kf].
  destruct (table_new (mk_thst (Some (with_root g node)) cs m' e) g node par a) as [HT Hin]; [done|done| | | |].
  - split; cbn; [by rewrite Kf|]. intros b bs Hbs. rewrite Bf in Hbs. rewrite Kf.
    apply lookup_delete_Some in Hbs as [_ Hbs]. by eapply Hm.
  - cbn. eapply words_at_same; [|exact Hw]. unfold same_at. rewrite Bf. by apply lookup_delete_ne.
  - cbn. by rewrite Kf.
  - split; [done|]. split; [done|]. cbn. rewrite Bf. apply lookup_delete_eq.
Qed.

(** C23. [kylin_thread_create] has its test the wrong way round.  Where there is
    memory for the tree's node, the new thread is freed: NULL is returned and the
    table then holds the freed thread and no other, or there was a thread that
    compares equal (where that one was freed in its turn C reads freed memory and
    [__thread_compare] says equal) and the address of the freed one is returned.
    A thread that is returned and still exists is one for which no memory was left for the
    node: it is not in the table, and the table is as before.  [table_ok] holds
    after the initialisation and is kept; [in_table] are the values the root
    reaches. *)
Theorem thread_create_inverted nested name exec param n s t s' g :
  table_ok s g -> kylin_thread_create nested name exec param n s = Ok (t, s') ->
  (exists g', table_ok s' g') /\
  let '(a, m) := alloc_addr (u64 (sizeof_thread + u64 (s32 n))) (thmem s) in
  match a, fst (alloc_addr sizeof_node m) with
  | None, _ => t = NULL /\ forall v, in_table s' v <-> in_table s v
  | Some a, None => t = a /\ is_Some (blocks (thmem s') !! a) /\ ~ in_table s' a /\
      forall v, in_table s' v <-> in_table s v
  | Some a, Some _ => blocks (thmem s') !! a = None /\
      (t = NULL /\ (forall v, in_table s' v <-> v = a) \/
       t = a /\ (exists v, in_table s v) /\ forall v, in_table s' v <-> in_table s v)
  end.
Proof.
  intros HT E. pose proof HT as [Hg Ho Hm Hone Hold].
  destruct (alloc_addr _ (thmem s)) as [[a|] m1] eqn:Ea; [|by eapply create_none].
  destruct (alloc_addr_some _ _ _ _ Ea Hm) as (-> & _ & Hr). set (a := brk (thmem s)) in *.
  destruct (create_inv _ _ _ _ _ _ _ _ _ _ HT Ea E) as (s1 & v & r & HT1 & Hin & Hlt & Hl & [Hb1 Ho1] & Hi & E1). clear E.
  fold a in Hlt, Hl, Hi, E1. rewrite <- (alloc_addr_room sizeof_node m1 (thmem s1)) by done.
  assert (Hout : ~ in_table s a) by (rewrite (in_table_tree _ _ _ Hg); intros H%Hold; unfold a in H; lia).
  destruct Hi as [m En|m Hroot Hmok Hbrk Hsame Hgone [node En]|node m En Hmok Hbrk Hw Hsame]; cbn [omem guard kerrno] in *;
    rewrite En; cbn [fst vptr_addr].
  - destruct (alloc_top _ _ _ _ En) as (Hb & Hk). injection E1 as <- <-.
    edestruct (table_same s1) as [HT' Hin']; [exact HT1| | | | |split; [exists g; exact HT'|]].
    1: done. 1: destruct (tb_mem _ _ HT1); by split; cbn; rewrite ?Hb, ?Hk. 1: cbn; lia. 1: unfold same_at; cbn; by rewrite Hb.
    assert (Hin2 := fun v => iff_trans (Hin' v) (Hin v)). split; [done|]. split; [cbn; by rewrite Hb|].
    split; [by rewrite Hin2|done].
  - injection E1 as <- <-.
    edestruct (table_same s1) as [HT' Hin']; [exact HT1| | | | |split; [exists g; exact HT'|]].
    1,2: done. 1: cbn; lia. 1: apply Hsame; lia.
    split; [done|]. right. split; [done|]. split; [|intros v; by rewrite Hin'].
    destruct Hone as [?|(w & HL)]; [done|]. exists w. rewrite (in_table_tree _ _ _ Hg). by apply (lone_in_tree _ _ _ _ HL).
  - cbn [vptr_addr] in E1. rewrite (proj2 (Z.eqb_neq a NULL)) in E1 by (unfold NULL; lia).
    apply bind_Ok_inv in E1 as (u & s7 & E7 & E1). injection E1 as <- <-.
    destruct (alloc_addr sizeof_node (thmem s1)) as [o m2] eqn:En1. cbn [fst] in En. subst o.
    destruct (alloc_addr_some _ _ _ _ En1 (tb_mem _ _ HT1)) as (-> & _ & _).
    destruct (linked_freed _ _ _ _ _ _ _ _ _ Ho Hmok Hw ltac:(lia) ltac:(unfold NULL; lia) ltac:(lia) E7) as (HT' & Hin' & Hf).
    split; [by eexists|]. split; [done|]. by left.
Qed.

(** Names and threads in the heap. *)
Definition sample_os : pthreads :=
  mk_pthreads (fun _ _ => KYLIN_ERROR_OK) (fun h _ => 700 + Z.of_nat (length h)) (fun _ _ => 3) (fun _ _ => [1]).
Definition sample_nested : nested_dtors := mk_nested_dtors (fun _ => ub) (fun _ => ub) (fun _ => ub).
Definition after {A} (f : M thst A) (s : thst) : thst := match f s with Ok (_, s) => s | _ => s end.
Definition sample_name : Z := 64.
Definition sample_mem : mem := mk_mem {[sample_name := [97; 98; 0]]} 128 [].
Definition sample_st : thst := mk_thst (Some (mk_krb thread_opts 0 0 0 0)) [] sample_mem None.

Lemma thread_mem_ok : mem_ok sample_mem.
Proof.
  split; [unfold sample_mem; cbn [brk]; lia|]. unfold sample_mem. cbn [blocks brk]. intros a bs Ha.
  apply lookup_singleton_Some in Ha as [<- _]. unfold sample_name. lia.
Qed.

Lemma thread_init_table s s' : mem_ok (thmem s) -> kylin_thread_init s = Ok (KYLIN_ERROR_OK, s') ->
  exists g, table_ok s' g /\ forall v, ~ in_table s' v.
Proof.
  intros Hm. unfold kylin_thread_init, kylin_rb_create. destruct (alloc_addr _ _) as [[a|] m] eqn:Ea; [|done].
  destruct (alloc_addr_some _ _ _ _ Ea Hm) as (_ & Hb & _). destruct (alloc_top _ _ _ _ Ea) as (_ & Ht & Ht').
  unfold thread_opts. cbn [guard_init]. intros [= <-].
  exists (mk_krb thread_opts 0 0 0 0). split; [split; try done|].
  - destruct Hm as [Hr Hm]. unfold sizeof_rb in *. split; cbn; [lia|]. intros b bs Hbs. rewrite Hb in Hbs. apply Hm in Hbs. lia.
  - by left.
  - intros v Hv%in_tree_null. done.
  - intros v (g & [= <-] & Hv%in_tree_null). done.
Qed.

Lemma sample_table : table_ok sample_st (mk_krb thread_opts 0 0 0 0).
Proof. split; [done|done|exact thread_mem_ok|by left|intros v Hv%in_tree_null; done]. Qed.

(** The first thread: freed, and in the table. *)
Lemma thread_create_inverted_witness :
  exists s', kylin_thread_create sample_nested sample_name 1 NULL 0 sample_st = Ok (NULL, s') /\
    (exists g', table_ok s' g') /\ blocks (thmem s') !! 128 = None /\
    (NULL = NULL /\ (forall v, in_table s' v <-> v = 128) \/
     NULL = 128 /\ (exists v, in_table sample_st v) /\ forall v, in_table s' v <-> in_table sample_st v).
Proof.
  assert (E : exists s', kylin_thread_create sample_nested sample_name 1 NULL 0 sample_st = Ok (NULL, s'))
    by (eexists; vm_compute; reflexivity).
  destruct E as [s' E]. exists s'. split; [exact E|].
  exact (thread_create_inverted sample_nested sample_name 1 NULL 0 sample_st NULL s' _ sample_table E).
Defined.

(** Without memory for the node the thread is returned. *)
Lemma thread_create_unlisted :
  match kylin_thread_create sample_nested sample_name 1 NULL 0
      (mk_thst (thread_rb sample_st) [] (mk_mem (blocks sample_mem) 128 [false; true]) None) with
  | Ok (t, _) => t = 128
  | _ => False
  end.
Proof. by vm_compute. Qed.

(** ** The table is never searched *)
Definition no_first (s : thst) : Prop := exists g, thread_rb s = Some g /\ object_tree (opts g) /\ rb_min g = NULL.
Definition never_first {A} (f : M thst A) : Prop := forall s r s', no_first s -> f s = Ok (r, s') -> no_first s'.

Lemma nf_ret {A} (x : A) : never_first (mret x).
Proof. by intros s r s' H [= _ <-]. Qed.
Lemma nf_bind {A B} (f : M thst A) (g : A -> M thst B) :
  never_first f -> (forall x, never_first (g x)) -> never_first (f ≫= g).
Proof. intros Hf Hg s r s' H E. apply bind_Ok_inv in E as (x & s1 & E1 & E2). eapply Hg, E2. by eapply Hf. Qed.
Lemma nf_on_mem {A} (f : M mem A) : never_first (on_mem f).
Proof. intros s r s' H E. unfold on_mem in E. destruct (f _) as [[x m]| |]; by simplify_eq/=. Qed.
Lemma nf_pcall os c : never_first (pcall_ret os c).
Proof. by intros s r s' H [= _ <-]. Qed.
Lemma nf_get_st : never_first get_st.
Proof. by intros s r s' H [= _ <-]. Qed.
Lemma nf_on_rb {A} (f : M Rb.st A) : header_kept f -> never_first (on_thread_rb f).
Proof.
  intros Hf s r s' (g & Hg & Ho & Hm) E. unfold on_thread_rb in E. rewrite Hg in E.
  destruct (f _) as [[x r']| |] eqn:Ef; [|done..]. injection E as _ <-.
  pose proof (Hf _ _ _ Ef) as Eh. eexists. split; [done|].
  pose proof (f_equal (fun h => h.1.1.1) Eh) as E1. pose proof (f_equal (fun h => h.1.2) Eh) as E2. simpl in E1, E2.
  split; [by rewrite E1|by rewrite E2].
Qed.

Create HintDb never_first.
#[export] Hint Resolve nf_ret nf_on_mem nf_pcall nf_get_st : never_first.
#[export] Hint Extern 1 (never_first (on_thread_rb _)) => apply nf_on_rb; solve [auto with header] : never_first.
#[export] Hint Extern 1 (never_first (tget _ _)) => apply nf_on_mem : never_first.
#[export] Hint Extern 1 (never_first (tput _ _ _)) => apply nf_on_mem : never_first.
Ltac never_first :=
  cbv zeta;
  repeat first
    [ solve [auto with never_first]
    | apply nf_bind; [|intros ?]
    | match goal with |- never_first (if ?b then _ else _) => destruct b end
    | match goal with |- never_first (match ?x with _ => _ end) => destruct x end ].

Section Users.
Context (nested : nested_dtors) (os : pthreads).

(** The calls of the users of the library. *)
Inductive thread_call :=
| Create (name exec param n : Z) | Destroy (t : Z) | Start (t : Z) | Stop (t : Z)
| Terminate (t : Z) | IsTerminated (t : Z) | ParamSet (t param : Z) | NameSet (t name : Z)
| Priority (t : Z) | PrioritySet (t prio : Z) | Affinity (t mask : Z) | AffinitySet (t cpuid : Z).

Definition run_call (c : thread_call) : M thst unit :=
  match c with
  | Create name exec param n => _ ← kylin_thread_create nested name exec param n; mret tt
  | Destroy t => kylin_thread_destroy os t
  | Start t => _ ← kylin_thread_start os t; mret tt
  | Stop t => _ ← kylin_thread_stop os t; mret tt
  | Terminate t => kylin_thread_terminate t
  | IsTerminated t => _ ← kylin_thread_is_terminated t; mret tt
  | ParamSet t p => kylin_thread_param_set t p
  | NameSet t name => kylin_thread_name_set os t name
  | Priority t => _ ← kylin_thread_priority os t; mret tt
  | PrioritySet t p => _ ← kylin_thread_priority_set os t p; mret tt
  | Affinity t mask => _ ← kylin_thread_affinity os t mask; mret tt
  | AffinitySet t c => _ ← kylin_thread_affinity_set os t c; mret tt
  end.

Lemma nf_run_call c : never_first (run_call c).
Proof.
  destruct c; cbn [run_call];
    unfold kylin_thread_create, kylin_thread_insert, kylin_thread_destroy, kylin_thread_unlink, kylin_thread_start,
      kylin_thread_stop, kylin_thread_terminate, kylin_thread_is_terminated, kylin_thread_param_set,
      kylin_thread_name_set, kylin_thread_priority, kylin_thread_priority_set, kylin_thread_affinity,
      kylin_thread_affinity_set, set_name, kylin_rb_val; never_first.
Qed.

Lemma nf_run_all cs : never_first (run_all run_call cs).
Proof.
  induction cs as [|c cs IH]; simpl; [never_first|].
  apply nf_bind; [apply nf_run_call|]. intros r. apply nf_bind; [done|]. intros rs. never_first.
Qed.
End Users.

Lemma init_no_first s s' : kylin_thread_init s = Ok (KYLIN_ERROR_OK, s') -> no_first s'.
Proof.
  unfold kylin_thread_init, kylin_rb_create. destruct (alloc_addr _ _) as [[a|] m]; [|done].
  intros [= <-]. eexists. split; [done|]. by split.
Qed.

Lemma no_first_min g s : thread_rb s = Some g -> on_thread_rb kylin_rb_min s = Ok (rb_min g, s).
Proof. intros H. unfold on_thread_rb. rewrite H. simpl. rewrite <- H. by destruct s. Qed.

Lemma get_first_null s : no_first s -> kylin_thread_get_first s = Ok (NULL, s).
Proof. intros (g & Hg & _ & Hm). unfold kylin_thread_get_first. run (no_first_min _ _ Hg). by rewrite Hm. Qed.

Lemma foreach_none fuel body s : no_first s -> KYLIN_THREAD_FOREACH (S fuel) body s = Ok (NULL, s).
Proof. intros H. unfold KYLIN_THREAD_FOREACH. by run (get_first_null s H). Qed.

(** The table of threads is write-only.  After the initialisation and any
    calls of the users that return, no thread is the first of the table (its
    minimum is never set): a search by name finds none, and the end of the
    library neither terminates nor joins any; it dereferences NULL. *)
Theorem threads_never_listed nested os fuel cs s0 s1 s2 rs name :
  kylin_thread_init s0 = Ok (KYLIN_ERROR_OK, s1) ->
  run_all (run_call nested os) cs s1 = Ok (rs, s2) -> blocks (thmem s2) !! NULL = None ->
  kylin_thread_get_first s2 = Ok (NULL, s2) /\
  kylin_thread_find_by_name (S fuel) name s2 = Ok (NULL, s2) /\
  kylin_thread_fini nested os (S fuel) s2 = Ub.
Proof.
  intros Ei Er Hm. assert (H : no_first s2) by (eapply nf_run_all; [by eapply init_no_first|exact Er]).
  split; [by apply get_first_null|]. split; [by apply foreach_none|].
  unfold kylin_thread_fini. run (eq_refl : get_st s2 = Ok (s2, s2)).
  pose proof H as (g & Hg & Ho & Hmin). rewrite Hg. run (foreach_none fuel (fun t => _ ← kylin_thread_terminate t; mret None) s2 H).
  run (foreach_none fuel (fun t => _ ← kylin_thread_stop os t; mret None) s2 H).
  unfold on_thread_rb. by rewrite Hg, destroy_null.
Qed.

Definition sample_calls : list thread_call := [Create sample_name 1 NULL 0; Create sample_name 2 NULL 0].
Definition sample_init : thst := mk_thst None [] sample_mem None.
Definition sample_end : thst :=
  after (run_all (run_call sample_nested sample_os) sample_calls) (after kylin_thread_init sample_init).

Lemma threads_never_listed_witness :
  kylin_thread_find_by_name 1 sample_name sample_end = Ok (NULL, sample_end) /\
  kylin_thread_fini sample_nested sample_os 1 sample_end = Ub.
Proof.
  destruct (threads_never_listed sample_nested sample_os 0 sample_calls sample_init
    (after kylin_thread_init sample_init) sample_end [tt; tt] sample_name) as (_ & H1 & H2);
    [vm_compute; reflexivity..|by split].
Defined.

(** ** Removal

    The value [kylin_rb_unlink] gave back is taken for a node: what
    [kylin_thread_unlink] returns are eight characters of the thread's name,
    NULL for a name of less than 17, so that [kylin_thread_destroy] leaves the
    thread neither terminated nor joined nor freed. *)
Lemma thread_unlink_reads_name t s s1 v s2 g : on_thread_rb (kylin_rb_unlink t) s = Ok (PObj t, s1) -> t <> NULL ->
  thread_rb s1 = Some g -> object_tree (opts g) -> on_mem (get_field (T_NAME + 16, 8) t) s1 = Ok (v, s2) ->
  kylin_thread_unlink t s = Ok (v, s1).
Proof.
  intros E Ht Hg Ho Ev. unfold kylin_thread_unlink. run E. cbn [vptr_addr]. rewrite (proj2 (Z.eqb_neq _ _) Ht). cbn [negb].
  assert (Er : on_thread_rb (kylin_rb_val t) s1 = Ok (PObj v, s1)); [|by run Er].
  assert (Er' : on_mem (read_word t VAL) (Rb.mk_st g (thmem s1) (therrno s1)) = Ok (v, Rb.mk_st g (thmem s1) (therrno s1))).
  { unfold on_mem in *. cbn [mem_of st_mem thst_mem omem] in *. unfold get_field, load_at in Ev. unfold read_word.
    unfold mbind at 1, M_bind in Ev. destruct (blocks (thmem s1) !! t) as [bs|]; [|done].
    change (8 * Z.of_nat VAL) with 32. change (T_NAME + 16, 8).1 with 32 in Ev. change (T_NAME + 16, 8).2 with 8 in Ev.
    destruct (read_bytes bs 32 8); [|done..]. cbn in Ev |- *. by injection Ev as <- _. }
  unfold on_thread_rb. rewrite Hg. unfold kylin_rb_val, get_ptr.
  run (eq_refl : get_guard (Rb.mk_st g (thmem s1) (therrno s1)) = Ok (g, _)). run Er'. rewrite (ot_type _ Ho).
  unfold mret, M_ret. cbn [kmath_val_get guard omem]. rewrite <- Hg. by destruct s1.
Qed.
