(* ===== verification/Log.v ===== *)
(** * Logging ([lib/core/log])

    A log object is a number and a table of four loggers, one per type
    ([kylin_log.c]); the objects are in a tree ordered by their numbers
    ([kylin_log_obj.c]).  A message is copied into the ring of every type whose
    logger admits its level, and a thread takes the messages out and prints
    them ([kylin_log_buf.c]).

    Objects and messages are in the heap; a local variable whose address is
    taken is an object above 2^63 for the time of the call.  The time, the text
    [vsnprintf] makes and the constructors and destructors of the loggers are
    arguments; the calls of the print functions are recorded in the state.  The
    processing thread is a function that does one of its rounds. *)

From S2P Require Import Prelude Errors Bytes Mem MathVal Ring Rb.

Definition KYLIN_LOG_DATA_SIZE : nat := 2048.
Definition KYLIN_LOG_MAX : nat := 4.

Inductive klog_type_t := KYLIN_LOG_CONSOLE | KYLIN_LOG_FILE | KYLIN_LOG_SYSTEM | KYLIN_LOG_UNIX_SOCK.
Definition type_code (t : klog_type_t) : Z :=
  match t with KYLIN_LOG_CONSOLE => 0 | KYLIN_LOG_FILE => 1 | KYLIN_LOG_SYSTEM => 2 | KYLIN_LOG_UNIX_SOCK => 3 end.

Inductive klog_level_t :=
| KYLIN_LOG_EMERG | KYLIN_LOG_ALERT | KYLIN_LOG_CRIT | KYLIN_LOG_ERROR
| KYLIN_LOG_WARN | KYLIN_LOG_NOTICE | KYLIN_LOG_INFO | KYLIN_LOG_DEBUG.
Definition level_code (l : klog_level_t) : Z :=
  match l with
  | KYLIN_LOG_EMERG => 0 | KYLIN_LOG_ALERT => 1 | KYLIN_LOG_CRIT => 2 | KYLIN_LOG_ERROR => 3
  | KYLIN_LOG_WARN => 4 | KYLIN_LOG_NOTICE => 5 | KYLIN_LOG_INFO => 6 | KYLIN_LOG_DEBUG => 7
  end.

(** A call of a print function. *)
Record print_call := mk_print { p_fun : Z; p_time : Z; p_level : Z; p_text : list Z }.

Record lst := mk_lst {
  log_id : Z;
  obj_rb : option krb_t;
  log_ring : list (option kring_t);
  need_log : list bool;
  printed : list print_call;
  lmem : mem;
  lerrno : option kerr_t;
}.

#[export] Instance lst_mem : HasMem lst.
Proof.
  refine {| mem_of := lmem;
            with_mem s m := mk_lst (log_id s) (obj_rb s) (log_ring s) (need_log s) (printed s) m (lerrno s) |};
    by intros [].
Defined.

Definition lift {A} (o : outcome A) : M lst A := fun s =>
  match o with Ok a => Ok (a, s) | Ub => Ub | OutOfFuel => OutOfFuel end.

(** ** Structures

    [klog_logger_t], 40 bytes; [klog_t], 168: the number and the loggers;
    [klog_buffer_t], 2072. *)
Definition L_TYPE : field := (0, 4).
Definition L_LEVEL : field := (4, 4).
Definition L_PRINT : field := (8, 8).
Definition L_PRIV : field := (16, 8).
Definition L_CTOR : field := (24, 8).
Definition L_DTOR : field := (32, 8).
Definition sizeof_logger : Z := 40.
Definition LOG_ID : field := (0, 4).
Definition sizeof_log : Z := 168.
(** [&obj->logger[i]]: an object and a distance in it. *)
Definition lptr : Type := (Z * Z)%type.
Definition logger_at (obj i : Z) : lptr := (obj, 8 + sizeof_logger * i).
Definition B_ID : field := (0, 4).
Definition B_TIME : field := (8, 8).
Definition B_LEVEL : field := (16, 4).
Definition sizeof_buffer : Z := 2072.

Definition lget (f : field) (l : lptr) : M lst Z := on_mem (get_field (l.2 + f.1, f.2) l.1).
Definition lput (f : field) (l : lptr) (v : Z) : M lst unit := on_mem (put_field (l.2 + f.1, f.2) l.1 v).

(** The addresses of the local variables. *)
Definition STACK_CMP : Z := 2 ^ 63.
Definition STACK_BUF : Z := 2 ^ 63 + 4096.

(** ** The objects ([kylin_log_obj.c]) *)
Definition __obj_compare (m : mem) (c1 c2 : Z) : Z :=
  match get_field LOG_ID c1 m, get_field LOG_ID c2 m with
  | Ok (i1, _), Ok (i2, _) => if i2 <? i1 then 1 else if i1 <? i2 then -1 else 0
  | _, _ => 0
  end.

Definition log_obj_opts : krb_opts_t :=
  mk_krb_opts KOBJ_OTHERS sizeof_log __obj_compare None None None None (0, 0, 0, 0).

Definition on_obj_rb {A} (f : M Rb.st A) : M lst A := fun s =>
  match obj_rb s with
  | Some g =>
      match f (Rb.mk_st g (lmem s) (lerrno s)) with
      | Ok (x, r) =>
          Ok (x, mk_lst (log_id s) (Some (guard r)) (log_ring s) (need_log s) (printed s) (omem r) (kerrno r))
      | Ub => Ub
      | OutOfFuel => OutOfFuel
      end
  | None => Ub
  end.

Definition vptr_addr (v : vptr Z) : Z := match v with PObj a => a | PSlot _ => NULL end.

(** [klog_t cmp], zeroed but for the number. *)
Definition cmp_bytes (id : Z) : list Z := le_bytes 4 id ++ replicate 164 0.

Section Log.
Context (nested : nested_dtors) (call_ctor call_dtor : Z -> Z -> M lst kerr_t).

Definition object_insert (obj : Z) : M lst kerr_t :=
  v ← on_obj_rb (kylin_rb_insert nested obj);
  if vptr_addr v =? NULL then mret KYLIN_ERROR_NOMEM else mret KYLIN_ERROR_OK.

Definition object_find (id : Z) : M lst Z :=
  local STACK_CMP (cmp_bytes id) (v ← on_obj_rb (kylin_rb_find STACK_CMP); mret (vptr_addr v)).

Definition object_remove (id : Z) : M lst kerr_t :=
  local STACK_CMP (cmp_bytes id)
    (v ← on_obj_rb (kylin_rb_find STACK_CMP);
     let obj := vptr_addr v in
     if obj =? NULL then mret KYLIN_ERROR_NOENT
     else _ ← on_obj_rb (kylin_rb_remove nested obj); mret KYLIN_ERROR_OK).

Definition object_init : M lst kerr_t := fun s =>
  let '(g, m, e) := kylin_rb_create log_obj_opts (lmem s) in
  Ok (match g with Some _ => KYLIN_ERROR_OK | None => KYLIN_ERROR_NOMEM end,
      mk_lst (log_id s) g (log_ring s) (need_log s) (printed s) m
        (match e with Some e => Some e | None => lerrno s end)).

Definition object_fini : M lst unit := fun s =>
  match obj_rb s with Some _ => on_obj_rb (kylin_rb_destroy nested) s | None => Ok (tt, s) end.

(** ** The buffers ([kylin_log_buf.c]) *)
Definition log_ring_opts : kring_opts_t :=
  mk_kring_opts 1024 KOBJ_OTHERS sizeof_buffer (Some kylin_malloc) None.

Definition set_ring (i : nat) (r : option kring_t) : M lst unit := fun s =>
  l ← wr (log_ring s) i r;
  Ok (tt, mk_lst (log_id s) (obj_rb s) l (need_log s) (printed s) (lmem s) (lerrno s)).
Definition set_need (i : nat) (b : bool) : M lst unit := fun s =>
  l ← wr (need_log s) i b;
  Ok (tt, mk_lst (log_id s) (obj_rb s) (log_ring s) l (printed s) (lmem s) (lerrno s)).

Definition get_need (i : nat) : M lst bool := fun s => b ← rd (need_log s) i; Ok (b, s).

Definition on_ring (i : nat) (f : kring_t -> mem -> outcome (ring_pc * kring_t * mem)) : M lst ring_pc := fun s =>
  match rd (log_ring s) i with
  | Ok (Some r) =>
      '(pc, r, m) ← f r (lmem s);
      l ← wr (log_ring s) i (Some r);
      Ok (pc, mk_lst (log_id s) (obj_rb s) l (need_log s) (printed s) m (lerrno s))
  | _ => Ub
  end.

(** One turn of the loop of [buffer_enqueue]. *)
Definition enqueue_type (obj buf : Z) (i : nat) : M lst unit :=
  let l := logger_at obj (Z.of_nat i) in
  type ← lget L_TYPE l;
  skip ← (if negb (type =? Z.of_nat i) then mret true
          else level ← on_mem (get_field B_LEVEL buf); max ← lget L_LEVEL l; mret (max <? level));
  if skip : bool then mret tt
  else _ ← on_ring i (fun r => kylin_ring_enqueue r buf); set_need i true.

Fixpoint enqueue_types (obj buf : Z) (l : list nat) : M lst unit :=
  match l with [] => mret tt | i :: l => _ ← enqueue_type obj buf i; enqueue_types obj buf l end.

Definition buffer_enqueue (buf : Z) : M lst kerr_t :=
  id ← on_mem (get_field B_ID buf);
  obj ← object_find id;
  if obj =? NULL then mret KYLIN_ERROR_NOENT
  else _ ← enqueue_types obj buf (seq 0 KYLIN_LOG_MAX); mret KYLIN_ERROR_OK.

(** The characters of the message up to its end. *)
Fixpoint c_string (s : list Z) : list Z :=
  match s with [] => [] | c :: s => if c =? 0 then [] else c :: c_string s end.
Definition record_print (p : print_call) : M lst unit := fun s =>
  Ok (tt, mk_lst (log_id s) (obj_rb s) (log_ring s) (need_log s) (printed s ++ [p]) (lmem s) (lerrno s)).
Definition print (fn buf : Z) : M lst unit :=
  time ← on_mem (get_field B_TIME buf);
  level ← on_mem (get_field B_LEVEL buf);
  data ← on_mem (load_at buf 20 (Z.of_nat KYLIN_LOG_DATA_SIZE));
  record_print (mk_print fn time level (c_string data)).

Definition dequeued (pc : ring_pc) : Z := match pc with DDone v => vptr_addr v | _ => NULL end.

Definition ring_peek (i : nat) : M lst Z := fun s =>
  match rd (log_ring s) i with
  | Ok (Some r) => v ← kylin_ring_peek r; Ok (vptr_addr v, s)
  | _ => Ub
  end.

Definition __buffer_dequeue (type : nat) : M lst unit :=
  pc ← on_ring type (fun r => kylin_ring_dequeue r);
  let buf := dequeued pc in
  if buf =? NULL then set_need type false else
  id ← on_mem (get_field B_ID buf);
  obj ← object_find id;
  if obj =? NULL then on_mem (kylin_free buf) else
  fn ← lget L_PRINT (logger_at obj (Z.of_nat type));
  _ ← (if negb (fn =? NULL) then print fn buf else mret tt);
  _ ← on_mem (kylin_free buf);
  next ← ring_peek type;
  if next =? NULL then set_need type false else mret tt.

(** One round of [__buffer_process]: whether anything was to be done. *)
Fixpoint process_types (l : list nat) (need_sleep : bool) : M lst bool :=
  match l with
  | [] => mret need_sleep
  | i :: l =>
      need ← get_need i;
      if need : bool then _ ← __buffer_dequeue i; process_types l false else process_types l need_sleep
  end.
Definition __buffer_process : M lst bool := process_types (seq 0 KYLIN_LOG_MAX) true.

(** A ring is one block of 80 bytes and 1024 slots. *)
Definition ring_create : M lst (option kring_t) := fun s =>
  let '(a, m) := alloc_addr (80 + 8 * 1024) (lmem s) in
  let r := match kylin_ring_create (match a with Some _ => true | None => false end) (replicate 1024 0) log_ring_opts with
           | inl _ => None | inr r => Some r end in
  Ok (r, with_mem s m).

Fixpoint init_rings (l : list nat) : M lst kerr_t :=
  match l with
  | [] => mret KYLIN_ERROR_OK
  | i :: l =>
      r ← ring_create; _ ← set_ring i r;
      match r with None => mret KYLIN_ERROR_NOMEM | Some _ => init_rings l end
  end.
(** [created] is what [pthread_create] returns. *)
Definition buffer_init (created : kerr_t) : M lst kerr_t :=
  ret ← init_rings (seq 0 KYLIN_LOG_MAX);
  if decide (ret = KYLIN_ERROR_OK) then mret created else mret ret.

(** The thread: its loop has no exit. *)
Fixpoint process_loop (fuel : nat) : M lst unit :=
  match fuel with O => out_of_fuel | S fuel => _ ← __buffer_process; process_loop fuel end.

(** [pthread_join] returns when the thread does. *)
Definition ring_destroy (i : nat) : M lst unit := fun s =>
  match rd (log_ring s) i with
  | Ok (Some r) =>
      match kylin_ring_destroy 1024 r (lmem s) with
      | Ok (_, m) => Ok (tt, with_mem s m) | Ub => Ub | OutOfFuel => OutOfFuel
      end
  | _ => Ub
  end.
Fixpoint destroy_rings (l : list nat) : M lst unit :=
  match l with [] => mret tt | i :: l => _ ← ring_destroy i; destroy_rings l end.
Definition buffer_fini (fuel : nat) : M lst unit := _ ← process_loop fuel; destroy_rings (seq 0 KYLIN_LOG_MAX).

(** ** The interface ([kylin_log.c]) *)
Definition next_id : M lst Z := fun s =>
  let id := u32 (log_id s + 1) in
  Ok (id, mk_lst id (obj_rb s) (log_ring s) (need_log s) (printed s) (lmem s) (lerrno s)).

(** A call through a pointer that is not NULL. *)
Definition ctor_of (l : lptr) : M lst kerr_t :=
  f ← lget L_CTOR l;
  if negb (f =? NULL) then p ← lget L_PRIV l; call_ctor f p else mret KYLIN_ERROR_OK.
Definition dtor_of (l : lptr) : M lst unit :=
  f ← lget L_DTOR l;
  if negb (f =? NULL) then p ← lget L_PRIV l; _ ← call_dtor f p; mret tt else mret tt.

Definition logger_invalid (logger : lptr) (type_bad : Z -> bool) : M lst bool :=
  type ← lget L_TYPE logger;
  if type_bad type then mret true else
  level ← lget L_LEVEL logger;
  if 7 <? level then mret true else
  fn ← lget L_PRINT logger; mret (fn =? NULL).

Definition kylin_log_expand (obj : Z) (logger : lptr) : M lst kerr_t :=
  bad ← logger_invalid logger (fun type => 4 <=? type);
  if bad : bool then mret KYLIN_ERROR_INVAL else
  type ← lget L_TYPE logger;
  old ← lget L_TYPE (logger_at obj type);
  if old =? type then mret KYLIN_ERROR_EXIST else
  bs ← on_mem (load_at logger.1 logger.2 sizeof_logger);
  _ ← on_mem (store_at obj (logger_at obj type).2 bs);
  ctor_of logger.

Fixpoint init_table (obj : Z) (l : list nat) : M lst unit :=
  match l with
  | [] => mret tt
  | i :: l => _ ← lput L_TYPE (logger_at obj (Z.of_nat i)) (Z.of_nat KYLIN_LOG_MAX); init_table obj l
  end.

Fixpoint expand_all (obj loggers : Z) (l : list nat) : M lst unit :=
  match l with
  | [] => mret tt
  | i :: l => _ ← kylin_log_expand obj (loggers, sizeof_logger * Z.of_nat i); expand_all obj loggers l
  end.

Definition kylin_log_create (loggers : Z) (num : nat) : M lst Z :=
  obj ← on_mem (kylin_malloc sizeof_log);
  if obj =? NULL then mret NULL else
  _ ← init_table obj (seq 0 KYLIN_LOG_MAX);
  id ← next_id;
  _ ← on_mem (put_field LOG_ID obj id);
  e ← object_insert obj;
  if negb (bool_decide (e = KYLIN_ERROR_OK)) then mret NULL else
  _ ← expand_all obj loggers (seq 0 num);
  mret obj.

Fixpoint destroy_table (obj : Z) (l : list nat) : M lst unit :=
  match l with
  | [] => mret tt
  | i :: l =>
      type ← lget L_TYPE (logger_at obj (Z.of_nat i));
      _ ← (if type =? Z.of_nat KYLIN_LOG_MAX then mret tt else dtor_of (logger_at obj (Z.of_nat i)));
      destroy_table obj l
  end.
Definition kylin_log_destroy (obj : Z) : M lst unit :=
  _ ← destroy_table obj (seq 0 KYLIN_LOG_MAX);
  id ← on_mem (get_field LOG_ID obj);
  _ ← object_remove id; mret tt.

Fixpoint construct_table (obj : Z) (l : list nat) : M lst unit :=
  match l with
  | [] => mret tt
  | i :: l => _ ← ctor_of (logger_at obj (Z.of_nat i)); construct_table obj l
  end.

(** [dup] is NULL all along; four bytes of the table are copied. *)
Definition kylin_log_dup (obj : Z) : M lst Z :=
  let dup := NULL in
  id ← next_id;
  _ ← on_mem (put_field LOG_ID dup id);
  bs ← on_mem (load_at obj 8 (Z.of_nat KYLIN_LOG_MAX));
  _ ← on_mem (store_at dup 8 bs);
  e ← object_insert dup;
  if negb (bool_decide (e = KYLIN_ERROR_OK)) then mret NULL else
  _ ← construct_table obj (seq 0 KYLIN_LOG_MAX);
  mret dup.

(** [memset(&obj->logger[type], 0, ...)] *)
Definition kylin_log_reduce (obj type : Z) : M lst kerr_t :=
  let l := logger_at obj type in
  t ← lget L_TYPE l;
  if t =? Z.of_nat KYLIN_LOG_MAX then mret KYLIN_ERROR_NOENT else
  _ ← dtor_of l;
  _ ← on_mem (store_at l.1 l.2 (replicate 40 0));
  _ ← lput L_TYPE l (Z.of_nat KYLIN_LOG_MAX);
  mret KYLIN_ERROR_OK.

Definition kylin_log_logger_get (obj type : Z) : lptr := logger_at obj type.
Definition kylin_log_level_get (obj type : Z) : M lst Z := lget L_LEVEL (logger_at obj type).

Definition kylin_log_logger_set (obj type : Z) (logger : lptr) : M lst kerr_t :=
  bad ← logger_invalid logger (fun t => t =? Z.of_nat KYLIN_LOG_MAX);
  if bad : bool then mret KYLIN_ERROR_INVAL else
  _ ← kylin_log_reduce obj type;
  kylin_log_expand obj logger.

Definition kylin_log_level_set (obj type level : Z) : M lst kerr_t :=
  let l := logger_at obj type in
  t ← lget L_TYPE l;
  if t =? Z.of_nat KYLIN_LOG_MAX then mret KYLIN_ERROR_INVAL
  else _ ← lput L_LEVEL l level; mret KYLIN_ERROR_OK.

(** [KYLIN_LOG_LEVEL]: the text is cut after 2047 characters. *)
Definition buffer_bytes (id time level : Z) (text : list Z) : list Z :=
  le_bytes 4 id ++ replicate 4 0 ++ le_bytes 8 time ++ le_bytes 4 level ++
  take (KYLIN_LOG_DATA_SIZE - 1) text ++
  replicate (KYLIN_LOG_DATA_SIZE - length (take (KYLIN_LOG_DATA_SIZE - 1) text)) 0 ++ replicate 4 0.

Definition log_level (level : klog_level_t) (obj time : Z) (text : list Z) : M lst unit :=
  id ← on_mem (get_field LOG_ID obj);
  local STACK_BUF (buffer_bytes id time (level_code level) text) (_ ← buffer_enqueue STACK_BUF; mret tt).

Definition kylin_log_debug := log_level KYLIN_LOG_DEBUG.
Definition kylin_log_info := log_level KYLIN_LOG_INFO.
Definition kylin_log_notice := log_level KYLIN_LOG_NOTICE.
Definition kylin_log_warn := log_level KYLIN_LOG_WARN.
Definition kylin_log_error := log_level KYLIN_LOG_ERROR.
Definition kylin_log_crit := log_level KYLIN_LOG_CRIT.
Definition kylin_log_alert := log_level KYLIN_LOG_ALERT.

(** [klog] is the last value; [default_logger] is in the heap. *)
Definition kylin_log_init (created : kerr_t) (default_logger : Z) : M lst (kerr_t * Z) :=
  ret ← object_init;
  if negb (bool_decide (ret = KYLIN_ERROR_OK)) then mret (ret, NULL) else
  ret ← buffer_init created;
  if negb (bool_decide (ret = KYLIN_ERROR_OK)) then mret (ret, NULL) else
  klog ← kylin_log_create default_logger 3;
  if klog =? NULL then mret (KYLIN_ERROR_NOMEM, NULL) else mret (ret, klog).

Definition kylin_log_fini (fuel : nat) (klog : Z) : M lst unit :=
  _ ← kylin_log_destroy klog; _ ← object_fini; buffer_fini fuel.
End Log.
