(* ===== verification/LogPrint.v ===== *)
(** * The three printers of the log ([lib/core/log/plugin])

    Where messages go: the console ([kylin_log_console.c]), a file
    ([kylin_log_file.c]) and the system's log ([kylin_log_system.c]), with the
    loggers a process has from the start ([default_logger] of [kylin_log.c]).
    The state is the static variables of the three files and the history of the
    calls; the descriptor [open] gives is an argument, as is whether [write]
    takes everything (nothing looks at what it returns). *)

From S2P Require Import Prelude Errors Bytes Dump Log.

(** "LOG_EMERG" to "LOG_DEBUG", and "LOG_UNKNOWN" for any other number. *)
Definition kylin_log_level_string (level : Z) : list Z :=
  [76; 79; 71; 95] ++
  match level with
  | 0 => [69; 77; 69; 82; 71]
  | 1 => [65; 76; 69; 82; 84]
  | 2 => [67; 82; 73; 84]
  | 3 => [69; 82; 82; 79; 82]
  | 4 => [87; 65; 82; 78]
  | 5 => [78; 79; 84; 73; 67; 69]
  | 6 => [73; 78; 70; 79]
  | 7 => [68; 69; 66; 85; 71]
  | _ => [85; 78; 75; 78; 79; 87; 78]
  end.

(** "%lu" and "%d" of a level, an [enum] whose values are not negative. *)
Definition lu_text (z : Z) : list Z := dec_digits 20 (u64 z).

Inductive print_syscall :=
| SysPrintf (text : list Z)
| SysOpen (path : option (list Z)) (flags mode : Z)
| SysClose (fd : Z)
| SysWrite (fd : Z) (bytes : list Z)
| SysOpenlog (ident : list Z) (options facility : Z)
| SysCloselog
| SysSyslog (priority : Z) (format : list Z) (arg : Z).

Record prst := mk_prst {
  log_fd : Z;
  file_buff : list Z;
  system_buff : list Z;
  calls : list print_syscall;
}.

Definition call (c : print_syscall) : M prst unit := fun s =>
  Ok (tt, mk_prst (log_fd s) (file_buff s) (system_buff s) (calls s ++ [c])).
Definition set_log_fd (fd : Z) : M prst unit := fun s => Ok (tt, mk_prst fd (file_buff s) (system_buff s) (calls s)).
Definition set_file_buff (bs : list Z) : M prst unit := fun s => Ok (tt, mk_prst (log_fd s) bs (system_buff s) (calls s)).
Definition lift {A} (o : outcome A) : M prst A := fun s =>
  match o with Ok a => Ok (a, s) | Ub => Ub | OutOfFuel => OutOfFuel end.

(** [O_CREAT | O_APPEND | O_WRONLY], 00644; [LOG_NDELAY], [LOG_USER]. *)
Definition OPEN_FLAGS : Z := Z.lor (Z.lor 0x40 0x400) 1.
Definition OPEN_MODE : Z := 0x1a4.
Definition LOG_NDELAY : Z := 8.
Definition LOG_USER : Z := 8.

(** ** The console *)
Definition log_console_init (arg : option (list Z)) : M prst kerr_t := mret KYLIN_ERROR_OK.
Definition log_console_fini (arg : option (list Z)) : M prst kerr_t := mret KYLIN_ERROR_OK.
(** "%lu %d: %s\n" *)
Definition console_line (timestamp level : Z) (buf : list Z) : list Z :=
  lu_text timestamp ++ [32] ++ dec_text level ++ [58; 32] ++ buf ++ [10].
Definition log_console_print (timestamp level : Z) (buf : list Z) : M prst unit :=
  call (SysPrintf (console_line timestamp level buf)).

(** ** The file *)
Section File.
(** The descriptor of a file that is opened, by the calls before. *)
Context (opened : list print_syscall -> option (list Z) -> Z).

Definition log_file_init (arg : option (list Z)) : M prst kerr_t :=
  s ← get_st;
  let fd := opened (calls s) arg in
  _ ← call (SysOpen arg OPEN_FLAGS OPEN_MODE);
  _ ← set_log_fd fd;
  if fd =? -1 then mret KYLIN_ERROR_NOENT else
  _ ← set_file_buff (replicate KYLIN_LOG_DATA_SIZE 0);
  mret KYLIN_ERROR_OK.
End File.

Definition log_file_fini (arg : option (list Z)) : M prst kerr_t :=
  s ← get_st;
  _ ← (if 0 <? log_fd s then call (SysClose (log_fd s)) else mret tt);
  mret KYLIN_ERROR_OK.

(** "%lu\t%s\t: %s\n" *)
Definition file_line (timestamp level : Z) (buf : list Z) : list Z :=
  lu_text timestamp ++ [9] ++ kylin_log_level_string level ++ [9; 58; 32] ++ buf ++ [10].
(** [snprintf] into the buffer, of which the last byte is left out. *)
Definition print_line (timestamp level : Z) (buf : list Z) : M prst unit :=
  s ← get_st;
  l ← lift (write_bytes (file_buff s) 0 (take (KYLIN_LOG_DATA_SIZE - 2) (file_line timestamp level buf) ++ [0]));
  set_file_buff l.
Definition log_file_print (timestamp level : Z) (buf : list Z) : M prst unit :=
  _ ← print_line timestamp level buf;
  s ← get_st;
  if 0 <? log_fd s then t ← lift (string_at (file_buff s)); call (SysWrite (log_fd s) t) else mret tt.

(** ** The system's log *)
Definition log_system_init (arg : option (list Z)) : M prst kerr_t :=
  s ← get_st;
  ident ← lift (string_at (system_buff s));
  _ ← call (SysOpenlog ident LOG_NDELAY LOG_USER);
  mret KYLIN_ERROR_OK.
Definition log_system_fini (arg : option (list Z)) : M prst kerr_t := _ ← call SysCloselog; mret KYLIN_ERROR_OK.
(** The text of the message is the format. *)
Definition log_system_print (timestamp level : Z) (buf : list Z) : M prst unit :=
  call (SysSyslog (Z.lor level LOG_USER) buf (Z.of_nat (length buf))).

(** ** The loggers of a process *)
Record logger := mk_logger {
  lg_type : klog_type_t;
  lg_level : klog_level_t;
  lg_print : Z -> Z -> list Z -> M prst unit;
  lg_priv : option (list Z);
  lg_ctor : option (list Z) -> M prst kerr_t;
  lg_dtor : option (list Z) -> M prst kerr_t;
}.
Definition default_logger (opened : list print_syscall -> option (list Z) -> Z) : list logger :=
  [mk_logger KYLIN_LOG_CONSOLE KYLIN_LOG_INFO log_console_print None log_console_init log_console_fini;
   mk_logger KYLIN_LOG_FILE KYLIN_LOG_INFO log_file_print None (log_file_init opened) log_file_fini;
   mk_logger KYLIN_LOG_SYSTEM KYLIN_LOG_INFO log_system_print None log_system_init log_system_fini].
(** What [kylin_log_create] makes of an array of loggers, whatever the
    constructors return. *)
Fixpoint construct (ls : list logger) : M prst unit :=
  match ls with [] => mret tt | l :: ls => _ ← lg_ctor l (lg_priv l); construct ls end.
(** A message with the loggers that are to print it. *)
Record message := mk_message { m_time : Z; m_level : Z; m_text : list Z }.
Fixpoint print_all (print : Z -> Z -> list Z -> M prst unit) (ms : list message) : M prst unit :=
  match ms with [] => mret tt | m :: ms => _ ← print (m_time m) (m_level m) (m_text m); print_all print ms end.

(** ** What is printed *)
Lemma dec_digits_nonzero fuel z : 0 <= z -> Forall (fun c => c <> 0) (dec_digits fuel z).
Proof.
  revert z. induction fuel as [|fuel IH]; intros z Hz; [done|]. cbn [dec_digits]. apply Forall_app. split.
  - case_match; [done|]. apply IH, Z.div_pos; lia.
  - constructor; [|done]. pose proof (Z.mod_pos_bound z 10). lia.
Qed.

Lemma file_line_nonzero t l buf : Forall (fun c => c <> 0) buf -> Forall (fun c => c <> 0) (file_line t l buf).
Proof.
  intros Hb. unfold file_line. rewrite !Forall_app. split_and!; try done.
  - apply dec_digits_nonzero. unfold u64, uw. apply Z.mod_pos_bound. lia.
  - by repeat constructor.
  - unfold kylin_log_level_string. apply Forall_app. split; [by repeat constructor|]. repeat case_match; by repeat constructor.
  - by repeat constructor.
  - by repeat constructor.
Qed.

(** What a message leaves in the file: at most 2046 characters, so that the end
    of the line is lost with a longer one. *)
Definition written (m : message) : list Z := take (KYLIN_LOG_DATA_SIZE - 2) (file_line (m_time m) (m_level m) (m_text m)).

Lemma print_line_eq m s : length (file_buff s) = KYLIN_LOG_DATA_SIZE -> Forall (fun c => c <> 0) (m_text m) ->
  exists rest, print_line (m_time m) (m_level m) (m_text m) s =
    Ok (tt, mk_prst (log_fd s) (written m ++ 0 :: rest) (system_buff s) (calls s)) /\
    length (written m ++ 0 :: rest) = KYLIN_LOG_DATA_SIZE.
Proof.
  intros Hl Ht. unfold print_line. run (eq_refl : get_st s = Ok (s, s)). fold (written m).
  assert (Hw : (length (written m) <= KYLIN_LOG_DATA_SIZE - 2)%nat) by (unfold written; rewrite length_take; lia).
  unfold KYLIN_LOG_DATA_SIZE in *.
  assert (E : lift (write_bytes (file_buff s) 0 (written m ++ [0])) s =
              Ok (splice (file_buff s) 0 (written m ++ [0]), s)).
  { unfold lift. by rewrite write_bytes_ok by (rewrite ?length_app; simpl; lia). }
  run E. unfold splice. cbn [take]. exists (drop (length (written m ++ [0])) (file_buff s)).
  unfold set_file_buff. rewrite <- app_assoc. cbn [app]. split; [done|].
  rewrite length_app. cbn [length]. rewrite length_drop, length_app. simpl. lia.
Qed.

Lemma log_file_print_eq m s : length (file_buff s) = KYLIN_LOG_DATA_SIZE -> Forall (fun c => c <> 0) (m_text m) ->
  exists buff, length buff = KYLIN_LOG_DATA_SIZE /\
    log_file_print (m_time m) (m_level m) (m_text m) s =
    Ok (tt, mk_prst (log_fd s) buff (system_buff s)
              (calls s ++ if 0 <? log_fd s then [SysWrite (log_fd s) (written m)] else [])).
Proof.
  intros Hl Ht. destruct (print_line_eq m s Hl Ht) as (rest & E & Hr). eexists. split; [exact Hr|].
  unfold log_file_print. run E. set (s1 := mk_prst _ _ _ _). run (eq_refl : get_st s1 = Ok (s1, s1)).
  cbn [log_fd s1]. case_match; [|by rewrite app_nil_r].
  assert (Es : lift (string_at (file_buff s1)) s1 = Ok (written m, s1)).
  { unfold lift. cbn [file_buff s1]. rewrite dump_text_ok; [done|]. by apply Forall_take, file_line_nonzero. }
  run Es. done.
Qed.

Lemma print_all_file ms s : length (file_buff s) = KYLIN_LOG_DATA_SIZE ->
  Forall (fun m => Forall (fun c => c <> 0) (m_text m)) ms ->
  exists buff, print_all log_file_print ms s =
    Ok (tt, mk_prst (log_fd s) buff (system_buff s)
              (calls s ++ if 0 <? log_fd s then map (fun m => SysWrite (log_fd s) (written m)) ms else [])).
Proof.
  revert s. induction ms as [|m ms IH]; intros [fd fb sb cs] Hl Hm.
  - exists fb. cbn. by case_match; rewrite app_nil_r.
  - apply Forall_cons in Hm as [Hm Hms]. cbn [print_all].
    destruct (log_file_print_eq m _ Hl Hm) as (buff & Hb & E). run E. cbn [log_fd system_buff calls] in *.
    destruct (IH (mk_prst fd buff sb (cs ++ if 0 <? fd then [SysWrite fd (written m)] else [])) Hb Hms) as (b' & E').
    exists b'. rewrite E'. cbn [log_fd system_buff calls map]. by case_match; rewrite ?app_nil_r, <- ?app_assoc.
Qed.

(** C37. A logger of a file writes a line of every message, in order and each with
    one call: the time, the name of the level and the text, of which what is
    behind the 2046th character is cut off, the end of the line with it. *)
Theorem file_logger_writes_lines opened path ms s fd :
  opened (calls s) (Some path) = fd -> 0 < fd -> Forall (fun m => Forall (fun c => c <> 0) (m_text m)) ms ->
  exists s', (_ ← log_file_init opened (Some path); print_all log_file_print ms) s = Ok (tt, s') /\
    calls s' = calls s ++ SysOpen (Some path) OPEN_FLAGS OPEN_MODE :: map (fun m => SysWrite fd (written m)) ms.
Proof.
  intros Ho Hf Hm.
  assert (E : log_file_init opened (Some path) s =
    Ok (KYLIN_ERROR_OK, mk_prst fd (replicate KYLIN_LOG_DATA_SIZE 0) (system_buff s)
                          (calls s ++ [SysOpen (Some path) OPEN_FLAGS OPEN_MODE]))).
  { unfold log_file_init. run (eq_refl : get_st s = Ok (s, s)). rewrite Ho. cbv zeta.
    unfold mbind, M_bind, call, set_log_fd, set_file_buff. cbn [outcome_bind].
    rewrite (proj2 (Z.eqb_neq fd (-1))) by lia. done. }
  run E. set (s1 := mk_prst fd _ _ _).
  destruct (print_all_file ms s1) as (b & E'); [apply (length_replicate KYLIN_LOG_DATA_SIZE 0)|done|].
  exists (mk_prst fd b (system_buff s) (calls s ++ SysOpen (Some path) OPEN_FLAGS OPEN_MODE :: map (fun m => SysWrite fd (written m)) ms)).
  split; [|done]. rewrite E'. cbn [log_fd system_buff calls s1]. rewrite (proj2 (Z.ltb_lt 0 fd)) by lia. by rewrite <- app_assoc.
Qed.

Lemma file_logger_writes_lines_witness :
  exists s', (_ ← log_file_init (fun _ _ => 3) (Some [47; 108]); print_all log_file_print [mk_message 12 3 [104; 105]])
    (mk_prst (-1) (replicate KYLIN_LOG_DATA_SIZE 0) [0] []) = Ok (tt, s') /\
    calls s' = [SysOpen (Some [47; 108]) OPEN_FLAGS OPEN_MODE;
                SysWrite 3 [49; 50; 9; 76; 79; 71; 95; 69; 82; 82; 79; 82; 9; 58; 32; 104; 105; 10]].
Proof.
  apply (file_logger_writes_lines (fun _ _ => 3) [47; 108] [mk_message 12 3 [104; 105]]
    (mk_prst (-1) (replicate KYLIN_LOG_DATA_SIZE 0) [0] []) 3); [done|lia|].
  by repeat constructor.
Defined.

(** The logger of a file that every process has from the start writes
    nothing: it has no path, so that [open] fails, and neither the constructor's
    error nor the descriptor -1 has another effect. *)
Theorem default_file_logger_silent opened ms s sb :
  (forall h, opened h None = -1) -> system_buff s = 0 :: sb -> length (file_buff s) = KYLIN_LOG_DATA_SIZE ->
  Forall (fun m => Forall (fun c => c <> 0) (m_text m)) ms ->
  exists s1 s2, construct (default_logger opened) s = Ok (tt, s1) /\ print_all log_file_print ms s1 = Ok (tt, s2) /\
    calls s2 = calls s ++ [SysOpen None OPEN_FLAGS OPEN_MODE; SysOpenlog [] LOG_NDELAY LOG_USER].
Proof.
  intros Ho Hs Hl Hm. destruct s as [fd fb sy cs]. cbn in Hs. subst sy.
  set (s1 := mk_prst (-1) fb (0 :: sb) (cs ++ [SysOpen None OPEN_FLAGS OPEN_MODE; SysOpenlog [] LOG_NDELAY LOG_USER])).
  assert (E : construct (default_logger opened) (mk_prst fd fb (0 :: sb) cs) = Ok (tt, s1)).
  { unfold construct, default_logger. cbn [lg_ctor lg_priv]. unfold log_console_init, log_file_init, log_system_init.
    unfold mbind, M_bind, mret, M_ret, call, set_log_fd, set_file_buff, get_st, lift. cbn. rewrite Ho. cbn.
    unfold s1. by rewrite <- app_assoc. }
  destruct (print_all_file ms s1 Hl Hm) as (b & E'). eexists s1, _. split; [exact E|]. split; [exact E'|].
  cbn. by rewrite app_nil_r.
Qed.

Lemma default_file_logger_silent_witness :
  exists s1 s2, construct (default_logger (fun _ p => match p with None => -1 | _ => 3 end))
      (mk_prst (-1) (replicate KYLIN_LOG_DATA_SIZE 0) [0] []) = Ok (tt, s1) /\
    print_all log_file_print [mk_message 12 3 [104; 105]] s1 = Ok (tt, s2) /\
    calls s2 = [SysOpen None OPEN_FLAGS OPEN_MODE; SysOpenlog [] LOG_NDELAY LOG_USER].
Proof.
  apply (default_file_logger_silent _ _ (mk_prst (-1) (replicate KYLIN_LOG_DATA_SIZE 0) [0] []) []); try done.
  by repeat constructor.
Defined.

(** The system's log takes the text of a message for a format: "%s" in it makes
    it read the length of the text as an address. *)
Lemma system_log_format t s :
  log_system_print t 6 [37; 115] s =
  Ok (tt, mk_prst (log_fd s) (file_buff s) (system_buff s) (calls s ++ [SysSyslog 14 [37; 115] 2])).
Proof. done. Qed.
