(* ===== verification/Event.v ===== *)
(** * Events ([lib/core/event])

    The table of event plug-ins ([kylin_event_plugin.c]), the event loops with
    their sets of events ([kylin_event.c]) and the back ends of Linux
    ([plugin/kylin_{select,poll,epoll}.c]).

    An event loop is an object of the heap, 64 bytes, and so are the events and
    the private data of the back ends; the sets are those of [KSet], in a map by
    their address.  A system call is answered by a function of the calls so far,
    and what it stores is one too.  The callbacks of an event loop and the
    functions of a plug-in somebody registers are arguments.  The constants are
    those of Linux. *)

From S2P Require Import Prelude Errors Bytes Mem MathVal KSet KList Plugin.

Definition KEVENT_TYPE_SELECT : Z := 0.
Definition KEVENT_TYPE_POLL : Z := 1.
Definition KEVENT_TYPE_EPOLL : Z := 2.
Definition KEVENT_TYPE_KQUEUE : Z := 3.
Definition KEVENT_TYPE_MAX : Z := 4.

Definition KEVENT_FLAG_READ : Z := 1.
Definition KEVENT_FLAG_WRITE : Z := 2.
Definition KEVENT_FLAG_ERROR : Z := 4.

(** [if(flags & bit)] *)
Definition has (flags bit : Z) : bool := negb (Z.land flags bit =? 0).

(** A function of a plug-in: one of a built-in back end, or of the caller. *)
Inductive impl := Select | Poll | Epoll | User (a : Z).

(** [None] is a NULL pointer. *)
Record kevent_reg_t := mk_reg {
  r_add : option impl; r_del : option impl; r_mod : option impl; r_proc : option impl;
  r_create : option impl; r_destroy : option impl; r_init : option impl; r_fini : option impl;
}.
Abbreviation kevent_plugin_t := (plugin kevent_reg_t).
Definition no_reg : kevent_reg_t := mk_reg None None None None None None None None.

(** ** The system *)
Inductive syscall :=
| SysSelect (nfds : Z) (rd wt ex : list Z) (sec : Z)
| SysPoll (fds : list (Z * Z)) (timeout : Z)
| SysEpollCreate (size : Z)
| SysEpollCtl (epfd op fd events : Z)
| SysEpollWait (epfd max timeout : Z)
| SysClose (fd : Z).

(** The value the last call of a history returns; the three sets [select]
    stores; the [revents] of [poll]; the events and descriptors of
    [epoll_wait]. *)
Record system := mk_system {
  answer : list syscall -> Z;
  selected : list syscall -> list Z * list Z * list Z;
  revents : list syscall -> list Z;
  ready : list syscall -> list (Z * Z);
}.

Record est := mk_est {
  eid : Z; elist : Z; eplugin : list kevent_plugin_t; eheap : KList.st; sets : gmap Z kset_t; ehist : list syscall;
}.

#[export] Instance est_mem : HasMem est.
Proof.
  refine {| mem_of s := omem (eheap s);
            with_mem s m := mk_est (eid s) (elist s) (eplugin s)
              (mk_st (guards (eheap s)) m (kerrno (eheap s))) (sets s) (ehist s) |};
    by intros [???[]].
Defined.

Definition on_heap {A} (f : M KList.st A) : M est A := fun s =>
  match f (eheap s) with
  | Ok (x, h) => Ok (x, mk_est (eid s) (elist s) (eplugin s) h (sets s) (ehist s))
  | Ub => Ub
  | OutOfFuel => OutOfFuel
  end.
Definition emem {A} (f : M mem A) : M est A := on_heap (on_mem f).

Definition plugin_at (type : Z) : M est kevent_plugin_t := fun s => p ← rd (eplugin s) (Z.to_nat type); Ok (p, s).
Definition set_plugin (type : Z) (p : kevent_plugin_t) : M est unit := fun s =>
  tab ← wr (eplugin s) (Z.to_nat type) p; Ok (tt, mk_est (eid s) (elist s) tab (eheap s) (sets s) (ehist s)).
Definition set_elist (g : Z) : M est unit := fun s =>
  Ok (tt, mk_est (eid s) g (eplugin s) (eheap s) (sets s) (ehist s)).
Definition get_elist : M est Z := fun s => Ok (elist s, s).
(** [eid++] *)
Definition next_eid : M est Z := fun s =>
  Ok (eid s, mk_est (u32 (eid s + 1)) (elist s) (eplugin s) (eheap s) (sets s) (ehist s)).

(** The set at an address. *)
Definition get_set (a : Z) : M est kset_t := fun s => match sets s !! a with Some g => Ok (g, s) | None => Ub end.
Definition put_set (a : Z) (g : kset_t) : M est unit := fun s =>
  Ok (tt, mk_est (eid s) (elist s) (eplugin s) (eheap s) (<[a := g]> (sets s)) (ehist s)).
Definition drop_set (a : Z) : M est unit := fun s =>
  Ok (tt, mk_est (eid s) (elist s) (eplugin s) (eheap s) (delete a (sets s)) (ehist s)).

(** ** Structures

    [kevent_t]: the number, the type, the 40 bytes of the options (the private
    pointer and four callbacks), the private data, the set.  [kevent_event_t]:
    a descriptor and its flags. *)
Definition E_ID : field := (0, 4).
Definition E_TYPE : field := (4, 4).
Definition E_OPTS : Z := 8.
Definition O_PRIV : field := (8, 8).
Definition O_RECV : field := (16, 8).
Definition O_SEND : field := (24, 8).
Definition O_ERROR : field := (32, 8).
Definition E_PRIV : field := (48, 8).
Definition E_EVENTS : field := (56, 8).
Definition sizeof_guard : Z := 64.
Definition sizeof_opts : Z := 40.

Definition EV_FD : field := (0, 4).
Definition EV_FLAGS : field := (4, 4).
Definition sizeof_event : Z := 8.
(** The bytes of an event. *)
Definition event_bytes (fd flags : Z) : list Z := le_bytes 4 fd ++ le_bytes 4 flags.

(** [kevent_select_t], [kevent_poll_t], [kevent_epoll_t]; an [fd_set] is 128
    bytes, a [struct pollfd] 8, a [struct epoll_event] 12. *)
Definition SE_RD : field := (0, 8).
Definition SE_WT : field := (8, 8).
Definition SE_EX : field := (16, 8).
Definition SE_SET (i : Z) : field := (24 + 8 * i, 8).
Definition sizeof_select : Z := 48.
Definition sizeof_poll : Z := 4.
Definition EP_CFD : field := (0, 4).
Definition EP_MAX : field := (4, 4).
Definition EP_EVENTS : field := (8, 8).
Definition sizeof_epoll : Z := 16.
Definition PF_FD (i : Z) : field := (8 * i, 4).
Definition PF_EVENTS (i : Z) : field := (8 * i + 4, 2).
Definition PF_REVENTS (i : Z) : field := (8 * i + 6, 2).
Definition EE_EVENTS (i : Z) : field := (12 * i, 4).
Definition EE_FD (i : Z) : field := (12 * i + 4, 4).

Definition eget (f : field) (a : Z) : M est Z := emem (get_field f a).
Definition eput (f : field) (a v : Z) : M est unit := emem (put_field f a v).
Definition eget_int (f : field) (a : Z) : M est Z := v ← eget f a; mret (s32 v).

Definition POLLIN : Z := 1.
Definition POLLOUT : Z := 4.
Definition POLLERR : Z := 8.
Definition POLLHUP : Z := 0x10.
Definition POLLNVAL : Z := 0x20.
Definition EPOLLIN : Z := 1.
Definition EPOLLOUT : Z := 4.
Definition EPOLLERR : Z := 8.
Definition EPOLLHUP : Z := 0x10.
Definition EPOLLRDHUP : Z := 0x2000.
Definition EPOLL_CTL_ADD : Z := 1.
Definition EPOLL_CTL_DEL : Z := 2.

(** The addresses of the local variables. *)
Definition STACK_EVENT : Z := 2 ^ 63.
Definition STACK_FD : Z := 2 ^ 63 + 4096.

Definition vptr_addr {A} (v : vptr A) : Z := match v with PObj a => a | PSlot _ => NULL end.

Definition KOK : Z := kerr_code KYLIN_ERROR_OK.
Definition NOENT : Z := kerr_code KYLIN_ERROR_NOENT.
Definition NOMEM : Z := kerr_code KYLIN_ERROR_NOMEM.

(** [ret = ...; if(ret != KYLIN_ERROR_OK) return ret;] *)
Definition then_ (f g : M est Z) : M est Z := ret ← f; if ret =? KOK then g else mret ret.

(** The numbers of two event loops. *)
Definition __elist_match (m : mem) (v1 v2 : Z) : Z :=
  match get_field E_ID v1 m, get_field E_ID v2 m with
  | Ok (x, _), Ok (y, _) => if y <? x then 1 else if x <? y then -1 else 0
  | _, _ => 0
  end.
Definition elist_opts : klist_opts_t :=
  mk_klist_opts KOBJ_OTHERS sizeof_guard __elist_match None None None None (NULL, NULL, 0).

(** The descriptors of two events, of which the first four bytes. *)
Definition __events_compare (b1 b2 : list Z) : Z :=
  let x := s32 (le_value (take 4 b1)) in let y := s32 (le_value (take 4 b2)) in
  if y <? x then 1 else if x <? y then -1 else 0.
Definition events_opts : kset_opts_t :=
  mk_kset_opts false 4096 KOBJ_OTHERS sizeof_event (Some __events_compare) (Some kylin_malloc) None.

(** ** Sets of the heap *)

(** The set's own allocation: 88 bytes and the slots. *)
Definition set_create (opts : kset_opts_t) : M est Z :=
  a ← emem (fun m => Ok (alloc_addr (88 + 8 * opts_cap opts) m));
  match a, kylin_set_create (match a with Some _ => true | None => false end) opts with
  | Some a, inr g => _ ← put_set a g; mret a
  | _, _ => mret NULL
  end.

Definition set_insert (a v : Z) : M est Z :=
  g ← get_set a;
  x ← emem (fun m => '(e, g, m) ← kylin_set_insert g v m; Ok ((e, g), m));
  _ ← put_set a x.2; mret (kerr_code x.1).

(** The bytes behind a pointer into a set. *)
Definition elem_bytes (a : Z) (p : vptr nat) : M est (list Z) :=
  g ← get_set a; emem (fun m => bs ← view g m p; Ok (bs, m)).
Definition set_find (a : Z) (key : list Z) : M est (option (vptr nat)) :=
  g ← get_set a; emem (fun m => p ← kylin_set_find g m key; Ok (p, m)).
Definition set_first (a : Z) : M est (vptr nat) := g ← get_set a; emem (fun m => p ← kylin_set_first g; Ok (p, m)).
Definition set_last (a : Z) : M est (vptr nat) := g ← get_set a; emem (fun m => p ← kylin_set_last g; Ok (p, m)).
Definition set_next (a : Z) (p : vptr nat) : M est (option (vptr nat)) :=
  key ← elem_bytes a p; g ← get_set a; emem (fun m => p ← kylin_set_next g m key; Ok (p, m)).
Definition set_remove (a : Z) (key : list Z) : M est Z :=
  g ← get_set a;
  x ← emem (fun m => x ← kylin_set_remove g m key; Ok (x, m));
  _ ← put_set a x.2; mret (kerr_code x.1).

Section Sets.
Context (nested : nested_dtors).
Definition set_destroy (a : Z) : M est unit :=
  g ← get_set a; _ ← emem (kylin_set_clear nested g); drop_set a.
End Sets.

(** ** Accessors ([kylin_event.c]) *)
Definition kylin_event_get_priv_data (guard : Z) : M est Z := eget E_PRIV guard.
(** The address of a member: an object and an offset. *)
Definition kylin_event_get_opts (guard : Z) : Z * Z := (guard, E_OPTS).
Definition kylin_event_event_count (guard : Z) : M est Z :=
  a ← eget E_EVENTS guard; g ← get_set a; mret (u32 (kylin_set_count g)).
Definition kylin_event_event_get_first (guard : Z) : M est Z :=
  a ← eget E_EVENTS guard; p ← set_first a; mret (vptr_addr p).
Definition kylin_event_event_get_next (guard event : Z) : M est Z :=
  a ← eget E_EVENTS guard; p ← set_next a (PObj event);
  mret (match p with Some p => vptr_addr p | None => NULL end).
Definition kylin_event_event_get_by_fd (guard fd : Z) : M est Z :=
  a ← eget E_EVENTS guard; p ← set_find a (event_bytes fd 0);
  mret (match p with Some p => vptr_addr p | None => NULL end).

(** ** The back ends *)
Section Backends.
Context (sys : system) (nested : nested_dtors) (act : Z -> Z -> Z -> M est unit).

Definition call (c : syscall) : M est Z := fun s =>
  let h := c :: ehist s in
  Ok (s32 (answer sys h), mk_est (eid s) (elist s) (eplugin s) (eheap s) (sets s) h).
Definition call_ (c : syscall) : M est unit := _ ← call c; mret tt.
Definition ask {A} (f : list syscall -> A) : M est A := fun s => Ok (f (ehist s), s).

(** [if(eopts->action.f) eopts->action.f(fd, eopts->priv)] *)
Definition callback (f : field) (guard fd : Z) : M est unit :=
  fn ← eget f guard;
  if negb (fn =? NULL) then priv ← eget O_PRIV guard; act fn fd priv else mret tt.

(** *** [kylin_select.c] *)

(** [FD_SET] and its likes: 16 words; a negative descriptor is outside. *)
Definition fd_word (fd : Z) : field := (8 * (fd / 64), 8).
Definition FD_ISSET (fd p : Z) : M est bool :=
  if fd <? 0 then ub else w ← eget (fd_word fd) p; mret (Z.testbit w (fd mod 64)).
Definition FD_SET (fd p : Z) : M est unit :=
  if fd <? 0 then ub else w ← eget (fd_word fd) p; eput (fd_word fd) p (Z.setbit w (fd mod 64)).
Definition FD_CLR (fd p : Z) : M est unit :=
  if fd <? 0 then ub else w ← eget (fd_word fd) p; eput (fd_word fd) p (Z.clearbit w (fd mod 64)).
Definition FD_ZERO (p : Z) : M est unit := emem (store_at p 0 (replicate 128 0)).

Definition __fd_compare (b1 b2 : list Z) : Z :=
  let x := s32 (le_value (take 4 b1)) in let y := s32 (le_value (take 4 b2)) in
  if y <? x then 1 else if x <? y then -1 else 0.
Definition fdset_opts : kset_opts_t :=
  mk_kset_opts false 64 KOBJ_INT32 4 (Some __fd_compare) (Some kylin_malloc) None.

(** The three kinds of events: the flag, the [fd_set] and the set. *)
Definition kinds : list (Z * field * field) :=
  [(KEVENT_FLAG_READ, SE_RD, SE_SET 0); (KEVENT_FLAG_WRITE, SE_WT, SE_SET 1); (KEVENT_FLAG_ERROR, SE_EX, SE_SET 2)].

Definition select_insert (priv fd : Z) (k : Z * field * field) : M est Z :=
  p ← eget k.1.2 priv; _ ← FD_SET fd p;
  a ← eget k.2 priv; local STACK_FD (le_bytes 4 fd) (set_insert a STACK_FD).
Definition select_remove (priv fd : Z) (k : Z * field * field) : M est Z :=
  p ← eget k.1.2 priv; _ ← FD_CLR fd p;
  a ← eget k.2 priv; set_remove a (le_bytes 4 fd).

(** One kind after the other, the first error ends it. *)
Fixpoint each_kind (f : Z * field * field -> M est Z) (l : list (Z * field * field)) : M est Z :=
  match l with [] => mret KOK | k :: l => then_ (f k) (each_kind f l) end.

Definition kselect_add (guard fd flags : Z) : M est Z :=
  priv ← kylin_event_get_priv_data guard;
  if priv =? NULL then mret NOENT else
  each_kind (fun k => if has flags k.1.1 then select_insert priv fd k else mret KOK) kinds.

Definition kselect_del (guard fd flags : Z) : M est Z :=
  priv ← kylin_event_get_priv_data guard;
  if priv =? NULL then mret NOENT else
  each_kind (fun k => if has flags k.1.1 then select_remove priv fd k else mret KOK) kinds.

Definition kselect_mod (guard fd flags : Z) : M est Z :=
  priv ← kylin_event_get_priv_data guard;
  if priv =? NULL then mret NOENT else
  each_kind (fun k =>
    p ← eget k.1.2 priv; on ← FD_ISSET fd p;
    if negb (has flags k.1.1) then if on : bool then select_remove priv fd k else mret KOK
    else if on : bool then mret KOK else select_insert priv fd k) kinds.

(** [KYLIN_SET_FOREACH] over the descriptors of a set; [v] is the pointer of the
    loop, [NULL] at its end. *)
Fixpoint foreach_fd (fuel : nat) (a : Z) (v : option (vptr nat)) (f : Z -> M est unit) : M est unit :=
  match fuel, v with
  | _, None => fun s => Ok (tt, s)
  | O, _ => out_of_fuel
  | S fuel, Some p =>
      b ← elem_bytes a p; _ ← f (s32 (le_value (take 4 b)));
      v ← set_next a p; foreach_fd fuel a v f
  end.
Definition set_foreach (priv : Z) (k : Z * field * field) (f : Z -> M est unit) : M est unit :=
  a ← eget k.2 priv; p ← set_first a; foreach_fd 65 a (Some p) f.

Definition last_fd (priv : Z) (k : Z * field * field) : M est Z :=
  a ← eget k.2 priv; p ← set_last a; b ← elem_bytes a p; mret (s32 (le_value (take 4 b))).

(** The callbacks of the descriptors of one kind that are in the [fd_set]. *)
Definition select_ready (guard priv : Z) (k : Z * field * field) (cb : field) : M est unit :=
  set_foreach priv k (fun fd => p ← eget k.1.2 priv; on ← FD_ISSET fd p; if on : bool then callback cb guard fd else mret tt).
Definition select_refill (priv : Z) (k : Z * field * field) : M est unit :=
  set_foreach priv k (fun fd => p ← eget k.1.2 priv; FD_SET fd p).

Definition kselect_proc (guard timeout : Z) : M est Z :=
  priv ← kylin_event_get_priv_data guard;
  let r := (KEVENT_FLAG_READ, SE_RD, SE_SET 0) in
  let w := (KEVENT_FLAG_WRITE, SE_WT, SE_SET 1) in
  let e := (KEVENT_FLAG_ERROR, SE_EX, SE_SET 2) in
  m0 ← last_fd priv r; m1 ← last_fd priv w; m2 ← last_fd priv e;
  pr ← eget SE_RD priv; pw ← eget SE_WT priv; pe ← eget SE_EX priv;
  br ← emem (load_at pr 0 128); bw ← emem (load_at pw 0 128); be ← emem (load_at pe 0 128);
  n ← call (SysSelect (s32 (Z.max (Z.max m0 m1) m2 + 1)) br bw be timeout);
  _ ← (if 0 <=? n then
         b ← ask (selected sys);
         _ ← emem (store_at pr 0 b.1.1); _ ← emem (store_at pw 0 b.1.2); emem (store_at pe 0 b.2)
       else mret tt);
  _ ← (if negb (n =? 0) then
         _ ← select_ready guard priv r O_RECV; _ ← select_ready guard priv w O_SEND; select_ready guard priv e O_ERROR
       else mret tt);
  _ ← select_refill priv r; _ ← select_refill priv w; _ ← select_refill priv e;
  mret KOK.

Fixpoint destroy_sets (priv : Z) (l : list nat) : M est unit :=
  match l with
  | [] => mret tt
  | i :: l => a ← eget (SE_SET (Z.of_nat i)) priv; _ ← set_destroy nested a; destroy_sets priv l
  end.

(** Whether all sets could be made; [while(i--)] destroys the earlier ones. *)
Fixpoint create_sets (priv : Z) (l : list nat) : M est bool :=
  match l with
  | [] => mret true
  | i :: l =>
      a ← set_create fdset_opts; _ ← eput (SE_SET (Z.of_nat i)) priv a;
      if a =? NULL then _ ← destroy_sets priv (rev (seq 0 i)); _ ← emem (kylin_free priv); mret false
      else create_sets priv l
  end.

Definition SELECT_FDSET_TYPE_NUM : nat := 3.
Definition kselect_create : M est Z :=
  priv ← emem (kylin_malloc sizeof_select);
  if priv =? NULL then mret NULL else
  made ← create_sets priv (seq 0 SELECT_FDSET_TYPE_NUM);
  if negb made then mret NULL else
  pr ← eget SE_RD priv; _ ← FD_ZERO pr;
  pw ← eget SE_WT priv; _ ← FD_ZERO pw;
  pe ← eget SE_EX priv; _ ← FD_ZERO pe;
  mret priv.
Definition kselect_destroy (priv : Z) : M est unit :=
  if priv =? NULL then mret tt else
  _ ← destroy_sets priv (rev (seq 0 SELECT_FDSET_TYPE_NUM)); emem (kylin_free priv).
Definition kselect_init : Z := KOK.
Definition kselect_fini : unit := tt.

(** *** [kylin_poll.c] *)
Definition kpoll_add (guard fd flags : Z) : M est Z := mret KOK.
Definition kpoll_del (guard fd flags : Z) : M est Z := mret KOK.
Definition kpoll_mod (guard fd flags : Z) : M est Z := mret KOK.

Definition or_events (fds i bit : Z) : M est unit :=
  v ← eget (PF_EVENTS i) fds; eput (PF_EVENTS i) fds (Z.lor v bit).

(** The first loop: an event is copied into entry [i]. *)
Definition poll_entry (fds i event : Z) : M est unit :=
  fd ← eget EV_FD event; _ ← eput (PF_FD i) fds fd;
  flags ← eget EV_FLAGS event;
  _ ← (if has flags KEVENT_FLAG_READ then or_events fds i POLLIN else mret tt);
  flags ← eget EV_FLAGS event;
  if has flags KEVENT_FLAG_WRITE then or_events fds i POLLOUT else mret tt.

Fixpoint poll_fill (fuel : nat) (guard fds i event : Z) : M est unit :=
  if event =? NULL then mret tt else
  match fuel with
  | O => out_of_fuel
  | S fuel =>
      _ ← poll_entry fds i event;
      event ← kylin_event_event_get_next guard event;
      poll_fill fuel guard fds (i + 1) event
  end.

(** What [poll] reads of the array, and what it stores there. *)
Fixpoint poll_read (fds : Z) (l : list nat) : M est (list (Z * Z)) :=
  match l with
  | [] => mret []
  | i :: l => fd ← eget_int (PF_FD (Z.of_nat i)) fds; e ← eget (PF_EVENTS (Z.of_nat i)) fds;
              r ← poll_read fds l; mret ((fd, e) :: r)
  end.
Fixpoint poll_store (fds i : Z) (l : list Z) : M est unit :=
  match l with [] => mret tt | r :: l => _ ← eput (PF_REVENTS i) fds r; poll_store fds (i + 1) l end.
Definition poll (fds : Z) (n : nat) (timeout : Z) : M est Z :=
  l ← poll_read fds (seq 0 n);
  r ← call (SysPoll l timeout);
  _ ← (if 0 <=? r then v ← ask (revents sys); poll_store fds 0 (take n (v ++ replicate n 0)) else mret tt);
  mret r.

(** The second loop. *)
Definition poll_ready (guard fds i : Z) : M est unit :=
  let on (bits : Z) (cb : field) : M est unit :=
    r ← eget (PF_REVENTS i) fds;
    if has r bits then fd ← eget_int (PF_FD i) fds; callback cb guard fd else mret tt in
  _ ← on POLLIN O_RECV; _ ← on POLLOUT O_SEND; on (Z.lor (Z.lor POLLERR POLLHUP) POLLNVAL) O_ERROR.
Fixpoint poll_dispatch (guard fds : Z) (l : list nat) : M est unit :=
  match l with [] => mret tt | i :: l => _ ← poll_ready guard fds (Z.of_nat i); poll_dispatch guard fds l end.

Definition kpoll_proc (guard timeout : Z) : M est Z :=
  ecnt ← kylin_event_event_count guard;
  if ecnt =? 0 then mret NOENT else
  fds ← emem (kylin_malloc (8 * ecnt));
  if fds =? NULL then mret NOMEM else
  event ← kylin_event_event_get_first guard;
  _ ← poll_fill (S (Z.to_nat ecnt)) guard fds 0 event;
  n ← poll fds (Z.to_nat ecnt) (s32 timeout);
  _ ← (if negb (n =? 0) then poll_dispatch guard fds (seq 0 (Z.to_nat ecnt)) else mret tt);
  _ ← emem (kylin_free fds);
  mret KOK.

Definition kpoll_create : M est Z := emem (kylin_malloc sizeof_poll).
Definition kpoll_destroy (priv : Z) : M est unit := if priv =? NULL then mret tt else emem (kylin_free priv).
Definition kpoll_init : Z := KOK.
Definition kpoll_fini : unit := tt.

(** *** [kylin_epoll.c] *)

(** One call of [epoll_ctl] for each of the two flags. *)
Definition epoll_ctl (guard op fd flags rd wt : Z) : M est Z :=
  priv ← kylin_event_get_priv_data guard;
  if priv =? NULL then mret NOENT else
  let ctl bit events := if has flags bit then cfd ← eget_int EP_CFD priv; call (SysEpollCtl cfd op fd events) else mret KOK in
  then_ (ctl KEVENT_FLAG_READ rd) (ctl KEVENT_FLAG_WRITE wt).
Definition kepoll_add (guard fd flags : Z) : M est Z :=
  epoll_ctl guard EPOLL_CTL_ADD fd flags (Z.lor EPOLLIN EPOLLRDHUP) (Z.lor EPOLLOUT EPOLLRDHUP).
Definition kepoll_del (guard fd flags : Z) : M est Z := epoll_ctl guard EPOLL_CTL_DEL fd flags EPOLLIN EPOLLOUT.
Definition kepoll_mod (guard fd flags : Z) : M est Z :=
  event ← kylin_event_event_get_by_fd guard fd;
  if event =? NULL then mret NOENT else
  old ← eget EV_FLAGS event;
  then_ (kepoll_del guard fd old) (kepoll_add guard fd flags).

Fixpoint epoll_store (events i : Z) (l : list (Z * Z)) : M est unit :=
  match l with
  | [] => mret tt
  | (e, fd) :: l =>
      _ ← eput (EE_EVENTS i) events e; _ ← eput (EE_FD i) events fd; epoll_store events (i + 1) l
  end.

Definition epoll_ready (guard priv i : Z) : M est unit :=
  events ← eget EP_EVENTS priv;
  fd ← eget_int (EE_FD i) events; flags ← eget (EE_EVENTS i) events;
  if has flags (Z.lor EPOLLHUP EPOLLERR) then callback O_ERROR guard fd else
  _ ← (if has flags EPOLLIN then callback O_RECV guard fd else mret tt);
  _ ← (if has flags EPOLLOUT then callback O_SEND guard fd else mret tt);
  if has flags EPOLLRDHUP then callback O_ERROR guard fd else mret tt.
Fixpoint epoll_dispatch (guard priv : Z) (l : list nat) : M est unit :=
  match l with [] => mret tt | i :: l => _ ← epoll_ready guard priv (Z.of_nat i); epoll_dispatch guard priv l end.

Definition kepoll_proc (guard timeout : Z) : M est Z :=
  priv ← kylin_event_get_priv_data guard;
  if priv =? NULL then mret NOENT else
  cfd ← eget_int EP_CFD priv; events ← eget EP_EVENTS priv; max ← eget_int EP_MAX priv;
  n ← call (SysEpollWait cfd max (s32 timeout));
  l ← ask (ready sys); _ ← epoll_store events 0 (take (Z.to_nat n) l);
  _ ← epoll_dispatch guard priv (seq 0 (Z.to_nat n));
  mret KOK.

(** The second test is of the private data, not of [events]. *)
Definition kepoll_create : M est Z :=
  priv ← emem (kylin_malloc sizeof_epoll);
  if priv =? NULL then mret NULL else
  _ ← eput EP_MAX priv 64;
  cfd ← call (SysEpollCreate 64);
  _ ← eput EP_CFD priv cfd;
  if cfd =? -1 then _ ← emem (kylin_free priv); mret NULL else
  events ← emem (kylin_malloc (12 * 64));
  _ ← eput EP_EVENTS priv events;
  if priv =? NULL then _ ← call_ (SysClose cfd); _ ← emem (kylin_free priv); mret NULL else
  mret priv.
Definition kepoll_destroy (priv : Z) : M est unit :=
  if priv =? NULL then mret tt else
  cfd ← eget_int EP_CFD priv; _ ← call_ (SysClose cfd);
  events ← eget EP_EVENTS priv; _ ← emem (kylin_free events);
  emem (kylin_free priv).
Definition kepoll_init : Z := KOK.
Definition kepoll_fini : unit := tt.
End Backends.

(** ** The plug-ins ([kylin_event_plugin.c]) *)

(** The functions of a plug-in somebody registers, by address. *)
Record user_ops := mk_user {
  u_add : Z -> Z -> Z -> Z -> M est Z;
  u_del : Z -> Z -> Z -> Z -> M est Z;
  u_mod : Z -> Z -> Z -> Z -> M est Z;
  u_proc : Z -> Z -> Z -> M est Z;
  u_create : Z -> M est Z;
  u_destroy : Z -> Z -> M est unit;
  u_init : Z -> M est Z;
  u_fini : Z -> M est unit;
}.

Definition builtin_reg (f : impl) : kevent_reg_t :=
  mk_reg (Some f) (Some f) (Some f) (Some f) (Some f) (Some f) (Some f) (Some f).
Definition default_eplugin : list kevent_plugin_t :=
  [mk_plugin 0 KEVENT_TYPE_SELECT (builtin_reg Select);
   mk_plugin 0 KEVENT_TYPE_POLL (builtin_reg Poll);
   mk_plugin 0 KEVENT_TYPE_EPOLL (builtin_reg Epoll);
   mk_plugin 0 KEVENT_TYPE_MAX no_reg].

Definition KEVENT_TYPE_DEF_CNT : nat := 4.

Section Registry.
Context (sys : system) (nested : nested_dtors) (act : Z -> Z -> Z -> M est unit) (user : user_ops).

Definition do_add (f : impl) (guard fd flags : Z) : M est Z :=
  match f with
  | Select => kselect_add guard fd flags | Poll => kpoll_add guard fd flags
  | Epoll => kepoll_add sys guard fd flags | User a => u_add user a guard fd flags
  end.
Definition do_del (f : impl) (guard fd flags : Z) : M est Z :=
  match f with
  | Select => kselect_del guard fd flags | Poll => kpoll_del guard fd flags
  | Epoll => kepoll_del sys guard fd flags | User a => u_del user a guard fd flags
  end.
Definition do_mod (f : impl) (guard fd flags : Z) : M est Z :=
  match f with
  | Select => kselect_mod guard fd flags | Poll => kpoll_mod guard fd flags
  | Epoll => kepoll_mod sys guard fd flags | User a => u_mod user a guard fd flags
  end.
Definition do_proc (f : impl) (guard timeout : Z) : M est Z :=
  match f with
  | Select => kselect_proc sys act guard timeout | Poll => kpoll_proc sys act guard timeout
  | Epoll => kepoll_proc sys act guard timeout | User a => u_proc user a guard timeout
  end.
Definition do_create (f : impl) : M est Z :=
  match f with
  | Select => kselect_create nested | Poll => kpoll_create | Epoll => kepoll_create sys | User a => u_create user a
  end.
Definition do_destroy (f : impl) (priv : Z) : M est unit :=
  match f with
  | Select => kselect_destroy nested priv | Poll => kpoll_destroy priv
  | Epoll => kepoll_destroy sys priv | User a => u_destroy user a priv
  end.
Definition do_init (f : impl) : M est Z :=
  match f with
  | Select => mret kselect_init | Poll => mret kpoll_init | Epoll => mret kepoll_init | User a => u_init user a
  end.
Definition do_fini (f : impl) : M est unit :=
  match f with
  | Select => mret kselect_fini | Poll => mret kpoll_fini | Epoll => mret kepoll_fini | User a => u_fini user a
  end.

(** [if(f) f(...)] *)
Definition call_init (f : option impl) : M est Z := match f with Some f => do_init f | None => mret KOK end.
Definition call_fini (f : option impl) : M est unit := match f with Some f => do_fini f | None => mret tt end.
Definition call_destroy (f : option impl) (priv : Z) : M est unit :=
  match f with Some f => do_destroy f priv | None => mret tt end.

Definition kylin_event_register (type : Z) (reg : kevent_reg_t) : M est Z :=
  p ← plugin_at type;
  if negb (p_type p =? KEVENT_TYPE_MAX) then mret (kerr_code KYLIN_ERROR_EXIST) else
  match r_proc reg with
  | None => mret (kerr_code KYLIN_ERROR_INVAL)
  | Some _ => then_ (call_init (r_init reg)) (_ ← set_plugin type (mk_plugin 0 type reg); mret KOK)
  end.

Definition kylin_event_unregister (type : Z) : M est Z :=
  p ← plugin_at type;
  if p_type p =? KEVENT_TYPE_MAX then mret NOENT else
  if negb (p_ref p =? 0) then mret (kerr_code KYLIN_ERROR_BUSY) else
  _ ← call_fini (r_fini (p_reg p));
  _ ← set_plugin type (mk_plugin 0 KEVENT_TYPE_MAX no_reg);
  mret KOK.

Fixpoint init_plugins (l : list nat) : M est Z :=
  match l with
  | [] => mret KOK
  | i :: l =>
      p ← plugin_at (Z.of_nat i);
      then_ (if negb (p_type p =? KEVENT_TYPE_MAX) then call_init (r_init (p_reg p)) else mret KOK) (init_plugins l)
  end.

(** The second loop has nothing to do: there are as many types as built-in ones. *)
Fixpoint free_entries (l : list nat) : M est unit :=
  match l with
  | [] => mret tt
  | i :: l =>
      p ← plugin_at (Z.of_nat i);
      _ ← set_plugin (Z.of_nat i) (mk_plugin (p_ref p) KEVENT_TYPE_MAX (p_reg p)); free_entries l
  end.

Definition kylin_event_plugin_init : M est Z :=
  then_ (init_plugins (seq 0 KEVENT_TYPE_DEF_CNT))
    (_ ← free_entries (seq KEVENT_TYPE_DEF_CNT (Z.to_nat KEVENT_TYPE_MAX - KEVENT_TYPE_DEF_CNT)); mret KOK).

Fixpoint fini_plugins (l : list nat) : M est unit :=
  match l with
  | [] => mret tt
  | i :: l =>
      p ← plugin_at (Z.of_nat i);
      _ ← (if negb (p_type p =? KEVENT_TYPE_MAX) then call_fini (r_fini (p_reg p)) else mret tt);
      fini_plugins l
  end.
Definition kylin_event_plugin_fini : M est unit := fini_plugins (seq 0 (Z.to_nat KEVENT_TYPE_MAX)).

(** ** The interface ([kylin_event.c]) *)
Definition set_ref (type : Z) (f : Z -> Z) : M est unit :=
  p ← plugin_at type; set_plugin type (mk_plugin (u32 (f (p_ref p))) (p_type p) (p_reg p)).

(** [reg.destroy(guard->priv)] *)
Definition destroy_priv (type guard : Z) : M est unit :=
  p ← plugin_at type;
  match r_destroy (p_reg p) with Some f => priv ← eget E_PRIV guard; do_destroy f priv | None => mret tt end.

Definition destroy_events (guard : Z) : M est unit := a ← eget E_EVENTS guard; set_destroy nested a.

(** The end of [kylin_event_create]: the loop is linked, counted and numbered. *)
Definition link_event (type guard opts : Z) : M est Z :=
  el ← get_elist;
  r ← on_heap (kylin_list_insert_head el guard);
  if vptr_addr r =? NULL then
    _ ← destroy_priv type guard; _ ← destroy_events guard; _ ← emem (kylin_free guard); mret NULL
  else
    _ ← set_ref type (fun n => n + 1);
    id ← next_eid;
    _ ← eput E_ID guard id;
    _ ← eput E_TYPE guard type;
    bs ← emem (load_at opts 0 sizeof_opts);
    _ ← emem (store_at guard E_OPTS bs);
    mret guard.

(** [opts] is the address of the caller's options. *)
Definition kylin_event_create (type opts : Z) : M est Z :=
  p ← plugin_at type;
  if p_type p =? KEVENT_TYPE_MAX then mret NULL else
  guard ← emem (kylin_malloc sizeof_guard);
  if guard =? NULL then mret NULL else
  events ← set_create events_opts;
  _ ← eput E_EVENTS guard events;
  if events =? NULL then _ ← emem (kylin_free guard); mret NULL else
  p ← plugin_at type;
  priv ← match r_create (p_reg p) with Some f => do_create f | None => mret NULL end;
  _ ← eput E_PRIV guard priv;
  if match r_create (p_reg p) with Some _ => priv =? NULL | None => false end
  then _ ← destroy_events guard; _ ← emem (kylin_free guard); mret NULL else
  link_event type guard opts.

Definition kylin_event_destroy (guard : Z) : M est unit :=
  el ← get_elist;
  r ← on_heap (kylin_list_unlink el guard);
  if vptr_addr r =? NULL then mret tt else
  type ← eget E_TYPE guard;
  _ ← destroy_priv type guard;
  type ← eget E_TYPE guard;
  _ ← set_ref type (fun n => n - 1);
  _ ← destroy_events guard;
  emem (kylin_free guard).

(** A call of one of a loop's functions, if there is one. *)
Definition through (guard : Z) (slot : kevent_reg_t -> option impl) (f : impl -> M est Z) : M est Z :=
  type ← eget E_TYPE guard; p ← plugin_at type;
  match slot (p_reg p) with Some i => f i | None => mret KOK end.

Definition kylin_event_add (guard fd flags : Z) : M est Z :=
  local STACK_EVENT (event_bytes fd flags)
    (a ← eget E_EVENTS guard;
     then_ (set_insert a STACK_EVENT)
       (then_ (through guard r_add (fun f => do_add f guard fd flags)) (mret KOK))).

Definition kylin_event_del (guard fd flags : Z) : M est Z :=
  a ← eget E_EVENTS guard;
  p ← set_find a (event_bytes fd flags);
  let event := match p with Some p => vptr_addr p | None => NULL end in
  if event =? NULL then mret NOENT else
  old ← eget EV_FLAGS event;
  if old =? u32 flags then
    then_ (through guard r_del (fun f => do_del f guard fd flags))
      (a ← eget E_EVENTS guard;
       key ← elem_bytes a (PObj event);
       then_ (set_remove a key) (mret KOK))
  else
    then_ (through guard r_mod (fun f => do_mod f guard fd flags))
      (_ ← eput EV_FLAGS event flags; mret KOK).

Definition kylin_event_process (guard : Z) : M est Z := through guard r_proc (fun f => do_proc f guard 0).

Definition kylin_event_init : M est Z :=
  el ← on_heap (kylin_list_create elist_opts);
  _ ← set_elist el;
  if el =? NULL then mret NOMEM else kylin_event_plugin_init.

(** The loop over the list. *)
Fixpoint release_all (fuel : nat) (el node : Z) : M est unit :=
  match fuel with
  | O => out_of_fuel
  | S fuel =>
      if node =? NULL then mret tt else
      v ← on_heap (kylin_list_val el node);
      let guard := vptr_addr v in
      _ ← (if guard =? NULL then mret tt else
             type ← eget E_TYPE guard; _ ← destroy_priv type guard;
             type ← eget E_TYPE guard; _ ← set_ref type (fun n => n - 1);
             destroy_events guard);
      next ← on_heap (kylin_list_next node);
      release_all fuel el next
  end.

Definition kylin_event_fini : M est unit :=
  el ← get_elist;
  _ ← (if negb (el =? NULL) then
         node ← on_heap (kylin_list_first el);
         fuel ← (fun s => Ok (KList.fuel_of (eheap s), s));
         _ ← release_all fuel el node;
         on_heap (kylin_list_destroy nested el)
       else mret tt);
  kylin_event_plugin_fini.
End Registry.
