(* ===== verification/EventSet.v ===== *)
(** * The events of an event loop

    [kylin_event_add], [kylin_event_del], [kylin_event_event_count] and
    [kylin_event_event_get_by_fd] against the list of (descriptor, flags) an
    event loop stands for, with the back end [kylin_poll.c], which keeps no
    state of its own. *)

From S2P Require Import Prelude Errors Bytes Mem MathVal KSet KList Plugin Event.

(** ** The representation *)

(** The 64 bytes of an event loop. *)
Definition loop_block (id type : Z) (opts : list Z) (priv set : Z) : list Z :=
  le_bytes 4 id ++ le_bytes 4 type ++ opts ++ le_bytes 8 priv ++ le_bytes 8 set.

Abbreviation emem_of s := (omem (eheap s)).

Definition event_ok (e : Z * Z) : Prop := - 2 ^ 31 <= e.1 < 2 ^ 31 /\ is_u 32 e.2.

(** The set [g] holds the events [l] in the memory [m]. *)
Record holds (m : mem) (g : kset_t) (l : list (Z * Z)) : Prop := {
  ho_opts : s_opts g = events_opts;
  ho_ok : kset_ok g;
  ho_at : Forall2 (fun a e => blocks m !! a = Some (event_bytes e.1 e.2)) (values g) l;
  ho_distinct : NoDup (values g);
  ho_events : Forall event_ok l;
}.

(** What is in the object of a loop. *)
Record loop := mk_loop { l_id : Z; l_type : Z; l_opts : list Z; l_priv : Z; l_set : Z }.

(** [guard] is the loop [L], of a type with the plug-in [p], and the set [g]
    holds its events [l]. *)
Record loop_at (s : est) (guard : Z) (L : loop) (p : kevent_plugin_t) (g : kset_t) (l : list (Z * Z)) : Prop := {
  lp_block : blocks (emem_of s) !! guard = Some (loop_block (l_id L) (l_type L) (l_opts L) (l_priv L) (l_set L));
  lp_len : length (l_opts L) = 40%nat;
  lp_type : is_u 32 (l_type L);
  lp_priv : is_u 64 (l_priv L);
  lp_setu : is_u 64 (l_set L);
  lp_plugin : eplugin s !! Z.to_nat (l_type L) = Some p;
  lp_at : sets s !! l_set L = Some g;
  lp_holds : holds (emem_of s) g l;
  lp_apart : guard ∉ values g;
}.

(** ** Steps *)
Lemma emem_eq {A} (f : M mem A) s x m : f (emem_of s) = Ok (x, m) -> emem f s = Ok (x, with_mem s m).
Proof. intros E. unfold emem, on_heap, on_mem. simpl. by rewrite E. Qed.

Lemma emem_pure {A} (f : M mem A) s x : f (emem_of s) = Ok (x, emem_of s) -> emem f s = Ok (x, s).
Proof. intros E. erewrite emem_eq by exact E. exact (f_equal (fun s => Ok (x, s)) (with_mem_of s)). Qed.

Lemma emem_ub {A} (f : M mem A) s : f (emem_of s) = Ub -> emem f s = Ub.
Proof. intros E. unfold emem, on_heap, on_mem. simpl. by rewrite E. Qed.

Lemma eget_eq s f a v : get_field f a (emem_of s) = Ok (v, emem_of s) -> eget f a s = Ok (v, s).
Proof. apply emem_pure. Qed.

Lemma get_set_eq s a g : sets s !! a = Some g -> get_set a s = Ok (g, s).
Proof. intros E. unfold get_set. by rewrite E. Qed.

Lemma plugin_at_loop s t p : eplugin s !! Z.to_nat t = Some p -> plugin_at t s = Ok (p, s).
Proof. intros E. unfold plugin_at, rd. by rewrite E. Qed.

Lemma local_eq {A} a bs (f : M est A) s x s' :
  f (with_mem s (mk_mem (<[a := bs]> (blocks (emem_of s))) (brk (emem_of s)) (oom (emem_of s)))) = Ok (x, s') ->
  local a bs f s = Ok (x, with_mem s' (mk_mem (delete a (blocks (emem_of s'))) (brk (emem_of s')) (oom (emem_of s')))).
Proof. intros E. unfold local. simpl mem_of. by rewrite E. Qed.

Section Loop.
Context {s : est} {guard : Z} {L : loop} {p : kevent_plugin_t} {g : kset_t} {l : list (Z * Z)}.
Hypothesis R : loop_at s guard L p g l.

Lemma loop_field off w v x n y : 
  loop_block (l_id L) (l_type L) (l_opts L) (l_priv L) (l_set L) = x ++ le_bytes n v ++ y ->
  w = Z.of_nat n -> off = Z.of_nat (length x) -> is_u (8 * w) v -> eget (off, w) guard s = Ok (v, s).
Proof using R.
  intros E Hw Ho Hv. eapply eget_eq, get_field_ok; [|done..]. rewrite (lp_block _ _ _ _ _ _ R). by rewrite E.
Qed.

Lemma loop_type_eq : eget E_TYPE guard s = Ok (l_type L, s).
Proof using R.
  eapply (loop_field _ _ _ (le_bytes 4 (l_id L)) 4); [reflexivity|done| |apply R]. by rewrite length_le_bytes.
Qed.

Lemma loop_priv_eq : eget E_PRIV guard s = Ok (l_priv L, s).
Proof using R.
  eapply (loop_field _ _ _ (le_bytes 4 (l_id L) ++ le_bytes 4 (l_type L) ++ l_opts L) 8 (le_bytes 8 (l_set L)));
    [unfold loop_block; by rewrite <- !app_assoc|done| |apply R].
  rewrite !length_app, !length_le_bytes, (lp_len _ _ _ _ _ _ R). done.
Qed.

Lemma loop_set_eq : eget E_EVENTS guard s = Ok (l_set L, s).
Proof using R.
  eapply (loop_field _ _ _ (le_bytes 4 (l_id L) ++ le_bytes 4 (l_type L) ++ l_opts L ++ le_bytes 8 (l_priv L)) 8 []);
    [unfold loop_block; by rewrite <- !app_assoc, app_nil_r|done| |apply R].
  rewrite !length_app, !length_le_bytes, (lp_len _ _ _ _ _ _ R). done.
Qed.

Lemma loop_get_set : get_set (l_set L) s = Ok (g, s).
Proof using R. apply get_set_eq, R. Qed.

Lemma loop_plugin_eq : plugin_at (l_type L) s = Ok (p, s).
Proof using R. apply plugin_at_loop, R. Qed.

Lemma through_eq slot f i : slot (p_reg p) = Some i -> through guard slot f s = f i s.
Proof using R. intros E. unfold through. run loop_type_eq. run loop_plugin_eq. by rewrite E. Qed.
End Loop.

(** ** The set of events *)

(** The first event of a descriptor. *)
Definition find_fd (fd : Z) (l : list (Z * Z)) : option nat :=
  List.find (fun i => match l !! i with Some e => e.1 =? fd | None => false end) (seq 0 (length l)).

Lemma find_fd_lt fd l i : find_fd fd l = Some i -> exists e, l !! i = Some e /\ e.1 = fd.
Proof.
  intros H. apply find_seq_Some in H as (Hi & Hp & _). cbv beta in Hp.
  destruct (l !! i) as [e|]; [|done]. exists e. split; [done|]. lia.
Qed.

Lemma sw_uw_id z : - 2 ^ 31 <= z < 2 ^ 31 -> s32 (z mod 2 ^ 32) = z.
Proof.
  intros H. unfold sw. rewrite Zmod_mod. destruct (Z.leb_spec 0 z).
  - rewrite Z.mod_small by lia. by rewrite (proj2 (Z.ltb_lt _ _)) by lia.
  - replace (z mod 2 ^ 32) with (z + 2 ^ 32) by (apply (Z.mod_unique _ _ (-1)); lia).
    rewrite (proj2 (Z.ltb_ge _ _)) by lia. lia.
Qed.

Lemma fd_of_bytes fd fl : - 2 ^ 31 <= fd < 2 ^ 31 -> s32 (le_value (take 4 (event_bytes fd fl))) = fd.
Proof.
  intros H. unfold event_bytes. rewrite take_app_length' by (by rewrite length_le_bytes).
  rewrite le_value_le_bytes. by apply sw_uw_id.
Qed.

Lemma find_same (p q : nat -> bool) l : (forall i, p i = q i) -> List.find p l = List.find q l.
Proof. intros E. induction l as [|i l IH]; [done|]. simpl. by rewrite E, IH. Qed.

Lemma compare_events fd fl e : - 2 ^ 31 <= fd < 2 ^ 31 -> event_ok e ->
  (__events_compare (event_bytes fd fl) (event_bytes e.1 e.2) =? 0) = (e.1 =? fd).
Proof.
  intros Hfd [He _]. unfold __events_compare. rewrite !fd_of_bytes by done.
  repeat case_match; lia.
Qed.

Section Holds.
Context {m : mem} {g : kset_t} {l : list (Z * Z)}.
Hypothesis H : holds m g l.

Lemma holds_length : length (values g) = length l.
Proof using H. eapply Forall2_length, H. Qed.

Lemma holds_used : used g = Z.of_nat (length l).
Proof using H.
  pose proof (length_values g (ho_ok _ _ _ H)) as E. rewrite holds_length in E.
  destruct (ho_ok _ _ _ H). lia.
Qed.

Lemma holds_get i e : l !! i = Some e -> exists a, values g !! i = Some a /\
  blocks m !! a = Some (event_bytes e.1 e.2) /\ event_ok e.
Proof using H.
  intros E. destruct (Forall2_lookup_r _ _ _ _ _ (ho_at _ _ _ H) E) as (a & Ea & Hb). exists a.
  split; [done|]. split; [done|]. eapply Forall_lookup_1; [apply H|done].
Qed.

Lemma holds_alive : alive g m.
Proof using H.
  intros y Hy. rewrite (ho_opts _ _ _ H). apply list_elem_of_lookup in Hy as [i Hy].
  destruct (Forall2_lookup_l _ _ _ _ _ (ho_at _ _ _ H) Hy) as (e & _ & Hb). by eexists.
Qed.

Lemma holds_index fd fl : - 2 ^ 31 <= fd < 2 ^ 31 -> key_index g m (event_bytes fd fl) = find_fd fd l.
Proof using H.
  intros Hfd. unfold key_index, find_fd. rewrite holds_length. apply find_same. intros i.
  destruct (l !! i) as [e|] eqn:E.
  - destruct (holds_get i e E) as (a & -> & Hb & He). unfold equals. rewrite (ho_opts _ _ _ H). simpl.
    rewrite Hb. by apply compare_events.
  - apply lookup_ge_None_1 in E. by rewrite lookup_ge_None_2 by (rewrite holds_length; lia).
Qed.

(** The pointer to event [i]. *)
Definition event_ptr (i : nat) : option (vptr nat) := PObj <$> (values g !! i).

Lemma holds_ptr i : elem_ptr g i = event_ptr i.
Proof using H. unfold elem_ptr, event_ptr. by rewrite (ho_opts _ _ _ H). Qed.

Lemma holds_elem i : (i < length l)%nat -> exists q, elem g i = Ok q /\ event_ptr i = Some q.
Proof using H.
  intros Hi. rewrite <- holds_ptr. apply elem_spec; [apply H|]. by rewrite holds_length.
Qed.

Lemma holds_find fd fl : - 2 ^ 31 <= fd < 2 ^ 31 ->
  kylin_set_find g m (event_bytes fd fl) = Ok (i ← find_fd fd l; event_ptr i).
Proof using H.
  intros Hfd. unfold kylin_set_find. rewrite (lookup_key_spec _ _ _ (ho_ok _ _ _ H) holds_alive), holds_index by done.
  cbn [mbind outcome_bind]. destruct (find_fd fd l) as [i|] eqn:E; [|done].
  destruct (find_fd_lt _ _ _ E) as (e & He & _). apply lookup_lt_Some in He.
  destruct (holds_elem i He) as (q & -> & Eq). simpl. by rewrite Eq.
Qed.

Lemma holds_next fd fl : - 2 ^ 31 <= fd < 2 ^ 31 ->
  kylin_set_next g m (event_bytes fd fl) = Ok (i ← find_fd fd l; event_ptr (i + 1)).
Proof using H.
  intros Hfd. unfold kylin_set_next. rewrite (lookup_key_spec _ _ _ (ho_ok _ _ _ H) holds_alive), holds_index by done.
  cbn [mbind outcome_bind]. destruct (find_fd fd l) as [i|] eqn:E; [|done].
  destruct (find_fd_lt _ _ _ E) as (e & He & _). apply lookup_lt_Some in He. simpl.
  rewrite holds_used. destruct (Z.ltb_spec (Z.of_nat i) (Z.of_nat (length l) - 1)).
  - destruct (holds_elem (i + 1) ltac:(lia)) as (q & -> & Eq). by rewrite Eq.
  - unfold event_ptr. by rewrite lookup_ge_None_2 by (rewrite holds_length; lia).
Qed.
End Holds.
Arguments event_ptr g i : clear implicits.

Lemma holds_frame m m' g l : holds m g l -> (forall a, a ∈ values g -> blocks m' !! a = blocks m !! a) -> holds m' g l.
Proof.
  intros [H1 H2 H3 H4 H5] F. split; [done..| |done|done]. apply Forall2_same_length_lookup_2.
  - by eapply Forall2_length.
  - intros i a e Ha He. rewrite F by (by eapply list_elem_of_lookup_2).
    exact (Forall2_lookup_lr _ _ _ _ _ _ H3 Ha He).
Qed.

Lemma loop_frame s s' guard L p g l : loop_at s guard L p g l -> eplugin s' = eplugin s ->
  sets s' !! l_set L = sets s !! l_set L ->
  (forall a, a = guard \/ a ∈ values g -> blocks (emem_of s') !! a = blocks (emem_of s) !! a) ->
  loop_at s' guard L p g l.
Proof.
  intros [H1 H2 H3 H4 H5 H6 H7 H8 H9] Ep Es Eb. split; try done.
  - rewrite Eb by (by left). done.
  - by rewrite Ep.
  - by rewrite Es.
  - eapply holds_frame; [done|]. auto.
Qed.

(** The objects of a loop are below the top of the heap. *)
Lemma loop_below s guard L p g l a : loop_at s guard L p g l -> mem_ok (emem_of s) ->
  a = guard \/ a ∈ values g -> 0 < a < brk (emem_of s).
Proof.
  intros R [_ Hm] [->|Ha]; [eapply Hm, R|].
  apply list_elem_of_lookup in Ha as [i Ha].
  destruct (Forall2_lookup_l _ _ _ _ _ (ho_at _ _ _ (lp_holds _ _ _ _ _ _ R)) Ha) as (e & _ & Hb). by eapply Hm.
Qed.

(** *** Insertion *)

Definition with_local (a : Z) (bs : list Z) (m : mem) : mem := mk_mem (<[a := bs]> (blocks m)) (brk m) (oom m).
Definition without (a : Z) (s : est) : est :=
  with_mem s (mk_mem (delete a (blocks (emem_of s))) (brk (emem_of s)) (oom (emem_of s))).

(** Copying a whole object. *)
Lemma copy_whole m dst src old bs n : blocks m !! src = Some bs -> blocks m !! dst = Some old ->
  n = Z.of_nat (length bs) -> length old = length bs ->
  copy_object dst src n m = Ok (tt, mk_mem (<[dst := bs]> (blocks m)) (brk m) (oom m)).
Proof.
  intros Hs Hd -> Hl. unfold copy_object, load, store.
  rewrite bind_Ok with (a := bs) (s' := m).
  - rewrite Hd, write_bytes_ok by lia. cbn [mbind outcome_bind]. unfold splice. simpl.
    by rewrite drop_ge, app_nil_r by lia.
  - rewrite Hs, read_bytes_ok by lia. cbn [mbind outcome_bind]. simpl. by rewrite Nat2Z.id, firstn_all.
Qed.

Lemma copy_event m a bs : room m 16 -> brk m < a -> length bs = 8%nat ->
  kmath_val_ctor a KOBJ_OTHERS 8 (Some kylin_malloc) (with_local a bs m) =
  Ok (brk m, mk_mem (<[a := bs]> (<[brk m := bs]> (blocks m))) (brk m + 16) []).
Proof.
  intros [Ho Hr] Ha Hl. cbn [kmath_val_ctor].
  assert (E : kylin_malloc 8 (with_local a bs m) =
    Ok (brk m, mk_mem (<[brk m := replicate 8 0]> (<[a := bs]> (blocks m))) (brk m + 16) [])).
  { unfold kylin_malloc, alloc_addr, with_local. cbn [oom brk blocks]. rewrite Ho.
    by rewrite (proj2 (Z.ltb_lt (brk m + Z.max 16 8) (2 ^ 63))) by lia. }
  run E. erewrite bind_Ok; [|eapply copy_whole with (old := replicate 8 0) (bs := bs)]; cbn [blocks brk oom].
  - rewrite insert_insert_eq, insert_insert_ne by lia. reflexivity.
  - by rewrite lookup_insert_ne, lookup_insert_eq by lia.
  - apply lookup_insert_eq.
  - by rewrite Hl.
  - by rewrite length_replicate, Hl.
Qed.

Lemma length_event fd fl : length (event_bytes fd fl) = 8%nat.
Proof. reflexivity. Qed.

(** A new event behind the others. *)
Lemma loop_append s s' guard L p g g2 l e a : loop_at s guard L p g l ->
  s_opts g2 = events_opts -> kset_ok g2 -> values g2 = values g ++ [a] -> event_ok e ->
  eplugin s' = eplugin s -> sets s' !! l_set L = Some g2 ->
  a <> guard -> a ∉ values g -> blocks (emem_of s') !! a = Some (event_bytes e.1 e.2) ->
  (forall b, b = guard \/ b ∈ values g -> blocks (emem_of s') !! b = blocks (emem_of s) !! b) ->
  loop_at s' guard L p g2 (l ++ [e]).
Proof.
  intros [Q1 Q2 Q3 Q4 Q5 Q6 Q7 H Q9] Ho Hok Ev He Ep Es Hg Ha Hb Hsame. split; try done.
  - by rewrite Hsame by (by left).
  - by rewrite Ep.
  - split; [done|done| | |].
    + rewrite Ev. apply Forall2_app; [|by constructor].
      apply (ho_at _ _ _ (holds_frame _ (emem_of s') _ _ H (fun b Hb => Hsame b (or_intror Hb)))).
    + rewrite Ev. apply NoDup_app. split; [apply H|]. split; [|apply NoDup_singleton].
      by intros b Hb2 ->%list_elem_of_singleton.
    + apply Forall_app. split; [apply H|]. by constructor.
  - rewrite Ev. by intros [?|Eg%list_elem_of_singleton]%elem_of_app.
Qed.

(** [kylin_event_add] up to the call of the plug-in: the event is in the set. *)
Definition finish_add (r : outcome (Z * est)) : outcome (Z * est) :=
  match r with Ok (r, s) => Ok (r, without STACK_EVENT s) | Ub => Ub | OutOfFuel => OutOfFuel end.

Record added (s : est) (guard : Z) (L : loop) (p : kevent_plugin_t) (l : list (Z * Z)) (e : Z * Z) (s2 : est) : Prop := {
  ad_loop : exists g, loop_at s2 guard L p g (l ++ [e]);
  ad_out : exists g, loop_at (without STACK_EVENT s2) guard L p g (l ++ [e]);
  ad_mem : mem_ok (emem_of (without STACK_EVENT s2));
  ad_brk : brk (emem_of s2) = brk (emem_of s) + 16;
  ad_oom : oom (emem_of s2) = [];
  ad_hist : ehist s2 = ehist s;
  ad_kept : forall a bs, blocks (emem_of s) !! a = Some bs -> blocks (emem_of s2) !! a = Some bs;
}.

Lemma add_step sys user s guard L p g l fd fl : loop_at s guard L p g l -> mem_ok (emem_of s) ->
  room (emem_of s) 16 -> event_ok (fd, fl) -> Z.of_nat (length l) < 4096 ->
  exists s2, added s guard L p l (fd, fl) s2 /\
    kylin_event_add sys user guard fd fl s =
      finish_add (then_ (through guard r_add (fun f => do_add sys user f guard fd fl)) (mret KOK) s2).
Proof.
  intros R Hm Hroom He Hl. pose proof (lp_holds _ _ _ _ _ _ R) as H. pose proof (holds_used H) as Hu.
  set (bs := event_bytes fd fl). set (m := emem_of s) in *.
  assert (Hbrk : brk m < STACK_EVENT) by (destruct Hroom; unfold STACK_EVENT; lia).
  assert (Hbelow : forall a, a = guard \/ a ∈ values g -> a <> brk m /\ a <> STACK_EVENT).
  { intros a Ha. assert (0 < a < brk m) by exact (loop_below _ _ _ _ _ _ _ R Hm Ha). lia. }
  set (m2 := mk_mem (<[STACK_EVENT := bs]> (<[brk m := bs]> (blocks m))) (brk m + 16) []).
  assert (Hfree : blocks m !! brk m = None) by (by apply mem_ok_fresh).
  assert (Hg2 : forall a, a = guard \/ a ∈ values g -> blocks m2 !! a = blocks m !! a).
  { intros a Ha. specialize (Hbelow a Ha). simpl. by rewrite !lookup_insert_ne by lia. }
  destruct (insert_spec g STACK_EVENT (with_local STACK_EVENT bs m) (brk m) m2) as (g2 & Ei & Hok2 & Eo & Eu & Ev).
  { apply H. }
  { rewrite (ho_opts _ _ _ H), Hu. exact Hl. }
  { destruct Hm as [? _]. unfold is_u. lia. }
  { eapply holds_alive, holds_frame; [exact H|]. auto. }
  { rewrite (ho_opts _ _ _ H). by apply copy_event. }
  rewrite (ho_opts _ _ _ H) in Eo, Ev. simpl in Ev.
  set (s1 := with_mem s (with_local STACK_EVENT bs m)).
  set (s2 := mk_est (eid s) (elist s) (eplugin s) (mk_st (guards (eheap s)) m2 (kerrno (eheap s)))
    (<[l_set L := g2]> (sets s)) (ehist s)).
  assert (R1 : loop_at s1 guard L p g l).
  { eapply loop_frame; [exact R|done|done|]. intros a Ha. specialize (Hbelow a Ha). simpl.
    by rewrite lookup_insert_ne by lia. }
  assert (Hl2 : forall s', eplugin s' = eplugin s -> sets s' = sets s2 ->
    (forall a, a <> STACK_EVENT -> blocks (emem_of s') !! a = blocks m2 !! a) -> loop_at s' guard L p g2 (l ++ [(fd, fl)])).
  { intros s' Ep Es Eb. eapply loop_append with (a := brk m); [exact R|done..| | | | |].
    - rewrite Es. apply lookup_insert_eq.
    - intros E. by destruct (Hbelow guard (or_introl eq_refl)).
    - intros Ha. by destruct (Hbelow _ (or_intror Ha)).
    - rewrite Eb by lia. simpl. by rewrite lookup_insert_ne, lookup_insert_eq by lia.
    - intros b Hb. rewrite Eb by (by apply Hbelow). by apply Hg2. }
  exists s2. split.
  - split; [exists g2; by apply Hl2|exists g2; apply Hl2; try done| |done|done|done|].
    + intros a Ha. simpl. by rewrite lookup_delete_ne by done.
    + split; simpl; [destruct Hroom, Hm; lia|]. intros a b Ha. apply lookup_delete_Some in Ha as [Hn Ha].
      rewrite lookup_insert_ne in Ha by done. apply lookup_insert_Some in Ha as [[<- _]|[_ Ha]];
        destruct Hm as [Hb Hm]; [lia|]. specialize (Hm _ _ Ha). lia.
    + intros a b Ha. simpl. assert (0 < a < brk m) by (by eapply Hm). by rewrite !lookup_insert_ne by lia.
  - unfold kylin_event_add, local. change (mem_of s) with m.
    change (with_mem s _) with s1. run (loop_set_eq R1).
    unfold then_ at 1, set_insert. rewrite bind_Ok with (a := KOK) (s' := s2); [done|].
    run (loop_get_set R1). erewrite bind_Ok; [|apply emem_eq with (m := m2)]. 2:{ cbv beta. change (emem_of s1) with (with_local STACK_EVENT bs m). rewrite Ei. reflexivity. }
    reflexivity.
Qed.

(** *** Removal and change *)
Section Ops.
Context {s : est} {guard : Z} {L : loop} {p : kevent_plugin_t} {g : kset_t} {l : list (Z * Z)}.
Hypothesis R : loop_at s guard L p g l.
Hypothesis Hm : mem_ok (emem_of s).

Lemma set_find_eq fd fl : - 2 ^ 31 <= fd < 2 ^ 31 ->
  set_find (l_set L) (event_bytes fd fl) s = Ok (i ← find_fd fd l; event_ptr g i, s).
Proof using R.
  intros Hfd. unfold set_find. run (loop_get_set R). apply emem_pure. cbv beta.
  by rewrite (holds_find (lp_holds _ _ _ _ _ _ R)).
Qed.

(** An event of the loop, as an object. *)
Lemma event_at i e : l !! i = Some e -> exists a, values g !! i = Some a /\ a <> NULL /\ a <> guard /\
  blocks (emem_of s) !! a = Some (event_bytes e.1 e.2) /\ event_ok e.
Proof using R Hm.
  intros E. destruct (holds_get (lp_holds _ _ _ _ _ _ R) i e E) as (a & Ha & Hb & He). exists a.
  split; [done|]. pose proof (list_elem_of_lookup_2 _ _ _ Ha) as Hin.
  pose proof (loop_below _ _ _ _ _ _ a R Hm (or_intror Hin)). split; [unfold NULL; lia|].
  split; [|done]. intros ->. by apply (lp_apart _ _ _ _ _ _ R).
Qed.

Lemma event_flags a e : blocks (emem_of s) !! a = Some (event_bytes e.1 e.2) -> event_ok e -> eget EV_FLAGS a s = Ok (e.2, s).
Proof using Type.
  intros Hb [_ He]. eapply eget_eq, (get_field_ok _ _ (le_bytes 4 e.1) 4 _ []); [|done..].
  unfold event_bytes in Hb. by rewrite app_nil_r.
Qed.

Lemma event_fd a e : blocks (emem_of s) !! a = Some (event_bytes e.1 e.2) -> eget EV_FD a s = Ok (u32 e.1, s).
Proof using Type.
  intros Hb. apply eget_eq. unfold EV_FD, get_field. cbn [fst snd].
  assert (E : load_at a 0 4 (emem_of s) = Ok (le_bytes 4 e.1, emem_of s))
    by (eapply (load_at_ok _ _ []); [exact Hb|done]).
  run E. by rewrite le_value_le_bytes.
Qed.

Lemma loop_delete s' g2 i : s_opts g2 = events_opts -> kset_ok g2 -> values g2 = delete i (values g) ->
  eplugin s' = eplugin s -> sets s' !! l_set L = Some g2 -> eheap s' = eheap s -> loop_at s' guard L p g2 (delete i l).
Proof using R.
  pose proof R as [Q1 Q2 Q3 Q4 Q5 Q6 Q7 H Q9]. intros Ho Hok Ev Ep Es Eh.
  assert (Hsub : delete i (values g) `sublist_of` values g) by apply sublist_delete.
  split; rewrite ?Eh, ?Ep; try done.
  - split; rewrite ?Ev; try done.
    + apply Forall2_delete, H.
    + eapply sublist_NoDup; [|done]. apply H.
    + apply Forall_delete, H.
  - rewrite Ev. intros Hin. apply Q9. by eapply elem_of_sublist.
Qed.

Lemma loop_change s' i a e e' : l !! i = Some e -> values g !! i = Some a -> event_ok e' ->
  eplugin s' = eplugin s -> sets s' = sets s -> blocks (emem_of s') = <[a := event_bytes e'.1 e'.2]> (blocks (emem_of s)) ->
  loop_at s' guard L p g (<[i := e']> l).
Proof using R.
  pose proof R as [Q1 Q2 Q3 Q4 Q5 Q6 Q7 H Q9]. intros Hl Ha He Ep Es Eb.
  pose proof (list_elem_of_lookup_2 _ _ _ Ha) as Hin.
  split; rewrite ?Ep, ?Es, ?Eb; try done.
  - rewrite lookup_insert_ne; [done|]. by intros ->.
  - split; try apply H; [|by apply Forall_insert; [apply H|]].
    apply Forall2_same_length_lookup_2; [rewrite length_insert; apply (holds_length H)|].
    intros j b f Hb Hf. rewrite Eb. destruct (decide (j = i)) as [->|Hne].
    + rewrite list_lookup_insert_eq in Hf by (by eapply lookup_lt_Some). simplify_eq. by rewrite lookup_insert_eq.
    + rewrite list_lookup_insert_ne in Hf by done. rewrite lookup_insert_ne.
      * exact (Forall2_lookup_lr _ _ _ _ _ _ (ho_at _ _ _ H) Hb Hf).
      * intros ->. apply Hne. symmetry. by eapply NoDup_lookup; [apply H| |].
Qed.

Lemma set_remove_eq fd fl i : - 2 ^ 31 <= fd < 2 ^ 31 -> find_fd fd l = Some i -> exists s' g2,
  set_remove (l_set L) (event_bytes fd fl) s = Ok (KOK, s') /\ loop_at s' guard L p g2 (delete i l) /\
  eheap s' = eheap s.
Proof using R.
  intros Hfd Hi. pose proof (lp_holds _ _ _ _ _ _ R) as H.
  pose proof (remove_by_index_spec g (Z.of_nat i) (ho_ok _ _ _ H) ltac:(lia)) as E.
  destruct (find_fd_lt _ _ _ Hi) as (e & He & _). apply lookup_lt_Some in He.
  rewrite (holds_used H), (proj2 (Z.leb_gt _ _)) in E by lia.
  destruct E as (g2 & Er & Hok & Ho & _ & Ev). rewrite Nat2Z.id in Ev.
  eexists _, g2. split; [|split].
  - unfold set_remove. run (loop_get_set R). erewrite bind_Ok; [|apply emem_pure; cbv beta].
    2:{ unfold kylin_set_remove. rewrite (lookup_key_spec _ _ _ (ho_ok _ _ _ H) (holds_alive H)), (holds_index H), Hi by done.
        cbn [mbind outcome_bind]. rewrite Er. reflexivity. }
    reflexivity.
  - apply loop_delete; try done; [by rewrite Ho, (ho_opts _ _ _ H)|apply lookup_insert_eq].
  - done.
Qed.
End Ops.

(** ** The list of events *)
Inductive event_call := Add (fd flags : Z) | Del (fd flags : Z) | Count | Flags (fd : Z).

(** What is asked of the code; the last call returns the flags of the event
    found, if any. *)
Definition run_event (sys : system) (user : user_ops) (guard : Z) (c : event_call) : M est (option Z) :=
  match c with
  | Add fd flags => r ← kylin_event_add sys user guard fd flags; mret (Some r)
  | Del fd flags => r ← kylin_event_del sys user guard fd flags; mret (Some r)
  | Count => n ← kylin_event_event_count guard; mret (Some n)
  | Flags fd =>
      event ← kylin_event_event_get_by_fd guard fd;
      if event =? NULL then mret None else flags ← eget EV_FLAGS event; mret (Some flags)
  end.

(** The same on the list.  [Add] does not look for the descriptor; [Del] removes
    its first event if the flags are the same, and otherwise sets its flags. *)
Definition spec_event (l : list (Z * Z)) (c : event_call) : option (option Z * list (Z * Z)) :=
  Some (match c with
  | Add fd flags =>
      if Z.of_nat (length l) =? 4096 then (Some (kerr_code KYLIN_ERROR_INVAL), l) else (Some KOK, l ++ [(fd, flags)])
  | Del fd flags =>
      match i ← find_fd fd l; e ← l !! i; Some (i, e) with
      | None => (Some NOENT, l)
      | Some (i, e) => (Some KOK, if e.2 =? flags then delete i l else <[i := (fd, flags)]> l)
      end
  | Count => (Some (Z.of_nat (length l)), l)
  | Flags fd => (i ← find_fd fd l; snd <$> l !! i, l)
  end).

Definition call_ok (c : event_call) : Prop :=
  match c with
  | Add fd flags | Del fd flags => event_ok (fd, flags)
  | Count => True
  | Flags fd => - 2 ^ 31 <= fd < 2 ^ 31
  end.

(** A plug-in without a state of its own. *)
Definition passive (p : kevent_plugin_t) : Prop :=
  r_add (p_reg p) = Some Poll /\ r_del (p_reg p) = Some Poll /\ r_mod (p_reg p) = Some Poll.

Section Calls.
Context (sys : system) (user : user_ops) (guard : Z) (L : loop) (p : kevent_plugin_t).
Hypothesis Hp : passive p.

(** [n] more events fit in the heap. *)
Definition inv (n : nat) (s : est) (l : list (Z * Z)) : Prop :=
  mem_ok (emem_of s) /\ room (emem_of s) (16 * Z.of_nat n) /\ (length l <= 4096)%nat /\ exists g, loop_at s guard L p g l.

Lemma inv_weaken n s l : inv (S n) s l -> inv n s l.
Proof using Type. intros (Hm & [Ho Hr] & R). split; [done|]. split; [|done]. split; [done|lia]. Qed.

(** Nothing but a local variable comes and goes. *)
Lemma inv_same n s s' l : inv (S n) s l -> eplugin s' = eplugin s -> (forall a, sets s' !! a = sets s !! a) ->
  blocks (emem_of s') = blocks (emem_of s) -> brk (emem_of s') = brk (emem_of s) -> oom (emem_of s') = oom (emem_of s) ->
  inv n s' l.
Proof using Type.
  intros (Hm & [Ho Hr] & Hl & g & R) Ep Es Eb Et Eo. split; [|split; [|split; [done|exists g]]].
  - unfold mem_ok. by rewrite Eb, Et.
  - split; [by rewrite Eo|]. rewrite Et. lia.
  - eapply loop_frame; [exact R|done|done|]. intros a _. by rewrite Eb.
Qed.

Lemma add_call n s l fd fl : inv (S n) s l -> event_ok (fd, fl) -> Z.of_nat (length l) <> 4096 ->
  exists s', kylin_event_add sys user guard fd fl s = Ok (KOK, s') /\ inv n s' (l ++ [(fd, fl)]).
Proof using Hp.
  intros (Hm & [Ho Hr] & Hle & g & R) He Hl.
  destruct (add_step sys user s guard L p g l fd fl R Hm) as (s2 & [[g2 R2] [g3 R3] Hm2 Hb Hoo _ _] & ->);
    [split; [done|lia]|done|lia|].
  unfold then_ at 1. erewrite bind_Ok; [|by rewrite (through_eq R2 r_add _ Poll (proj1 Hp))]. cbn.
  eexists. split; [reflexivity|]. split; [done|]. split; [|split; [rewrite length_app; simpl; lia|by exists g3]].
  split; [done|]. simpl. rewrite Hb. lia.
Qed.

Lemma add_full n s l fd fl : inv (S n) s l -> Z.of_nat (length l) = 4096 -> exists s',
  kylin_event_add sys user guard fd fl s = Ok (kerr_code KYLIN_ERROR_INVAL, s') /\ inv n s' l.
Proof using Type.
  intros Hi Hl. pose proof Hi as (Hm & [Ho Hr] & Hle & g & R). pose proof (lp_holds _ _ _ _ _ _ R) as H.
  assert (Hno : blocks (emem_of s) !! STACK_EVENT = None).
  { destruct (blocks (emem_of s) !! STACK_EVENT) eqn:E; [|done]. apply Hm in E. unfold STACK_EVENT in *. lia. }
  set (m1 := with_local STACK_EVENT (event_bytes fd fl) (emem_of s)).
  assert (R1 : loop_at (with_mem s m1) guard L p g l).
  { eapply loop_frame; [exact R|done|done|]. intros a Ha. simpl. rewrite lookup_insert_ne; [done|].
    pose proof (loop_below _ _ _ _ _ _ _ R Hm Ha). unfold STACK_EVENT. lia. }
  eexists. split.
  - unfold kylin_event_add. apply local_eq with (s' := mk_est (eid s) (elist s) (eplugin s)
      (mk_st (guards (eheap s)) m1 (kerrno (eheap s))) (<[l_set L := g]> (sets s)) (ehist s)).
    run (loop_set_eq R1). unfold then_ at 1, set_insert.
    rewrite bind_Ok with (a := kerr_code KYLIN_ERROR_INVAL) (s' := mk_est (eid s) (elist s) (eplugin s)
      (mk_st (guards (eheap s)) m1 (kerrno (eheap s))) (<[l_set L := g]> (sets s)) (ehist s)); [done|].
    run (loop_get_set R1). erewrite bind_Ok; [|apply emem_pure; cbv beta].
    2:{ unfold kylin_set_insert. rewrite (holds_used H), Hl, (ho_opts _ _ _ H). reflexivity. }
    reflexivity.
  - apply inv_same with s; try done.
    + intros a. simpl. destruct (decide (a = l_set L)) as [->|]; [|by rewrite lookup_insert_ne].
      by rewrite lookup_insert_eq, (lp_at _ _ _ _ _ _ R).
    + simpl. by rewrite delete_insert_id.
Qed.

Lemma del_none n s l fd fl : inv n s l -> - 2 ^ 31 <= fd < 2 ^ 31 -> find_fd fd l = None ->
  kylin_event_del sys user guard fd fl s = Ok (NOENT, s).
Proof using Type.
  intros (Hm & _ & _ & g & R) Hfd Hi. unfold kylin_event_del.
  run (loop_set_eq R). run (set_find_eq R fd fl Hfd). by rewrite Hi.
Qed.

Lemma del_found n s l fd fl i e : inv (S n) s l -> event_ok (fd, fl) -> find_fd fd l = Some i -> l !! i = Some e ->
  exists s', kylin_event_del sys user guard fd fl s = Ok (KOK, s') /\
    inv n s' (if e.2 =? fl then delete i l else <[i := (fd, fl)]> l).
Proof using Hp.
  intros Hi [Hfd Hfl] Hf He. simpl in Hfd, Hfl. pose proof (inv_weaken _ _ _ Hi) as (Hm & Hr & Hle & g & R).
  destruct (event_at R Hm i e He) as (a & Ha & Hn & Hg & Hb & Hok).
  destruct (find_fd_lt _ _ _ Hf) as (e' & He' & Efd). assert (e' = e) as -> by congruence.
  destruct Hp as (_ & Hdel & Hmod). unfold kylin_event_del.
  run (loop_set_eq R). run (set_find_eq R fd fl Hfd). rewrite Hf. cbn [mbind option_bind]. unfold event_ptr. rewrite Ha. simpl.
  rewrite (proj2 (Z.eqb_neq _ _) Hn). run (event_flags a e Hb Hok).
  rewrite (uw_id 32 fl) by done. destruct (Z.eqb_spec e.2 fl) as [Eq|Ne].
  - unfold then_. erewrite bind_Ok; [|by rewrite (through_eq R r_del _ Poll Hdel)]. cbn [Z.eqb KOK kerr_code].
    run (loop_set_eq R).
    assert (Eb : elem_bytes (l_set L) (PObj a) s = Ok (event_bytes fd e.2, s)).
    { unfold elem_bytes. run (loop_get_set R). apply emem_pure. cbv beta. simpl. by rewrite Hb, Efd. }
    run Eb. destruct (set_remove_eq R fd e.2 i Hfd Hf) as (s' & g2 & Er & R2 & Eh).
    run Er. exists s'. split; [done|]. rewrite <- Eh in Hm, Hr. split; [done|]. split; [done|]. split; [|by exists g2].
    pose proof (sublist_length _ _ (sublist_delete l i)). lia.
  - unfold then_. erewrite bind_Ok; [|by rewrite (through_eq R r_mod _ Poll Hmod)]. cbn [Z.eqb KOK kerr_code].
    set (m' := mk_mem (<[a := event_bytes fd fl]> (blocks (emem_of s))) (brk (emem_of s)) (oom (emem_of s))).
    assert (Ew : eput EV_FLAGS a fl s = Ok (tt, with_mem s m')).
    { apply emem_eq. unfold EV_FLAGS, put_field. cbn [fst snd].
      rewrite (store_at_ok _ a (le_bytes 4 fd) (le_bytes 4 e.2) (le_bytes 4 fl) []); [|by rewrite Hb, Efd, app_nil_r|done|done].
      by rewrite app_nil_r. }
    run Ew. eexists. split; [reflexivity|]. split; [|split; [done|split; [by rewrite length_insert|exists g]]].
    + by eapply mem_ok_overwrite.
    + by apply (loop_change R _ i a e).
Qed.

Lemma count_call n s l : inv n s l -> kylin_event_event_count guard s = Ok (Z.of_nat (length l), s).
Proof using Type.
  intros (_ & _ & Hle & g & R). unfold kylin_event_event_count. run (loop_set_eq R). run (loop_get_set R).
  unfold kylin_set_count. rewrite (holds_used (lp_holds _ _ _ _ _ _ R)).
  unfold mret, M_ret. do 2 f_equal. apply Z.mod_small. lia.
Qed.

Lemma by_fd_call n s l fd : inv n s l -> - 2 ^ 31 <= fd < 2 ^ 31 ->
  run_event sys user guard (Flags fd) s = Ok (i ← find_fd fd l; snd <$> l !! i, s).
Proof using Type.
  intros (Hm & _ & _ & g & R) Hfd. simpl.
  assert (E : kylin_event_event_get_by_fd guard fd s =
    Ok (match i ← find_fd fd l; event_ptr g i with Some p => vptr_addr p | None => NULL end, s)).
  { unfold kylin_event_event_get_by_fd. run (loop_set_eq R). by run (set_find_eq R fd 0 Hfd). }
  run E. destruct (find_fd fd l) as [i|] eqn:Hf; [|done]. simpl.
  destruct (find_fd_lt _ _ _ Hf) as (e & He & _).
  destruct (event_at R Hm i e He) as (a & Ha & Hn & _ & Hb & Hok).
  unfold event_ptr. rewrite Ha, He. simpl. rewrite (proj2 (Z.eqb_neq _ _) Hn). by run (event_flags a e Hb Hok).
Qed.

Lemma event_call_ok n s l c r l' : inv (S n) s l -> call_ok c -> spec_event l c = Some (r, l') ->
  exists s', run_event sys user guard c s = Ok (r, s') /\ inv n s' l'.
Proof using Hp.
  intros Hi Hc Hs. pose proof (inv_weaken _ _ _ Hi) as Hi'. destruct c as [fd fl|fd fl| |fd]; unfold spec_event in Hs; cbn [run_event].
  - destruct (Z.eqb_spec (Z.of_nat (length l)) 4096) as [E|E]; injection Hs as <- <-.
    + destruct (add_full n s l fd fl Hi E) as (s' & Ea & H). exists s'. by run Ea.
    + destruct (add_call n s l fd fl Hi Hc E) as (s' & Ea & H). exists s'. by run Ea.
  - destruct Hc as [Hfd Hfl]. destruct (find_fd fd l) as [i|] eqn:Hf; cbn [mbind option_bind] in Hs.
    + destruct (find_fd_lt _ _ _ Hf) as (e & He & _). rewrite He in Hs. cbn [mbind option_bind] in Hs.
      injection Hs as <- <-.
      destruct (del_found n s l fd fl i e Hi (conj Hfd Hfl) Hf He) as (s' & Ed & H). exists s'. by run Ed.
    + injection Hs as <- <-. run (del_none _ s l fd fl Hi' Hfd Hf). by exists s.
  - injection Hs as <- <-. run (count_call _ s l Hi'). by exists s.
  - injection Hs as <- <-. exists s. split; [exact (by_fd_call n s l fd Hi' Hc)|done].
Qed.
End Calls.

(** C17. The set of an event loop with a passive back end is a list of events:
    along every sequence of additions, removals, counts and searches the code
    returns what the list gives, as long as the heap has room for the events.
    An addition never looks whether the descriptor is there, and the 4097th is
    refused. *)
Theorem event_set_refines_list sys user guard L p g s l calls rs :
  passive p -> loop_at s guard L p g l -> mem_ok (emem_of s) ->
  room (emem_of s) (16 * Z.of_nat (length calls)) -> (length l <= 4096)%nat ->
  Forall call_ok calls -> spec_all spec_event l calls = Some rs ->
  exists s', run_all (run_event sys user guard) calls s = Ok (rs, s').
Proof.
  intros Hp R Hm Hr Hl Hok Hs.
  eapply (simulation (run_event sys user guard) spec_event (inv guard L p) call_ok); [|split; [done|eauto]|done..].
  intros n s1 l1 c r l2. by apply event_call_ok.
Qed.

(** A loop without events, of the type [poll]. *)
Definition sample_loop : loop := mk_loop 0 KEVENT_TYPE_POLL (replicate 40 0) 0 4096.
Definition sample_set : kset_t := mk_kset events_opts 0 (replicate 4096 0).
Definition sample_state (sl : Z) : est :=
  mk_est 1 sl default_eplugin
    (mk_st ∅ (mk_mem {[16 := loop_block 0 KEVENT_TYPE_POLL (replicate 40 0) 0 4096]} 8192 []) None) {[4096 := sample_set]} [].
Definition quiet_system : system :=
  mk_system (fun _ => 0) (fun _ => ([], [], [])) (fun _ => []) (fun _ => []).
Definition no_user : user_ops :=
  mk_user (fun _ _ _ _ => mret 0) (fun _ _ _ _ => mret 0) (fun _ _ _ _ => mret 0) (fun _ _ _ => mret 0)
    (fun _ => mret 0) (fun _ _ => mret tt) (fun _ => mret 0) (fun _ => mret tt).

Lemma sample_at sl : loop_at (sample_state sl) 16 sample_loop (mk_plugin 0 KEVENT_TYPE_POLL (builtin_reg Poll)) sample_set [].
Proof.
  split; try done; try (unfold is_u; simpl; unfold KEVENT_TYPE_POLL; lia).
  - split; [done| |constructor..]. split; [done|reflexivity|done|].
    apply Forall_replicate. unfold is_u. lia.
  - apply not_elem_of_nil.
Qed.

Lemma sample_mem sl : mem_ok (emem_of (sample_state sl)).
Proof.
  split; simpl; [lia|]. intros a bs Ha. apply lookup_singleton_Some in Ha as [<- _]. lia.
Qed.

Lemma event_set_refines_list_witness :
  exists s', run_all (run_event quiet_system no_user 16) [Add 3 1; Add 3 2; Count; Flags 3; Del 3 2; Del 3 2; Count; Del 9 1]
    (sample_state 0) = Ok ([Some 0; Some 0; Some 2; Some 1; Some 0; Some 0; Some 1; Some 2], s').
Proof.
  apply (event_set_refines_list quiet_system no_user 16 sample_loop (mk_plugin 0 KEVENT_TYPE_POLL (builtin_reg Poll))
    sample_set (sample_state 0) []).
  - repeat split.
  - apply sample_at.
  - apply sample_mem.
  - split; [reflexivity|simpl; lia].
  - simpl. lia.
  - repeat constructor; unfold is_u; simpl; lia.
  - vm_compute. reflexivity.
Defined.
