(* ===== verification/EventPoll.v ===== *)
(** * Waiting with [poll]

    [kpoll_proc] copies the events of a loop into an array, asks [poll] and
    calls the callbacks of what is ready.  What it does for an event loop whose
    events have distinct descriptors, and what happens when a descriptor was
    added twice; the two other back ends at their first calls. *)

From S2P Require Import Prelude Errors Bytes Mem MathVal KSet KList Plugin Event EventSet.

(** ** The array of [struct pollfd] *)
Definition pollfd (x : Z * Z * Z) : list Z := le_bytes 4 x.1.1 ++ le_bytes 2 x.1.2 ++ le_bytes 2 x.2.
Definition array (l : list (Z * Z * Z)) : list Z := concat (map pollfd l).

Lemma length_array l : length (array l) = (8 * length l)%nat.
Proof. induction l as [|x l IH]; [done|]. unfold array in *. simpl. rewrite IH. lia. Qed.

Lemma array_split l j x : l !! j = Some x ->
  array l = array (take j l) ++ pollfd x ++ array (drop (S j) l) /\ length (array (take j l)) = (8 * j)%nat.
Proof.
  intros H. rewrite <- (take_drop_middle l j x H) at 1. unfold array. rewrite map_app, concat_app. split; [done|].
  fold (array (take j l)). rewrite length_array, length_take_le; [done|]. apply lookup_lt_Some in H. lia.
Qed.

Lemma array_insert l j x y : l !! j = Some x ->
  array (<[j := y]> l) = array (take j l) ++ pollfd y ++ array (drop (S j) l).
Proof.
  intros H. pose proof (lookup_lt_Some _ _ _ H). unfold array.
  rewrite (insert_take_drop l j y) by done. by rewrite map_app, concat_app.
Qed.

(** The state with other bytes in an object. *)
Definition upd (s : est) (a : Z) (bs : list Z) : est :=
  with_mem s (mk_mem (<[a := bs]> (blocks (emem_of s))) (brk (emem_of s)) (oom (emem_of s))).

Lemma upd_upd s a bs bs' : upd (upd s a bs) a bs' = upd s a bs'.
Proof. unfold upd. simpl. by rewrite insert_insert_eq. Qed.

Lemma upd_block s a bs : blocks (emem_of (upd s a bs)) !! a = Some bs.
Proof. simpl. by rewrite lookup_insert_eq. Qed.

(** A member of entry [j], read and written. *)
Section Entry.
Context (s : est) (fds : Z) (l : list (Z * Z * Z)) (j : nat) (fd ev rev : Z).
Hypothesis Hj : l !! j = Some (fd, ev, rev).

Lemma entry_get off w v x n y : pollfd (fd, ev, rev) = x ++ le_bytes n v ++ y ->
  w = Z.of_nat n -> off = 8 * Z.of_nat j + Z.of_nat (length x) -> is_u (8 * w) v ->
  eget (off, w) fds (upd s fds (array l)) = Ok (v, upd s fds (array l)).
Proof using Hj.
  intros E Hw Ho Hv. destruct (array_split l j _ Hj) as [Ea El].
  eapply eget_eq, (get_field_ok _ _ (array (take j l) ++ x) n v (y ++ array (drop (S j) l)));
    [|done|by rewrite length_app, El; lia|done].
  rewrite upd_block. f_equal. rewrite Ea, E, <- !app_assoc. done.
Qed.

Lemma entry_put off w v x old n y e' : pollfd (fd, ev, rev) = x ++ old ++ y -> pollfd e' = x ++ le_bytes n v ++ y ->
  length old = n -> w = Z.of_nat n -> off = 8 * Z.of_nat j + Z.of_nat (length x) ->
  eput (off, w) fds v (upd s fds (array l)) = Ok (tt, upd s fds (array (<[j := e']> l))).
Proof using Hj.
  intros E E' Ho -> Hoff. destruct (array_split l j _ Hj) as [Ea El].
  unfold eput. rewrite (emem_eq _ _ tt (mk_mem (<[fds := array (<[j := e']> l)]> (<[fds := array l]> (blocks (emem_of s))))
    (brk (emem_of s)) (oom (emem_of s)))).
  - simpl. unfold upd. simpl. by rewrite insert_insert_eq.
  - unfold put_field. cbn [fst snd]. rewrite Nat2Z.id, (array_insert l j _ e' Hj), E'.
    rewrite (store_at_ok _ fds (array (take j l) ++ x) old (le_bytes n v) (y ++ array (drop (S j) l)) off).
    + by rewrite <- !app_assoc.
    + rewrite upd_block. f_equal. rewrite Ea, E, <- !app_assoc. done.
    + by rewrite length_le_bytes.
    + rewrite length_app, El. lia.
Qed.
End Entry.

Section Fields.
Context (s : est) (fds : Z) (l : list (Z * Z * Z)) (j : nat) (fd ev rev : Z).
Hypothesis Hj : l !! j = Some (fd, ev, rev).

Lemma put_entry_fd v : eput (PF_FD (Z.of_nat j)) fds v (upd s fds (array l)) = Ok (tt, upd s fds (array (<[j := (v, ev, rev)]> l))).
Proof using Hj. by eapply (entry_put s fds l j fd ev rev Hj _ _ v [] (le_bytes 4 fd) 4); [..|simpl; lia]. Qed.

Lemma put_events v :
  eput (PF_EVENTS (Z.of_nat j)) fds v (upd s fds (array l)) = Ok (tt, upd s fds (array (<[j := (fd, v, rev)]> l))).
Proof using Hj. by eapply (entry_put s fds l j fd ev rev Hj _ _ v (le_bytes 4 fd) (le_bytes 2 ev) 2). Qed.

Lemma put_revents v :
  eput (PF_REVENTS (Z.of_nat j)) fds v (upd s fds (array l)) = Ok (tt, upd s fds (array (<[j := (fd, ev, v)]> l))).
Proof using Hj.
  by eapply (entry_put s fds l j fd ev rev Hj _ _ v (le_bytes 4 fd ++ le_bytes 2 ev) (le_bytes 2 rev) 2 []).
Qed.

Lemma entry_fd : is_u 32 fd -> eget (PF_FD (Z.of_nat j)) fds (upd s fds (array l)) = Ok (fd, upd s fds (array l)).
Proof using Hj. intros H. by eapply (entry_get s fds l j fd ev rev Hj _ _ fd [] 4); [..|simpl; lia|]. Qed.

Lemma entry_events : is_u 16 ev -> eget (PF_EVENTS (Z.of_nat j)) fds (upd s fds (array l)) = Ok (ev, upd s fds (array l)).
Proof using Hj. intros H. by eapply (entry_get s fds l j fd ev rev Hj _ _ ev (le_bytes 4 fd) 2). Qed.

Lemma entry_revents : is_u 16 rev -> eget (PF_REVENTS (Z.of_nat j)) fds (upd s fds (array l)) = Ok (rev, upd s fds (array l)).
Proof using Hj. intros H. by eapply (entry_get s fds l j fd ev rev Hj _ _ rev (le_bytes 4 fd ++ le_bytes 2 ev) 2 []). Qed.

(** [fds[index].events |= bit] *)
Lemma or_events_eq bit : is_u 16 ev ->
  or_events fds (Z.of_nat j) bit (upd s fds (array l)) = Ok (tt, upd s fds (array (<[j := (fd, Z.lor ev bit, rev)]> l))).
Proof using Hj. intros H. unfold or_events. run (entry_events H). apply put_events. Qed.
End Fields.

(** What is asked of [poll] for the flags of an event. *)
Definition poll_mask (flags : Z) : Z :=
  Z.lor (if has flags KEVENT_FLAG_READ then POLLIN else 0) (if has flags KEVENT_FLAG_WRITE then POLLOUT else 0).

Lemma poll_mask_range flags : is_u 16 (poll_mask flags).
Proof. unfold poll_mask, is_u. by repeat case_match. Qed.

Lemma poll_entry_eq s fds l j a e : l !! j = Some (0, 0, 0) -> a <> fds ->
  blocks (emem_of s) !! a = Some (event_bytes e.1 e.2) -> event_ok e ->
  poll_entry fds (Z.of_nat j) a (upd s fds (array l)) =
    Ok (tt, upd s fds (array (<[j := (u32 e.1, poll_mask e.2, 0)]> l))).
Proof.
  intros Hj Ha Hb He. assert (Hlt : (j < length l)%nat) by (by eapply lookup_lt_Some).
  assert (Hb' : forall bs, blocks (emem_of (upd s fds bs)) !! a = Some (event_bytes e.1 e.2)).
  { intros bs. simpl. by rewrite lookup_insert_ne. }
  unfold poll_entry. run (event_fd a e (Hb' (array l))). run (put_entry_fd s fds l j 0 0 0 Hj (u32 e.1)).
  run (event_flags a e (Hb' (array (<[j := (u32 e.1, 0, 0)]> l))) He).
  set (l1 := <[j := (u32 e.1, 0, 0)]> l).
  assert (H1 : l1 !! j = Some (u32 e.1, 0, 0)) by (by apply list_lookup_insert_eq).
  set (m1 := if has e.2 KEVENT_FLAG_READ then POLLIN else 0).
  assert (E1 : (if has e.2 KEVENT_FLAG_READ then or_events fds (Z.of_nat j) POLLIN else mret tt) (upd s fds (array l1)) =
    Ok (tt, upd s fds (array (<[j := (u32 e.1, m1, 0)]> l)))).
  { subst m1. destruct (has _ _); [|done]. rewrite (or_events_eq s fds l1 j _ 0 0 H1) by done.
    subst l1. by rewrite list_insert_insert_eq. }
  run E1. run (event_flags a e (Hb' (array (<[j := (u32 e.1, m1, 0)]> l))) He).
  unfold poll_mask. fold m1. destruct (has e.2 KEVENT_FLAG_WRITE); [|by rewrite Z.lor_0_r].
  rewrite (or_events_eq s fds (<[j := (u32 e.1, m1, 0)]> l) j (u32 e.1) m1 0).
  - by rewrite list_insert_insert_eq.
  - by apply list_lookup_insert_eq.
  - subst m1. unfold is_u. by case_match.
Qed.

(** ** The walk over the events *)

Lemma find_fd_le fd l i e : l !! i = Some e -> e.1 = fd -> exists j, find_fd fd l = Some j /\ (j <= i)%nat.
Proof.
  intros He <-. destruct (find_fd e.1 l) as [j|] eqn:E.
  - exists j. split; [done|]. apply find_seq_Some in E as (_ & _ & Hlow).
    destruct (Nat.le_gt_cases j i) as [|Hlt]; [done|]. specialize (Hlow i ltac:(lia)). cbv beta in Hlow.
    rewrite He, Z.eqb_refl in Hlow. done.
  - pose proof (proj1 (find_seq_None _ _) E i ltac:(by eapply lookup_lt_Some)) as Hn. cbv beta in Hn.
    rewrite He, Z.eqb_refl in Hn. done.
Qed.

Lemma find_fd_distinct l i e : NoDup l.*1 -> l !! i = Some e -> find_fd e.1 l = Some i.
Proof.
  intros Hnd He. destruct (find_fd_le e.1 l i e He eq_refl) as (j & Ej & _). rewrite Ej. f_equal.
  destruct (find_fd_lt _ _ _ Ej) as (e' & He' & Efd). eapply (NoDup_lookup _ _ _ e.1 Hnd); rewrite list_lookup_fmap.
  - rewrite He'. simpl. by f_equal.
  - by rewrite He.
Qed.

(** A descriptor that is there twice. *)
Lemma find_fd_twice l : ~ NoDup l.*1 -> exists j e i, l !! j = Some e /\ find_fd e.1 l = Some i /\ (i < j)%nat.
Proof.
  intros Hnd.
  destruct (decide (Forall (fun j => (e ← l !! j; find_fd e.1 l) = Some j) (seq 0 (length l)))) as [H|H].
  - exfalso. apply Hnd, NoDup_alt. intros i j fd Hi Hj. rewrite list_lookup_fmap in Hi, Hj.
    rewrite Forall_forall in H.
    assert (Hat : forall k, (fst <$> l !! k) = Some fd -> find_fd fd l = Some k).
    { intros k Hk. destruct (l !! k) as [e|] eqn:Ek; [|done]. injection Hk as <-.
      pose proof (lookup_lt_Some _ _ _ Ek). specialize (H k ltac:(apply elem_of_seq; lia)). by rewrite Ek in H. }
    apply Hat in Hi, Hj. congruence.
  - apply not_Forall_Exists in H; [|solve_decision]. apply Exists_exists in H as (j & Hj & Hne).
    change (~ ((e ← l !! j; find_fd e.1 l) = Some j)) in Hne.
    apply elem_of_seq in Hj. destruct (lookup_lt_is_Some_2 l j ltac:(lia)) as [e He]. rewrite He in Hne. simpl in Hne.
    destruct (find_fd_le e.1 l j e He eq_refl) as (i & Ei & Hle). exists j, e, i. split; [done|]. split; [done|].
    destruct (decide (i = j)) as [->|]; [by destruct Hne|lia].
Qed.

(** The address of event [i]; NULL behind the last one. *)
Definition node (g : kset_t) (i : nat) : Z := default NULL (values g !! i).

Section Walk.
Context {s : est} {guard : Z} {L : loop} {p : kevent_plugin_t} {g : kset_t} {l : list (Z * Z)}.
Hypothesis R : loop_at s guard L p g l.
Hypothesis Hm : mem_ok (emem_of s).

Lemma node_at i e : l !! i = Some e -> node g i <> NULL /\ blocks (emem_of s) !! node g i = Some (event_bytes e.1 e.2) /\
  event_ok e /\ node g i ∈ values g.
Proof using R Hm.
  intros E. destruct (event_at R Hm i e E) as (a & Ha & Hn & _ & Hb & He). unfold node. rewrite Ha. simpl.
  split_and!; try done. by eapply list_elem_of_lookup_2.
Qed.

Lemma node_end i : (length l <= i)%nat -> node g i = NULL.
Proof using R.
  intros Hi. unfold node. rewrite lookup_ge_None_2; [done|].
  by rewrite (holds_length (lp_holds _ _ _ _ _ _ R)).
Qed.

Lemma event_ptr_node i : match event_ptr g i with Some q => vptr_addr q | None => NULL end = node g i.
Proof using Type. unfold event_ptr, node. by destruct (values g !! i). Qed.

Lemma next_call i j e : l !! i = Some e -> find_fd e.1 l = Some j ->
  kylin_event_event_get_next guard (node g i) s = Ok (node g (j + 1), s).
Proof using R Hm.
  intros He Hj. destruct (node_at i e He) as (_ & Hb & [Hfd _] & _). unfold kylin_event_event_get_next.
  run (loop_set_eq R). unfold set_next.
  assert (E : set_next (l_set L) (PObj (node g i)) s = Ok (event_ptr g (j + 1), s)).
  { unfold set_next, elem_bytes.
    assert (Eb : (g0 ← get_set (l_set L); emem (fun m => bs ← view g0 m (PObj (node g i)); Ok (bs, m))) s =
      Ok (event_bytes e.1 e.2, s)) by (run (loop_get_set R); apply emem_pure; cbv beta; simpl; by rewrite Hb).
    run Eb. run (loop_get_set R). apply emem_pure. cbv beta.
    by rewrite (holds_next (lp_holds _ _ _ _ _ _ R)), Hj. }
  run E. by rewrite event_ptr_node.
Qed.

Lemma first_call : l <> [] -> kylin_event_event_get_first guard s = Ok (node g 0, s).
Proof using R.
  intros Hl. unfold kylin_event_event_get_first. run (loop_set_eq R).
  destruct (holds_elem (lp_holds _ _ _ _ _ _ R) 0) as (q & Eq & Ep); [destruct l; [done|simpl; lia]|].
  assert (E : set_first (l_set L) s = Ok (q, s)).
  { unfold set_first. run (loop_get_set R). apply emem_pure. cbv beta. unfold kylin_set_first. by rewrite Eq. }
  run E. unfold mret, M_ret. by rewrite <- (event_ptr_node 0), Ep.
Qed.
End Walk.

Definition entry (e : Z * Z) : Z * Z * Z := (u32 e.1, poll_mask e.2, 0).

Section Fill.
Context {s : est} {guard : Z} {L : loop} {p : kevent_plugin_t} {g : kset_t} {l : list (Z * Z)}.
Hypothesis R : loop_at s guard L p g l.
Hypothesis Hm : mem_ok (emem_of s).
Context (fds : Z).
Hypothesis Hfds : is_Some (blocks (emem_of s) !! fds).
Hypothesis Hapart : fds <> guard /\ fds ∉ values g.

Lemma upd_loop bs : loop_at (upd s fds bs) guard L p g l /\ mem_ok (emem_of (upd s fds bs)).
Proof using R Hm Hfds Hapart.
  split.
  - eapply loop_frame; [exact R|done|done|]. intros a Ha. simpl. rewrite lookup_insert_ne; [done|].
    destruct Ha as [->|Ha]; [apply Hapart|]. intros ->. by apply Hapart.
  - destruct Hfds as [old Ho]. by eapply mem_ok_overwrite.
Qed.

(** One turn of the loop. *)
Lemma fill_turn fuel i j pos e arr : l !! pos = Some e -> find_fd e.1 l = Some j -> arr !! i = Some (0, 0, 0) ->
  poll_fill (S fuel) guard fds (Z.of_nat i) (node g pos) (upd s fds (array arr)) =
  poll_fill fuel guard fds (Z.of_nat (S i)) (node g (j + 1)) (upd s fds (array (<[i := entry e]> arr))).
Proof using R Hm Hfds Hapart.
  intros He Hj Hi. destruct (node_at R Hm pos e He) as (Hn & Hb & Hok & Hin).
  assert (Hne : node g pos <> fds) by (intros E; apply Hapart; by rewrite <- E).
  cbn [poll_fill]. rewrite (proj2 (Z.eqb_neq _ _) Hn).
  run (poll_entry_eq s fds arr i (node g pos) e Hi Hne Hb Hok).
  destruct (upd_loop (array (<[i := entry e]> arr))) as [R2 Hm2].
  run (next_call R2 Hm2 pos j e He Hj). by rewrite Nat2Z.inj_succ.
Qed.

Lemma fill_distinct k : NoDup l.*1 -> forall i, (i + k = length l)%nat ->
  poll_fill (S k) guard fds (Z.of_nat i) (node g i) (upd s fds (array (map entry (take i l) ++ replicate k (0, 0, 0)))) =
  Ok (tt, upd s fds (array (map entry l))).
Proof using R Hm Hfds Hapart.
  intros Hnd. induction k as [|k IH]; intros i Hi.
  - rewrite (node_end R) by lia. cbn [poll_fill]. rewrite take_ge, app_nil_r by lia. done.
  - destruct (lookup_lt_is_Some_2 l i ltac:(lia)) as [e He].
    assert (Hlen : length (map entry (take i l)) = i) by (rewrite length_map, length_take_le; lia).
    rewrite (fill_turn _ i i i e _ He (find_fd_distinct _ _ _ Hnd He)).
    + replace (i + 1)%nat with (S i) by lia.
      replace (<[i:=entry e]> (map entry (take i l) ++ replicate (S k) (0, 0, 0))) with
        (map entry (take (S i) l) ++ replicate k (0, 0, 0)); [apply IH; lia|].
      rewrite (take_S_r _ _ _ He), map_app, <- app_assoc. simpl.
      rewrite insert_app_r_alt by lia. rewrite Hlen, Nat.sub_diag. done.
    + rewrite lookup_app_r by lia. rewrite Hlen, Nat.sub_diag. done.
Qed.

(** Behind the array nothing can be stored. *)
Lemma fill_end arr pos e fuel : l !! pos = Some e -> length arr = length l ->
  poll_fill (S fuel) guard fds (Z.of_nat (length l)) (node g pos) (upd s fds (array arr)) = Ub.
Proof using R Hm Hfds Hapart.
  intros He Hlen. destruct (node_at R Hm pos e He) as (Hn & Hb & Hok & Hin).
  assert (Hne : node g pos <> fds) by (intros E; apply Hapart; by rewrite <- E).
  cbn [poll_fill]. rewrite (proj2 (Z.eqb_neq _ _) Hn). unfold poll_entry.
  assert (Hb' : blocks (emem_of (upd s fds (array arr))) !! node g pos = Some (event_bytes e.1 e.2))
    by (simpl; by rewrite lookup_insert_ne).
  apply bind_Ub. run (event_fd (node g pos) e Hb'). apply bind_Ub.
  apply emem_ub. unfold PF_FD, put_field, store_at. rewrite upd_block. cbn [fst snd].
  unfold write_bytes. rewrite length_array, length_le_bytes, Hlen.
  rewrite (proj2 (Z.leb_gt (_ + _) _)) by lia. by rewrite andb_false_r.
Qed.

Lemma fill_twice j e0 i0 : l !! j = Some e0 -> find_fd e0.1 l = Some i0 -> (i0 < j)%nat ->
  forall k i pos arr, (i + k = length l)%nat -> (pos <= j)%nat -> length arr = length l ->
  (forall q, (i <= q < length l)%nat -> arr !! q = Some (0, 0, 0)) ->
  poll_fill (S k) guard fds (Z.of_nat i) (node g pos) (upd s fds (array arr)) = Ub.
Proof using R Hm Hfds Hapart.
  intros H0 Hi0 Hlt. pose proof (lookup_lt_Some _ _ _ H0) as Hj. induction k as [|k IH]; intros i pos arr Hi Hpos Hlen Hz.
  - destruct (lookup_lt_is_Some_2 l pos ltac:(lia)) as [e He].
    replace i with (length l) by lia. by apply (fill_end arr pos e).
  - destruct (lookup_lt_is_Some_2 l pos ltac:(lia)) as [e He].
    destruct (find_fd_le e.1 l pos e He eq_refl) as (q & Eq & Hq).
    rewrite (fill_turn _ i q pos e arr He Eq) by (apply Hz; lia). apply IH.
    + lia.
    + destruct (decide (pos = j)) as [->|]; [|lia]. assert (e = e0) as -> by congruence.
      assert (q = i0) by congruence. lia.
    + by rewrite length_insert.
    + intros q' Hq'. rewrite list_lookup_insert_ne by lia. apply Hz. lia.
Qed.
End Fill.

(** ** The call of [poll] *)
Definition short_entry (x : Z * Z * Z) : Prop := is_u 32 x.1.1 /\ is_u 16 x.1.2.

Lemma poll_read_eq s fds A k i : Forall short_entry A -> (i + k <= length A)%nat ->
  poll_read fds (seq i k) (upd s fds (array A)) =
    Ok (map (fun x => (s32 x.1.1, x.1.2)) (take k (drop i A)), upd s fds (array A)).
Proof.
  intros HA. revert i. induction k as [|k IH]; intros i Hi; [done|].
  destruct (lookup_lt_is_Some_2 A i ltac:(lia)) as [[[fd ev] rev] Hx].
  pose proof (Forall_lookup_1 _ _ _ _ HA Hx) as [Hfd Hev]. simpl in Hfd, Hev.
  cbn [seq poll_read].
  assert (E : eget_int (PF_FD (Z.of_nat i)) fds (upd s fds (array A)) = Ok (s32 fd, upd s fds (array A)))
    by (unfold eget_int; by run (entry_fd s fds A i fd ev rev Hx Hfd)).
  run E. run (entry_events s fds A i fd ev rev Hx Hev). run (IH (S i) ltac:(lia)).
  by rewrite (drop_S A (fd, ev, rev) i Hx).
Qed.

Definition with_rev (x : Z * Z * Z) (r : Z) : Z * Z * Z := (x.1, uw 16 r).

Lemma pollfd_uw x r : pollfd (with_rev x r) = pollfd (x.1, r).
Proof. unfold pollfd, with_rev. cbn [fst snd]. by rewrite (le_bytes_uw 2 16 r). Qed.

Lemma poll_store_eq s fds rs : forall B A, length A = length rs ->
  poll_store fds (Z.of_nat (length B)) rs (upd s fds (array (B ++ A))) =
    Ok (tt, upd s fds (array (B ++ zip_with with_rev A rs))).
Proof.
  induction rs as [|r rs IH]; intros B [|[[fd ev] rev] A] Hl; try done. simpl in Hl. cbn [poll_store zip_with].
  run (put_revents s fds (B ++ (fd, ev, rev) :: A) (length B) fd ev rev ltac:(by apply list_lookup_middle) r).
  rewrite insert_app_r_alt, Nat.sub_diag by lia. cbn [insert list_insert].
  replace (array (B ++ (fd, ev, r) :: A)) with (array ((B ++ [with_rev (fd, ev, rev) r]) ++ A)).
  2:{ unfold array. rewrite <- app_assoc, !map_app, !concat_app. do 2 f_equal. cbn [map concat app].
      by rewrite pollfd_uw. }
  specialize (IH (B ++ [with_rev (fd, ev, rev) r]) A ltac:(lia)). rewrite length_app in IH. simpl in IH.
  replace (Z.of_nat (length B) + 1) with (Z.of_nat (length B + 1)) by lia. rewrite IH. by rewrite <- app_assoc.
Qed.

(** ** The callbacks *)

(** The word [k] of the options: the private pointer, [recv], [send], [error]. *)
Definition opt_word (opts : list Z) (k : nat) : Z := le_value (take 8 (drop (8 * k) opts)).

(** The calls for a descriptor that is ready. *)
Definition callbacks (opts : list Z) (fd rev : Z) : list (Z * Z * Z) :=
  let on bits k := if has rev bits && negb (opt_word opts k =? NULL) then [(opt_word opts k, fd, opt_word opts 0)] else [] in
  on POLLIN 1%nat ++ on POLLOUT 2%nat ++ on (Z.lor (Z.lor POLLERR POLLHUP) POLLNVAL) 3%nat.

Fixpoint run_acts (act : Z -> Z -> Z -> M est unit) (l : list (Z * Z * Z)) : M est unit :=
  match l with [] => mret tt | x :: l => _ ← act x.1.1 x.1.2 x.2; run_acts act l end.

(** The callbacks return and leave the heap alone. *)
Definition quiet (act : Z -> Z -> Z -> M est unit) : Prop :=
  forall f fd priv s, exists s', act f fd priv s = Ok (tt, s') /\ eheap s' = eheap s.

Lemma run_acts_app act l1 l2 s : run_acts act (l1 ++ l2) s = (_ ← run_acts act l1; run_acts act l2) s.
Proof.
  revert s. induction l1 as [|x l1 IH]; intros s; [done|]. simpl. unfold mbind, M_bind in *.
  destruct (act _ _ _ s) as [[[] s1]| |]; [apply IH|done..].
Qed.

Lemma run_acts_quiet act l s : quiet act -> exists s', run_acts act l s = Ok (tt, s') /\ eheap s' = eheap s.
Proof.
  intros Hq. revert s. induction l as [|x l IH]; intros s; [by exists s|]. simpl.
  destruct (Hq x.1.1 x.1.2 x.2 s) as (s1 & E1 & H1). destruct (IH s1) as (s2 & E2 & H2).
  exists s2. run E1. split; [done|congruence].
Qed.

Section Dispatch.
Context (act : Z -> Z -> Z -> M est unit) (guard fds : Z) (L : loop).

(** What the second loop reads. *)
Definition prepared (A : list (Z * Z * Z)) (s : est) : Prop :=
  blocks (emem_of s) !! guard = Some (loop_block (l_id L) (l_type L) (l_opts L) (l_priv L) (l_set L)) /\
  length (l_opts L) = 40%nat /\ blocks (emem_of s) !! fds = Some (array A) /\
  Forall (fun x => is_u 32 x.1.1 /\ is_u 16 x.2) A.

Lemma prepared_heap A s s' : prepared A s -> eheap s' = eheap s -> prepared A s'.
Proof using Type. unfold prepared. by intros H ->. Qed.

Lemma opt_eq A s k off : prepared A s -> (k < 5)%nat -> off = 8 + 8 * Z.of_nat k ->
  eget (off, 8) guard s = Ok (opt_word (l_opts L) k, s).
Proof using Type.
  intros (Hb & Hl & _ & _) Hk ->. apply eget_eq. unfold get_field. cbn [fst snd].
  assert (E : load_at guard (8 + 8 * Z.of_nat k) 8 (emem_of s) = Ok (take 8 (drop (8 * k) (l_opts L)), emem_of s)).
  { replace (8 + 8 * Z.of_nat k) with (Z.of_nat (length (le_bytes 4 (l_id L) ++ le_bytes 4 (l_type L) ++ take (8 * k) (l_opts L)))).
    2:{ rewrite !length_app, !length_le_bytes, length_take_le by lia. lia. }
    eapply (load_at_ok _ guard _ _ (drop 8 (drop (8 * k) (l_opts L)) ++ le_bytes 8 (l_priv L) ++ le_bytes 8 (l_set L))).
    - rewrite Hb. unfold loop_block. f_equal. rewrite <- !app_assoc. do 2 f_equal.
      rewrite <- (take_drop (8 * k) (l_opts L)) at 1. rewrite <- (take_drop 8 (drop (8 * k) (l_opts L))) at 1.
      by rewrite <- !app_assoc.
    - rewrite length_take_le by (rewrite length_drop; lia). done. }
  by run E.
Qed.

Lemma callback_eq A s k off fd : prepared A s -> quiet act -> (k < 5)%nat -> off = 8 + 8 * Z.of_nat k ->
  exists s', callback act (off, 8) guard fd s = Ok (tt, s') /\ eheap s' = eheap s /\
    run_acts act (if negb (opt_word (l_opts L) k =? NULL) then [(opt_word (l_opts L) k, fd, opt_word (l_opts L) 0)] else []) s =
      Ok (tt, s').
Proof using Type.
  intros HA Hq Hk Ho. unfold callback. run (opt_eq A s k off HA Hk Ho).
  destruct (negb _); [|by exists s].
  assert (E0 : eget O_PRIV guard s = Ok (opt_word (l_opts L) 0, s)) by (by apply (opt_eq A); [|lia|]).
  run E0. destruct (Hq (opt_word (l_opts L) k) fd (opt_word (l_opts L) 0) s) as (s' & E & Eh).
  exists s'. split; [done|]. split; [done|]. simpl. by run E.
Qed.

(** One test of an entry of the array. *)
Lemma ready_bits A s i fd ev rev bits k off : prepared A s -> quiet act -> A !! i = Some (fd, ev, rev) ->
  (k < 5)%nat -> off = 8 + 8 * Z.of_nat k ->
  exists s', (r ← eget (PF_REVENTS (Z.of_nat i)) fds;
     if has r bits then fd ← eget_int (PF_FD (Z.of_nat i)) fds; callback act (off, 8) guard fd else mret tt) s = Ok (tt, s') /\
    eheap s' = eheap s /\
    run_acts act (if has rev bits && negb (opt_word (l_opts L) k =? NULL)
                  then [(opt_word (l_opts L) k, s32 fd, opt_word (l_opts L) 0)] else []) s = Ok (tt, s').
Proof using Type.
  intros HA Hq Hi Hk Ho. pose proof HA as (_ & _ & Hb & Hf).
  destruct (Forall_lookup_1 _ _ _ _ Hf Hi) as [Hfd Hrev]. simpl in Hfd, Hrev.
  assert (Es : upd s fds (array A) = s).
  { unfold upd. rewrite insert_id by done. destruct s as [??? [? []] ??]. done. }
  pose proof (entry_revents s fds A i fd ev rev Hi Hrev) as Er. pose proof (entry_fd s fds A i fd ev rev Hi Hfd) as Ef.
  rewrite Es in Er, Ef. run Er. destruct (has rev bits); [|by exists s].
  assert (Ei : eget_int (PF_FD (Z.of_nat i)) fds s = Ok (s32 fd, s)) by (unfold eget_int; by run Ef).
  run Ei. exact (callback_eq A s k off (s32 fd) HA Hq Hk Ho).
Qed.

Lemma poll_ready_eq A s i fd ev rev : prepared A s -> quiet act -> A !! i = Some (fd, ev, rev) ->
  exists s', poll_ready act guard fds (Z.of_nat i) s = Ok (tt, s') /\ eheap s' = eheap s /\
    run_acts act (callbacks (l_opts L) (s32 fd) rev) s = Ok (tt, s').
Proof using Type.
  intros HA Hq Hi. unfold poll_ready, callbacks.
  destruct (ready_bits A s i fd ev rev POLLIN 1 _ HA Hq Hi ltac:(lia) eq_refl) as (s1 & E1 & H1 & A1).
  pose proof (prepared_heap A s s1 HA H1) as HA1.
  destruct (ready_bits A s1 i fd ev rev POLLOUT 2 _ HA1 Hq Hi ltac:(lia) eq_refl) as (s2 & E2 & H2 & A2).
  pose proof (prepared_heap A s1 s2 HA1 H2) as HA2.
  destruct (ready_bits A s2 i fd ev rev (Z.lor (Z.lor POLLERR POLLHUP) POLLNVAL) 3 _ HA2 Hq Hi ltac:(lia) eq_refl)
    as (s3 & E3 & H3 & A3).
  exists s3. split; [|split; [congruence|]].
  - run E1. run E2. exact E3.
  - rewrite run_acts_app. run A1. rewrite run_acts_app. run A2. exact A3.
Qed.

Lemma poll_dispatch_eq A k : quiet act -> forall i s, prepared A s -> (i + k <= length A)%nat ->
  exists s', poll_dispatch act guard fds (seq i k) s = Ok (tt, s') /\ eheap s' = eheap s /\
    run_acts act (concat (map (fun x => callbacks (l_opts L) (s32 x.1.1) x.2) (take k (drop i A)))) s = Ok (tt, s').
Proof using Type.
  intros Hq. induction k as [|k IH]; intros i s HA Hi; [by exists s|].
  destruct (lookup_lt_is_Some_2 A i ltac:(lia)) as [[[fd ev] rev] Hx].
  destruct (poll_ready_eq A s i fd ev rev HA Hq Hx) as (s1 & E1 & H1 & A1).
  destruct (IH (S i) s1 (prepared_heap A s s1 HA H1) ltac:(lia)) as (s2 & E2 & H2 & A2).
  exists s2. split; [|split; [congruence|]].
  - cbn [seq poll_dispatch]. by run E1.
  - rewrite (drop_S A (fd, ev, rev) i Hx). cbn [take map concat fst snd]. rewrite run_acts_app. by run A1.
Qed.
End Dispatch.

(** ** [kpoll_proc] *)

(** The state once the array is there. *)
Definition with_array (s : est) (n : nat) : est :=
  with_mem s (mk_mem (<[brk (emem_of s) := replicate (8 * n) 0]> (blocks (emem_of s)))
    (brk (emem_of s) + Z.max 16 (8 * Z.of_nat n)) []).

Lemma array_zero n : array (replicate n (0, 0, 0)) = replicate (8 * n) 0.
Proof.
  induction n as [|n IH]; [done|]. replace (8 * S n)%nat with (8 + 8 * n)%nat by lia.
  rewrite replicate_add, <- IH. done.
Qed.

Section Proc.
Context {s : est} {guard : Z} {L : loop} {p : kevent_plugin_t} {g : kset_t} {l : list (Z * Z)}.
Hypothesis R : loop_at s guard L p g l.
Hypothesis Hm : mem_ok (emem_of s).
Hypothesis Hr : room (emem_of s) (Z.max 16 (8 * Z.of_nat (length l))).
Hypothesis Hl : l <> [].
Hypothesis Hmax : (length l <= 4096)%nat.

Abbreviation fds := (brk (emem_of s)).

Lemma array_state : loop_at (with_array s (length l)) guard L p g l /\ mem_ok (emem_of (with_array s (length l))) /\
  is_Some (blocks (emem_of (with_array s (length l))) !! fds) /\ fds <> guard /\ fds ∉ values g.
Proof using R Hm Hr.
  clear Hmax Hl.
  assert (Ho : forall a, a = guard \/ a ∈ values g -> a <> fds).
  { intros a Ha E. pose proof (loop_below _ _ _ _ _ _ a R Hm Ha). lia. }
  split_and!.
  - eapply loop_frame; [exact R|done|done|]. intros a Ha. simpl. rewrite lookup_insert_ne; [done|].
    intros E. by apply (Ho a Ha).
  - destruct Hr as [_ Hb]. pose proof (malloc_mem_ok (emem_of s) (8 * Z.of_nat (length l)) Hm Hb) as M.
    replace (Z.to_nat (8 * Z.of_nat (length l))) with (8 * length l)%nat in M by lia. exact M.
  - simpl. rewrite lookup_insert_eq. by eexists.
  - intros E. by apply (Ho guard (or_introl eq_refl)).
  - intros E. by apply (Ho fds (or_intror E)).
Qed.

Lemma array_state_upd : upd (with_array s (length l)) fds (array (replicate (length l) (0, 0, 0))) = with_array s (length l).
Proof using Type. unfold upd, with_array. simpl. by rewrite array_zero, insert_insert_eq. Qed.

(** The first half of the function. *)
Lemma proc_start sys act t : kpoll_proc sys act guard t s =
  (_ ← poll_fill (S (length l)) guard fds 0 (node g 0);
   n ← poll sys fds (length l) (s32 t);
   _ ← (if negb (n =? 0) then poll_dispatch act guard fds (seq 0 (length l)) else mret tt);
   _ ← emem (kylin_free fds); mret KOK) (with_array s (length l)).
Proof using R Hm Hr Hl Hmax.
  destruct array_state as (R1 & _).
  assert (Hc : kylin_event_event_count guard s = Ok (Z.of_nat (length l), s)).
  { unfold kylin_event_event_count. run (loop_set_eq R). run (loop_get_set R).
    unfold kylin_set_count. rewrite (holds_used (lp_holds _ _ _ _ _ _ R)).
    unfold mret, M_ret. do 2 f_equal. apply Z.mod_small. lia. }
  unfold kpoll_proc. run Hc. rewrite (proj2 (Z.eqb_neq _ _)) by (destruct l; [done|simpl; lia]).
  assert (Em : emem (kylin_malloc (8 * Z.of_nat (length l))) s = Ok (fds, with_array s (length l))).
  { rewrite (emem_eq _ _ _ _ (malloc_room _ (8 * Z.of_nat (length l)) _ Hr Hm ltac:(lia) ltac:(lia))).
    unfold with_array. by replace (Z.to_nat (8 * Z.of_nat (length l))) with (8 * length l)%nat by lia. }
  run Em. rewrite (proj2 (Z.eqb_neq fds NULL)) by (destruct Hm; unfold NULL; lia).
  run (first_call R1 Hl). by rewrite Nat2Z.id.
Qed.
End Proc.

(** An event loop in which a descriptor was added twice: [kpoll_proc] walks
    over the events by their descriptors, comes back to the first of the two for
    ever and stores an entry behind the end of its array, on every heap with
    room for the array. *)
Theorem poll_twice_overflows sys act s guard L p g l t :
  loop_at s guard L p g l -> mem_ok (emem_of s) -> room (emem_of s) (Z.max 16 (8 * Z.of_nat (length l))) ->
  (length l <= 4096)%nat -> ~ NoDup l.*1 -> kpoll_proc sys act guard t s = Ub.
Proof.
  intros R Hm Hr Hmax Hnd. assert (Hl : l <> []) by (intros ->; apply Hnd; constructor).
  rewrite (proc_start R Hm Hr Hl Hmax). apply bind_Ub.
  destruct (array_state R Hm Hr) as (R1 & Hm1 & Hf & Ha).
  destruct (find_fd_twice l Hnd) as (j & e & i & He & Hi & Hlt).
  rewrite <- (array_state_upd (s := s) (l := l)).
  apply (fill_twice R1 Hm1 _ Hf Ha j e i He Hi Hlt (length l) 0 0); [lia|lia|by rewrite length_replicate|].
  intros q Hq. apply lookup_replicate_2. lia.
Qed.

(** A loop of the type [poll] with the descriptor 5 added twice. *)
Definition twice : list Z := le_bytes 4 5 ++ le_bytes 4 1.
Definition twice_events : kset_t := mk_kset events_opts 2 ([5000; 5016] ++ replicate 4094 0).
Definition twice_state : est :=
  mk_est 1 0 default_eplugin
    (mk_st ∅ (mk_mem (<[5000 := twice]> (<[5016 := twice]> {[16 := loop_block 0 KEVENT_TYPE_POLL (replicate 40 0) 0 4096]})) 8192 []) None)
    {[4096 := twice_events]} [].

Lemma events_two (a b : Z) opts : opts = events_opts -> is_u 64 a -> is_u 64 b ->
  kset_ok (mk_kset opts 2 ([a; b] ++ replicate 4094 0)) /\ values (mk_kset opts 2 ([a; b] ++ replicate 4094 0)) = [a; b].
Proof.
  intros -> Ha Hb. split; [|reflexivity]. split; [done|reflexivity|done|].
  apply Forall_app. split; [|apply Forall_replicate; unfold is_u; lia]. by apply Forall_cons; split; [|apply Forall_singleton].
Qed.

Lemma poll_twice_overflows_witness : kpoll_proc quiet_system (fun _ _ _ => mret tt) 16 0 twice_state = Ub.
Proof.
  destruct (events_two 5000 5016 events_opts eq_refl) as [Hok Hv]; [unfold is_u; lia..|].
  apply (poll_twice_overflows quiet_system (fun _ _ _ => mret tt) twice_state 16 sample_loop
    (mk_plugin 0 KEVENT_TYPE_POLL (builtin_reg Poll)) twice_events [(5, 1); (5, 1)]).
  - split; try (done || (unfold is_u; simpl; unfold KEVENT_TYPE_POLL; lia)).
    + split; [done|exact Hok| | |].
      * change (values twice_events) with [5000; 5016]. repeat constructor.
      * change (values twice_events) with [5000; 5016]. apply (bool_decide_unpack _). vm_compute. exact I.
      * repeat constructor; unfold is_u; simpl; lia.
    + change (values twice_events) with [5000; 5016]. apply (bool_decide_unpack _). vm_compute. exact I.
  - split; simpl; [lia|]. intros a bs Ha. repeat (apply lookup_insert_Some in Ha as [[<- _]|[_ Ha]]; [lia|]).
    apply lookup_singleton_Some in Ha as [<- _]. lia.
  - split; [reflexivity|simpl; lia].
  - simpl. lia.
  - intros H. apply NoDup_cons in H as [H _]. apply H. by left.
Defined.

(** ** What is called *)

(** The answers of [poll] in a history, one for each of [n] events. *)
Definition poll_answers (sys : system) (h : list syscall) (n : nat) : list Z :=
  if 0 <=? s32 (answer sys h) then take n (revents sys h ++ replicate n 0) else replicate n 0.

(** The callbacks they lead to. *)
Definition poll_calls (sys : system) (h : list syscall) (opts : list Z) (l : list (Z * Z)) : list (Z * Z * Z) :=
  if s32 (answer sys h) =? 0 then []
  else concat (zip_with (fun e r => callbacks opts e.1 (uw 16 r)) l (poll_answers sys h (length l))).

(** The state after a system call. *)
Definition called (s : est) (c : syscall) : est := mk_est (eid s) (elist s) (eplugin s) (eheap s) (sets s) (c :: ehist s).

Lemma length_answers sys h n : length (poll_answers sys h n) = n.
Proof.
  unfold poll_answers. case_match; [|by rewrite length_replicate].
  rewrite length_take, length_app, length_replicate. lia.
Qed.

Lemma entry_short e : event_ok e -> short_entry (entry e).
Proof. intros _. split; [apply uw_range; lia|apply poll_mask_range]. Qed.

Lemma entries_unset l : zip_with with_rev (map entry l) (replicate (length l) 0) = map entry l.
Proof. induction l as [|e l IH]; [done|]. simpl. by rewrite IH. Qed.

(** What [poll] is asked for, and what it leaves in the array. *)
Lemma poll_eq sys s fds l t : Forall event_ok l ->
  let asked := SysPoll (map (fun e => (e.1, poll_mask e.2)) l) t in
  let h := asked :: ehist s in
  poll sys fds (length l) t (upd s fds (array (map entry l))) =
    Ok (s32 (answer sys h),
        upd (called s asked) fds (array (zip_with with_rev (map entry l) (poll_answers sys h (length l))))).
Proof.
  intros Hl asked h. assert (Hs : Forall short_entry (map entry l)).
  { apply Forall_map. eapply Forall_impl; [exact Hl|]. intros e. apply entry_short. }
  unfold poll. run (poll_read_eq s fds (map entry l) (length l) 0 Hs ltac:(rewrite length_map; lia)).
  rewrite drop_0, firstn_all2 by (rewrite length_map; lia). rewrite map_map.
  assert (Ea : map (fun x => (s32 (entry x).1.1, (entry x).1.2)) l = map (fun e => (e.1, poll_mask e.2)) l).
  { apply map_ext_Forall. eapply Forall_impl; [exact Hl|]. intros e [Hfd _]. simpl. f_equal.
    unfold uw. by apply sw_uw_id. }
  rewrite Ea. unfold poll_answers. fold asked.
  assert (Ec : call sys asked (upd s fds (array (map entry l))) =
    Ok (s32 (answer sys h), upd (called s asked) fds (array (map entry l)))) by done.
  run Ec. destruct (0 <=? s32 (answer sys h)).
  - assert (Eq : ask (revents sys) (upd (called s asked) fds (array (map entry l))) =
      Ok (revents sys h, upd (called s asked) fds (array (map entry l)))) by done.
    erewrite bind_Ok; [reflexivity|]. run Eq.
    apply (poll_store_eq (called s asked) fds (take (length l) (revents sys h ++ replicate (length l) 0)) [] (map entry l)).
    rewrite length_map, length_take, length_app, length_replicate. lia.
  - by rewrite entries_unset.
Qed.

Lemma entries_ok l rs : Forall (fun x => is_u 32 x.1.1 /\ is_u 16 x.2) (zip_with with_rev (map entry l) rs).
Proof.
  revert rs. induction l as [|e l IH]; intros [|r rs]; try constructor; [|apply IH].
  split; apply uw_range; lia.
Qed.

Lemma calls_eq opts l rs : Forall event_ok l -> length rs = length l ->
  concat (map (fun x => callbacks opts (s32 x.1.1) x.2) (zip_with with_rev (map entry l) rs)) =
  concat (zip_with (fun e r => callbacks opts e.1 (uw 16 r)) l rs).
Proof.
  revert rs. induction l as [|e l IH]; intros [|r rs] Hl Hlen; try done. apply Forall_cons in Hl as [[He _] Hl].
  simpl. rewrite IH by (done || by injection Hlen). do 2 f_equal. unfold uw. by apply sw_uw_id.
Qed.

(** C18. Waiting with [poll], for a loop whose events have distinct descriptors:
    [poll] is asked for every event of the set in order, each with the bits of
    its flags; then, unless it returns zero, for every event in order [recv] is
    called if the descriptor is readable, [send] if it is writable and [error]
    if it is broken or closed, each only if the caller gave one, with the
    descriptor and the caller's pointer, and nothing else is called.  The
    function returns [KYLIN_ERROR_OK] and the heap is as before. *)
Theorem poll_dispatches sys act s guard L p g l t :
  loop_at s guard L p g l -> mem_ok (emem_of s) -> room (emem_of s) (Z.max 16 (8 * Z.of_nat (length l))) ->
  l <> [] -> (length l <= 4096)%nat -> NoDup l.*1 -> quiet act ->
  exists s1 s2 s3,
    ehist s1 = SysPoll (map (fun e => (e.1, poll_mask e.2)) l) (s32 t) :: ehist s /\ sets s1 = sets s /\
    run_acts act (poll_calls sys (ehist s1) (l_opts L) l) s1 = Ok (tt, s2) /\
    kpoll_proc sys act guard t s = Ok (KOK, s3) /\ sets s3 = sets s2 /\ ehist s3 = ehist s2 /\
    blocks (emem_of s3) = blocks (emem_of s).
Proof.
  intros R Hm Hr Hl Hmax Hnd Hq. rewrite (proc_start R Hm Hr Hl Hmax).
  destruct (array_state R Hm Hr) as (R1 & Hm1 & Hf & Ha).
  pose proof (fill_distinct R1 Hm1 _ Hf Ha (length l) Hnd 0 eq_refl) as Ef.
  change (map entry (take 0 l) ++ replicate (length l) (0, 0, 0)) with (replicate (length l) (0, 0, 0)) in Ef.
  rewrite array_state_upd in Ef. run Ef.
  set (s0 := with_array s (length l)) in *. set (fds := brk (emem_of s)) in *.
  pose proof (ho_events _ _ _ (lp_holds _ _ _ _ _ _ R)) as Hev.
  run (poll_eq sys s0 fds l (s32 t) Hev).
  set (asked := SysPoll (map (fun e => (e.1, poll_mask e.2)) l) (s32 t)). set (h := asked :: ehist s0).
  set (A := zip_with with_rev (map entry l) (poll_answers sys h (length l))).
  set (s1 := upd (called s0 asked) fds (array A)).
  assert (HA : prepared guard fds L A s1).
  { destruct (upd_loop R1 Hm1 fds Hf Ha (array A)) as [R2 _]. split; [apply R2|]. split; [apply R|].
    split; [simpl; by rewrite lookup_insert_eq|]. apply entries_ok. }
  assert (HlA : length A = length l).
  { subst A. rewrite length_zip_with, length_map, length_answers. lia. }
  assert (Hacts : concat (map (fun x => callbacks (l_opts L) (s32 x.1.1) x.2) A) =
    concat (zip_with (fun e r => callbacks (l_opts L) e.1 (uw 16 r)) l (poll_answers sys h (length l)))).
  { by apply calls_eq; [|apply length_answers]. }
  assert (Hrun : exists s2, (if negb (s32 (answer sys h) =? 0) then poll_dispatch act guard fds (seq 0 (length l)) else mret tt) s1 =
    Ok (tt, s2) /\ eheap s2 = eheap s1 /\ run_acts act (poll_calls sys h (l_opts L) l) s1 = Ok (tt, s2)).
  { unfold poll_calls. destruct (s32 (answer sys h) =? 0); [by exists s1|]. simpl negb.
    destruct (poll_dispatch_eq act guard fds L A (length l) Hq 0 s1 HA ltac:(lia)) as (s2 & E2 & H2 & A2).
    rewrite drop_0, firstn_all2, Hacts in A2 by lia. by exists s2. }
  destruct Hrun as (s2 & E2 & H2 & A2). run E2.
  assert (Efree : emem (kylin_free fds) s2 = Ok (tt, with_mem s2
    (mk_mem (delete fds (blocks (emem_of s2))) (brk (emem_of s2)) (oom (emem_of s2))))).
  { apply emem_eq, free_live; [destruct Hm; unfold NULL, fds; lia|]. rewrite H2. simpl. rewrite lookup_insert_eq. by eexists. }
  run Efree. exists s1, s2. eexists. split; [done|]. split; [done|]. split; [exact A2|]. split; [done|].
  split; [done|]. split; [done|]. simpl. rewrite H2. simpl.
  rewrite insert_insert_eq. apply delete_insert_id. by apply mem_ok_fresh.
Qed.

(** A loop with the events 5 (read) and 7 (read and write), whose callbacks
    [recv] and [send] are at 100 and 200 and whose pointer is 9; a callback is
    noted in the history. *)
Definition two_opts : list Z := le_bytes 8 9 ++ le_bytes 8 100 ++ le_bytes 8 200 ++ replicate 16 0.
Definition two_loop : loop := mk_loop 0 KEVENT_TYPE_POLL two_opts 0 4096.
Definition two_state : est :=
  mk_est 1 0 default_eplugin
    (mk_st ∅ (mk_mem (<[5000 := event_bytes 5 1]> (<[5016 := event_bytes 7 3]>
      {[16 := loop_block 0 KEVENT_TYPE_POLL two_opts 0 4096]})) 8192 []) None)
    {[4096 := twice_events]} [].
Definition two_ready : system := mk_system (fun _ => 2) (fun _ => ([], [], [])) (fun _ => [POLLIN; POLLOUT]) (fun _ => []).
Definition note (f fd priv : Z) : M est unit := fun s => Ok (tt, called s (SysEpollCtl f 0 fd priv)).

Lemma poll_dispatches_witness : exists s', kpoll_proc two_ready note 16 0 two_state = Ok (KOK, s') /\
  ehist s' = [SysEpollCtl 200 0 7 9; SysEpollCtl 100 0 5 9; SysPoll [(5, 1); (7, 5)] 0].
Proof.
  destruct (events_two 5000 5016 events_opts eq_refl) as [Hok Hv]; [unfold is_u; lia..|].
  destruct (poll_dispatches two_ready note two_state 16 two_loop
    (mk_plugin 0 KEVENT_TYPE_POLL (builtin_reg Poll)) twice_events [(5, 1); (7, 3)] 0) as (s1 & s2 & s3 & H1 & _ & A & E & _ & H3 & _).
  - split; try (done || (unfold is_u; simpl; unfold KEVENT_TYPE_POLL; lia)).
    + split; [done|exact Hok| | |].
      * change (values twice_events) with [5000; 5016]. repeat constructor.
      * change (values twice_events) with [5000; 5016]. apply (bool_decide_unpack _). vm_compute. exact I.
      * repeat constructor; unfold is_u; simpl; lia.
    + change (values twice_events) with [5000; 5016]. apply (bool_decide_unpack _). vm_compute. exact I.
  - split; simpl; [lia|]. intros a bs Ha. repeat (apply lookup_insert_Some in Ha as [[<- _]|[_ Ha]]; [lia|]).
    apply lookup_singleton_Some in Ha as [<- _]. lia.
  - split; [reflexivity|simpl; lia].
  - discriminate.
  - simpl. lia.
  - apply (bool_decide_unpack _). vm_compute. exact I.
  - intros f fd priv s. by eexists.
  - exists s3. split; [exact E|]. rewrite H3. rewrite H1 in A. injection A as <-. simpl. by rewrite H1.
Defined.
