(* ===== verification/EventBack.v ===== *)
(** * The back ends [select] and [epoll]

    What the first calls of [kylin_select.c] and [kylin_epoll.c] do: a loop of
    the type [select] cannot be made, and with [epoll] an event for both reading
    and writing cannot be added. *)

From S2P Require Import Prelude Errors Bytes Mem MathVal KSet KList Plugin Event EventSet.

(** ** [epoll] *)

(** What [epoll_ctl(2)] says of [EPOLL_CTL_ADD]: a descriptor that has just been
    added is refused with [EEXIST]. *)
Definition add_once (sys : system) : Prop := forall h cfd fd ev ev',
  s32 (answer sys (SysEpollCtl cfd EPOLL_CTL_ADD fd ev :: h)) = 0 ->
  s32 (answer sys (SysEpollCtl cfd EPOLL_CTL_ADD fd ev' :: SysEpollCtl cfd EPOLL_CTL_ADD fd ev :: h)) = -1.

(** The private data of an [epoll] loop. *)
Definition epoll_block (cfd max events : Z) : list Z := le_bytes 4 cfd ++ le_bytes 4 max ++ le_bytes 8 events.

Lemma epoll_cfd s a cfd max events : blocks (emem_of s) !! a = Some (epoll_block cfd max events) ->
  - 2 ^ 31 <= cfd < 2 ^ 31 -> eget_int EP_CFD a s = Ok (cfd, s).
Proof.
  intros Hb Hc. assert (E : eget EP_CFD a s = Ok (u32 cfd, s)).
  { apply eget_eq. unfold EP_CFD, get_field. cbn [fst snd].
    assert (E : load_at a 0 4 (emem_of s) = Ok (le_bytes 4 cfd, emem_of s)) by (eapply (load_at_ok _ _ []); [exact Hb|done]).
    run E. by rewrite le_value_le_bytes. }
  unfold eget_int. run E. unfold mret, M_ret, uw. by rewrite sw_uw_id.
Qed.

Lemma call_epoll sys c s : call sys c s =
  Ok (s32 (answer sys (c :: ehist s)), mk_est (eid s) (elist s) (eplugin s) (eheap s) (sets s) (c :: ehist s)).
Proof. done. Qed.

(** Both calls are made with the same operation; the second is refused. *)
Lemma kepoll_add_both sys s guard L p g l cfd max events fd : add_once sys -> loop_at s guard L p g l ->
  blocks (emem_of s) !! l_priv L = Some (epoll_block cfd max events) -> - 2 ^ 31 <= cfd < 2 ^ 31 -> l_priv L <> NULL ->
  exists r h, kepoll_add sys guard fd (Z.lor KEVENT_FLAG_READ KEVENT_FLAG_WRITE) s =
    Ok (r, mk_est (eid s) (elist s) (eplugin s) (eheap s) (sets s) h) /\ r <> KOK.
Proof.
  intros Hadd R Hb Hc Hn. unfold kepoll_add, epoll_ctl, kylin_event_get_priv_data. run (loop_priv_eq R).
  rewrite (proj2 (Z.eqb_neq _ _) Hn).
  change (has (Z.lor KEVENT_FLAG_READ KEVENT_FLAG_WRITE) KEVENT_FLAG_READ) with true.
  change (has (Z.lor KEVENT_FLAG_READ KEVENT_FLAG_WRITE) KEVENT_FLAG_WRITE) with true. cbv zeta iota.
  set (c1 := SysEpollCtl cfd EPOLL_CTL_ADD fd (Z.lor EPOLLIN EPOLLRDHUP)).
  set (c2 := SysEpollCtl cfd EPOLL_CTL_ADD fd (Z.lor EPOLLOUT EPOLLRDHUP)).
  set (s1 := mk_est (eid s) (elist s) (eplugin s) (eheap s) (sets s) (c1 :: ehist s)).
  unfold then_. erewrite bind_Ok; [|run (epoll_cfd s _ _ _ _ Hb Hc); exact (call_epoll sys c1 s)]. cbv beta.
  destruct (Z.eqb_spec (s32 (answer sys (c1 :: ehist s))) KOK) as [E|E].
  - run (epoll_cfd s1 _ _ _ _ Hb Hc). rewrite call_epoll. unfold c2. simpl ehist.
    rewrite (Hadd _ _ _ _ _ E). by eexists _, _.
  - by eexists _, _.
Qed.

(** With [epoll], an event for both reading and writing cannot be added: the
    descriptor is added twice, the second time in vain, so [kylin_event_add]
    fails whatever the system answers, and yet the event is then in the set of
    the loop. *)
Theorem epoll_add_both_fails sys user s guard L p g l cfd max events fd :
  let both := Z.lor KEVENT_FLAG_READ KEVENT_FLAG_WRITE in
  add_once sys -> loop_at s guard L p g l -> r_add (p_reg p) = Some Epoll ->
  blocks (emem_of s) !! l_priv L = Some (epoll_block cfd max events) -> - 2 ^ 31 <= cfd < 2 ^ 31 -> l_priv L <> NULL ->
  mem_ok (emem_of s) -> room (emem_of s) 16 -> - 2 ^ 31 <= fd < 2 ^ 31 -> Z.of_nat (length l) < 4096 ->
  exists r s' g', kylin_event_add sys user guard fd both s = Ok (r, s') /\ r <> KOK /\
    loop_at s' guard L p g' (l ++ [(fd, both)]).
Proof.
  intros both Hadd R Hp Hb Hc Hn Hm Hr Hfd Hl.
  destruct (add_step sys user s guard L p g l fd both R Hm Hr) as (s2 & [[g2 R2] [g3 R3] _ _ _ _ Hk] & ->);
    [by split; [|unfold both, is_u]|done|].
  destruct (kepoll_add_both sys s2 guard L p g2 (l ++ [(fd, both)]) cfd max events fd Hadd R2 (Hk _ _ Hb) Hc Hn)
    as (r & h & E & Hne).
  eexists r, _, g3. split; [|split; [done|]].
  - unfold then_ at 1. erewrite bind_Ok; [|by rewrite (through_eq R2 r_add _ Epoll Hp); exact E].
    cbv beta. by rewrite (proj2 (Z.eqb_neq _ _) Hne).
  - eapply loop_frame; [exact R3|done..].
Qed.

Definition once_system : system :=
  mk_system (fun h => match h with SysEpollCtl _ 1 _ _ :: SysEpollCtl _ 1 _ _ :: _ => -1 | _ => 0 end)
    (fun _ => ([], [], [])) (fun _ => []) (fun _ => []).
Definition epoll_loop : loop := mk_loop 0 KEVENT_TYPE_EPOLL (replicate 40 0) 5000 4096.
Definition epoll_state : est :=
  mk_est 1 0 default_eplugin
    (mk_st ∅ (mk_mem (<[5000 := epoll_block 7 64 6000]>
      {[16 := loop_block 0 KEVENT_TYPE_EPOLL (replicate 40 0) 5000 4096]}) 8192 []) None) {[4096 := sample_set]} [].

Lemma epoll_add_both_fails_witness : exists r s', kylin_event_add once_system no_user 16 5 3 epoll_state = Ok (r, s') /\
  r <> 0 /\ kylin_event_event_count 16 s' = Ok (1, s').
Proof.
  destruct (epoll_add_both_fails once_system no_user epoll_state 16 epoll_loop
    (mk_plugin 0 KEVENT_TYPE_EPOLL (builtin_reg Epoll)) sample_set [] 7 64 6000 5) as (r & s' & g' & E & Hne & R).
  - intros h cfd fd ev ev' _. reflexivity.
  - pose proof (sample_at 0) as R. split; try (done || (unfold is_u; simpl; unfold KEVENT_TYPE_EPOLL; lia)).
    + split; try apply (lp_holds _ _ _ _ _ _ R). constructor.
    + apply not_elem_of_nil.
  - reflexivity.
  - reflexivity.
  - lia.
  - discriminate.
  - split; simpl; [lia|]. intros a bs Ha. apply lookup_insert_Some in Ha as [[<- _]|[_ Ha]]; [lia|].
    apply lookup_singleton_Some in Ha as [<- _]. lia.
  - split; [reflexivity|simpl; lia].
  - lia.
  - simpl. lia.
  - exists r, s'. split; [exact E|]. split; [exact Hne|].
    unfold kylin_event_event_count. run (loop_set_eq R). run (loop_get_set R).
    unfold kylin_set_count. rewrite (holds_used (lp_holds _ _ _ _ _ _ R)). reflexivity.
Defined.

(** ** [select] *)

(** A set made on a heap with room: its address is the top of the heap. *)
Lemma set_create_room s opts n : room (emem_of s) n -> 0 <= opts_cap opts -> 88 + 8 * opts_cap opts <= n ->
  exists s', set_create opts s = Ok (brk (emem_of s), s') /\ eplugin s' = eplugin s /\
    blocks (emem_of s') = blocks (emem_of s) /\ brk (emem_of s') = brk (emem_of s) + (88 + 8 * opts_cap opts) /\
    room (emem_of s') (n - (88 + 8 * opts_cap opts)).
Proof.
  intros [Ho Hr] Hc Hn. unfold set_create.
  set (m' := mk_mem (blocks (emem_of s)) (brk (emem_of s) + Z.max 16 (88 + 8 * opts_cap opts)) []).
  assert (Ea : emem (fun m => Ok (alloc_addr (88 + 8 * opts_cap opts) m)) s = Ok (Some (brk (emem_of s)), with_mem s m')).
  { apply emem_eq. unfold alloc_addr. rewrite Ho. by rewrite (proj2 (Z.ltb_lt _ _)) by lia. }
  run Ea. simpl. eexists. split; [reflexivity|]. simpl. split_and!; try done; try lia.
  split; simpl; [done|lia].
Qed.

Lemma malloc_eq s n k : room (emem_of s) k -> 16 <= n <= k -> mem_ok (emem_of s) -> exists s',
  emem (kylin_malloc n) s = Ok (brk (emem_of s), s') /\ eplugin s' = eplugin s /\ mem_ok (emem_of s') /\
  blocks (emem_of s') = <[brk (emem_of s) := replicate (Z.to_nat n) 0]> (blocks (emem_of s)) /\
  room (emem_of s') (k - n) /\ brk (emem_of s') = brk (emem_of s) + n.
Proof.
  intros Hr Hn Hm. eexists. split; [apply emem_eq, (malloc_room _ _ _ Hr Hm); lia|]. destruct Hr as [Ho Hr].
  split; [done|]. split; [apply malloc_mem_ok; [done|lia]|]. split; [done|]. split; [split; simpl; [done|lia]|].
  simpl. lia.
Qed.

(** The private data while the sets are made: the three pointers stay NULL. *)
Definition unset (priv : Z) (s : est) : Prop :=
  mem_ok (emem_of s) /\ exists y, length y = 24%nat /\ blocks (emem_of s) !! priv = Some (replicate 24 0 ++ y).

Lemma put_set_pointer priv s i v : unset priv s -> (i < 3)%nat -> exists s', eput (SE_SET (Z.of_nat i)) priv v s = Ok (tt, s') /\
  unset priv s' /\ brk (emem_of s') = brk (emem_of s) /\ oom (emem_of s') = oom (emem_of s).
Proof.
  intros (Hm & y & Hl & Hb) Hi.
  assert (Ey : y = take (8 * i) y ++ take 8 (drop (8 * i) y) ++ drop 8 (drop (8 * i) y)) by (by rewrite !take_drop).
  eexists. split; [|split].
  - unfold SE_SET. apply emem_eq. unfold put_field. cbn [fst snd].
    apply (store_at_ok _ priv (replicate 24 0 ++ take (8 * i) y) (take 8 (drop (8 * i) y)) _ (drop 8 (drop (8 * i) y))).
    + rewrite Hb. f_equal. rewrite Ey at 1. by rewrite <- !app_assoc.
    + rewrite length_take_le by (rewrite length_drop; lia). by rewrite length_le_bytes.
    + rewrite length_app, length_replicate, length_take_le by lia. lia.
  - split; [by eapply mem_ok_overwrite|].
    exists (take (8 * i) y ++ le_bytes (Z.to_nat 8) v ++ drop 8 (drop (8 * i) y)). split.
    + rewrite !length_app, length_le_bytes, !length_drop, length_take_le by lia. lia.
    + change (<[priv := (replicate 24 0 ++ take (8 * i) y) ++ le_bytes (Z.to_nat 8) v ++ drop 8 (drop (8 * i) y)]>
        (blocks (emem_of s)) !! priv = Some (replicate 24 0 ++ take (8 * i) y ++ le_bytes (Z.to_nat 8) v ++ drop 8 (drop (8 * i) y))).
      rewrite lookup_insert_eq. by rewrite <- (app_assoc (replicate 24 0)).
  - done.
Qed.

Lemma create_sets_room nested priv k : forall i s, (i + k = 3)%nat -> unset priv s -> room (emem_of s) (600 * Z.of_nat k) ->
  exists s', create_sets nested priv (seq i k) s = Ok (true, s') /\ unset priv s'.
Proof.
  induction k as [|k IH]; intros i s Hi Hu Hr; [by exists s|]. cbn [seq create_sets].
  destruct (set_create_room s fdset_opts (600 * Z.of_nat (S k)) Hr) as (s1 & E1 & _ & B1 & T1 & R1); [done|simpl; lia|].
  run E1. destruct Hu as (Hm & y & Hl & Hb). simpl in T1, R1.
  assert (Hu1 : unset priv s1).
  { split; [|exists y; by rewrite B1]. destruct Hm as [Ht Hm]. destruct R1 as [_ R1].
    split; [lia|]. intros a bs. rewrite B1. intros Ha. specialize (Hm a bs Ha). lia. }
  destruct (put_set_pointer priv s1 i (brk (emem_of s)) Hu1 ltac:(lia)) as (s2 & E2 & U2 & T2 & O2).
  run E2. rewrite (proj2 (Z.eqb_neq _ _)) by (destruct Hm; unfold NULL; lia).
  apply (IH (S i) s2 ltac:(lia) U2). destruct R1 as [R1 R2]. split; [congruence|lia].
Qed.

Lemma select_create_ub nested s : mem_ok (emem_of s) -> room (emem_of s) 1848 -> kselect_create nested s = Ub.
Proof.
  intros Hm Hr. unfold kselect_create.
  destruct (malloc_eq s sizeof_select 1848 Hr ltac:(unfold sizeof_select; lia) Hm) as (s1 & E1 & _ & M1 & B1 & R1 & _).
  run E1. set (priv := brk (emem_of s)) in *. rewrite (proj2 (Z.eqb_neq priv NULL)) by (destruct Hm; unfold NULL, priv; lia).
  assert (U1 : unset priv s1).
  { split; [done|]. exists (replicate 24 0). split; [done|]. by rewrite B1, lookup_insert_eq. }
  destruct (create_sets_room nested priv 3 0 s1 eq_refl U1) as (s2 & E2 & (M2 & y & Hl & B2)); [exact R1|].
  run E2. cbn [negb]. assert (E3 : eget SE_RD priv s2 = Ok (NULL, s2)).
  { apply eget_eq. eapply (get_field_ok _ _ [] 8 0 (replicate 16 0 ++ y)); [by rewrite B2|done..]. }
  run E3. apply bind_Ub, emem_ub. unfold store_at.
  destruct (blocks (emem_of s2) !! NULL) eqn:E; [|done]. apply M2 in E. unfold NULL in E. lia.
Qed.

(** A loop of the type [select] cannot be made: on every heap with room for
    it, [kylin_event_create] comes to clear a set of descriptors through a
    pointer that [kselect_create] has never set. *)
Theorem event_create_select sys nested user s opts :
  eplugin s !! 0%nat = Some (mk_plugin 0 KEVENT_TYPE_SELECT (builtin_reg Select)) ->
  mem_ok (emem_of s) -> room (emem_of s) (64 + (88 + 8 * 4096) + 1848) ->
  kylin_event_create sys nested user KEVENT_TYPE_SELECT opts s = Ub.
Proof.
  intros Hp Hm Hr. unfold kylin_event_create. run (plugin_at_loop s KEVENT_TYPE_SELECT _ Hp). change (p_type _ =? KEVENT_TYPE_MAX) with false. cbv iota.
  destruct (malloc_eq s sizeof_guard _ Hr ltac:(unfold sizeof_guard; lia) Hm) as (s1 & E1 & P1 & M1 & B1 & R1 & T1).
  run E1. set (guard := brk (emem_of s)) in *.
  rewrite (proj2 (Z.eqb_neq guard NULL)) by (destruct Hm; unfold NULL, guard; lia).
  destruct (set_create_room s1 events_opts _ R1) as (s2 & E2 & P2 & B2 & T2 & R2); [done|by vm_compute|].
  run E2. set (ev := brk (emem_of s1)) in *.
  assert (M2 : mem_ok (emem_of s2)).
  { destruct M1 as [Ht M1]. destruct R2 as [_ R2]. unfold sizeof_guard in R2. simpl in R2, T2. split; [lia|].
    intros a bs. rewrite B2. intros Ha. specialize (M1 a bs Ha). lia. }
  assert (E3 : exists s3, eput E_EVENTS guard ev s2 = Ok (tt, s3) /\ eplugin s3 = eplugin s2 /\ mem_ok (emem_of s3) /\
    brk (emem_of s3) = brk (emem_of s2) /\ oom (emem_of s3) = oom (emem_of s2)).
  { assert (Hb : blocks (emem_of s2) !! guard = Some (replicate 56 0 ++ replicate 8 0 ++ []))
      by (rewrite B2, B1; apply lookup_insert_eq).
    eexists. split; [eapply emem_eq, store_at_ok; [exact Hb|done|done]|]. split; [done|].
    split; [by eapply mem_ok_overwrite|done]. }
  destruct E3 as (s3 & E3 & P3 & M3 & T3 & O3). run E3.
  rewrite (proj2 (Z.eqb_neq ev NULL)) by (destruct M1; unfold NULL, ev; lia).
  assert (Hp3 : eplugin s3 !! 0%nat = Some (mk_plugin 0 KEVENT_TYPE_SELECT (builtin_reg Select))) by congruence.
  run (plugin_at_loop s3 KEVENT_TYPE_SELECT _ Hp3). apply bind_Ub. simpl.
  apply select_create_ub; [done|]. destruct R2 as [R2 R3]. simpl in R3. split; [congruence|].
  unfold sizeof_guard in R3. lia.
Qed.

Lemma event_create_select_witness : kylin_event_create once_system (mk_nested_dtors (fun _ => mret tt) (fun _ => mret tt) (fun _ => mret tt))
  no_user 0 16 (sample_state 0) = Ub.
Proof.
  apply event_create_select.
  - reflexivity.
  - apply sample_mem.
  - split; [reflexivity|simpl; lia].
Defined.
