(* ===== verification/Socket.v ===== *)
(** * Sockets ([lib/core/socket])

    The table of socket plug-ins with the three built-in back ends
    ([kylin_socket_plugin.c]), the list of live sockets ([kylin_socket.c]) and
    the back ends themselves ([plugin/kylin_socket_{tcp,udp,unix}.c]).

    A socket is an object of the heap, 144 bytes, and so are the private data
    of the back ends and the connections.  A system call is answered by a
    function of the calls so far; what the system stores through the pointers
    of a call is an argument too.  The functions of a plug-in somebody else
    registers are arguments.  The constants are those of Linux. *)

From S2P Require Import Prelude Errors Bytes Mem MathVal KList Plugin.

Definition KYLIN_SOCK_SERVER_TCP : Z := 0.
Definition KYLIN_SOCK_SERVER_UDP : Z := 1.
Definition KYLIN_SOCK_SERVER_UNIX : Z := 2.
Definition KYLIN_SOCK_SERVER_MAX : Z := 0x0F.
Definition KYLIN_SOCK_CLIENT_TCP : Z := 0x10.
Definition KYLIN_SOCK_CLIENT_UDP : Z := 0x11.
Definition KYLIN_SOCK_CLIENT_UNIX : Z := 0x12.
Definition KYLIN_SOCK_MAX : Z := 0x20.

(** A function of a plug-in: one of a built-in back end, or of the caller. *)
Inductive impl := Tcp | Udp | Unix | User (a : Z).

(** [None] is a NULL pointer. *)
Record ksock_reg_t := mk_reg {
  r_create : option impl; r_destroy : option impl; r_connect : option impl; r_accept : option impl;
  r_recv : option impl; r_send : option impl;
  r_conn_count : option impl; r_conn_get_first : option impl; r_conn_get_next : option impl; r_conn_destroy : option impl;
  r_get_sockfd : option impl; r_init : option impl; r_fini : option impl;
}.
Abbreviation ksock_plugin_t := (plugin ksock_reg_t).
Definition no_reg : ksock_reg_t := mk_reg None None None None None None None None None None None None None.

(** ** The system *)
Inductive syscall :=
| SysSocket (domain type : Z)
| SysSetsockopt (fd level name : Z)
| SysGetfl (fd : Z)
| SysSetfl (fd flags : Z)
| SysBind (fd : Z) (addr : Z * Z) (len : Z)
| SysListen (fd backlog : Z)
| SysConnect (fd : Z) (addr : Z * Z) (len : Z)
| SysAccept (fd : Z)
| SysRecv (fd len : Z)
| SysRecvfrom (fd len : Z)
| SysSend (fd : Z) (bs : list Z)
| SysSendto (fd : Z) (bs : list Z) (addr : Z * Z) (len : Z)
| SysUnlink (path : Z * Z)
| SysClose (fd : Z).

(** The value the last call of a history returns, [errno] after it, the bytes
    it received, the address it stored and that address' length. *)
Record system := mk_system {
  answer : list syscall -> Z;
  errno : list syscall -> Z;
  received : list syscall -> list Z;
  peer : list syscall -> list Z;
  peer_len : list syscall -> Z;
}.

Record sst := mk_sst { sid : Z; slist : Z; splugin : list ksock_plugin_t; sheap : KList.st; hist : list syscall }.

Definition on_heap {A} (f : M KList.st A) : M sst A := fun s =>
  match f (sheap s) with
  | Ok (x, h) => Ok (x, mk_sst (sid s) (slist s) (splugin s) h (hist s))
  | Ub => Ub
  | OutOfFuel => OutOfFuel
  end.
Definition smem {A} (f : M mem A) : M sst A := on_heap (on_mem f).

Definition lift {A} (o : outcome A) : M sst A := fun s =>
  match o with Ok a => Ok (a, s) | Ub => Ub | OutOfFuel => OutOfFuel end.

Definition plugin_at (type : Z) : M sst ksock_plugin_t := fun s => p ← rd (splugin s) (Z.to_nat type); Ok (p, s).
Definition set_plugin (type : Z) (p : ksock_plugin_t) : M sst unit := fun s =>
  tab ← wr (splugin s) (Z.to_nat type) p; Ok (tt, mk_sst (sid s) (slist s) tab (sheap s) (hist s)).
Definition set_slist (g : Z) : M sst unit := fun s => Ok (tt, mk_sst (sid s) g (splugin s) (sheap s) (hist s)).
Definition get_slist : M sst Z := fun s => Ok (slist s, s).
(** [sid++] *)
Definition next_sid : M sst Z := fun s =>
  Ok (sid s, mk_sst (u32 (sid s + 1)) (slist s) (splugin s) (sheap s) (hist s)).

(** ** Structures

    [ksock_t]: the number, the type, the 124 bytes of the options, the private
    data; in the options the local address of a server and the remote one of a
    client overlap.  [ksock_conn_t]: 248 bytes. *)
Definition S_ID : field := (0, 4).
Definition S_TYPE : field := (4, 4).
Definition S_OPTS : Z := 8.
Definition O_TYPE : field := (8, 4).
Definition SERVER_BACKLOG : field := (12, 4).
Definition SERVER_LOCAL : Z := 16.
Definition SERVER_LEN : field := (16, 4).
Definition SERVER_ADDR : Z := 20.
Definition CLIENT_LEN : field := (12, 4).
Definition CLIENT_ADDR : Z := 16.
Definition S_PRIV : field := (136, 8).
Definition sizeof_socket : Z := 144.
Definition sizeof_opts : Z := 124.
Definition sizeof_addr : Z := 116.

Definition P_FD : field := (0, 4).
Definition P_CONNS : field := (8, 8).
Definition sizeof_stream : Z := 16.
Definition sizeof_udp : Z := 4.

Definition C_FD : field := (0, 4).
Definition C_SOCK : field := (8, 8).
Definition C_SERVER : Z := 16.
Definition C_CLIENT_LEN : field := (132, 4).
Definition C_CLIENT_ADDR : Z := 136.
Definition sizeof_conn : Z := 248.

Definition sget (f : field) (a : Z) : M sst Z := smem (get_field f a).
Definition sput (f : field) (a v : Z) : M sst unit := smem (put_field f a v).
(** An [int] member. *)
Definition sget_int (f : field) (a : Z) : M sst Z := v ← sget f a; mret (s32 v).

Definition PF_LOCAL : Z := 1.
Definition PF_INET : Z := 2.
Definition SOCK_STREAM : Z := 1.
Definition SOCK_DGRAM : Z := 2.
Definition SOL_SOCKET : Z := 1.
Definition SO_REUSEADDR : Z := 2.
Definition MSG_NOSIGNAL : Z := 0x4000.
Definition IPPROTO_TCP : Z := 6.
Definition TCP_NODELAY : Z := 1.
Definition O_NONBLOCK : Z := 0x800.

Definition vptr_addr (v : vptr Z) : Z := match v with PObj a => a | PSlot _ => NULL end.

(** The two functions that compare two integers at the start of an object: the
    numbers of two sockets, the descriptors of two connections. *)
Definition compare_ints (f : Z -> Z) (m : mem) (v1 v2 : Z) : Z :=
  match get_field (0, 4) v1 m, get_field (0, 4) v2 m with
  | Ok (x, _), Ok (y, _) => if f y <? f x then 1 else if f x <? f y then -1 else 0
  | _, _ => 0
  end.
Definition __slist_match : mem -> Z -> Z -> Z := compare_ints (fun x => x).
Definition __tcp_connection_match : mem -> Z -> Z -> Z := compare_ints s32.
Definition __unix_connection_match : mem -> Z -> Z -> Z := compare_ints s32.

Definition slist_opts : klist_opts_t :=
  mk_klist_opts KOBJ_OTHERS sizeof_socket __slist_match None None None None (NULL, NULL, 0).
Definition tcp_conns_opts : klist_opts_t :=
  mk_klist_opts KOBJ_OTHERS sizeof_conn __tcp_connection_match None None None None (NULL, NULL, 0).
Definition unix_conns_opts : klist_opts_t :=
  mk_klist_opts KOBJ_OTHERS sizeof_conn __unix_connection_match None None None None (NULL, NULL, 0).

(** ** Accessors ([kylin_socket.c]) *)
Definition kylin_socket_get_priv (guard : Z) : M sst Z := sget S_PRIV guard.
Definition kylin_socket_get_type (guard : Z) : M sst Z := sget S_TYPE guard.
(** The address of a member: an object and an offset. *)
Definition kylin_socket_get_opts (guard : Z) : Z * Z := (guard, S_OPTS).

Section Backends.
Context (sys : system) (nested : nested_dtors).

(** A system call that returns an [int]; one that returns a [ssize_t]. *)
Definition call_long (c : syscall) : M sst Z := fun s =>
  let h := c :: hist s in Ok (answer sys h, mk_sst (sid s) (slist s) (splugin s) (sheap s) h).
Definition call (c : syscall) : M sst Z := r ← call_long c; mret (s32 r).
Definition call_ (c : syscall) : M sst unit := _ ← call c; mret tt.
Definition ask {A} (f : list syscall -> A) : M sst A := fun s => Ok (f (hist s), s).

Definition set_nonblock (fd : Z) : M sst unit :=
  flags ← call (SysGetfl fd); call_ (SysSetfl fd (Z.lor flags O_NONBLOCK)).

(** [recv], [send] and their forms with an address; the buffer is an object and
    an offset in it. *)
Definition store_received (buf : Z * Z) (r : Z) : M sst unit :=
  if 0 <? r then data ← ask (received sys); smem (store_at buf.1 buf.2 (take (Z.to_nat r) data)) else mret tt.

Definition recv (fd : Z) (buf : Z * Z) (len : Z) : M sst Z :=
  r ← call_long (SysRecv fd len); _ ← store_received buf r; mret r.

Definition recvfrom (fd : Z) (buf : Z * Z) (len : Z) (guard addr : Z) (lenf : field) : M sst Z :=
  room ← sget lenf guard;
  r ← call_long (SysRecvfrom fd len);
  _ ← store_received buf r;
  _ ← (if r <? 0 then mret tt else
         from ← ask (peer sys); n ← ask (peer_len sys);
         _ ← smem (store_at guard addr (take (Z.to_nat room) from)); sput lenf guard n);
  mret r.

Definition send (fd : Z) (buf : Z * Z) (len : Z) : M sst Z :=
  bs ← smem (load_at buf.1 buf.2 len); call_long (SysSend fd bs).

Definition sendto (fd : Z) (buf : Z * Z) (len : Z) (guard addr : Z) (lenf : field) : M sst Z :=
  n ← sget lenf guard;
  bs ← smem (load_at buf.1 buf.2 len); call_long (SysSendto fd bs (guard, addr) n).

(** ** TCP ([kylin_socket_tcp.c]) *)

(** The label [error]. *)
Definition tcp_error (priv fd : Z) : M sst Z :=
  _ ← (if negb (fd =? 0) then call_ (SysClose fd) else mret tt);
  _ ← smem (kylin_free priv);
  mret NULL.

Definition tcp_create (guard : Z) : M sst Z :=
  type ← kylin_socket_get_type guard;
  if negb (type =? KYLIN_SOCK_SERVER_TCP) && negb (type =? KYLIN_SOCK_CLIENT_TCP) then mret NULL else
  priv ← smem (kylin_malloc sizeof_stream);
  if priv =? NULL then mret NULL else
  fd ← call (SysSocket PF_INET SOCK_STREAM);
  _ ← sput P_FD priv fd;
  if fd =? -1 then tcp_error priv fd else
  _ ← call_ (SysSetsockopt fd SOL_SOCKET SO_REUSEADDR);
  _ ← call_ (SysSetsockopt fd SOL_SOCKET MSG_NOSIGNAL);
  _ ← call_ (SysSetsockopt fd IPPROTO_TCP TCP_NODELAY);
  _ ← set_nonblock fd;
  if type =? KYLIN_SOCK_SERVER_TCP then
    len ← sget SERVER_LEN guard;
    e ← call (SysBind fd (guard, SERVER_ADDR) len);
    if negb (e =? 0) then tcp_error priv fd else
    backlog ← sget_int SERVER_BACKLOG guard;
    e ← call (SysListen fd backlog);
    if negb (e =? 0) then tcp_error priv fd else
    conns ← on_heap (kylin_list_create tcp_conns_opts);
    _ ← sput P_CONNS priv conns;
    if conns =? NULL then tcp_error priv fd else mret priv
  else mret priv.

(** [tcp_destroy] and [unix_destroy] are the same. *)
Definition stream_destroy (priv : Z) : M sst unit :=
  if priv =? NULL then mret tt else
  fd ← sget_int P_FD priv;
  _ ← (if negb (fd =? 0) then call_ (SysClose fd) else mret tt);
  conns ← sget P_CONNS priv;
  _ ← (if negb (conns =? NULL) then on_heap (kylin_list_destroy nested conns) else mret tt);
  smem (kylin_free priv).
Definition tcp_destroy : Z -> M sst unit := stream_destroy.

(** [tcp_connect] and [unix_connect], but for the type. *)
Definition stream_connect (type_of_client guard : Z) : M sst Z :=
  type ← kylin_socket_get_type guard;
  if negb (type =? type_of_client) then mret (kerr_code KYLIN_ERROR_INVAL) else
  len ← sget SERVER_LEN guard;
  if len =? 0 then mret (kerr_code KYLIN_ERROR_NOENT) else
  priv ← kylin_socket_get_priv guard;
  if priv =? NULL then mret (kerr_code KYLIN_ERROR_IO) else
  fd ← sget_int P_FD priv;
  if fd =? -1 then mret (kerr_code KYLIN_ERROR_IO) else
  e ← call (SysConnect fd (guard, SERVER_ADDR) len);
  if negb (e =? 0) then ask (errno sys) else mret (kerr_code KYLIN_ERROR_OK).
Definition tcp_connect : Z -> M sst Z := stream_connect KYLIN_SOCK_CLIENT_TCP.

(** The end of both [accept] functions: the connection is made and linked; [n]
    is the size of the address, of which [len] bytes were stored.  What the system did not store of the address
    is taken for zeroes. *)
Definition new_conn (guard priv fd : Z) (from : list Z) (len : Z) (n : nat) : M sst Z :=
  conn ← smem (kylin_malloc sizeof_conn);
  if conn =? NULL then _ ← call_ (SysClose fd); mret NULL else
  _ ← sput C_FD conn fd;
  _ ← sput C_SOCK conn guard;
  _ ← sput C_CLIENT_LEN conn len;
  _ ← smem (store_at conn C_CLIENT_ADDR (take n (from ++ replicate n 0)));
  local ← smem (load_at guard SERVER_LOCAL sizeof_addr);
  _ ← smem (store_at conn C_SERVER local);
  conns ← sget P_CONNS priv;
  r ← on_heap (kylin_list_insert_head conns conn);
  if negb (vptr_addr r =? kerr_code KYLIN_ERROR_OK) then
    fd ← sget_int C_FD conn; _ ← call_ (SysClose fd); _ ← smem (kylin_free conn); mret NULL
  else mret conn.

Definition tcp_accept (guard : Z) : M sst Z :=
  priv ← kylin_socket_get_priv guard;
  if priv =? NULL then mret NULL else
  lfd ← sget_int P_FD priv;
  if lfd =? -1 then mret NULL else
  fd ← call (SysAccept lfd);
  if fd =? -1 then mret NULL else
  from ← ask (peer sys); n ← ask (peer_len sys);
  _ ← call_ (SysSetsockopt fd SOL_SOCKET MSG_NOSIGNAL);
  len ← sget SERVER_LEN guard;
  if len =? 0 then _ ← call_ (SysClose fd); mret NULL else
  new_conn guard priv fd from n 16.

Definition tcp_recv (guard fd : Z) (buf : Z * Z) (len : Z) : M sst Z := recv fd buf len.
Definition tcp_send (guard fd : Z) (buf : Z * Z) (len : Z) : M sst Z := send fd buf len.

(** The functions on connections, the same for both stream back ends. *)
Definition conn_count (guard : Z) : M sst Z :=
  priv ← kylin_socket_get_priv guard;
  if priv =? NULL then mret 0 else
  conns ← sget P_CONNS priv; n ← on_heap (kylin_list_count conns); mret (u32 n).

Definition conns_of (guard : Z) : M sst Z :=
  priv ← kylin_socket_get_priv guard;
  if priv =? NULL then mret NULL else sget P_CONNS priv.

Definition conn_get_first (guard : Z) : M sst Z :=
  conns ← conns_of guard;
  if conns =? NULL then mret NULL else
  node ← on_heap (kylin_list_first conns);
  if node =? NULL then mret NULL else
  v ← on_heap (kylin_list_val conns node); mret (vptr_addr v).

Definition conn_get_next (guard conn : Z) : M sst Z :=
  conns ← conns_of guard;
  if conns =? NULL then mret NULL else
  node ← on_heap (kylin_list_find_raw conns conn);
  if node =? NULL then mret NULL else
  node ← on_heap (kylin_list_next node);
  if node =? NULL then mret NULL else
  v ← on_heap (kylin_list_val conns node); mret (vptr_addr v).

Definition conn_destroy (guard conn : Z) : M sst unit :=
  conns ← conns_of guard;
  if conns =? NULL then mret tt else
  v ← on_heap (kylin_list_unlink conns conn);
  if vptr_addr v =? NULL then mret tt else
  fd ← sget_int C_FD conn; _ ← call_ (SysClose fd); smem (kylin_free conn).

(** The descriptor, the first member of the private data in each back end. *)
Definition get_sockfd (guard : Z) : M sst Z :=
  priv ← kylin_socket_get_priv guard;
  if priv =? NULL then mret (-1) else sget_int P_FD priv.

Definition tcp_conn_count := conn_count.
Definition tcp_conn_get_first := conn_get_first.
Definition tcp_conn_get_next := conn_get_next.
Definition tcp_conn_destroy := conn_destroy.
Definition tcp_get_sockfd := get_sockfd.
Definition tcp_init : kerr_t := KYLIN_ERROR_OK.
Definition tcp_fini : unit := tt.

(** ** UDP ([kylin_socket_udp.c]) *)

(** [close] and [kylin_free] before a failure is returned. *)
Definition close_and_free (priv fd : Z) : M sst Z := _ ← call_ (SysClose fd); _ ← smem (kylin_free priv); mret NULL.

Definition udp_create (guard : Z) : M sst Z :=
  type ← kylin_socket_get_type guard;
  if negb (type =? KYLIN_SOCK_SERVER_UDP) && negb (type =? KYLIN_SOCK_CLIENT_UDP) then mret NULL else
  priv ← smem (kylin_malloc sizeof_udp);
  if priv =? NULL then mret NULL else
  fd ← call (SysSocket PF_INET SOCK_DGRAM);
  _ ← sput P_FD priv fd;
  if fd =? -1 then _ ← smem (kylin_free priv); mret NULL else
  _ ← call_ (SysSetsockopt fd SOL_SOCKET SO_REUSEADDR);
  _ ← set_nonblock fd;
  if type =? KYLIN_SOCK_SERVER_UDP then
    len ← sget SERVER_LEN guard;
    e ← call (SysBind fd (guard, SERVER_ADDR) len);
    if negb (e =? 0) then close_and_free priv fd else mret priv
  else mret priv.

Definition udp_destroy (priv : Z) : M sst unit :=
  if priv =? NULL then mret tt else
  fd ← sget_int P_FD priv;
  _ ← (if negb (fd =? 0) then call_ (SysClose fd) else mret tt);
  smem (kylin_free priv).

(** A datagram from, or to, the address in the options: the client's member for
    a server, the server's for a client. *)
Definition datagram_recv (server : Z) (type guard fd : Z) (buf : Z * Z) (len : Z) : M sst Z :=
  if type =? server then recvfrom fd buf len guard CLIENT_ADDR CLIENT_LEN
  else recvfrom fd buf len guard SERVER_ADDR SERVER_LEN.
Definition datagram_send (server : Z) (type guard fd : Z) (buf : Z * Z) (len : Z) : M sst Z :=
  if type =? server then sendto fd buf len guard CLIENT_ADDR CLIENT_LEN
  else sendto fd buf len guard SERVER_ADDR SERVER_LEN.

Definition udp_recv (guard fd : Z) (buf : Z * Z) (len : Z) : M sst Z :=
  type ← kylin_socket_get_type guard;
  if negb (type =? KYLIN_SOCK_SERVER_UDP) && negb (type =? KYLIN_SOCK_CLIENT_UDP) then mret 0 else
  datagram_recv KYLIN_SOCK_SERVER_UDP type guard fd buf len.
Definition udp_send (guard fd : Z) (buf : Z * Z) (len : Z) : M sst Z :=
  type ← kylin_socket_get_type guard;
  if negb (type =? KYLIN_SOCK_SERVER_UDP) && negb (type =? KYLIN_SOCK_CLIENT_UDP) then mret 0 else
  datagram_send KYLIN_SOCK_SERVER_UDP type guard fd buf len.
Definition udp_get_sockfd := get_sockfd.
Definition udp_init : kerr_t := KYLIN_ERROR_OK.
Definition udp_fini : unit := tt.

(** ** Unix sockets ([kylin_socket_unix.c]) *)
Definition unix_create (guard : Z) : M sst Z :=
  type ← kylin_socket_get_type guard;
  if negb (type =? KYLIN_SOCK_SERVER_UNIX) && negb (type =? KYLIN_SOCK_CLIENT_UNIX) then mret NULL else
  priv ← smem (kylin_malloc sizeof_stream);
  if priv =? NULL then mret NULL else
  otype ← sget_int O_TYPE guard;
  fd ← call (SysSocket PF_LOCAL otype);
  _ ← sput P_FD priv fd;
  if fd =? -1 then _ ← smem (kylin_free priv); mret NULL else
  if type =? KYLIN_SOCK_SERVER_UNIX then
    _ ← call_ (SysUnlink (guard, SERVER_ADDR + 2));
    len ← sget SERVER_LEN guard;
    e ← call (SysBind fd (guard, SERVER_ADDR) len);
    if negb (e =? 0) then close_and_free priv fd else
    _ ← set_nonblock fd;
    backlog ← sget_int SERVER_BACKLOG guard;
    e ← call (SysListen fd backlog);
    if negb (e =? 0) then close_and_free priv fd else
    if otype =? SOCK_STREAM then
      conns ← on_heap (kylin_list_create unix_conns_opts);
      _ ← sput P_CONNS priv conns;
      if conns =? NULL then close_and_free priv fd else mret priv
    else mret priv
  else mret priv.

Definition unix_destroy : Z -> M sst unit := stream_destroy.
Definition unix_connect : Z -> M sst Z := stream_connect KYLIN_SOCK_CLIENT_UNIX.

Definition unix_accept (guard : Z) : M sst Z :=
  otype ← sget_int O_TYPE guard;
  if negb (otype =? SOCK_STREAM) then mret NULL else
  slen ← sget SERVER_LEN guard;
  if slen =? 0 then mret NULL else
  priv ← kylin_socket_get_priv guard;
  if priv =? NULL then mret NULL else
  lfd ← sget_int P_FD priv;
  if lfd =? -1 then mret NULL else
  fd ← call (SysAccept lfd);
  if fd =? -1 then mret NULL else
  from ← ask (peer sys); n ← ask (peer_len sys);
  new_conn guard priv fd from n 110.

Definition unix_recv (guard fd : Z) (buf : Z * Z) (len : Z) : M sst Z :=
  type ← kylin_socket_get_type guard;
  if negb (type =? KYLIN_SOCK_SERVER_UNIX) && negb (type =? KYLIN_SOCK_CLIENT_UNIX) then mret 0 else
  otype ← sget_int O_TYPE guard;
  if otype =? SOCK_STREAM then recv fd buf len else datagram_recv KYLIN_SOCK_SERVER_UNIX type guard fd buf len.
Definition unix_send (guard fd : Z) (buf : Z * Z) (len : Z) : M sst Z :=
  type ← kylin_socket_get_type guard;
  if negb (type =? KYLIN_SOCK_SERVER_UNIX) && negb (type =? KYLIN_SOCK_CLIENT_UNIX) then mret 0 else
  otype ← sget_int O_TYPE guard;
  if otype =? SOCK_STREAM then send fd buf len else datagram_send KYLIN_SOCK_SERVER_UNIX type guard fd buf len.
Definition unix_conn_count := conn_count.
Definition unix_conn_get_first := conn_get_first.
Definition unix_conn_get_next := conn_get_next.
Definition unix_conn_destroy := conn_destroy.
Definition unix_get_sockfd := get_sockfd.
Definition unix_init : kerr_t := KYLIN_ERROR_OK.
Definition unix_fini : unit := tt.
End Backends.

(** ** The plug-ins ([kylin_socket_plugin.c]) *)

(** The functions of a plug-in somebody registers, by address; those on
    connections are never called through the table. *)
Record user_ops := mk_user {
  u_create : Z -> Z -> M sst Z;
  u_destroy : Z -> Z -> M sst unit;
  u_connect : Z -> Z -> M sst Z;
  u_accept : Z -> Z -> M sst Z;
  u_recv : Z -> Z -> Z -> Z * Z -> Z -> M sst Z;
  u_send : Z -> Z -> Z -> Z * Z -> Z -> M sst Z;
  u_conn_destroy : Z -> Z -> Z -> M sst unit;
  u_get_sockfd : Z -> Z -> M sst Z;
  u_init : Z -> M sst kerr_t;
  u_fini : Z -> M sst unit;
}.

(** The entries 3 to 15 are free; the list ends with 18, and the rest of the
    array is zero: its type is [KYLIN_SOCK_SERVER_TCP]. *)
Definition server_reg (f : impl) : ksock_reg_t :=
  mk_reg (Some f) (Some f) None (Some f) (Some f) (Some f) (Some f) (Some f) (Some f) (Some f) (Some f) (Some f) (Some f).
Definition udp_reg : ksock_reg_t :=
  mk_reg (Some Udp) (Some Udp) None None (Some Udp) (Some Udp) None None None None (Some Udp) (Some Udp) (Some Udp).
Definition client_reg (f : impl) : ksock_reg_t :=
  mk_reg (Some f) (Some f) (Some f) None (Some f) (Some f) None None None None (Some f) (Some f) (Some f).
Definition default_splugin : list ksock_plugin_t :=
  [mk_plugin 0 KYLIN_SOCK_SERVER_TCP (server_reg Tcp);
   mk_plugin 0 KYLIN_SOCK_SERVER_UDP udp_reg;
   mk_plugin 0 KYLIN_SOCK_SERVER_UNIX (server_reg Unix)] ++
  replicate 13 (mk_plugin 0 KYLIN_SOCK_MAX no_reg) ++
  [mk_plugin 0 KYLIN_SOCK_CLIENT_TCP (client_reg Tcp);
   mk_plugin 0 KYLIN_SOCK_CLIENT_UDP udp_reg;
   mk_plugin 0 KYLIN_SOCK_CLIENT_UNIX (client_reg Unix)] ++
  replicate 13 (mk_plugin 0 0 no_reg).

Definition KYLIN_SOCK_TYPE_DEF_CNT : nat := 3.
Definition KYLIN_SOCK_TYPE_MAX_CNT : nat := Z.to_nat KYLIN_SOCK_SERVER_MAX.

Section Registry.
Context (sys : system) (nested : nested_dtors) (user : user_ops).

(** A call through a function pointer; a back end that has no such function is
    never entered in the table with one. *)
Definition do_create (f : impl) (guard : Z) : M sst Z :=
  match f with
  | Tcp => tcp_create sys guard | Udp => udp_create sys guard | Unix => unix_create sys guard
  | User a => u_create user a guard
  end.
Definition do_destroy (f : impl) (priv : Z) : M sst unit :=
  match f with
  | Tcp => tcp_destroy sys nested priv | Udp => udp_destroy sys priv | Unix => unix_destroy sys nested priv
  | User a => u_destroy user a priv
  end.
Definition do_connect (f : impl) (guard : Z) : M sst Z :=
  match f with
  | Tcp => tcp_connect sys guard | Udp => lift Ub | Unix => unix_connect sys guard
  | User a => u_connect user a guard
  end.
Definition do_accept (f : impl) (guard : Z) : M sst Z :=
  match f with
  | Tcp => tcp_accept sys guard | Udp => lift Ub | Unix => unix_accept sys guard
  | User a => u_accept user a guard
  end.
Definition do_recv (f : impl) (guard fd : Z) (buf : Z * Z) (len : Z) : M sst Z :=
  match f with
  | Tcp => tcp_recv sys guard fd buf len | Udp => udp_recv sys guard fd buf len
  | Unix => unix_recv sys guard fd buf len | User a => u_recv user a guard fd buf len
  end.
Definition do_send (f : impl) (guard fd : Z) (buf : Z * Z) (len : Z) : M sst Z :=
  match f with
  | Tcp => tcp_send sys guard fd buf len | Udp => udp_send sys guard fd buf len
  | Unix => unix_send sys guard fd buf len | User a => u_send user a guard fd buf len
  end.
Definition do_conn_destroy (f : impl) (guard conn : Z) : M sst unit :=
  match f with
  | Tcp => tcp_conn_destroy sys guard conn | Udp => lift Ub | Unix => unix_conn_destroy sys guard conn
  | User a => u_conn_destroy user a guard conn
  end.
Definition do_get_sockfd (f : impl) (guard : Z) : M sst Z :=
  match f with
  | Tcp => tcp_get_sockfd guard | Udp => udp_get_sockfd guard | Unix => unix_get_sockfd guard
  | User a => u_get_sockfd user a guard
  end.
Definition do_init (f : impl) : M sst kerr_t :=
  match f with Tcp => mret tcp_init | Udp => mret udp_init | Unix => mret unix_init | User a => u_init user a end.
Definition do_fini (f : impl) : M sst unit :=
  match f with Tcp => mret tcp_fini | Udp => mret udp_fini | Unix => mret unix_fini | User a => u_fini user a end.

(** [if(f) f(...)] *)
Definition call_init (f : option impl) : M sst kerr_t := match f with Some f => do_init f | None => mret KYLIN_ERROR_OK end.
Definition call_fini (f : option impl) : M sst unit := match f with Some f => do_fini f | None => mret tt end.
Definition call_destroy (f : option impl) (priv : Z) : M sst unit :=
  match f with Some f => do_destroy f priv | None => mret tt end.

Definition kylin_socket_register (type : Z) (reg : ksock_reg_t) : M sst kerr_t :=
  p ← plugin_at type;
  if negb (p_type p =? KYLIN_SOCK_MAX) then mret KYLIN_ERROR_EXIST else
  match r_create reg, r_destroy reg with
  | Some _, Some _ =>
      ret ← call_init (r_init reg);
      if negb (bool_decide (ret = KYLIN_ERROR_OK)) then mret ret else
      _ ← set_plugin type (mk_plugin 0 type reg);
      mret KYLIN_ERROR_OK
  | _, _ => mret KYLIN_ERROR_INVAL
  end.

Definition kylin_socket_unregister (type : Z) : M sst unit :=
  p ← plugin_at type;
  if p_type p =? KYLIN_SOCK_MAX then mret tt else
  if negb (p_ref p =? 0) then mret tt else
  _ ← call_fini (r_fini (p_reg p));
  set_plugin type (mk_plugin 0 KYLIN_SOCK_MAX no_reg).

(** One plug-in of the first loop of [kylin_socket_plugin_init]. *)
Definition init_plugin (i : nat) : M sst kerr_t :=
  p ← plugin_at (Z.of_nat i);
  if negb (p_type p =? KYLIN_SOCK_MAX) then call_init (r_init (p_reg p)) else mret KYLIN_ERROR_OK.

Fixpoint init_plugins (l : list nat) : M sst kerr_t :=
  match l with
  | [] => mret KYLIN_ERROR_OK
  | i :: l =>
      ret ← init_plugin i;
      if negb (bool_decide (ret = KYLIN_ERROR_OK)) then mret ret else
      ret ← init_plugin (i + KYLIN_SOCK_TYPE_MAX_CNT);
      if negb (bool_decide (ret = KYLIN_ERROR_OK)) then mret ret else
      init_plugins l
  end.

Definition set_type (i : nat) (type : Z) : M sst unit :=
  p ← plugin_at (Z.of_nat i); set_plugin (Z.of_nat i) (mk_plugin (p_ref p) type (p_reg p)).

Fixpoint free_entries (l : list nat) : M sst unit :=
  match l with
  | [] => mret tt
  | i :: l =>
      _ ← set_type i KYLIN_SOCK_MAX;
      _ ← set_type (i + KYLIN_SOCK_TYPE_MAX_CNT) KYLIN_SOCK_MAX;
      free_entries l
  end.

Definition kylin_socket_plugin_init : M sst kerr_t :=
  ret ← init_plugins (seq 0 KYLIN_SOCK_TYPE_DEF_CNT);
  if negb (bool_decide (ret = KYLIN_ERROR_OK)) then mret ret else
  _ ← free_entries (seq KYLIN_SOCK_TYPE_DEF_CNT (KYLIN_SOCK_TYPE_MAX_CNT - KYLIN_SOCK_TYPE_DEF_CNT));
  mret KYLIN_ERROR_OK.

Fixpoint fini_plugins (l : list nat) : M sst unit :=
  match l with
  | [] => mret tt
  | i :: l =>
      p ← plugin_at (Z.of_nat i);
      _ ← (if negb (p_type p =? KYLIN_SOCK_MAX) then call_fini (r_fini (p_reg p)) else mret tt);
      fini_plugins l
  end.
Definition kylin_socket_plugin_fini : M sst unit := fini_plugins (seq 0 (Z.to_nat KYLIN_SOCK_MAX)).

(** ** The interface ([kylin_socket.c]) *)
Definition set_ref (type : Z) (f : Z -> Z) : M sst unit :=
  p ← plugin_at type; set_plugin type (mk_plugin (u32 (f (p_ref p))) (p_type p) (p_reg p)).

(** The end of [kylin_socket_create]: the socket is linked and counted. *)
Definition link_socket (type guard : Z) : M sst Z :=
  sl ← get_slist;
  r ← on_heap (kylin_list_insert_head sl guard);
  if vptr_addr r =? NULL then
    p ← plugin_at type;
    _ ← match r_destroy (p_reg p) with Some f => priv ← sget S_PRIV guard; do_destroy f priv | None => mret tt end;
    _ ← smem (kylin_free guard);
    mret NULL
  else
    _ ← set_ref type (fun n => n + 1);
    mret guard.

(** [opts] is the address of the caller's options. *)
Definition kylin_socket_create (type opts : Z) : M sst Z :=
  p ← plugin_at type;
  if p_type p =? KYLIN_SOCK_MAX then mret NULL else
  guard ← smem (kylin_malloc sizeof_socket);
  if guard =? NULL then mret NULL else
  id ← next_sid;
  _ ← sput S_ID guard id;
  _ ← sput S_TYPE guard type;
  bs ← smem (load_at opts 0 sizeof_opts);
  _ ← smem (store_at guard S_OPTS bs);
  p ← plugin_at type;
  priv ← match r_create (p_reg p) with Some f => do_create f guard | None => mret NULL end;
  _ ← sput S_PRIV guard priv;
  if match r_create (p_reg p) with Some _ => priv =? NULL | None => false end
  then _ ← smem (kylin_free guard); mret NULL else
  link_socket type guard.

(** The plug-in of a socket. *)
Definition plugin_of (guard : Z) : M sst ksock_plugin_t := type ← sget S_TYPE guard; plugin_at type.

(** [if(splugin[guard->type].reg.destroy) ...; splugin[guard->type].ref--] *)
Definition release (guard : Z) : M sst unit :=
  p ← plugin_of guard;
  _ ← match r_destroy (p_reg p) with Some f => priv ← sget S_PRIV guard; do_destroy f priv | None => mret tt end;
  type ← sget S_TYPE guard;
  set_ref type (fun n => n - 1).

Definition kylin_socket_destroy (guard : Z) : M sst unit :=
  sl ← get_slist;
  r ← on_heap (kylin_list_unlink sl guard);
  if vptr_addr r =? NULL then mret tt else
  _ ← release guard;
  smem (kylin_free guard).

(** A call of one of a socket's functions, with what is returned when the type
    is not registered and when the plug-in has no such function. *)
Definition through {A} (guard : Z) (slot : ksock_reg_t -> option impl) (gone none : A) (f : impl -> M sst A) : M sst A :=
  p ← plugin_of guard;
  if p_type p =? KYLIN_SOCK_MAX then mret gone else
  match slot (p_reg p) with Some i => f i | None => mret none end.

Definition kylin_socket_get_fd (guard : Z) : M sst Z :=
  through guard r_get_sockfd (-1) (-1) (fun f => do_get_sockfd f guard).
Definition kylin_socket_accept (guard : Z) : M sst Z :=
  through guard r_accept NULL NULL (fun f => do_accept f guard).
Definition kylin_socket_connection_destroy (guard conn : Z) : M sst unit :=
  through guard r_conn_destroy tt tt (fun f => do_conn_destroy f guard conn).
Definition kylin_socket_connect (guard : Z) : M sst Z :=
  through guard r_connect (kerr_code KYLIN_ERROR_NOENT) (kerr_code KYLIN_ERROR_FAULT) (fun f => do_connect f guard).
Definition kylin_socket_recv (guard fd : Z) (buf : Z * Z) (len : Z) : M sst Z :=
  through guard r_recv (kerr_code KYLIN_ERROR_NOENT) (kerr_code KYLIN_ERROR_FAULT) (fun f => do_recv f guard fd buf len).
Definition kylin_socket_send (guard fd : Z) (buf : Z * Z) (len : Z) : M sst Z :=
  through guard r_send (kerr_code KYLIN_ERROR_NOENT) (kerr_code KYLIN_ERROR_FAULT) (fun f => do_send f guard fd buf len).

Definition kylin_socket_init : M sst kerr_t :=
  sl ← on_heap (kylin_list_create slist_opts);
  _ ← set_slist sl;
  if sl =? NULL then mret KYLIN_ERROR_NOMEM else kylin_socket_plugin_init.

(** The loop over the list. *)
Fixpoint release_all (fuel : nat) (sl node : Z) : M sst unit :=
  match fuel with
  | O => fun _ => OutOfFuel
  | S fuel =>
      if node =? NULL then mret tt else
      v ← on_heap (kylin_list_val sl node);
      _ ← (if vptr_addr v =? NULL then mret tt else release (vptr_addr v));
      next ← on_heap (kylin_list_next node);
      release_all fuel sl next
  end.

Definition kylin_socket_fini : M sst unit :=
  sl ← get_slist;
  _ ← (if negb (sl =? NULL) then
         node ← on_heap (kylin_list_first sl);
         fuel ← (fun s => Ok (KList.fuel_of (sheap s), s));
         _ ← release_all fuel sl node;
         on_heap (kylin_list_destroy nested sl)
       else mret tt);
  kylin_socket_plugin_fini.
End Registry.

(** ** What the registry asks of a plug-in

    [create] returns NULL or private data made of new objects, which [destroy]
    can dispose of whatever else happens in the heap; neither touches anything
    else, or the registry. *)

(** The 144 bytes of a socket. *)
Definition socket_block (id type : Z) (opts : list Z) (priv : Z) : list Z :=
  le_bytes 4 id ++ le_bytes 4 type ++ opts ++ replicate 4 0 ++ le_bytes 8 priv.

Record socket_at (h : KList.st) (a id type : Z) (opts : list Z) (priv : Z) : Prop := {
  so_block : blocks (omem h) !! a = Some (socket_block id type opts priv);
  so_opts : length opts = 124%nat;
  so_id : is_u 32 id;
  so_type : 0 <= type < KYLIN_SOCK_MAX;
  so_priv : is_u 64 priv;
}.

Section Laws.
Context (sys : system) (nested : nested_dtors) (user : user_ops).

(** A call that leaves the registry as it is and changes the heap at [X]. *)
Definition leaves {A} (X : list Z) (h : KList.st) (f : M sst A) (post : A -> KList.st -> Prop) : Prop :=
  forall i l t hs, exists r h' hs', f (mk_sst i l t h hs) = Ok (r, mk_sst i l t h' hs') /\ changes X h h' /\ post r h'.

Definition disposable (d : impl) (priv : Z) (foot : list Z) (h : KList.st) : Prop :=
  forall h', heap_ok h' -> (forall a, a ∈ foot -> loc h' a = loc h a) ->
  leaves foot h' (do_destroy sys nested user d priv) (fun _ _ => True).

Class SocketImpl (c d : impl) : Prop := {
  create_disposable : forall h a id type opts priv, heap_ok h -> socket_at h a id type opts priv ->
    leaves [] h (do_create sys user c a) (fun p h' => p = NULL \/ is_u 64 p /\ exists foot,
      disposable d p foot h' /\ NoDup foot /\ Forall (fun b => top h <= b < top h') foot);
}.

(** The functions [init] and [fini]. *)
Definition quiet {A} (f : M sst A) : Prop := forall h, heap_ok h -> leaves [] h f (fun _ _ => True).

(** What a registered plug-in is: a pair of functions as above, or none at all
    (the unset end of the array). *)
Definition reg_ok (reg : ksock_reg_t) : Prop :=
  match r_create reg, r_destroy reg with
  | Some c, Some d => SocketImpl c d
  | None, None => True
  | _, _ => False
  end /\ quiet (call_init user (r_init reg)) /\ quiet (call_fini user (r_fini reg)).

Lemma disposable_frame d priv foot h h' : disposable d priv foot h ->
  (forall a, a ∈ foot -> loc h' a = loc h a) -> disposable d priv foot h'.
Proof. intros H Hl h2 Hok Hl2. apply H; [done|]. intros a Ha. by rewrite Hl2, Hl. Qed.

(** ** Steps of the model *)
Lemma smem_eq {A} (f : M mem A) i l t h hs x h' : on_mem f h = Ok (x, h') ->
  smem f (mk_sst i l t h hs) = Ok (x, mk_sst i l t h' hs).
Proof. intros E. unfold smem, on_heap. simpl. by rewrite E. Qed.

Lemma on_heap_eq {A} (f : M KList.st A) i l t h hs x h' : f h = Ok (x, h') ->
  on_heap f (mk_sst i l t h hs) = Ok (x, mk_sst i l t h' hs).
Proof. intros E. unfold on_heap. simpl. by rewrite E. Qed.

Lemma call_eq c i l t h hs :
  call sys c (mk_sst i l t h hs) = Ok (s32 (answer sys (c :: hs)), mk_sst i l t h (c :: hs)).
Proof. done. Qed.

Lemma call_eq_ c i l t h hs : call_ sys c (mk_sst i l t h hs) = Ok (tt, mk_sst i l t h (c :: hs)).
Proof. done. Qed.

Lemma set_nonblock_eq fd i l t h hs : exists hs', set_nonblock sys fd (mk_sst i l t h hs) = Ok (tt, mk_sst i l t h hs').
Proof. by eexists. Qed.

(** A member of an object that is known. *)
Lemma sget_eq a x n z y w off i l t h hs : blocks (omem h) !! a = Some (x ++ le_bytes n z ++ y) ->
  w = Z.of_nat n -> off = Z.of_nat (length x) -> is_u (8 * w) z ->
  sget (off, w) a (mk_sst i l t h hs) = Ok (z, mk_sst i l t h hs).
Proof.
  intros Hb Hw Ho Hz. apply smem_eq. apply (on_mem_pure (get_field (off, w) a) h). by eapply get_field_ok.
Qed.

Lemma sget_any a x bs y w off i l t h hs : blocks (omem h) !! a = Some (x ++ bs ++ y) ->
  w = Z.of_nat (length bs) -> off = Z.of_nat (length x) ->
  sget (off, w) a (mk_sst i l t h hs) = Ok (le_value bs, mk_sst i l t h hs).
Proof.
  intros Hb -> ->. apply smem_eq. apply (on_mem_pure (get_field _ a) h). unfold get_field. cbn [fst snd].
  by run (load_at_ok (omem h) a x bs y _ Hb eq_refl).
Qed.

Lemma sget_int_any a x bs y w off i l t h hs : blocks (omem h) !! a = Some (x ++ bs ++ y) ->
  w = Z.of_nat (length bs) -> off = Z.of_nat (length x) ->
  sget_int (off, w) a (mk_sst i l t h hs) = Ok (s32 (le_value bs), mk_sst i l t h hs).
Proof. intros Hb Hw Ho. unfold sget_int. by run (sget_any a x bs y w off i l t h hs Hb Hw Ho). Qed.

(** ** The built-in back ends *)

(** Closing a descriptor changes nothing. *)
Lemma close_eq fd i l t h hs : exists hs',
  (if negb (fd =? 0) then call_ sys (SysClose fd) else mret tt) (mk_sst i l t h hs) = Ok (tt, mk_sst i l t h hs').
Proof. destruct (negb (fd =? 0)); by eexists. Qed.

Lemma free_eq a bs h : heap_ok h -> blocks (omem h) !! a = Some bs -> exists h', changes [a] h h' /\
  forall i l t hs, smem (kylin_free a) (mk_sst i l t h hs) = Ok (tt, mk_sst i l t h' hs).
Proof.
  intros Hh Ha. destruct (heap_free h a bs Hh Ha) as (h' & E & C). exists h'. split; [done|].
  intros. by apply smem_eq.
Qed.

Lemma live_not_null h a bs : heap_ok h -> blocks (omem h) !! a = Some bs -> a <> NULL.
Proof. intros [[_ Hm] _] Ha. apply Hm in Ha. unfold NULL. lia. Qed.

(** The private data of a stream back end: the list of connections is empty,
    or there is none. *)
Definition stream_data (h : KList.st) (priv : Z) (foot : list Z) : Prop :=
  exists fd pad conns, blocks (omem h) !! priv = Some (fd ++ pad ++ le_bytes 8 conns) /\
    length fd = 4%nat /\ length pad = 4%nat /\ is_u 64 conns /\
    (conns = NULL /\ foot = [priv] \/
     conns <> NULL /\ foot = [priv; conns] /\ priv <> conns /\ exists o, klist_rep h conns o []).

Lemma stream_disposable d h priv foot : d = Tcp \/ d = Unix -> stream_data h priv foot -> disposable d priv foot h.
Proof.
  intros Hd (fd & pad & conns & Hb & Hfd & Hpad & Hu & Hc) h' Hok Hl i l t hs.
  assert (Hp : priv ∈ foot) by (destruct Hc as [(_ & ->)|(_ & -> & _)]; set_solver).
  rewrite <- (loc_block _ _ _ (Hl priv Hp)) in Hb.
  assert (Hconns : conns = NULL /\ foot = [priv] \/
     conns <> NULL /\ foot = [priv; conns] /\ priv <> conns /\ exists o, klist_rep h' conns o []).
  { destruct Hc as [?|(Hn & -> & Hne & o & HR)]; [by left|]. right. split_and!; [done..|]. exists o.
    eapply rep_frame; [exact HR|]. intros a Ha. apply Hl. set_solver. }
  clear Hc Hl. replace (do_destroy sys nested user d priv) with (stream_destroy sys nested priv)
    by (by destruct Hd as [-> | ->]).
  unfold stream_destroy. rewrite (proj2 (Z.eqb_neq _ _) (live_not_null _ _ _ Hok Hb)).
  run (sget_int_any priv [] fd _ 4 0 i l t h' hs Hb ltac:(by rewrite Hfd) eq_refl).
  destruct (close_eq (s32 (le_value fd)) i l t h' hs) as (hs' & Ec). run Ec.
  rewrite app_assoc in Hb.
  assert (Hb8 : blocks (omem h') !! priv = Some ((fd ++ pad) ++ le_bytes 8 conns ++ [])) by (by rewrite app_nil_r).
  run (sget_eq priv (fd ++ pad) 8 conns [] 8 8 i l t h' hs' Hb8 eq_refl
    ltac:(by rewrite length_app, Hfd, Hpad) Hu).
  destruct Hconns as [(-> & ->)|(Hn & -> & Hne & o & HR)].
  - destruct (free_eq priv _ h' Hok Hb) as (h2 & C & Ef). eexists _, h2, hs'. split; [|done]. cbn. apply Ef.
  - rewrite (proj2 (Z.eqb_neq _ _) Hn). cbn [negb].
    destruct (list_destroy_empty nested h' conns o Hok HR) as (h2 & E2 & C2). run (on_heap_eq _ i l t h' hs' _ _ E2).
    assert (Hb2 : blocks (omem h2) !! priv = Some ((fd ++ pad) ++ le_bytes 8 conns)).
    { rewrite <- Hb. apply loc_block, C2; [|set_solver]. destruct Hok as [[_ Hm] _]. apply Hm in Hb. unfold top. lia. }
    destruct (free_eq priv _ h2 (ch_ok _ _ _ C2) Hb2) as (h3 & C3 & Ef). eexists _, h3, hs'. split; [apply Ef|].
    split; [|done]. eapply changes_weaken; [by eapply changes_trans|]. set_solver.
Qed.
(** ** Running a function step by step

    [runs h0 X h f Q]: from the heap [h], [f] returns, leaves the registry alone,
    has changed the heap [h0] at [X] only, and [Q] holds of its result. *)
Definition runs {A} (h0 : KList.st) (X : list Z) (h : KList.st) (f : M sst A) (Q : A -> KList.st -> Prop) : Prop :=
  forall i l t hs, exists r h' hs', f (mk_sst i l t h hs) = Ok (r, mk_sst i l t h' hs') /\ changes X h0 h' /\ Q r h'.

Lemma runs_leaves {A} X h (f : M sst A) Q : runs h X h f Q -> leaves X h f Q.
Proof. done. Qed.

Lemma runs_ret {A} h0 X h (x : A) (Q : A -> KList.st -> Prop) : changes X h0 h -> Q x h -> runs h0 X h (mret x) Q.
Proof. intros C H i l t hs. by exists x, h, hs. Qed.

(** A step whose result and heap are known. *)
Lemma runs_step {A B} h0 X h h' (f : M sst A) (g : A -> M sst B) x Q :
  (forall i l t hs, f (mk_sst i l t h hs) = Ok (x, mk_sst i l t h' hs)) ->
  runs h0 X h' (g x) Q -> runs h0 X h (y ← f; g y) Q.
Proof. intros E H i l t hs. destruct (H i l t hs) as (r & h2 & hs2 & E2 & C & HQ). exists r, h2, hs2. by run (E i l t hs). Qed.

(** A system call, or several: only the history changes. *)
Lemma runs_sys {A B} h0 X h (f : M sst A) (g : A -> M sst B) Q :
  (forall i l t hs, exists x hs', f (mk_sst i l t h hs) = Ok (x, mk_sst i l t h hs')) ->
  (forall x, runs h0 X h (g x) Q) -> runs h0 X h (y ← f; g y) Q.
Proof.
  intros E H i l t hs. destruct (E i l t hs) as (x & hs1 & E1).
  destruct (H x i l t hs1) as (r & h2 & hs2 & E2 & C & HQ). exists r, h2, hs2. by run E1.
Qed.

(** The assignment of a member. *)
Lemma put_eq a x old n v y w off h : heap_ok h -> blocks (omem h) !! a = Some (x ++ old ++ y) ->
  length old = n -> w = Z.of_nat n -> off = Z.of_nat (length x) ->
  exists h', changes [a] h h' /\ guards h' = guards h /\ blocks (omem h') !! a = Some (x ++ le_bytes n v ++ y) /\
    top h' = top h /\
    forall i l t hs, sput (off, w) a v (mk_sst i l t h hs) = Ok (tt, mk_sst i l t h' hs).
Proof.
  intros Hh Ha Hl Hw Ho. destruct (heap_put h a x old n v y w off Hh Ha Hl Hw Ho) as (h' & E & C & G & B & T).
  exists h'. split_and!; [done..|]. intros. by apply smem_eq.
Qed.

Lemma changes_at X Y h0 h h' : changes X h0 h -> changes Y h h' -> (forall a, a ∈ Y -> top h0 <= a) -> changes X h0 h'.
Proof. intros C C' HY. eapply changes_new; [done..|]. intros a Ha HaY. specialize (HY a HaY). lia. Qed.

(** What [create] has to give. *)
Definition made (d : impl) (h0 : KList.st) (p : Z) (h' : KList.st) : Prop :=
  p = NULL \/ is_u 64 p /\ exists foot, disposable d p foot h' /\ NoDup foot /\ Forall (fun b => top h0 <= b < top h') foot.

Lemma made_null d h0 h' : made d h0 NULL h'.
Proof. by left. Qed.

(** Failing after the private data was made. *)
Lemma free_made d h0 h priv bs : changes [] h0 h -> blocks (omem h) !! priv = Some bs -> top h0 <= priv ->
  runs h0 [] h (_ ← smem (kylin_free priv); mret NULL) (made d h0).
Proof.
  intros C Hb Ht. destruct (free_eq priv bs h (ch_ok _ _ _ C) Hb) as (h' & C' & E).
  eapply runs_step; [apply E|]. apply runs_ret; [|apply made_null].
  eapply changes_at; [done..|]. set_solver.
Qed.

Lemma tcp_error_made d h0 h priv fd bs : changes [] h0 h -> blocks (omem h) !! priv = Some bs -> top h0 <= priv ->
  runs h0 [] h (tcp_error sys priv fd) (made d h0).
Proof.
  intros C Hb Ht. apply runs_sys; [|intros []; by eapply free_made].
  intros. destruct (close_eq fd i l t h hs) as (hs' & E). by exists tt, hs'.
Qed.

Lemma close_and_free_made d h0 h priv fd bs : changes [] h0 h -> blocks (omem h) !! priv = Some bs -> top h0 <= priv ->
  runs h0 [] h (close_and_free sys priv fd) (made d h0).
Proof. intros C Hb Ht. apply runs_sys; [|intros []; by eapply free_made]. intros. by eexists _, _. Qed.

(** The private data of a stream socket once its descriptor is stored. *)
Definition fresh_stream (h0 h : KList.st) (priv fd : Z) : Prop :=
  changes [] h0 h /\ top h0 <= priv < top h /\
  blocks (omem h) !! priv = Some (le_bytes 4 fd ++ replicate 4 0 ++ replicate 8 0).

Lemma heap_top_u h a : heap_ok h -> 0 < a < top h -> is_u 64 a.
Proof. intros [[Hm _] _] Ha. unfold top in *. unfold is_u. lia. Qed.

Lemma fresh_stream_made d h0 h priv fd : d = Tcp \/ d = Unix -> fresh_stream h0 h priv fd ->
  runs h0 [] h (mret priv) (made d h0).
Proof.
  intros Hd (C & Ht & Hb). pose proof (ch_ok _ _ _ C) as Hok. pose proof Hok as [[_ Hm] _].
  pose proof (Hm _ _ Hb) as Hp. apply runs_ret; [done|]. right. split; [eapply heap_top_u; [done|unfold top; lia]|].
  exists [priv]. split; [|split; [apply NoDup_singleton|by constructor]].
  apply stream_disposable; [done|]. exists (le_bytes 4 fd), (replicate 4 0), NULL.
  split_and!; [done|by rewrite length_le_bytes|done|done|by left].
Qed.

(** The list of connections of a server. *)
Lemma stream_server d h0 h priv fd o (fail : M sst Z) : d = Tcp \/ d = Unix -> fresh_stream h0 h priv fd ->
  guard_init o = (NULL, NULL, 0) ->
  (forall h bs, changes [] h0 h -> blocks (omem h) !! priv = Some bs -> runs h0 [] h fail (made d h0)) ->
  runs h0 [] h (conns ← on_heap (kylin_list_create o); _ ← sput P_CONNS priv conns;
                if conns =? NULL then fail else mret priv) (made d h0).
Proof.
  intros Hd (C & Ht & Hb) Ho Hfail. pose proof (ch_ok _ _ _ C) as Hok.
  destruct (list_create h o Hok Ho) as (conns & h1 & E1 & C1 & Hc).
  eapply runs_step; [intros; by apply on_heap_eq|].
  assert (Hb1 : blocks (omem h1) !! priv = Some ((le_bytes 4 fd ++ replicate 4 0) ++ replicate 8 0 ++ [])).
  { rewrite (loc_block _ _ _ (ch_loc _ _ _ C1 priv ltac:(lia) ltac:(set_solver))), Hb.
    by rewrite app_nil_r, app_assoc. }
  destruct (put_eq priv _ _ 8 conns [] 8 8 h1 (ch_ok _ _ _ C1) Hb1 eq_refl eq_refl
    ltac:(by rewrite length_app, length_le_bytes)) as (h2 & C2 & G2 & B2 & T2 & E2).
  eapply runs_step; [apply E2|].
  assert (C02 : changes [] h0 h2).
  { eapply changes_at; [|exact C2|set_solver]. eapply changes_new; [done..|]. set_solver. }
  destruct Hc as [->|(-> & Hr & HR)]; [by eapply Hfail|].
  rewrite (proj2 (Z.eqb_neq _ _)) by (unfold NULL; lia).
  assert (HR2 : klist_rep h2 (top h) o []).
  { eapply rep_frame; [exact HR|]. intros a Ha. apply C2; [set_solver|]. unfold list_cells in Ha. simpl in Ha.
    apply list_elem_of_singleton in Ha as ->. apply not_elem_of_cons. split; [lia|set_solver]. }
  apply runs_ret; [done|]. right. pose proof (ch_ok _ _ _ C02) as Hok2. pose proof Hok2 as [[_ Hm] _].
  pose proof (Hm _ _ B2) as Hp. pose proof (ch_top _ _ _ C). split; [eapply heap_top_u; [done|unfold top; lia]|].
  exists [priv; top h]. split; [|split].
  - apply stream_disposable; [done|]. exists (le_bytes 4 fd), (replicate 4 0), (top h).
    split_and!; [by rewrite B2, app_nil_r, <- app_assoc|by rewrite length_le_bytes|done| |].
    + apply (heap_top_u h2); [done|]. lia.
    + right. split; [unfold NULL; lia|]. split; [done|]. split; [lia|]. by eexists.
  - apply NoDup_cons. split; [|apply NoDup_singleton]. rewrite list_elem_of_singleton. lia.
  - repeat constructor; lia.
Qed.
(** A socket in a heap where it has not been touched, and its members. *)
Lemma socket_frame h h' a id type opts priv : socket_at h a id type opts priv -> loc h' a = loc h a ->
  socket_at h' a id type opts priv.
Proof. intros [] E. split; try done. by rewrite (loc_block _ _ _ E). Qed.

Lemma socket_below h a id type opts priv : heap_ok h -> socket_at h a id type opts priv -> 0 < a < top h.
Proof. intros [[_ Hm] _] []. unfold top. by eapply Hm. Qed.

Lemma socket_changes h h' a id type opts priv : heap_ok h -> changes [] h h' -> socket_at h a id type opts priv ->
  socket_at h' a id type opts priv.
Proof.
  intros Hok C H. eapply socket_frame; [done|]. apply C; [|set_solver]. by eapply socket_below.
Qed.

Lemma get_type_eq h a id type opts priv : socket_at h a id type opts priv ->
  forall i l t hs, kylin_socket_get_type a (mk_sst i l t h hs) = Ok (type, mk_sst i l t h hs).
Proof.
  intros [Hb _ _ Ht _] i l t hs. eapply sget_eq with (x := le_bytes 4 id) (n := 4%nat); [exact Hb|done..|].
  unfold is_u, KYLIN_SOCK_MAX in *. lia.
Qed.

Lemma get_priv_eq h a id type opts priv : socket_at h a id type opts priv ->
  forall i l t hs, kylin_socket_get_priv a (mk_sst i l t h hs) = Ok (priv, mk_sst i l t h hs).
Proof.
  intros [Hb Ho _ _ Hp] i l t hs.
  eapply sget_eq with (x := le_bytes 4 id ++ le_bytes 4 type ++ opts ++ replicate 4 0) (n := 8%nat) (y := []);
    [|done| |done].
  - rewrite Hb. unfold socket_block. by rewrite app_nil_r, <- !app_assoc.
  - rewrite !length_app, !length_le_bytes, Ho. done.
Qed.

(** A member of the options. *)
Lemma sget_opts_at h a id type opts priv k n i l t hs : socket_at h a id type opts priv -> (k + n <= 124)%nat ->
  sget (8 + Z.of_nat k, Z.of_nat n) a (mk_sst i l t h hs) = Ok (le_value (take n (drop k opts)), mk_sst i l t h hs).
Proof.
  intros [Hb Ho _ _ _] Hk.
  eapply sget_any with (x := le_bytes 4 id ++ le_bytes 4 type ++ take k opts) (bs := take n (drop k opts))
    (y := drop (k + n) opts ++ replicate 4 0 ++ le_bytes 8 priv).
  - rewrite Hb. unfold socket_block. rewrite <- (take_drop k opts) at 1.
    rewrite <- (take_drop n (drop k opts)) at 1. rewrite drop_drop. by rewrite <- !app_assoc.
  - rewrite length_take, length_drop. lia.
  - rewrite !length_app, !length_le_bytes, length_take. lia.
Qed.

Lemma sget_opts h a id type opts priv k n : socket_at h a id type opts priv -> (k + n <= 124)%nat ->
  exists v, forall i l t hs,
    sget (8 + Z.of_nat k, Z.of_nat n) a (mk_sst i l t h hs) = Ok (v, mk_sst i l t h hs).
Proof. intros H Hk. eexists. intros. by eapply sget_opts_at. Qed.

Lemma sget_int_opts h a id type opts priv k n : socket_at h a id type opts priv -> (k + n <= 124)%nat ->
  exists v, forall i l t hs,
    sget_int (8 + Z.of_nat k, Z.of_nat n) a (mk_sst i l t h hs) = Ok (v, mk_sst i l t h hs).
Proof.
  intros H Hk. destruct (sget_opts h a id type opts priv k n H Hk) as [v E]. exists (s32 v).
  intros. unfold sget_int. by run (E i l t hs).
Qed.

(** The beginning of [create]: the private data and the descriptor in it. *)
Lemma made_malloc d h0 n g : heap_ok h0 ->
  (forall h, changes [] h0 h -> top h0 < top h -> blocks (omem h) !! top h0 = Some (replicate (Z.to_nat n) 0) ->
    runs h0 [] h (g (top h0)) (made d h0)) ->
  runs h0 [] h0 (priv ← smem (kylin_malloc n); if priv =? NULL then mret NULL else g priv) (made d h0).
Proof.
  intros Hok H. destruct (heap_malloc h0 n Hok) as (a & h & E & C & Ha).
  eapply runs_step; [intros; by apply smem_eq|]. destruct Ha as [->|(-> & Ht & Hl)].
  - apply runs_ret; [done|apply made_null].
  - rewrite (proj2 (Z.eqb_neq _ _)) by (unfold NULL; lia). apply H; [done|lia|]. unfold loc in Hl. congruence.
Qed.

Lemma put_fd h0 h fd n : changes [] h0 h -> top h0 < top h ->
  blocks (omem h) !! top h0 = Some (replicate (4 + n) 0) ->
  exists h', changes [] h0 h' /\ top h0 < top h' /\
    blocks (omem h') !! top h0 = Some (le_bytes 4 fd ++ replicate n 0) /\
    forall i l t hs, sput P_FD (top h0) fd (mk_sst i l t h hs) = Ok (tt, mk_sst i l t h' hs).
Proof.
  intros C Ht Hb. rewrite replicate_add in Hb.
  destruct (put_eq (top h0) [] _ 4 fd _ 4 0 h (ch_ok _ _ _ C) Hb eq_refl eq_refl eq_refl) as (h' & C' & _ & B & T & E).
  exists h'. split; [|split; [by rewrite T|by split]]. eapply changes_at; [done..|]. set_solver.
Qed.

(** A system call, or several, in a [create]. *)
Ltac sys_step := apply runs_sys; [intros; by eexists _, _|intro].

Lemma tcp_create_made h0 a id type opts priv : heap_ok h0 -> socket_at h0 a id type opts priv ->
  runs h0 [] h0 (tcp_create sys a) (made Tcp h0).
Proof.
  intros Hok HS. unfold tcp_create. eapply runs_step; [by apply (get_type_eq _ _ _ _ _ _ HS)|].
  case_match; [apply runs_ret; [by apply changes_refl|apply made_null]|].
  apply made_malloc; [done|]. intros h C Ht Hb. sys_step.
  destruct (put_fd h0 h x 12 C Ht Hb) as (h1 & C1 & Ht1 & Hb1 & E1). eapply runs_step; [apply E1|].
  case_match; [by eapply tcp_error_made|]. do 4 sys_step.
  pose proof (socket_changes _ _ _ _ _ _ _ Hok C1 HS) as HS1.
  assert (HF : fresh_stream h0 h1 (top h0) x) by (split; [done|by split]).
  case_match; [|by eapply fresh_stream_made; [left|]].
  destruct (sget_opts _ _ _ _ _ _ 8 4 HS1 ltac:(lia)) as [len El]. eapply runs_step; [exact El|]. sys_step.
  case_match; [by eapply tcp_error_made|].
  destruct (sget_int_opts _ _ _ _ _ _ 4 4 HS1 ltac:(lia)) as [bl Eb]. eapply runs_step; [exact Eb|]. sys_step.
  case_match; [by eapply tcp_error_made|].
  eapply stream_server; [by left|done..|]. intros. by eapply tcp_error_made.
Qed.

Lemma unix_create_made h0 a id type opts priv : heap_ok h0 -> socket_at h0 a id type opts priv ->
  runs h0 [] h0 (unix_create sys a) (made Unix h0).
Proof.
  intros Hok HS. unfold unix_create. eapply runs_step; [by apply (get_type_eq _ _ _ _ _ _ HS)|].
  case_match; [apply runs_ret; [by apply changes_refl|apply made_null]|].
  apply made_malloc; [done|]. intros h C Ht Hb.
  destruct (sget_int_opts _ _ _ _ _ _ 0 4 (socket_changes _ _ _ _ _ _ _ Hok C HS) ltac:(lia)) as [ot Eo].
  eapply runs_step; [exact Eo|]. sys_step.
  destruct (put_fd h0 h x 12 C Ht Hb) as (h1 & C1 & Ht1 & Hb1 & E1). eapply runs_step; [apply E1|].
  case_match; [by eapply free_made|].
  pose proof (socket_changes _ _ _ _ _ _ _ Hok C1 HS) as HS1.
  assert (HF : fresh_stream h0 h1 (top h0) x) by (split; [done|by split]).
  case_match; [|by eapply fresh_stream_made; [right|]]. sys_step.
  destruct (sget_opts _ _ _ _ _ _ 8 4 HS1 ltac:(lia)) as [len El]. eapply runs_step; [exact El|]. sys_step.
  case_match; [by eapply close_and_free_made|]. sys_step.
  destruct (sget_int_opts _ _ _ _ _ _ 4 4 HS1 ltac:(lia)) as [bl Eb]. eapply runs_step; [exact Eb|]. sys_step.
  case_match; [by eapply close_and_free_made|]. case_match; [|by eapply fresh_stream_made; [right|]].
  eapply stream_server; [by right|done..|]. intros. by eapply close_and_free_made.
Qed.

Lemma udp_disposable h priv bs : blocks (omem h) !! priv = Some bs -> length bs = 4%nat -> disposable Udp priv [priv] h.
Proof.
  intros Hb Hl h' Hok Hloc i l t hs. rewrite <- (loc_block _ _ _ (Hloc priv ltac:(set_solver))) in Hb.
  cbn [do_destroy]. unfold udp_destroy. rewrite (proj2 (Z.eqb_neq _ _) (live_not_null _ _ _ Hok Hb)).
  rewrite <- (app_nil_r bs) in Hb.
  run (sget_int_any priv [] bs [] 4 0 i l t h' hs Hb ltac:(by rewrite Hl) eq_refl).
  destruct (close_eq (s32 (le_value bs)) i l t h' hs) as (hs' & Ec). run Ec.
  destruct (free_eq priv _ h' Hok Hb) as (h2 & C & Ef). eexists _, h2, hs'. split; [apply Ef|done].
Qed.

Lemma udp_create_made h0 a id type opts priv : heap_ok h0 -> socket_at h0 a id type opts priv ->
  runs h0 [] h0 (udp_create sys a) (made Udp h0).
Proof.
  intros Hok HS. unfold udp_create. eapply runs_step; [by apply (get_type_eq _ _ _ _ _ _ HS)|].
  case_match; [apply runs_ret; [by apply changes_refl|apply made_null]|].
  apply made_malloc; [done|]. intros h C Ht Hb. sys_step.
  destruct (put_fd h0 h x 0 C Ht Hb) as (h1 & C1 & Ht1 & Hb1 & E1). eapply runs_step; [apply E1|].
  case_match; [by eapply free_made|]. do 2 sys_step.
  assert (HM : runs h0 [] h1 (mret (top h0)) (made Udp h0)).
  { pose proof (ch_ok _ _ _ C1) as Hok1. pose proof Hok1 as [[_ Hm] _]. pose proof (Hm _ _ Hb1).
    apply runs_ret; [done|]. right. split; [eapply heap_top_u; [done|unfold top in *; lia]|].
    exists [top h0]. split; [by eapply udp_disposable|]. split; [apply NoDup_singleton|repeat constructor; lia]. }
  case_match; [|done].
  destruct (sget_opts _ _ _ _ _ _ 8 4 (socket_changes _ _ _ _ _ _ _ Hok C1 HS) ltac:(lia)) as [len El].
  eapply runs_step; [exact El|]. sys_step. case_match; [by eapply close_and_free_made|done].
Qed.

#[export] Instance tcp_impl : SocketImpl Tcp Tcp.
Proof. split. intros. by eapply tcp_create_made. Qed.
#[export] Instance udp_impl : SocketImpl Udp Udp.
Proof. split. intros. by eapply udp_create_made. Qed.
#[export] Instance unix_impl : SocketImpl Unix Unix.
Proof. split. intros. by eapply unix_create_made. Qed.
End Laws.
