(* ===== verification/SocketReg.v ===== *)
(** * The registry of sockets as a client sees it ([lib/core/socket])

    The refinement of [Socket]: along any sequence of registrations, creations
    and destructions the array, the list and the objects of the heap are a set
    of registered types and a collection of live sockets with their types, in
    which a type is held as long as a socket uses it. *)

From S2P Require Import Prelude Errors Bytes Mem MathVal KList Plugin Socket.

(** ** The specification *)
Record registry := mk_registry { types : gset Z; live : list (Z * Z) (* the address of a socket, its type *) }.

Inductive sock_call :=
| Register (type : Z) (reg : ksock_reg_t)
| Unregister (type : Z)
| Create (type opts : Z)
| Destroy (guard : Z).

Inductive sock_res := RErr (e : kerr_t) | RSock (guard : Z) | RUnit.

Inductive socket_step (R : registry) : sock_call -> sock_res -> registry -> Prop :=
| step_register_exist t reg : t ∈ types R -> socket_step R (Register t reg) (RErr KYLIN_ERROR_EXIST) R
| step_register_inval t reg : t ∉ types R -> r_create reg = None \/ r_destroy reg = None ->
    socket_step R (Register t reg) (RErr KYLIN_ERROR_INVAL) R
| step_register_refused t reg e : t ∉ types R -> e <> KYLIN_ERROR_OK -> r_init reg <> None ->
    socket_step R (Register t reg) (RErr e) R
| step_register t reg : t ∉ types R -> r_create reg <> None -> r_destroy reg <> None ->
    socket_step R (Register t reg) (RErr KYLIN_ERROR_OK) (mk_registry ({[t]} ∪ types R) (live R))
| step_unregister_kept t : t ∉ types R \/ t ∈ map snd (live R) -> socket_step R (Unregister t) RUnit R
| step_unregister t : t ∈ types R -> t ∉ map snd (live R) ->
    socket_step R (Unregister t) RUnit (mk_registry (types R ∖ {[t]}) (live R))
| step_create_unknown t opts : t ∉ types R -> socket_step R (Create t opts) (RSock NULL) R
| step_create_failed t opts : t ∈ types R -> socket_step R (Create t opts) (RSock NULL) R
| step_create t opts a : t ∈ types R -> a <> NULL -> a ∉ map fst (live R) ->
    socket_step R (Create t opts) (RSock a) (mk_registry (types R) ((a, t) :: live R))
| step_destroy a t l1 l2 : live R = l1 ++ (a, t) :: l2 ->
    socket_step R (Destroy a) RUnit (mk_registry (types R) (l1 ++ l2)).

(** ** What the state holds *)

(** A live socket: its node in the list, its members, and the objects of its
    private data. *)
Record gd := mk_gd { gd_node : Z; gd_addr : Z; gd_id : Z; gd_type : Z; gd_opts : list Z; gd_priv : Z; gd_foot : list Z }.

Definition own (g : gd) : list Z := gd_addr g :: gd_foot g.
Definition nodes (gs : list gd) : list (Z * Z) := map (fun g => (gd_node g, gd_addr g)) gs.
Definition cells (sl : Z) (gs : list gd) : list Z := list_cells sl (nodes gs) ++ concat (map own gs).

Section Registry.
Context (sys : system) (nested : nested_dtors) (user : user_ops).

Definition dispose_ok (d : option impl) (priv : Z) (foot : list Z) (h : KList.st) : Prop :=
  match d with Some d => disposable sys nested user d priv foot h | None => True end.

Record good (tab : list ksock_plugin_t) (h : KList.st) (g : gd) : Prop := {
  gd_at : socket_at h (gd_addr g) (gd_id g) (gd_type g) (gd_opts g) (gd_priv g);
  gd_plugin : exists p, tab !! Z.to_nat (gd_type g) = Some p /\ dispose_ok (r_destroy (p_reg p)) (gd_priv g) (gd_foot g) h;
}.

Record sockets (sl : Z) (tab : list ksock_plugin_t) (h : KList.st) (gs : list gd) : Prop := {
  iv_ok : heap_ok h;
  iv_list : klist_rep h sl slist_opts (nodes gs);
  iv_good : Forall (good tab h) gs;
  iv_disj : NoDup (cells sl gs);
  iv_old : Forall (fun a => a < top h) (cells sl gs);
  iv_ids : NoDup (map gd_id gs);
}.

(** [n] more sockets can be created before the numbers wrap. *)
Definition represents (n : nat) (s : sst) (R : registry) : Prop :=
  exists gs, sockets (slist s) (splugin s) (sheap s) gs /\
    Forall (fun g => 0 <= gd_id g < sid s) gs /\ sid s + Z.of_nat n < 2 ^ 32 /\ Z.of_nat (length gs) <= sid s /\
    table_ok KYLIN_SOCK_MAX (map gd_type gs) (splugin s) /\
    (forall i p, splugin s !! i = Some p -> p_type p <> KYLIN_SOCK_MAX -> reg_ok sys nested user (p_reg p)) /\
    live R = map (fun g => (gd_addr g, gd_type g)) gs /\
    (forall t, t ∈ types R <-> registered KYLIN_SOCK_MAX (splugin s) t).

Definition run_call (c : sock_call) : M sst sock_res :=
  match c with
  | Register t reg => e ← kylin_socket_register user t reg; mret (RErr e)
  | Unregister t => _ ← kylin_socket_unregister user t; mret RUnit
  | Create t opts => a ← kylin_socket_create sys nested user t opts; mret (RSock a)
  | Destroy a => _ ← kylin_socket_destroy sys nested user a; mret RUnit
  end.

(** A type is below [KYLIN_SOCK_MAX]; what is registered keeps to [reg_ok];
    options are an object of the heap; a live socket is destroyed. *)
Definition call_ok (s : sst) (R : registry) (c : sock_call) : Prop :=
  match c with
  | Register t reg => 0 <= t < KYLIN_SOCK_MAX /\
      (r_create reg <> None -> r_destroy reg <> None -> reg_ok sys nested user reg)
  | Unregister t => 0 <= t < KYLIN_SOCK_MAX
  | Create t opts => 0 <= t < KYLIN_SOCK_MAX /\
      exists bs, blocks (omem (sheap s)) !! opts = Some bs /\ sizeof_opts <= Z.of_nat (length bs)
  | Destroy a => a ∈ map fst (live R)
  end.

Definition simulates (n : nat) (s : sst) (R : registry) (c : sock_call) : Prop :=
  exists r s' R', run_call c s = Ok (r, s') /\ socket_step R c r R' /\ represents n s' R'.

(** ** Frames *)
Lemma in_nodes gs g : g ∈ gs -> gd_node g ∈ addrs (nodes gs).
Proof.
  intros Hg. unfold nodes. rewrite <- (list_fmap_compose (fun g => (gd_node g, gd_addr g)) fst).
  by apply (list_elem_of_fmap_2 (fun g => gd_node g)).
Qed.

Lemma in_own gs g a : g ∈ gs -> a ∈ own g -> a ∈ concat (map own gs).
Proof. intros Hg Ha. apply elem_of_concat. exists (own g). split; [done|]. by apply list_elem_of_fmap_2. Qed.

Lemma good_frame tab tab' h h' g : good tab h g -> (forall a, a ∈ own g -> loc h' a = loc h a) ->
  (forall p, tab !! Z.to_nat (gd_type g) = Some p ->
    exists p', tab' !! Z.to_nat (gd_type g) = Some p' /\ p_reg p' = p_reg p) -> good tab' h' g.
Proof.
  intros [H1 (p & Hp & Hd)] Hl Ht. split.
  - eapply socket_frame; [done|]. apply Hl. left.
  - destruct (Ht p Hp) as (p' & Hp' & E). exists p'. rewrite E. split; [done|].
    unfold dispose_ok in *. case_match; [|done]. eapply disposable_frame; [done|].
    intros a Ha. apply Hl. by right.
Qed.

Lemma good_same tab h h' g : good tab h g -> (forall a, a ∈ own g -> loc h' a = loc h a) -> good tab h' g.
Proof. intros H Hl. eapply good_frame; [done..|]. intros p Hp. by exists p. Qed.

(** Counting a user more or less leaves the plug-ins' functions. *)
Lemma reref (tab : list ksock_plugin_t) i p n t q : tab !! i = Some p -> tab !! t = Some q ->
  exists q', <[i := mk_plugin n (p_type p) (p_reg p)]> tab !! t = Some q' /\ p_reg q' = p_reg q.
Proof.
  intros Hi Ht. destruct (decide (t = i)) as [->|Hne].
  - rewrite list_lookup_insert_eq by (by eapply lookup_lt_Some). eexists. split; [done|]. simpl. congruence.
  - rewrite list_lookup_insert_ne by done. by exists q.
Qed.

Lemma sockets_frame sl tab h h' gs : sockets sl tab h gs -> changes [] h h' -> sockets sl tab h' gs.
Proof.
  intros [H1 H2 H3 H4 H5 H6] C. assert (Hl : forall a, a ∈ cells sl gs -> loc h' a = loc h a).
  { intros a Ha. apply C; [|set_solver]. by eapply Forall_forall in H5. }
  split; [apply C| | |done| |done].
  - eapply rep_frame; [done|]. intros a Ha. apply Hl. unfold cells. set_solver.
  - apply Forall_forall. intros g Hg. pose proof (proj1 (Forall_forall _ _) H3 g Hg).
    eapply good_same; [done|]. intros a Ha. apply Hl. unfold cells. apply elem_of_app. right. by eapply in_own.
  - eapply Forall_impl; [done|]. intros a Ha. pose proof (ch_top _ _ _ C). simpl in *. lia.
Qed.

Lemma sockets_tab sl tab tab' h gs : sockets sl tab h gs ->
  (forall g p, g ∈ gs -> tab !! Z.to_nat (gd_type g) = Some p ->
    exists p', tab' !! Z.to_nat (gd_type g) = Some p' /\ p_reg p' = p_reg p) -> sockets sl tab' h gs.
Proof.
  intros [H1 H2 H3 H4 H5 H6] Ht. split; try done. apply Forall_forall. intros g Hg.
  eapply good_frame; [by eapply Forall_forall in H3|done|]. intros p. by apply Ht.
Qed.

(** An entry that no socket uses may change. *)
Lemma sockets_entry sl tab h gs i p : sockets sl tab h gs -> Z.of_nat i ∉ map gd_type gs ->
  sockets sl (<[i := p]> tab) h gs.
Proof.
  intros H Hi. eapply sockets_tab; [done|]. intros g q Hg Hq. exists q. split; [|done].
  rewrite list_lookup_insert_ne; [done|]. intros ->. apply Hi.
  pose proof (proj1 (Forall_forall _ _) (iv_good _ _ _ _ H) g Hg) as [[_ _ _ Hr _] _].
  rewrite Z2Nat.id by lia. by apply (list_elem_of_fmap_2 gd_type).
Qed.

(** ** Accesses to the array *)
Lemma plugin_at_eq t i sl tab h hs p : tab !! Z.to_nat t = Some p ->
  plugin_at t (mk_sst i sl tab h hs) = Ok (p, mk_sst i sl tab h hs).
Proof. intros Hp. unfold plugin_at, rd. simpl. by rewrite Hp. Qed.

Lemma set_plugin_eq t i sl tab h hs p q : tab !! Z.to_nat t = Some q ->
  set_plugin t p (mk_sst i sl tab h hs) = Ok (tt, mk_sst i sl (<[Z.to_nat t := p]> tab) h hs).
Proof. intros Hq. unfold set_plugin. simpl. by rewrite (wr_lt tab) by (by eapply lookup_lt_Some). Qed.

Lemma entry_of tab tys t : table_ok KYLIN_SOCK_MAX tys tab -> 0 <= t < KYLIN_SOCK_MAX ->
  exists p : ksock_plugin_t, tab !! Z.to_nat t = Some p.
Proof. intros HT Ht. apply lookup_lt_is_Some_2. pose proof (tb_length _ _ _ HT). lia. Qed.

Lemma registered_at (tab : list ksock_plugin_t) t p : 0 <= t -> tab !! Z.to_nat t = Some p ->
  registered KYLIN_SOCK_MAX tab t <-> p_type p <> KYLIN_SOCK_MAX.
Proof.
  intros Ht Hp. split.
  - intros (i & q & -> & Hq & H). rewrite Nat2Z.id in Hp. by simplify_eq.
  - intros H. exists (Z.to_nat t), p. split; [lia|done].
Qed.

Lemma live_types R gs : live R = map (fun g => (gd_addr g, gd_type g)) gs -> map snd (live R) = map gd_type gs.
Proof. intros ->. by rewrite map_map. Qed.

Lemma fewer n s R : represents (S n) s R -> represents n s R.
Proof. intros (gs & H1 & H2 & H3 & H4). exists gs. split_and!; [done|done|lia|apply H4..]. Qed.

(** The same registry after a step that changed the heap at new addresses. *)
Lemma represents_heap n i sl tab h h' hs hs' R :
  represents n (mk_sst i sl tab h hs) R -> changes [] h h' -> represents n (mk_sst i sl tab h' hs') R.
Proof. intros (gs & H1 & H2) C. exists gs. split; [by eapply sockets_frame|done]. Qed.

Lemma simulate_register n s R t reg : represents (S n) s R -> call_ok s R (Register t reg) ->
  simulates n s R (Register t reg).
Proof.
  intros HR [Ht Hreg]. pose proof (fewer _ _ _ HR) as HR'. destruct s as [i sl tab h hs].
  destruct HR' as (gs & H1 & H2 & H3 & H4 & HT & HP & HL & HY). simpl in *.
  destruct (entry_of tab _ t HT Ht) as [p Hp]. pose proof (registered_at tab t p ltac:(lia) Hp) as Hrt.
  unfold simulates, run_call, kylin_socket_register.
  destruct (Z.eqb_spec (p_type p) KYLIN_SOCK_MAX) as [Hmax|Hmax].
  2:{ eexists _, _, R. split; [|split; [apply step_register_exist; by apply HY, Hrt|by apply fewer]].
      erewrite bind_Ok; [done|]. run (plugin_at_eq t i sl tab h hs p Hp).
      by rewrite (proj2 (Z.eqb_neq _ _) Hmax). }
  assert (Hty : t ∉ types R) by (rewrite HY, Hrt; auto).
  destruct (r_create reg) as [c|] eqn:Ec; [destruct (r_destroy reg) as [d|] eqn:Ed|].
  2,3: eexists _, _, R; (split; [|split; [apply step_register_inval; auto|by apply fewer]]);
    (erewrite bind_Ok; [done|]); run (plugin_at_eq t i sl tab h hs p Hp); by rewrite Hmax, Z.eqb_refl, ?Ec, ?Ed.
  destruct Hreg as (HI & Hqi & Hqf); [done..|]. pose proof (iv_ok _ _ _ _ H1) as Hok.
  destruct (Hqi h Hok i sl tab hs) as (e & h' & hs' & Ei & C & _).
  destruct (decide (e = KYLIN_ERROR_OK)) as [->|He].
  - set (p' := mk_plugin 0 t reg).
    eexists _, (mk_sst i sl (<[Z.to_nat t := p']> tab) h' hs'), _. split; [|split; [apply step_register; congruence|]].
    + erewrite bind_Ok; [done|]. run (plugin_at_eq t i sl tab h hs p Hp). rewrite Hmax, Z.eqb_refl. cbn [negb].
      run Ei. cbn [bool_decide]. rewrite bool_decide_eq_true_2 by done. cbn [negb].
      by run (set_plugin_eq t i sl tab h' hs' p' p Hp).
    + pose proof (table_free _ _ _ _ _ HT Hp Hmax) as Hfree. exists gs. simpl. split_and!; [|done..| | |done|].
      * apply sockets_entry; [by eapply sockets_frame|done].
      * eapply table_set; [done..| |by right]. rewrite users_in in Hfree. lia.
      * intros j q Hj Hq. destruct (decide (j = Z.to_nat t)) as [->|Hne].
        -- rewrite list_lookup_insert_eq in Hj by (by eapply lookup_lt_Some). simplify_eq. simpl.
           exact (conj HI (conj Hqi Hqf)).
        -- rewrite list_lookup_insert_ne in Hj by done. by eapply HP.
      * intros t'. rewrite (registered_insert _ tab (Z.to_nat t) p p' t' Hp), Z2Nat.id by lia.
        rewrite elem_of_union, elem_of_singleton, HY. simpl.
        assert (t <> KYLIN_SOCK_MAX) by (unfold KYLIN_SOCK_MAX in *; lia).
        destruct (decide (t' = t)); naive_solver.
  - eexists _, (mk_sst i sl tab h' hs'), R. split; [|split; [apply step_register_refused; [done|exact He|]|]].
    + erewrite bind_Ok; [done|]. run (plugin_at_eq t i sl tab h hs p Hp). rewrite Hmax, Z.eqb_refl. cbn [negb].
      run Ei. rewrite bool_decide_eq_false_2 by done. done.
    + intros Hn. rewrite Hn in Ei. unfold call_init, mret, M_ret in Ei. congruence.
    + eapply represents_heap; [by apply fewer|done].
Qed.

Lemma simulate_unregister n s R t : represents (S n) s R -> call_ok s R (Unregister t) -> simulates n s R (Unregister t).
Proof.
  intros HR Ht. pose proof (fewer _ _ _ HR) as HR'. destruct s as [i sl tab h hs].
  destruct HR' as (gs & H1 & H2 & H3 & H4 & HT & HP & HL & HY). simpl in *.
  destruct (entry_of tab _ t HT Ht) as [p Hp]. pose proof (registered_at tab t p ltac:(lia) Hp) as Hrt.
  unfold simulates, run_call, kylin_socket_unregister. pose proof (live_types R gs HL) as Hlt.
  destruct (Z.eqb_spec (p_type p) KYLIN_SOCK_MAX) as [Hmax|Hmax].
  { eexists _, _, R. split; [|split; [apply step_unregister_kept; left; rewrite HY, Hrt; auto|by apply fewer]].
    erewrite bind_Ok; [done|]. run (plugin_at_eq t i sl tab h hs p Hp). by rewrite Hmax, Z.eqb_refl. }
  pose proof (table_unused _ _ _ _ _ HT Hp Hmax) as Hun. rewrite Z2Nat.id in Hun by lia.
  destruct (Z.eqb_spec (p_ref p) 0) as [Href|Href].
  2:{ eexists _, _, R. split; [|split; [apply step_unregister_kept; right; rewrite Hlt|by apply fewer]].
      - erewrite bind_Ok; [done|]. run (plugin_at_eq t i sl tab h hs p Hp).
        by rewrite (proj2 (Z.eqb_neq _ _) Hmax), (proj2 (Z.eqb_neq _ _) Href).
      - destruct (decide (t ∈ map gd_type gs)); [done|]. by apply Hun in n0. }
  destruct (HP _ _ Hp Hmax) as (_ & _ & Hqf). pose proof (iv_ok _ _ _ _ H1) as Hok.
  destruct (Hqf h Hok i sl tab hs) as ([] & h' & hs' & Ei & C & _).
  set (p' := mk_plugin 0 KYLIN_SOCK_MAX no_reg).
  eexists _, (mk_sst i sl (<[Z.to_nat t := p']> tab) h' hs'), _. split; [|split; [apply step_unregister|]].
  - erewrite bind_Ok; [done|]. run (plugin_at_eq t i sl tab h hs p Hp).
    rewrite (proj2 (Z.eqb_neq _ _) Hmax), Href. cbn [negb Z.eqb]. run Ei. by apply set_plugin_eq with p.
  - by apply HY, Hrt.
  - rewrite Hlt. tauto.
  - exists gs. simpl. assert (Hfree : Z.of_nat (Z.to_nat t) ∉ map gd_type gs) by (rewrite Z2Nat.id by lia; tauto).
    split_and!; [|done..| | |done|].
    + apply sockets_entry; [by eapply sockets_frame|done].
    + eapply table_set; [done..| |by left]. rewrite users_in in Hfree. lia.
    + intros j q Hj Hq. destruct (decide (j = Z.to_nat t)) as [->|Hne].
      * rewrite list_lookup_insert_eq in Hj by (by eapply lookup_lt_Some). by simplify_eq.
      * rewrite list_lookup_insert_ne in Hj by done. by eapply HP.
    + intros t'. rewrite (registered_insert _ tab (Z.to_nat t) p p' t' Hp), Z2Nat.id by lia.
      rewrite elem_of_difference, elem_of_singleton, HY. simpl. naive_solver.
Qed.

(** ** Creation *)

Lemma cells_split sl gs a : a ∈ cells sl gs <-> a ∈ list_cells sl (nodes gs) \/ a ∈ concat (map own gs).
Proof. apply elem_of_app. Qed.

(** A socket that is not linked: its objects are new since [h0]. *)
Record unlinked (tab : list ksock_plugin_t) (h0 h : KList.st) (g : gd) : Prop := {
  ul_changes : changes [] h0 h;
  ul_good : good tab h g;
  ul_nodup : NoDup (own g);
  ul_new : Forall (fun a => top h0 <= a < top h) (own g);
}.

(** The plug-in's [destroy], when it has one. *)
Lemma dispose_step tab h g p i sl hs : heap_ok h ->
  socket_at h (gd_addr g) (gd_id g) (gd_type g) (gd_opts g) (gd_priv g) ->
  dispose_ok (r_destroy (p_reg p)) (gd_priv g) (gd_foot g) h ->
  exists h1 hs1, match r_destroy (p_reg (p : ksock_plugin_t)) with
      | Some f => priv ← sget S_PRIV (gd_addr g); do_destroy sys nested user f priv
      | None => mret tt end (mk_sst i sl tab h hs) = Ok (tt, mk_sst i sl tab h1 hs1) /\ changes (gd_foot g) h h1.
Proof.
  intros Hok HS Hd. unfold dispose_ok in Hd. destruct (r_destroy (p_reg p)) as [d|].
  - destruct (Hd h Hok ltac:(done) i sl tab hs) as ([] & h1 & hs1 & E & C1 & _). exists h1, hs1.
    split; [|done]. by run (get_priv_eq _ _ _ _ _ _ HS i sl tab hs).
  - exists h, hs. split; [done|]. by apply changes_refl.
Qed.

(** Giving it up leaves the old objects alone. *)
Lemma discard tab h0 h g p i sl hs : tab !! Z.to_nat (gd_type g) = Some p -> unlinked tab h0 h g ->
  exists h' hs', (_ ← match r_destroy (p_reg p) with
                 | Some f => priv ← sget S_PRIV (gd_addr g); do_destroy sys nested user f priv
                 | None => mret tt end;
            _ ← smem (kylin_free (gd_addr g)); mret NULL) (mk_sst i sl tab h hs) = Ok (NULL, mk_sst i sl tab h' hs') /\
    changes [] h0 h'.
Proof.
  intros Hp [C [HS (q & Hq & Hd)] Hnd Hnew]. simplify_eq. pose proof (ch_ok _ _ _ C) as Hok.
  apply NoDup_cons in Hnd as [Hout Hnd]. apply Forall_cons in Hnew as [Ha Hnew].
  destruct (dispose_step tab h g p i sl hs Hok HS Hd) as (h1 & hs1 & E1 & C1). run E1.
  assert (Hb : blocks (omem h1) !! gd_addr g = Some (socket_block (gd_id g) (gd_type g) (gd_opts g) (gd_priv g))).
  { rewrite <- (so_block _ _ _ _ _ _ HS). apply loc_block, C1; [|done]. lia. }
  destruct (free_eq (gd_addr g) _ h1 (ch_ok _ _ _ C1) Hb) as (h2 & C2 & E2). exists h2, hs1.
  split; [by run (E2 i sl tab hs1)|].
  eapply (changes_new _ _ _ h1); [eapply changes_new; [exact C|exact C1|]|exact C2|].
  - intros a Hlt Hin. eapply Forall_forall in Hnew; [|done]. simpl in Hnew. lia.
  - intros a Hlt ->%list_elem_of_singleton. lia.
Qed.

(** The list of sockets with a new one in front. *)
Lemma sockets_cons sl tab h0 h h' gs g node : sockets sl tab h0 gs -> unlinked tab h0 h g ->
  gd_node g = node -> top h <= node < top h' -> klist_rep h' sl slist_opts ((node, gd_addr g) :: nodes gs) ->
  changes (list_cells sl (nodes gs)) h h' -> gd_id g ∉ map gd_id gs -> sockets sl tab h' (g :: gs).
Proof.
  intros H [C HG Hnd Hnew] Hn Hnode HR C' Hid. pose proof (sockets_frame _ _ _ _ _ H C) as [K1 K2 K3 K4 K5 K6].
  pose proof (iv_old _ _ _ _ H) as Hold0. pose proof (ch_top _ _ _ C). pose proof (ch_top _ _ _ C').
  assert (Hkeep : forall a, a < top h -> a ∉ list_cells sl (nodes gs) -> loc h' a = loc h a) by apply C'.
  assert (Hfar : forall a, a ∈ own g -> a ∉ cells sl gs).
  { intros a Ha Hin. eapply Forall_forall in Hnew; [|done]. eapply Forall_forall in Hold0; [|done].
    simpl in *. lia. }
  assert (Hperm : cells sl (g :: gs) ≡ₚ (node :: own g) ++ cells sl gs).
  { unfold cells, nodes, list_cells. simpl. rewrite Hn. solve_Permutation. }
  assert (Hold : Forall (fun a => a < top h') (cells sl (g :: gs))).
  { rewrite Hperm. apply Forall_app. split; [constructor; [lia|]|].
    - eapply Forall_impl; [exact Hnew|]. simpl. lia.
    - eapply Forall_impl; [exact K5|]. simpl. lia. }
  split; [apply C'| | | |done|simpl; by apply NoDup_cons].
  - unfold nodes in *. simpl. by rewrite Hn.
  - constructor.
    + eapply good_same; [done|]. intros a Ha. apply Hkeep.
      * eapply Forall_forall in Hnew; [|done]. simpl in Hnew. lia.
      * intros Hin. apply (Hfar a Ha). apply cells_split. by left.
    + apply Forall_forall. intros g' Hg'. eapply good_same; [by eapply Forall_forall in K3|].
      intros a Ha. pose proof (in_own gs g' a Hg' Ha) as Hin. apply Hkeep.
      * eapply Forall_forall in K5; [exact K5|]. apply cells_split. by right.
      * intros Hc. apply NoDup_app in K4 as (_ & K4 & _). by apply (K4 a).
  - rewrite Hperm. apply NoDup_app. split_and!; [|intros a Ha|done].
    + apply NoDup_cons. split; [|done]. intros Hin. eapply Forall_forall in Hnew; [|done]. simpl in Hnew. lia.
    + apply elem_of_cons in Ha as [->|Ha]; [|by apply Hfar]. intros Hin.
      eapply Forall_forall in K5; [|exact Hin]. simpl in K5. lia.
Qed.

Lemma length_nodes gs : length (nodes gs) = length gs.
Proof. apply length_map. Qed.

Lemma slist_obj : obj_list slist_opts.
Proof. done. Qed.

(** Counting a user. *)
Lemma set_ref_eq t f i sl tab h hs p : tab !! Z.to_nat t = Some p ->
  set_ref t f (mk_sst i sl tab h hs) =
  Ok (tt, mk_sst i sl (<[Z.to_nat t := mk_plugin (u32 (f (p_ref p))) (p_type p) (p_reg p)]> tab) h hs).
Proof. intros Hp. unfold set_ref. run (plugin_at_eq t i sl tab h hs p Hp). by apply set_plugin_eq with p. Qed.

(** The end of a creation: the socket is linked and counted, or given up. *)
Lemma link_socket_ok sl tab h0 h gs g p i hs : sockets sl tab h0 gs -> unlinked tab h0 h g ->
  tab !! Z.to_nat (gd_type g) = Some p -> gd_id g ∉ map gd_id gs -> Z.of_nat (length gs) + 1 < 2 ^ 62 ->
  exists r tab' h' hs', link_socket sys nested user (gd_type g) (gd_addr g) (mk_sst i sl tab h hs) =
      Ok (r, mk_sst i sl tab' h' hs') /\
    (r = NULL /\ tab' = tab /\ changes [] h0 h' \/
     r = gd_addr g /\ tab' = <[Z.to_nat (gd_type g) := mk_plugin (u32 (p_ref p + 1)) (p_type p) (p_reg p)]> tab /\
     exists node, sockets sl tab' h' (mk_gd node (gd_addr g) (gd_id g) (gd_type g) (gd_opts g) (gd_priv g) (gd_foot g) :: gs)).
Proof.
  intros H HU Hp Hid Hlen. pose proof (sockets_frame _ _ _ _ _ H (ul_changes _ _ _ _ HU)) as H'.
  pose proof (ul_good _ _ _ _ HU) as [HS _]. pose proof (iv_ok _ _ _ _ H') as Hok.
  pose proof (socket_below _ _ _ _ _ _ Hok HS) as Hb.
  destruct (list_insert_ptr h sl slist_opts (nodes gs) (gd_addr g) Hok slist_obj (iv_list _ _ _ _ H')
    ltac:(unfold NULL; lia) ltac:(by eapply heap_top_u) ltac:(by rewrite length_nodes)) as (r & h1 & E & Hr).
  unfold link_socket. run (eq_refl : get_slist (mk_sst i sl tab h hs) = Ok (sl, mk_sst i sl tab h hs)).
  run (on_heap_eq _ i sl tab h hs _ _ E). cbn [vptr_addr].
  destruct Hr as [(-> & _ & C)|(-> & _ & node & Hn & HR & C)].
  - cbn [Z.eqb NULL]. run (plugin_at_eq (gd_type g) i sl tab h1 hs p Hp).
    assert (HU1 : unlinked tab h0 h1 g).
    { destruct HU as [C0 HG Hnd Hnew]. split; [|eapply good_same; [done|]|done|].
      - eapply changes_new; [done..|set_solver].
      - intros a Ha. apply C; [|set_solver]. eapply Forall_forall in Hnew; [|done]. simpl in Hnew. lia.
      - eapply Forall_impl; [exact Hnew|]. pose proof (ch_top _ _ _ C). simpl. lia. }
    destruct (discard tab h0 h1 g p i sl hs Hp HU1) as (h2 & hs2 & E2 & C2).
    exists NULL, tab, h2, hs2. split; [exact E2|by left].
  - rewrite (proj2 (Z.eqb_neq _ _)) by (unfold NULL; lia).
    run (set_ref_eq (gd_type g) (fun n => n + 1) i sl tab h1 hs p Hp).
    eexists _, _, h1, hs. split; [done|]. right. split; [done|]. split; [done|]. exists node.
    eapply sockets_tab; [eapply sockets_cons; [exact H| |done..]|].
    + destruct HU as [C0 [HG1 HG2] Hnd Hnew]. split; [done|by split|done..].
    + intros g' q _ Hq. by eapply reref.
Qed.

(** The socket once its members are filled in. *)
Lemma fill_socket type opts i sl tab h hs bs : heap_ok h -> 0 <= type < KYLIN_SOCK_MAX -> is_u 32 i ->
  blocks (omem h) !! opts = Some bs -> sizeof_opts <= Z.of_nat (length bs) ->
  exists a h', changes [] h h' /\
    (forall B (fail : M sst B) (k : Z -> M sst B),
    (guard ← smem (kylin_malloc sizeof_socket);
     if guard =? NULL then fail else
     id ← next_sid;
     _ ← sput S_ID guard id; _ ← sput S_TYPE guard type;
     bs ← smem (load_at opts 0 sizeof_opts); _ ← smem (store_at guard S_OPTS bs);
     k guard) (mk_sst i sl tab h hs) =
    (if a =? NULL then fail (mk_sst i sl tab h' hs) else k a (mk_sst (u32 (i + 1)) sl tab h' hs))) /\
    (a = NULL \/ a = top h /\ top h < top h' /\ socket_at h' a i type (take 124 bs) 0).
Proof.
  intros Hok Ht Hi Hb Hl. destruct (heap_malloc h sizeof_socket Hok) as (a & h1 & E1 & C1 & Ha).
  destruct Ha as [->|(-> & Hr & Hz)].
  { exists NULL, h1. split; [done|]. split; [|by left]. intros B fail k.
    by run (smem_eq _ i sl tab h hs _ _ E1). }
  assert (Hz1 : blocks (omem h1) !! top h = Some ([] ++ replicate 4 0 ++ replicate 140 0)).
  { transitivity (Some (replicate (Z.to_nat sizeof_socket) 0)); [unfold loc in Hz; congruence|done]. }
  destruct (put_eq (top h) [] _ 4 i _ 4 0 h1 (ch_ok _ _ _ C1) Hz1 eq_refl eq_refl eq_refl) as (h2 & C2 & _ & B2 & T2 & E2).
  destruct (put_eq (top h) (le_bytes 4 i) (replicate 4 0) 4 type (replicate 136 0) 4 4 h2 (ch_ok _ _ _ C2) B2
    eq_refl eq_refl eq_refl) as (h3 & C3 & _ & B3 & T3 & E3).
  assert (Hopts : opts < top h /\ opts <> top h).
  { destruct Hok as [[_ Hm] _]. apply Hm in Hb. unfold top. lia. }
  assert (C03 : changes [] h h3).
  { eapply (changes_at _ [top h]); [eapply (changes_at _ [top h]); [exact C1|exact C2|]|exact C3|]; set_solver by lia. }
  assert (Hb3 : blocks (omem h3) !! opts = Some ([] ++ take 124 bs ++ drop 124 bs)).
  { rewrite (loc_block _ _ _ (ch_loc _ _ _ C03 opts ltac:(lia) ltac:(set_solver))), Hb. simpl. by rewrite take_drop. }
  unfold sizeof_opts in Hl.
  assert (Hl124 : length (take 124 bs) = 124%nat) by (rewrite length_take; lia).
  assert (EL : load_at opts 0 sizeof_opts (omem h3) = Ok (take 124 bs, omem h3)).
  { apply (load_at_ok _ _ [] (take 124 bs) (drop 124 bs)); [done|by rewrite Hl124]. }
  assert (B3' : blocks (omem h3) !! top h = Some ((le_bytes 4 i ++ le_bytes 4 type) ++ replicate 124 0 ++ replicate 12 0)).
  { by rewrite B3, <- app_assoc. }
  destruct (heap_store h3 (top h) (le_bytes 4 i ++ le_bytes 4 type) (replicate 124 0) (take 124 bs) (replicate 12 0) 8
    (ch_ok _ _ _ C3) B3' ltac:(by rewrite Hl124) eq_refl) as (h4 & E4 & C4 & _ & B4 & T4).
  assert (Htop : top h < top h4) by (rewrite T4, T3, T2; lia).
  exists (top h), h4. split; [eapply (changes_at _ [top h]); [exact C03|exact C4|set_solver by lia]|].
  split.
  - intros B fail k. run (smem_eq _ i sl tab h hs _ _ E1). rewrite (proj2 (Z.eqb_neq _ _)) by (unfold NULL; lia).
    run (eq_refl : next_sid (mk_sst i sl tab h1 hs) = Ok (i, mk_sst (u32 (i + 1)) sl tab h1 hs)).
    run (E2 (u32 (i + 1)) sl tab hs). run (E3 (u32 (i + 1)) sl tab hs).
    run (smem_eq _ (u32 (i + 1)) sl tab h3 hs _ _ (on_mem_pure (load_at opts 0 sizeof_opts) h3 _ EL)).
    by run (smem_eq _ (u32 (i + 1)) sl tab h3 hs _ _ E4).
  - right. split; [done|]. split; [done|]. split; [|done|done|done|by split].
    rewrite B4. unfold socket_block. rewrite <- app_assoc. do 4 f_equal.
Qed.

Lemma set_priv h a id type opts p0 p : heap_ok h -> socket_at h a id type opts p0 -> is_u 64 p ->
  exists h', changes [a] h h' /\ socket_at h' a id type opts p /\ top h' = top h /\
    forall i l t hs, sput S_PRIV a p (mk_sst i l t h hs) = Ok (tt, mk_sst i l t h' hs).
Proof.
  intros Hok [Hb Ho Hi Ht _] Hp.
  assert (Hb' : blocks (omem h) !! a = Some ((le_bytes 4 id ++ le_bytes 4 type ++ opts ++ replicate 4 0) ++ le_bytes 8 p0 ++ [])).
  { rewrite Hb. unfold socket_block. by rewrite app_nil_r, <- !app_assoc. }
  destruct (put_eq a _ (le_bytes 8 p0) 8 p [] 8 136 h Hok Hb' (length_le_bytes 8 p0) eq_refl) as (h' & C & _ & B & T & E).
  { by rewrite !length_app, !length_le_bytes, Ho. }
  exists h'. split; [done|]. split; [|split; [done|exact E]]. split; try done.
  rewrite B. unfold socket_block. by rewrite app_nil_r, <- !app_assoc.
Qed.

Lemma changes_own a h0 h h' : changes [] h0 h -> changes [a] h h' -> top h0 <= a -> changes [] h0 h'.
Proof. intros C C' Ha. eapply changes_at; [exact C|exact C'|]. intros b ->%list_elem_of_singleton. done. Qed.

(** The private data: what the plug-in's [create] does to a socket that is
    filled in. *)
Lemma create_private sl tab h0 h i hs p a id type opts : changes [] h0 h -> top h0 <= a ->
  socket_at h a id type opts 0 -> tab !! Z.to_nat type = Some p -> reg_ok sys nested user (p_reg p) ->
  exists priv h' hs' foot, changes [] h0 h' /\
    (forall B (k : Z -> M sst B),
      (priv ← match r_create (p_reg p) with Some f => do_create sys user f a | None => mret NULL end;
       _ ← sput S_PRIV a priv; k priv) (mk_sst i sl tab h hs) = k priv (mk_sst i sl tab h' hs')) /\
    socket_at h' a id type opts priv /\
    ((r_create (p_reg p) <> None /\ priv = NULL) \/
     ((if match r_create (p_reg p) with Some _ => priv =? NULL | None => false end then True else False) -> False) /\
     forall node, unlinked tab h0 h' (mk_gd node a id type opts priv foot)).
Proof.
  intros C Ha HS Hp (Hreg & _). pose proof (ch_ok _ _ _ C) as Hok.
  pose proof (socket_below _ _ _ _ _ _ Hok HS) as Hlt.
  destruct (r_create (p_reg p)) as [c|] eqn:Ec; destruct (r_destroy (p_reg p)) as [d|] eqn:Ed; try done.
  - destruct Hreg as [Hcr]. destruct (Hcr h a id type opts 0 Hok HS i sl tab hs) as (q & h1 & hs1 & E1 & C1 & Hq).
    assert (Hqu : is_u 64 q) by (destruct Hq as [->|[Hqu _]]; [by split|done]).
    pose proof (socket_changes _ _ _ _ _ _ _ Hok C1 HS) as HS1.
    destruct (set_priv h1 a id type opts 0 q (ch_ok _ _ _ C1) HS1 Hqu) as (h2 & C2 & HS2 & T2 & E2).
    assert (C02 : changes [] h0 h2).
    { eapply changes_own; [|exact C2|done]. eapply changes_new; [done..|set_solver]. }
    destruct (decide (q = NULL)) as [->|Hq0].
    + exists NULL, h2, hs1, []. split; [done|]. split; [|split; [done|by left]].
      intros B k. run E1. by run (E2 i sl tab hs1).
    + destruct Hq as [?|(_ & foot & Hd & Hnd & Hf)]; [done|]. exists q, h2, hs1, foot.
      split; [done|]. split; [|split; [done|right; split]].
      * intros B k. run E1. by run (E2 i sl tab hs1).
      * by rewrite (proj2 (Z.eqb_neq _ _) Hq0).
      * pose proof (ch_top _ _ _ C). pose proof (ch_top _ _ _ C1). intros node. split; [done| | |].
        -- split; [done|]. exists p. split; [done|]. rewrite Ed. eapply disposable_frame; [exact Hd|].
           intros b Hb. eapply Forall_forall in Hf; [|exact Hb]. simpl in Hf. apply C2; [lia|].
           intros ->%list_elem_of_singleton. lia.
        -- apply NoDup_cons. split; [|done]. simpl. intros Hin. eapply Forall_forall in Hf; [|exact Hin]. simpl in Hf. lia.
        -- constructor; [simpl; lia|]. eapply Forall_impl; [exact Hf|]. simpl. lia.
  - destruct (set_priv h a id type opts 0 NULL Hok HS ltac:(done)) as (h2 & C2 & HS2 & T2 & E2).
    assert (C02 : changes [] h0 h2) by (by eapply changes_own).
    exists NULL, h2, hs, []. split; [done|]. split; [|split; [done|right; split; [done|]]].
    + intros B k. run (eq_refl : (mret NULL : M sst Z) (mk_sst i sl tab h hs) = Ok (NULL, mk_sst i sl tab h hs)). by run (E2 i sl tab hs).
    + intros node. split; [done| | |].
      * split; [done|]. exists p. split; [done|]. by rewrite Ed.
      * apply NoDup_singleton.
      * repeat constructor; simpl; lia.
Qed.

(** All of [kylin_socket_create]. *)
Lemma socket_create_ok i sl tab h hs gs t opts p bs : sockets sl tab h gs -> 0 <= t < KYLIN_SOCK_MAX ->
  tab !! Z.to_nat t = Some p -> p_type p <> KYLIN_SOCK_MAX -> reg_ok sys nested user (p_reg p) ->
  blocks (omem h) !! opts = Some bs -> sizeof_opts <= Z.of_nat (length bs) ->
  Forall (fun g => 0 <= gd_id g < i) gs -> is_u 32 i -> Z.of_nat (length gs) <= i ->
  exists r i' tab' h' hs', kylin_socket_create sys nested user t opts (mk_sst i sl tab h hs) =
      Ok (r, mk_sst i' sl tab' h' hs') /\
    (r = NULL /\ (i' = i \/ i' = u32 (i + 1)) /\ tab' = tab /\ changes [] h h' \/
     i' = u32 (i + 1) /\ r <> NULL /\ r ∉ map gd_addr gs /\
     tab' = <[Z.to_nat t := mk_plugin (u32 (p_ref p + 1)) (p_type p) (p_reg p)]> tab /\
     exists node ob priv foot, sockets sl tab' h' (mk_gd node r i t ob priv foot :: gs)).
Proof.
  intros H Ht Hp Hmax Hreg Hb Hbs Hids Hi Hlen. pose proof (iv_ok _ _ _ _ H) as Hok.
  unfold kylin_socket_create. run (plugin_at_eq t i sl tab h hs p Hp). rewrite (proj2 (Z.eqb_neq _ _) Hmax).
  destruct (fill_socket t opts i sl tab h hs bs Hok Ht Hi Hb Hbs) as (a & h1 & C1 & E1 & Ha).
  rewrite E1. clear E1. destruct Ha as [->|(-> & Ht1 & HS1)].
  { exists NULL, i, tab, h1, hs. split; [done|]. left. split_and!; [done|by left|done..]. }
  pose proof (socket_below _ _ _ _ _ _ (ch_ok _ _ _ C1) HS1) as Hlt.
  rewrite (proj2 (Z.eqb_neq _ _)) by (unfold NULL; lia).
  run (plugin_at_eq t (u32 (i + 1)) sl tab h1 hs p Hp).
  destruct (create_private sl tab h h1 (u32 (i + 1)) hs p (top h) i t _ C1 ltac:(lia) HS1 Hp Hreg)
    as (priv & h2 & hs2 & foot & C2 & E2 & HS2 & Hcase).
  rewrite E2. clear E2. destruct Hcase as [[Hc ->]|[Hnot HU]].
  - destruct (r_create (p_reg p)); [|done]. cbn [Z.eqb NULL].
    destruct (free_eq (top h) _ h2 (ch_ok _ _ _ C2) (so_block _ _ _ _ _ _ HS2)) as (h3 & C3 & E3).
    run (E3 (u32 (i + 1)) sl tab hs2). eexists NULL, _, tab, h3, hs2. split; [done|]. left.
    split_and!; [done|by right|done|]. eapply changes_own; [exact C2|exact C3|lia].
  - destruct (match r_create (p_reg p) with Some _ => priv =? NULL | None => false end); [by destruct Hnot|].
    assert (Hnew : i ∉ map gd_id gs).
    { intros (g & -> & Hg)%list_elem_of_fmap. eapply Forall_forall in Hids; [|exact Hg]. simpl in Hids. lia. }
    destruct (link_socket_ok sl tab h h2 gs _ p (u32 (i + 1)) hs2 H (HU 0) Hp Hnew ltac:(unfold is_u in Hi; lia))
      as (r & tab' & h3 & hs3 & E3 & Hr).
    exists r, (u32 (i + 1)), tab', h3, hs3. split; [exact E3|].
    destruct Hr as [(-> & -> & C3)|(-> & -> & node & H3)].
    + left. split_and!; [done|by right|done..].
    + right. simpl. split; [done|]. split; [unfold NULL; lia|]. split; [|split; [done|by eexists _, _, _, _]].
      intros (g & Hg1 & Hg)%list_elem_of_fmap. pose proof (iv_old _ _ _ _ H) as Hold.
      eapply Forall_forall in Hold; [|apply cells_split; right; by apply (in_own gs g (gd_addr g) Hg); left].
      simpl in Hold. lia.
Qed.

Lemma simulate_socket_create n s R t opts : represents (S n) s R -> call_ok s R (Create t opts) -> simulates n s R (Create t opts).
Proof.
  intros HR (Ht & bs & Hb & Hbs). pose proof (fewer _ _ _ HR) as HR'. destruct s as [i sl tab h hs].
  destruct HR as (gs & H1 & H2 & H3 & H4 & HT & HP & HL & HY). simpl in *.
  destruct (entry_of tab _ t HT Ht) as [p Hp]. pose proof (registered_at tab t p ltac:(lia) Hp) as Hrt.
  unfold simulates, run_call.
  destruct (Z.eqb_spec (p_type p) KYLIN_SOCK_MAX) as [Hmax|Hmax].
  { eexists _, _, R. split; [|split; [apply step_create_unknown; rewrite HY, Hrt; auto|done]].
    erewrite bind_Ok; [done|]. unfold kylin_socket_create. run (plugin_at_eq t i sl tab h hs p Hp).
    by rewrite Hmax, Z.eqb_refl. }
  assert (Hty : t ∈ types R) by (by apply HY, Hrt).
  assert (Hid : u32 (i + 1) = i + 1) by (apply uw_id; unfold is_u; lia).
  destruct (socket_create_ok i sl tab h hs gs t opts p bs H1 Ht Hp Hmax (HP _ _ Hp Hmax) Hb Hbs H2 ltac:(unfold is_u; lia) H4)
    as (r & i' & tab' & h' & hs' & E & Hr).
  rewrite Hid in Hr. destruct Hr as [(-> & Hi' & -> & C)|(-> & Hr0 & Hrn & -> & node & ob & priv & foot & H')].
  - eexists _, _, R. split; [by run E|]. split; [by apply step_create_failed|].
    exists gs. simpl. split_and!; [by eapply sockets_frame| |lia|lia|done..].
    eapply Forall_impl; [exact H2|]. simpl. lia.
  - eexists _, _, _. split; [by run E|]. split.
    { apply step_create; [done..|]. rewrite HL, map_map. exact Hrn. }
    eexists. simpl. split; [exact H'|]. split_and!.
    + constructor; [simpl; lia|]. eapply Forall_impl; [exact H2|]. simpl. lia.
    + lia.
    + rewrite length_cons. lia.
    + pose proof (table_up KYLIN_SOCK_MAX tab _ _ p HT Hp Hmax) as HT'. rewrite length_map, Z2Nat.id in HT' by lia.
      apply HT'. lia.
    + intros j q Hj Hq. destruct (decide (j = Z.to_nat t)) as [->|Hne].
      * rewrite list_lookup_insert_eq in Hj by (by eapply lookup_lt_Some). injection Hj as <-. exact (HP _ _ Hp Hmax).
      * rewrite list_lookup_insert_ne in Hj by done. by eapply HP.
    + by rewrite HL.
    + intros t'. rewrite (registered_insert _ tab (Z.to_nat t) p _ t' Hp), Z2Nat.id, HY by lia. simpl.
      destruct (decide (t' = t)); naive_solver.
Qed.

(** ** Destruction *)
Lemma get_id_eq h a id type opts priv : socket_at h a id type opts priv -> get_field S_ID a (omem h) = Ok (id, omem h).
Proof. intros [Hb _ Hi _ _]. by eapply get_field_ok with (x := []) (n := 4%nat). Qed.

(** The list's comparison finds a socket by its number. *)
Lemma hits_id tab h g g' node : good tab h g -> good tab h g' ->
  hits h slist_opts (gd_addr g) (node, gd_addr g') = (gd_id g =? gd_id g').
Proof.
  intros [H _] [H' _]. unfold hits, slist_opts, __slist_match, compare_ints. cbn [match_fn snd].
  change (0, 4) with S_ID. rewrite (get_id_eq _ _ _ _ _ _ H), (get_id_eq _ _ _ _ _ _ H').
  destruct (Z.ltb_spec (gd_id g') (gd_id g)), (Z.ltb_spec (gd_id g) (gd_id g')), (Z.eqb_spec (gd_id g) (gd_id g'));
    done || lia.
Qed.

Lemma nodes_app gs1 gs2 : nodes (gs1 ++ gs2) = nodes gs1 ++ nodes gs2.
Proof. apply map_app. Qed.

Lemma cells_middle sl gs1 g gs2 : cells sl (gs1 ++ g :: gs2) ≡ₚ gd_node g :: own g ++ cells sl (gs1 ++ gs2).
Proof.
  unfold cells, list_cells. rewrite !nodes_app, !fmap_app, ?map_app, !concat_app. simpl. solve_Permutation.
Qed.

Lemma own_middle gs1 g gs2 a : a ∈ concat (map own (gs1 ++ gs2)) \/ a ∈ own g ->
  a ∈ concat (map own (gs1 ++ g :: gs2)).
Proof. rewrite !map_app, !concat_app. cbn [map concat]. rewrite !elem_of_app. tauto. Qed.

(** The list without one of its sockets, in the heap where its objects are
    gone. *)
Lemma sockets_remove sl tab h h' gs1 g gs2 : sockets sl tab h (gs1 ++ g :: gs2) ->
  changes (list_cells sl (nodes (gs1 ++ g :: gs2)) ++ own g) h h' -> klist_rep h' sl slist_opts (nodes (gs1 ++ gs2)) ->
  sockets sl tab h' (gs1 ++ gs2).
Proof.
  intros [K1 K2 K3 K4 K5 K6] C HR. rewrite cells_middle in K5.
  assert (K4' : NoDup (gd_node g :: own g ++ cells sl (gs1 ++ gs2))) by (by rewrite <- cells_middle).
  apply NoDup_cons in K4' as [_ K4']. apply NoDup_app in K4' as (_ & Kd & Knd).
  apply Forall_cons in K5 as [_ K5]. apply Forall_app in K5 as [_ K5].
  split; [apply C|done| |done| |].
  - apply Forall_app in K3 as [G1 G2]. apply Forall_cons in G2 as [_ G2].
    assert (G : Forall (good tab h) (gs1 ++ gs2)) by (by apply Forall_app).
    apply Forall_forall. intros g' Hg'. eapply good_same; [by eapply Forall_forall in G|].
    intros a Ha. pose proof (in_own _ g' a Hg' Ha) as Hin.
    assert (Hca : a ∈ cells sl (gs1 ++ gs2)) by (apply cells_split; by right). apply C.
    + by eapply Forall_forall in K5.
    + intros [Hl|Ho]%elem_of_app; [|by apply (Kd a)]. apply NoDup_app in K4 as (_ & K4 & _). apply (K4 a Hl).
      apply own_middle. by left.
  - eapply Forall_impl; [exact K5|]. simpl. pose proof (ch_top _ _ _ C). lia.
  - assert (Hp : map gd_id (gs1 ++ g :: gs2) ≡ₚ gd_id g :: map gd_id (gs1 ++ gs2)).
    { rewrite !map_app. symmetry. apply Permutation_middle. }
    rewrite Hp in K6. by apply NoDup_cons in K6 as [_ ?].
Qed.

(** [release] of a socket that is no longer linked. *)
Lemma release_ok tab h g p i sl hs : heap_ok h -> good tab h g -> NoDup (own g) ->
  tab !! Z.to_nat (gd_type g) = Some p ->
  exists h' hs', release sys nested user (gd_addr g) (mk_sst i sl tab h hs) =
      Ok (tt, mk_sst i sl (<[Z.to_nat (gd_type g) := mk_plugin (u32 (p_ref p - 1)) (p_type p) (p_reg p)]> tab) h' hs') /\
    changes (gd_foot g) h h'.
Proof.
  intros Hok [HS (q & Hq & Hd)] Hnd Hp. assert (q = p) as -> by congruence. apply NoDup_cons in Hnd as [Hout Hnd].
  pose proof (socket_below _ _ _ _ _ _ Hok HS) as Hlt.
  destruct (dispose_step tab h g p i sl hs Hok HS Hd) as (h1 & hs1 & E1 & C1). exists h1, hs1. split; [|done].
  assert (HS1 : socket_at h1 (gd_addr g) (gd_id g) (gd_type g) (gd_opts g) (gd_priv g)).
  { eapply socket_frame; [exact HS|]. apply C1; [lia|done]. }
  unfold release. assert (EP : plugin_of (gd_addr g) (mk_sst i sl tab h hs) = Ok (p, mk_sst i sl tab h hs)).
  { unfold plugin_of. rewrite (bind_Ok _ _ _ _ _ (get_type_eq _ _ _ _ _ _ HS i sl tab hs)).
    by apply plugin_at_eq. }
  run EP. run E1. rewrite (bind_Ok _ _ _ _ _ (get_type_eq _ _ _ _ _ _ HS1 i sl tab hs1)).
  by apply (set_ref_eq (gd_type g) (fun n => n - 1)).
Qed.

Lemma simulate_socket_destroy n s R a : represents (S n) s R -> call_ok s R (Destroy a) -> simulates n s R (Destroy a).
Proof.
  intros HR Ha. pose proof (fewer _ _ _ HR) as HR'. destruct s as [i sl tab h hs].
  destruct HR' as (gs & H1 & H2 & H3 & H4 & HT & HP & HL & HY). simpl in *.
  rewrite HL, map_map in Ha. apply list_elem_of_fmap in Ha as (g & -> & Hg).
  apply list_elem_of_split in Hg as (gs1 & gs2 & ->).
  pose proof H1 as [K1 K2 K3 K4 K5 K6]. pose proof (proj1 (Forall_forall _ _) K3) as G.
  assert (Gg : good tab h g) by (apply G; set_solver).
  assert (Hids : gd_id g ∉ map gd_id gs1).
  { rewrite map_app in K6. apply NoDup_app in K6 as (_ & K6 & _). intros Hin. apply (K6 _ Hin). simpl. set_solver. }
  rewrite nodes_app in K2. change (nodes (g :: gs2)) with ((gd_node g, gd_addr g) :: nodes gs2) in K2.
  destruct (list_unlink_ptr h sl slist_opts (nodes gs1) (gd_node g) (gd_addr g) (nodes gs2) (gd_addr g) K1 slist_obj K2)
    as (h1 & E1 & R1 & C1).
  { apply Forall_forall. intros x Hx. apply list_elem_of_fmap in Hx as (g' & -> & Hg').
    rewrite (hits_id tab) by (try apply G; set_solver). apply Z.eqb_neq. intros E. apply Hids. rewrite E.
    by apply (list_elem_of_fmap_2 gd_id). }
  { rewrite (hits_id tab) by done. apply Z.eqb_refl. }
  pose proof K4 as K4m. rewrite cells_middle in K4m. apply NoDup_cons in K4m as [Hn K4m].
  apply NoDup_app in K4m as (Hown & Kd & Krest).
  assert (Hout : forall b, b ∈ own g -> b ∉ list_cells sl (nodes (gs1 ++ g :: gs2))).
  { intros b Hb Hin. apply NoDup_app in K4 as (_ & K4 & _). apply (K4 b Hin), own_middle.
    by right. }
  change ((gd_node g, gd_addr g) :: nodes gs2) with (nodes (g :: gs2)) in C1. rewrite <- nodes_app in C1.
  assert (G1 : good tab h1 g).
  { eapply good_same; [exact Gg|]. intros b Hb. apply C1; [|by apply Hout].
    rewrite cells_middle in K5. apply Forall_cons in K5 as [_ K5]. apply Forall_app in K5 as [K5 _].
    by eapply Forall_forall in K5. }
  assert (Hperm : map gd_type (gs1 ++ g :: gs2) ≡ₚ Z.of_nat (Z.to_nat (gd_type g)) :: map gd_type (gs1 ++ gs2)).
  { pose proof (so_type _ _ _ _ _ _ (gd_at _ _ _ Gg)). rewrite Z2Nat.id by lia. rewrite !map_app. simpl.
    symmetry. apply Permutation_middle. }
  destruct (table_down KYLIN_SOCK_MAX tab _ _ _ HT Hperm) as (p & Hp & Hmax & HT').
  destruct (release_ok tab h1 g p i sl hs (ch_ok _ _ _ C1) G1 Hown Hp) as (h2 & hs2 & E2 & C2).
  set (tab' := <[Z.to_nat (gd_type g) := mk_plugin (u32 (p_ref p - 1)) (p_type p) (p_reg p)]> tab) in *.
  assert (Hb2 : exists bs, blocks (omem h2) !! gd_addr g = Some bs).
  { eexists. rewrite <- (so_block _ _ _ _ _ _ (gd_at _ _ _ G1)). apply loc_block, C2.
    - apply (socket_below _ _ _ _ _ _ (ch_ok _ _ _ C1) (gd_at _ _ _ G1)).
    - by apply NoDup_cons in Hown as [? _]. }
  destruct Hb2 as [bs2 Hb2]. destruct (free_eq (gd_addr g) bs2 h2 (ch_ok _ _ _ C2) Hb2) as (h3 & C3 & E3).
  assert (C : changes (list_cells sl (nodes (gs1 ++ g :: gs2)) ++ own g) h h3).
  { eapply changes_weaken; [eapply changes_trans; [exact C1|]; by eapply changes_trans|].
    intros b _. unfold own. rewrite !elem_of_app, !elem_of_cons, elem_of_nil. tauto. }
  assert (HR3 : klist_rep h3 sl slist_opts (nodes (gs1 ++ gs2))).
  { rewrite nodes_app. eapply rep_frame; [exact R1|]. intros b Hb. rewrite <- nodes_app in Hb.
    assert (Hbc : b ∉ own g) by (intros Hin; apply (Kd b Hin), cells_split; by left).
    pose proof (ch_top _ _ _ C1). pose proof (ch_top _ _ _ C2).
    assert (b < top h).
    { rewrite cells_middle in K5. apply Forall_cons in K5 as [_ K5]. apply Forall_app in K5 as [_ K5].
      eapply Forall_forall in K5; [exact K5|]. apply cells_split. by left. }
    unfold own in Hbc. apply not_elem_of_cons in Hbc as [Hba Hbf].
    rewrite (ch_loc _ _ _ C3) by (lia || by rewrite list_elem_of_singleton). by rewrite (ch_loc _ _ _ C2) by (lia || done). }
  eexists _, (mk_sst i sl tab' h3 hs2), _. split; [|split].
  - unfold run_call, kylin_socket_destroy. erewrite bind_Ok; [done|].
    run (eq_refl : get_slist (mk_sst i sl tab h hs) = Ok (sl, mk_sst i sl tab h hs)).
    run (on_heap_eq _ i sl tab h hs _ _ E1). cbn [vptr_addr].
    rewrite (proj2 (Z.eqb_neq _ _)).
    2:{ pose proof (socket_below _ _ _ _ _ _ K1 (gd_at _ _ _ Gg)). unfold NULL. lia. }
    run E2. apply E3.
  - apply (step_destroy R (gd_addr g) (gd_type g) (map (fun g => (gd_addr g, gd_type g)) gs1)
      (map (fun g => (gd_addr g, gd_type g)) gs2)). by rewrite HL, map_app.
  - exists (gs1 ++ gs2). simpl. rewrite length_app in *. simpl in H4.
    split_and!; [|apply Forall_app in H2 as [H2a H2b]; apply Forall_app; split; [done|by apply Forall_cons in H2b as [_ ?]]
      |lia|lia|done| |by rewrite map_app|].
    + eapply sockets_tab; [by eapply sockets_remove|]. intros g' q _ Hq. by eapply reref.
    + intros j q Hj Hq. destruct (decide (j = Z.to_nat (gd_type g))) as [->|Hne].
      * unfold tab' in Hj. rewrite list_lookup_insert_eq in Hj by (by eapply lookup_lt_Some).
        injection Hj as <-. exact (HP _ _ Hp Hmax).
      * unfold tab' in Hj. rewrite list_lookup_insert_ne in Hj by done. by eapply HP.
    + intros t'. pose proof (so_type _ _ _ _ _ _ (gd_at _ _ _ Gg)).
      unfold tab'. rewrite (registered_insert _ tab (Z.to_nat (gd_type g)) p _ t' Hp), Z2Nat.id, HY by lia. simpl.
      pose proof (registered_at tab (gd_type g) p ltac:(lia) Hp).
      destruct (decide (t' = gd_type g)); naive_solver.
Qed.

(** ** Sequences of calls *)
Fixpoint calls_ok (s : sst) (R : registry) (calls : list sock_call) : Prop :=
  match calls with
  | [] => True
  | c :: calls => call_ok s R c /\
      forall r s' R', run_call c s = Ok (r, s') -> socket_step R c r R' -> calls_ok s' R' calls
  end.

Inductive socket_steps : registry -> list sock_call -> list sock_res -> registry -> Prop :=
| steps_nil R : socket_steps R [] [] R
| steps_cons R c r R1 calls rs R2 : socket_step R c r R1 -> socket_steps R1 calls rs R2 ->
    socket_steps R (c :: calls) (r :: rs) R2.

Lemma simulate_call n s R c : represents (S n) s R -> call_ok s R c -> simulates n s R c.
Proof.
  intros HR Hc. destruct c.
  - by apply simulate_register.
  - by apply simulate_unregister.
  - by apply simulate_socket_create.
  - by apply simulate_socket_destroy.
Qed.

Lemma simulate_calls s R calls : represents (length calls) s R -> calls_ok s R calls ->
  exists rs s' R', run_all run_call calls s = Ok (rs, s') /\ socket_steps R calls rs R' /\ represents 0 s' R'.
Proof.
  revert s R. induction calls as [|c calls IH]; intros s R HR Hok.
  { exists [], s, R. split; [done|]. split; [constructor|done]. }
  destruct Hok as [Hc Hrest].
  destruct (simulate_call _ _ _ _ HR Hc) as (r & s1 & R1 & E & Hstep & HR1).
  destruct (IH s1 R1 HR1 (Hrest r s1 R1 E Hstep)) as (rs & s2 & R2 & E2 & Hs2 & HR2).
  exists (r :: rs), s2, R2. split; [|split; [by econstructor|done]].
  cbn [run_all]. run E. by run E2.
Qed.

(** C15. The sockets are a registry of types and live objects.  Whatever the calls
    to register and unregister types, to create sockets and to destroy live
    ones, whichever back ends serve them, whatever the system answers and
    whichever allocations fail, every call returns and its result is the one of
    the registry: a type is registered once, with both functions and a
    successful [init]; it is unregistered only when no live socket uses it; a
    socket of a registered type is created under an address of its own, or NULL
    is returned; a destroyed socket is gone.  The list, the objects and the
    counts of the array stay those of the live sockets. *)
Theorem socket_refines_registry s R calls : represents (length calls) s R -> calls_ok s R calls ->
  exists rs s' R', run_all run_call calls s = Ok (rs, s') /\ socket_steps R calls rs R' /\ represents 0 s' R'.
Proof. apply simulate_calls. Qed.

(** The sockets that were created and not destroyed. *)
Fixpoint alive (l : list Z) (calls : list sock_call) (rs : list sock_res) : list Z :=
  match calls, rs with
  | Create _ _ :: calls, RSock a :: rs => alive (if a =? NULL then l else a :: l) calls rs
  | Destroy a :: calls, _ :: rs => alive (filter (fun b => b <> a) l) calls rs
  | _ :: calls, _ :: rs => alive l calls rs
  | _, _ => l
  end.

Lemma filter_other (a : Z) (l : list Z) : a ∉ l -> filter (fun b => b <> a) l = l.
Proof.
  induction l as [|b l IH]; intros H; [done|]. apply not_elem_of_cons in H as [H1 H2].
  rewrite filter_cons_True by (by intros ->). by rewrite IH.
Qed.

Lemma alive_steps R calls rs R' : socket_steps R calls rs R' -> NoDup (map fst (live R)) ->
  map fst (live R') = alive (map fst (live R)) calls rs.
Proof.
  induction 1 as [|R c r R1 calls rs R2 H1 _ IH]; intros Hd; [done|].
  destruct H1 as [| | | | | | | |t opts a Ht Ha Hn|a t l1 l2 Hl]; cbn [alive]; try (by apply IH).
  - rewrite (proj2 (Z.eqb_neq _ _) Ha). apply IH. by constructor.
  - assert (E : filter (fun b => b <> a) (map fst (live R)) = map fst (l1 ++ l2)).
    { rewrite Hl in Hd |- *. rewrite !map_app in *. cbn [map fst] in *. rewrite filter_app.
      apply NoDup_app in Hd as (Hd1 & Hd2 & Hd3). apply NoDup_cons in Hd3 as [Hd3 _].
      rewrite filter_cons_False by (by intros H). rewrite !filter_other; [done|done|].
      intros Hin. apply (Hd2 a Hin). left. }
    rewrite E. apply IH. simpl. rewrite <- E. by apply NoDup_filter.
Qed.

(** The entry of the array for a live socket: registered, counting the sockets of
    its type (those of [ts]), and found by every function of the interface. *)
Definition in_service (s : sst) (ts : list Z) (a t : Z) : Prop :=
  sget S_TYPE a s = Ok (t, s) /\ exists p : ksock_plugin_t, splugin s !! Z.to_nat t = Some p /\
    p_type p <> KYLIN_SOCK_MAX /\ p_ref p = Z.of_nat (users t ts) /\
    forall A slot (gone none : A) f, through a slot gone none f s =
      match slot (p_reg p) with Some i => f i | None => mret none end s.

Lemma represents_in_service n s R : represents n s R -> exists l ts,
  klist_rep (sheap s) (slist s) slist_opts l /\ map snd l = map fst (live R) /\
  Forall2 (in_service s ts) (map snd l) ts.
Proof.
  intros (gs & H1 & _ & _ & _ & HT & _ & HL & _). destruct s as [i sl tab h hs]. simpl in *.
  exists (nodes gs), (map gd_type gs). split; [apply H1|]. rewrite HL. unfold nodes. rewrite !map_map. split; [done|].
  apply Forall2_fmap_2, Forall_Forall2_diag, Forall_forall. intros g Hg. simpl.
  pose proof (proj1 (Forall_forall _ _) (iv_good _ _ _ _ H1) g Hg) as [HS (p & Hp & _)].
  pose proof (so_type _ _ _ _ _ _ HS) as Ht. split; [apply (get_type_eq _ _ _ _ _ _ HS i sl tab hs)|].
  exists p. split; [done|].
  assert (Hmax : p_type p <> KYLIN_SOCK_MAX).
  { intros Hmax. apply (table_free _ _ _ _ _ HT Hp Hmax). rewrite Z2Nat.id by lia.
    by apply (list_elem_of_fmap_2 gd_type). }
  split; [done|]. split.
  - pose proof (tb_entry _ _ _ HT _ p Hp) as He. unfold entry_ok in He. rewrite decide_False in He by done.
    by rewrite Z2Nat.id in He by lia.
  - intros A slot gone none f. unfold through, plugin_of.
    assert (EP : (type ← sget S_TYPE (gd_addr g); plugin_at type) (mk_sst i sl tab h hs) = Ok (p, mk_sst i sl tab h hs)).
    { rewrite (bind_Ok _ _ _ _ _ (get_type_eq _ _ _ _ _ _ HS i sl tab hs)). by apply plugin_at_eq. }
    run EP. by rewrite (proj2 (Z.eqb_neq _ _) Hmax).
Qed.

Lemma represents_nodup n s R : represents n s R -> NoDup (map fst (live R)).
Proof.
  intros (gs & H1 & _ & _ & _ & _ & _ & HL & _). rewrite HL, map_map.
  pose proof (iv_disj _ _ _ _ H1) as Hd. unfold cells in Hd. apply NoDup_app in Hd as (_ & _ & Hd). clear -Hd.
  induction gs as [|g gs IH]; [constructor|]. cbn [map concat] in *. apply NoDup_app in Hd as (_ & Hn & Hd). constructor.
  - intros Hin. change (gd_addr g ∈ map (fun g => gd_addr g) gs) in Hin.
    apply list_elem_of_fmap in Hin as (g' & E & Hg'). apply (Hn (gd_addr g)); [left|].
    apply in_own with g'; [done|]. rewrite E. left.
  - by apply IH.
Qed.

(** C16. A live socket always has its plug-in.  After any sequence of calls to
    register and unregister types, to create sockets and to destroy live ones,
    the list holds exactly the sockets that were created and not destroyed; the
    type of each of them is registered, the count of its entry is the number of
    live sockets of that type, and every function of the interface reaches the
    entry's function: none of them finds the type gone. *)
Theorem live_socket_has_plugin s R calls : represents (length calls) s R -> calls_ok s R calls ->
  exists rs s' l ts, run_all run_call calls s = Ok (rs, s') /\
    klist_rep (sheap s') (slist s') slist_opts l /\ map snd l = alive (map fst (live R)) calls rs /\
    Forall2 (in_service s' ts) (map snd l) ts.
Proof.
  intros HR Hc. destruct (simulate_calls s R calls HR Hc) as (rs & s' & R' & E & Hs & HR').
  destruct (represents_in_service _ _ _ HR') as (l & ts & Hl & Ha & Hf).
  exists rs, s', l, ts. split; [done|]. split; [done|]. split; [|done].
  rewrite Ha. apply alive_steps; [done|]. by eapply represents_nodup.
Qed.

(** ** The initial state *)
Definition init_types : gset Z := {[KYLIN_SOCK_SERVER_TCP; KYLIN_SOCK_SERVER_UDP; KYLIN_SOCK_SERVER_UNIX;
  KYLIN_SOCK_CLIENT_TCP; KYLIN_SOCK_CLIENT_UDP; 30; 31]}.

(** The array [kylin_socket_plugin_init] leaves. *)
Definition init_splugin : list ksock_plugin_t :=
  take 18 default_splugin ++ [mk_plugin 0 KYLIN_SOCK_MAX (client_reg Unix)] ++
  replicate 11 (mk_plugin 0 KYLIN_SOCK_MAX no_reg) ++ replicate 2 (mk_plugin 0 0 no_reg).

Lemma plugin_init_eq i sl h hs :
  kylin_socket_plugin_init user (mk_sst i sl default_splugin h hs) = Ok (KYLIN_ERROR_OK, mk_sst i sl init_splugin h hs).
Proof. vm_compute. reflexivity. Qed.

Lemma quiet_ret {A} (x : A) : quiet (mret x).
Proof. intros h Hok i l t hs. exists x, h, hs. split; [done|]. split; [by apply changes_refl|done]. Qed.

(** Each entry of that array is free and unused, or as [reg_ok] wants it. *)
Lemma init_entry i p : init_splugin !! i = Some p ->
  p_ref p = 0 /\ (p_type p <> KYLIN_SOCK_MAX -> reg_ok sys nested user (p_reg p)).
Proof.
  assert (H : Forall (fun p => p_ref p = 0 /\ (p_type p <> KYLIN_SOCK_MAX -> reg_ok sys nested user (p_reg p))) init_splugin).
  2:{ intros Hi. by eapply Forall_lookup_1 in H. }
  assert (HI : forall f, SocketImpl sys nested user f f -> quiet (call_init user (Some f)) ->
    quiet (call_fini user (Some f)) -> reg_ok sys nested user (server_reg f) /\ reg_ok sys nested user (client_reg f)).
  { intros f H1 H2 H3. exact (conj (conj H1 (conj H2 H3)) (conj H1 (conj H2 H3))). }
  destruct (HI Tcp _ (quiet_ret _) (quiet_ret _)) as [Ht1 Ht2].
  destruct (HI Unix _ (quiet_ret _) (quiet_ret _)) as [Hu1 Hu2].
  assert (Hudp : reg_ok sys nested user udp_reg) by (split; [simpl; apply _|split; apply quiet_ret]).
  assert (Hno : reg_ok sys nested user no_reg) by (split; [done|split; apply quiet_ret]).
  unfold init_splugin, default_splugin. cbn [take app replicate].
  repeat (constructor; [split; [done|intros _; assumption]|]). constructor.
Qed.

Lemma init_registered t : t ∈ init_types <-> registered KYLIN_SOCK_MAX init_splugin t.
Proof.
  split.
  - unfold init_types. rewrite !elem_of_union, !elem_of_singleton. intros H.
    destruct_or! H; subst t; (eexists (Z.to_nat _), _; split; [symmetry; by apply Z2Nat.id|split; [done|done]]).
  - intros (i & p & -> & Hp & Hne).
    assert (H : Forall (fun x => p_type x.2 <> KYLIN_SOCK_MAX -> Z.of_nat x.1 ∈ init_types) (imap pair init_splugin)).
    { repeat (constructor; [vm_compute; done|]). constructor. }
    apply (Forall_lookup_1 _ _ i (i, p) H); [|done]. by rewrite list_lookup_imap, Hp.
Qed.

(** The empty registry. *)
Lemma socket_init_represents n i sl h hs : heap_ok h -> klist_rep h sl slist_opts [] -> sl < top h -> 0 <= i ->
  i + Z.of_nat n < 2 ^ 32 -> represents n (mk_sst i sl init_splugin h hs) (mk_registry init_types []).
Proof.
  intros Hok HR Hsl Hi Hn. exists []. simpl. split; [|split_and!; [done|lia|lia| | |done|]].
  - split; [done|exact HR|done| | |constructor].
    + apply NoDup_singleton.
    + by repeat constructor.
  - split; [done| |constructor|done]. intros j p Hj. unfold entry_ok. case_decide; [done|].
    by apply init_entry in Hj as [-> _].
  - intros j p Hj. by apply init_entry in Hj as [_ ?].
  - apply init_registered.
Qed.

(** [kylin_socket_init] makes an empty registry, but the loops that set up
    the array are one entry off: the client's plug-ins are looked for from 15
    on, and they start at 16.  The back end for Unix clients is declared free:
    the registered types are the other five and the two last entries, which
    nothing set, and every creation of a Unix client returns NULL. *)
Theorem socket_init_registry n i0 sl0 h hs opts : heap_ok h -> 0 <= i0 -> i0 + Z.of_nat n < 2 ^ 32 ->
  exists r s', kylin_socket_init user (mk_sst i0 sl0 default_splugin h hs) = Ok (r, s') /\
    (r = KYLIN_ERROR_NOMEM \/
     r = KYLIN_ERROR_OK /\ represents n s' (mk_registry init_types []) /\
     kylin_socket_create sys nested user KYLIN_SOCK_CLIENT_UNIX opts s' = Ok (NULL, s')).
Proof.
  intros Hok Hi Hn. destruct (list_create h slist_opts Hok eq_refl) as (sl & h' & E & C & Hsl).
  unfold kylin_socket_init. run (on_heap_eq _ i0 sl0 default_splugin h hs _ _ E).
  run (eq_refl : set_slist sl (mk_sst i0 sl0 default_splugin h' hs) = Ok (tt, mk_sst i0 sl default_splugin h' hs)).
  destruct Hsl as [->|(-> & Ht & HR)]; [eexists _, _; split; [done|by left]|].
  rewrite (proj2 (Z.eqb_neq _ _)) by (unfold NULL; lia). rewrite plugin_init_eq. eexists _, _. split; [done|]. right.
  split; [done|]. split; [|by vm_compute]. apply socket_init_represents; done || lia || apply C.
Qed.
End Registry.

(** ** Examples

    A system that grants everything, no plug-ins but the built-in ones, and a
    heap with an empty list of sockets and one options object. *)
Definition sample_sys : system := mk_system
  (fun h => match h with SysSocket _ _ :: _ => 5 | SysAccept _ :: _ => 7 | _ => 0 end)
  (fun _ => 0) (fun _ => []) (fun _ => []) (fun _ => 16).
Definition no_nested : nested_dtors := mk_nested_dtors (fun _ _ => Ub) (fun _ _ => Ub) (fun _ _ => Ub).
Definition no_user : user_ops := mk_user (fun _ _ _ => Ub) (fun _ _ _ => Ub) (fun _ _ _ => Ub) (fun _ _ _ => Ub)
  (fun _ _ _ _ _ _ => Ub) (fun _ _ _ _ _ _ => Ub) (fun _ _ _ _ => Ub) (fun _ _ _ => Ub) (fun _ _ => Ub) (fun _ _ => Ub).
Definition sample_heap : KList.st :=
  KList.mk_st {[2048 := mk_klist NULL NULL slist_opts 0]} (mk_mem {[16 := replicate 124 0]} 4096 []) None.
Definition sample_sst : sst := mk_sst 0 2048 init_splugin sample_heap [].
Definition sample_addr : Z := 4096.

Lemma sample_heap_ok : heap_ok sample_heap.
Proof.
  split.
  - split; [done|]. intros a bs Ha. simpl in Ha. by apply lookup_singleton_Some in Ha as [<- _].
  - intros g [L HL]. simpl in HL. by apply lookup_singleton_Some in HL as [<- _].
Qed.

Lemma sample_represents n : Z.of_nat n < 2 ^ 32 ->
  represents sample_sys no_nested no_user n sample_sst (mk_registry init_types []).
Proof.
  intros Hn. apply socket_init_represents; [apply sample_heap_ok| |done|done|lia].
  split; [done|done|constructor|constructor|done].
Qed.

Lemma sample_opts t : 0 <= t < KYLIN_SOCK_MAX ->
  call_ok sample_sys no_nested no_user sample_sst (mk_registry init_types []) (Create t 16).
Proof. intros Ht. split; [done|]. by exists (replicate 124 0). Qed.

(** The first socket is at [sample_addr]. *)
Lemma sample_create r s' : run_call sample_sys no_nested no_user (Create KYLIN_SOCK_SERVER_TCP 16) sample_sst = Ok (r, s') ->
  r = RSock sample_addr.
Proof.
  intros H. apply (f_equal (fun o => match o with Ok (r, _) => Some r | _ => None end)) in H. vm_compute in H. by injection H as <-.
Qed.

Lemma step_sample R' : socket_step (mk_registry init_types []) (Create KYLIN_SOCK_SERVER_TCP 16) (RSock sample_addr) R' ->
  live R' = [(sample_addr, KYLIN_SOCK_SERVER_TCP)].
Proof. intros H. by inversion H. Qed.

Lemma socket_refines_registry_witness :
  exists rs s' R', run_all (run_call sample_sys no_nested no_user)
      [Create KYLIN_SOCK_SERVER_TCP 16; Destroy sample_addr; Unregister KYLIN_SOCK_SERVER_TCP] sample_sst = Ok (rs, s') /\
    socket_steps (mk_registry init_types [])
      [Create KYLIN_SOCK_SERVER_TCP 16; Destroy sample_addr; Unregister KYLIN_SOCK_SERVER_TCP] rs R' /\
    represents sample_sys no_nested no_user 0 s' R'.
Proof.
  apply socket_refines_registry; [by apply sample_represents|].
  split; [by apply sample_opts|]. intros r s' R' H Hs.
  pose proof (sample_create r s' H) as ->. apply step_sample in Hs.
  split; [simpl; rewrite Hs; left|]. intros r2 s2 R2 _ _. split; [by split|]. intros; exact I.
Defined.

(** The type of a live socket is not given up: [Unregister] leaves it. *)
Lemma live_socket_has_plugin_witness : exists rs s' l ts,
  run_all (run_call sample_sys no_nested no_user) [Create KYLIN_SOCK_SERVER_TCP 16; Unregister KYLIN_SOCK_SERVER_TCP] sample_sst =
    Ok (rs, s') /\ klist_rep (sheap s') (slist s') slist_opts l /\
  map snd l = alive [] [Create KYLIN_SOCK_SERVER_TCP 16; Unregister KYLIN_SOCK_SERVER_TCP] rs /\
  Forall2 (in_service s' ts) (map snd l) ts.
Proof.
  apply (live_socket_has_plugin sample_sys no_nested no_user sample_sst (mk_registry init_types [])
    [Create KYLIN_SOCK_SERVER_TCP 16; Unregister KYLIN_SOCK_SERVER_TCP]); [by apply sample_represents|].
  split; [by apply sample_opts|]. intros r s' R' _ _. split; [by split|]. intros; exact I.
Defined.

Lemma socket_init_registry_witness :
  exists r s', kylin_socket_init no_user (mk_sst 0 NULL default_splugin sample_heap []) = Ok (r, s') /\
    (r = KYLIN_ERROR_NOMEM \/
     r = KYLIN_ERROR_OK /\ represents sample_sys no_nested no_user 10 s' (mk_registry init_types []) /\
     kylin_socket_create sample_sys no_nested no_user KYLIN_SOCK_CLIENT_UNIX 16 s' = Ok (NULL, s')).
Proof. apply (socket_init_registry sample_sys no_nested no_user 10 0 NULL sample_heap [] 16); [apply sample_heap_ok|done|done]. Defined.
