(* ===== verification/SocketConn.v ===== *)
(** * The connections of a server ([lib/core/socket/plugin])

    What [tcp_accept] makes of a connection the system grants: the back end
    misreads the result of [kylin_list_insert_head]. *)

From S2P Require Import Prelude Errors Bytes Mem MathVal KList Plugin Socket SocketReg.

Lemma s32_stored z : s32 (le_value (le_bytes 4 z)) = s32 z.
Proof. rewrite le_value_le_bytes. change (8 * Z.of_nat 4) with 32. unfold sw. by rewrite Z.mod_mod by lia. Qed.

Lemma s32_s32 z : s32 (s32 z) = s32 z.
Proof.
  unfold sw. set (r := z mod 2 ^ 32). assert (0 <= r < 2 ^ 32) by (apply Z.mod_pos_bound; lia).
  destruct (Z.ltb_spec r (2 ^ (32 - 1))); [by rewrite Z.mod_small, (proj2 (Z.ltb_lt _ _)) by lia|].
  replace ((r - 2 ^ 32) mod 2 ^ 32) with r by (apply (Z.mod_unique _ _ (-1)); lia).
  by rewrite (proj2 (Z.ltb_ge _ _)).
Qed.

(** ** What the allocator has left *)

(** A store takes nothing from the allocator. *)
Lemma smem_store_room a off new i l t h hs x i' l' t' h' hs' :
  smem (store_at a off new) (mk_sst i l t h hs) = Ok (x, mk_sst i' l' t' h' hs') ->
  brk (omem h') = brk (omem h) /\ oom (omem h') = oom (omem h).
Proof.
  unfold smem, on_heap, on_mem, store_at, mbind, outcome_bind. intros H. simpl in H.
  repeat case_match; by simplify_eq/=.
Qed.

(** What [kylin_malloc] answers, and what it leaves. *)
Lemma malloc_leaves n h a h' : heap_ok h -> on_mem (kylin_malloc n) h = Ok (a, h') ->
  let '(r, m) := alloc_addr n (omem h) in
  match r with Some _ => a <> NULL | None => a = NULL end /\ brk (omem h') = brk m /\ oom (omem h') = oom m.
Proof.
  intros [Hm _] E. unfold on_mem, kylin_malloc in E. destruct (alloc_addr n (omem h)) as [[b|] m] eqn:Ea;
    simpl in E; rewrite Ea in E; injection E as <- <-; [|done]. split; [|done].
  destruct (alloc_addr_some _ _ _ _ Ea Hm) as (_ & _ & Hb). unfold NULL. lia.
Qed.

(** A write behind the first four bytes of an object. *)
Lemma store_behind h a x y new off : heap_ok h -> blocks (omem h) !! a = Some (x ++ y) ->
  Z.of_nat (length x) <= off -> off + Z.of_nat (length new) <= Z.of_nat (length x + length y) ->
  exists h' y', changes [a] h h' /\ blocks (omem h') !! a = Some (x ++ y') /\ length y' = length y /\ top h' = top h /\
    forall i l t hs, smem (store_at a off new) (mk_sst i l t h hs) = Ok (tt, mk_sst i l t h' hs).
Proof.
  intros Hok Hb Hoff Hlen. set (k := Z.to_nat (off - Z.of_nat (length x))).
  assert (Hy : y = take k y ++ take (length new) (drop k y) ++ drop (k + length new) y).
  { rewrite <- (take_drop k y) at 1. f_equal. rewrite <- (take_drop (length new) (drop k y)) at 1.
    by rewrite drop_drop. }
  assert (Hb' : blocks (omem h) !! a = Some ((x ++ take k y) ++ take (length new) (drop k y) ++ drop (k + length new) y)).
  { rewrite Hb. rewrite <- app_assoc. by rewrite <- Hy. }
  destruct (heap_store h a _ _ new _ off Hok Hb') as (h' & E & C & _ & B & T).
  - rewrite length_take, length_drop. lia.
  - rewrite length_app, length_take. lia.
  - exists h', (take k y ++ new ++ drop (k + length new) y). split; [done|]. split; [by rewrite B, <- app_assoc|].
    split; [|split; [done|intros; by apply smem_eq]].
    rewrite !length_app, length_take, length_drop. lia.
Qed.

(** The local address of a server. *)
Lemma load_local h a id type opts priv : socket_at h a id type opts priv ->
  exists bs, load_at a SERVER_LOCAL sizeof_addr (omem h) = Ok (bs, omem h) /\ length bs = 116%nat.
Proof.
  intros [Hb Ho _ _ _]. exists (drop 8 opts). split; [|rewrite length_drop; lia].
  replace SERVER_LOCAL with (Z.of_nat (length (le_bytes 4 id ++ le_bytes 4 type ++ take 8 opts)))
    by (rewrite !length_app, !length_le_bytes, length_take, Ho; done).
  apply load_at_ok with (y := replicate 4 0 ++ le_bytes 8 priv).
  - rewrite Hb. unfold socket_block. rewrite <- (take_drop 8 opts) at 1. by rewrite <- !app_assoc.
  - rewrite length_drop. unfold sizeof_addr. lia.
Qed.

Lemma free_gone a bs h : heap_ok h -> blocks (omem h) !! a = Some bs -> exists h', changes [a] h h' /\
  blocks (omem h') !! a = None /\
  forall i l t hs, smem (kylin_free a) (mk_sst i l t h hs) = Ok (tt, mk_sst i l t h' hs).
Proof.
  intros Hh Ha. destruct (free_eq a bs h Hh Ha) as (h' & C & E). exists h'. split; [done|]. split; [|done].
  specialize (E 0 0 [] []). unfold smem, on_heap, on_mem in E. simpl in E.
  rewrite (free_live (omem h) a (live_not_null _ _ _ Hh Ha)) in E by (by eexists). injection E as <-. simpl.
  apply lookup_delete_eq.
Qed.

(** Storing [new] in the new connection, behind its descriptor. *)
Ltac behind h C B off new h' C' B' E :=
  let y := fresh "y'" in let L := fresh "L" in let T := fresh "T" in let D := fresh "D" in
  match type of B with blocks _ !! ?a = Some (?x ++ ?y0) =>
  destruct (store_behind h a x y0 new off (ch_ok _ _ _ C) B) as (h' & y & D & B' & L & T & E);
  [cbn; rewrite ?length_le_bytes; lia
  |cbn; rewrite ?length_le_bytes, ?length_take, ?length_app, ?length_replicate in *; lia
  |match type of C with changes [] ?h0 _ => assert (C' : changes [] h0 h') by (eapply changes_own; [exact C|exact D|lia]) end]
  end.

Ltac room E := let R := fresh "R" in let O := fresh "O" in
  destruct (smem_store_room _ _ _ _ _ _ _ _ _ _ _ _ _ _ E) as [R O].

Section Accept.
Context (sys : system) (nested : nested_dtors).

(** A connection that has just been allocated, filled in. *)
Lemma fill_conn guard z from len n h h1 i sl tab hs id type opts p0 : heap_ok h -> (n <= 112)%nat ->
  socket_at h guard id type opts p0 -> changes [] h h1 ->
  blocks (omem h1) !! top h = Some (replicate (Z.to_nat sizeof_conn) 0) ->
  exists h6 y, changes [] h h6 /\ blocks (omem h6) !! top h = Some (le_bytes 4 (s32 z) ++ y) /\
    (brk (omem h6) = brk (omem h1) /\ oom (omem h6) = oom (omem h1)) /\
    forall B (k : M sst B),
    (_ ← sput C_FD (top h) (s32 z); _ ← sput C_SOCK (top h) guard; _ ← sput C_CLIENT_LEN (top h) len;
     _ ← smem (store_at (top h) C_CLIENT_ADDR (take n (from ++ replicate n 0)));
     local ← smem (load_at guard SERVER_LOCAL sizeof_addr); _ ← smem (store_at (top h) C_SERVER local); k)
      (mk_sst i sl tab h1 hs) = k (mk_sst i sl tab h6 hs).
Proof.
  intros Hok Hn HS C01 Hz. change (replicate (Z.to_nat sizeof_conn) 0) with ([] ++ replicate 4 0 ++ replicate 244 0) in Hz.
  destruct (put_eq (top h) [] _ 4 (s32 z) _ 4 0 h1 (ch_ok _ _ _ C01) Hz eq_refl eq_refl eq_refl)
    as (h2 & C2 & _ & B2 & T2 & E2).
  change ([] ++ le_bytes 4 (s32 z) ++ replicate 244 0) with (le_bytes 4 (s32 z) ++ replicate 244 0) in B2.
  assert (C02 : changes [] h h2) by (eapply changes_own; [exact C01|exact C2|lia]).
  behind h2 C02 B2 8 (le_bytes 8 guard) h3 C03 B3 E3.
  behind h3 C03 B3 132 (le_bytes 4 len) h4 C04 B4 E4.
  behind h4 C04 B4 136 (take n (from ++ replicate n 0)) h5 C05 B5 E5.
  destruct (load_local h5 guard id type opts p0 (socket_changes _ _ _ _ _ _ _ Hok C05 HS)) as (loc & Eloc & Lloc).
  behind h5 C05 B5 16 loc h6 C06 B6 E6. exists h6. eexists. split; [done|]. split; [exact B6|].
  room (E2 i sl tab hs). room (E3 i sl tab hs). room (E4 i sl tab hs). room (E5 i sl tab hs). room (E6 i sl tab hs).
  split; [by split; congruence|]. intros B k.
  run (E2 i sl tab hs). run (E3 i sl tab hs : sput C_SOCK (top h) guard _ = _).
  run (E4 i sl tab hs : sput C_CLIENT_LEN (top h) len _ = _). run (E5 i sl tab hs).
  run (smem_eq _ i sl tab h5 hs _ _ (on_mem_pure (load_at guard SERVER_LOCAL sizeof_addr) h5 _ Eloc)).
  by run (E6 i sl tab hs).
Qed.

(** What becomes of a connection that the system grants: without a local
    address or without memory it is closed, without memory for a node of the
    list it is not linked. *)
Inductive fate : Type := Refused | Closed | Unlinked | Dropped.

Definition conn_fate (h : KList.st) : fate :=
  let '(a, m) := alloc_addr sizeof_conn (omem h) in
  match a, fst (alloc_addr sizeof_node m) with
  | None, _ => Closed
  | Some _, None => Unlinked
  | Some _, Some _ => Dropped
  end.

Definition accept_fate (h : KList.st) (lfd fd len : Z) : fate :=
  if (s32 lfd =? -1) || (fd =? -1) then Refused else if len =? 0 then Closed else conn_fate h.

Lemma conn_granted h : conn_fate h <> Refused.
Proof. unfold conn_fate. by repeat case_match. Qed.

(** What is left of the connection on [fd]. *)
Definition leaves_conn (f : fate) (h h' : KList.st) (conns : Z) (o : klist_opts_t) (l : list (Z * Z)) (fd r : Z)
    (hs hs' : list syscall) : Prop :=
  match f with
  | Refused => r = NULL /\ h' = h /\ hs' = hs
  | Closed => r = NULL /\ klist_rep h' conns o l /\ hs' = SysClose fd :: hs
  | Unlinked => r = top h /\ is_Some (blocks (omem h') !! r) /\ klist_rep h' conns o l /\ hs' = hs
  | Dropped => r = NULL /\ (exists node, klist_rep h' conns o ((node, top h) :: l)) /\
      blocks (omem h') !! top h = None /\ hs' = SysClose fd :: hs
  end.

(** A linked connection is taken for a failure. *)
Lemma drop_linked h h7 z conns o l node y i sl tab hs : heap_ok h7 -> top h < top h7 ->
  Forall (fun a => a < top h) (list_cells conns l) -> top h < node < top h7 ->
  klist_rep h7 conns o ((node, top h) :: l) -> blocks (omem h7) !! top h = Some (le_bytes 4 (s32 z) ++ y) ->
  exists h8, changes [top h] h7 h8 /\ leaves_conn Dropped h h8 conns o l (s32 z) NULL hs (SysClose (s32 z) :: hs) /\
    (fd ← sget_int C_FD (top h); _ ← call_ sys (SysClose fd); _ ← smem (kylin_free (top h)); mret NULL)
      (mk_sst i sl tab h7 hs) = Ok (NULL, mk_sst i sl tab h8 (SysClose (s32 z) :: hs)).
Proof.
  intros Hok Ht Hold Hnode HR Hb. destruct (free_gone (top h) _ h7 Hok Hb) as (h8 & C8 & G8 & E8).
  exists h8. split; [done|]. split.
  - split; [done|]. split; [|done]. exists node. eapply rep_frame; [exact HR|]. intros b Hb'.
    unfold list_cells in *. apply Forall_cons in Hold as [Hc Hold]. simpl in Hb'.
    rewrite !elem_of_cons in Hb'. rewrite Forall_forall in Hold.
    assert (b < top h7 /\ b <> top h) as [Hb1 Hb2].
    { destruct Hb' as [->|[->|Hb']]; [lia|lia|]. specialize (Hold b Hb'). simpl in Hold. lia. }
    apply C8; [done|]. by rewrite list_elem_of_singleton.
  - rewrite <- (app_nil_l (le_bytes _ _ ++ _)) in Hb.
    run (sget_int_any (top h) [] _ _ 4 0 i sl tab h7 hs Hb eq_refl eq_refl). rewrite s32_stored, s32_s32.
    run (call_eq_ sys (SysClose (s32 z)) i sl tab h7 hs). by run (E8 i sl tab (SysClose (s32 z) :: hs)).
Qed.

Lemma new_conn_ok guard priv z from len n h o l lb i sl tab hs id type opts p0 bs conns :
  heap_ok h -> obj_list o -> klist_rep h conns o l -> Forall (fun a => a < top h) (list_cells conns l) ->
  Z.of_nat (length l) + 1 < 2 ^ 62 -> (n <= 112)%nat -> socket_at h guard id type opts p0 ->
  blocks (omem h) !! priv = Some ((lb ++ bs) ++ le_bytes 8 conns) -> length (lb ++ bs) = 8%nat -> is_u 64 conns ->
  exists r h' hs', new_conn sys guard priv (s32 z) from len n (mk_sst i sl tab h hs) = Ok (r, mk_sst i sl tab h' hs') /\
    changes (list_cells conns l) h h' /\ leaves_conn (conn_fate h) h h' conns o l (s32 z) r hs hs'.
Proof.
  intros Hok Ho HR Hold Hlen Hn HS Hp Hlb Hcu. unfold new_conn.
  assert (Hframe : forall h', changes [] h h' -> klist_rep h' conns o l).
  { intros h' C. eapply rep_frame; [exact HR|]. intros a Ha. apply C; [by eapply Forall_forall in Hold|set_solver]. }
  destruct (heap_malloc h sizeof_conn Hok) as (a & h1 & E1 & C1 & Ha).
  run (smem_eq _ i sl tab h hs _ _ E1). pose proof (malloc_leaves _ _ _ _ Hok E1) as Hroom. unfold conn_fate.
  destruct (alloc_addr sizeof_conn (omem h)) as [r0 m1]. destruct Hroom as (Hr0 & Hbrk & Hoom).
  destruct r0; [|subst a].
  2:{ eexists NULL, h1, _. split; [done|]. split; [by eapply changes_weaken; [exact C1|set_solver]|].
    split; [done|]. split; [by apply Hframe|done]. }
  rewrite (proj2 (Z.eqb_neq _ _)) by done. destruct Ha as [->|(-> & Ha & Hz)]; [done|].
  destruct (fill_conn guard z from len n h h1 i sl tab hs id type opts p0 Hok Hn HS C1 ltac:(unfold loc in Hz; congruence))
    as (h6 & y & C06 & B6 & (R6 & O6) & E6).
  rewrite E6. clear E6. pose proof (ch_ok _ _ _ C06) as Hok6.
  assert (Hp6 : blocks (omem h6) !! priv = Some ((lb ++ bs) ++ le_bytes 8 conns ++ [])).
  { rewrite app_nil_r, <- Hp. apply loc_block, C06; [|set_solver].
    destruct Hok as [[_ Hm] _]. apply Hm in Hp. unfold top. lia. }
  run (sget_eq priv (lb ++ bs) 8 conns [] 8 8 i sl tab h6 hs Hp6 eq_refl ltac:(by rewrite Hlb) Hcu).
  assert (Hr6 : 0 < top h < top h6) by (destruct Hok6 as [[_ Hm] _]; apply Hm in B6; unfold top in *; lia).
  destruct (list_insert_ptr h6 conns o l (top h) Hok6 Ho (Hframe h6 C06) ltac:(unfold NULL; lia)
    (heap_top_u _ _ Hok6 Hr6) Hlen) as (r & h7 & E7 & Hr).
  run (on_heap_eq _ i sl tab h6 hs _ _ E7). cbn [vptr_addr kerr_code].
  rewrite (alloc_addr_room sizeof_node m1 (omem h6)) in Hr by congruence.
  assert (Hout : top h ∉ list_cells conns l).
  { intros Hin. eapply Forall_forall in Hold; [|exact Hin]. simpl in Hold. lia. }
  destruct Hr as [(-> & -> & C7)|(-> & [a1 ->] & node & Hnode & HR7 & C7)].
  - assert (C07 : changes [] h h7) by (eapply changes_new; [exact C06|exact C7|set_solver]).
    eexists _, h7, hs. split; [done|]. split; [by eapply changes_weaken; [exact C07|set_solver]|].
    split; [done|]. split; [|by split; [apply Hframe|]].
    eexists. rewrite (loc_block _ _ _ (ch_loc _ _ _ C7 (top h) ltac:(lia) ltac:(set_solver))). exact B6.
  - rewrite (proj2 (Z.eqb_neq _ _)) by lia. cbn [negb]. pose proof (ch_top _ _ _ C7).
    assert (B7 : blocks (omem h7) !! top h = Some (le_bytes 4 (s32 z) ++ y)).
    { by rewrite (loc_block _ _ _ (ch_loc _ _ _ C7 (top h) ltac:(lia) Hout)). }
    destruct (drop_linked h h7 z conns o l node y i sl tab hs (ch_ok _ _ _ C7) ltac:(lia) Hold ltac:(lia) HR7 B7)
      as (h8 & C8 & HA & E8).
    exists NULL, h8, (SysClose (s32 z) :: hs). split; [exact E8|]. split; [|done].
    eapply changes_new; [eapply changes_weaken; [eapply changes_trans; [exact C06|exact C7]|]|exact C8|].
    + intros b _. by rewrite app_nil_l.
    + intros b Hb ->%list_elem_of_singleton. lia.
Qed.

(** A TCP server: its socket with the length of its local address, its private data with the listening descriptor,
    and its list of connections. *)
Record serving (h : KList.st) (guard priv conns lfd len : Z) (l : list (Z * Z)) : Prop := {
  sv_socket : exists id opts, socket_at h guard id KYLIN_SOCK_SERVER_TCP opts priv /\
    le_value (take 4 (drop 8 opts)) = len;
  sv_priv : blocks (omem h) !! priv = Some ((le_bytes 4 lfd ++ replicate 4 0) ++ le_bytes 8 conns);
  sv_conns : klist_rep h conns tcp_conns_opts l;
  sv_addr : is_u 64 conns /\ conns <> NULL;
  sv_old : Forall (fun a => a < top h /\ a <> priv) (list_cells conns l);
  sv_few : Z.of_nat (length l) + 1 < 2 ^ 62;
}.

(** Destroying a server whose first connection was freed. *)
Lemma destroy_dangling h priv conns lfd node conn l i sl tab hs : heap_ok h ->
  blocks (omem h) !! priv = Some ((le_bytes 4 lfd ++ replicate 4 0) ++ le_bytes 8 conns) -> is_u 64 conns -> conns <> NULL ->
  klist_rep h conns tcp_conns_opts ((node, conn) :: l) -> blocks (omem h) !! conn = None -> conn <> NULL ->
  tcp_destroy sys nested priv (mk_sst i sl tab h hs) = Ub.
Proof.
  intros Hok Hb Hu Hn HR Hc Hcn. unfold tcp_destroy, stream_destroy.
  rewrite (proj2 (Z.eqb_neq _ _) (live_not_null _ _ _ Hok Hb)).
  assert (Hb1 : blocks (omem h) !! priv = Some ([] ++ le_bytes 4 lfd ++ (replicate 4 0 ++ le_bytes 8 conns))) by done.
  run (sget_int_any priv [] _ _ 4 0 i sl tab h hs Hb1 eq_refl eq_refl).
  destruct (close_eq sys (s32 (le_value (le_bytes 4 lfd))) i sl tab h hs) as (hs' & Ec). run Ec.
  assert (Hb2 : blocks (omem h) !! priv = Some ((le_bytes 4 lfd ++ replicate 4 0) ++ le_bytes 8 conns ++ [])) by (by rewrite app_nil_r).
  run (sget_eq priv _ 8 conns [] 8 8 i sl tab h hs' Hb2 eq_refl eq_refl Hu).
  rewrite (proj2 (Z.eqb_neq _ _) Hn). cbn [negb]. apply bind_Ub. unfold on_heap. cbn [sheap].
  by rewrite (list_destroy_dangling nested h conns tcp_conns_opts node conn l HR).
Qed.

(** C20. [tcp_accept] keeps no connection that it could link.
    [kylin_list_insert_head] returns a pointer, which [accept] compares with
    the code for success: a connection that was linked is closed, freed and not
    returned, and its address stays at the head of the server's list, so that
    destroying the server frees it again; a connection is returned, open, only
    when there was memory for it and none to link it.  [accept_fate] says which
    of the four happens, from the descriptors, the length of the local address
    and the coming allocations; the system calls are pinned in every case. *)
Theorem tcp_accept_keeps_none h guard priv conns lfd len l i sl tab hs :
  heap_ok h -> serving h guard priv conns lfd len l ->
  let asked := SysAccept (s32 lfd) :: hs in
  let fd := s32 (answer sys asked) in
  let f := accept_fate h lfd fd len in
  exists r h' hs', tcp_accept sys guard (mk_sst i sl tab h hs) = Ok (r, mk_sst i sl tab h' hs') /\
    leaves_conn f h h' conns tcp_conns_opts l fd r
      (match f with
       | Refused => if s32 lfd =? -1 then hs else asked
       | _ => SysSetsockopt fd SOL_SOCKET MSG_NOSIGNAL :: asked
       end) hs' /\
    (f = Dropped -> tcp_destroy sys nested priv (mk_sst i sl tab h' hs') = Ub).
Proof.
  intros Hok [(id & opts & HS & Hlen) Hp HR [Hcu Hcn] Hold Hfew]. unfold tcp_accept, accept_fate. cbv zeta.
  rewrite (bind_Ok _ _ _ _ _ (get_priv_eq _ _ _ _ _ _ HS i sl tab hs)).
  rewrite (proj2 (Z.eqb_neq _ _) (live_not_null _ _ _ Hok Hp)).
  assert (Hb1 : blocks (omem h) !! priv = Some ([] ++ le_bytes 4 lfd ++ (replicate 4 0 ++ le_bytes 8 conns))) by done.
  run (sget_int_any priv [] _ _ 4 0 i sl tab h hs Hb1 eq_refl eq_refl). rewrite s32_stored.
  destruct (s32 lfd =? -1); [by exists NULL, h, hs|]. cbn [orb].
  run (call_eq sys (SysAccept (s32 lfd)) i sl tab h hs).
  set (hs1 := SysAccept (s32 lfd) :: hs) in *. set (z := answer sys hs1) in *.
  destruct (s32 z =? -1); [by exists NULL, h, hs1|].
  run (eq_refl : ask (peer sys) (mk_sst i sl tab h hs1) = Ok (peer sys hs1, mk_sst i sl tab h hs1)).
  run (eq_refl : ask (peer_len sys) (mk_sst i sl tab h hs1) = Ok (peer_len sys hs1, mk_sst i sl tab h hs1)).
  run (call_eq_ sys (SysSetsockopt (s32 z) SOL_SOCKET MSG_NOSIGNAL) i sl tab h hs1).
  set (hs2 := SysSetsockopt (s32 z) SOL_SOCKET MSG_NOSIGNAL :: hs1).
  rewrite (bind_Ok _ _ _ _ _ (sget_opts_at h guard id _ opts priv 8 4 i sl tab hs2 HS ltac:(lia))). rewrite Hlen.
  destruct (len =? 0); [by exists NULL, h, (SysClose (s32 z) :: hs2)|].
  assert (Hold' : Forall (fun a => a < top h) (list_cells conns l)) by (eapply Forall_impl; [exact Hold|]; simpl; lia).
  destruct (new_conn_ok guard priv z (peer sys hs1) (peer_len sys hs1) 16 h tcp_conns_opts l _ i sl tab
    hs2 id _ opts priv _ conns Hok ltac:(done) HR Hold' Hfew ltac:(lia) HS Hp eq_refl Hcu)
    as (r & h' & hs' & E & C & HA).
  exists r, h', hs'. split; [exact E|]. split.
  { destruct (conn_fate h) eqn:Hf; [by destruct (conn_granted h) | ..]; exact HA. }
  intros Hf. rewrite Hf in HA. destruct HA as (_ & (node & HR') & Hfree & _).
  assert (Hpt : priv < top h) by (destruct Hok as [[_ Hm] _]; apply Hm in Hp; unfold top; lia).
  assert (Hp' : blocks (omem h') !! priv = Some ((le_bytes 4 lfd ++ replicate 4 0) ++ le_bytes 8 conns)).
  { rewrite <- Hp. apply loc_block, C; [done|]. intros Hin. eapply Forall_forall in Hold; [|exact Hin]. simpl in Hold. lia. }
  eapply destroy_dangling; [apply C|exact Hp'|done|done|exact HR'|done|].
  destruct Hok as [[Hr _] _]. unfold top, NULL. lia.
Qed.
End Accept.

(** ** An example: a server in the heap, one connection granted *)
Definition server_heap : KList.st :=
  KList.mk_st {[3000 := mk_klist NULL NULL tcp_conns_opts 0]}
    (mk_mem (<[100 := socket_block 0 0 (replicate 8 0 ++ le_bytes 4 16 ++ replicate 112 0) 400]>
             {[400 := (le_bytes 4 5 ++ replicate 4 0) ++ le_bytes 8 3000]}) 4096 []) None.

Lemma server_heap_ok : heap_ok server_heap.
Proof.
  split.
  - split; [done|]. intros a bs Ha. simpl in Ha.
    apply lookup_insert_Some in Ha as [[<- _]|[_ Ha]]; [done|]. by apply lookup_singleton_Some in Ha as [<- _].
  - intros g [L HL]. simpl in HL. by apply lookup_singleton_Some in HL as [<- _].
Qed.

Lemma server_serving : serving server_heap 100 400 3000 5 16 [].
Proof.
  split.
  - eexists 0, _. split; [split; [reflexivity|done|done|done|done]|done].
  - done.
  - split; [done|done|constructor|constructor|done].
  - done.
  - by repeat constructor.
  - done.
Qed.

Lemma tcp_accept_keeps_none_witness : exists r h' hs',
  tcp_accept sample_sys 100 (mk_sst 0 NULL [] server_heap []) = Ok (r, mk_sst 0 NULL [] h' hs') /\
    (r = NULL /\ (exists node, klist_rep h' 3000 tcp_conns_opts [(node, 4096)]) /\ blocks (omem h') !! 4096 = None /\
       hs' = [SysClose 7; SysSetsockopt 7 SOL_SOCKET MSG_NOSIGNAL; SysAccept 5]) /\
    (Dropped = Dropped -> tcp_destroy sample_sys no_nested 400 (mk_sst 0 NULL [] h' hs') = Ub).
Proof.
  apply (tcp_accept_keeps_none sample_sys no_nested server_heap 100 400 3000 5 16 [] 0 NULL [] [] server_heap_ok server_serving).
Defined.

(** The whole run: the connection is gone, the server cannot be destroyed. *)
Definition accept_then_destroy : M sst Z := r ← tcp_accept sample_sys 100; _ ← tcp_destroy sample_sys no_nested 400; mret r.
Lemma accept_breaks_server : accept_then_destroy (mk_sst 0 NULL [] server_heap []) = Ub.
Proof. by vm_compute. Qed.

(** With memory for the connection and none for its node, it is returned. *)
Lemma accept_unlinked_returned :
  match tcp_accept sample_sys 100 (mk_sst 0 NULL [] (KList.mk_st (guards server_heap)
      (mk_mem (blocks (omem server_heap)) 4096 [false; true]) None) []) with
  | Ok (r, s) => r = 4096 /\ hist s = [SysSetsockopt 7 SOL_SOCKET MSG_NOSIGNAL; SysAccept 5]
  | _ => False
  end.
Proof. by vm_compute. Qed.

(** A [recv] on a type that is not registered answers with a positive number,
    as if two bytes had come. *)
Lemma recv_unknown_looks_received sys user : exists s a,
  kylin_socket_recv sys user a 0 (0, 0) 10 s = Ok (2, s).
Proof.
  exists (mk_sst 0 NULL init_splugin (KList.mk_st ∅ (mk_mem {[100 := socket_block 0 KYLIN_SOCK_CLIENT_UNIX (replicate 124 0) 0]} 4096 []) None) []), 100.
  by vm_compute.
Qed.
