(* ===== verification/Usock.v ===== *)
(** * Requests over Unix sockets ([lib/core/ipc/usock])

    The server with its two event loops and its table of servers
    ([kylin_usock_server.c]), the client with its table of clients
    ([kylin_usock_client.c]).

    Sockets are those of [Socket], event loops those of [Event], tables those of
    [Rb] and queues those of [KList]; they share one heap, and the copies of the
    heap in the states of the first two are not looked at.  The functions of a
    server are arguments, and so are [pthread_create] and what lies in a
    variable that is not initialised. *)

From S2P Require Import Prelude Errors Bytes Locks Mem MathVal KSet KList Plugin Rb RbHeader Event Socket.

Definition KYLIN_NAME_LENGTH : nat := 64.
Definition KYLIN_USOCK_PDU_PAYLOAD_MAX : Z := 65535.
(** "/var/ipc/usock/" *)
Definition KYLIN_USOCK_LOCAL : list Z := [47; 118; 97; 114; 47; 105; 112; 99; 47; 117; 115; 111; 99; 107; 47].
Definition USOCK_PDU_VERSION : Z := 1.
Definition USOCK_PDU_TYPE_REQUEST : Z := 1.
Definition AF_UNIX : Z := 1.

Record ust := mk_ust {
  usocks : sst;
  uevents : est;
  uheap : KList.st;
  serv_rb : option krb_t;
  cli_rb : option krb_t;
  accept_event : Z;
  process_event : Z;
  acpt_priv : Z;
  proc_priv : Z;
  chmods : list (list Z * Z);
}.

Definition with_heap (s : ust) (h : KList.st) : ust :=
  mk_ust (usocks s) (uevents s) h (serv_rb s) (cli_rb s) (accept_event s) (process_event s) (acpt_priv s) (proc_priv s)
    (chmods s).

#[export] Instance ust_mem : HasMem ust.
Proof.
  refine {| mem_of s := KList.omem (uheap s);
            with_mem s m := with_heap s (KList.mk_st (KList.guards (uheap s)) m (KList.kerrno (uheap s))) |};
    by intros [??[]].
Defined.

Definition lift {A} (o : outcome A) : M ust A := fun s =>
  match o with Ok a => Ok (a, s) | Ub => Ub | OutOfFuel => OutOfFuel end.

Definition on_list {A} (f : M KList.st A) : M ust A := fun s =>
  match f (uheap s) with Ok (x, h) => Ok (x, with_heap s h) | Ub => Ub | OutOfFuel => OutOfFuel end.

Definition on_socket {A} (f : M sst A) : M ust A := fun s =>
  let t := usocks s in
  match f (mk_sst (sid t) (slist t) (splugin t) (uheap s) (Socket.hist t)) with
  | Ok (x, t) =>
      Ok (x, mk_ust t (uevents s) (sheap t) (serv_rb s) (cli_rb s) (accept_event s) (process_event s) (acpt_priv s)
               (proc_priv s) (chmods s))
  | Ub => Ub
  | OutOfFuel => OutOfFuel
  end.

Definition on_event {A} (f : M est A) : M ust A := fun s =>
  let t := uevents s in
  match f (mk_est (eid t) (elist t) (eplugin t) (uheap s) (sets t) (ehist t)) with
  | Ok (x, t) =>
      Ok (x, mk_ust (usocks s) t (eheap t) (serv_rb s) (cli_rb s) (accept_event s) (process_event s) (acpt_priv s)
               (proc_priv s) (chmods s))
  | Ub => Ub
  | OutOfFuel => OutOfFuel
  end.

(** A function on a tree, with the heap the tree is in. *)
Definition on_tree {A} (g : option krb_t) (f : M Rb.st A) (h : KList.st) : outcome (A * krb_t * KList.st) :=
  match g with
  | Some g => '(x, r) ← f (Rb.mk_st g (KList.omem h) (KList.kerrno h)); Ok (x, Rb.guard r, KList.mk_st (KList.guards h) (Rb.omem r) (Rb.kerrno r))
  | None => Ub
  end.
Definition on_serv {A} (f : M Rb.st A) : M ust A := fun s =>
  '(x, g, h) ← on_tree (serv_rb s) f (uheap s);
  Ok (x, mk_ust (usocks s) (uevents s) h (Some g) (cli_rb s) (accept_event s) (process_event s) (acpt_priv s)
           (proc_priv s) (chmods s)).
Definition on_cli {A} (f : M Rb.st A) : M ust A := fun s =>
  '(x, g, h) ← on_tree (cli_rb s) f (uheap s);
  Ok (x, mk_ust (usocks s) (uevents s) h (serv_rb s) (Some g) (accept_event s) (process_event s) (acpt_priv s)
           (proc_priv s) (chmods s)).

(** ** Structures: [kusock_client_t], [kusock_server_t], [usock_accept_t],
    [usock_pdu_hdr_t], which is packed *)
Definition CL_FD : field := (0, 4).
Definition CL_SOCK : field := (8, 8).
Definition CL_LOCK : field := (16, 4).
Definition CL_NAME : Z := 20.
Definition sizeof_client : Z := 88.
Definition SV_NAME : Z := 0.
Definition SV_SOCK : field := (64, 8).
Definition SV_FD : field := (72, 4).
Definition SV_ACPT_Q : field := (80, 8).
Definition SV_LOCK : field := (88, 4).
Definition SV_INIT : field := (96, 8).
Definition SV_FINI : field := (104, 8).
Definition SV_PROC : field := (112, 8).
Definition sizeof_server : Z := 120.
Definition AC_FD : field := (0, 4).
Definition AC_SOCK : field := (8, 8).
Definition AC_POS : field := (16, 4).
Definition AC_PDU : field := (24, 8).
Definition AC_SERVER : field := (32, 8).
Definition sizeof_accept : Z := 40.
Definition H_LEN : field := (2, 2).
Definition H_CMD : field := (4, 4).
Definition H_ERR : field := (8, 4).
Definition sizeof_hdr : Z := 12.
Definition PDU_DATA : Z := 12.

Definition uget (f : field) (a : Z) : M ust Z := on_mem (get_field f a).
Definition uput (f : field) (a v : Z) : M ust unit := on_mem (put_field f a v).
Definition uget_int (f : field) (a : Z) : M ust Z := v ← uget f a; mret (s32 v).

(** The local variables whose address is taken. *)
Definition STACK_OPTS : Z := 2 ^ 63 + 8192.
Definition STACK_HDR : Z := 2 ^ 63 + 12288.
Definition STACK_CMP : Z := 2 ^ 63 + 16384.
Definition STACK_ACPT : Z := 2 ^ 63 + 20480.

Definition vptr_addr (v : vptr Z) : Z := match v with PObj a => a | PSlot _ => NULL end.

(** Two descriptors; where an object has been freed the C functions are
    undefined and these give 0. *)
Definition compare_field (f : field) (g : Z -> Z) (m : mem) (v1 v2 : Z) : Z :=
  match get_field f v1 m, get_field f v2 m with
  | Ok (x, _), Ok (y, _) => if g y <? g x then 1 else if g x <? g y then -1 else 0
  | _, _ => 0
  end.
Definition __serv_compare : mem -> Z -> Z -> Z := compare_field SV_FD s32.
Definition __cli_compare : mem -> Z -> Z -> Z := compare_field CL_FD s32.
Definition __accept_node_match : mem -> Z -> Z -> Z := compare_field AC_SOCK (fun x => x).

Definition usock_serv_opts : krb_opts_t :=
  mk_krb_opts KOBJ_OTHERS sizeof_server __serv_compare None None None None (0, 0, 0, 0).
Definition usock_cli_opts : krb_opts_t :=
  mk_krb_opts KOBJ_OTHERS sizeof_client __cli_compare None None None None (0, 0, 0, 0).
Definition acpt_opts : klist_opts_t :=
  mk_klist_opts KOBJ_OTHERS sizeof_accept __accept_node_match (Some kylin_malloc) None None None (NULL, NULL, 0).

(** "%s/%s" *)
Definition sun_path (name : list Z) : list Z := KYLIN_USOCK_LOCAL ++ 47 :: name.
(** The 110 bytes of the address, of which [junk] was never written. *)
Definition sockaddr_un (junk name : list Z) : list Z :=
  let w := le_bytes 2 AF_UNIX ++ sun_path name ++ [0] in take 110 (w ++ drop (length w) junk).
(** [ksock_opts_t]: the type, then the client's or the server's member. *)
Definition client_opts (junk name : list Z) : list Z :=
  let b := le_bytes 4 SOCK_STREAM ++ le_bytes 4 (2 + Z.of_nat (length (sun_path name)) + 1) ++ sockaddr_un junk name in
  b ++ replicate (Z.to_nat Socket.sizeof_opts - length b) 0.
Definition server_opts (junk name : list Z) : list Z :=
  let b := le_bytes 4 SOCK_STREAM ++ le_bytes 4 20 ++ le_bytes 4 (2 + Z.of_nat (length (sun_path name)) + 1) ++
           sockaddr_un junk name in
  b ++ replicate (Z.to_nat Socket.sizeof_opts - length b) 0.

Record functions := mk_functions {
  run_init : Z -> Z -> M ust unit;
  run_proc : Z -> Z -> Z -> Z * Z -> M ust Z;
  pthread_create : Z;
  junk : list Z;
}.

Section Usock.
Context (net : Socket.system) (ev : Event.system) (nested : nested_dtors) (su : Socket.user_ops) (eu : Event.user_ops).
Context (fns : functions).

Definition socket_recv (sock fd : Z) (buf : Z * Z) (len : Z) : M ust Z :=
  r ← on_socket (kylin_socket_recv net su sock fd buf (u64 len)); mret (s32 r).
Definition socket_send (sock fd : Z) (buf : Z * Z) (len : Z) : M ust Z :=
  r ← on_socket (kylin_socket_send net su sock fd buf (u64 len)); mret (s32 r).
Definition errno_now : M ust Z := on_socket (fun t => Ok (Socket.errno net (Socket.hist t), t)).

(** [kylin_spinlock_lock] with nobody else running; a lock that is held is
    never obtained. *)
Definition spin_lock (f : field) (a : Z) : M ust unit :=
  sl ← uget f a; sl ← lift (spin_alone 2 SXchg sl); uput f a sl.
Definition spin_unlock (f : field) (a : Z) : M ust unit := sl ← uget f a; uput f a (kylin_spinlock_unlock sl).

(** ** The client *)
Definition client_error (cli : Z) : M ust Z :=
  sock ← uget CL_SOCK cli;
  _ ← (if negb (sock =? NULL) then on_socket (kylin_socket_destroy net nested su sock) else mret tt);
  _ ← on_mem (kylin_free cli);
  mret NULL.

Definition kylin_usock_client_open (name : Z) : M ust Z :=
  s ← on_mem (load_string name 0);
  if (KYLIN_NAME_LENGTH <? length s)%nat then mret NULL else
  cli ← on_mem (kylin_malloc sizeof_client);
  if cli =? NULL then mret NULL else
  sock ← local STACK_OPTS (client_opts (junk fns) s) (on_socket (kylin_socket_create net nested su KYLIN_SOCK_CLIENT_UNIX STACK_OPTS));
  _ ← uput CL_SOCK cli sock;
  if sock =? NULL then client_error cli else
  fd ← on_socket (kylin_socket_get_fd su sock);
  _ ← uput CL_FD cli fd;
  if fd =? -1 then client_error cli else
  ret ← on_socket (kylin_socket_connect net su sock);
  if negb (ret =? KOK) then client_error cli else
  _ ← on_mem (store_at cli CL_NAME s);
  _ ← uput CL_LOCK cli 0;
  v ← on_cli (kylin_rb_insert nested cli);
  if vptr_addr v =? NULL then client_error cli else mret cli.

Definition kylin_usock_client_close (cli : Z) : M ust unit :=
  sock ← uget CL_SOCK cli;
  _ ← on_socket (kylin_socket_destroy net nested su sock);
  on_cli (kylin_rb_remove nested cli).

(** The bytes of a header. *)
Definition hdr_bytes (version type len cmd err : Z) : list Z :=
  le_bytes 1 version ++ le_bytes 1 type ++ le_bytes 2 len ++ le_bytes 4 cmd ++ le_bytes 4 err.

Definition __send_request_pdu (cli cmd data length : Z) : M ust Z :=
  if KYLIN_USOCK_PDU_PAYLOAD_MAX <? length then mret (kerr_code KYLIN_ERROR_2BIG) else
  let hlen := u16 (if data =? NULL then 0 else length) in
  local STACK_HDR (hdr_bytes USOCK_PDU_VERSION USOCK_PDU_TYPE_REQUEST hlen cmd KOK)
    (sock ← uget CL_SOCK cli;
     fd ← uget_int CL_FD cli;
     len ← socket_send sock fd (STACK_HDR, 0) sizeof_hdr;
     if negb (len =? sizeof_hdr) then errno_now else
     if 0 <? hlen then
       sock ← uget CL_SOCK cli;
       fd ← uget_int CL_FD cli;
       len ← socket_send sock fd (data, 0) hlen;
       if negb (len =? hlen) then errno_now else mret KOK
     else mret KOK).

Definition __recv_response_pdu (cli data : Z) : M ust Z :=
  local STACK_HDR (take 12 (junk fns))
    (sock ← uget CL_SOCK cli;
     fd ← uget_int CL_FD cli;
     len ← socket_recv sock fd (STACK_HDR, 0) sizeof_hdr;
     if negb (len =? sizeof_hdr) then mret (kerr_code KYLIN_ERROR_INVAL) else
     err ← uget_int H_ERR STACK_HDR;
     if negb (err =? KOK) then mret err else
     hlen ← uget H_LEN STACK_HDR;
     sock ← uget CL_SOCK cli;
     fd ← uget_int CL_FD cli;
     len ← socket_recv sock fd (data, 0) hlen;
     if negb (len =? hlen) then errno_now else mret KOK).

(** [(cmd & ~IOC_DIRMASK) >> 16], the mask being 32 bits wide. *)
Definition IOC_DIRMASK : Z := 0xe0000000.
Definition request_len (cmd : Z) : Z := s32 (Z.shiftr (Z.land (u64 cmd) (u32 (- IOC_DIRMASK - 1))) 16).

Definition kylin_usock_client_request (cli cmd data : Z) : M ust Z :=
  _ ← spin_lock CL_LOCK cli;
  ret ← __send_request_pdu cli (u32 cmd) data (request_len cmd);
  ret ← (if ret =? KOK then __recv_response_pdu cli data else mret ret);
  _ ← spin_unlock CL_LOCK cli;
  mret ret.

Definition set_cli_rb (g : option krb_t) (h : KList.st) : M ust unit := fun s =>
  Ok (tt, mk_ust (usocks s) (uevents s) h (serv_rb s) g (accept_event s) (process_event s) (acpt_priv s) (proc_priv s)
            (chmods s)).
Definition set_serv_rb (g : option krb_t) (h : KList.st) : M ust unit := fun s =>
  Ok (tt, mk_ust (usocks s) (uevents s) h g (cli_rb s) (accept_event s) (process_event s) (acpt_priv s) (proc_priv s)
            (chmods s)).
(** [kylin_rb_create] on the heap: the tree, and the heap after it. *)
Definition rb_create (opts : krb_opts_t) (h : KList.st) : option krb_t * KList.st :=
  let '(g, m, e) := kylin_rb_create opts (KList.omem h) in
  (g, KList.mk_st (KList.guards h) m (match e with Some e => Some e | None => KList.kerrno h end)).

Definition client_init : M ust kerr_t :=
  s ← get_st;
  let '(g, h) := rb_create usock_cli_opts (uheap s) in
  _ ← set_cli_rb g h;
  match g with Some _ => mret KYLIN_ERROR_OK | None => mret KYLIN_ERROR_NOMEM end.
Definition client_fini : M ust unit :=
  s ← get_st; match cli_rb s with Some _ => on_cli (kylin_rb_destroy nested) | None => mret tt end.

(** ** The server *)
Definition get_accept_event : M ust Z := fun s => Ok (accept_event s, s).
Definition get_process_event : M ust Z := fun s => Ok (process_event s, s).
Definition chmod (path : list Z) (mode : Z) : M ust unit := fun s =>
  Ok (tt, mk_ust (usocks s) (uevents s) (uheap s) (serv_rb s) (cli_rb s) (accept_event s) (process_event s) (acpt_priv s)
            (proc_priv s) (chmods s ++ [(path, mode)])).
(** rwxrwxrwx *)
Definition ALL_MODES : Z := 0x1ff.

Definition server_error (serv : Z) : M ust Z :=
  q ← uget SV_ACPT_Q serv;
  _ ← (if negb (q =? NULL) then on_list (kylin_list_destroy nested q) else mret tt);
  sock ← uget SV_SOCK serv;
  _ ← (if negb (sock =? NULL) then on_socket (kylin_socket_destroy net nested su sock) else mret tt);
  fd ← uget_int SV_FD serv;
  _ ← (if negb (fd =? 0) then
         ae ← get_accept_event; _ ← on_event (kylin_event_del ev eu ae fd KEVENT_FLAG_READ); mret tt
       else mret tt);
  _ ← on_mem (kylin_free serv);
  mret NULL.

Definition kylin_usock_server_create (name mode init fini proc : Z) : M ust Z :=
  s ← on_mem (load_string name 0);
  if (KYLIN_NAME_LENGTH <? length s)%nat then mret NULL else
  _ ← chmod (sun_path s) (if negb (mode =? 0) then mode else ALL_MODES);
  serv ← on_mem (kylin_malloc sizeof_server);
  if serv =? NULL then mret NULL else
  sock ← local STACK_OPTS (server_opts (junk fns) s) (on_socket (kylin_socket_create net nested su KYLIN_SOCK_SERVER_UNIX STACK_OPTS));
  _ ← uput SV_SOCK serv sock;
  if sock =? NULL then server_error serv else
  fd ← on_socket (kylin_socket_get_fd su sock);
  _ ← uput SV_FD serv fd;
  if fd =? -1 then server_error serv else
  ae ← get_accept_event;
  ret ← on_event (kylin_event_add ev eu ae fd KEVENT_FLAG_READ);
  if negb (ret =? KOK) then server_error serv else
  q ← on_list (kylin_list_create acpt_opts);
  _ ← uput SV_ACPT_Q serv q;
  if q =? NULL then server_error serv else
  _ ← on_mem (store_at serv SV_NAME s);
  _ ← uput SV_LOCK serv 0;
  _ ← uput SV_INIT serv init;
  _ ← uput SV_FINI serv fini;
  _ ← uput SV_PROC serv proc;
  v ← on_serv (kylin_rb_insert nested serv);
  if vptr_addr v =? NULL then server_error serv else
  _ ← (if negb (init =? NULL) then run_init fns init serv else mret tt);
  mret serv.

Definition kylin_usock_server_destroy (serv : Z) : M ust unit :=
  q ← uget SV_ACPT_Q serv;
  _ ← on_list (kylin_list_destroy nested q);
  sock ← uget SV_SOCK serv;
  _ ← on_socket (kylin_socket_destroy net nested su sock);
  on_serv (kylin_rb_remove nested serv).

(** The thread of the server, which runs no loop. *)
Definition __server_event_process : Z := NULL.

(** [memcpy] of a whole structure between two objects. *)
Definition copy_object (dst src n : Z) : M ust unit := bs ← on_mem (load_at src 0 n); on_mem (store_at dst 0 bs).

(** The server of a descriptor: the one of the last call, or the one in the
    table, which is copied for the next call; the address of the server, NULL
    if there is none. *)
Definition serv_cmp (fd : Z) : list Z := replicate 72 0 ++ le_bytes 4 fd ++ replicate 44 0.
Definition server_of (fd priv : Z) : M ust Z :=
  f ← uget_int SV_FD priv;
  if f =? fd then mret priv else
  v ← local STACK_CMP (serv_cmp fd) (on_serv (kylin_rb_find STACK_CMP));
  if vptr_addr v =? NULL then mret NULL else
  _ ← copy_object priv (vptr_addr v) sizeof_server;
  mret (vptr_addr v).

Definition ALL_FLAGS : Z := Z.lor (Z.lor KEVENT_FLAG_READ KEVENT_FLAG_WRITE) KEVENT_FLAG_ERROR.
Definition READ_WRITE : Z := Z.lor (Z.lor KEVENT_FLAG_READ KEVENT_FLAG_WRITE) KEVENT_FLAG_WRITE.

(** The connection is queued; every way ends at the label [error]. *)
Definition queue_connection (serv conn : Z) : M ust unit :=
  fd ← uget_int C_FD conn;
  pe ← get_process_event;
  ret ← on_event (kylin_event_add ev eu pe fd ALL_FLAGS);
  if negb (ret =? KOK) then mret tt else
  fd ← uget_int C_FD conn;
  sock ← uget C_SOCK conn;
  pdu ← on_mem (kylin_malloc (sizeof_hdr + KYLIN_USOCK_PDU_PAYLOAD_MAX));
  if pdu =? NULL then
    fd ← uget_int C_FD conn; _ ← on_event (kylin_event_del ev eu pe fd READ_WRITE); mret tt
  else
    q ← uget SV_ACPT_Q serv;
    let acpt := le_bytes 4 fd ++ replicate 4 0 ++ le_bytes 8 sock ++ replicate 8 0 ++ le_bytes 8 pdu ++ le_bytes 8 serv in
    v ← local STACK_ACPT acpt (on_list (kylin_list_insert_head q STACK_ACPT));
    if vptr_addr v =? NULL then
      fd ← uget_int C_FD conn; _ ← on_event (kylin_event_del ev eu pe fd READ_WRITE); mret tt
    else mret tt.

Definition __server_accept (fd priv : Z) : M ust unit :=
  serv ← server_of fd priv;
  if serv =? NULL then mret tt else
  sock ← uget SV_SOCK serv;
  conn ← on_socket (kylin_socket_accept net su sock);
  if conn =? NULL then mret tt else
  _ ← queue_connection serv conn;
  sock ← uget SV_SOCK serv;
  on_socket (kylin_socket_connection_destroy net su sock conn).

(** [KYLIN_LIST_FOREACH] and [KYLIN_RB_FOREACH] of [__accept_node_find]: the last
    connection looked at, and whether it is the one sought. *)
Fixpoint search_list (fuel : nat) (q node acpt fd : Z) : M ust (Z * bool) :=
  match fuel with
  | O => out_of_fuel
  | S fuel =>
      if node =? NULL then mret (acpt, false) else
      v ← on_list (kylin_list_val q node);
      f ← uget_int AC_FD (vptr_addr v);
      if f =? fd then mret (vptr_addr v, true) else
      next ← on_list (kylin_list_next node);
      search_list fuel q next (vptr_addr v) fd
  end.
Fixpoint search_servers (fuel : nat) (node acpt fd : Z) : M ust (Z * bool) :=
  match fuel with
  | O => out_of_fuel
  | S fuel =>
      if node =? NULL then mret (acpt, false) else
      v ← on_serv (kylin_rb_val node);
      q ← uget SV_ACPT_Q (vptr_addr v);
      first ← on_list (kylin_list_first q);
      s ← get_st;
      r ← search_list (KList.fuel_of (uheap s)) q first acpt fd;
      if r.2 : bool then mret r else
      next ← on_serv (kylin_rb_next node);
      search_servers fuel (vptr_addr next) r.1 fd
  end.

Definition __accept_node_find (fuel : nat) (fd priv : Z) : M ust Z :=
  f ← uget_int AC_FD priv;
  if f =? fd then mret priv else
  node ← on_serv kylin_rb_min;
  r ← search_servers fuel node priv fd;
  if r.2 : bool then _ ← copy_object priv r.1 sizeof_accept; mret r.1 else
  f ← uget_int AC_FD r.1;
  if negb (f =? fd) then mret NULL else mret r.1.

Definition clear_pdu (acpt : Z) : M ust unit :=
  pdu ← uget AC_PDU acpt;
  on_mem (store_at pdu 0 (replicate (Z.to_nat (sizeof_hdr + KYLIN_USOCK_PDU_PAYLOAD_MAX)) 0)).
Definition __server_process_error (fuel : nat) (fd priv : Z) : M ust unit :=
  acpt ← __accept_node_find fuel fd priv; if acpt =? NULL then mret tt else clear_pdu acpt.
Definition __server_process_timeout (fuel : nat) (fd priv : Z) : M ust unit :=
  acpt ← __accept_node_find fuel fd priv; if acpt =? NULL then mret tt else clear_pdu acpt.

(** [acpt->pdu + pos]: a pointer to structures of 12 bytes. *)
Definition pdu_at (pdu pos : Z) : Z * Z := (pdu, sizeof_hdr * pos).

(** [do ... while(acpt->pdu_pos < end)]: whether an error came first. *)
Fixpoint recv_until (fuel : nat) (acpt fd last : Z) : M ust bool :=
  match fuel with
  | O => out_of_fuel
  | S fuel =>
      sock ← uget AC_SOCK acpt; pdu ← uget AC_PDU acpt; pos ← uget_int AC_POS acpt;
      n ← socket_recv sock fd (pdu_at pdu pos) (s32 (last - pos));
      if n =? -1 then mret false else
      pos ← uget_int AC_POS acpt;
      _ ← uput AC_POS acpt (pos + n);
      pos ← uget_int AC_POS acpt;
      if pos <? last then recv_until fuel acpt fd last else mret true
  end.
(** [do ... while(acpt->pdu_pos > 0)] *)
Fixpoint send_all (fuel : nat) (acpt fd last : Z) : M ust bool :=
  match fuel with
  | O => out_of_fuel
  | S fuel =>
      sock ← uget AC_SOCK acpt; pdu ← uget AC_PDU acpt; pos ← uget_int AC_POS acpt;
      n ← socket_send sock fd (pdu_at pdu (last - pos)) pos;
      if n =? -1 then mret false else
      pos ← uget_int AC_POS acpt;
      _ ← uput AC_POS acpt (pos - n);
      pos ← uget_int AC_POS acpt;
      if 0 <? pos then send_all fuel acpt fd last else mret true
  end.

Definition answer_request (fuel : nat) (fd priv acpt payload_len : Z) : M ust unit :=
  serv ← uget AC_SERVER acpt;
  proc ← uget SV_PROC serv;
  pdu ← uget AC_PDU acpt;
  cmd ← uget H_CMD pdu;
  err ← run_proc fns proc serv cmd (pdu, PDU_DATA);
  pdu ← uget AC_PDU acpt;
  _ ← uput H_ERR pdu err;
  sent ← send_all fuel acpt fd payload_len;
  if sent : bool then mret tt else __server_process_error fuel fd priv.

Definition __server_process (fuel : nat) (fd priv : Z) : M ust unit :=
  acpt ← __accept_node_find fuel fd priv;
  if acpt =? NULL then mret tt else
  got ← recv_until fuel acpt fd sizeof_hdr;
  if negb got then __server_process_error fuel fd priv else
  pdu ← uget AC_PDU acpt;
  hlen ← uget H_LEN pdu;
  if KYLIN_USOCK_PDU_PAYLOAD_MAX <=? hlen then __server_process_error fuel fd priv else
  if negb (hlen =? 0) then
    got ← recv_until fuel acpt fd (hlen + sizeof_hdr);
    if negb got then __server_process_error fuel fd priv else answer_request fuel fd priv acpt (hlen + sizeof_hdr)
  else answer_request fuel fd priv acpt sizeof_hdr.

Definition set_privs (a p : Z) : M ust unit := fun s =>
  Ok (tt, mk_ust (usocks s) (uevents s) (uheap s) (serv_rb s) (cli_rb s) (accept_event s) (process_event s) a p (chmods s)).
Definition set_events (a p : Z) : M ust unit := fun s =>
  Ok (tt, mk_ust (usocks s) (uevents s) (uheap s) (serv_rb s) (cli_rb s) a p (acpt_priv s) (proc_priv s) (chmods s)).

(** The options of the two loops; the addresses of the handlers. *)
Definition ACCEPT_HANDLER : Z := 1.
Definition PROCESS_HANDLER : Z := 2.
Definition ERROR_HANDLER : Z := 3.
Definition TIMEOUT_HANDLER : Z := 4.
Definition acpt_event_opts (priv : Z) : list Z :=
  le_bytes 8 priv ++ le_bytes 8 ACCEPT_HANDLER ++ le_bytes 8 NULL ++ le_bytes 8 NULL ++ le_bytes 8 NULL.
Definition proc_event_opts (priv : Z) : list Z :=
  le_bytes 8 priv ++ le_bytes 8 PROCESS_HANDLER ++ le_bytes 8 NULL ++ le_bytes 8 ERROR_HANDLER ++ le_bytes 8 TIMEOUT_HANDLER.

Definition server_init : M ust Z :=
  a ← on_mem (kylin_malloc sizeof_server);
  p ← on_mem (kylin_malloc sizeof_accept);
  _ ← set_privs a p;
  if (a =? NULL) || (p =? NULL) then mret (kerr_code KYLIN_ERROR_NOMEM) else
  ae ← local STACK_OPTS (acpt_event_opts a) (on_event (kylin_event_create ev nested eu KEVENT_TYPE_EPOLL STACK_OPTS));
  pe ← local STACK_OPTS (proc_event_opts p) (on_event (kylin_event_create ev nested eu KEVENT_TYPE_EPOLL STACK_OPTS));
  _ ← set_events ae pe;
  if (ae =? NULL) || (pe =? NULL) then mret (kerr_code KYLIN_ERROR_NOENT) else
  s ← get_st;
  let '(g, h) := rb_create usock_serv_opts (uheap s) in
  _ ← set_serv_rb g h;
  match g with Some _ => mret (pthread_create fns) | None => mret (kerr_code KYLIN_ERROR_NOMEM) end.

Definition server_fini : M ust unit :=
  s ← get_st;
  _ ← match serv_rb s with Some _ => on_serv (kylin_rb_destroy nested) | None => mret tt end;
  _ ← (if negb (acpt_priv s =? NULL) then on_mem (kylin_free (acpt_priv s)) else mret tt);
  _ ← (if negb (proc_priv s =? NULL) then on_mem (kylin_free (proc_priv s)) else mret tt);
  _ ← (if negb (accept_event s =? NULL) then on_event (kylin_event_destroy ev nested eu (accept_event s)) else mret tt);
  if negb (process_event s =? NULL) then on_event (kylin_event_destroy ev nested eu (process_event s)) else mret tt.

Definition kylin_usock_init : M ust Z :=
  ret ← server_init;
  if negb (ret =? KOK) then mret ret else
  ret ← client_init; mret (kerr_code ret).
Definition kylin_usock_fini : M ust unit := _ ← client_fini; server_fini.
End Usock.

(** ** The table of servers is never searched *)
Definition no_first (s : ust) : Prop := exists g, serv_rb s = Some g /\ object_tree (opts g) /\ rb_min g = NULL.
Definition never_first {A} (f : M ust A) : Prop := forall s r s', no_first s -> f s = Ok (r, s') -> no_first s'.

Lemma table_ret {A} (x : A) : never_first (mret x).
Proof. by intros s r s' H [= _ <-]. Qed.
Lemma table_bind {A B} (f : M ust A) (g : A -> M ust B) :
  never_first f -> (forall x, never_first (g x)) -> never_first (f ≫= g).
Proof. intros Hf Hg s r s' H E. apply bind_Ok_inv in E as (x & s1 & E1 & E2). eapply Hg, E2. by eapply Hf. Qed.
(** A step that leaves the table alone. *)
Lemma table_keeps {A} (f : M ust A) : (forall s r s', f s = Ok (r, s') -> serv_rb s' = serv_rb s) -> never_first f.
Proof. intros Hf s r s' (g & Hg & H) E. exists g. by rewrite (Hf _ _ _ E). Qed.
Ltac keeps := apply table_keeps; intros s r s' E.
Lemma table_on_mem {A} (f : M mem A) : never_first (on_mem f).
Proof. keeps. unfold on_mem in E. destruct (f _) as [[x m]| |]; by simplify_eq/=. Qed.
Lemma table_on_list {A} (f : M KList.st A) : never_first (on_list f).
Proof. keeps. unfold on_list in E. destruct (f _) as [[x m]| |]; by simplify_eq/=. Qed.
Lemma table_on_socket {A} (f : M sst A) : never_first (on_socket f).
Proof. keeps. unfold on_socket in E. destruct (f _) as [[x m]| |]; by simplify_eq/=. Qed.
Lemma table_on_event {A} (f : M est A) : never_first (on_event f).
Proof. keeps. unfold on_event in E. destruct (f _) as [[x m]| |]; by simplify_eq/=. Qed.
Lemma table_lift {A} (o : outcome A) : never_first (lift o).
Proof. keeps. unfold lift in E. destruct o; by simplify_eq/=. Qed.
Lemma table_on_cli {A} (f : M Rb.st A) : never_first (on_cli f).
Proof.
  keeps. unfold on_cli in E. destruct (on_tree _ _ _) as [[[x g] h]| |]; [|done..]. by injection E as _ <-.
Qed.
Lemma table_on_serv {A} (f : M Rb.st A) : header_kept f -> never_first (on_serv f).
Proof.
  intros Hf s r s' (g & Hg & Ho & Hm) E. unfold on_serv, on_tree in E. rewrite Hg in E.
  destruct (f _) as [[x r']| |] eqn:Ef; [|done..]. injection E as _ <-.
  pose proof (Hf _ _ _ Ef) as Eh. eexists. split; [done|].
  pose proof (f_equal (fun h => h.1.1.1) Eh) as E1. pose proof (f_equal (fun h => h.1.2) Eh) as E2. simpl in E1, E2.
  split; [by rewrite E1|by rewrite E2].
Qed.
Lemma table_local {A} a bs (f : M ust A) : never_first f -> never_first (local a bs f).
Proof.
  intros Hf s r s' (g & Hg & H) E. unfold local in E. destruct (f _) as [[x s1]| |] eqn:Ef; [|done..].
  injection E as _ <-. assert (H1 : no_first s1) by (eapply Hf, Ef; by exists g).
  destruct H1 as (g1 & H1). by exists g1.
Qed.
Lemma table_get_st : never_first get_st.
Proof. by intros s r s' H [= _ <-]. Qed.
Lemma table_out_of_fuel {A} : never_first (@out_of_fuel ust A).
Proof. by intros s r s' H E. Qed.
Lemma table_ub {A} : never_first (@ub ust A).
Proof. by intros s r s' H E. Qed.
Lemma table_chmod path mode : never_first (chmod path mode).
Proof. keeps. by injection E as _ <-. Qed.
Lemma table_get_ae : never_first get_accept_event.
Proof. keeps. by injection E as _ <-. Qed.
Lemma table_get_pe : never_first get_process_event.
Proof. keeps. by injection E as _ <-. Qed.

Create HintDb usock_table.
#[export] Hint Resolve table_ret table_on_mem table_on_list table_on_socket table_on_event table_lift table_on_cli table_get_st table_out_of_fuel table_ub
  table_chmod table_get_ae table_get_pe : usock_table.
#[export] Hint Extern 1 (never_first (on_serv _)) => apply table_on_serv; solve [auto with header] : usock_table.
#[export] Hint Extern 1 (never_first (uget _ _)) => apply table_on_mem : usock_table.
#[export] Hint Extern 1 (never_first (uput _ _ _)) => apply table_on_mem : usock_table.
Ltac usock_table :=
  cbv zeta;
  repeat first
    [ solve [auto with usock_table]
    | apply table_local
    | apply table_bind; [|intros ?]
    | match goal with |- never_first (if ?b then _ else _) => destruct b end
    | match goal with |- never_first (match ?x with _ => _ end) => destruct x end ].

Section Users.
Context (net : Socket.system) (ev : Event.system) (nested : nested_dtors) (su : Socket.user_ops) (eu : Event.user_ops).
Context (fns : functions) (fuel : nat).
(** The functions of a server cannot reach the table, a static variable. *)
Context (Hinit : forall f serv, never_first (run_init fns f serv)).
Context (Hproc : forall f serv cmd data, never_first (run_proc fns f serv cmd data)).

Inductive usock_call :=
| ServerCreate (name mode init fini proc : Z) | ServerDestroy (serv : Z) | Accept (fd priv : Z) | ProcessRequest (fd priv : Z)
| ProcessError (fd priv : Z) | ProcessTimeout (fd priv : Z) | ClientOpen (name : Z) | ClientClose (cli : Z)
| Request (cli cmd data : Z).

Definition run_call (c : usock_call) : M ust unit :=
  match c with
  | ServerCreate name mode init fini proc => _ ← kylin_usock_server_create net ev nested su eu fns name mode init fini proc; mret tt
  | ServerDestroy serv => kylin_usock_server_destroy net nested su serv
  | Accept fd priv => __server_accept net ev su eu fd priv
  | ProcessRequest fd priv => __server_process net su fns fuel fd priv
  | ProcessError fd priv => __server_process_error fuel fd priv
  | ProcessTimeout fd priv => __server_process_timeout fuel fd priv
  | ClientOpen name => _ ← kylin_usock_client_open net nested su fns name; mret tt
  | ClientClose cli => kylin_usock_client_close net nested su cli
  | Request cli cmd data => _ ← kylin_usock_client_request net su fns cli cmd data; mret tt
  end.

Lemma table_search_list f q node acpt fd : never_first (search_list f q node acpt fd).
Proof using Type.
  revert node acpt. induction f as [|f IH]; intros node acpt; cbn [search_list]; unfold uget_int; usock_table.
Qed.
Local Hint Resolve table_search_list : usock_table.
Lemma table_search_servers f node acpt fd : never_first (search_servers f node acpt fd).
Proof using Type.
  revert node acpt. induction f as [|f IH]; intros node acpt; cbn [search_servers]; unfold kylin_rb_val; usock_table.
Qed.
Lemma table_recv_until f acpt fd last : never_first (recv_until net su f acpt fd last).
Proof using Type.
  induction f as [|f IH]; cbn [recv_until]; unfold uget_int, socket_recv; usock_table.
Qed.
Lemma table_send_all f acpt fd last : never_first (send_all net su f acpt fd last).
Proof using Type.
  induction f as [|f IH]; cbn [send_all]; unfold uget_int, socket_send; usock_table.
Qed.
Local Hint Resolve table_search_servers table_recv_until table_send_all : usock_table.

Lemma table_run_call c : never_first (run_call c).
Proof using Hinit Hproc.
  destruct c; cbn [run_call];
    unfold kylin_usock_server_create, kylin_usock_server_destroy, server_error, __server_accept, server_of, queue_connection,
      __server_process, __server_process_error, __server_process_timeout, answer_request, clear_pdu, __accept_node_find,
      copy_object, kylin_usock_client_open, client_error, kylin_usock_client_close, kylin_usock_client_request,
      __send_request_pdu, __recv_response_pdu, spin_lock, spin_unlock, errno_now, socket_recv, socket_send, uget_int;
    usock_table.
Qed.

Lemma table_run_all cs : never_first (run_all run_call cs).
Proof using Hinit Hproc.
  induction cs as [|c cs IH]; simpl; [usock_table|].
  apply table_bind; [apply table_run_call|]. intros r. apply table_bind; [done|]. intros rs. usock_table.
Qed.

(** The search from the first server ends at once. *)
Lemma node_find_none f fd priv g s : serv_rb s = Some g -> rb_min g = NULL ->
  uget_int AC_FD priv s = Ok (f, s) -> f <> fd -> __accept_node_find (S fuel) fd priv s = Ok (NULL, s).
Proof using Type.
  intros Hg Hm Ef Hne. unfold __accept_node_find. run Ef. rewrite (proj2 (Z.eqb_neq _ _) Hne).
  assert (E : on_serv kylin_rb_min s = Ok (NULL, s)).
  { unfold on_serv, on_tree. rewrite Hg. simpl. rewrite Hm, <- Hg. by destruct s as [? ? []]. }
  run E. cbn [search_servers]. change (NULL =? NULL) with true. cbv iota.
  run (eq_refl : (mret (priv, false) : M ust (Z * bool)) s = Ok ((priv, false), s)). cbn [snd fst]. run Ef.
  by rewrite (proj2 (Z.eqb_neq _ _) Hne).
Qed.
End Users.

Lemma usock_init_no_first ev nested eu fns s r s' : server_init ev nested eu fns s = Ok (r, s') -> pthread_create fns = KOK ->
  r = KOK -> no_first s'.
Proof.
  intros E Hp ->. unfold server_init in E.
  apply bind_Ok_inv in E as (a & s1 & _ & E). apply bind_Ok_inv in E as (p & s2 & _ & E).
  apply bind_Ok_inv in E as (u & s3 & _ & E). destruct (_ || _); [by injection E|].
  apply bind_Ok_inv in E as (ae & s4 & _ & E). apply bind_Ok_inv in E as (pe & s5 & _ & E).
  apply bind_Ok_inv in E as (u2 & s6 & _ & E). destruct (_ || _); [by injection E|].
  apply bind_Ok_inv in E as (s7 & s8 & E7 & E). injection E7 as <- <-.
  unfold rb_create, kylin_rb_create in E. destruct (alloc_addr _ _) as [[x|] m]; cbn in E; [|done].
  injection E as _ <-. eexists. split; [reflexivity|]. by split.
Qed.

(** C21. Requests are dropped.  From the initialisation of the server on,
    whatever servers, connections and requests there were, an event on a
    connection other than the one that is cached ends without an effect:
    nothing is received, no function of a server is called, nothing is sent and
    no message is cleared.  The table of servers is never searched, because it
    has no first element. *)
Theorem usock_requests_dropped net ev nested su eu fns fuel cs s0 s1 rs s2 fd f :
  (forall a serv, never_first (run_init fns a serv)) ->
  (forall a serv cmd data, never_first (run_proc fns a serv cmd data)) ->
  pthread_create fns = KOK -> server_init ev nested eu fns s0 = Ok (KOK, s1) ->
  run_all (run_call net ev nested su eu fns fuel) cs s1 = Ok (rs, s2) ->
  uget_int AC_FD (proc_priv s2) s2 = Ok (f, s2) -> f <> fd ->
  __server_process net su fns (S fuel) fd (proc_priv s2) s2 = Ok (tt, s2) /\
  __server_process_error (S fuel) fd (proc_priv s2) s2 = Ok (tt, s2) /\
  __server_process_timeout (S fuel) fd (proc_priv s2) s2 = Ok (tt, s2).
Proof.
  intros Hi Hp Hc Ei Er Ef Hne.
  assert (H : no_first s2) by (eapply table_run_all; [exact Hi|exact Hp| |exact Er]; by eapply usock_init_no_first).
  destruct H as (g & Hg & _ & Hm). pose proof (node_find_none fuel f fd _ g s2 Hg Hm Ef Hne) as E.
  split_and!; unfold __server_process, __server_process_error, __server_process_timeout; by run E.
Qed.


(** ** The client is never opened *)

(** The standard table has no plug-in for Unix clients: the socket is refused,
    and the state is as before. *)
Lemma client_socket_refused net nested su opts bs p s : splugin (usocks s) !! 18%nat = Some p ->
  p_type p = KYLIN_SOCK_MAX -> blocks (mem_of s) !! STACK_OPTS = None ->
  exists s', local STACK_OPTS bs (on_socket (kylin_socket_create net nested su KYLIN_SOCK_CLIENT_UNIX opts)) s = Ok (NULL, s') /\
    mem_of s' = mem_of s /\ Socket.hist (usocks s') = Socket.hist (usocks s) /\ cli_rb s' = cli_rb s.
Proof.
  intros Hp Ht Hs. unfold local, on_socket. cbn [usocks with_mem ust_mem with_heap].
  set (t := mk_sst _ _ _ _ _).
  assert (E : kylin_socket_create net nested su KYLIN_SOCK_CLIENT_UNIX opts t = Ok (NULL, t)).
  { unfold kylin_socket_create.
    assert (Ep : Socket.plugin_at KYLIN_SOCK_CLIENT_UNIX t = Ok (p, t)) by (unfold Socket.plugin_at, rd; change (splugin t) with (splugin (usocks s));
      change (Z.to_nat KYLIN_SOCK_CLIENT_UNIX) with 18%nat; by rewrite Hp).
    run Ep. by rewrite Ht. }
  rewrite E. eexists. split; [reflexivity|]. cbn. split; [|done].
  destruct (KList.omem (uheap s)) as [b k o] eqn:Em. cbn in *. rewrite Em in Hs. cbn in Hs. f_equal.
  by rewrite delete_insert_id.
Qed.

(** C22. With the standard table of sockets no client can be opened:
    [kylin_usock_client_open] gives back what it allocated and returns NULL
    without a system call, whatever the name. *)
Theorem usock_client_never_opens net nested su fns name str p s : splugin (usocks s) !! 18%nat = Some p ->
  p_type p = KYLIN_SOCK_MAX -> mem_ok (mem_of s) -> on_mem (load_string name 0) s = Ok (str, s) ->
  exists s', kylin_usock_client_open net nested su fns name s = Ok (NULL, s') /\
    blocks (mem_of s') = blocks (mem_of s) /\ Socket.hist (usocks s') = Socket.hist (usocks s) /\ cli_rb s' = cli_rb s.
Proof.
  intros Hp Ht Hm El. unfold kylin_usock_client_open. run El.
  destruct (_ <? _)%nat; [by exists s|].
  destruct (malloc_ok (mem_of s) sizeof_client Hm) as (a & m1 & Em & Hm1 & Ha).
  assert (E1 : on_mem (kylin_malloc sizeof_client) s = Ok (a, with_mem s m1)) by (unfold on_mem; by rewrite Em).
  run E1. destruct Ha as [[-> Hb]|(-> & Hlt & Hb)]; [by exists (with_mem s m1)|].
  set (a := brk (mem_of s)) in *. assert (Hn : a <> NULL) by (destruct Hm; unfold a, NULL; lia).
  rewrite (proj2 (Z.eqb_neq _ _) Hn). set (s1 := with_mem s m1).
  destruct (client_socket_refused net nested su STACK_OPTS (client_opts (junk fns) str) p s1 Hp Ht) as (s2 & E2 & M2 & H2 & R2).
  { destruct (blocks (mem_of s1) !! STACK_OPTS) eqn:E; [|done]. destruct Hm1 as [Hr Hm1]. apply Hm1 in E. unfold STACK_OPTS in E. lia. }
  run E2. change (mem_of s1) with m1 in M2.
  assert (B2 : blocks (mem_of s2) !! a = Some (replicate 8 0 ++ le_bytes 8 NULL ++ replicate 72 0)) by (by rewrite M2, Hb, lookup_insert_eq).
  assert (E3 : uput CL_SOCK a NULL s2 = Ok (tt, with_mem s2 (mk_mem (<[a := replicate 8 0 ++ le_bytes 8 NULL ++ replicate 72 0]> (blocks (mem_of s2)))
    (brk (mem_of s2)) (oom (mem_of s2))))).
  { unfold uput, on_mem, put_field. change CL_SOCK.1 with 8. change (Z.to_nat CL_SOCK.2) with 8%nat.
    by rewrite (store_at_ok _ a (replicate 8 0) (le_bytes 8 NULL) (le_bytes 8 NULL) (replicate 72 0) 8 B2). }
  run E3. rewrite insert_id by done. change (NULL =? NULL) with true. cbv iota. set (s3 := with_mem s2 _).
  assert (M3 : mem_of s3 = m1) by (unfold s3; rewrite mem_of_with, <- M2; by destruct (mem_of s2)).
  unfold client_error.
  assert (E4 : uget CL_SOCK a s3 = Ok (NULL, s3)).
  { unfold uget, on_mem. rewrite M3. rewrite M2 in B2. change CL_SOCK with (8, 8).
    rewrite (get_field_ok m1 a (replicate 8 0) 8 NULL (replicate 72 0) 8 8 B2) by done.
    rewrite <- M3. by rewrite with_mem_of. }
  run E4. change (negb (NULL =? NULL)) with false. cbv iota.
  run (eq_refl : (mret tt : M ust unit) s3 = Ok (tt, s3)).
  assert (E5 : on_mem (kylin_free a) s3 = Ok (tt, with_mem s3 (mk_mem (delete a (blocks m1)) (brk m1) (oom m1)))).
  { unfold on_mem. rewrite M3. rewrite free_live; [done|exact Hn|]. rewrite Hb, lookup_insert_eq. by eexists. }
  run E5. eexists. split; [reflexivity|]. cbn. rewrite Hb. split; [|split; [exact H2|exact R2]].
  apply delete_insert_id. by apply mem_ok_fresh.
Qed.

(** The length of a request is in the command, at most 2^13 - 1: the check
    against the room of a message never fails. *)
Lemma request_len_small cmd : 0 <= request_len cmd < 2 ^ 13.
Proof.
  unfold request_len. change (u32 (- IOC_DIRMASK - 1)) with (Z.ones 29). rewrite Z.land_ones, Z.shiftr_div_pow2 by lia.
  pose proof (Z.mod_pos_bound (u64 cmd) (2 ^ 29) ltac:(lia)).
  assert (0 <= u64 cmd mod 2 ^ 29 / 2 ^ 16 < 2 ^ 13).
  { split; [apply Z.div_pos; lia|]. apply Z.div_lt_upper_bound; lia. }
  unfold sw. rewrite (Z.mod_small (_ / _)) by lia. rewrite (proj2 (Z.ltb_lt _ _)) by lia. lia.
Qed.

(** ** A run: the library is initialised, a server is made, two connections are
    offered to it *)
Definition usock_nested : nested_dtors := mk_nested_dtors (fun _ _ => Ub) (fun _ _ => Ub) (fun _ _ => Ub).
Definition no_socket_user : Socket.user_ops :=
  Socket.mk_user (fun _ _ _ => Ub) (fun _ _ _ => Ub) (fun _ _ _ => Ub) (fun _ _ _ => Ub) (fun _ _ _ _ _ _ => Ub)
    (fun _ _ _ _ _ _ => Ub) (fun _ _ _ _ => Ub) (fun _ _ _ => Ub) (fun _ _ => Ub) (fun _ _ => Ub).
Definition no_event_user : Event.user_ops :=
  Event.mk_user (fun _ _ _ _ _ => Ub) (fun _ _ _ _ _ => Ub) (fun _ _ _ _ _ => Ub) (fun _ _ _ _ => Ub) (fun _ _ => Ub)
    (fun _ _ _ => Ub) (fun _ _ => Ub) (fun _ _ => Ub).
Definition sample_net : Socket.system :=
  Socket.mk_system (fun h => match h with SysSocket _ _ :: _ => 5 | SysAccept _ :: _ => 7 | _ => 0 end) (fun _ => 0)
    (fun _ => []) (fun _ => []) (fun _ => 16).
Definition sample_ev : Event.system := Event.mk_system (fun _ => 0) (fun _ => ([], [], [])) (fun _ => []) (fun _ => []).
Definition sample_functions : functions :=
  mk_functions (fun _ _ => mret tt) (fun _ _ _ _ => mret 0) KOK (replicate 110 204).
(** The name "ab" at address 64. *)
Definition usock_name : Z := 64.
Definition usock_heap : KList.st := KList.mk_st ∅ (mk_mem {[usock_name := [97; 98; 0]]} 128 []) None.
Definition usock_boot : ust :=
  mk_ust (mk_sst 0 NULL default_splugin usock_heap []) (mk_est 0 NULL default_eplugin usock_heap ∅ []) usock_heap None None
    NULL NULL NULL NULL [].
Definition state_of {A} (r : outcome (A * ust)) : ust := match r with Ok (_, s) => s | _ => usock_boot end.
Definition usock_ready : ust :=
  state_of ((_ ← on_socket (kylin_socket_init no_socket_user); on_event (kylin_event_init no_event_user)) usock_boot).
Definition usock_served : ust := state_of (server_init sample_ev usock_nested no_event_user sample_functions usock_ready).
Definition sample_calls : list usock_call :=
  [ServerCreate usock_name 0 NULL NULL 1; Accept 5 (acpt_priv usock_served); ClientOpen usock_name].
Definition result_of {A} (r : outcome (A * ust)) : option A := match r with Ok (x, _) => Some x | _ => None end.
Abbreviation sample_run :=
  (run_all (run_call sample_net sample_ev usock_nested no_socket_user no_event_user sample_functions 9) sample_calls usock_served).

(** The state of a run is what its outcome holds: only the small result is
    computed. *)
Lemma state_of_Ok {A} (r : outcome (A * ust)) (x : A) : result_of r = Some x -> r = Ok (x, state_of r).
Proof. by destruct r as [[y s]| |]; intros [= ->]. Qed.

(** Reading a field leaves the state as it is. *)
Lemma uget_keeps f a (v : Z) s : result_of (uget_int f a s) = Some v -> uget_int f a s = Ok (v, s).
Proof.
  unfold uget_int. destruct (uget f a s) as [[w t]| |] eqn:E; [|by unfold mbind, M_bind; rewrite E..]. run E.
  enough (t = s) as -> by by intros [= ->]. revert E.
  unfold uget, on_mem, get_field, load_at, mbind, M_bind. destruct (blocks (mem_of s) !! a) as [b|]; [|done].
  destruct (read_bytes b f.1 f.2) as [bs| |]; [|done..]. cbn [outcome_bind]. intros [= _ <-]. exact (with_mem_of s).
Qed.

Lemma usock_served_ok :
  server_init sample_ev usock_nested no_event_user sample_functions usock_ready = Ok (KOK, usock_served).
Proof. unfold usock_served. apply (state_of_Ok _ KOK). vm_compute. reflexivity. Qed.

Lemma sample_run_ok : sample_run = Ok ([tt; tt; tt], state_of sample_run).
Proof. apply (state_of_Ok sample_run [tt; tt; tt]). vm_compute. reflexivity. Qed.

Lemma usock_requests_dropped_witness :
  __server_process sample_net no_socket_user sample_functions 10 7 (proc_priv (state_of sample_run)) (state_of sample_run) =
    Ok (tt, state_of sample_run) /\
  __server_process_error 10 7 (proc_priv (state_of sample_run)) (state_of sample_run) = Ok (tt, state_of sample_run) /\
  __server_process_timeout 10 7 (proc_priv (state_of sample_run)) (state_of sample_run) = Ok (tt, state_of sample_run).
Proof.
  apply (usock_requests_dropped sample_net sample_ev usock_nested no_socket_user no_event_user sample_functions 9 sample_calls
    usock_ready usock_served [tt; tt; tt] (state_of sample_run) 7 0).
  - intros a serv. apply table_ret.
  - intros a serv cmd data. apply table_ret.
  - reflexivity.
  - exact usock_served_ok.
  - exact sample_run_ok.
  - apply uget_keeps. vm_compute. reflexivity.
  - lia.
Defined.

(** A connection is hung up on as soon as it is there: its descriptor is closed,
    and neither loop is told of it. *)
Lemma accept_hangs_up :
  Socket.hist (usocks (state_of sample_run)) !! 0%nat = Some (SysClose 7) /\
  Socket.hist (usocks (state_of sample_run)) !! 1%nat = Some (SysAccept 5) /\
  ehist (uevents (state_of sample_run)) = [SysEpollCtl 0 EPOLL_CTL_ADD 5 (Z.lor EPOLLIN EPOLLRDHUP); SysEpollCreate 64; SysEpollCreate 64].
Proof. vm_compute. split_and!; reflexivity. Qed.

Lemma usock_ready_mem : mem_ok (mem_of usock_ready).
Proof.
  split; [vm_compute; split; congruence|]. intros a bs Ha.
  assert (H : map_Forall (fun a _ => 0 < a < brk (mem_of usock_ready)) (blocks (mem_of usock_ready))).
  { apply (bool_decide_unpack _). vm_compute. exact I. }
  exact (H a bs Ha).
Qed.

Lemma usock_client_never_opens_witness :
  exists s', kylin_usock_client_open sample_net usock_nested no_socket_user sample_functions usock_name usock_ready = Ok (NULL, s') /\
    blocks (mem_of s') = blocks (mem_of usock_ready) /\ Socket.hist (usocks s') = Socket.hist (usocks usock_ready) /\
    cli_rb s' = cli_rb usock_ready.
Proof.
  apply (usock_client_never_opens sample_net usock_nested no_socket_user sample_functions usock_name [97; 98]
    (mk_plugin 0 KYLIN_SOCK_MAX (client_reg Unix)) usock_ready).
  - vm_compute. reflexivity.
  - reflexivity.
  - apply usock_ready_mem.
  - vm_compute. reflexivity.
Defined.
